(* ===== verification/_CoqProject ===== *)
-Q . S2P
Prelude.v
Text.v
NetAddr.v
ProxyProtocol.v
Http1Target.v
Http1Head.v
Http1Chunked.v
Http1ChunkedSpec.v
Http1ChunkedProps.v
Http1HeadProps.v
LbRetry.v
LbBackend.v
LbBackendProps.v
LbState.v
LbPolicy.v
LbPolicyProps.v
LbSelect.v
LbMaglev.v
LbKetama.v
LbCookie.v
LbPersistence.v
LbBalancer.v
LbFrame.v
LbSelectProps.v
LbBalancerProps.v
LbServes.v
LbAdmission.v
LbQueue.v
LbFair.v
LbMutation.v
CacheBins.v
CacheBinsProps.v
HostNames.v
Headers.v
RequestHeaders.v
UpstreamRequest.v
Transport.v
UpstreamResponse.v
ResponseRelay.v
BodyBudget.v
Http1Server.v
Http1ServerProps.v
CacheKey.v
CachePurge.v
CacheControl.v
CacheObject.v
CacheObjectProps.v
CacheEntry.v
CacheRange.v
MemoryCache.v
MemoryCacheProps.v
MemoryHistory.v
MemoryBounds.v
CacheLookup.v
MemorySample.v
Choice.v
PathSafety.v
HostRouter.v
AccessPolicy.v
RouteMatch.v
Cors.v
RouteProxy.v
RouteProxyProps.v
RoutingSample.v
FileSystem.v
StaticPlan.v
StaticWeb.v
StaticResponse.v
StaticWebProps.v
StaticServed.v
StaticCacheProps.v
StaticListingProps.v
StaticSample.v
PhpScript.v
PhpResponse.v
PhpRequest.v
PhpProps.v
