(* ===== verification/Prelude.v ===== *)
(** * Fluxheim verification development

    Fluxheim is an HTTP gateway and reverse proxy written in Rust.  This library
    models the parts of it that decide what a byte stream means, where a request
    goes and what is said about its client, and proves that they do so
    correctly.  Paths below are relative to [src/crates/].

    ** The program and how its parts interact

    A listener ([fluxheim-server]) accepts a connection, possibly reads a PROXY
    protocol header, and runs a loop that reads request heads and bodies with
    the parsers of [fluxheim-protocol].  The memory of bodies is admitted by a
    budget shared by all connections.  The host router picks a virtual host for
    a request, its routes are matched, policies on access, rates and concurrency
    are applied, and the request is rewritten, redirected, answered as a
    preflight, answered from a directory of files ([fluxheim-web]), or forwarded.
    A request that is forwarded goes through the request header policy, which removes headers that claim a client address and writes the
    forwarding headers ([fluxheim-headers]).  The load balancer
    ([fluxheim-load-balancer]) picks a member of a pool, by persistence or by one
    of ten algorithms, and admits the connection.  The request is then written
    to the member, its response is read and written to the client, and the
    connection to the member is kept when it stands exactly at the end of the
    response.  Responses that may be shared are kept by the cache
    ([fluxheim-cache] and the [native_http1_cache*] and
    [native_http1_proxy_memory_cache*] files of the server) under a key made of
    the request, one entry for each variant; entries live in memory and on disk,
    there possibly in bins of fixed size, and are purged through an index.

    ** Files

    Shared vocabulary:
    - [Prelude]: results and [?], machine integers with checked, saturating and
      wrapping operations, lists indexed by [Z], the tactics and hints.
    - [Text]: the functions of [core::str] and [u8] in use; a [&str] is the list
      of its bytes.
    - [NetAddr]: [core::net] addresses, their parser and printer.
    - [FileSystem]: [std::path], and the calls of [std::fs] and [rustix::fs] on a
      tree of inodes with symbolic links, which may change between two calls; a
      computation over it is a function of the states and of the number of calls
      made so far ([Io]).

    Protocol ([fluxheim-protocol/src]):
    - [ProxyProtocol]: [proxy_protocol.rs].
    - [Http1Target]: errors, tokens and the predicates of [lib.rs],
      [http1_target.rs], [http1_request_target] and authorities.
    - [Http1Head], [Http1HeadProps]: [http1.rs], [http1_connection.rs] and
      [http1_response.rs]: [parse_http1_request_head], framing, [Host], the head
      buffer.
    - [Http1Chunked]: [http1_chunked.rs], the incremental decoder
      [Http1ChunkedDecoder] with its buffer, offsets and compaction;
      [Http1ChunkedSpec] is the reader of a plain list of bytes it refines, and
      [Http1ChunkedProps] its properties.

    Load balancer ([fluxheim-load-balancer/src]):
    - [LbRetry]: [retry_budget.rs], [retry.rs].
    - [LbBackend], [LbBackendProps]: [backend*.rs], the set of members with
      shared health cells.
    - [LbState], [LbPolicy], [LbPolicyProps]: [state.rs], [policy*.rs].
    - [LbSelect], [LbMaglev], [LbKetama]: [selection*.rs].
    - [LbCookie], [LbPersistence]: [persistence*.rs].
    - [LbBalancer]: [lib.rs], [inner.rs], [api_selection.rs], the selection a
      request sees.  [LbFrame] has a concrete pool and says what a selection
      leaves alone.  [LbSelectProps], [LbBalancerProps], [LbServes] (a member is
      found, and the same one again) and [LbFair] (fairness, least load, minimal
      disruption) hold its theorems.
    - [LbAdmission], [LbQueue]: [state.rs] and [queue.rs], under interleaving.
    - [LbMutation]: [runtime_mutation.rs], [runtime_state.rs], [api*.rs].

    Cache ([fluxheim-cache/src] and the cache of [fluxheim-server/src]):
    - [CacheBins], [CacheBinsProps]: [storage_bin_alloc.rs] and the locations of
      [storage_bin_manifest.rs].
    - [CacheKey]: the keys of [request.rs] and the variants of [headers_vary.rs].
    - [CacheControl]: [headers_directives.rs], [headers_response.rs],
      [headers_vary.rs] and [headers_stale.rs].
    - [CacheRange]: the ranges and slices of [request.rs].
    - [CachePurge]: [purge_index.rs].
    - [CacheObject], [CacheObjectProps]: [object.rs], [tags.rs] and the encodings
      of [native_http1_cache_meta.rs].  [CacheEntry]: an entry, its times, and what is written for it and read back.
    - [MemoryCache]: [native_http1_cache_memory.rs],
      [native_http1_proxy_memory_cache.rs] with its [store.rs], [lookup.rs] and
      [disk.rs], and the purges of [native_http1_proxy_runtime.rs].
      [MemoryCacheProps] says what its operations keep, [MemoryHistory] what is
      served and purged after any history, [MemoryBounds] that its size is
      bounded; [MemorySample] is a concrete cache.
    - [CacheLookup]: [headers_request.rs] and the lookup of a request in
      [lookup.rs].

    Headers and server ([fluxheim-config], [fluxheim-headers],
    [fluxheim-server/src]):
    - [HostNames]: [config_net.rs].
    - [Headers]: [client_ip.rs], [hop_by_hop.rs], [lib.rs] of the
      headers crate, and the trusted sources of [proxy_protocol.rs].
    - [RequestHeaders]: [native_http1_route_request_headers.rs].
    - [UpstreamRequest]: [native_http1_client/request.rs] and
      [native_http1_forwarded.rs].
    - [Transport]: what a connection delivers, pieces and faults, and what
      incremental reading of heads and of chunked bodies yields on any such
      source; the server and the client side use both.
    - [UpstreamResponse]: [native_http1_upstream_response.rs] and [native_http1/response.rs].
      [ResponseRelay] is the response as the client reads it.
    - [BodyBudget]: [request_body_budget.rs] and the growth of body buffers.
    - [Http1Server], [Http1ServerProps]: [native_http1.rs] and
      [native_http1/body.rs], the connection loop.

    Routing ([fluxheim-server/src], [fluxheim-common], [fluxheim-config]):
    - [Choice]: the first and the best of a list.
    - [PathSafety]: [path_safety.rs] of the common crate.
    - [HostRouter]: [native_http1_host_router.rs].
    - [AccessPolicy]: [native_http1_route_limits/access.rs].
    - [RouteMatch]: [native_http1_route_matcher.rs], the selection of a route, and
      [native_http1_route_rewrite.rs], [native_http1_route_redirect.rs].
    - [Cors]: [native_http1_cors.rs], [native_http1_route_response_headers.rs] and
      [native_http1_response_metadata.rs].
    - [RouteProxy], [RouteProxyProps]: [native_http1_route_proxy_handler.rs], from
      the virtual host to the action of a route.  [RoutingSample] is a concrete
      virtual host.

    Static files ([fluxheim-web/src], [fluxheim-server/src]):
    - [StaticPlan]: [lib.rs] of the web crate.
    - [StaticWeb]: [native_http1_static_web_resolve.rs] and
      [directory_listing.rs].
    - [StaticResponse]: [native_http1_static_web_response.rs] and the handlers and
      the cache of [native_http1_static_web.rs].
    - [StaticWebProps], [StaticServed], [StaticCacheProps],
      [StaticListingProps]: what is sent, when it is, from the cache, and in a
      listing.  [StaticSample] is a concrete site.

    ** How the code is represented

    Rust's [Result] is [result], [?] is [let?].  Unsigned integers are [Z] with
    their width written out where the code checks or saturates.  Byte slices and
    strings are [list Z].  [HashMap] is [gmap]; a [BTreeSet] is a sorted list.
    Stateful code passes its state; the load balancer uses a small state monad
    [M] over [World].  Clock readings and random values are streams of the
    environment.  Atomics and locks that several tasks use are step systems
    whose steps are the atomic operations ([LbRetry], [LbAdmission],
    [BodyBudget]).  A connection ([Http1Server.Conn]) is the list of what the
    transport delivers ([Transport.Delivery]), and of the answers of the shared
    budget and of the allocator.  The memory cache runs one critical section of
    its lock at a time, so an interleaving of requests is a list of operations
    ([MemoryHistory.CacheOp]).  Instants and system times are counted in
    nanoseconds and passed to the operations that read them.  HMAC, SHA-256,
    CRC-32, base64, dates, percent encoding, regular expressions, the names and
    values the [http] package accepts, what limiters answer, the order of a hash
    map and the unstable sort come from other packages or are not fixed,
    and are parameters with the laws the code relies on, instantiated in the
    witnesses.

    ** What the theorems show

    - Framing.  The chunked decoder computes the reference reader whatever the
      fragments, never panics and never runs out of steps; every well-formed
      body is decoded; where a body ends depends only on the bytes consumed.
      Heads parsed incrementally are those parsed at once; accepted heads, body
      framing and the effective authority are characterised exactly; printed
      heads parse back.
    - The connection loop.  The requests handed to the handler are those of the
      byte stream read message by message, whatever pieces it arrives in; faults
      and refusals only cut the sequence short; two ways of cutting the same
      bytes into packets cannot be told apart.  The memory admitted for bodies
      stays within the budget.
    - The upstream request.  What is written is read, whatever follows, as
      exactly one message with the same method, headers and body.  Headers that
      claim a client address cannot influence it.
    - The response.  What is read from an upstream is the response of the byte
      stream whatever pieces it arrives in; a connection is used again only when
      no byte beyond the response was taken; the client reads what is written as
      exactly one message with the same status, end-to-end headers and body.
    - Client addresses.  Only trusted peers are believed; the result does not
      depend on anything written before the first untrusted hop.
    - Selection.  The member returned may take the request and is counted once;
      a member is found whenever there is one; persistence, fairness, minimal
      disruption and balance of the hashing schemes; retries avoid members
      already tried.  Limits on connections, retries and waiting hold under every
      interleaving.  The member set refines a finite map; changes at run time
      have exactly their effect; snapshots restore.
    - Routing.  A host name goes to the virtual host that declares it; the route
      selected is the one the documented order names; a request reaches the
      action of a route exactly when every policy on the way lets it through; a
      rewritten path stays below the configured prefix whatever is decoded later;
      cross-origin headers are exactly those granted.
    - Static files.  Whatever happens to the file system meanwhile, what is sent
      comes from a regular file below the root that the request names, without
      following symbolic links; in a file system at rest every such file is
      served; an answer from the cache is that of the same file, unchanged; a
      listing shows exactly what may be shown.
    - Cache bins.  Live objects never overlap and every byte is accounted for.
    - Cache.  Keys identify the parts of the request that were configured.  Only
      responses that may be shared are stored.  After any history of the memory
      tier without promotions from disk, only a request without credentials that
      meets no bypass rule is answered, and the answer is a response stored for
      the same key and the same values of the headers it varies on, within its
      time to live or a stale window; a purge removes exactly what it names.  The memory tier keeps within
      its size, promotions included.  An entry written to disk is read back with
      the same response and no later expiry.  The slices fetched for a range
      request are exactly those needed.

    ** Bounds and fuel

    Loops without a structural argument take fuel, and a theorem shows that the
    fuel given is enough, so no result is an artefact of it: [process] gets two
    turns per buffered byte, because each turn consumes a byte or changes state;
    the loops of [Http1Server] and [UpstreamResponse] get the number of deliveries and bytes still to
    come, because each turn takes at least one off; the reference reader gets the
    number of bytes; the Maglev table gets a full turn of every probe sequence,
    after which it is filled; [wait_loop] gets any fuel above the number of polls
    that fit its deadline; reclaiming bins gets the number of bins; rendering a
    template and splitting chunk extensions get the length of the text; printing
    a number gets more turns than it has digits; reading a cache key gets its
    length; the slices of a range get one turn for each slice up to its end;
    pruning counters gets their number.  The limits of
    the parsers are arbitrary, subject to well-formedness conditions
    ([chunk_limits_wf], [head_limits_wf], [policy_wf]) under which no sum
    overflows; the default limits satisfy them.

    ** Not modelled

    - Timers, sockets, TLS, HTTP/2, gRPC and WebSocket forwarding, FastCGI, TCP and
      UDP streams, WASM, ACME, GeoIP, logging, metrics and operating-system
      integration: they are input and output, or call libraries whose sources are
      not here.
    - Configuration loading; the values it produces are arguments.
    - The token buckets of the rate limiters, which count in floating point, and
      the semaphores of the concurrency limiters; their answers are arguments.
    - Static files on Windows, and whether there is memory for a response.
    - Of the cache: the files, index, eviction and encryption of the disk tier,
      fetching and composing slices, filling from peers and waiting for a fill.
      An entry read from disk is an argument of [promote_disk_entry].
    - Memory exhaustion: allocation succeeds.  Writing to a connection succeeds.
    - Regular-expression captures in header templates, and the state files of the
      load balancer.
    - On a 64-bit target [usize] is [u64]; other targets are not considered. *)
From Stdlib Require Import ZArith Lia Sorted.
From stdpp Require Import base list numbers strings gmap.

#[global] Set Default Proof Using "Type".
Open Scope Z_scope.

(** ** Results: Rust's [Result] and the [?] operator *)

Inductive result (A E : Type) : Type :=
| Ok (a : A)
| Err (e : E).
Arguments Ok {A E} _.
Arguments Err {A E} _.

#[export] Instance result_eq_dec {A E} `{EqDecision A, EqDecision E} :
  EqDecision (result A E).
Proof. solve_decision. Defined.

Declare Scope rust_scope.
Delimit Scope rust_scope with rust.
Open Scope rust_scope.

(** [let? x := e in k] is Rust's [let x = e?; k]. *)
Notation "'let?' p ':=' e 'in' k" :=
  (match e with Ok p => k | Err err => Err err end)
  (at level 10, p pattern, e at level 150, k at level 200) : rust_scope.

(** [let* x := e in k] is the same for an [Option]. *)
Notation "'let*' p ':=' e 'in' k" :=
  (match e with Some p => k | None => None end)
  (at level 10, p pattern, e at level 150, k at level 200) : rust_scope.

(** [o.ok_or(e)] *)
Definition ok_or {A E} (o : option A) (e : E) : result A E :=
  match o with Some a => Ok a | None => Err e end.

(** [r.map_err(|_| e)] *)
Definition map_err {A E F} (r : result A E) (e : F) : result A F :=
  match r with Ok a => Ok a | Err _ => Err e end.

(** [r.ok()] *)
Definition result_ok {A E} (r : result A E) : option A :=
  match r with Ok a => Some a | Err _ => None end.

(** ** Machine integers

    A Rust unsigned integer of width [w] is a [Z] in [0, 2^w).  [usize] has 64
    bits, the width of every target the repository ships. *)

Definition U8_MAX : Z := 255.
Definition U16_MAX : Z := 65535.
Definition U32_MAX : Z := 4294967295.
Definition U64_MAX : Z := 18446744073709551615.
Definition USIZE_MAX : Z := U64_MAX.
Definition U128_MAX : Z := 340282366920938463463374607431768211455.

Definition checked_add (max a b : Z) : option Z :=
  if a + b <=? max then Some (a + b) else None.
Definition checked_mul (max a b : Z) : option Z :=
  if a * b <=? max then Some (a * b) else None.
Definition saturating_add (max a b : Z) : Z := Z.min (a + b) max.
Definition saturating_sub (a b : Z) : Z := Z.max (a - b) 0.
Definition saturating_mul (max a b : Z) : Z := Z.min (a * b) max.
Definition wrapping_mul (max a b : Z) : Z := (a * b) mod (max + 1).

Definition in_u8 (b : Z) : Prop := 0 <= b <= U8_MAX.
Definition in_u16 (x : Z) : Prop := 0 <= x <= U16_MAX.
Definition in_u32 (x : Z) : Prop := 0 <= x <= U32_MAX.
Definition in_u64 (x : Z) : Prop := 0 <= x <= U64_MAX.
Definition in_usize (x : Z) : Prop := 0 <= x <= USIZE_MAX.

Create HintDb rust.
Create Rewrite HintDb zlist.
#[export] Hint Unfold in_u8 in_u16 in_u32 in_u64 in_usize : rust.
#[export] Hint Unfold U8_MAX U16_MAX U32_MAX U64_MAX USIZE_MAX U128_MAX : rust.
#[export] Hint Unfold saturating_add saturating_sub saturating_mul : rust.

(** [ulia]: linear arithmetic after unfolding the integer bounds and the
    saturating operations. *)
Ltac ulia :=
  unfold in_u8, in_u16, in_u32, in_u64, in_usize,
    saturating_add, saturating_sub, saturating_mul,
    USIZE_MAX, U8_MAX, U16_MAX, U32_MAX, U64_MAX, U128_MAX in *; lia.

(** Boolean comparisons of the code become propositions. *)
Ltac breflect :=
  repeat match goal with
  | H : (_ && _) = true |- _ => apply andb_true_iff in H; destruct H
  | H : (_ || _) = false |- _ => apply orb_false_iff in H; destruct H
  | H : negb _ = true |- _ => apply negb_true_iff in H
  | H : negb _ = false |- _ => apply negb_false_iff in H
  | H : (_ <? _)%Z = true |- _ => apply Z.ltb_lt in H
  | H : (_ <? _)%Z = false |- _ => apply Z.ltb_ge in H
  | H : (_ <=? _)%Z = true |- _ => apply Z.leb_le in H
  | H : (_ <=? _)%Z = false |- _ => apply Z.leb_gt in H
  | H : (_ =? _)%Z = true |- _ => apply Z.eqb_eq in H
  | H : (_ =? _)%Z = false |- _ => apply Z.eqb_neq in H
  | H : bool_decide _ = true |- _ => apply bool_decide_eq_true in H
  | H : bool_decide _ = false |- _ => apply bool_decide_eq_false in H
  end.

(** One step of a case analysis on the code's own branches: destruct the
    scrutinee of a [match] or [if] in hypothesis [H], naming the equation. *)
Ltac branch H :=
  match type of H with
  | context [match ?x with _ => _ end] =>
      let E := fresh "E" in destruct x eqn:E; simplify_eq/=
  end.
Ltac branches H := repeat (branch H); breflect.

(** Decide the comparisons of the goal that linear arithmetic settles. *)
Ltac zcond :=
  repeat match goal with
  | |- context [(?a <? ?b)%Z] =>
      first [rewrite (proj2 (Z.ltb_lt a b)) by lia | rewrite (proj2 (Z.ltb_ge a b)) by lia]
  | |- context [(?a <=? ?b)%Z] =>
      first [rewrite (proj2 (Z.leb_le a b)) by lia | rewrite (proj2 (Z.leb_gt a b)) by lia]
  | |- context [(?a =? ?b)%Z] =>
      first [rewrite (proj2 (Z.eqb_eq a b)) by lia | rewrite (proj2 (Z.eqb_neq a b)) by lia]
  end.

Lemma saturating_add_le max a b : saturating_add max a b <= max.
Proof. ulia. Qed.
Lemma saturating_add_exact max a b : a + b <= max -> saturating_add max a b = a + b.
Proof. ulia. Qed.
Lemma saturating_sub_exact a b : b <= a -> saturating_sub a b = a - b.
Proof. ulia. Qed.
Lemma saturating_sub_nonneg a b : 0 <= saturating_sub a b.
Proof. ulia. Qed.
Lemma saturating_mul_exact max a b : a * b <= max -> saturating_mul max a b = a * b.
Proof. unfold saturating_mul. lia. Qed.
Lemma checked_add_Some max a b c :
  checked_add max a b = Some c <-> a + b <= max /\ c = a + b.
Proof. unfold checked_add. case_match; breflect; split; intros; simplify_eq; lia || by f_equal; lia. Qed.
Lemma checked_mul_Some max a b c :
  checked_mul max a b = Some c <-> a * b <= max /\ c = a * b.
Proof. unfold checked_mul. case_match; breflect; split; intros; simplify_eq; lia || by f_equal; lia. Qed.
Lemma checked_add_exact max a b : a + b <= max -> checked_add max a b = Some (a + b).
Proof. intros. by apply checked_add_Some. Qed.

#[export] Hint Resolve saturating_add_le saturating_sub_nonneg : rust.

(** ** Slices

    A byte is a [Z]; a slice, a [Vec] or a [str] is a [list Z].  Lengths and
    indices are [Z], as [usize] is, so that no unary number appears in a
    computation. *)

Definition zlen {A} (l : list A) : Z := Z.of_nat (length l).
Definition ztake {A} (n : Z) (l : list A) : list A := take (Z.to_nat n) l.
Definition zdrop {A} (n : Z) (l : list A) : list A := drop (Z.to_nat n) l.
Definition zget {A} (l : list A) (i : Z) : option A :=
  if i <? 0 then None else l !! Z.to_nat i.
(** [l.get(a..b)] *)
Definition zslice {A} (l : list A) (a b : Z) : option (list A) :=
  if (0 <=? a) && (a <=? b) && (b <=? zlen l) then Some (ztake (b - a) (zdrop a l)) else None.

Section Slices.
Context {A : Type}.
Implicit Types l k : list A.

Lemma zlen_nonneg l : 0 <= zlen l.
Proof. unfold zlen. lia. Qed.
Lemma zlen_nil : zlen (@nil A) = 0.
Proof. done. Qed.
Lemma zlen_cons x l : zlen (x :: l) = 1 + zlen l.
Proof. unfold zlen. cbn [length]. lia. Qed.
Lemma zlen_app l k : zlen (l ++ k) = zlen l + zlen k.
Proof. unfold zlen. rewrite length_app. lia. Qed.
Lemma zlen_rev l : zlen (rev l) = zlen l.
Proof. unfold zlen. by rewrite length_rev. Qed.
Lemma zlen_0 l : zlen l = 0 -> l = [].
Proof. unfold zlen. destruct l; cbn [length]; [done|lia]. Qed.
Lemma zlen_take n l : 0 <= n -> zlen (ztake n l) = Z.min n (zlen l).
Proof. unfold zlen, ztake. rewrite length_take. lia. Qed.
Lemma zlen_drop n l : 0 <= n -> zlen (zdrop n l) = Z.max 0 (zlen l - n).
Proof. unfold zlen, zdrop. rewrite length_drop. lia. Qed.
Lemma zlen_drop_le n l : zlen (zdrop n l) <= zlen l.
Proof. unfold zlen, zdrop. rewrite length_drop. lia. Qed.
Lemma ztake_drop n l : ztake n l ++ zdrop n l = l.
Proof. apply take_drop. Qed.
Lemma zdrop_0 l : zdrop 0 l = l.
Proof. done. Qed.
Lemma ztake_0 l : ztake 0 l = [].
Proof. done. Qed.
Lemma zdrop_drop a b l : 0 <= a -> 0 <= b -> zdrop a (zdrop b l) = zdrop (b + a) l.
Proof. intros. unfold zdrop. rewrite drop_drop. f_equal. lia. Qed.
Lemma ztake_ge n l : zlen l <= n -> ztake n l = l.
Proof. unfold zlen, ztake. intros. apply take_ge. lia. Qed.
Lemma zdrop_ge n l : zlen l <= n -> zdrop n l = [].
Proof. unfold zlen, zdrop. intros. apply drop_ge. lia. Qed.
Lemma ztake_app_le n l k : n <= zlen l -> ztake n (l ++ k) = ztake n l.
Proof. unfold zlen, ztake. intros. apply take_app_le. lia. Qed.
Lemma ztake_app_ge n l k :
  zlen l <= n -> ztake n (l ++ k) = l ++ ztake (n - zlen l) k.
Proof.
  unfold zlen, ztake. intros. rewrite take_app_ge by lia. do 2 f_equal. lia.
Qed.
Lemma zdrop_app_le n l k : n <= zlen l -> zdrop n (l ++ k) = zdrop n l ++ k.
Proof. unfold zlen, zdrop. intros. apply drop_app_le. lia. Qed.
Lemma zdrop_app_ge n l k : zlen l <= n -> zdrop n (l ++ k) = zdrop (n - zlen l) k.
Proof. unfold zlen, zdrop. intros. rewrite drop_app_ge by lia. f_equal. lia. Qed.
Lemma ztake_app_exact l k : ztake (zlen l) (l ++ k) = l.
Proof. unfold zlen, ztake. rewrite Nat2Z.id. apply take_app_length. Qed.
Lemma zdrop_app_exact l k : zdrop (zlen l) (l ++ k) = k.
Proof. unfold zlen, zdrop. rewrite Nat2Z.id. apply drop_app_length. Qed.
Lemma zdrop_cons n x l : 0 < n -> zdrop n (x :: l) = zdrop (n - 1) l.
Proof.
  intros. unfold zdrop. replace (Z.to_nat n) with (S (Z.to_nat (n - 1))) by lia. done.
Qed.
Lemma ztake_cons n x l : 0 < n -> ztake n (x :: l) = x :: ztake (n - 1) l.
Proof.
  intros. unfold ztake. replace (Z.to_nat n) with (S (Z.to_nat (n - 1))) by lia. done.
Qed.
Lemma ztake_take a b l : ztake a (ztake b l) = ztake (Z.min a b) l.
Proof. unfold ztake. rewrite take_take. f_equal. lia. Qed.
Lemma zdrop_take a b l : 0 <= a -> zdrop a (ztake b l) = ztake (b - a) (zdrop a l).
Proof. intros. unfold ztake, zdrop. rewrite skipn_firstn_comm. f_equal. lia. Qed.

Lemma ztake_split a b l :
  0 <= a <= b -> ztake b l = ztake a l ++ ztake (b - a) (zdrop a l).
Proof.
  intros. rewrite <-(ztake_drop a l) at 1.
  destruct (Z.le_gt_cases a (zlen l)).
  - rewrite ztake_app_ge by (rewrite zlen_take by lia; lia).
    rewrite zlen_take by lia. do 2 f_equal. lia.
  - rewrite zdrop_ge by lia. unfold ztake at 4. rewrite take_nil, app_nil_r.
    apply ztake_ge. rewrite zlen_take by lia. lia.
Qed.

Lemma zget_Some l i x : zget l i = Some x -> 0 <= i < zlen l.
Proof.
  unfold zget, zlen. case_match; [done|]. breflect. intros ?%lookup_lt_Some. lia.
Qed.
Lemma zget_drop l i : 0 <= i -> zget l i = head (zdrop i l).
Proof.
  intros. unfold zget, zdrop.
  replace (i <? 0) with false by (symmetry; apply Z.ltb_ge; lia).
  generalize (Z.to_nat i) as n. clear. induction l as [|x l IH]; intros [|n]; try done.
  apply IH.
Qed.
Lemma zget_app_ge l k i : zlen l <= i -> zget (l ++ k) i = zget k (i - zlen l).
Proof.
  intros Hi. unfold zget, zlen in *. zcond. rewrite lookup_app_r by lia. f_equal. lia.
Qed.
Lemma zslice_Some l a b k :
  zslice l a b = Some k <-> 0 <= a <= b /\ b <= zlen l /\ k = ztake (b - a) (zdrop a l).
Proof. unfold zslice. case_match; breflect; naive_solver lia. Qed.
Lemma zslice_None l a b :
  0 <= a <= b -> zslice l a b = None -> zlen l < b.
Proof.
  unfold zslice. intros ?. destruct (Z.leb_spec b (zlen l)); [|lia].
  rewrite !(proj2 (Z.leb_le _ _)) by lia. done.
Qed.
End Slices.

(** ** Filters *)

Lemma elem_of_concat {A} (ls : list (list A)) x : x ∈ concat ls <-> exists l, l ∈ ls /\ x ∈ l.
Proof. rewrite list_elem_of_In, in_concat. by setoid_rewrite list_elem_of_In. Qed.

Lemma filter_all {A} (P : A -> Prop) `{forall x, Decision (P x)} (l : list A) : Forall P l -> filter P l = l.
Proof. induction 1 as [|x l Hx Hl IH]; [done|]. by rewrite filter_cons_True, IH. Qed.
Lemma filter_none {A} (P : A -> Prop) `{forall x, Decision (P x)} (l : list A) :
  Forall (fun x => ~ P x) l -> filter P l = [].
Proof. induction 1 as [|x l Hx Hl IH]; [done|]. by rewrite filter_cons_False. Qed.
Lemma filter_ext_in {A} (P Q : A -> Prop) `{forall x, Decision (P x)} `{forall x, Decision (Q x)}
    (l : list A) :
  (forall x, x ∈ l -> P x <-> Q x) -> filter P l = filter Q l.
Proof.
  induction l as [|x l IH]; intros Hl; [done|]. rewrite !filter_cons, IH by (intros; apply Hl; by right).
  assert (P x <-> Q x) by (apply Hl; by left). repeat case_decide; tauto.
Qed.
Lemma filter_comm {A} (P Q : A -> Prop) `{forall x, Decision (P x)} `{forall x, Decision (Q x)}
    (l : list A) :
  filter P (filter Q l) = filter Q (filter P l).
Proof.
  induction l as [|x l IH]; [done|]. rewrite !filter_cons.
  repeat case_decide; rewrite ?filter_cons_True, ?filter_cons_False, ?IH by done; done.
Qed.

Lemma StronglySorted_filter {A} (R : A -> A -> Prop) (P : A -> Prop) `{forall x, Decision (P x)} l :
  StronglySorted R l -> StronglySorted R (filter P l).
Proof.
  induction 1 as [|x l Hl IH Hx]; [constructor|]. rewrite filter_cons. case_decide; [|done].
  constructor; [done|]. rewrite !Forall_forall in *. intros y [_ Hy]%list_elem_of_filter. auto.
Qed.

#[export] Hint Rewrite @zlen_nil @zlen_cons @zlen_app @zlen_rev @zdrop_0 @ztake_0
  @ztake_drop @app_nil_r : zlist.
#[export] Hint Resolve zlen_nonneg : rust.

(** Close an arithmetic goal about list lengths. *)
Ltac zlen_facts :=
  repeat match goal with
  | |- context [zlen ?l] =>
      lazymatch goal with
      | _ : 0 <= zlen l |- _ => fail
      | _ => pose proof (zlen_nonneg l)
      end
  | H : context [zlen ?l] |- _ =>
      lazymatch goal with
      | _ : 0 <= zlen l |- _ => fail
      | _ => pose proof (zlen_nonneg l)
      end
  end.
Ltac zl := autorewrite with zlist in *; zlen_facts; ulia.
