(* ===== verification/Text.v ===== *)
(** * Rust text: byte literals, ASCII classes, UTF-8 strings, integer parsing

    The functions of [core::str] and [u8] that the modelled crates call.  A
    [&str] is the list of its UTF-8 bytes. *)
From Stdlib Require Import ZArith Lia Ascii.
From stdpp Require Import base list numbers strings sets.
From S2P Require Import Prelude.

(** Byte-string literals: [bs "GET"]. *)
Fixpoint bs (s : string) : list Z :=
  match s with
  | EmptyString => []
  | String c s' => Z.of_N (N_of_ascii c) :: bs s'
  end.

Abbreviation CR := 13.
Abbreviation LF := 10.
Abbreviation SP := 32.
Abbreviation HT := 9.
Definition crlf : list Z := [CR; LF].

(** ** ASCII classes of [u8] *)

Definition between (lo hi c : Z) : bool := (lo <=? c) && (c <=? hi).
Definition is_ascii_digit (c : Z) : bool := between 48 57 c.
Definition is_ascii_upper (c : Z) : bool := between 65 90 c.
Definition is_ascii_lower (c : Z) : bool := between 97 122 c.
Definition is_ascii_alphanumeric (c : Z) : bool :=
  is_ascii_digit c || is_ascii_upper c || is_ascii_lower c.
Definition is_ascii_hexdigit (c : Z) : bool :=
  is_ascii_digit c || between 65 70 c || between 97 102 c.
Definition to_ascii_lowercase1 (c : Z) : Z := if is_ascii_upper c then c + 32 else c.
Definition to_ascii_lowercase (s : list Z) : list Z := to_ascii_lowercase1 <$> s.
(** [a.eq_ignore_ascii_case(b)] *)
Definition eq_ignore_ascii_case (s t : list Z) : bool :=
  bool_decide (to_ascii_lowercase s = to_ascii_lowercase t).
Definition is_ascii (s : list Z) : bool := forallb (fun c => c <? 128) s.

(** ** Searching and splitting *)

(** [haystack.starts_with(p)] and [haystack.strip_prefix(p)] *)
Fixpoint strip_prefix (p s : list Z) : option (list Z) :=
  match p, s with
  | [], _ => Some s
  | x :: p', y :: s' => if x =? y then strip_prefix p' s' else None
  | _ :: _, [] => None
  end.
Definition starts_with (p s : list Z) : bool :=
  match strip_prefix p s with Some _ => true | None => false end.
Definition strip_suffix (p s : list Z) : option (list Z) :=
  match strip_prefix (rev p) (rev s) with Some r => Some (rev r) | None => None end.
Definition ends_with (p s : list Z) : bool :=
  match strip_suffix p s with Some _ => true | None => false end.

(** [s.bytes().position(f)] *)
Fixpoint position (f : Z -> bool) (s : list Z) : option Z :=
  match s with
  | [] => None
  | x :: s' => if f x then Some 0 else (fun i => i + 1) <$> position f s'
  end.
(** [s.find(c)] for an ASCII character *)
Definition find_byte (c : Z) (s : list Z) : option Z := position (fun x => x =? c) s.
Definition contains_byte (c : Z) (s : list Z) : bool := existsb (fun x => x =? c) s.

(** [s.find(p)] for a string pattern *)
Fixpoint find_sub (p s : list Z) : option Z :=
  if starts_with p s then Some 0
  else match s with
       | [] => None
       | _ :: s' => (fun i => i + 1) <$> find_sub p s'
       end.

(** [s.split(c)] for an ASCII separator: always at least one piece *)
Fixpoint split_byte (c : Z) (s : list Z) : list (list Z) :=
  match s with
  | [] => [[]]
  | x :: s' =>
      if x =? c then [] :: split_byte c s'
      else match split_byte c s' with
           | p :: ps => (x :: p) :: ps
           | [] => [[x]]
           end
  end.
(** [s.split_once(c)] *)
Fixpoint split_once (c : Z) (s : list Z) : option (list Z * list Z) :=
  match s with
  | [] => None
  | x :: s' =>
      if x =? c then Some ([], s')
      else match split_once c s' with
           | Some (l, r) => Some (x :: l, r)
           | None => None
           end
  end.
(** [s.split("\r\n")] *)
Fixpoint split_crlf (s : list Z) : list (list Z) :=
  match s with
  | [] => [[]]
  | x :: s' =>
      match s' with
      | y :: s'' =>
          if (x =? CR) && (y =? LF) then [] :: split_crlf s''
          else match split_crlf s' with
               | p :: ps => (x :: p) :: ps
               | [] => [[x]]
               end
      | [] => [[x]]
      end
  end.
(** [s.splitn(3, c)]: the pieces before the first two separators, then the rest *)
Definition splitn3 (c : Z) (s : list Z) : list (list Z) :=
  match split_once c s with
  | None => [s]
  | Some (p1, r1) =>
      match split_once c r1 with
      | None => [p1; r1]
      | Some (p2, r2) => [p1; p2; r2]
      end
  end.

(** ** UTF-8 and Unicode whitespace *)

Definition utf8_cont (c : Z) : bool := between 128 191 c.

(** [std::str::from_utf8] succeeds *)
Fixpoint utf8_valid (s : list Z) : bool :=
  match s with
  | [] => true
  | c0 :: s0 =>
      if between 0 127 c0 then utf8_valid s0
      else if between 194 223 c0 then
        match s0 with c1 :: s1 => utf8_cont c1 && utf8_valid s1 | _ => false end
      else if between 224 239 c0 then
        match s0 with
        | c1 :: c2 :: s2 =>
            between (if c0 =? 224 then 160 else 128) (if c0 =? 237 then 159 else 191) c1
            && utf8_cont c2 && utf8_valid s2
        | _ => false
        end
      else if between 240 244 c0 then
        match s0 with
        | c1 :: c2 :: c3 :: s3 =>
            between (if c0 =? 240 then 144 else 128) (if c0 =? 244 then 143 else 191) c1
            && utf8_cont c2 && utf8_cont c3 && utf8_valid s3
        | _ => false
        end
      else false
  end.

Definition ws1 (c : Z) : bool := between 9 13 c || (c =? 32).
Definition ws2 (c0 c1 : Z) : bool := (c0 =? 194) && ((c1 =? 133) || (c1 =? 160)).
Definition ws3 (c0 c1 c2 : Z) : bool :=
  ((c0 =? 225) && (c1 =? 154) && (c2 =? 128))
  || ((c0 =? 226) && (c1 =? 128)
      && (between 128 138 c2 || (c2 =? 168) || (c2 =? 169) || (c2 =? 175)))
  || ((c0 =? 226) && (c1 =? 129) && (c2 =? 159))
  || ((c0 =? 227) && (c1 =? 128) && (c2 =? 128)).

(** Drop leading characters with the White_Space property; their UTF-8
    encodings have one, two or three bytes, tested by [ws1], [w2] and [w3]. *)
Fixpoint trim_with (w2 : Z -> Z -> bool) (w3 : Z -> Z -> Z -> bool) (s : list Z) : list Z :=
  match s with
  | [] => []
  | c0 :: s0 =>
      if ws1 c0 then trim_with w2 w3 s0 else
      match s0 with
      | c1 :: s1 =>
          if w2 c0 c1 then trim_with w2 w3 s1 else
          match s1 with
          | c2 :: s2 => if w3 c0 c1 c2 then trim_with w2 w3 s2 else s
          | [] => s
          end
      | [] => s
      end
  end.
(** [str::trim_start], and the same on reversed bytes *)
Definition trim_start (s : list Z) : list Z := trim_with ws2 ws3 s.
Definition trim_rev (s : list Z) : list Z :=
  trim_with (fun c0 c1 => ws2 c1 c0) (fun c0 c1 c2 => ws3 c2 c1 c0) s.
Definition trim_end (s : list Z) : list Z := rev (trim_rev (rev s)).
Definition trim (s : list Z) : list Z := trim_end (trim_start s).

(** [str::split_whitespace]: maximal runs of non-whitespace characters.  [cur]
    holds the reversed bytes of the word being read. *)
Definition flush (cur : list Z) (ws : list (list Z)) : list (list Z) :=
  match cur with [] => ws | _ => rev cur :: ws end.
Fixpoint words_go (cur s : list Z) : list (list Z) :=
  match s with
  | [] => flush cur []
  | c0 :: s0 =>
      if ws1 c0 then flush cur (words_go [] s0) else
      match s0 with
      | c1 :: s1 =>
          if ws2 c0 c1 then flush cur (words_go [] s1) else
          match s1 with
          | c2 :: s2 =>
              if ws3 c0 c1 c2 then flush cur (words_go [] s2) else words_go (c0 :: cur) s0
          | [] => words_go (c0 :: cur) s0
          end
      | [] => words_go (c0 :: cur) s0
      end
  end.
Definition split_whitespace (s : list Z) : list (list Z) := words_go [] s.

(** ** Decimal numbers *)

Definition digit_value (c : Z) : option Z :=
  if is_ascii_digit c then Some (c - 48) else None.

(** Accumulate decimal digits with overflow checks, as [uN::from_str] does. *)
Fixpoint parse_digits (max acc : Z) (s : list Z) : option Z :=
  match s with
  | [] => Some acc
  | c :: s' =>
      match digit_value c with
      | None => None
      | Some d =>
          match checked_mul max acc 10 with
          | None => None
          | Some m =>
              match checked_add max m d with
              | None => None
              | Some n => parse_digits max n s'
              end
          end
      end
  end.
(** [s.parse::<uN>()]: an optional leading plus, then at least one digit. *)
Definition parse_uint (max : Z) (s : list Z) : option Z :=
  match s with
  | [] => None
  | c :: s' =>
      if c =? 43 then match s' with [] => None | _ => parse_digits max 0 s' end
      else parse_digits max 0 s
  end.

(** [n.to_string()] for a [u64] or narrower value. *)
Fixpoint digits_rev (fuel : nat) (n : Z) : list Z :=
  match fuel with
  | O => []
  | S f => (48 + n mod 10) :: (if n <? 10 then [] else digits_rev f (n / 10))
  end.
Definition to_decimal (n : Z) : list Z := rev (digits_rev 20 n).

(** ** Lemmas *)

Lemma strip_prefix_Some p s r : strip_prefix p s = Some r <-> s = p ++ r.
Proof.
  revert s. induction p as [|x p IH]; intros s; simpl; [naive_solver|].
  destruct s as [|y s]; [naive_solver|].
  destruct (Z.eqb_spec x y) as [->|Hne]; [rewrite IH; naive_solver|].
  split; [done|]. intros [=]. congruence.
Qed.
Lemma strip_prefix_app p s : strip_prefix p (p ++ s) = Some s.
Proof. by apply strip_prefix_Some. Qed.
Lemma starts_with_true p s : starts_with p s = true <-> exists r, s = p ++ r.
Proof.
  unfold starts_with. destruct (strip_prefix p s) as [r|] eqn:E.
  - apply strip_prefix_Some in E. naive_solver.
  - split; [done|]. intros [r ->]. by rewrite strip_prefix_app in E.
Qed.
Lemma strip_prefix_head_ne c p x s : c <> x -> strip_prefix (c :: p) (x :: s) = None.
Proof. intros. cbn [strip_prefix]. by rewrite (proj2 (Z.eqb_neq c x)). Qed.
Lemma starts_with_head_ne c x s : c <> x -> starts_with [c] (x :: s) = false.
Proof. intros. unfold starts_with. cbn [strip_prefix]. by rewrite (proj2 (Z.eqb_neq c x)). Qed.
Lemma strip_suffix_Some p s r : strip_suffix p s = Some r <-> s = r ++ p.
Proof.
  unfold strip_suffix. destruct (strip_prefix (rev p) (rev s)) as [t|] eqn:E.
  - apply strip_prefix_Some in E. apply (f_equal (@rev Z)) in E.
    rewrite rev_app_distr, !rev_involutive in E. subst.
    split; [by intros [= <-]|]. intros ?%app_inv_tail. by subst.
  - split; [done|]. intros ->. rewrite rev_app_distr, strip_prefix_app in E. done.
Qed.
Lemma strip_suffix_app p s : strip_suffix p (s ++ p) = Some s.
Proof. by apply strip_suffix_Some. Qed.

Lemma position_Some f s i :
  position f s = Some i ->
  exists l x r, s = l ++ x :: r /\ zlen l = i /\ f x = true /\ Forall (fun y => f y = false) l.
Proof.
  revert i. induction s as [|y s IH]; intros i; simpl; [done|].
  destruct (f y) eqn:E.
  - intros [= <-]. exists [], y, s. repeat split; eauto.
  - destruct (position f s) as [j|]; [|done]. intros [= <-].
    destruct (IH j eq_refl) as (l & x & r & -> & <- & ? & ?).
    exists (y :: l), x, r. rewrite zlen_cons. repeat split; eauto; lia.
Qed.
Lemma position_None f s : position f s = None <-> Forall (fun y => f y = false) s.
Proof.
  induction s as [|y s IH]; simpl; [by split; auto|].
  rewrite Forall_cons, <-IH. destruct (f y); [by split; [|intros []]|].
  destruct (position f s); [by split; [|intros []]|by split].
Qed.
Lemma position_app f l x r :
  Forall (fun y => f y = false) l -> f x = true -> position f (l ++ x :: r) = Some (zlen l).
Proof.
  induction 1 as [|y l Hy Hl IH]; intros Hx; simpl.
  - by rewrite Hx.
  - rewrite Hy, IH by done. simpl. f_equal. rewrite zlen_cons. lia.
Qed.
Lemma position_app_nil f l : Forall (fun y => f y = false) l -> position f l = None.
Proof. apply position_None. Qed.

Lemma split_once_app c l r : c ∉ l -> split_once c (l ++ c :: r) = Some (l, r).
Proof.
  induction l as [|y l IH]; simpl; intros Hn; [by rewrite Z.eqb_refl|].
  destruct (Z.eqb_spec y c); [set_solver|]. rewrite IH; [done|set_solver].
Qed.
Lemma split_once_Some c s l r :
  split_once c s = Some (l, r) <-> s = l ++ c :: r /\ c ∉ l.
Proof.
  split; [|intros [-> ?]; by apply split_once_app].
  revert l r. induction s as [|y s IH]; intros l r; simpl; [done|].
  destruct (Z.eqb_spec y c) as [->|Hne]; [intros [= <- <-]; set_solver|].
  destruct (split_once c s) as [[l' r']|]; [|done]. intros [= <- <-].
  destruct (IH l' r' eq_refl) as [-> ?]. set_solver.
Qed.
Lemma split_once_None c s : split_once c s = None <-> c ∉ s.
Proof.
  induction s as [|y s IH]; simpl; [set_solver|].
  destruct (Z.eqb_spec y c) as [->|Hne]; [set_solver|].
  destruct (split_once c s) as [[]|]; [|set_solver].
  split; [done|]. intros Hn. exfalso. assert (c ∉ s) as ?%IH; [set_solver|done].
Qed.

Lemma split_byte_nonempty c s : exists p ps, split_byte c s = p :: ps.
Proof.
  induction s as [|y s (p & ps & E)]; simpl; [eauto|].
  destruct (y =? c); [eauto|]. rewrite E. eauto.
Qed.
Lemma split_byte_notin c s : c ∉ s -> split_byte c s = [s].
Proof.
  induction s as [|y s IH]; simpl; [done|]. intros Hn.
  destruct (Z.eqb_spec y c); [set_solver|]. rewrite IH; [done|set_solver].
Qed.
Lemma split_byte_app c l r : c ∉ l -> split_byte c (l ++ c :: r) = l :: split_byte c r.
Proof.
  induction l as [|y l IH]; simpl; intros Hn.
  - by rewrite Z.eqb_refl.
  - destruct (Z.eqb_spec y c); [set_solver|]. rewrite IH; [done|set_solver].
Qed.
Lemma split_byte_pieces c s : Forall (fun p => c ∉ p) (split_byte c s).
Proof.
  induction s as [|y s IH]; simpl; [repeat constructor; set_solver|].
  destruct (Z.eqb_spec y c); [constructor; [set_solver|done]|].
  destruct (split_byte c s) as [|p ps]; [repeat constructor; set_solver|].
  apply Forall_cons in IH as [? ?]. constructor; [set_solver|done].
Qed.

Lemma split_byte_single c s p : split_byte c s = [p] -> p = s.
Proof.
  revert p. induction s as [|y s IH]; intros p; simpl; [by intros [= <-]|].
  destruct (split_byte_nonempty c s) as (q & qs & E). rewrite E in *.
  destruct (y =? c); [done|]. intros [= <- ->]. by rewrite (IH q eq_refl).
Qed.

(** The string a list of pieces was split from. *)
Fixpoint join_byte (c : Z) (pieces : list (list Z)) : list Z :=
  match pieces with
  | [] => []
  | [p] => p
  | p :: ps => p ++ c :: join_byte c ps
  end.
Lemma split_byte_join c s ps : split_byte c s = ps -> join_byte c ps = s.
Proof.
  intros <-. induction s as [|y s IH]; simpl; [done|].
  destruct (split_byte_nonempty c s) as (q & qs & E). rewrite E in *.
  destruct (Z.eqb_spec y c) as [->|]; [by rewrite <-IH|].
  destruct qs; simpl in *; by rewrite <-IH.
Qed.

(** *** ASCII case *)

Lemma eq_ignore_ascii_case_true s t :
  eq_ignore_ascii_case s t = true <-> to_ascii_lowercase s = to_ascii_lowercase t.
Proof. apply bool_decide_eq_true. Qed.
Lemma eq_ignore_ascii_case_refl s : eq_ignore_ascii_case s s = true.
Proof. by apply eq_ignore_ascii_case_true. Qed.
(** A name equals at most one of two literals of different lower case. *)
Lemma eq_ignore_ascii_case_other s t u :
  to_ascii_lowercase t <> to_ascii_lowercase u ->
  eq_ignore_ascii_case s t = true -> eq_ignore_ascii_case s u = false.
Proof. unfold eq_ignore_ascii_case. intros Hne Ht. breflect. apply bool_decide_eq_false. congruence. Qed.

(** *** Trimming *)

(** An ASCII character that is not white space. *)
Definition ascii_graphic (c : Z) : Prop := c < 128 /\ ws1 c = false.

Lemma ws2_not_ascii c0 c1 : ws2 c0 c1 = true -> 128 <= c0 /\ 128 <= c1.
Proof.
  unfold ws2. intros H. breflect.
  match goal with H : (_ || _) = true |- _ => apply orb_true_iff in H as [H|H] end; breflect; lia.
Qed.
Lemma ws3_not_ascii c0 c1 c2 : ws3 c0 c1 c2 = true -> 128 <= c0 /\ 128 <= c1 /\ 128 <= c2.
Proof.
  unfold ws3, between. intros H. repeat (apply orb_true_iff in H as [H|H]); breflect; lia.
Qed.

(** Trimming removes no graphic ASCII character, and nothing from a string
    that starts and ends with one. *)
Section Trim.
Context (w2 : Z -> Z -> bool) (w3 : Z -> Z -> Z -> bool).
Context (Hw2 : forall c0 c1, w2 c0 c1 = true -> 128 <= c0 /\ 128 <= c1).
Context (Hw3 : forall c0 c1 c2, w3 c0 c1 c2 = true -> 128 <= c0 /\ 128 <= c1 /\ 128 <= c2).

Lemma trim_with_removes s c :
  ascii_graphic c -> exists w, s = w ++ trim_with w2 w3 s /\ ~ c ∈ w.
Proof using Hw2 Hw3.
  intros [Ha Hw]. remember (length s) as n eqn:Hn.
  assert (length s <= n)%nat as Hl by lia. clear Hn. revert s Hl.
  induction n as [|n IH]; intros [|c0 s] Hl; simpl in *; try lia; [exists []; set_solver..|].
  destruct (ws1 c0) eqn:E1.
  { destruct (IH s) as (w & Hs & ?); [lia|]. exists (c0 :: w). rewrite Hs at 1.
    split; [done|]. apply not_elem_of_cons. split; [congruence|done]. }
  destruct s as [|c1 s]; [exists []; set_solver|].
  destruct (w2 c0 c1) eqn:E2.
  { apply Hw2 in E2 as [? ?]. destruct (IH s) as (w & Hs & ?); [simpl in Hl; lia|].
    exists (c0 :: c1 :: w). rewrite Hs at 1. split; [done|].
    rewrite !not_elem_of_cons. repeat split; [lia..|done]. }
  destruct s as [|c2 s]; [exists []; set_solver|].
  destruct (w3 c0 c1 c2) eqn:E3; [|exists []; set_solver].
  apply Hw3 in E3 as (? & ? & ?). destruct (IH s) as (w & Hs & ?); [simpl in Hl; lia|].
  exists (c0 :: c1 :: c2 :: w). rewrite Hs at 1. split; [done|].
  rewrite !not_elem_of_cons. repeat split; [lia..|done].
Qed.

Lemma trim_with_graphic c s : ascii_graphic c -> trim_with w2 w3 (c :: s) = c :: s.
Proof using Hw2 Hw3.
  intros [Ha Hw]. simpl. rewrite Hw. destruct s as [|c1 s]; [done|].
  destruct (w2 c c1) eqn:E2; [apply Hw2 in E2; lia|].
  destruct s as [|c2 s]; [done|]. destruct (w3 c c1 c2) eqn:E3; [apply Hw3 in E3; lia|done].
Qed.
End Trim.

Lemma trim_keeps s c : ascii_graphic c -> c ∈ s -> c ∈ trim s.
Proof.
  intros Hc Hin. unfold trim, trim_end, trim_rev, trim_start.
  destruct (trim_with_removes ws2 ws3 ws2_not_ascii ws3_not_ascii s c Hc) as (w & Hs & Hw).
  rewrite Hs in Hin. apply elem_of_app in Hin as [?|Hin]; [done|].
  set (u := trim_with ws2 ws3 s) in *. clearbody u.
  destruct (trim_with_removes (fun c0 c1 => ws2 c1 c0) (fun c0 c1 c2 => ws3 c2 c1 c0)
    ltac:(intros ?? []%ws2_not_ascii; done) ltac:(intros ??? (? & ? & ?)%ws3_not_ascii; done)
    (rev u) c Hc) as (w' & Hs' & Hw').
  rewrite list_elem_of_In, <-in_rev. rewrite <-list_elem_of_In.
  rewrite list_elem_of_In, in_rev, Hs', <-list_elem_of_In in Hin. set_solver.
Qed.

Lemma trim_sub s c : c ∈ trim s -> c ∈ s.
Proof.
  unfold trim, trim_end, trim_rev, trim_start.
  assert (ascii_graphic 65) as Hg by (by split).
  destruct (trim_with_removes ws2 ws3 ws2_not_ascii ws3_not_ascii s 65 Hg) as (w & Hs & _).
  set (u := trim_with ws2 ws3 s) in *. clearbody u.
  destruct (trim_with_removes (fun c0 c1 => ws2 c1 c0) (fun c0 c1 c2 => ws3 c2 c1 c0)
    ltac:(intros ?? []%ws2_not_ascii; done) ltac:(intros ??? (? & ? & ?)%ws3_not_ascii; done)
    (rev u) 65 Hg) as (w' & Hs' & _).
  rewrite list_elem_of_In, <-in_rev, <-list_elem_of_In. intros Hin.
  rewrite Hs. apply elem_of_app. right.
  rewrite list_elem_of_In, in_rev, Hs', <-list_elem_of_In. set_solver.
Qed.

(** Nothing is trimmed from the empty string or between graphic characters. *)
Definition trimmed (s : list Z) : Prop :=
  match s, last s with
  | c :: _, Some d => ascii_graphic c /\ ascii_graphic d
  | _, _ => True
  end.
Lemma trim_trimmed s : trimmed s -> trim s = s.
Proof.
  destruct s as [|c s]; [done|]. unfold trimmed.
  destruct (last (c :: s)) as [d|] eqn:El; [|by rewrite last_None in El]. intros [Hc Hd].
  unfold trim, trim_start. rewrite trim_with_graphic by eauto using ws2_not_ascii, ws3_not_ascii.
  apply last_Some in El as [l ->]. unfold trim_end, trim_rev.
  rewrite rev_app_distr. simpl app. rewrite trim_with_graphic; [|..|done].
  - change (d :: rev l) with (rev [d] ++ rev l). by rewrite <-rev_app_distr, rev_involutive.
  - intros ?? []%ws2_not_ascii. done.
  - intros ??? (? & ? & ?)%ws3_not_ascii. done.
Qed.

(** What is left of an ASCII string starts and ends with a graphic character. *)
Lemma trim_with_head w2 w3 s :
  (forall c0 c1, w2 c0 c1 = true -> 128 <= c0 /\ 128 <= c1) ->
  (forall c0 c1 c2, w3 c0 c1 c2 = true -> 128 <= c0 /\ 128 <= c1 /\ 128 <= c2) ->
  Forall (fun c => c < 128) s ->
  match trim_with w2 w3 s with c :: _ => ascii_graphic c | [] => True end.
Proof.
  intros Hw2 Hw3. induction 1 as [| c s Hc Hs IH]; [done |]. simpl. destruct (ws1 c) eqn:E; [done |].
  destruct s as [| c1 s]; [done |]. destruct (w2 c c1) eqn:E2; [apply Hw2 in E2; lia |].
  destruct s as [| c2 s]; [done |]. destruct (w3 c c1 c2) eqn:E3; [apply Hw3 in E3; lia | done].
Qed.
Lemma trimmed_trim s : Forall (fun c => c < 128) s -> trimmed (trim s).
Proof.
  intros Hs. assert (ascii_graphic 65) as Hg by done. unfold trim, trim_end, trim_rev, trim_start.
  destruct (trim_with_removes ws2 ws3 ws2_not_ascii ws3_not_ascii s 65 Hg) as (w & Hu & _).
  pose proof (trim_with_head ws2 ws3 s ws2_not_ascii ws3_not_ascii Hs) as Hhead.
  set (u := trim_with ws2 ws3 s) in *. clearbody u. rewrite Hu in Hs. apply Forall_app in Hs as [_ Hs].
  destruct (trim_with_removes (fun c0 c1 => ws2 c1 c0) (fun c0 c1 c2 => ws3 c2 c1 c0)
    ltac:(intros ?? []%ws2_not_ascii; done) ltac:(intros ??? (? & ? & ?)%ws3_not_ascii; done)
    (rev u) 65 Hg) as (w' & Hv & _).
  pose proof (trim_with_head (fun c0 c1 => ws2 c1 c0) (fun c0 c1 c2 => ws3 c2 c1 c0) (rev u)
    ltac:(intros ?? []%ws2_not_ascii; done) ltac:(intros ??? (? & ? & ?)%ws3_not_ascii; done)
    ltac:(by apply Forall_rev)) as Hlast.
  set (v := trim_with _ _ (rev u)) in *. clearbody v.
  apply (f_equal (@rev Z)) in Hv. rewrite rev_involutive, rev_app_distr in Hv.
  destruct v as [| d v]; [done |]. cbn [rev] in *. assert (last (rev v ++ [d]) = Some d) as Hl by apply last_snoc.
  destruct (rev v ++ [d]) as [| c t] eqn:E; [by destruct (rev v) |]. unfold trimmed. rewrite Hl. by subst u.
Qed.

(** *** Lines *)

Lemma split_crlf_line l r : ~ CR ∈ l -> split_crlf (l ++ crlf ++ r) = l :: split_crlf r.
Proof.
  induction l as [|x l IH]; intros Hl; [done|].
  apply not_elem_of_cons in Hl as [Hx Hl]. specialize (IH Hl).
  change ((x :: l) ++ crlf ++ r) with (x :: (l ++ crlf ++ r)). cbn [split_crlf].
  rewrite IH. rewrite (proj2 (Z.eqb_neq x CR)) by done. by destruct (l ++ crlf ++ r) eqn:E; [destruct l|].
Qed.

(** ASCII bytes are UTF-8. *)
Lemma utf8_valid_ascii s : Forall (fun c => 0 <= c < 128) s -> utf8_valid s = true.
Proof.
  induction 1 as [|c s Hc Hs IH]; [done|]. simpl. unfold between at 1.
  rewrite !(proj2 (Z.leb_le _ _)) by lia. done.
Qed.

(** *** Decimal round trip *)

Lemma parse_digits_app max acc s t :
  parse_digits max acc (s ++ t) = parse_digits max acc s ≫= fun a => parse_digits max a t.
Proof.
  revert acc. induction s as [|c s IH]; intros acc; simpl; [done|].
  destruct (digit_value c); [|done]. destruct (checked_mul _ _ _); [|done].
  destruct (checked_add _ _ _); [|done]. apply IH.
Qed.
Lemma parse_digits_range max acc s n :
  0 <= acc <= max -> parse_digits max acc s = Some n -> 0 <= n <= max.
Proof.
  revert acc. induction s as [|c s IH]; intros acc Ha; simpl; [by intros [= <-]|].
  unfold digit_value. destruct (is_ascii_digit c) eqn:Hd; [|done].
  unfold is_ascii_digit, between in Hd. breflect.
  destruct (checked_mul _ _ _) eqn:Em; [|done]. destruct (checked_add _ _ _) eqn:Ea; [|done].
  apply checked_mul_Some in Em as [? ->]. apply checked_add_Some in Ea as [? ->].
  apply IH. lia.
Qed.
Lemma parse_uint_range max s n : 0 <= max -> parse_uint max s = Some n -> 0 <= n <= max.
Proof.
  intros Hm. destruct s as [|c s]; [done|]. cbn [parse_uint]. destruct (c =? 43).
  - destruct s; [done|]. by apply parse_digits_range.
  - by apply parse_digits_range.
Qed.
Lemma parse_digits_rev max fuel n :
  0 <= n <= max -> n < 10 ^ Z.of_nat fuel ->
  (0 < fuel)%nat -> parse_digits max 0 (rev (digits_rev fuel n)) = Some n.
Proof.
  revert n. induction fuel as [|fuel IH]; intros n Hn Hf Hpos; [lia|].
  simpl. rewrite parse_digits_app.
  assert (Hd : digit_value (48 + n mod 10) = Some (n mod 10)).
  { pose proof (Z.mod_pos_bound n 10). unfold digit_value, is_ascii_digit, between.
    rewrite !(proj2 (Z.leb_le _ _)) by lia. simpl. f_equal. lia. }
  destruct (Z.ltb_spec n 10).
  - simpl. rewrite Hd. unfold checked_mul. rewrite (proj2 (Z.leb_le _ _)) by lia.
    rewrite Z.mod_small by lia. rewrite checked_add_exact by lia. done.
  - assert (n / 10 <= n) by (apply Z.div_le_upper_bound; lia).
    rewrite Nat2Z.inj_succ, Z.pow_succ_r in Hf by lia.
    pose proof (Z_div_mod_eq_full n 10). pose proof (Z.mod_pos_bound n 10).
    assert (0 < n / 10) by (apply Z.div_str_pos; lia).
    rewrite IH; [| lia | apply Z.div_lt_upper_bound; lia |].
    2:{ destruct fuel; [simpl in Hf; lia|lia]. }
    simpl. rewrite Hd. unfold checked_mul. rewrite (proj2 (Z.leb_le _ _)) by lia.
    rewrite checked_add_exact by lia. f_equal. lia.
Qed.
Lemma digits_rev_digit fuel n :
  0 <= n -> Forall (fun c => is_ascii_digit c = true) (digits_rev fuel n).
Proof.
  revert n. induction fuel as [|fuel IH]; intros n Hn; simpl; [done|].
  pose proof (Z.mod_pos_bound n 10).
  assert (is_ascii_digit (48 + n mod 10) = true).
  { unfold is_ascii_digit, between. rewrite !(proj2 (Z.leb_le _ _)) by lia. done. }
  case_match; [by repeat constructor|]. constructor; [done|]. apply IH.
  apply Z.div_pos; lia.
Qed.
Lemma to_decimal_digits n : 0 <= n -> Forall (fun c => is_ascii_digit c = true) (to_decimal n).
Proof. intros. apply Forall_rev. by apply digits_rev_digit. Qed.
Lemma to_decimal_not_nil n : to_decimal n <> [].
Proof.
  unfold to_decimal. intros H%(f_equal (@rev Z)). rewrite rev_involutive in H.
  discriminate H.
Qed.

(** Printing a number and parsing it gives the number back. *)
Lemma parse_uint_to_decimal max n :
  0 <= n <= max -> n <= U64_MAX -> parse_uint max (to_decimal n) = Some n.
Proof.
  intros Hn Hm. unfold parse_uint.
  assert (Hp : parse_digits max 0 (to_decimal n) = Some n).
  { apply parse_digits_rev; [done| |lia]. unfold U64_MAX in Hm.
    change (10 ^ Z.of_nat 20) with 100000000000000000000. lia. }
  destruct (to_decimal n) as [|c s] eqn:E; [by apply to_decimal_not_nil in E|].
  destruct (Z.eqb_spec c 43) as [->|]; [|done].
  pose proof (to_decimal_digits n ltac:(lia)) as Hd. rewrite E in Hd.
  apply Forall_cons in Hd as [Hd _]. done.
Qed.
