(* ===== verification/NetAddr.v ===== *)
(** * IP and socket addresses: the [core::net] parser and printer

    The parts of [core::net] the modelled crates call: [IpAddr::from_str],
    [Ipv6Addr::from_str], [SocketAddr::from_str] and the [Display]
    implementations.  An IPv4 address is its four octets, an IPv6 address the
    list of its eight 16-bit segments. *)
From Stdlib Require Import ZArith Lia.
From stdpp Require Import base list numbers strings sets.
From S2P Require Import Prelude Text.

Inductive IpAddr : Type :=
| V4 (a b c d : Z)
| V6 (segments : list Z).

#[export] Instance IpAddr_eq_dec : EqDecision IpAddr.
Proof. solve_decision. Defined.

(** [SocketAddr]; [flowinfo] is always zero in the modelled code. *)
Record SocketAddr : Type := mkSocketAddr {
  sa_ip : IpAddr;
  sa_port : Z;
  sa_scope_id : Z;
}.
#[export] Instance SocketAddr_eq_dec : EqDecision SocketAddr.
Proof. solve_decision. Defined.

(** [SocketAddr::new(ip, port)] *)
Definition socket_addr_new (ip : IpAddr) (port : Z) : SocketAddr := mkSocketAddr ip port 0.

Definition ip_wf (ip : IpAddr) : Prop :=
  match ip with
  | V4 a b c d => in_u8 a /\ in_u8 b /\ in_u8 c /\ in_u8 d
  | V6 segs => length segs = 8%nat /\ Forall in_u16 segs
  end.
Definition socket_addr_wf (s : SocketAddr) : Prop :=
  ip_wf (sa_ip s) /\ in_u16 (sa_port s) /\ sa_scope_id s = 0.

(** ** Printing *)

Definition hex_digit (d : Z) : Z := if d <? 10 then 48 + d else 87 + d.
Fixpoint hex_rev (fuel : nat) (n : Z) : list Z :=
  match fuel with
  | O => []
  | S f => hex_digit (n mod 16) :: (if n <? 16 then [] else hex_rev f (n / 16))
  end.
(** [format!("{:x}", n)] for a [u16] *)
Definition to_hex (n : Z) : list Z := rev (hex_rev 4 n).

Definition show_v4 (a b c d : Z) : list Z :=
  to_decimal a ++ [46] ++ to_decimal b ++ [46] ++ to_decimal c ++ [46] ++ to_decimal d.

Definition fmt_subslice (segs : list Z) : list Z :=
  match segs with
  | [] => []
  | s :: rest => to_hex s ++ concat ((fun x => 58 :: to_hex x) <$> rest)
  end.

(** The first longest run of zero segments, as (start, length). *)
Fixpoint zero_span (i : nat) (cur best : nat * nat) (segs : list Z) : nat * nat :=
  match segs with
  | [] => best
  | s :: rest =>
      if s =? 0 then
        let cur' := if (cur.2 =? 0)%nat then (i, 1%nat) else (cur.1, S cur.2) in
        let best' := if (best.2 <? cur'.2)%nat then cur' else best in
        zero_span (S i) cur' best' rest
      else zero_span (S i) (0%nat, 0%nat) best rest
  end.

(** [Ipv6Addr::to_ipv4_mapped] *)
Definition to_ipv4_mapped (segs : list Z) : option (Z * Z * Z * Z) :=
  match segs with
  | [0; 0; 0; 0; 0; 65535; x; y] => Some (x / 256, x mod 256, y / 256, y mod 256)
  | _ => None
  end.

Definition show_v6 (segs : list Z) : list Z :=
  match to_ipv4_mapped segs with
  | Some (a, b, c, d) => bs "::ffff:" ++ show_v4 a b c d
  | None =>
      let '(start, n) := zero_span 0 (0%nat, 0%nat) (0%nat, 0%nat) segs in
      if (1 <? n)%nat
      then fmt_subslice (take start segs) ++ bs "::" ++ fmt_subslice (drop (start + n) segs)
      else fmt_subslice segs
  end.

Definition show_ip (ip : IpAddr) : list Z :=
  match ip with
  | V4 a b c d => show_v4 a b c d
  | V6 segs => show_v6 segs
  end.

Definition show_socket_addr (s : SocketAddr) : list Z :=
  match sa_ip s with
  | V4 a b c d => show_v4 a b c d ++ [58] ++ to_decimal (sa_port s)
  | V6 segs =>
      if sa_scope_id s =? 0
      then [91] ++ show_v6 segs ++ bs "]:" ++ to_decimal (sa_port s)
      else [91] ++ show_v6 segs ++ [37] ++ to_decimal (sa_scope_id s) ++ bs "]:"
           ++ to_decimal (sa_port s)
  end.

(** ** Parsing

    A reader takes the remaining input and returns a value and the input left;
    [None] leaves the caller's input untouched ([read_atomically]). *)

Definition read_given_char (c : Z) (s : list Z) : option (list Z) :=
  match s with
  | x :: s' => if x =? c then Some s' else None
  | [] => None
  end.

Definition to_digit (radix c : Z) : option Z :=
  let d := if is_ascii_digit c then Some (c - 48)
           else if between 97 122 c then Some (c - 87)
           else if between 65 90 c then Some (c - 55)
           else None in
  match d with
  | Some v => if v <? radix then Some v else None
  | None => None
  end.

(** Read a maximal run of digits: (value, digit count, rest). *)
Fixpoint read_run (radix acc : Z) (count : nat) (s : list Z) : Z * nat * list Z :=
  match s with
  | [] => (acc, count, [])
  | c :: s' =>
      match to_digit radix c with
      | Some d => read_run radix (acc * radix + d) (S count) s'
      | None => (acc, count, s)
      end
  end.

(** [read_number(radix, Some(max_digits), allow_zero_prefix)]: the value is at
    most [max]. *)
Definition read_number (radix : Z) (max_digits : nat) (allow_zero_prefix : bool) (max : Z)
    (s : list Z) : option (Z * list Z) :=
  let '(v, count, rest) := read_run radix 0 0 s in
  if (count =? 0)%nat || (max_digits <? count)%nat then None
  else if negb allow_zero_prefix && bool_decide (head s = Some 48) && (1 <? count)%nat then None
  else if v <=? max then Some (v, rest) else None.

(** [read_number(10, None, true)]: any number of digits, checked arithmetic *)
Definition read_port_number (max : Z) (s : list Z) : option (Z * list Z) :=
  let '(v, count, rest) := read_run 10 0 0 s in
  if (count =? 0)%nat then None else if v <=? max then Some (v, rest) else None.

Definition read_octet (s : list Z) : option (Z * list Z) := read_number 10 3 false U8_MAX s.

Definition read_ipv4_addr (s : list Z) : option (Z * Z * Z * Z * list Z) :=
  '(a, s) ← read_octet s; s ← read_given_char 46 s;
  '(b, s) ← read_octet s; s ← read_given_char 46 s;
  '(c, s) ← read_octet s; s ← read_given_char 46 s;
  '(d, s) ← read_octet s;
  Some (a, b, c, d, s).

(** [read_separator(':', i, inner)] *)
Definition read_separator {A} (first : bool) (inner : list Z -> option (A * list Z))
    (s : list Z) : option (A * list Z) :=
  if first then inner s else s ← read_given_char 58 s; inner s.

(** [read_groups] with [limit] groups left to fill, [first] when none was read:
    the groups read, whether the last two come from an IPv4 suffix, the rest. *)
Fixpoint read_groups (limit : nat) (first : bool) (s : list Z) : list Z * bool * list Z :=
  match limit with
  | O => ([], false, s)
  | S limit' =>
      let v4 :=
        if (limit' =? 0)%nat then None
        else read_separator first
               (fun s => '(a, b, c, d, s) ← read_ipv4_addr s; Some ((a, b, c, d), s)) s in
      match v4 with
      | Some ((a, b, c, d), rest) => ([a * 256 + b; c * 256 + d], true, rest)
      | None =>
          match read_separator first (read_number 16 4 true U16_MAX) s with
          | Some (g, rest) =>
              let '(gs, v4, rest') := read_groups limit' false rest in (g :: gs, v4, rest')
          | None => ([], false, s)
          end
      end
  end.

Definition read_ipv6_addr (s : list Z) : option (list Z * list Z) :=
  let '(head, head_ipv4, rest) := read_groups 8 true s in
  if (length head =? 8)%nat then Some (head, rest)
  else if head_ipv4 then None
  else
    rest ← read_given_char 58 rest;
    rest ← read_given_char 58 rest;
    let '(tail, _, rest') := read_groups (8 - (length head + 1)) true rest in
    Some (head ++ replicate (8 - length head - length tail) 0 ++ tail, rest').

Definition parse_whole {A} (r : option (A * list Z)) : option A :=
  match r with Some (a, []) => Some a | _ => None end.

(** [s.parse::<Ipv6Addr>()] *)
Definition parse_ipv6 (s : list Z) : option (list Z) := parse_whole (read_ipv6_addr s).

(** [s.parse::<IpAddr>()] *)
Definition parse_ip (s : list Z) : option IpAddr :=
  match read_ipv4_addr s with
  | Some (a, b, c, d, rest) => match rest with [] => Some (V4 a b c d) | _ => None end
  | None => V6 <$> parse_ipv6 s
  end.

Definition read_port (s : list Z) : option (Z * list Z) :=
  s ← read_given_char 58 s; read_port_number U16_MAX s.

(** [s.parse::<SocketAddr>()] *)
Definition parse_socket_addr (s : list Z) : option SocketAddr :=
  match (a ← read_ipv4_addr s; p ← read_port a.2; Some (a.1, p)) with
  | Some ((a, b, c, d), (port, rest)) =>
      match rest with [] => Some (mkSocketAddr (V4 a b c d) port 0) | _ => None end
  | None =>
      s ← read_given_char 91 s;
      '(segs, s) ← read_ipv6_addr s;
      let '(scope, s) :=
        match (s1 ← read_given_char 37 s; read_port_number U32_MAX s1) with
        | Some (v, s2) => (v, s2)
        | None => (0, s)
        end in
      s ← read_given_char 93 s;
      '(port, s) ← read_port s;
      match s with [] => Some (mkSocketAddr (V6 segs) port scope) | _ => None end
  end.

(** ** Sample behaviour, as the standard library documents it *)

Example parse_ip_v4 : parse_ip (bs "192.0.2.7") = Some (V4 192 0 2 7).
Proof. reflexivity. Qed.
Example parse_ip_v4_leading_zero : parse_ip (bs "192.0.02.7") = None.
Proof. reflexivity. Qed.
Example parse_ip_v4_overflow : parse_ip (bs "256.0.2.7") = None.
Proof. reflexivity. Qed.
Example parse_ip_v6 : parse_ip (bs "2001:db8::ff") = Some (V6 [8193; 3512; 0; 0; 0; 0; 0; 255]).
Proof. reflexivity. Qed.
Example parse_ip_v6_mapped :
  parse_ip (bs "::ffff:192.0.2.1") = Some (V6 [0; 0; 0; 0; 0; 65535; 49152; 513]).
Proof. reflexivity. Qed.
Example parse_ip_v6_twice : parse_ip (bs "1::2::3") = None.
Proof. reflexivity. Qed.
Example show_ip_v6 : show_ip (V6 [8193; 3512; 0; 0; 1; 0; 0; 1]) = bs "2001:db8::1:0:0:1".
Proof. reflexivity. Qed.
Example show_ip_v6_mapped :
  show_ip (V6 [0; 0; 0; 0; 0; 65535; 49152; 513]) = bs "::ffff:192.0.2.1".
Proof. reflexivity. Qed.
Example parse_socket_addr_v6 :
  parse_socket_addr (bs "[::1]:8080") = Some (mkSocketAddr (V6 [0; 0; 0; 0; 0; 0; 0; 1]) 8080 0).
Proof. reflexivity. Qed.
Example show_socket_addr_v4 :
  show_socket_addr (socket_addr_new (V4 127 0 0 1) 3000) = bs "127.0.0.1:3000".
Proof. reflexivity. Qed.

(** * Printed addresses parse back

    [parse_ip (show_ip ip) = Some ip] for every IPv4 and IPv6 address, with the
    zero compression and the IPv4-mapped form of the printer. *)
(** ** Digits *)

(** A rest that ends a run of digits. *)
Definition run_ends (radix : Z) (rest : list Z) : Prop :=
  match rest with [] => True | c :: _ => to_digit radix c = None end.

Lemma read_run_end radix acc k rest :
  run_ends radix rest -> read_run radix acc k rest = (acc, k, rest).
Proof. destruct rest as [|c rest]; simpl; [done|]. by intros ->. Qed.

Lemma to_digit_decimal d : 0 <= d < 10 -> to_digit 10 (48 + d) = Some d.
Proof.
  intros. unfold to_digit, is_ascii_digit, between. zcond. simpl.
  replace (48 + d - 48) with d by lia. by zcond.
Qed.
Lemma to_digit_hex d : 0 <= d < 16 -> to_digit 16 (hex_digit d) = Some d.
Proof.
  intros. unfold to_digit, hex_digit, is_ascii_digit, between. destruct (Z.ltb_spec d 10).
  - zcond. simpl. replace (48 + d - 48) with d by lia. by zcond.
  - zcond. simpl. replace (87 + d - 87) with d by lia. by zcond.
Qed.

Lemma read_run_decimal fuel n rest :
  0 <= n < 10 ^ Z.of_nat fuel ->
  read_run 10 0 0 (rev (digits_rev fuel n) ++ rest)
  = read_run 10 n (length (digits_rev fuel n)) rest.
Proof.
  revert n rest. induction fuel as [|fuel IH]; intros n rest Hn.
  { simpl in *. by replace n with 0 by lia. }
  cbn [digits_rev rev]. rewrite <-app_assoc. pose proof (Z.mod_pos_bound n 10).
  rewrite Nat2Z.inj_succ, Z.pow_succ_r in Hn by lia.
  destruct (Z.ltb_spec n 10).
  - cbn [rev app read_run]. rewrite to_digit_decimal by lia. simpl. by rewrite Z.mod_small by lia.
  - rewrite IH by (split; [apply Z.div_pos; lia|apply Z.div_lt_upper_bound; lia]).
    cbn [app read_run]. rewrite to_digit_decimal by lia.
    replace (n / 10 * 10 + n mod 10) with n; [done|]. pose proof (Z_div_mod_eq_full n 10). lia.
Qed.
Lemma read_run_hex fuel n rest :
  0 <= n < 16 ^ Z.of_nat fuel ->
  read_run 16 0 0 (rev (hex_rev fuel n) ++ rest) = read_run 16 n (length (hex_rev fuel n)) rest.
Proof.
  revert n rest. induction fuel as [|fuel IH]; intros n rest Hn.
  { simpl in *. by replace n with 0 by lia. }
  cbn [hex_rev rev]. rewrite <-app_assoc. pose proof (Z.mod_pos_bound n 16).
  rewrite Nat2Z.inj_succ, Z.pow_succ_r in Hn by lia.
  destruct (Z.ltb_spec n 16).
  - cbn [rev app read_run]. rewrite to_digit_hex by lia. simpl. by rewrite Z.mod_small by lia.
  - rewrite IH by (split; [apply Z.div_pos; lia|apply Z.div_lt_upper_bound; lia]).
    cbn [app read_run]. rewrite to_digit_hex by lia.
    replace (n / 16 * 16 + n mod 16) with n; [done|]. pose proof (Z_div_mod_eq_full n 16). lia.
Qed.

(** The printed octets have at most three digits and no leading zero. *)
Lemma octet_digits n :
  in_u8 n -> (length (digits_rev 20 n) <= 3)%nat
  /\ (head (to_decimal n) = Some 48 -> length (digits_rev 20 n) = 1%nat).
Proof.
  intros Hn.
  assert (forallb (fun n => (length (digits_rev 20 n) <=? 3)%nat
    && (negb (bool_decide (head (to_decimal n) = Some 48)) || (length (digits_rev 20 n) =? 1)%nat))
    (seqZ 0 256) = true) as Hall by (vm_compute; reflexivity).
  rewrite forallb_forall in Hall. specialize (Hall n).
  rewrite <-list_elem_of_In, elem_of_seqZ in Hall. unfold in_u8, U8_MAX in Hn.
  specialize (Hall ltac:(lia)). apply andb_true_iff in Hall as [Hl Hz].
  apply Nat.leb_le in Hl. split; [done|]. intros E. rewrite bool_decide_true in Hz by done.
  by apply Nat.eqb_eq in Hz.
Qed.

Lemma read_octet_show n rest :
  in_u8 n -> run_ends 10 rest -> read_octet (to_decimal n ++ rest) = Some (n, rest).
Proof.
  intros Hn Hr. destruct (octet_digits n Hn) as [Hl Hz].
  unfold read_octet, read_number. unfold to_decimal at 1.
  rewrite read_run_decimal by (unfold in_u8, U8_MAX in Hn; change (10 ^ Z.of_nat 20) with 100000000000000000000; lia).
  rewrite read_run_end by done.
  assert ((length (digits_rev 20 n) =? 0)%nat = false) as -> by done.
  rewrite (proj2 (Nat.ltb_ge _ _)) by lia. simpl orb. cbv iota.
  assert (negb false && bool_decide (head (to_decimal n ++ rest) = Some 48)
    && (1 <? length (digits_rev 20 n))%nat = false) as ->.
  { simpl negb. rewrite andb_true_l. case_bool_decide as E; [|done].
    destruct (to_decimal n) as [|c s] eqn:Ed; [by apply to_decimal_not_nil in Ed|].
    simpl in E. rewrite Hz by done. done. }
  unfold in_u8 in Hn. by rewrite (proj2 (Z.leb_le _ _)) by lia.
Qed.

Lemma run_ends_dot rest : run_ends 10 (46 :: rest).
Proof. done. Qed.

Lemma read_ipv4_addr_show a b c d rest :
  ip_wf (V4 a b c d) -> run_ends 10 rest ->
  read_ipv4_addr (show_v4 a b c d ++ rest) = Some (a, b, c, d, rest).
Proof.
  intros (Ha & Hb & Hc & Hd) Hr. unfold read_ipv4_addr, show_v4. rewrite <-!app_assoc. simpl app.
  rewrite (read_octet_show a) by done. simpl.
  rewrite (read_octet_show b) by done. simpl.
  rewrite (read_octet_show c) by done. simpl.
  by rewrite (read_octet_show d).
Qed.

(** ** IPv6 groups *)

Lemma to_hex_digits n : 0 <= n -> Forall (fun c => exists d, 0 <= d < 16 /\ c = hex_digit d) (to_hex n).
Proof.
  intros Hn. unfold to_hex. apply Forall_rev. generalize 4%nat as fuel. intros fuel.
  revert n Hn. induction fuel as [|fuel IH]; intros n Hn; simpl; [done|].
  pose proof (Z.mod_pos_bound n 16). constructor; [exists (n mod 16); split; [lia|done]|].
  case_match; [done|]. apply IH. apply Z.div_pos; lia.
Qed.

Lemma to_hex_not_nil n : to_hex n <> [].
Proof. unfold to_hex. intros H%(f_equal (@rev Z)). rewrite rev_involutive in H. done. Qed.

Lemma read_group_show n rest :
  in_u16 n -> run_ends 16 rest -> read_number 16 4 true U16_MAX (to_hex n ++ rest) = Some (n, rest).
Proof.
  intros Hn Hr. unfold read_number. unfold to_hex at 1.
  rewrite read_run_hex by (unfold in_u16, U16_MAX in Hn; simpl; lia).
  rewrite read_run_end by done.
  assert ((length (hex_rev 4 n) =? 0)%nat = false) as -> by done.
  assert (length (hex_rev 4 n) <= 4)%nat by (simpl; repeat case_match; simpl; lia).
  rewrite (proj2 (Nat.ltb_ge _ _)) by lia. simpl orb. cbv iota. simpl.
  unfold in_u16 in Hn. by rewrite (proj2 (Z.leb_le _ _)) by lia.
Qed.

(** A text without dots is not an IPv4 address. *)
Lemma read_run_suffix radix acc k s v n rest :
  read_run radix acc k s = (v, n, rest) -> exists used, s = used ++ rest.
Proof.
  revert acc k. induction s as [|c s IH]; intros acc k; simpl.
  - intros [= _ _ <-]. by exists [].
  - case_match; [|intros [= _ _ <-]; by exists []].
    intros [used ->]%IH. by exists (c :: used).
Qed.
Lemma read_ipv4_addr_no_dot s : 46 ∉ s -> read_ipv4_addr s = None.
Proof.
  intros Hs. unfold read_ipv4_addr, read_octet, read_number.
  destruct (read_run 10 0 0 s) as [[v n] rest] eqn:E. apply read_run_suffix in E as [used ->].
  case_match; [done|]. case_match; [done|]. case_match; [|done]. simpl.
  destruct rest as [|c rest]; [done|]. simpl.
  rewrite (proj2 (Z.eqb_neq c 46)); [done|]. set_solver.
Qed.

(** Where a sequence of groups stops: the input ends, or a second colon or a
    closing bracket follows. *)
Definition groups_end (rest : list Z) : Prop :=
  match rest with
  | [] => True
  | c :: rest' => if c =? 58 then match rest' with [] => False | d :: _ => d = 58 end else c = 93
  end.

Definition fmt_tail (segs : list Z) : list Z := concat ((fun x => 58 :: to_hex x) <$> segs).

Lemma to_digit_colon : to_digit 16 58 = None.
Proof. done. Qed.

Lemma groups_end_run rest : groups_end rest -> run_ends 16 rest.
Proof.
  destruct rest as [|c rest]; [done|]. simpl. destruct (Z.eqb_spec c 58) as [->|]; [done|].
  by intros ->.
Qed.
Lemma fmt_tail_run segs rest : groups_end rest -> run_ends 16 (fmt_tail segs ++ rest).
Proof. intros Hr. destruct segs; [by apply groups_end_run|done]. Qed.

(** An input that starts no group and no dotted address. *)
Definition no_group (s : list Z) : Prop :=
  match s with [] => True | c :: _ => c = 58 \/ c = 93 end.

Lemma read_separator_stop {A} (inner : list Z -> option (A * list Z)) first rest :
  groups_end rest ->
  (forall s, no_group s -> inner s = None) ->
  read_separator first inner rest = None.
Proof.
  intros Hr Hi. unfold read_separator. destruct rest as [|c rest]; [by destruct first; auto|].
  simpl in Hr. destruct (Z.eqb_spec c 58) as [->|]; [|by subst; destruct first; [apply Hi; right|]].
  destruct first; [by apply Hi; left|].
  simpl. destruct rest as [|d rest]; [done|]. by apply Hi; left.
Qed.

Lemma read_number_colon s :
  no_group s -> read_number 16 4 true U16_MAX s = None.
Proof. destruct s as [|c s]; [done|]. by intros [-> | ->]. Qed.
Lemma read_ipv4_colon s :
  no_group s -> read_ipv4_addr s = None.
Proof. destruct s as [|c s]; [done|]. by intros [-> | ->]. Qed.

Lemma read_groups_stop limit first rest :
  groups_end rest -> read_groups limit first rest = ([], false, rest).
Proof.
  intros Hr. destruct limit as [|limit]; [done|]. cbn [read_groups].
  rewrite (read_separator_stop _ first rest Hr read_number_colon).
  rewrite read_separator_stop by (done || (intros s Hs; by rewrite read_ipv4_colon)).
  by destruct (limit =? 0)%nat.
Qed.

Lemma to_hex_no_dot n : 0 <= n -> 46 ∉ to_hex n.
Proof.
  intros Hn Hin. pose proof (to_hex_digits n Hn) as Hd. rewrite Forall_forall in Hd.
  destruct (Hd _ Hin) as (d & Hd' & E). unfold hex_digit in E. destruct (Z.ltb_spec d 10); lia.
Qed.
Lemma fmt_tail_no_dot segs : Forall in_u16 segs -> 46 ∉ fmt_tail segs.
Proof.
  induction 1 as [|n segs Hn Hs IH]; [apply not_elem_of_nil|].
  change (fmt_tail (n :: segs)) with (58 :: to_hex n ++ fmt_tail segs).
  rewrite not_elem_of_cons, elem_of_app. split; [done|].
  intros [Hin|?]; [|done]. apply to_hex_no_dot in Hin; [done|]. unfold in_u16 in Hn. lia.
Qed.

Lemma fmt_subslice_no_dot segs : Forall in_u16 segs -> 46 ∉ fmt_subslice segs.
Proof.
  intros [|n tl Hn Ht]; [apply not_elem_of_nil|].
  change (fmt_subslice (n :: tl)) with (to_hex n ++ fmt_tail tl).
  rewrite elem_of_app. intros [Hin|Hin]; [|by apply fmt_tail_no_dot in Hin].
  apply to_hex_no_dot in Hin; [done|]. unfold in_u16 in Hn. lia.
Qed.

(** A group, in a text without dots, and then the groups after it. *)
Lemma read_groups_cons limit first n more :
  in_u16 n -> 46 ∉ more -> run_ends 16 more ->
  read_groups (S limit) first ((if first then [] else [58]) ++ to_hex n ++ more)
  = let '(gs, v4, rest) := read_groups limit false more in (n :: gs, v4, rest).
Proof.
  intros Hn Hdot Hr.
  assert (forall A (inner : list Z -> option (A * list Z)),
    read_separator first inner ((if first then [] else [58]) ++ to_hex n ++ more)
    = inner (to_hex n ++ more)) as Hsep by (by intros; destruct first).
  cbn [read_groups]. rewrite !Hsep, read_group_show by done.
  rewrite read_ipv4_addr_no_dot.
  - by destruct (limit =? 0)%nat.
  - rewrite elem_of_app. intros [Hin|?]; [|done]. apply to_hex_no_dot in Hin; [done|].
    unfold in_u16 in Hn. lia.
Qed.

Lemma read_groups_tail limit segs rest :
  Forall in_u16 segs -> 46 ∉ rest -> groups_end rest -> (length segs <= limit)%nat ->
  read_groups limit false (fmt_tail segs ++ rest) = (segs, false, rest).
Proof.
  intros Hs Hdot Hr. revert limit. induction Hs as [|n segs Hn Hs IH]; intros limit Hl.
  { by apply read_groups_stop. }
  destruct limit as [|limit]; [simpl in Hl; lia|]. simpl in Hl.
  change (fmt_tail (n :: segs) ++ rest) with ([58] ++ (to_hex n ++ fmt_tail segs) ++ rest).
  rewrite <-app_assoc, (read_groups_cons limit false), IH;
    auto using fmt_tail_run; [lia|].
  pose proof (fmt_tail_no_dot segs Hs). set_solver.
Qed.
Lemma read_groups_fmt limit segs rest :
  Forall in_u16 segs -> 46 ∉ rest -> groups_end rest -> (length segs <= limit)%nat ->
  read_groups limit true (fmt_subslice segs ++ rest) = (segs, false, rest).
Proof.
  intros Hs Hdot Hr Hl. destruct Hs as [|n segs Hn Hs]; [by apply read_groups_stop|].
  destruct limit as [|limit]; [simpl in Hl; lia|]. simpl in Hl.
  change (fmt_subslice (n :: segs) ++ rest) with ([] ++ (to_hex n ++ fmt_tail segs) ++ rest).
  rewrite <-app_assoc, (read_groups_cons limit true), read_groups_tail;
    auto using fmt_tail_run; [lia|].
  pose proof (fmt_tail_no_dot segs Hs). set_solver.
Qed.

(** ** Zero compression *)

(** The span found is a run of zero segments within the address. *)
Lemma zero_span_zeros segs all i cur best start n :
  drop i all = segs ->
  (cur.2 <= i)%nat -> (0 < cur.2 -> cur.1 + cur.2 = i)%nat ->
  take cur.2 (drop cur.1 all) = replicate cur.2 0 ->
  (best.1 + best.2 <= length all)%nat ->
  take best.2 (drop best.1 all) = replicate best.2 0 ->
  zero_span i cur best segs = (start, n) ->
  (start + n <= length all)%nat /\ take n (drop start all) = replicate n 0.
Proof.
  revert i cur best. induction segs as [|s segs IH]; intros i cur best Hd Hc1 Hc2 Hc3 Hb1 Hb2; simpl.
  { intros ->. done. }
  assert (Hi : all !! i = Some s).
  { rewrite <-(Nat.add_0_r i), <-lookup_drop, Hd. done. }
  assert (Hd' : drop (S i) all = segs).
  { rewrite <-Nat.add_1_r, <-drop_drop, Hd. done. }
  apply lookup_lt_Some in Hi as Hlt.
  destruct (Z.eqb_spec s 0) as [->|Hne].
  2:{ apply IH; simpl; try done; lia. }
  set (cur' := if (cur.2 =? 0)%nat then (i, 1%nat) else (cur.1, S cur.2)).
  assert ((cur'.1 + cur'.2 = S i)%nat /\ take cur'.2 (drop cur'.1 all) = replicate cur'.2 0) as [Hs Hz].
  { unfold cur'. destruct (Nat.eqb_spec cur.2 0) as [E|E]; simpl.
    - split; [lia|]. by rewrite Hd.
    - split; [lia|]. rewrite (take_S_r _ _ 0).
      + rewrite Hc3. symmetry. apply (replicate_S_end (cur.2) 0).
      + rewrite lookup_drop. by replace (cur.1 + cur.2)%nat with i by lia. }
  clearbody cur'. apply IH; try done; try lia.
  - destruct (best.2 <? cur'.2)%nat; lia.
  - by destruct (best.2 <? cur'.2)%nat.
Qed.

(** What may follow a printed address: nothing, or a closing bracket. *)
Definition closes (rest : list Z) : Prop :=
  match rest with [] => True | c :: _ => c = 93 end /\ 46 ∉ rest.
Lemma closes_nil : closes [].
Proof. split; [done|apply not_elem_of_nil]. Qed.
Lemma closes_end rest : closes rest -> groups_end rest.
Proof. intros [Hr _]. destruct rest as [|c rest]; [done|]. by rewrite Hr. Qed.

Lemma read_ipv6_compressed hd tl rest :
  Forall in_u16 hd -> Forall in_u16 tl -> (length hd + length tl <= 6)%nat -> closes rest ->
  read_ipv6_addr (fmt_subslice hd ++ bs "::" ++ fmt_subslice tl ++ rest)
  = Some (hd ++ replicate (8 - length hd - length tl) 0 ++ tl, rest).
Proof.
  intros Hh Ht Hl Hc. pose proof (closes_end _ Hc) as He. destruct Hc as [_ Hr].
  unfold read_ipv6_addr. change (bs "::") with [58; 58].
  pose proof (fmt_subslice_no_dot tl Ht) as Hdot.
  assert (46 ∉ [58; 58] ++ fmt_subslice tl ++ rest) as Hd.
  { rewrite !not_elem_of_app. split; [by apply (bool_decide_unpack _)|done]. }
  rewrite read_groups_fmt by (done || lia).
  rewrite (proj2 (Nat.eqb_neq _ _)) by lia. simpl app. cbn [read_given_char Z.eqb].
  simpl. rewrite read_groups_fmt by (done || lia). done.
Qed.

Lemma read_ipv6_full segs rest :
  Forall in_u16 segs -> length segs = 8%nat -> closes rest ->
  read_ipv6_addr (fmt_subslice segs ++ rest) = Some (segs, rest).
Proof.
  intros Hs Hl Hc. pose proof (closes_end _ Hc) as He. destruct Hc as [_ Hr].
  unfold read_ipv6_addr. rewrite read_groups_fmt by (done || lia). by rewrite Hl.
Qed.

Lemma to_ipv4_mapped_Some segs a b c d :
  to_ipv4_mapped segs = Some (a, b, c, d) ->
  exists x y, segs = [0; 0; 0; 0; 0; 65535; x; y]
    /\ a = x / 256 /\ b = x mod 256 /\ c = y / 256 /\ d = y mod 256.
Proof.
  unfold to_ipv4_mapped. intros H. repeat (case_match; try done). simplify_eq. eauto 10.
Qed.

Lemma u16_bytes n : in_u16 n -> in_u8 (n / 256) /\ in_u8 (n mod 256) /\ n / 256 * 256 + n mod 256 = n.
Proof.
  unfold in_u16, in_u8, U16_MAX, U8_MAX. intros Hn. pose proof (Z.mod_pos_bound n 256).
  pose proof (Z_div_mod_eq_full n 256). split; [|lia].
  split; [apply Z.div_pos; lia|]. assert (n / 256 < 256); [apply Z.div_lt_upper_bound; lia|lia].
Qed.

(** The IPv4-mapped form: [::ffff:] and four octets. *)
Lemma read_ipv6_mapped a b c d text rest :
  read_ipv4_addr text = Some (a, b, c, d, rest) -> groups_end rest ->
  read_ipv6_addr (bs "::ffff:" ++ text)
  = Some ([0; 0; 0; 0; 0; 65535; a * 256 + b; c * 256 + d], rest).
Proof.
  intros Ht Hr. unfold read_ipv6_addr.
  rewrite read_groups_stop by done. simpl Nat.eqb. cbv iota.
  change (bs "::ffff:" ++ text) with (58 :: 58 :: 102 :: 102 :: 102 :: 102 :: 58 :: text).
  assert (read_groups 7 true (102 :: 102 :: 102 :: 102 :: 58 :: text)
    = ([65535; a * 256 + b; c * 256 + d], true, rest)) as Hg.
  { cbn [read_groups Nat.eqb]. unfold read_separator.
    assert (read_ipv4_addr (102 :: 102 :: 102 :: 102 :: 58 :: text) = None) as -> by reflexivity.
    assert (read_number 16 4 true U16_MAX (102 :: 102 :: 102 :: 102 :: 58 :: text)
      = Some (65535, 58 :: text)) as -> by reflexivity.
    cbn [read_given_char]. rewrite Z.eqb_refl. cbn [mbind option_bind]. by rewrite Ht. }
  cbn [read_given_char]. rewrite Z.eqb_refl. cbn [mbind option_bind].
  cbn [read_given_char]. rewrite Z.eqb_refl. cbn [mbind option_bind].
  change (8 - (length (@nil Z) + 1))%nat with 7%nat. by rewrite Hg.
Qed.

Lemma closes_run rest : closes rest -> run_ends 10 rest.
Proof. intros [Hr _]. destruct rest as [|c rest]; [done|]. by rewrite Hr. Qed.
Lemma read_ipv6_show segs rest :
  ip_wf (V6 segs) -> closes rest -> read_ipv6_addr (show_v6 segs ++ rest) = Some (segs, rest).
Proof.
  intros [Hl Hs] Hc. unfold show_v6.
  destruct (to_ipv4_mapped segs) as [[[[a b] c] d]|] eqn:Em.
  - apply to_ipv4_mapped_Some in Em as (x & y & -> & -> & -> & -> & ->).
    rewrite !Forall_cons in Hs. destruct Hs as (_ & _ & _ & _ & _ & _ & Hx & Hy & _).
    apply u16_bytes in Hx as (? & ? & Hx). apply u16_bytes in Hy as (? & ? & Hy).
    rewrite <-app_assoc. erewrite read_ipv6_mapped;
      [|apply read_ipv4_addr_show; [done|by apply closes_run]|by apply closes_end].
    by rewrite Hx, Hy.
  - destruct (zero_span _ _ _ segs) as [start n] eqn:Ez.
    destruct (Nat.ltb_spec 1 n) as [Hn|Hn]; [|by rewrite read_ipv6_full].
    assert ((start + n <= length segs)%nat /\ take n (drop start segs) = replicate n 0) as [Hle Hz].
    { apply (zero_span_zeros segs segs 0%nat) in Ez; simpl; try done; lia. }
    assert (length (take start segs) = start) as Hlt by (rewrite length_take; lia).
    assert (length (drop (start + n) segs) = 8 - (start + n))%nat as Hld by (rewrite length_drop; lia).
    rewrite <-!app_assoc.
    rewrite read_ipv6_compressed; [|by apply Forall_take|by apply Forall_drop|lia|done].
    do 2 f_equal. rewrite Hlt, Hld.
    replace (8 - start - (8 - (start + n)))%nat with n by lia.
    rewrite <-Hz, <-drop_drop, !take_drop. done.
Qed.
Lemma parse_ipv6_show segs : ip_wf (V6 segs) -> parse_ipv6 (show_v6 segs) = Some segs.
Proof.
  intros Hwf. unfold parse_ipv6. rewrite <-(app_nil_r (show_v6 segs)), read_ipv6_show; [done..|apply closes_nil].
Qed.

Lemma show_v6_not_ipv4 segs : ip_wf (V6 segs) -> read_ipv4_addr (show_v6 segs) = None.
Proof.
  intros [Hl Hs]. unfold show_v6. destruct (to_ipv4_mapped segs) as [[[[a b] c] d]|]; [done|].
  apply read_ipv4_addr_no_dot. destruct (zero_span _ _ _ segs) as [start n].
  destruct (1 <? n)%nat; [|by apply fmt_subslice_no_dot].
  rewrite !elem_of_app. intros [Hin|[Hin|Hin]].
  - revert Hin. by apply fmt_subslice_no_dot, Forall_take.
  - revert Hin. change (bs "::") with [58; 58]. set_solver.
  - revert Hin. by apply fmt_subslice_no_dot, Forall_drop.
Qed.

(** Every printed address parses back to itself. *)
Lemma parse_ip_show ip : ip_wf ip -> parse_ip (show_ip ip) = Some ip.
Proof.
  intros Hwf. unfold parse_ip. destruct ip as [a b c d|segs]; simpl.
  - pose proof (read_ipv4_addr_show a b c d [] Hwf I) as Hr. rewrite app_nil_r in Hr. by rewrite Hr.
  - by rewrite show_v6_not_ipv4, parse_ipv6_show.
Qed.

(** ** Socket addresses *)

Lemma read_port_show port : in_u16 port -> read_port (58 :: to_decimal port) = Some (port, []).
Proof.
  intros Hp. unfold read_port. cbn [read_given_char]. rewrite Z.eqb_refl. cbn [mbind option_bind].
  unfold read_port_number, to_decimal.
  pose proof (read_run_decimal 20 port []) as Hr. rewrite app_nil_r in Hr.
  rewrite Hr by (unfold in_u16, U16_MAX in Hp; simpl; lia). rewrite read_run_end by done.
  assert (length (digits_rev 20 port) <> 0%nat) as Hne by done.
  rewrite (proj2 (Nat.eqb_neq _ _)) by done. unfold in_u16 in Hp. by zcond.
Qed.
(** A printed socket address without scope parses back to itself. *)
Lemma parse_socket_addr_show s : socket_addr_wf s -> parse_socket_addr (show_socket_addr s) = Some s.
Proof.
  destruct s as [ip port scope]. intros (Hip & Hp & Hsc). cbn in Hip, Hp, Hsc. subst scope.
  unfold parse_socket_addr, show_socket_addr. cbn [sa_ip sa_port sa_scope_id].
  destruct ip as [a b c d|segs].
  - rewrite read_ipv4_addr_show by done. cbn [mbind option_bind fst snd].
    change ([58] ++ to_decimal port) with (58 :: to_decimal port). by rewrite read_port_show.
  - cbn [Z.eqb]. change ([91] ++ show_v6 segs ++ bs "]:" ++ to_decimal port)
      with (91 :: show_v6 segs ++ 93 :: 58 :: to_decimal port).
    assert (read_ipv4_addr (91 :: show_v6 segs ++ 93 :: 58 :: to_decimal port) = None) as -> by reflexivity.
    cbn [mbind option_bind read_given_char]. rewrite Z.eqb_refl. cbn [mbind option_bind].
    assert (closes (93 :: 58 :: to_decimal port)) as Hc.
    { split; [done|]. rewrite !not_elem_of_cons. split_and!; [done..|]. intros Hin.
      pose proof (to_decimal_digits port (proj1 Hp)) as Hd. rewrite Forall_forall in Hd.
      specialize (Hd _ Hin). revert Hd. by vm_compute. }
    rewrite read_ipv6_show by done. cbn [mbind option_bind read_given_char].
    change (93 =? 37) with false. cbn [mbind option_bind read_given_char].
    rewrite Z.eqb_refl. cbn [mbind option_bind]. by rewrite read_port_show.
Qed.
