(* ===== verification/ProxyProtocol.v ===== *)
(** * PROXY protocol headers ([proxy_protocol.rs])

    Version 1 and 2 encoders and parsers and trusted sources, and their round
    trips. *)
From Stdlib Require Import ZArith Lia.
From stdpp Require Import base list numbers strings sets.
From S2P Require Import Prelude Text NetAddr.

(** ** Trusted sources *)

Inductive ProxyProtocolTrustedSource : Type :=
| TrustedIp (ip : IpAddr)
| TrustedCidr (network : IpAddr) (prefix : Z).

Inductive ProxyProtocolTrustedSourceParseError : Type :=
| InvalidAddress
| InvalidNetwork
| InvalidPrefix.

(** [u32::from] and [u128::from] of an address *)
Definition ipv4_to_u32 (a b c d : Z) : Z := ((a * 256 + b) * 256 + c) * 256 + d.
Definition ipv6_to_u128 (segs : list Z) : Z := foldl (fun acc s => acc * 65536 + s) 0 segs.

(** [if prefix == 0 { 0 } else { MAX << (width - prefix) }] at [width] bits *)
Definition cidr_mask (width prefix : Z) : Z :=
  if prefix =? 0 then 0
  else Z.land (Z.shiftl (2 ^ width - 1) (width - prefix)) (2 ^ width - 1).

Definition cidr_network_address_is_canonical (network : IpAddr) (prefix : Z) : bool :=
  match network with
  | V4 a b c d =>
      Z.land (ipv4_to_u32 a b c d) (Z.lxor (cidr_mask 32 prefix) U32_MAX) =? 0
  | V6 segs =>
      Z.land (ipv6_to_u128 segs) (Z.lxor (cidr_mask 128 prefix) U128_MAX) =? 0
  end.

Definition parse_proxy_protocol_trusted_source (value : list Z)
    : result ProxyProtocolTrustedSource ProxyProtocolTrustedSourceParseError :=
  match split_once 47 value with
  | Some (address, prefix) =>
      let? network := ok_or (parse_ip address) InvalidAddress in
      let? prefix := ok_or (parse_uint U8_MAX prefix) InvalidPrefix in
      let max_prefix := match network with V4 _ _ _ _ => 32 | V6 _ => 128 end in
      if max_prefix <? prefix then Err InvalidPrefix
      else if negb (cidr_network_address_is_canonical network prefix) then Err InvalidNetwork
      else Ok (TrustedCidr network prefix)
  | None => let? ip := ok_or (parse_ip value) InvalidAddress in Ok (TrustedIp ip)
  end.

(** ** Encoders *)

Definition proxy_protocol_v1_header (source destination : option SocketAddr) : list Z :=
  match source, destination with
  | Some source, Some destination =>
      match sa_ip source, sa_ip destination with
      | V4 _ _ _ _, V4 _ _ _ _ =>
          bs "PROXY TCP4 " ++ show_ip (sa_ip source) ++ [SP] ++ show_ip (sa_ip destination) ++ [SP]
          ++ to_decimal (sa_port source) ++ [SP] ++ to_decimal (sa_port destination) ++ crlf
      | V6 _, V6 _ =>
          bs "PROXY TCP6 " ++ show_ip (sa_ip source) ++ [SP] ++ show_ip (sa_ip destination) ++ [SP]
          ++ to_decimal (sa_port source) ++ [SP] ++ to_decimal (sa_port destination) ++ crlf
      | _, _ => bs "PROXY UNKNOWN" ++ crlf
      end
  | _, _ => bs "PROXY UNKNOWN" ++ crlf
  end.

Definition PROXY_PROTOCOL_V1_MAX_LINE : Z := 108.
Definition PROXY_PROTOCOL_V2_HEADER_LEN : Z := 16.
Definition PROXY_PROTOCOL_V2_MAX_PAYLOAD : Z := 4096.
Definition PROXY_PROTOCOL_V2_SIGNATURE : list Z :=
  [13; 10; 13; 10; 0; 13; 10; 81; 85; 73; 84; 10].

(** [u16::to_be_bytes], [Ipv4Addr::octets] and [Ipv6Addr::octets] *)
Definition to_be_bytes (n : Z) : list Z := [n / 256; n mod 256].
Definition octets (ip : IpAddr) : list Z :=
  match ip with
  | V4 a b c d => [a; b; c; d]
  | V6 segs => segs ≫= to_be_bytes
  end.

Definition proxy_protocol_v2_header (source destination : option SocketAddr) : list Z :=
  PROXY_PROTOCOL_V2_SIGNATURE ++
  match source, destination with
  | Some source, Some destination =>
      match sa_ip source, sa_ip destination with
      | V4 _ _ _ _, V4 _ _ _ _ =>
          [33; 17; 0; 12] ++ octets (sa_ip source) ++ octets (sa_ip destination)
          ++ to_be_bytes (sa_port source) ++ to_be_bytes (sa_port destination)
      | V6 _, V6 _ =>
          [33; 33; 0; 36] ++ octets (sa_ip source) ++ octets (sa_ip destination)
          ++ to_be_bytes (sa_port source) ++ to_be_bytes (sa_port destination)
      | _, _ => [33; 0; 0; 0]
      end
  | _, _ => [33; 0; 0; 0]
  end.

(** ** Parsers *)

Inductive DownstreamProxyProtocolParseError : Type :=
| V1LineTooLong
| V1NotUtf8
| V1MissingCrlf
| V1MissingPrefix
| V1MissingFamily
| V1MissingSourceAddress
| V1MissingDestinationAddress
| V1MissingSourcePort
| V1MissingDestinationPort
| V1UnexpectedFields
| V1InvalidSourceAddress
| V1InvalidDestinationAddress
| V1FamilyAddressMismatch
| InvalidPort
| V2InvalidSignature
| V2InvalidVersion
| V2InvalidCommand
| V2InvalidLength
| V2TruncatedTcp4
| V2TruncatedTcp6
| V2InvalidTcp6Source
| V2UnsupportedAddressFamily.

Definition parse_proxy_protocol_port (value : list Z) : result Z DownstreamProxyProtocolParseError :=
  ok_or (parse_uint U16_MAX value) InvalidPort.

(** [match (family, source_ip, destination_ip)] *)
Definition family_matches (family : list Z) (source destination : IpAddr) : bool :=
  match source, destination with
  | V4 _ _ _ _, V4 _ _ _ _ => bool_decide (family = bs "TCP4")
  | V6 _, V6 _ => bool_decide (family = bs "TCP6")
  | _, _ => false
  end.

(** The fields after the family. *)
Definition parse_v1_addresses (family : list Z) (fields : list (list Z))
    : result (option SocketAddr) DownstreamProxyProtocolParseError :=
  match fields with
  | [] => Err V1MissingSourceAddress
  | [_] => Err V1MissingDestinationAddress
  | [_; _] => Err V1MissingSourcePort
  | [_; _; _] => Err V1MissingDestinationPort
  | [source_addr; destination_addr; source_port; destination_port] =>
      let? source_ip := ok_or (parse_ip source_addr) V1InvalidSourceAddress in
      let? destination_ip := ok_or (parse_ip destination_addr) V1InvalidDestinationAddress in
      if negb (family_matches family source_ip destination_ip) then Err V1FamilyAddressMismatch
      else
        let? source_port := parse_proxy_protocol_port source_port in
        let? _ := parse_proxy_protocol_port destination_port in
        Ok (Some (socket_addr_new source_ip source_port))
  | _ => Err V1UnexpectedFields
  end.

Definition parse_downstream_proxy_protocol_v1 (line : list Z)
    : result (option SocketAddr) DownstreamProxyProtocolParseError :=
  if PROXY_PROTOCOL_V1_MAX_LINE <? zlen line then Err V1LineTooLong
  else if negb (utf8_valid line) then Err V1NotUtf8
  else
    let? line := ok_or (strip_suffix crlf line) V1MissingCrlf in
    match split_whitespace line with
    | prefix :: fields =>
        if negb (bool_decide (prefix = bs "PROXY")) then Err V1MissingPrefix
        else match fields with
        | [] => Err V1MissingFamily
        | family :: fields =>
            if bool_decide (family = bs "UNKNOWN") then Ok None
            else parse_v1_addresses family fields
        end
    | [] => Err V1MissingPrefix
    end.

(** [bytes[i]] for an index the caller checked *)
Definition byte_at (bytes : list Z) (i : Z) : Z := default 0 (zget bytes i).
Definition from_be_bytes (hi lo : Z) : Z := hi * 256 + lo.
(** [Ipv6Addr::from] of sixteen bytes *)
Fixpoint segments_of (bytes : list Z) : list Z :=
  match bytes with
  | hi :: lo :: rest => from_be_bytes hi lo :: segments_of rest
  | _ => []
  end.

(** [header] has sixteen bytes. *)
Definition parse_downstream_proxy_protocol_v2 (header payload : list Z)
    : result (option SocketAddr) DownstreamProxyProtocolParseError :=
  let declared_length := from_be_bytes (byte_at header 14) (byte_at header 15) in
  if (PROXY_PROTOCOL_V2_MAX_PAYLOAD <? declared_length) || negb (zlen payload =? declared_length)
  then Err V2InvalidLength
  else if negb (bool_decide (ztake (zlen PROXY_PROTOCOL_V2_SIGNATURE) header
                             = PROXY_PROTOCOL_V2_SIGNATURE))
  then Err V2InvalidSignature
  else if negb (Z.shiftr (byte_at header 12) 4 =? 2) then Err V2InvalidVersion
  else
    let command := Z.land (byte_at header 12) 15 in
    if command =? 0 then Ok None
    else if negb (command =? 1) then Err V2InvalidCommand
    else
      let family := byte_at header 13 in
      if family =? 17 then
        if zlen payload <? 12 then Err V2TruncatedTcp4
        else
          let source := V4 (byte_at payload 0) (byte_at payload 1) (byte_at payload 2)
                           (byte_at payload 3) in
          let port := from_be_bytes (byte_at payload 8) (byte_at payload 9) in
          Ok (Some (socket_addr_new source port))
      else if family =? 33 then
        if zlen payload <? 36 then Err V2TruncatedTcp6
        else
          let? bytes := ok_or (zslice payload 0 16) V2InvalidTcp6Source in
          let source := V6 (segments_of bytes) in
          let port := from_be_bytes (byte_at payload 32) (byte_at payload 33) in
          Ok (Some (socket_addr_new source port))
      else if family =? 0 then Ok None
      else Err V2UnsupportedAddressFamily.

(** * Properties of PROXY protocol headers

    Version 1 and 2 headers carry the source address to the parser, and trusted
    networks are accepted exactly in canonical form. *)
(** ** Networks *)

Lemma ones_bits n i : 0 <= n -> 0 <= i -> Z.testbit (2 ^ n - 1) i = (i <? n).
Proof.
  intros Hn Hi. rewrite Z.sub_1_r, <-Z.ones_equiv.
  destruct (Z.ltb_spec i n); [by apply Z.ones_spec_low|by apply Z.ones_spec_high].
Qed.

Lemma cidr_mask_host width prefix :
  0 <= prefix <= width ->
  Z.lxor (cidr_mask width prefix) (2 ^ width - 1) = Z.ones (width - prefix).
Proof.
  intros Hp. apply Z.bits_inj'. intros i Hi.
  rewrite Z.lxor_spec, Z.ones_equiv, <-Z.sub_1_r, (ones_bits width), (ones_bits (width - prefix))
    by lia.
  unfold cidr_mask. destruct (Z.eqb_spec prefix 0) as [->|].
  - rewrite Z.bits_0, Z.sub_0_r. by destruct (i <? width).
  - rewrite Z.land_spec, Z.shiftl_spec, (ones_bits width i) by lia.
    destruct (Z.ltb_spec i (width - prefix)).
    + rewrite Z.testbit_neg_r by lia. zcond. done.
    + rewrite ones_bits by lia. destruct (Z.ltb_spec i width); [by zcond|by rewrite andb_false_r].
Qed.

Lemma land_host_zero width prefix address :
  0 <= prefix <= width ->
  Z.land address (Z.lxor (cidr_mask width prefix) (2 ^ width - 1)) = 0 <->
  (2 ^ (width - prefix) | address).
Proof.
  intros Hp. rewrite cidr_mask_host, Z.land_ones by lia.
  apply Z.mod_divide. apply Z.pow_nonzero; lia.
Qed.

(** The number an address stands for, and the bits of its family. *)
Definition ip_number (ip : IpAddr) : Z :=
  match ip with V4 a b c d => ipv4_to_u32 a b c d | V6 segs => ipv6_to_u128 segs end.
Definition ip_width (ip : IpAddr) : Z := match ip with V4 _ _ _ _ => 32 | V6 _ => 128 end.

Lemma canonical_divides network prefix :
  0 <= prefix <= ip_width network ->
  cidr_network_address_is_canonical network prefix = true <->
  (2 ^ (ip_width network - prefix) | ip_number network).
Proof.
  intros Hp. unfold cidr_network_address_is_canonical.
  destruct network; simpl ip_width in *; simpl ip_number; rewrite Z.eqb_eq.
  - by apply (land_host_zero 32).
  - by apply (land_host_zero 128).
Qed.

(** Trusted networks.  A textual network is accepted exactly when the part
    before the first slash is an address, the rest a number no larger than the
    width of the address, and the address has no bit set below the prefix; and
    the network and prefix are the ones written. *)
Theorem trusted_cidr_exact (address prefix_text : list Z) (network : IpAddr) (prefix : Z) :
  47 ∉ address ->
  parse_proxy_protocol_trusted_source (address ++ [47] ++ prefix_text)
    = Ok (TrustedCidr network prefix)
  <-> parse_ip address = Some network /\ parse_uint U8_MAX prefix_text = Some prefix
      /\ prefix <= ip_width network
      /\ (2 ^ (ip_width network - prefix) | ip_number network).
Proof.
  intros Ha. unfold parse_proxy_protocol_trusted_source. simpl app.
  rewrite split_once_app by done.
  destruct (parse_ip address) as [ip|]; simpl; [|split; [done|intros [? _]; done]].
  destruct (parse_uint U8_MAX prefix_text) as [p|] eqn:Ep; simpl;
    [|split; [done|intros (_ & ? & _); done]].
  apply parse_uint_range in Ep as Hr; [|done].
  fold (ip_width ip). destruct (Z.ltb_spec (ip_width ip) p) as [Hlt|Hle].
  { split; [done|]. intros (? & ? & ? & _). simplify_eq. lia. }
  destruct (cidr_network_address_is_canonical ip p) eqn:Ec; simpl.
  - apply canonical_divides in Ec; [|lia]. split; [by intros [= <- <-]|].
    intros (? & ? & _ & _). by simplify_eq.
  - split; [done|]. intros (? & ? & _ & Hd). simplify_eq.
    apply canonical_divides in Hd; [congruence|lia].
Qed.
Lemma trusted_cidr_exact_witness :
  parse_proxy_protocol_trusted_source (bs "10.32.0.0" ++ [47] ++ bs "11")
  = Ok (TrustedCidr (V4 10 32 0 0) 11).
Proof.
  apply (trusted_cidr_exact (bs "10.32.0.0") (bs "11") (V4 10 32 0 0) 11).
  - vm_compute. set_solver.
  - split; [reflexivity|]. split; [reflexivity|]. split; [vm_compute; discriminate|].
    exists 81. reflexivity.
Defined.

(** ** Version 1 *)

(** What the downstream parser learns from a header: the source, when both
    addresses are known and of the same family. *)
Definition carried (source destination : option SocketAddr) : option SocketAddr :=
  match source, destination with
  | Some s, Some d =>
      match sa_ip s, sa_ip d with
      | V4 _ _ _ _, V4 _ _ _ _ | V6 _, V6 _ => Some (socket_addr_new (sa_ip s) (sa_port s))
      | _, _ => None
      end
  | _, _ => None
  end.

(** Visible ASCII text. *)
Definition graph (s : list Z) : Prop := Forall (fun c => 33 <= c <= 126) s.

Lemma graph_app s t : graph (s ++ t) <-> graph s /\ graph t.
Proof. apply Forall_app. Qed.

Lemma words_go_graph cur s rest :
  graph s -> words_go cur (s ++ rest) = words_go (rev s ++ cur) rest.
Proof.
  intros Hs. revert cur. induction Hs as [|c s Hc Hs IH]; intros cur; [done|].
  simpl app. rewrite <-app_assoc. simpl app. rewrite <-(IH (c :: cur)).
  generalize (s ++ rest) as t. intros t. cbn [words_go].
  assert (ws1 c = false) as -> by (unfold ws1, between; zcond; done).
  destruct t as [|c1 t]; [done|].
  destruct (ws2 c c1) eqn:E2; [apply ws2_not_ascii in E2; lia|].
  destruct t as [|c2 t]; [done|].
  destruct (ws3 c c1 c2) eqn:E3; [apply ws3_not_ascii in E3; lia|done].
Qed.
Lemma split_whitespace_word w rest :
  graph w -> w <> [] -> split_whitespace (w ++ [SP] ++ rest) = w :: split_whitespace rest.
Proof.
  intros Hw Hne. unfold split_whitespace. rewrite words_go_graph, app_nil_r by done.
  cbn [app words_go]. change (ws1 SP) with true. cbv iota.
  unfold flush. destruct (rev w) as [|x r] eqn:E.
  - apply (f_equal (@rev Z)) in E. rewrite rev_involutive in E. done.
  - by rewrite <-E, rev_involutive.
Qed.
Lemma split_whitespace_last w : graph w -> w <> [] -> split_whitespace w = [w].
Proof.
  intros Hw Hne. unfold split_whitespace. rewrite <-(app_nil_r w) at 1.
  rewrite words_go_graph, app_nil_r by done. simpl. unfold flush.
  destruct (rev w) as [|x r] eqn:E.
  - apply (f_equal (@rev Z)) in E. rewrite rev_involutive in E. done.
  - by rewrite <-E, rev_involutive.
Qed.

(** *** Printed fields: visible, and how long *)

Lemma to_decimal_graph n : 0 <= n -> graph (to_decimal n).
Proof.
  intros Hn. eapply Forall_impl; [by apply to_decimal_digits|]. simpl. intros c Hc.
  unfold is_ascii_digit, between in Hc. breflect. lia.
Qed.
Lemma to_hex_graph n : 0 <= n -> graph (to_hex n).
Proof.
  intros Hn. eapply Forall_impl; [by apply to_hex_digits|]. simpl.
  intros c (d & Hd & ->). unfold hex_digit. destruct (Z.ltb_spec d 10); lia.
Qed.
Lemma zlen_digits fuel n k :
  0 <= n < 10 ^ Z.of_nat (S k) -> zlen (digits_rev fuel n) <= Z.of_nat (S k).
Proof.
  revert n k. induction fuel as [|fuel IH]; intros n k Hn; cbn [digits_rev]; [zl|].
  rewrite zlen_cons. destruct (Z.ltb_spec n 10); [zl|]. destruct k as [|k]; [simpl in Hn; lia|].
  rewrite Nat2Z.inj_succ, Z.pow_succ_r in Hn by lia.
  specialize (IH (n / 10) k ltac:(split; [apply Z.div_pos; lia|apply Z.div_lt_upper_bound; lia])).
  lia.
Qed.
Lemma zlen_octet n : in_u8 n -> zlen (to_decimal n) <= 3.
Proof.
  intros Hn. unfold to_decimal. rewrite zlen_rev. apply (zlen_digits 20 n 2).
  unfold in_u8, U8_MAX in Hn. simpl. lia.
Qed.
Lemma zlen_port n : in_u16 n -> zlen (to_decimal n) <= 5.
Proof.
  intros Hn. unfold to_decimal. rewrite zlen_rev. apply (zlen_digits 20 n 4).
  unfold in_u16, U16_MAX in Hn. simpl. lia.
Qed.
Lemma zlen_to_hex n : zlen (to_hex n) <= 4.
Proof. unfold to_hex. rewrite zlen_rev. simpl. repeat case_match; zl. Qed.

Lemma fmt_tail_graph segs :
  Forall in_u16 segs -> graph (fmt_tail segs) /\ zlen (fmt_tail segs) <= 5 * zlen segs.
Proof.
  induction 1 as [|n segs Hn Hs [IHg IHl]]; [by repeat constructor|].
  change (fmt_tail (n :: segs)) with (58 :: to_hex n ++ fmt_tail segs). split.
  - constructor; [lia|]. apply graph_app. split; [|done]. apply to_hex_graph. unfold in_u16 in Hn. lia.
  - pose proof (zlen_to_hex n). rewrite !zlen_cons, zlen_app. lia.
Qed.
Lemma fmt_subslice_graph segs :
  Forall in_u16 segs ->
  graph (fmt_subslice segs) /\ zlen (fmt_subslice segs) <= Z.max 0 (5 * zlen segs - 1).
Proof.
  intros [|n tl Hn Ht]; [by repeat constructor|].
  change (fmt_subslice (n :: tl)) with (to_hex n ++ fmt_tail tl).
  destruct (fmt_tail_graph tl Ht). pose proof (zlen_to_hex n). split.
  - apply graph_app. split; [|done]. apply to_hex_graph. unfold in_u16 in Hn. lia.
  - rewrite zlen_cons, zlen_app. zlen_facts. lia.
Qed.
Lemma show_v4_graph a b c d :
  ip_wf (V4 a b c d) -> graph (show_v4 a b c d) /\ zlen (show_v4 a b c d) <= 15.
Proof.
  intros (Ha & Hb & Hc & Hd). unfold show_v4. split.
  - unfold in_u8 in *. rewrite !graph_app.
    split_and!; first [apply to_decimal_graph; lia | by apply (bool_decide_unpack _)].
  - pose proof (zlen_octet a Ha). pose proof (zlen_octet b Hb).
    pose proof (zlen_octet c Hc). pose proof (zlen_octet d Hd).
    rewrite !zlen_app, !zlen_cons, !zlen_nil. lia.
Qed.
Lemma show_ip_graph ip : ip_wf ip -> graph (show_ip ip) /\ zlen (show_ip ip) <= 39.
Proof.
  destruct ip as [a b c d|segs]; [intros H; apply show_v4_graph in H as [? ?]; split; [done|simpl; lia]|].
  intros [Hl Hs]. simpl. unfold show_v6. destruct (to_ipv4_mapped segs) as [[[[a b] c] d]|] eqn:Em.
  - apply to_ipv4_mapped_Some in Em as (x & y & -> & -> & -> & -> & ->).
    rewrite !Forall_cons in Hs. destruct Hs as (_ & _ & _ & _ & _ & _ & Hx & Hy & _).
    apply u16_bytes in Hx as (? & ? & _). apply u16_bytes in Hy as (? & ? & _).
    destruct (show_v4_graph (x / 256) (x mod 256) (y / 256) (y mod 256)) as [Hg Hl4]; [done|].
    split; [|rewrite zlen_app; change (zlen (bs "::ffff:")) with 7; lia].
    apply graph_app. split; [by apply (bool_decide_unpack _)|done].
  - destruct (zero_span _ _ _ segs) as [start n] eqn:Ez.
    destruct (1 <? n)%nat eqn:En.
    + destruct (fmt_subslice_graph (take start segs)) as [Hg1 Hl1]; [by apply Forall_take|].
      destruct (fmt_subslice_graph (drop (start + n) segs)) as [Hg2 Hl2]; [by apply Forall_drop|].
      assert (start + n <= length segs)%nat as Hsn.
      { apply (zero_span_zeros segs segs 0%nat) in Ez; simpl; try done; lia. }
      apply Nat.ltb_lt in En. unfold zlen in Hl1, Hl2. rewrite length_take in Hl1.
      rewrite length_drop in Hl2. split.
      * apply graph_app. split; [done|]. apply graph_app. split; [by apply (bool_decide_unpack _)|done].
      * rewrite !zlen_app. change (zlen (bs "::")) with 2. unfold zlen. lia.
    + destruct (fmt_subslice_graph segs Hs). split; [done|]. unfold zlen in *. lia.
Qed.
Lemma show_ip_not_nil ip : ip_wf ip -> show_ip ip <> [].
Proof. intros Hwf Hn. apply parse_ip_show in Hwf. by rewrite Hn in Hwf. Qed.

Lemma v1_line_parses family source destination :
  socket_addr_wf source -> socket_addr_wf destination ->
  graph family -> zlen family = 4 -> family <> bs "UNKNOWN" ->
  family_matches family (sa_ip source) (sa_ip destination) = true ->
  parse_downstream_proxy_protocol_v1
    (bs "PROXY" ++ [SP] ++ family ++ [SP] ++ show_ip (sa_ip source) ++ [SP]
     ++ show_ip (sa_ip destination) ++ [SP] ++ to_decimal (sa_port source) ++ [SP]
     ++ to_decimal (sa_port destination) ++ crlf)
  = Ok (Some (socket_addr_new (sa_ip source) (sa_port source))).
Proof.
  intros (Hsi & Hsp & _) (Hdi & Hdp & _) Hf Hfl Hu Hm.
  destruct (show_ip_graph _ Hsi) as [Hg1 Hl1]. destruct (show_ip_graph _ Hdi) as [Hg2 Hl2].
  pose proof (zlen_port _ Hsp). pose proof (zlen_port _ Hdp).
  assert (graph (to_decimal (sa_port source))) as Hg3 by (apply to_decimal_graph; apply Hsp).
  assert (graph (to_decimal (sa_port destination))) as Hg4 by (apply to_decimal_graph; apply Hdp).
  set (text := bs "PROXY" ++ [SP] ++ family ++ [SP] ++ show_ip (sa_ip source) ++ [SP]
     ++ show_ip (sa_ip destination) ++ [SP] ++ to_decimal (sa_port source) ++ [SP]
     ++ to_decimal (sa_port destination)).
  assert (bs "PROXY" ++ [SP] ++ family ++ [SP] ++ show_ip (sa_ip source) ++ [SP]
     ++ show_ip (sa_ip destination) ++ [SP] ++ to_decimal (sa_port source) ++ [SP]
     ++ to_decimal (sa_port destination) ++ crlf = text ++ crlf) as ->
    by (unfold text; by rewrite <-!app_assoc).
  unfold parse_downstream_proxy_protocol_v1, PROXY_PROTOCOL_V1_MAX_LINE.
  rewrite (proj2 (Z.ltb_ge _ _)).
  2:{ unfold text, crlf. rewrite !zlen_app, !zlen_cons, !zlen_nil.
      change (zlen (bs "PROXY")) with 5. lia. }
  rewrite utf8_valid_ascii.
  2:{ assert (forall s, graph s -> Forall (fun c => 0 <= c < 128) s) as Hasc
        by (intros s Hs; eapply Forall_impl; [exact Hs|]; simpl; intros; lia).
      unfold text. rewrite !Forall_app. split_and!; auto; by apply (bool_decide_unpack _). }
  simpl negb. cbv iota. rewrite strip_suffix_app. cbn [ok_or]. unfold text.
  rewrite split_whitespace_word by (done || by apply (bool_decide_unpack _)).
  rewrite split_whitespace_word by (done || by intros ->).
  rewrite !split_whitespace_word by (done || by apply show_ip_not_nil || apply to_decimal_not_nil).
  rewrite split_whitespace_last by (done || apply to_decimal_not_nil).
  rewrite bool_decide_true by done. simpl negb. cbv iota. rewrite bool_decide_false by done.
  unfold parse_v1_addresses. rewrite !parse_ip_show by done. cbn [ok_or]. rewrite Hm. simpl negb. cbv iota.
  unfold parse_proxy_protocol_port.
  rewrite !parse_uint_to_decimal by (unfold in_u16 in *; ulia). done.
Qed.

(** Version 1 headers.  The header written for any pair of socket
    addresses is accepted by the parser, within its line limit, and gives back
    the source address and port when both are known and of one family, and no
    address otherwise.  This includes every IPv6 address, in the compressed and
    IPv4-mapped forms it is printed in. *)
Theorem proxy_v1_round_trip (source destination : option SocketAddr) :
  (forall a, source = Some a -> socket_addr_wf a) ->
  (forall a, destination = Some a -> socket_addr_wf a) ->
  parse_downstream_proxy_protocol_v1 (proxy_protocol_v1_header source destination)
  = Ok (carried source destination).
Proof.
  intros Hs Hd. unfold proxy_protocol_v1_header, carried.
  destruct source as [s|]; [|reflexivity]. destruct destination as [d|]; [|reflexivity].
  specialize (Hs s eq_refl). specialize (Hd d eq_refl).
  destruct (sa_ip s) eqn:Es, (sa_ip d) eqn:Ed; try reflexivity.
  all: rewrite <-Es, <-Ed.
  - apply (v1_line_parses (bs "TCP4")); try done; [by apply (bool_decide_unpack _)|].
    by rewrite Es, Ed.
  - apply (v1_line_parses (bs "TCP6")); try done; [by apply (bool_decide_unpack _)|].
    by rewrite Es, Ed.
Qed.
Definition sample_v6 : SocketAddr := socket_addr_new (V6 [8193; 3512; 0; 0; 1; 0; 0; 1]) 443.
Lemma sample_v6_wf : socket_addr_wf sample_v6.
Proof. split; [split; [reflexivity|by apply (bool_decide_unpack _)]|]; split; [done|reflexivity]. Qed.
Lemma proxy_v1_round_trip_witness :
  parse_downstream_proxy_protocol_v1
    (bs "PROXY TCP6 2001:db8::1:0:0:1 2001:db8::1:0:0:1 443 443" ++ crlf)
  = Ok (Some sample_v6).
Proof.
  apply (proxy_v1_round_trip (Some sample_v6) (Some sample_v6)); intros a [= <-]; apply sample_v6_wf.
Defined.

(** ** Version 2 *)

Lemma from_to_be_bytes n : from_be_bytes (n / 256) (n mod 256) = n.
Proof. unfold from_be_bytes. pose proof (Z_div_mod_eq_full n 256). lia. Qed.

Lemma segments_of_octets segs : segments_of (octets (V6 segs)) = segs.
Proof.
  simpl. induction segs as [|n segs IH]; [done|].
  cbn [mbind list_bind to_be_bytes app segments_of]. by rewrite from_to_be_bytes, IH.
Qed.
Lemma octets_length segs : length (octets (V6 segs)) = (2 * length segs)%nat.
Proof.
  simpl. induction segs as [|n segs IH]; [done|].
  cbn [mbind list_bind to_be_bytes app length] in *. lia.
Qed.

(** The parts of a version 2 header a reader sees: sixteen bytes, and as much
    payload as they announce. *)
Definition v2_split (bytes : list Z) : list Z * list Z :=
  (ztake PROXY_PROTOCOL_V2_HEADER_LEN bytes, zdrop PROXY_PROTOCOL_V2_HEADER_LEN bytes).

Lemma v2_parse_v4 a b c d rest port rest' :
  length rest = 4%nat -> length rest' = 2%nat ->
  parse_downstream_proxy_protocol_v2 (PROXY_PROTOCOL_V2_SIGNATURE ++ [33; 17; 0; 12])
    ([a; b; c; d] ++ rest ++ to_be_bytes port ++ rest')
  = Ok (Some (socket_addr_new (V4 a b c d) port)).
Proof.
  intros Hr Hr'. destruct rest as [|r0 [|r1 [|r2 [|r3 []]]]]; try done.
  destruct rest' as [|s0 [|s1 []]]; try done.
  trans (Ok (E := DownstreamProxyProtocolParseError) (Some (socket_addr_new (V4 a b c d)
    (from_be_bytes (port / 256) (port mod 256))))); [reflexivity|by rewrite from_to_be_bytes].
Qed.
Lemma v2_parse_v6 segs rest port rest' :
  length segs = 8%nat -> length rest = 16%nat -> length rest' = 2%nat ->
  parse_downstream_proxy_protocol_v2 (PROXY_PROTOCOL_V2_SIGNATURE ++ [33; 33; 0; 36])
    (octets (V6 segs) ++ rest ++ to_be_bytes port ++ rest')
  = Ok (Some (socket_addr_new (V6 segs) port)).
Proof.
  intros Hs Hr Hr'. pose proof (octets_length segs) as Hol. rewrite Hs in Hol.
  pose proof (segments_of_octets segs) as Hso. set (os := octets (V6 segs)) in *. clearbody os.
  assert (zlen os = 16) as Hos by (unfold zlen; lia).
  assert (zlen rest = 16) as Hre by (unfold zlen; lia).
  assert (zlen rest' = 2) as Hre' by (unfold zlen; lia).
  set (payload := os ++ rest ++ to_be_bytes port ++ rest').
  assert (zlen payload = 36) as Hpl
    by (unfold payload, to_be_bytes; rewrite !zlen_app, !zlen_cons, zlen_nil; lia).
  unfold parse_downstream_proxy_protocol_v2. rewrite Hpl.
  assert (ztake 16 payload = os) as Htake.
  { unfold payload. rewrite <-Hos. apply ztake_app_exact. }
  assert (byte_at payload 32 = port / 256 /\ byte_at payload 33 = port mod 256) as [Hb1 Hb2].
  { assert (payload = (os ++ rest) ++ to_be_bytes port ++ rest') as ->
      by (unfold payload; by rewrite <-!app_assoc).
    unfold byte_at. split; rewrite zget_app_ge by (rewrite zlen_app; lia);
      rewrite zlen_app, Hos, Hre; reflexivity. }
  assert (zslice payload 0 16 = Some os) as Hslice.
  { unfold zslice. rewrite Hpl, zdrop_0. change (16 - 0) with 16. by rewrite Htake. }
  rewrite Hb1, Hb2, from_to_be_bytes, Hslice. simpl. by rewrite Hso.
Qed.

(** version 2 headers.  The header written for any pair of socket
    addresses announces exactly its payload, and the parser gives back the
    source address and port when both are known and of one family, and no
    address otherwise. *)
Theorem proxy_v2_round_trip (source destination : option SocketAddr) :
  (forall a, source = Some a -> socket_addr_wf a) ->
  (forall a, destination = Some a -> socket_addr_wf a) ->
  parse_downstream_proxy_protocol_v2
    (v2_split (proxy_protocol_v2_header source destination)).1
    (v2_split (proxy_protocol_v2_header source destination)).2
  = Ok (carried source destination).
Proof.
  intros Hs Hd. unfold proxy_protocol_v2_header, carried.
  destruct source as [s|]; [|reflexivity]. destruct destination as [d|]; [|reflexivity].
  specialize (Hs s eq_refl). specialize (Hd d eq_refl).
  destruct (sa_ip s) as [a b c e|segs] eqn:Es, (sa_ip d) as [a' b' c' e'|segs'] eqn:Ed; try reflexivity.
  - change (v2_split _) with (PROXY_PROTOCOL_V2_SIGNATURE ++ [33; 17; 0; 12],
      [a; b; c; e] ++ [a'; b'; c'; e'] ++ to_be_bytes (sa_port s) ++ to_be_bytes (sa_port d)).
    by apply v2_parse_v4.
  - change (v2_split _) with (PROXY_PROTOCOL_V2_SIGNATURE ++ [33; 33; 0; 36],
      octets (V6 segs) ++ octets (V6 segs') ++ to_be_bytes (sa_port s) ++ to_be_bytes (sa_port d)).
    unfold socket_addr_wf in *. rewrite Es in Hs. rewrite Ed in Hd.
    destruct Hs as ([Hl _] & _), Hd as ([Hl' _] & _).
    apply v2_parse_v6; [done|rewrite octets_length; lia|done].
Qed.
Lemma proxy_v2_round_trip_witness :
  socket_addr_wf sample_v6 /\
  parse_downstream_proxy_protocol_v2
    (v2_split (proxy_protocol_v2_header (Some sample_v6) (Some sample_v6))).1
    (v2_split (proxy_protocol_v2_header (Some sample_v6) (Some sample_v6))).2
  = Ok (Some sample_v6).
Proof.
  split; [apply sample_v6_wf|].
  apply (proxy_v2_round_trip (Some sample_v6) (Some sample_v6)); intros a [= <-]; apply sample_v6_wf.
Defined.
