(* ===== verification/Http1Target.v ===== *)
(** * Shared vocabulary of the [fluxheim-protocol] crate

    The parse error type, HTTP tokens, and the small string predicates of
    [lib.rs]: route matching, the [Via] value and response-rewrite prefixes. *)
From Stdlib Require Import ZArith Lia.
From stdpp Require Import base list numbers strings sets.
From S2P Require Import Prelude Text NetAddr.

Inductive Http1ParseError : Type :=
| BodyTooLarge
| ChunkTooLarge
| ChunkMetadataTooLarge
| ConflictingBodyFraming
| ConflictingAuthority
| DuplicateContentLength
| DuplicateHost
| HeaderCountExceeded
| HeaderLineTooLong
| HeadTooLarge
| InvalidConnection
| InvalidContentLength
| InvalidChunk
| InvalidChunkSize
| InvalidAuthority
| InvalidHost
| InvalidHeaderName
| InvalidHeaderValue
| InvalidRequestLine
| InvalidRequestTarget
| InvalidResponseLine
| InvalidStatusCode
| InvalidUtf8
| MissingHost
| EncodedBodyTooLarge
| ObsoleteLineFolding
| OutputTooSmall
| StartLineTooLong
| UnsupportedTransferEncoding
| UnsupportedVersion.

#[export] Instance Http1ParseError_eq_dec : EqDecision Http1ParseError.
Proof. solve_decision. Defined.

(** ** HTTP tokens *)

Definition token_byte (c : Z) : bool :=
  existsb (Z.eqb c) (bs "!#$%&'*+-.^_`|~")
  || between 48 57 c || between 65 90 c || between 97 122 c.

Definition http_token_valid (value : list Z) : bool :=
  negb (bool_decide (value = [])) && forallb token_byte value.

Definition http_upgrade_token_valid (value : list Z) : bool := http_token_valid value.

(** ** Route matching *)

Definition route_method_matches (methods : list (list Z)) (method : list Z) : bool :=
  bool_decide (methods = [])
  || existsb (fun configured => eq_ignore_ascii_case configured method) methods.

Definition prefix_boundary (prefix suffix : list Z) : bool :=
  bool_decide (prefix = [47]) || ends_with [47] prefix || bool_decide (suffix = [])
  || starts_with [47] suffix.

Definition route_prefix_matches_path (prefix path : list Z) : bool :=
  match strip_prefix prefix path with
  | None => false
  | Some suffix => prefix_boundary prefix suffix
  end.

Definition route_strip_prefix_suffix (prefix path : list Z) : option (list Z) :=
  match strip_prefix prefix path with
  | None => None
  | Some suffix => if prefix_boundary prefix suffix then Some suffix else None
  end.

(** ** The [Via] header value *)

Definition FLUXHEIM_VIA_VALUE : list Z := bs "1.1 fluxheim".

Definition append_fluxheim_via_value (existing : list Z) : list Z :=
  if bool_decide (trim existing = []) then FLUXHEIM_VIA_VALUE
  else trim existing ++ bs ", " ++ FLUXHEIM_VIA_VALUE.

(** ** Response rewriting *)

Definition response_rewrite_prefix_requires_authority_boundary (prefix : list Z) : bool :=
  match (match strip_prefix (bs "http://") prefix with
         | Some r => Some r
         | None => strip_prefix (bs "https://") prefix
         end) with
  | None => false
  | Some authority_and_path =>
      negb (existsb (fun c => (c =? 47) || (c =? 63) || (c =? 35)) authority_and_path)
  end.

Definition response_rewrite_prefix_matches (value prefix : list Z) : bool :=
  if negb (starts_with prefix value) then false
  else if negb (response_rewrite_prefix_requires_authority_boundary prefix) then true
  else match zget value (zlen prefix) with
       | None => true
       | Some c => (c =? 47) || (c =? 63) || (c =? 35)
       end.

(** ** Lemmas *)

Lemma http_token_valid_spec v :
  http_token_valid v = true <-> v <> [] /\ Forall (fun c => token_byte c = true) v.
Proof.
  unfold http_token_valid. rewrite andb_true_iff, negb_true_iff, bool_decide_eq_false, forallb_forall.
  by rewrite Forall_forall; setoid_rewrite list_elem_of_In.
Qed.

(** A token byte is a printable ASCII character. *)
Lemma token_byte_range c : token_byte c = true -> 33 <= c <= 126.
Proof.
  unfold token_byte, between. intros H.
  repeat (apply orb_true_iff in H as [H|H]); simpl in H;
    repeat (apply orb_true_iff in H as [H|H]); breflect; lia.
Qed.

Lemma token_byte_lowercase c : token_byte (to_ascii_lowercase1 c) = token_byte c.
Proof.
  unfold to_ascii_lowercase1. destruct (is_ascii_upper c) eqn:E; [|done].
  unfold token_byte. unfold is_ascii_upper, between in *. breflect.
  rewrite (proj2 (Z.leb_le 97 (c + 32))), (proj2 (Z.leb_le (c + 32) 122)) by lia.
  rewrite (proj2 (Z.leb_le 65 c)), (proj2 (Z.leb_le c 90)) by lia.
  by rewrite !orb_true_r.
Qed.
Lemma http_token_valid_lowercase s : http_token_valid (to_ascii_lowercase s) = http_token_valid s.
Proof.
  unfold http_token_valid. f_equal; [by destruct s|].
  induction s as [|c s IH]; [done|]. simpl. by rewrite token_byte_lowercase, IH.
Qed.

(** The prefix route match and the strip of the prefix agree. *)
Lemma route_prefix_matches_strip prefix path :
  route_prefix_matches_path prefix path = true <->
  exists suffix, route_strip_prefix_suffix prefix path = Some suffix /\ path = prefix ++ suffix.
Proof.
  unfold route_prefix_matches_path, route_strip_prefix_suffix.
  destruct (strip_prefix prefix path) as [s|] eqn:E; [|naive_solver].
  apply strip_prefix_Some in E. destruct (prefix_boundary prefix s); naive_solver.
Qed.

(** * HTTP/1 request targets ([http1_target.rs])

    The four request-target forms, URI component validation and authority
    validation. *)
Inductive Http1RequestTarget : Type :=
| Origin (raw path : list Z) (query : option (list Z))
| AbsoluteUri (raw scheme : list Z) (authority path query : option (list Z))
| Authority (raw : list Z) (port : Z)
| Asterisk.

#[export] Instance Http1RequestTarget_eq_dec : EqDecision Http1RequestTarget.
Proof. solve_decision. Defined.

Definition uri_component_byte_allowed (byte : Z) (query : bool) : bool :=
  is_ascii_alphanumeric byte
  || existsb (Z.eqb byte) (bs "-._~!$&'()*+,;=:@/")
  || (query && (byte =? 63)).

(** The [while] loop over the bytes: a percent sign takes the next two bytes
    with it, every other byte is checked on its own. *)
Fixpoint validate_uri_component (value : list Z) (query : bool) : result unit Http1ParseError :=
  match value with
  | [] => Ok tt
  | c :: rest =>
      if c =? 37 then
        match rest with
        | h1 :: h2 :: rest' =>
            if is_ascii_hexdigit h1 && is_ascii_hexdigit h2
            then validate_uri_component rest' query
            else Err InvalidRequestTarget
        | _ => Err InvalidRequestTarget
        end
      else if uri_component_byte_allowed c query then validate_uri_component rest query
      else Err InvalidRequestTarget
  end.

Definition validate_path (value : list Z) : result unit Http1ParseError :=
  if bool_decide (value = []) then Err InvalidRequestTarget
  else validate_uri_component value false.

Definition validate_query (value : list Z) : result unit Http1ParseError :=
  validate_uri_component value true.

Definition split_query (value : list Z) : result (list Z * option (list Z)) Http1ParseError :=
  match find_byte 63 value with
  | None => let? _ := validate_path value in Ok (value, None)
  | Some index =>
      let path := ztake index value in
      let query := zdrop (index + 1) value in
      let? _ := validate_path path in
      let? _ := validate_query query in
      Ok (path, Some query)
  end.

Definition validate_authority_port (port : list Z) : result unit Http1ParseError :=
  if bool_decide (port = []) || negb (forallb is_ascii_digit port) then Err InvalidAuthority
  else match parse_uint U16_MAX port with Some _ => Ok tt | None => Err InvalidAuthority end.

Definition authority_byte_forbidden (c : Z) : bool :=
  between 0 32 c || between 127 255 c || existsb (Z.eqb c) (bs "/?#\@,").

Definition bad_label (label : list Z) : bool :=
  bool_decide (label = []) || starts_with [45] label || ends_with [45] label
  || negb (forallb (fun c => is_ascii_alphanumeric c || (c =? 45)) label).

Definition validate_http1_authority (value : list Z) : result unit Http1ParseError :=
  if bool_decide (value = []) || existsb authority_byte_forbidden value then Err InvalidAuthority
  else
    match strip_prefix [91] value with
    | Some bracketed =>
        let? close := ok_or (find_byte 93 bracketed) InvalidAuthority in
        let address := ztake close bracketed in
        let? _ := ok_or (parse_ipv6 address) InvalidAuthority in
        let suffix := zdrop (close + 1) bracketed in
        if bool_decide (suffix = []) then Ok tt
        else
          let? port := ok_or (strip_prefix [58] suffix) InvalidAuthority in
          validate_authority_port port
    | None =>
        if contains_byte 91 value || contains_byte 93 value
           || (1 <? zlen (List.filter (fun c => c =? 58) value)) then Err InvalidAuthority
        else
          let '(host, port) :=
            match split_once 58 value with
            | Some (host, port) => (host, Some port)
            | None => (value, None)
            end in
          if bool_decide (host = []) || starts_with [46] host || ends_with [46] host
             || existsb bad_label (split_byte 46 host)
          then Err InvalidAuthority
          else match port with
               | Some port => let? _ := validate_authority_port port in Ok tt
               | None => Ok tt
               end
    end.

Definition authority_form_port (authority : list Z) : result Z Http1ParseError :=
  let? colon :=
    (if bool_decide (head authority = Some 91) then
       let? close := ok_or (find_byte 93 authority) InvalidRequestTarget in
       if bool_decide (zget authority (close + 1) = Some 58) then Ok (close + 1)
       else Err InvalidRequestTarget
     else
       let? first := ok_or (find_byte 58 authority) InvalidRequestTarget in
       if contains_byte 58 (zdrop (first + 1) authority) then Err InvalidRequestTarget
       else Ok first) in
  if (colon =? 0) || (colon + 1 =? zlen authority) then Err InvalidRequestTarget
  else ok_or (parse_uint U16_MAX (zdrop (colon + 1) authority)) InvalidRequestTarget.

Definition find_path_or_query_start (value : list Z) : option Z :=
  position (fun c => (c =? 47) || (c =? 63)) value.

Definition target_has_forbidden_byte (value : list Z) : bool :=
  negb (is_ascii value) || existsb (fun c => between 0 32 c || (c =? 127)) value.

Definition target_contains_scheme_slashes (target : list Z) : bool :=
  match find_byte 58 target with
  | Some colon => bool_decide (zget target (colon + 1) = Some 47)
  | None => false
  end.

Definition parse_absolute_uri (target : list Z) (colon : Z)
    : result Http1RequestTarget Http1ParseError :=
  let scheme := ztake colon target in
  if negb (eq_ignore_ascii_case scheme (bs "http"))
     && negb (eq_ignore_ascii_case scheme (bs "https"))
  then Err InvalidRequestTarget
  else
    let after_scheme := zdrop (colon + 1) target in
    let? after_slashes := ok_or (strip_prefix (bs "//") after_scheme) InvalidRequestTarget in
    let authority_end := default (zlen after_slashes) (find_path_or_query_start after_slashes) in
    let authority := ztake authority_end after_slashes in
    let? _ := validate_http1_authority authority in
    let path_and_query := zdrop authority_end after_slashes in
    let? (path, query) :=
      (if bool_decide (path_and_query = []) then Ok (None, None)
       else match strip_prefix [63] path_and_query with
            | Some query => let? _ := validate_query query in Ok (None, Some query)
            | None => let? (path, query) := split_query path_and_query in Ok (Some path, query)
            end) in
    Ok (AbsoluteUri target scheme (Some authority) path query).

Definition http1_request_target (method target : list Z)
    : result Http1RequestTarget Http1ParseError :=
  if bool_decide (target = []) || target_has_forbidden_byte target then Err InvalidRequestTarget
  else if bool_decide (target = [42]) then
    if eq_ignore_ascii_case method (bs "OPTIONS") then Ok Asterisk else Err InvalidRequestTarget
  else if eq_ignore_ascii_case method (bs "CONNECT") then
    if starts_with [47] target || target_contains_scheme_slashes target
    then Err InvalidRequestTarget
    else
      let? port := authority_form_port target in
      let? _ := validate_http1_authority target in
      Ok (Authority target port)
  else if starts_with (bs "//") target then Err InvalidRequestTarget
  else if starts_with [47] target then
    let? (path, query) := split_query target in
    Ok (Origin target path query)
  else match find_byte 58 target with
       | Some colon => parse_absolute_uri target colon
       | None => Err InvalidRequestTarget
       end.

(** ** Sample behaviour *)

Example target_origin :
  http1_request_target (bs "GET") (bs "/a/b?q=1") = Ok (Origin (bs "/a/b?q=1") (bs "/a/b") (Some (bs "q=1"))).
Proof. reflexivity. Qed.
Example target_connect :
  http1_request_target (bs "CONNECT") (bs "[::1]:443") = Ok (Authority (bs "[::1]:443") 443).
Proof. reflexivity. Qed.
Example target_absolute :
  http1_request_target (bs "GET") (bs "http://a.example:80/x") =
  Ok (AbsoluteUri (bs "http://a.example:80/x") (bs "http") (Some (bs "a.example:80")) (Some (bs "/x")) None).
Proof. reflexivity. Qed.
Example target_network_path : http1_request_target (bs "GET") (bs "//evil/x") = Err InvalidRequestTarget.
Proof. reflexivity. Qed.
