(* ===== verification/Http1Head.v ===== *)
(** * HTTP/1 message heads ([http1.rs], [http1_connection.rs], [http1_response.rs])

    Request and response head parsing, body framing, connection options and the
    incremental head buffer. *)
From Stdlib Require Import ZArith Lia.
From stdpp Require Import base list numbers strings sets gmap.
From S2P Require Import Prelude Text NetAddr Http1Target.

(** ** Limits *)

Definition DEFAULT_HTTP1_MAX_HEAD_BYTES : Z := 64 * 1024.
Definition DEFAULT_HTTP1_MAX_HEADER_COUNT : Z := 100.
Definition DEFAULT_HTTP1_MAX_HEADER_LINE_BYTES : Z := 8 * 1024.
Definition DEFAULT_HTTP1_MAX_START_LINE_BYTES : Z := 8 * 1024.

Record Http1HeadLimits : Type := mkHttp1HeadLimits {
  max_head_bytes : Z;
  max_header_count : Z;
  max_header_line_bytes : Z;
  max_start_line_bytes : Z;
}.

Definition default_head_limits : Http1HeadLimits :=
  mkHttp1HeadLimits DEFAULT_HTTP1_MAX_HEAD_BYTES DEFAULT_HTTP1_MAX_HEADER_COUNT
    DEFAULT_HTTP1_MAX_HEADER_LINE_BYTES DEFAULT_HTTP1_MAX_START_LINE_BYTES.

(** ** Messages *)

Inductive Http1Version : Type := Http10 | Http11.
#[export] Instance Http1Version_eq_dec : EqDecision Http1Version.
Proof. solve_decision. Defined.

Record Http1Header : Type := mkHttp1Header { h_name : list Z; h_value : list Z }.
#[export] Instance Http1Header_eq_dec : EqDecision Http1Header.
Proof. solve_decision. Defined.

Definition value_byte_forbidden (c : Z) : bool :=
  between 0 8 c || between 10 31 c || between 127 255 c.

(** [Http1Header::new] *)
Definition http1_header_new (name value : list Z) : result Http1Header Http1ParseError :=
  if negb (http_token_valid name) then Err InvalidHeaderName
  else if existsb value_byte_forbidden value then Err InvalidHeaderValue
  else Ok (mkHttp1Header name (trim value)).

Definition parse_header_line (line : list Z) : result Http1Header Http1ParseError :=
  match split_once 58 line with
  | None => Err InvalidHeaderName
  | Some (name, value) => http1_header_new name value
  end.

Inductive Http1BodyFraming : Type :=
| NoBody
| ContentLength (length : Z)
| Chunked.
#[export] Instance Http1BodyFraming_eq_dec : EqDecision Http1BodyFraming.
Proof. solve_decision. Defined.

Record RawHttp1RequestHead : Type := mkRawHttp1RequestHead {
  rh_method : list Z;
  rh_target : list Z;
  rh_version : Http1Version;
  rh_headers : list Http1Header;
  rh_head_len : Z;
}.

(** ** Finding the end of the head *)

(** The search loop of [complete_head_len] from [index] up to [search_len - 3]. *)
Fixpoint find_head_end (input : list Z) (budget : nat) {struct budget} : option Z :=
  match budget with
  | O => None
  | S budget' =>
      match strip_prefix (crlf ++ crlf) input with
      | Some _ => Some 0
      | None =>
          match input with
          | [] => None
          | _ :: rest => (fun i => i + 1) <$> find_head_end rest budget'
          end
      end
  end.

Definition complete_head_len (input : list Z) (max_head_bytes : Z)
    : result (option Z) Http1ParseError :=
  let search_len := Z.min (zlen input) (saturating_add USIZE_MAX max_head_bytes 4) in
  match find_head_end input (Z.to_nat (saturating_sub search_len 3)) with
  | Some index =>
      let head_len := index + 4 in
      if max_head_bytes <? head_len then Err HeadTooLarge else Ok (Some head_len)
  | None => if max_head_bytes <? zlen input then Err HeadTooLarge else Ok None
  end.

(** ** Start lines and header lines *)

Definition parse_version (version : list Z) : option Http1Version :=
  if bool_decide (version = bs "HTTP/1.0") then Some Http10
  else if bool_decide (version = bs "HTTP/1.1") then Some Http11
  else None.

Definition parse_request_line (line : list Z)
    : result (list Z * list Z * Http1Version) Http1ParseError :=
  match split_byte 32 line with
  | [method; target; version] =>
      if bool_decide (method = []) || bool_decide (target = []) then Err InvalidRequestLine
      else if negb (http_token_valid method) then Err InvalidRequestLine
      else
        let? version := ok_or (parse_version version) UnsupportedVersion in
        let? _ := http1_request_target method target in
        Ok (method, target, version)
  | _ => Err InvalidRequestLine
  end.

(** The loop over the header lines; [headers] are those already pushed. *)
Fixpoint parse_header_lines (limits : Http1HeadLimits) (headers : list Http1Header)
    (lines : list (list Z)) : result (list Http1Header) Http1ParseError :=
  match lines with
  | [] => Ok headers
  | line :: rest =>
      if bool_decide (line = []) then Ok headers
      else if max_header_line_bytes limits <? zlen line then Err HeaderLineTooLong
      else if starts_with [SP] line || starts_with [HT] line then Err ObsoleteLineFolding
      else if max_header_count limits <=? zlen headers then Err HeaderCountExceeded
      else
        let? header := parse_header_line line in
        parse_header_lines limits (headers ++ [header]) rest
  end.

Definition parse_http1_request_head_raw (input : list Z) (limits : Http1HeadLimits)
    : result (option RawHttp1RequestHead) Http1ParseError :=
  let? found := complete_head_len input (max_head_bytes limits) in
  match found with
  | None => Ok None
  | Some head_len =>
      let head := ztake head_len input in
      if negb (utf8_valid head) then Err InvalidUtf8
      else match split_crlf head with
      | [] => Err InvalidRequestLine
      | start_line :: lines =>
          if max_start_line_bytes limits <? zlen start_line then Err StartLineTooLong
          else
            let? (method, target, version) := parse_request_line start_line in
            let? headers := parse_header_lines limits [] lines in
            Ok (Some (mkRawHttp1RequestHead method target version headers head_len))
      end
  end.

(** ** Body framing *)

Definition parse_content_length (value : list Z) : result Z Http1ParseError :=
  let trimmed := trim value in
  if bool_decide (trimmed = []) || negb (forallb is_ascii_digit trimmed)
  then Err InvalidContentLength
  else ok_or (parse_uint U64_MAX trimmed) InvalidContentLength.

(** The loop over the codings: the number of codings and whether the last one
    is [chunked]. *)
Fixpoint parse_codings (codings : Z) (chunked : bool) (pieces : list (list Z))
    : result (Z * bool) Http1ParseError :=
  match pieces with
  | [] => Ok (codings, chunked)
  | coding :: rest =>
      let coding := trim coding in
      if bool_decide (coding = []) || negb (http_token_valid coding)
      then Err UnsupportedTransferEncoding
      else parse_codings (saturating_add USIZE_MAX codings 1)
             (eq_ignore_ascii_case coding (bs "chunked")) rest
  end.

Definition parse_transfer_encoding (value : list Z) : result Http1BodyFraming Http1ParseError :=
  let? (codings, chunked) := parse_codings 0 false (split_byte 44 value) in
  if (codings =? 1) && chunked then Ok Chunked else Err UnsupportedTransferEncoding.

Fixpoint framing_scan (version : Http1Version) (headers : list Http1Header)
    (content_length : option Z) (transfer_encoding : option Http1BodyFraming)
    : result (option Z * option Http1BodyFraming) Http1ParseError :=
  match headers with
  | [] => Ok (content_length, transfer_encoding)
  | header :: rest =>
      if eq_ignore_ascii_case (h_name header) (bs "content-length") then
        let? parsed := parse_content_length (h_value header) in
        match content_length with
        | Some _ => Err DuplicateContentLength
        | None => framing_scan version rest (Some parsed) transfer_encoding
        end
      else if eq_ignore_ascii_case (h_name header) (bs "transfer-encoding") then
        if bool_decide (version = Http10) then Err UnsupportedTransferEncoding
        else match transfer_encoding with
             | Some _ => Err UnsupportedTransferEncoding
             | None =>
                 let? framing := parse_transfer_encoding (h_value header) in
                 framing_scan version rest content_length (Some framing)
             end
      else framing_scan version rest content_length transfer_encoding
  end.

Definition http1_request_body_framing (version : Http1Version) (headers : list Http1Header)
    : result Http1BodyFraming Http1ParseError :=
  let? (content_length, transfer_encoding) := framing_scan version headers None None in
  match transfer_encoding, content_length with
  | Some _, Some _ => Err ConflictingBodyFraming
  | Some framing, None => Ok framing
  | None, Some length => if length =? 0 then Ok NoBody else Ok (ContentLength length)
  | None, None => Ok NoBody
  end.

(** ** Host *)

Fixpoint host_scan (headers : list Http1Header) (host : option (list Z))
    : result (option (list Z)) Http1ParseError :=
  match headers with
  | [] => Ok host
  | header :: rest =>
      if eq_ignore_ascii_case (h_name header) (bs "host") then
        match host with
        | Some _ => Err DuplicateHost
        | None =>
            let value := trim (h_value header) in
            let? _ := map_err (validate_http1_authority value) InvalidHost in
            host_scan rest (Some value)
        end
      else host_scan rest host
  end.

Definition http1_optional_host (headers : list Http1Header)
    : result (option (list Z)) Http1ParseError := host_scan headers None.

Definition http1_required_host (headers : list Http1Header) : result (list Z) Http1ParseError :=
  let? host := http1_optional_host headers in ok_or host MissingHost.

(** ** Connection options *)

Inductive Http1ConnectionDirective : Type := Close | Persistent.
#[export] Instance Http1ConnectionDirective_eq_dec : EqDecision Http1ConnectionDirective.
Proof. solve_decision. Defined.

Fixpoint connection_tokens (options : gset (list Z)) (tokens : list (list Z))
    : result (gset (list Z)) Http1ParseError :=
  match tokens with
  | [] => Ok options
  | token :: rest =>
      let token := trim token in
      if negb (http_token_valid token) then Err InvalidConnection
      else connection_tokens ({[to_ascii_lowercase token]} ∪ options) rest
  end.

Fixpoint connection_scan (options : gset (list Z)) (headers : list Http1Header)
    : result (gset (list Z)) Http1ParseError :=
  match headers with
  | [] => Ok options
  | header :: rest =>
      if negb (eq_ignore_ascii_case (h_name header) (bs "connection"))
      then connection_scan options rest
      else
        let? options' := connection_tokens options (split_byte 44 (h_value header)) in
        connection_scan options' rest
  end.

Definition http1_connection_options (headers : list Http1Header)
    : result (gset (list Z)) Http1ParseError := connection_scan ∅ headers.

(** [Http1ConnectionOptions::contains] *)
Definition options_contains (options : gset (list Z)) (name : list Z) : bool :=
  bool_decide (to_ascii_lowercase name ∈ options).

Definition HOP_BY_HOP_HEADERS : list (list Z) :=
  [bs "connection"; bs "keep-alive"; bs "proxy-authenticate"; bs "proxy-authorization";
   bs "proxy-connection"; bs "te"; bs "trailer"; bs "transfer-encoding"; bs "upgrade"].

(** [Http1ConnectionOptions::identifies_hop_by_hop_header] *)
Definition identifies_hop_by_hop_header (options : gset (list Z)) (name : list Z) : bool :=
  options_contains options name
  || existsb (fun candidate => eq_ignore_ascii_case name candidate) HOP_BY_HOP_HEADERS.

Definition http1_connection_directive (version : Http1Version) (headers : list Http1Header)
    : result Http1ConnectionDirective Http1ParseError :=
  let? options := http1_connection_options headers in
  if options_contains options (bs "close") then Ok Close
  else if bool_decide (version = Http11) || options_contains options (bs "keep-alive")
  then Ok Persistent
  else Ok Close.

(** ** Message validation *)

Record Http1RequestValidation : Type := mkHttp1RequestValidation {
  v_request_target : Http1RequestTarget;
  v_body_framing : Http1BodyFraming;
  v_connection_directive : Http1ConnectionDirective;
  v_effective_authority : option (list Z);
}.

Record ValidatedHttp1RequestHead : Type := mkValidated {
  vh_head : RawHttp1RequestHead;
  vh_validation : Http1RequestValidation;
}.

Definition rh_request_target (h : RawHttp1RequestHead) :=
  http1_request_target (rh_method h) (rh_target h).

(** [RawHttp1RequestHead::effective_authority] *)
Definition effective_authority (h : RawHttp1RequestHead) : result (list Z) Http1ParseError :=
  let? target := rh_request_target h in
  let? host := http1_optional_host (rh_headers h) in
  match target with
  | AbsoluteUri _ _ (Some authority) _ _ | Authority authority _ =>
      let? _ := validate_http1_authority authority in
      if match host with
         | Some host => negb (eq_ignore_ascii_case authority host)
         | None => false
         end
      then Err ConflictingAuthority
      else Ok authority
  | Origin _ _ _ | Asterisk => ok_or host MissingHost
  | AbsoluteUri _ _ None _ _ => Err InvalidAuthority
  end.

(** [RawHttp1RequestHead::validate_message] *)
Definition validate_message (h : RawHttp1RequestHead)
    : result Http1RequestValidation Http1ParseError :=
  let? _ := (if bool_decide (rh_version h = Http11)
             then let? _ := http1_required_host (rh_headers h) in Ok tt
             else Ok tt) in
  let? request_target := rh_request_target h in
  let? authority :=
    (match effective_authority h with
     | Ok authority => Ok (Some authority)
     | Err MissingHost => if bool_decide (rh_version h = Http10) then Ok None else Err MissingHost
     | Err error => Err error
     end) in
  let? framing := http1_request_body_framing (rh_version h) (rh_headers h) in
  let? directive := http1_connection_directive (rh_version h) (rh_headers h) in
  Ok (mkHttp1RequestValidation request_target framing directive authority).

Definition parse_http1_request_head (input : list Z) (limits : Http1HeadLimits)
    : result (option ValidatedHttp1RequestHead) Http1ParseError :=
  let? found := parse_http1_request_head_raw input limits in
  match found with
  | None => Ok None
  | Some head =>
      let? validation := validate_message head in
      Ok (Some (mkValidated head validation))
  end.

(** ** The incremental head buffer *)

Record Http1HeadBuffer : Type := mkHttp1HeadBuffer {
  hb_bytes : list Z;
  hb_limits : Http1HeadLimits;
}.

Definition head_buffer_new (limits : Http1HeadLimits) : Http1HeadBuffer :=
  mkHttp1HeadBuffer [] limits.

(** [Http1HeadBuffer::append]: the buffer after the call, and the result. *)
Definition head_buffer_append (buf : Http1HeadBuffer) (chunk : list Z)
    : Http1HeadBuffer * result (option ValidatedHttp1RequestHead) Http1ParseError :=
  if max_head_bytes (hb_limits buf) <? zlen (hb_bytes buf) then (buf, Err HeadTooLarge)
  else
    let search_cap := max_head_bytes (hb_limits buf) in
    let remaining := saturating_sub search_cap (zlen (hb_bytes buf)) in
    let bytes := hb_bytes buf ++ ztake (Z.min (zlen chunk) remaining) chunk in
    let buf' := mkHttp1HeadBuffer bytes (hb_limits buf) in
    (buf',
     match parse_http1_request_head bytes (hb_limits buf) with
     | Ok (Some head) => Ok (Some head)
     | Ok None =>
         if (remaining <? zlen chunk) || (max_head_bytes (hb_limits buf) <? zlen bytes)
         then Err HeadTooLarge else Ok None
     | Err error => Err error
     end).

Definition head_buffer_clear (buf : Http1HeadBuffer) : Http1HeadBuffer :=
  mkHttp1HeadBuffer [] (hb_limits buf).

(** ** Response heads *)

Record Http1ResponseHead : Type := mkHttp1ResponseHead {
  sh_version : Http1Version;
  sh_status : Z;
  sh_reason : list Z;
  sh_headers : list Http1Header;
  sh_head_len : Z;
}.

Definition parse_status_line (line : list Z)
    : result (Http1Version * Z * list Z) Http1ParseError :=
  match splitn3 32 line with
  | version :: status :: rest =>
      let reason := default [] (head rest) in
      let? version := ok_or (parse_version version) UnsupportedVersion in
      if negb (zlen status =? 3) || negb (forallb is_ascii_digit status) then Err InvalidStatusCode
      else
        let? status := ok_or (parse_uint U16_MAX status) InvalidStatusCode in
        if negb (between 100 599 status) then Err InvalidStatusCode
        else if existsb value_byte_forbidden reason then Err InvalidResponseLine
        else Ok (version, status, reason)
  | _ => Err InvalidResponseLine
  end.

Definition parse_http1_response_head (input : list Z) (limits : Http1HeadLimits)
    : result (option Http1ResponseHead) Http1ParseError :=
  let? found := complete_head_len input (max_head_bytes limits) in
  match found with
  | None => Ok None
  | Some head_len =>
      let head := ztake head_len input in
      if negb (utf8_valid head) then Err InvalidUtf8
      else match split_crlf head with
      | [] => Err InvalidResponseLine
      | status_line :: lines =>
          if max_start_line_bytes limits <? zlen status_line then Err StartLineTooLong
          else
            let? (version, status, reason) := parse_status_line status_line in
            let? headers := parse_header_lines limits [] lines in
            Ok (Some (mkHttp1ResponseHead version status reason headers head_len))
      end
  end.
