(* ===== verification/Http1Chunked.v ===== *)
(** * The chunked transfer decoder ([http1_chunked.rs])

    The incremental decoder with its input buffer, offsets and compaction, the
    output sinks, and the chunk-size line grammar.  Memory reservation
    ([try_reserve]) always succeeds in the model. *)
From Stdlib Require Import ZArith Lia.
From stdpp Require Import base list numbers strings sets.
From S2P Require Import Prelude Text Http1Target.

(** ** Limits *)

Definition DEFAULT_HTTP1_MAX_BODY_BYTES : Z := 64 * 1024 * 1024.
Definition DEFAULT_HTTP1_MAX_CHUNK_SIZE : Z := 1024 * 1024.
Definition DEFAULT_HTTP1_MAX_ENCODED_BYTES : Z := 72 * 1024 * 1024.
Definition DEFAULT_HTTP1_MAX_CHUNK_LINE_BYTES : Z := 8 * 1024.
Definition DEFAULT_HTTP1_MAX_CHUNK_COUNT : Z := 1024 * 1024.
Definition DEFAULT_HTTP1_MAX_CHUNK_EXTENSION_BYTES : Z := 64 * 1024.
Definition HTTP1_CHUNK_INPUT_FRAGMENT_BYTES : Z := 8 * 1024.
Definition HTTP1_CHUNK_COMPACT_THRESHOLD_BYTES : Z := 4 * 1024.

Record Http1ChunkLimits : Type := mkHttp1ChunkLimits {
  max_chunk_size : Z;
  max_body_bytes : Z;
  max_encoded_bytes : Z;
  max_chunk_line_bytes : Z;
  max_chunk_count : Z;
  max_chunk_extension_bytes : Z;
}.

Definition default_chunk_limits : Http1ChunkLimits :=
  mkHttp1ChunkLimits DEFAULT_HTTP1_MAX_CHUNK_SIZE DEFAULT_HTTP1_MAX_BODY_BYTES
    DEFAULT_HTTP1_MAX_ENCODED_BYTES DEFAULT_HTTP1_MAX_CHUNK_LINE_BYTES
    DEFAULT_HTTP1_MAX_CHUNK_COUNT DEFAULT_HTTP1_MAX_CHUNK_EXTENSION_BYTES.

Definition with_max_body_bytes (l : Http1ChunkLimits) (max_body : Z) : Http1ChunkLimits :=
  let metadata_allowance := DEFAULT_HTTP1_MAX_ENCODED_BYTES - DEFAULT_HTTP1_MAX_BODY_BYTES in
  mkHttp1ChunkLimits (max_chunk_size l) max_body
    (saturating_add USIZE_MAX max_body metadata_allowance)
    (max_chunk_line_bytes l) (max_chunk_count l) (max_chunk_extension_bytes l).

(** ** Sinks: the [Http1ChunkSink] trait and its two implementations *)

Class Http1ChunkSink (S : Type) : Type := {
  sink_len : S -> Z;
  sink_append : S -> list Z -> result S Http1ParseError;
}.

(** What the decoder relies on: a successful append grows the sink by exactly
    the bytes given. *)
Class Http1ChunkSinkLaws (S : Type) `{Http1ChunkSink S} : Prop := {
  sink_append_len : forall s bytes s',
    sink_append s bytes = Ok s' -> sink_len s' = sink_len s + zlen bytes;
}.

#[export] Instance vec_sink : Http1ChunkSink (list Z) := {
  sink_len := zlen;
  sink_append s bytes := Ok (s ++ bytes);
}.

(** [Http1SliceChunkSink]: a fixed output buffer and the number of bytes
    written to it. *)
Record Http1SliceChunkSink : Type := mkSliceSink { ss_output : list Z; ss_len : Z }.

#[export] Instance slice_sink : Http1ChunkSink Http1SliceChunkSink := {
  sink_len := ss_len;
  sink_append s bytes :=
    let? end_ := ok_or (checked_add USIZE_MAX (ss_len s) (zlen bytes)) OutputTooSmall in
    let? _ := ok_or (zslice (ss_output s) (ss_len s) end_) OutputTooSmall in
    Ok (mkSliceSink (ztake (ss_len s) (ss_output s) ++ bytes ++ zdrop end_ (ss_output s)) end_);
}.

(** ** The chunk-size line *)

Definition hex_value (byte : Z) : option Z :=
  if between 48 57 byte then Some (byte - 48)
  else if between 97 102 byte then Some (byte - 97 + 10)
  else if between 65 70 byte then Some (byte - 65 + 10)
  else None.

Fixpoint parse_hex_size (max_chunk_size size : Z) (digits : list Z) : result Z Http1ParseError :=
  match digits with
  | [] => Ok size
  | byte :: rest =>
      match hex_value byte with
      | None => Err InvalidChunkSize
      | Some value =>
          let? size' := ok_or (m ← checked_mul USIZE_MAX size 16; checked_add USIZE_MAX m value)
                          ChunkTooLarge in
          if max_chunk_size <? size' then Err ChunkTooLarge
          else parse_hex_size max_chunk_size size' rest
      end
  end.

Definition quoted_byte_forbidden (c : Z) : bool := between 0 31 c || between 127 255 c.

(** The [for] loop over a quoted extension value, up to the closing quote: the
    bytes after it. *)
Fixpoint scan_quoted (escaped : bool) (s : list Z) : result (list Z) Http1ParseError :=
  match s with
  | [] => Err InvalidChunk
  | c :: rest =>
      if escaped then
        if quoted_byte_forbidden c then Err InvalidChunk else scan_quoted false rest
      else if c =? 92 then scan_quoted true rest
      else if c =? 34 then Ok rest
      else if quoted_byte_forbidden c then Err InvalidChunk
      else scan_quoted false rest
  end.

(** An extension value, after its [=]: a quoted string or a token. *)
Definition validate_extension_token (extensions : list Z) : result (list Z) Http1ParseError :=
  let value_len := default (zlen extensions) (position (fun c => c =? 59) extensions) in
  let value := ztake value_len extensions in
  if negb (utf8_valid value) then Err InvalidChunk
  else if negb (http_token_valid value) then Err InvalidChunk
  else Ok (zdrop value_len extensions).

Definition validate_extension_value (extensions : list Z) : result (list Z) Http1ParseError :=
  match extensions with
  | c :: quoted =>
      if c =? 34 then
        let? rest := scan_quoted false quoted in
        match rest with
        | [] => Ok []
        | c :: _ => if c =? 59 then Ok rest else Err InvalidChunk
        end
      else validate_extension_token extensions
  | [] => validate_extension_token extensions
  end.

(** One iteration of the [while] loop of [validate_chunk_extensions]: the
    extension bytes left.  The loop starts at a semicolon. *)
Definition validate_one_extension (extensions : list Z) : result (list Z) Http1ParseError :=
  match extensions with
  | [] => Err InvalidChunk
  | c :: extensions =>
      if negb (c =? 59) then Err InvalidChunk
      else
        let name_len := default (zlen extensions)
                          (position (fun c => (c =? 59) || (c =? 61)) extensions) in
        if (name_len =? 0)
           || negb (forallb (fun c => http_token_valid [c]) (ztake name_len extensions))
        then Err InvalidChunk
        else
          match zdrop name_len extensions with
          | [] => Ok []
          | c :: value => if c =? 61 then validate_extension_value value else Ok (c :: value)
          end
  end.

(** The [while] loop; [None] when [fuel] runs out, which a fuel of the number of
    bytes never does ([validate_extensions_loop_total]). *)
Fixpoint validate_extensions_loop (fuel : nat) (extensions : list Z)
    : option (result unit Http1ParseError) :=
  match extensions with
  | [] => Some (Ok tt)
  | _ :: _ =>
      match fuel with
      | O => None
      | S fuel' =>
          match validate_one_extension extensions with
          | Ok rest => validate_extensions_loop fuel' rest
          | Err e => Some (Err e)
          end
      end
  end.

Definition validate_chunk_extensions (extensions : list Z) : result unit Http1ParseError :=
  default (Err InvalidChunk) (validate_extensions_loop (length extensions) extensions).

(** The chunk size and the number of extension bytes. *)
Definition parse_chunk_size_line (line : list Z) (max_chunk_size : Z)
    : result (Z * Z) Http1ParseError :=
  let size_end := default (zlen line) (position (fun c => c =? 59) line) in
  if size_end =? 0 then Err InvalidChunkSize
  else
    let? size := parse_hex_size max_chunk_size 0 (ztake size_end line) in
    let extension_bytes := saturating_sub (zlen line) size_end in
    let? _ := validate_chunk_extensions (zdrop size_end line) in
    Ok (size, extension_bytes).

(** ** The decoder *)

Record Http1ChunkedDecode : Type := mkDecode { d_decoded_len : Z; d_consumed_len : Z }.
#[export] Instance Http1ChunkedDecode_eq_dec : EqDecision Http1ChunkedDecode.
Proof. solve_decision. Defined.

Inductive Http1ChunkedDecodeState : Type := Size | Data (size : Z) | End.

Record Http1ChunkedDecoder : Type := mkDecoder {
  limits : Http1ChunkLimits;
  input : list Z;
  input_offset : Z;
  line_scan_offset : Z;
  compacted_len : Z;
  received_len : Z;
  decoded_len : Z;
  chunk_count : Z;
  extension_bytes : Z;
  state : Http1ChunkedDecodeState;
  complete : option Http1ChunkedDecode;
}.

(** [Http1ChunkedDecoder::new] *)
Definition decoder_new (limits : Http1ChunkLimits) : Http1ChunkedDecoder :=
  mkDecoder limits [] 0 0 0 0 0 0 0 Size None.

Definition buffered_len (d : Http1ChunkedDecoder) : Z := zlen (input d).

(** How a call ends.  [Panicked] is an out-of-range slice index, [OutOfFuel] a
    loop the fuel did not cover; neither happens ([feed_refines_spec]). *)
Inductive outcome (S : Type) : Type :=
| Returned (d : Http1ChunkedDecoder) (s : S)
    (r : result (option Http1ChunkedDecode) Http1ParseError)
| Panicked
| OutOfFuel.
Arguments Returned {S} _ _ _.
Arguments Panicked {S}.
Arguments OutOfFuel {S}.

(** How one iteration of the loop of [process] ends. *)
Inductive iteration (S : Type) : Type :=
| Continue (d : Http1ChunkedDecoder) (s : S)
| Stop (o : outcome S).
Arguments Continue {S} _ _.
Arguments Stop {S} _.

(** [find_crlf]: the loop from [index] over the bytes [s] that start there. *)
Fixpoint find_crlf_from (s : list Z) (index : Z) : option Z :=
  match s with
  | x :: ((y :: _) as rest) =>
      if (x =? CR) && (y =? LF) then Some index else find_crlf_from rest (index + 1)
  | _ => None
  end.
Definition find_crlf (input : list Z) (offset : Z) : option Z :=
  find_crlf_from (zdrop offset input) offset.

Definition compact_consumed (d : Http1ChunkedDecoder) : result Http1ChunkedDecoder Http1ParseError :=
  if input_offset d =? 0 then Ok d
  else if negb (input_offset d =? zlen (input d))
          && ((input_offset d <? HTTP1_CHUNK_COMPACT_THRESHOLD_BYTES)
              || (input_offset d <? zlen (input d) / 2))
  then Ok d
  else
    let consumed := input_offset d in
    let? compacted := ok_or (checked_add USIZE_MAX (compacted_len d) consumed)
                        EncodedBodyTooLarge in
    Ok (mkDecoder (limits d) (zdrop consumed (input d)) 0
          (saturating_sub (line_scan_offset d) consumed) compacted (received_len d)
          (decoded_len d) (chunk_count d) (extension_bytes d) (state d) (complete d)).

Definition set_line_scan_offset (d : Http1ChunkedDecoder) (o : Z) : Http1ChunkedDecoder :=
  mkDecoder (limits d) (input d) (input_offset d) o (compacted_len d) (received_len d)
    (decoded_len d) (chunk_count d) (extension_bytes d) (state d) (complete d).
Definition set_chunk_count (d : Http1ChunkedDecoder) (n : Z) : Http1ChunkedDecoder :=
  mkDecoder (limits d) (input d) (input_offset d) (line_scan_offset d) (compacted_len d)
    (received_len d) (decoded_len d) n (extension_bytes d) (state d) (complete d).
Definition set_extension_bytes (d : Http1ChunkedDecoder) (n : Z) : Http1ChunkedDecoder :=
  mkDecoder (limits d) (input d) (input_offset d) (line_scan_offset d) (compacted_len d)
    (received_len d) (decoded_len d) (chunk_count d) n (state d) (complete d).
(** Move both offsets to [o] and enter state [st] with [decoded] bytes out. *)
Definition advance (d : Http1ChunkedDecoder) (o decoded : Z) (st : Http1ChunkedDecodeState)
    : Http1ChunkedDecoder :=
  mkDecoder (limits d) (input d) o o (compacted_len d) (received_len d)
    decoded (chunk_count d) (extension_bytes d) st (complete d).
Definition set_complete (d : Http1ChunkedDecoder) (c : Http1ChunkedDecode) : Http1ChunkedDecoder :=
  mkDecoder (limits d) (input d) (input_offset d) (line_scan_offset d) (compacted_len d)
    (received_len d) (decoded_len d) (chunk_count d) (extension_bytes d) (state d) (Some c).
(** [self.input.extend_from_slice(fragment)] and the received count *)
Definition receive (d : Http1ChunkedDecoder) (fragment : list Z) (received : Z)
    : Http1ChunkedDecoder :=
  mkDecoder (limits d) (input d ++ fragment) (input_offset d) (line_scan_offset d)
    (compacted_len d) received (decoded_len d) (chunk_count d) (extension_bytes d)
    (state d) (complete d).

Section Decoder.
  Context {S : Type} `{Http1ChunkSink S}.

Definition process_size (d : Http1ChunkedDecoder) (out : S) : iteration S :=
  match find_crlf (input d) (line_scan_offset d) with
  | None =>
      match zslice (input d) (input_offset d) (zlen (input d)) with
      | None => Stop (Returned d out (Err InvalidChunk))
      | Some pending =>
          let pending_line_len :=
            saturating_sub (zlen pending) (if bool_decide (last pending = Some CR) then 1 else 0) in
          if max_chunk_line_bytes (limits d) <? pending_line_len
          then Stop (Returned d out (Err ChunkMetadataTooLarge))
          else Stop (Returned
                 (set_line_scan_offset d
                    (Z.max (saturating_sub (zlen (input d)) 1) (input_offset d)))
                 out (Ok None))
      end
  | Some line_end =>
      match zslice (input d) (input_offset d) line_end with
      | None => Stop Panicked
      | Some line =>
          if max_chunk_line_bytes (limits d) <? zlen line
          then Stop (Returned d out (Err ChunkMetadataTooLarge))
          else match checked_add USIZE_MAX (chunk_count d) 1 with
          | None => Stop (Returned d out (Err ChunkMetadataTooLarge))
          | Some count =>
              let d := set_chunk_count d count in
              if max_chunk_count (limits d) <? count
              then Stop (Returned d out (Err ChunkMetadataTooLarge))
              else match parse_chunk_size_line line (max_chunk_size (limits d)) with
              | Err e => Stop (Returned d out (Err e))
              | Ok (size, ext) =>
                  match checked_add USIZE_MAX (extension_bytes d) ext with
                  | None => Stop (Returned d out (Err ChunkMetadataTooLarge))
                  | Some ext =>
                      let d := set_extension_bytes d ext in
                      if max_chunk_extension_bytes (limits d) <? ext
                      then Stop (Returned d out (Err ChunkMetadataTooLarge))
                      else match checked_add USIZE_MAX line_end 2 with
                      | None => Stop (Returned d out (Err InvalidChunk))
                      | Some offset =>
                          Continue (advance d offset (decoded_len d)
                                      (if size =? 0 then End else Data size)) out
                      end
                  end
              end
          end
      end
  end.

Definition process_data (d : Http1ChunkedDecoder) (out : S) (size : Z) : iteration S :=
  match checked_add USIZE_MAX (input_offset d) size with
  | None => Stop (Returned d out (Err ChunkTooLarge))
  | Some data_end =>
      match checked_add USIZE_MAX data_end 2 with
      | None => Stop (Returned d out (Err InvalidChunk))
      | Some chunk_end =>
          if zlen (input d) <? chunk_end then Stop (Returned d out (Ok None))
          else match zslice (input d) data_end chunk_end,
                     zslice (input d) (input_offset d) data_end with
          | Some terminator, Some bytes =>
              if negb (bool_decide (terminator = crlf)) then Stop (Returned d out (Err InvalidChunk))
              else match checked_add USIZE_MAX (decoded_len d) size with
              | None => Stop (Returned d out (Err BodyTooLarge))
              | Some output_end =>
                  if max_body_bytes (limits d) <? output_end
                  then Stop (Returned d out (Err BodyTooLarge))
                  else match sink_append out bytes with
                  | Err e => Stop (Returned d out (Err e))
                  | Ok out =>
                      let d := advance d chunk_end output_end Size in
                      match compact_consumed d with
                      | Ok d => Continue d out
                      | Err e => Stop (Returned d out (Err e))
                      end
                  end
              end
          | _, _ => Stop Panicked
          end
      end
  end.

Definition process_end (d : Http1ChunkedDecoder) (out : S) : outcome S :=
  match zslice (input d) (input_offset d) (saturating_add USIZE_MAX (input_offset d) 2) with
  | None => Returned d out (Ok None)
  | Some end_ =>
      if negb (bool_decide (end_ = crlf)) then Returned d out (Err InvalidChunk)
      else match (v ← checked_add USIZE_MAX (compacted_len d) (input_offset d);
                  checked_add USIZE_MAX v 2) with
      | None => Returned d out (Err InvalidChunk)
      | Some consumed_len =>
          let c := mkDecode (decoded_len d) consumed_len in
          Returned (set_complete d c) out (Ok (Some c))
      end
  end.

Definition process_iteration (d : Http1ChunkedDecoder) (out : S) : iteration S :=
  match state d with
  | Size => process_size d out
  | Data size => process_data d out size
  | End => Stop (process_end d out)
  end.

(** The [loop] of [process]. *)
Fixpoint process_loop (fuel : nat) (d : Http1ChunkedDecoder) (out : S) : outcome S :=
  match fuel with
  | O => OutOfFuel
  | Datatypes.S fuel' =>
      match process_iteration d out with
      | Continue d out => process_loop fuel' d out
      | Stop o => o
      end
  end.
(** Every iteration that continues leaves [Size] for [Data] or [End], or
    consumes at least three bytes: two iterations per buffered byte are enough. *)
Definition process (d : Http1ChunkedDecoder) (out : S) : outcome S :=
  process_loop (2 * length (input d) + 2) d out.

(** The [while] loop of [push_with_sink] over the part of the chunk not yet
    received; every iteration takes at least one byte. *)
Fixpoint push_loop (fuel : nat) (d : Http1ChunkedDecoder) (out : S) (chunk : list Z) : outcome S :=
  match chunk with
  | [] => Returned d out (Ok None)
  | _ :: _ =>
      match fuel with
      | O => OutOfFuel
      | Datatypes.S fuel' =>
          let remaining_limit := saturating_sub (max_encoded_bytes (limits d)) (received_len d) in
          if remaining_limit =? 0 then Returned d out (Err EncodedBodyTooLarge)
          else
            let fragment_len :=
              Z.min (Z.min (zlen chunk) HTTP1_CHUNK_INPUT_FRAGMENT_BYTES) remaining_limit in
            match checked_add USIZE_MAX (received_len d) fragment_len with
            | None => Returned d out (Err EncodedBodyTooLarge)
            | Some received =>
                match process (receive d (ztake fragment_len chunk) received) out with
                | Returned d out (Ok None) => push_loop fuel' d out (zdrop fragment_len chunk)
                | o => o
                end
            end
      end
  end.

Definition push_with_sink (d : Http1ChunkedDecoder) (out : S) (chunk : list Z) : outcome S :=
  match complete d with
  | Some c => Returned d out (Ok (Some c))
  | None =>
      match chunk with
      | [] => process d out
      | _ => push_loop (length chunk) d out chunk
      end
  end.

(** [push] and [push_to]: the sink must hold what this decoder produced. *)
Definition push_to (d : Http1ChunkedDecoder) (out : S) (chunk : list Z) : outcome S :=
  if negb (sink_len out =? decoded_len d) then Returned d out (Err InvalidChunk)
  else push_with_sink d out chunk.

(** A caller's read loop: push fragments until the body is complete, an error
    is returned or the fragments end. *)
Fixpoint feed (d : Http1ChunkedDecoder) (out : S) (fragments : list (list Z)) : outcome S :=
  match fragments with
  | [] => Returned d out (Ok None)
  | fragment :: rest =>
      match push_to d out fragment with
      | Returned d out (Ok None) => feed d out rest
      | o => o
      end
  end.
End Decoder.

(** One-shot decoding into a caller's buffer. *)
Definition decode_http1_chunked_body (input output : list Z) (limits : Http1ChunkLimits)
    : outcome Http1SliceChunkSink :=
  push_with_sink (decoder_new limits) (mkSliceSink output 0) input.

(** ** Sample behaviour *)

Definition outcome_view {S} (o : outcome S) :=
  match o with Returned _ s r => Some (s, r) | _ => None end.

Example decode_two_chunks :
  outcome_view (feed (decoder_new default_chunk_limits) ([] : list Z)
    [bs "4;a=b" ++ crlf ++ bs "Wi"; bs "ki" ++ crlf ++ bs "5" ++ [CR]; [LF] ++ bs "pedia" ++ crlf;
     bs "0" ++ crlf ++ crlf ++ bs "GET "])
  = Some (bs "Wikipedia", Ok (Some (mkDecode 9 28))).
Proof. vm_compute. reflexivity. Qed.
