(* ===== verification/Http1ChunkedSpec.v ===== *)
(** * Specification and refinement of the chunked decoder

    [chunked_spec] reads a chunked body from a plain list of bytes, with no
    buffer, offsets, compaction or fragmentation.  [feed_refines_spec] shows
    that the incremental decoder computes exactly it, whatever the fragments
    the bytes arrive in. *)
From Stdlib Require Import ZArith Lia.
From stdpp Require Import base list numbers strings sets.
From S2P Require Import Prelude Text Http1Target Http1Chunked.

(** ** The reference reader *)

(** Everything up to the first CRLF, and what follows it. *)
Fixpoint next_line (s : list Z) : option (list Z * list Z) :=
  match s with
  | x :: ((y :: rest) as tail) =>
      if (x =? CR) && (y =? LF) then Some ([], rest)
      else match next_line tail with
           | Some (l, r) => Some (x :: l, r)
           | None => None
           end
  | _ => None
  end.

Record reader : Type := mkReader {
  r_state : Http1ChunkedDecodeState;
  r_count : Z;
  r_ext : Z;
  r_decoded : Z;
  r_consumed : Z;
}.
Definition reader_new : reader := mkReader Size 0 0 0 0.

Section Reader.
  Context {S : Type} `{Http1ChunkSink S}.

(** What one step of the reader does with the bytes not yet read. *)
Inductive reading : Type :=
| More (r : reader) (out : S) (rest : list Z)
| Need
| Finished (c : Http1ChunkedDecode)
| Failed (e : Http1ParseError).

Definition read_size (lim : Http1ChunkLimits) (r : reader) (out : S) (rest : list Z) : reading :=
  match next_line rest with
  | None =>
      if max_chunk_line_bytes lim <? zlen rest - (if bool_decide (last rest = Some CR) then 1 else 0)
      then Failed ChunkMetadataTooLarge else Need
  | Some (line, rest') =>
      if max_chunk_line_bytes lim <? zlen line then Failed ChunkMetadataTooLarge
      else if max_chunk_count lim <? r_count r + 1 then Failed ChunkMetadataTooLarge
      else match parse_chunk_size_line line (max_chunk_size lim) with
      | Err e => Failed e
      | Ok (size, ext) =>
          if max_chunk_extension_bytes lim <? r_ext r + ext then Failed ChunkMetadataTooLarge
          else More (mkReader (if size =? 0 then End else Data size) (r_count r + 1)
                       (r_ext r + ext) (r_decoded r) (r_consumed r + zlen line + 2)) out rest'
      end
  end.

Definition read_data (lim : Http1ChunkLimits) (r : reader) (out : S) (rest : list Z) (size : Z)
    : reading :=
  if zlen rest <? size + 2 then Need
  else if negb (bool_decide (ztake 2 (zdrop size rest) = crlf)) then Failed InvalidChunk
  else if max_body_bytes lim <? r_decoded r + size then Failed BodyTooLarge
  else match sink_append out (ztake size rest) with
  | Err e => Failed e
  | Ok out =>
      More (mkReader Size (r_count r) (r_ext r) (r_decoded r + size) (r_consumed r + size + 2))
        out (zdrop (size + 2) rest)
  end.

Definition read_end (r : reader) (rest : list Z) : reading :=
  if zlen rest <? 2 then Need
  else if negb (bool_decide (ztake 2 rest = crlf)) then Failed InvalidChunk
  else Finished (mkDecode (r_decoded r) (r_consumed r + 2)).

Definition read_step (lim : Http1ChunkLimits) (r : reader) (out : S) (rest : list Z) : reading :=
  match r_state r with
  | Size => read_size lim r out rest
  | Data size => read_data lim r out rest size
  | End => read_end r rest
  end.

(** The end of a reading: more input is needed at a given point, the body is
    complete, or it is rejected. *)
Inductive verdict : Type :=
| VNeed (r : reader) (out : S) (rest : list Z)
| VDone (out : S) (c : Http1ChunkedDecode)
| VFail (out : S) (e : Http1ParseError).

Definition verdict_of (v : verdict) : S * result (option Http1ChunkedDecode) Http1ParseError :=
  match v with
  | VNeed _ out _ => (out, Ok None)
  | VDone out c => (out, Ok (Some c))
  | VFail out e => (out, Err e)
  end.

Inductive reads (lim : Http1ChunkLimits) : reader -> S -> list Z -> verdict -> Prop :=
| reads_need r out rest :
    read_step lim r out rest = Need -> reads lim r out rest (VNeed r out rest)
| reads_done r out rest c :
    read_step lim r out rest = Finished c -> reads lim r out rest (VDone out c)
| reads_fail r out rest e :
    read_step lim r out rest = Failed e -> reads lim r out rest (VFail out e)
| reads_more r out rest r' out' rest' v :
    read_step lim r out rest = More r' out' rest' ->
    reads lim r' out' rest' v -> reads lim r out rest v.

(** The same as a function; every step that goes on consumes input, so the
    number of bytes is enough fuel. *)
Fixpoint read_all (fuel : nat) (lim : Http1ChunkLimits) (r : reader) (out : S) (rest : list Z)
    : option verdict :=
  match fuel with
  | O => None
  | Datatypes.S fuel' =>
      match read_step lim r out rest with
      | More r' out' rest' => read_all fuel' lim r' out' rest'
      | Need => Some (VNeed r out rest)
      | Finished c => Some (VDone out c)
      | Failed e => Some (VFail out e)
      end
  end.

(** What is left of a verdict when [total] bytes were offered and only
    [allowed] could be read: an incomplete body is then too large. *)
Definition cut (allowed total : Z) (v : verdict) : verdict :=
  match v with
  | VNeed _ out _ => if allowed <? total then VFail out EncodedBodyTooLarge else v
  | _ => v
  end.

(** Read at most [max_encoded_bytes] bytes. *)
Definition chunked_spec (lim : Http1ChunkLimits) (out : S) (bytes : list Z)
    : S * result (option Http1ChunkedDecode) Http1ParseError :=
  match read_all (Datatypes.S (length bytes)) lim reader_new out
          (ztake (max_encoded_bytes lim) bytes) with
  | Some v => verdict_of (cut (max_encoded_bytes lim) (zlen bytes) v)
  | None => (out, Ok None)
  end.
End Reader.

(** Limits for which no [checked_add] of the decoder can overflow. *)
Definition chunk_limits_wf (lim : Http1ChunkLimits) : Prop :=
  0 <= max_chunk_size lim /\ 0 <= max_body_bytes lim /\ 0 <= max_encoded_bytes lim
  /\ 0 <= max_chunk_line_bytes lim /\ 0 <= max_chunk_count lim
  /\ 0 <= max_chunk_extension_bytes lim
  /\ max_encoded_bytes lim + max_chunk_size lim + 2 <= USIZE_MAX
  /\ max_body_bytes lim + max_chunk_size lim <= USIZE_MAX
  /\ max_chunk_count lim + 1 <= USIZE_MAX
  /\ max_chunk_extension_bytes lim + max_chunk_line_bytes lim <= USIZE_MAX.

Lemma default_chunk_limits_wf : chunk_limits_wf default_chunk_limits.
Proof. repeat split; vm_compute; discriminate. Qed.

(** ** Lines *)

Lemma next_line_Some s l r :
  next_line s = Some (l, r) -> s = l ++ crlf ++ r.
Proof.
  revert l r. induction s as [|x [|y s] IH]; intros l r; simpl; [done..|].
  destruct ((x =? CR) && (y =? LF)) eqn:E.
  - breflect. intros [= <- <-]. by subst.
  - simpl in IH. destruct (match s with [] => None | _ => _ end) as [[l' r']|]; [|done].
    intros [= <- <-]. by rewrite (IH _ _ eq_refl).
Qed.

Lemma next_line_cons x s :
  next_line (x :: s) =
  match s with
  | [] => None
  | y :: rest =>
      if (x =? CR) && (y =? LF) then Some ([], rest)
      else match next_line s with Some (l, r) => Some (x :: l, r) | None => None end
  end.
Proof. by destruct s. Qed.
Lemma next_line_nil : next_line [] = None.
Proof. done. Qed.
#[local] Opaque next_line.

Lemma next_line_app s l r more :
  next_line s = Some (l, r) -> next_line (s ++ more) = Some (l, r ++ more).
Proof.
  revert l r. induction s as [|x s IH]; intros l r; [done|].
  simpl. rewrite !(next_line_cons x). destruct s as [|y s]; [done|]. simpl.
  destruct ((x =? CR) && (y =? LF)); [by intros [= <- <-]|].
  simpl in IH. destruct (next_line (y :: s)) as [[l' r']|]; [|done].
  intros [= <- <-]. by rewrite (IH _ _ eq_refl).
Qed.
Lemma next_line_crlf l r : exists p, next_line (l ++ crlf ++ r) = Some p.
Proof.
  induction l as [|x l [p IH]]; simpl; rewrite next_line_cons; simpl; [eauto|].
  destruct (l ++ CR :: LF :: r) as [|y s] eqn:E; [by destruct l|].
  destruct ((x =? CR) && (y =? LF)); [eauto|].
  change (y :: s) with ([] ++ y :: s). rewrite <-E. simpl in IH |- *. rewrite IH.
  destruct p. eauto.
Qed.

(** Bytes that hold no CRLF can be skipped before looking for one. *)
Lemma next_line_skip u x v :
  next_line (u ++ [x]) = None ->
  next_line (u ++ x :: v) =
  match next_line (x :: v) with Some (l, r) => Some (u ++ l, r) | None => None end.
Proof.
  induction u as [|y u IH]; simpl; [by destruct (next_line (x :: v)) as [[]|]|].
  rewrite !(next_line_cons y). intros Hn.
  destruct u as [|z u]; simpl in *.
  - destruct ((y =? CR) && (x =? LF)); [done|].
    by destruct (next_line (x :: v)) as [[]|].
  - destruct ((y =? CR) && (z =? LF)); [done|].
    destruct (next_line (z :: u ++ [x])) as [[]|]; [done|]. rewrite IH by done.
    by destruct (next_line (x :: v)) as [[]|].
Qed.

Lemma find_crlf_from_next_line s i :
  find_crlf_from s i =
  match next_line s with Some (l, _) => Some (i + zlen l) | None => None end.
Proof.
  revert i. induction s as [|x s IH]; intros i; [done|].
  rewrite next_line_cons. destruct s as [|y s]; [done|]. simpl.
  destruct ((x =? CR) && (y =? LF)); [f_equal; zl|].
  simpl in IH. rewrite IH.
  destruct (next_line (y :: s)) as [[]|]; [|done]. f_equal. rewrite zlen_cons. lia.
Qed.

(** The length the pending line has at least, when no CRLF was seen yet. *)
Definition pending_len (s : list Z) : Z :=
  zlen s - (if bool_decide (last s = Some CR) then 1 else 0).

Lemma pending_len_range s : 0 <= pending_len s <= zlen s.
Proof.
  unfold pending_len. case_bool_decide as E; [|zl].
  destruct s; [done|]. zl.
Qed.
Lemma pending_len_app s more : pending_len s <= pending_len (s ++ more).
Proof.
  destruct more as [|x more]; [rewrite app_nil_r; done|].
  assert (pending_len s <= zlen s) by apply pending_len_range.
  unfold pending_len at 2. case_bool_decide; zl.
Qed.

Lemma pending_len_line s more l r :
  next_line s = None -> next_line (s ++ more) = Some (l, r) -> pending_len s <= zlen l.
Proof.
  intros Hn Hs%next_line_Some.
  destruct (decide (zlen l + 2 <= zlen s)) as [Hle|Hgt].
  - assert (s = l ++ crlf ++ zdrop (zlen l + 2) s) as E.
    { rewrite <-(ztake_drop (zlen l + 2) s) at 1.
      assert (ztake (zlen l + 2) s = l ++ crlf) as ->; [|by rewrite <-app_assoc].
      rewrite <-(ztake_app_le _ s more), Hs, ztake_app_ge by zl.
      f_equal. replace (zlen l + 2 - zlen l) with (zlen crlf) by (unfold crlf; zl).
      apply ztake_app_exact. }
    destruct (next_line_crlf l (zdrop (zlen l + 2) s)) as [p Hp]. congruence.
  - destruct (decide (zlen s <= zlen l)); [pose proof (pending_len_range s); lia|].
    assert (zlen s = zlen l + 1) as Hlen by lia.
    assert (s = l ++ [CR]) as ->.
    { rewrite <-(ztake_app_exact s more), Hs, Hlen.
      rewrite ztake_app_ge by lia. by replace (zlen l + 1 - zlen l) with 1 by lia. }
    unfold pending_len. rewrite last_snoc, bool_decide_true by done. zl.
Qed.

(** ** Chunk sizes *)

Lemma hex_value_range c v : hex_value c = Some v -> 0 <= v < 16.
Proof. unfold hex_value, between. intros H. branches H; lia. Qed.

Lemma parse_hex_size_range max size digits n :
  0 <= size <= max -> parse_hex_size max size digits = Ok n -> 0 <= n <= max.
Proof.
  revert size. induction digits as [|c digits IH]; intros size Hs; simpl; [naive_solver|].
  destruct (hex_value c) as [v|] eqn:Hv; [|done]. apply hex_value_range in Hv.
  destruct (_ ≫= _) as [size'|] eqn:E; simpl; [|done].
  apply bind_Some in E as (m & Hm%checked_mul_Some & Ha%checked_add_Some).
  case_match; [done|]. breflect. apply IH. lia.
Qed.
Lemma parse_chunk_size_line_range line max size ext :
  0 <= max -> parse_chunk_size_line line max = Ok (size, ext) ->
  0 <= size <= max /\ 0 <= ext <= zlen line.
Proof.
  unfold parse_chunk_size_line. intros Hmax. case_match; [done|].
  destruct (parse_hex_size _ _ _) as [n|] eqn:E; [|done].
  destruct (validate_chunk_extensions _); [|done]. intros [= <- <-].
  apply parse_hex_size_range in E; [|lia]. split; [done|].
  destruct (position _ line) as [i|] eqn:Hp; simpl; [|zl].
  apply position_Some in Hp as (? & ? & ? & -> & <- & _). zl.
Qed.

(** ** Properties of the reference reader *)

Definition reader_wf (lim : Http1ChunkLimits) (r : reader) : Prop :=
  match r_state r with Data n => 0 < n <= max_chunk_size lim | _ => True end
  /\ 0 <= r_count r <= max_chunk_count lim
  /\ 0 <= r_ext r <= max_chunk_extension_bytes lim
  /\ 0 <= r_decoded r <= max_body_bytes lim
  /\ 0 <= r_consumed r.

Section ReaderFacts.
Context {S : Type} `{Http1ChunkSink S}.
Context (lim : Http1ChunkLimits) (Hlim : chunk_limits_wf lim).

Lemma reader_new_wf : reader_wf lim reader_new.
Proof using Hlim. unfold reader_wf. destruct Hlim; simpl; lia. Qed.

(** A step that goes on keeps the counters in bounds and consumes input. *)
Lemma read_step_more r (out : S) rest r' out' rest' :
  reader_wf lim r -> read_step lim r out rest = More r' out' rest' ->
  reader_wf lim r' /\ exists used, rest = used ++ rest'
    /\ 2 <= zlen used /\ r_consumed r' = r_consumed r + zlen used.
Proof using Hlim.
  intros Hwf. unfold read_step. destruct (r_state r) as [|n|] eqn:Hst.
  - unfold read_size. destruct (next_line rest) as [[line rest1]|] eqn:Hl; [|by case_match].
    intros Hr. branches Hr. apply next_line_Some in Hl. subst.
    apply parse_chunk_size_line_range in E1 as [? ?]; [|apply Hlim].
    split.
    + unfold reader_wf in *; simpl. rewrite Hst in Hwf.
      destruct (Z.eqb_spec z 0); zlen_facts; lia.
    + exists (line ++ crlf). rewrite <-app_assoc. split; [done|].
      unfold crlf; simpl. zl.
  - unfold read_data. intros Hr. branches Hr.
    unfold reader_wf in *. rewrite Hst in Hwf. simpl. split; [lia|].
    exists (ztake (n + 2) rest). rewrite ztake_drop. split; [done|].
    rewrite zlen_take by lia. lia.
  - unfold read_end. by repeat case_match.
Qed.

Lemma read_step_app r (out : S) rest more :
  reader_wf lim r ->
  match read_step lim r out rest with
  | More r' out' rest' => read_step lim r out (rest ++ more) = More r' out' (rest' ++ more)
  | Need => True
  | Finished c => read_step lim r out (rest ++ more) = Finished c
  | Failed e => read_step lim r out (rest ++ more) = Failed e
  end.
Proof using Hlim.
  intros Hwf. unfold read_step. destruct (r_state r) as [|n|] eqn:Hst.
  - unfold read_size. destruct (next_line rest) as [[line rest1]|] eqn:Hl.
    + rewrite (next_line_app _ _ _ more Hl). by repeat case_match; simplify_eq.
    + destruct (Z.ltb_spec (max_chunk_line_bytes lim)
        (zlen rest - (if bool_decide (last rest = Some CR) then 1 else 0))) as [Hp|]; [|done].
      change (max_chunk_line_bytes lim < pending_len rest) in Hp.
      destruct (next_line (rest ++ more)) as [[line rest1]|] eqn:Hl'.
      * apply (pending_len_line _ _ _ _ Hl) in Hl'.
        by rewrite (proj2 (Z.ltb_lt _ _)) by lia.
      * fold (pending_len (rest ++ more)). pose proof (pending_len_app rest more).
        by rewrite (proj2 (Z.ltb_lt _ _)) by lia.
  - unfold reader_wf in Hwf. rewrite Hst in Hwf. unfold read_data.
    destruct (Z.ltb_spec (zlen rest) (n + 2)); [done|].
    rewrite (proj2 (Z.ltb_ge (zlen (rest ++ more)) (n + 2))) by zl.
    rewrite (zdrop_app_le n) by lia. rewrite ztake_app_le by (rewrite zlen_drop by lia; lia).
    rewrite (ztake_app_le n), (zdrop_app_le (n + 2)) by lia.
    by repeat case_match; simplify_eq.
  - unfold read_end. destruct (Z.ltb_spec (zlen rest) 2); [done|].
    rewrite (proj2 (Z.ltb_ge (zlen (rest ++ more)) 2)) by zl. rewrite ztake_app_le by lia.
    by repeat case_match; simplify_eq.
Qed.

(** Reading a prefix and then the rest is reading everything. *)
Lemma reads_app r (out : S) rest v more :
  reader_wf lim r -> reads lim r out rest v ->
  match v with
  | VNeed r' out' rest' =>
      reader_wf lim r' /\
      forall v', reads lim r' out' (rest' ++ more) v' -> reads lim r out (rest ++ more) v'
  | _ => reads lim r out (rest ++ more) v
  end.
Proof using Hlim.
  intros Hwf Hr. induction Hr as [r out rest Hs|r out rest c Hs|r out rest e Hs
    |r out rest r' out' rest' v Hs Hr IH].
  all: pose proof (read_step_app r out rest more Hwf) as Ha; rewrite Hs in Ha.
  - split; [done|]. eauto.
  - by constructor.
  - by constructor.
  - apply read_step_more in Hs as [Hwf' _]; [|done]. specialize (IH Hwf').
    destruct v; [destruct IH as [? IH]; split; [done|]; intros|..]; econstructor; eauto.
Qed.

Lemma reads_det r (out : S) rest v v' :
  reads lim r out rest v -> reads lim r out rest v' -> v = v'.
Proof.
  intros Hr. revert v'. induction Hr; intros v' Hr'; inversion Hr'; simplify_eq/=; try congruence.
  apply IHHr. congruence.
Qed.

Lemma read_all_reads fuel r (out : S) rest :
  reader_wf lim r -> (length rest < fuel)%nat ->
  exists v, read_all fuel lim r out rest = Some v /\ reads lim r out rest v.
Proof using Hlim.
  revert r out rest. induction fuel as [|fuel IH]; intros r out rest Hwf Hf; [lia|].
  simpl. destruct (read_step lim r out rest) as [r' out' rest'| | |] eqn:E;
    try by eexists; split; [done|constructor].
  destruct (read_step_more _ _ _ _ _ _ Hwf E) as (Hwf' & used & -> & Hu & _).
  rewrite length_app in Hf. unfold zlen in Hu.
  destruct (IH r' out' rest' Hwf') as (v & -> & Hv); [lia|].
  exists v. split; [done|]. by econstructor.
Qed.

(** A sink that held what the reader decoded still does. *)
Lemma read_step_sink_len `{!Http1ChunkSinkLaws S} r (out : S) rest r' out' rest' :
  reader_wf lim r -> read_step lim r out rest = More r' out' rest' ->
  sink_len out = r_decoded r -> sink_len out' = r_decoded r'.
Proof.
  intros Hwf Hs Hl. unfold read_step in Hs. destruct (r_state r) as [|n|] eqn:Hst.
  - unfold read_size in Hs. destruct (next_line rest) as [[]|]; [|by case_match].
    by branches Hs.
  - unfold read_data in Hs. branches Hs. simpl.
    unfold reader_wf in Hwf. rewrite Hst in Hwf.
    match goal with Hap : sink_append _ _ = Ok _ |- _ => apply sink_append_len in Hap end.
    rewrite zlen_take in * by lia. lia.
  - unfold read_end in Hs. by repeat case_match.
Qed.

Lemma reads_sink_len `{!Http1ChunkSinkLaws S} r (out : S) rest r' out' rest' :
  reads lim r out rest (VNeed r' out' rest') ->
  reader_wf lim r -> sink_len out = r_decoded r -> sink_len out' = r_decoded r'.
Proof using Hlim.
  intros Hr. remember (VNeed r' out' rest') as v eqn:Ev.
  induction Hr as [| | |r out rest r1 out1 rest1 v Hs Hr IH]; simplify_eq/=; [done|].
  intros Hwf Hl. specialize (IH eq_refl). apply read_step_more in Hs as Hm; [|done].
  apply IH; [by apply Hm|]. by eapply read_step_sink_len.
Qed.
End ReaderFacts.

(** ** The decoder simulates the reader *)

(** The reader state a decoder stands for, and the bytes it has buffered but
    not consumed. *)
Definition abs (d : Http1ChunkedDecoder) : reader :=
  mkReader (state d) (chunk_count d) (extension_bytes d) (decoded_len d)
    (compacted_len d + input_offset d).
Definition unread (d : Http1ChunkedDecoder) : list Z := zdrop (input_offset d) (input d).

Record decoder_inv (lim : Http1ChunkLimits) (d : Http1ChunkedDecoder) : Prop := {
  di_limits : limits d = lim;
  di_offset : 0 <= input_offset d <= zlen (input d);
  (** bytes before the scan offset hold no line end *)
  di_scan : line_scan_offset d = input_offset d \/
    (input_offset d <= line_scan_offset d < zlen (input d)
     /\ next_line (ztake (line_scan_offset d + 1 - input_offset d) (unread d)) = None);
  di_received : compacted_len d + zlen (input d) = received_len d;
  di_compacted : 0 <= compacted_len d;
  di_encoded : received_len d <= max_encoded_bytes lim;
  di_reader : reader_wf lim (abs d);
  di_complete : complete d = None;
}.

Lemma decoder_new_inv lim : chunk_limits_wf lim -> decoder_inv lim (decoder_new lim).
Proof.
  intros Hlim. split; simpl; try done; try lia;
    first [by left | by apply Hlim | by apply reader_new_wf].
Qed.

Lemma zdrop_lt_cons {A} n (s : list A) :
  0 <= n < zlen s -> exists x v, zdrop n s = x :: v /\ ztake (n + 1) s = ztake n s ++ [x].
Proof.
  intros Hn. destruct (zdrop n s) as [|x v] eqn:E.
  - apply (f_equal zlen) in E. rewrite zlen_drop in E by lia. zl.
  - exists x, v. split; [done|].
    rewrite <-(ztake_drop n s) at 1. rewrite E, ztake_app_ge by (rewrite zlen_take by lia; lia).
    rewrite zlen_take by lia. replace (n + 1 - Z.min n (zlen s)) with 1 by lia. done.
Qed.

Section Simulation.
Context {S : Type} `{Http1ChunkSink S}.
Context (lim : Http1ChunkLimits) (Hlim : chunk_limits_wf lim).

Lemma unread_zlen d : decoder_inv lim d -> zlen (unread d) = zlen (input d) - input_offset d.
Proof. intros []. unfold unread. rewrite zlen_drop; lia. Qed.

Lemma find_crlf_unread d :
  decoder_inv lim d ->
  find_crlf (input d) (line_scan_offset d) =
  match next_line (unread d) with Some (l, _) => Some (input_offset d + zlen l) | None => None end.
Proof.
  intros Hd. unfold find_crlf. rewrite find_crlf_from_next_line.
  destruct (di_scan _ _ Hd) as [-> | [Hr Hn]]; [done|].
  set (k := line_scan_offset d - input_offset d).
  replace (line_scan_offset d + 1 - input_offset d) with (k + 1) in Hn by lia.
  destruct (zdrop_lt_cons k (unread d)) as (x & v & Hx & Ht);
    [rewrite unread_zlen by done; lia|].
  assert (zdrop (line_scan_offset d) (input d) = x :: v) as ->.
  { rewrite <-Hx. unfold unread. rewrite zdrop_drop by (destruct Hd; lia). f_equal. lia. }
  rewrite <-(ztake_drop k (unread d)), Hx, next_line_skip by congruence.
  destruct (next_line (x :: v)) as [[l r]|]; [|done].
  rewrite zlen_app, zlen_take, unread_zlen by (done || lia). f_equal. lia.
Qed.

(** What an iteration of [process] does, as seen by the reader. *)
Definition simulates (d : Http1ChunkedDecoder) (out : S) (i : iteration S) (v : reading) : Prop :=
  match v with
  | More r out' rest =>
      exists d', i = Continue d' out' /\ decoder_inv lim d' /\ abs d' = r /\ unread d' = rest
        /\ received_len d' = received_len d
  | Need =>
      exists d', i = Stop (Returned d' out (Ok None)) /\ decoder_inv lim d' /\ abs d' = abs d
        /\ unread d' = unread d /\ received_len d' = received_len d
  | Finished c => exists d', i = Stop (Returned d' out (Ok (Some c))) /\ complete d' = Some c
  | Failed e => exists d', i = Stop (Returned d' out (Err e))
  end.

Lemma process_size_sim d (out : S) :
  decoder_inv lim d -> state d = Size ->
  simulates d out (process_size d out) (read_size lim (abs d) out (unread d)).
Proof using Hlim.
  intros Hd Hst. unfold process_size, read_size.
  rewrite find_crlf_unread by done. pose proof (unread_zlen d Hd) as Hlen.
  destruct Hd as [Hl Ho Hs Hr Hc He Hw Hcm]. rewrite Hl.
  destruct (next_line (unread d)) as [[line rest]|] eqn:Hn.
  - pose proof (next_line_Some _ _ _ Hn) as Hu.
    assert (zlen (unread d) = zlen line + 2 + zlen rest) as Hul
      by (rewrite Hu; unfold crlf; zl).
    assert (zslice (input d) (input_offset d) (input_offset d + zlen line) = Some line) as ->.
    { apply zslice_Some. zlen_facts. split; [lia|]. split; [lia|].
      replace (input_offset d + zlen line - input_offset d) with (zlen line) by lia.
      fold (unread d). by rewrite Hu, ztake_app_exact. }
    simpl. destruct (Z.ltb_spec (max_chunk_line_bytes lim) (zlen line)); [by simpl; eexists|].
    unfold reader_wf in Hw. rewrite (checked_add_exact USIZE_MAX (chunk_count d) 1) by
      (destruct Hlim; simpl in *; ulia).
    simpl. rewrite ?Hl.
    destruct (Z.ltb_spec (max_chunk_count lim) (chunk_count d + 1)); [by simpl; eexists|].
    destruct (parse_chunk_size_line line (max_chunk_size lim)) as [[size ext]|] eqn:Hp;
      [|by simpl; eexists].
    apply parse_chunk_size_line_range in Hp as [Hsz Hext]; [|apply Hlim].
    rewrite (checked_add_exact USIZE_MAX (extension_bytes d) ext) by
      (destruct Hlim; simpl in *; ulia).
    simpl. rewrite ?Hl.
    destruct (Z.ltb_spec (max_chunk_extension_bytes lim) (extension_bytes d + ext)); [by simpl; eexists|].
    rewrite checked_add_exact by (zlen_facts; destruct Hlim; ulia).
    set (o := input_offset d + zlen line + 2).
    eexists. split; [done|].
    assert (zdrop o (input d) = rest) as Hrest.
    { transitivity (zdrop (zlen line + 2) (unread d)).
      - unfold unread. zlen_facts. rewrite zdrop_drop by lia. f_equal. lia.
      - rewrite Hu, zdrop_app_ge by zl. zlen_facts.
        replace (zlen line + 2 - zlen line) with (zlen crlf) by (unfold crlf; zl).
        apply zdrop_app_exact. }
    split; [|split; [unfold abs; simpl; f_equal; lia|split; [exact Hrest|done]]].
    split; simpl; try done; try (by left); try (zlen_facts; lia).
    unfold reader_wf; simpl in *. zlen_facts.
    destruct (Z.eqb_spec size 0); lia.
  - assert (zslice (input d) (input_offset d) (zlen (input d)) = Some (unread d)) as ->.
    { apply zslice_Some. split; [lia|]. split; [lia|]. rewrite <-Hlen.
      symmetry. apply ztake_ge. done. }
    fold (pending_len (unread d)).
    assert (saturating_sub (zlen (unread d))
      (if bool_decide (last (unread d) = Some CR) then 1 else 0) = pending_len (unread d)) as ->.
    { pose proof (pending_len_range (unread d)). apply saturating_sub_exact.
      unfold pending_len in *. lia. }
    destruct (_ <? _); [by simpl; eexists|].
    eexists. split; [done|]. split; [|done].
    split; simpl; try done.
    destruct (decide (input_offset d = zlen (input d))) as [E|E].
    + left. ulia.
    + right. split; [ulia|].
      change (unread (set_line_scan_offset d _)) with (unread d).
      rewrite ztake_ge; [done|]. ulia.
Qed.

Lemma compact_consumed_sim d :
  decoder_inv lim d -> line_scan_offset d = input_offset d ->
  exists d', compact_consumed d = Ok d' /\ decoder_inv lim d' /\ abs d' = abs d
    /\ unread d' = unread d /\ received_len d' = received_len d.
Proof using Hlim.
  intros Hd Hs. unfold compact_consumed.
  destruct (_ =? 0); [by exists d|]. destruct (negb _ && _); [by exists d|].
  pose proof (unread_zlen d Hd) as Hlen.
  destruct Hd as [Hl Ho _ Hr Hc He Hw Hcm].
  rewrite checked_add_exact by (destruct Hlim; ulia). simpl.
  set (d' := mkDecoder _ _ _ _ _ _ _ _ _ _ _).
  assert (abs d' = abs d) as Ha by (unfold abs; simpl; f_equal; lia).
  exists d'. split; [done|]. split; [|done].
  split; try (simpl; done); try (rewrite Ha; done); simpl; fold (unread d); zlen_facts;
    first [left; ulia | lia].
Qed.

Lemma process_data_sim d (out : S) n :
  decoder_inv lim d -> state d = Data n ->
  simulates d out (process_data d out n) (read_data lim (abs d) out (unread d) n).
Proof using Hlim.
  intros Hd Hst. unfold process_data, read_data. pose proof (unread_zlen d Hd) as Hlen.
  pose proof Hd as [Hl Ho Hs Hr Hc He Hw Hcm]. unfold reader_wf in Hw. simpl in Hw.
  rewrite Hst in Hw.
  rewrite (checked_add_exact _ (input_offset d) n) by (destruct Hlim; ulia).
  rewrite (checked_add_exact _ (input_offset d + n) 2) by (destruct Hlim; ulia).
  rewrite Hlen. destruct (Z.ltb_spec (zlen (input d)) (input_offset d + n + 2)).
  { rewrite (proj2 (Z.ltb_lt _ _)) by lia. by exists d. }
  rewrite (proj2 (Z.ltb_ge (zlen (input d) - input_offset d) _)) by lia.
  assert (zslice (input d) (input_offset d + n) (input_offset d + n + 2)
          = Some (ztake 2 (zdrop n (unread d)))) as ->.
  { apply zslice_Some. split; [lia|]. split; [lia|]. unfold unread.
    rewrite zdrop_drop by lia. f_equal. lia. }
  assert (zslice (input d) (input_offset d) (input_offset d + n)
          = Some (ztake n (unread d))) as ->.
  { apply zslice_Some. split; [lia|]. split; [lia|]. unfold unread. f_equal. lia. }
  destruct (negb _); [by simpl; eexists|].
  rewrite checked_add_exact by (destruct Hlim; ulia). rewrite Hl. simpl r_decoded.
  destruct (_ <? _) eqn:Hb; [by simpl; eexists|]. breflect.
  destruct (sink_append out _) as [out'|]; [|by simpl; eexists].
  set (d' := advance d (input_offset d + n + 2) (decoded_len d + n) Size).
  assert (decoder_inv lim d') as Hd'.
  { split; simpl; try done; try lia; try (by left). unfold reader_wf; simpl. lia. }
  destruct (compact_consumed_sim d' Hd' eq_refl) as (d'' & -> & Hd'' & Ha & Hu & Hrv).
  exists d''. split; [done|]. split; [done|]. rewrite Ha, Hu, Hrv. unfold unread, abs; simpl.
  rewrite zdrop_drop by lia. split; [f_equal; lia|]. split; [f_equal; lia|done].
Qed.

Lemma process_end_sim d (out : S) :
  decoder_inv lim d ->
  simulates d out (Stop (process_end d out)) (read_end (abs d) (unread d)).
Proof using Hlim.
  intros Hd. unfold process_end, read_end. pose proof (unread_zlen d Hd) as Hlen.
  pose proof Hd as [Hl Ho Hs Hr Hc He Hw Hcm].
  rewrite saturating_add_exact by (destruct Hlim; ulia).
  destruct (zslice _ _ _) as [e|] eqn:Hz.
  - apply zslice_Some in Hz as (? & ? & ->). fold (unread d).
    replace (input_offset d + 2 - input_offset d) with 2 by lia.
    rewrite (proj2 (Z.ltb_ge _ _)) by lia. destruct (negb _); [by simpl; eexists|].
    rewrite (checked_add_exact _ (compacted_len d)) by (destruct Hlim; ulia). simpl.
    rewrite checked_add_exact by (destruct Hlim; ulia). by eexists.
  - apply zslice_None in Hz; [|lia]. rewrite (proj2 (Z.ltb_lt _ _)) by lia. by exists d.
Qed.

Lemma process_iteration_sim d (out : S) :
  decoder_inv lim d ->
  simulates d out (process_iteration d out) (read_step lim (abs d) out (unread d)).
Proof using Hlim.
  intros Hd. unfold process_iteration, read_step. simpl. destruct (state d) eqn:Hst.
  - by apply process_size_sim.
  - by apply process_data_sim.
  - by apply process_end_sim.
Qed.

(** An outcome shows a verdict; a decoder that needs more input holds what the
    reader left unread. *)
Definition shows (received : Z) (o : outcome S) (v : verdict) : Prop :=
  match v with
  | VNeed r out rest =>
      exists d, o = Returned d out (Ok None) /\ decoder_inv lim d /\ abs d = r
        /\ unread d = rest /\ received_len d = received
  | VDone out c => exists d, o = Returned d out (Ok (Some c)) /\ complete d = Some c
  | VFail out e => exists d, o = Returned d out (Err e)
  end.

Lemma process_loop_sim fuel d (out : S) :
  decoder_inv lim d -> (length (unread d) < fuel)%nat ->
  exists v, reads lim (abs d) out (unread d) v
    /\ shows (received_len d) (process_loop fuel d out) v.
Proof using Hlim.
  revert d out. induction fuel as [|fuel IH]; intros d out Hd Hf; [lia|].
  simpl. pose proof (process_iteration_sim d out Hd) as Hsim.
  destruct (read_step lim (abs d) out (unread d)) as [r out' rest| |c|e] eqn:Hs.
  - destruct Hsim as (d' & -> & Hd' & Ha & Hu & Hrv).
    destruct (read_step_more _ Hlim _ _ _ _ _ _ (di_reader _ _ Hd) Hs)
      as (_ & used & Hused & Hz & _).
    destruct (IH d' out' Hd') as (v & Hv & Hsh).
    { rewrite Hu. rewrite Hused, length_app in Hf. unfold zlen in Hz. lia. }
    exists v. rewrite Ha, Hu in Hv. rewrite Hrv in Hsh. split; [by econstructor|done].
  - destruct Hsim as (d' & -> & Hd' & Ha & Hu & Hrv). eexists.
    split; [by constructor|]. exists d'. by rewrite Ha.
  - destruct Hsim as (d' & -> & Hc). eexists. split; [by constructor|]. by exists d'.
  - destruct Hsim as (d' & ->). eexists. split; [by constructor|]. by exists d'.
Qed.

Lemma process_sim d (out : S) :
  decoder_inv lim d ->
  exists v, reads lim (abs d) out (unread d) v /\ shows (received_len d) (process d out) v.
Proof using Hlim.
  intros Hd. apply process_loop_sim; [done|].
  pose proof (unread_zlen d Hd). destruct Hd. unfold zlen in *. lia.
Qed.

(** A decoder between two calls: it can make no progress on what it holds. *)
Definition waiting (d : Http1ChunkedDecoder) (out : S) : Prop :=
  read_step lim (abs d) out (unread d) = Need.

Lemma reads_VNeed r (out : S) rest r' out' rest' :
  reads lim r out rest (VNeed r' out' rest') -> read_step lim r' out' rest' = Need.
Proof.
  intros Hr. remember (VNeed r' out' rest') as v eqn:Ev.
  induction Hr; simplify_eq/=; auto.
Qed.

Lemma receive_inv d fragment :
  decoder_inv lim d -> received_len d + zlen fragment <= max_encoded_bytes lim ->
  decoder_inv lim (receive d fragment (received_len d + zlen fragment))
  /\ unread (receive d fragment (received_len d + zlen fragment)) = unread d ++ fragment.
Proof.
  intros Hd Hle. pose proof (unread_zlen d Hd) as Hlen.
  destruct Hd as [Hl Ho Hs Hr Hc He Hw Hcm].
  assert (unread (receive d fragment (received_len d + zlen fragment)) = unread d ++ fragment)
    as Hu by (unfold unread; simpl; by rewrite zdrop_app_le by lia).
  split; [|done]. split; simpl; try done; try zl.
  destruct Hs as [Hs|[Hs Hn]]; [by left|right]. split; [zl|].
  rewrite Hu, ztake_app_le by lia. done.
Qed.

Definition allowance (d : Http1ChunkedDecoder) : Z := max_encoded_bytes lim - received_len d.

Lemma push_loop_step fuel d (out : S) chunk :
  chunk <> [] ->
  push_loop (Datatypes.S fuel) d out chunk =
  let remaining_limit := saturating_sub (max_encoded_bytes (limits d)) (received_len d) in
  if remaining_limit =? 0 then Returned d out (Err EncodedBodyTooLarge)
  else
    let fragment_len :=
      Z.min (Z.min (zlen chunk) HTTP1_CHUNK_INPUT_FRAGMENT_BYTES) remaining_limit in
    match checked_add USIZE_MAX (received_len d) fragment_len with
    | None => Returned d out (Err EncodedBodyTooLarge)
    | Some received =>
        match process (receive d (ztake fragment_len chunk) received) out with
        | Returned d out (Ok None) => push_loop fuel d out (zdrop fragment_len chunk)
        | o => o
        end
    end.
Proof. by destruct chunk. Qed.

Lemma cut_shift n allowed total (v : @verdict S) :
  0 <= n <= total -> cut (allowed - n) (Z.max 0 (total - n)) v = cut allowed total v.
Proof.
  intros. destruct v; simpl; [|done..].
  destruct (Z.ltb_spec (allowed - n) (Z.max 0 (total - n))), (Z.ltb_spec allowed total);
    done || lia.
Qed.

Lemma push_loop_sim fuel d (out : S) chunk :
  decoder_inv lim d -> waiting d out -> (length chunk <= fuel)%nat ->
  exists v, reads lim (abs d) out (unread d ++ ztake (allowance d) chunk) v
    /\ shows (received_len d + zlen chunk) (push_loop fuel d out chunk)
         (cut (allowance d) (zlen chunk) v).
Proof using Hlim.
  revert d out chunk. induction fuel as [|fuel IH]; intros d out chunk Hd Hwait Hf.
  all: pose proof (di_encoded _ _ Hd) as He; pose proof (di_limits _ _ Hd) as Hl.
  all: destruct chunk as [|x chunk']; [|first [simpl in Hf; lia | set (chunk := x :: chunk') in *]].
  1,2: exists (VNeed (abs d) out (unread d)); rewrite (ztake_ge (allowance d)), app_nil_r
         by (unfold allowance; zl);
       split; [by constructor|]; simpl;
       rewrite (proj2 (Z.ltb_ge _ _)) by (unfold allowance; zl);
       exists d; repeat split; try done; try apply Hd; zl.
  rewrite push_loop_step by done.
  cbv zeta. rewrite Hl, saturating_sub_exact by lia. fold (allowance d).
  assert (0 < zlen chunk) as Hpos by (unfold chunk; zl). clearbody chunk.
  destruct (Z.eqb_spec (allowance d) 0) as [E|E].
  { rewrite E, ztake_0, app_nil_r. eexists. split; [by constructor|]. simpl.
    rewrite (proj2 (Z.ltb_lt _ _)) by lia. by eexists. }
  set (n := Z.min _ _).
  assert (0 < n <= zlen chunk /\ n <= allowance d) as Hn
    by (unfold n, HTTP1_CHUNK_INPUT_FRAGMENT_BYTES, allowance in *; lia).
  assert (zlen (ztake n chunk) = n) as Hnl by (rewrite zlen_take by lia; lia).
  rewrite checked_add_exact by (unfold allowance in *; destruct Hlim; ulia).
  destruct (receive_inv d (ztake n chunk)) as [Hd1 Hu1]; [done|unfold allowance in *; lia|].
  rewrite Hnl in Hd1, Hu1.
  destruct (process_sim _ out Hd1) as (v1 & Hv1 & Hsh1). rewrite Hu1 in Hv1.
  change (abs (receive d _ _)) with (abs d) in Hv1.
  pose proof (reads_app _ Hlim _ _ _ _ (ztake (allowance d - n) (zdrop n chunk))
    (di_reader _ _ Hd) Hv1) as Happ.
  rewrite <-app_assoc, <-ztake_split in Happ by lia.
  destruct v1 as [r1 out1 rest1|out1 c1|out1 e1].
  - destruct Hsh1 as (d2 & -> & Hd2 & Ha2 & Hu2 & Hr2). simpl in Hr2.
    apply reads_VNeed in Hv1.
    destruct (IH d2 out1 (zdrop n chunk)) as (v2 & Hv2 & Hsh2).
    { done. } { unfold waiting. by rewrite Ha2, Hu2. }
    { apply (f_equal Z.to_nat) in Hnl. unfold zdrop. rewrite length_drop. simpl in *. lia. }
    assert (allowance d2 = allowance d - n) as Hal by (unfold allowance; lia).
    rewrite Ha2, Hu2, Hal in Hv2. exists v2. split; [by apply Happ|].
    rewrite Hr2, Hal in Hsh2. rewrite zlen_drop in Hsh2 by lia.
    replace (received_len d + n + Z.max 0 (zlen chunk - n)) with (received_len d + zlen chunk)
      in Hsh2 by lia.
    by rewrite cut_shift in Hsh2 by lia.
  - exists (VDone out1 c1). split; [done|]. destruct Hsh1 as (d2 & -> & ?). by exists d2.
  - exists (VFail out1 e1). split; [done|]. destruct Hsh1 as (d2 & ->). by exists d2.
Qed.

Lemma push_with_sink_sim d (out : S) chunk :
  decoder_inv lim d -> waiting d out ->
  exists v, reads lim (abs d) out (unread d ++ ztake (allowance d) chunk) v
    /\ shows (received_len d + zlen chunk) (push_with_sink d out chunk)
         (cut (allowance d) (zlen chunk) v).
Proof using Hlim.
  intros Hd Hw. unfold push_with_sink. rewrite (di_complete _ _ Hd).
  destruct chunk as [|x chunk]; [|by apply push_loop_sim].
  pose proof (di_encoded _ _ Hd).
  rewrite (ztake_ge (allowance d)), app_nil_r, zlen_nil, Z.add_0_r by (unfold allowance; zl).
  destruct (process_sim d out Hd) as (v & Hv & Hsh). exists v. split; [done|].
  destruct v; simpl; [|done..]. by rewrite (proj2 (Z.ltb_ge _ _)) by (unfold allowance; lia).
Qed.

Lemma feed_sim `{!Http1ChunkSinkLaws S} fragments d (out : S) :
  decoder_inv lim d -> waiting d out -> sink_len out = decoded_len d ->
  exists v, reads lim (abs d) out (unread d ++ ztake (allowance d) (concat fragments)) v
    /\ shows (received_len d + zlen (concat fragments)) (feed d out fragments)
         (cut (allowance d) (zlen (concat fragments)) v).
Proof using Hlim.
  revert d out. induction fragments as [|f fs IH]; intros d out Hd Hw Hlen; simpl.
  { pose proof (di_encoded _ _ Hd). exists (VNeed (abs d) out (unread d)).
    rewrite (ztake_ge (allowance d)), app_nil_r by (unfold allowance; zl).
    split; [by constructor|]. simpl.
    rewrite (proj2 (Z.ltb_ge _ _)) by (unfold allowance; zl).
    exists d. repeat split; try done; try apply Hd; zl. }
  unfold push_to. rewrite Hlen, Z.eqb_refl. simpl.
  destruct (push_with_sink_sim d out f Hd Hw) as (v1 & Hv1 & Hsh1).
  pose proof (di_encoded _ _ Hd) as He.
  assert (exists more, ztake (allowance d) (f ++ concat fs) = ztake (allowance d) f ++ more
    /\ (zlen f <= allowance d -> more = ztake (allowance d - zlen f) (concat fs))) as (more & Hm & Hm').
  { destruct (Z.le_gt_cases (zlen f) (allowance d)).
    - eexists. rewrite ztake_app_ge, (ztake_ge _ f) by lia. done.
    - exists []. rewrite ztake_app_le by lia. rewrite app_nil_r. split; [done|lia]. }
  pose proof (reads_app _ Hlim _ _ _ _ more (di_reader _ _ Hd) Hv1) as Happ.
  rewrite <-app_assoc, <-Hm in Happ.
  destruct v1 as [r1 out1 rest1|out1 c1|out1 e1]; simpl in Hsh1.
  2,3: eexists; split; [exact Happ|]; simpl; destruct Hsh1 as (d1 & Ho);
       first [rewrite Ho | destruct Ho as [Ho ?]; rewrite Ho]; by exists d1.
  destruct (Z.ltb_spec (allowance d) (zlen f)) as [Hlt|Hge]; simpl in Hsh1.
  - destruct Hsh1 as (d1 & ->). rewrite ztake_app_le in Hm by lia.
    rewrite ztake_app_le by lia. eexists. split; [exact Hv1|]. simpl.
    rewrite (proj2 (Z.ltb_lt _ _)) by zl. by exists d1.
  - destruct Hsh1 as (d1 & -> & Hd1 & Ha1 & Hu1 & Hr1).
    apply (reads_sink_len _ Hlim) in Hv1 as Hs1; [|apply Hd|done].
    apply reads_VNeed in Hv1.
    destruct (IH d1 out1) as (v2 & Hv2 & Hsh2);
      [done|unfold waiting; by rewrite Ha1, Hu1|by rewrite Hs1, <-Ha1|].
    assert (allowance d1 = allowance d - zlen f) as Hal by (unfold allowance; lia).
    rewrite Ha1, Hu1, Hal, <-Hm' in Hv2 by done.
    exists v2. split; [by apply Happ|]. rewrite Hr1, Hal in Hsh2.
    rewrite zlen_app, Z.add_assoc. rewrite <-(cut_shift (zlen f)) by zl.
    replace (Z.max 0 (zlen f + zlen (concat fs) - zlen f)) with (zlen (concat fs)) by zl. done.
Qed.
End Simulation.
