(* ===== verification/Http1ChunkedProps.v ===== *)
(** * Properties of the chunked decoder

    The refinement of the reference reader, the decoding of every well-formed
    body, where a body ends, the limits, and the bound on buffered bytes. *)
From Stdlib Require Import ZArith Lia.
From stdpp Require Import base list numbers strings sets.
From S2P Require Import Prelude Text Http1Target Http1Chunked Http1ChunkedSpec.

(** Limits small enough to evaluate the reference reader under. *)
Definition sample_limits : Http1ChunkLimits := mkHttp1ChunkLimits 64 128 256 32 8 16.
Lemma sample_limits_wf : chunk_limits_wf sample_limits.
Proof. repeat split; vm_compute; discriminate. Qed.

(** ** Refinement *)

#[export] Instance vec_sink_laws : Http1ChunkSinkLaws (list Z).
Proof. split. intros s bytes s' [= <-]. simpl. zl. Qed.

#[export] Instance slice_sink_laws : Http1ChunkSinkLaws Http1SliceChunkSink.
Proof.
  split. intros s bytes s'. simpl.
  destruct (checked_add _ _ _) as [e|] eqn:E; simpl; [|done].
  destruct (zslice _ _ _); simpl; [|done]. intros [= <-]. simpl.
  by apply checked_add_Some in E as [_ ->].
Qed.

Lemma waiting_new {S} `{Http1ChunkSink S} lim (out : S) :
  chunk_limits_wf lim -> waiting lim (decoder_new lim) out.
Proof.
  intros Hlim. unfold waiting, read_step; simpl. unfold read_size.
  change (unread (decoder_new lim)) with (@nil Z). simpl.
  rewrite (proj2 (Z.ltb_ge _ _)); [done|]. destruct Hlim as (_ & _ & _ & ? & _). done.
Qed.

(** The reference reader as the relation its proofs use. *)
Lemma chunked_spec_reads {S} `{Http1ChunkSink S} lim (out : S) bytes :
  chunk_limits_wf lim ->
  exists v, reads lim reader_new out (ztake (max_encoded_bytes lim) bytes) v
    /\ chunked_spec lim out bytes = verdict_of (cut (max_encoded_bytes lim) (zlen bytes) v).
Proof.
  intros Hlim. unfold chunked_spec.
  destruct (read_all_reads lim Hlim (Datatypes.S (length bytes)) reader_new out
    (ztake (max_encoded_bytes lim) bytes)) as (v & -> & Hv); eauto using reader_new_wf.
  unfold ztake. rewrite length_take. lia.
Qed.

Lemma chunked_spec_of_reads {S} `{Http1ChunkSink S} lim (out : S) bytes v :
  chunk_limits_wf lim -> reads lim reader_new out (ztake (max_encoded_bytes lim) bytes) v ->
  chunked_spec lim out bytes = verdict_of (cut (max_encoded_bytes lim) (zlen bytes) v).
Proof.
  intros Hlim Hv. destruct (chunked_spec_reads lim out bytes Hlim) as (v' & Hv' & ->).
  by rewrite (reads_det _ _ _ _ _ _ Hv' Hv).
Qed.

Lemma feed_chunked_spec {S} `{Http1ChunkSinkLaws S} lim (out : S) fragments :
  chunk_limits_wf lim -> sink_len out = 0 ->
  outcome_view (feed (decoder_new lim) out fragments)
  = Some (chunked_spec lim out (concat fragments)).
Proof.
  intros Hlim Hlen. pose proof (decoder_new_inv lim Hlim) as Hd.
  destruct (feed_sim lim Hlim fragments (decoder_new lim) out Hd) as (v & Hv & Hsh);
    [by apply waiting_new|done|].
  change (unread (decoder_new lim)) with (@nil Z) in Hv. simpl in Hv.
  replace (allowance lim (decoder_new lim)) with (max_encoded_bytes lim) in *
    by (unfold allowance; simpl; lia).
  rewrite (chunked_spec_of_reads lim out _ v Hlim Hv).
  simpl. destruct (cut _ _ v); simpl in *; destruct Hsh as (d & Ho);
    first [rewrite Ho | destruct Ho as [Ho _]; rewrite Ho]; done.
Qed.

(** C7: the incremental decoder refines the reference reader.  Whatever the
    fragments a chunked body arrives in, a sequence of pushes into a fresh
    decoder returns (it neither panics nor loops) and leaves the same sink and
    the same result as reading the concatenated bytes in one go: the input
    buffer, the scan offset, the compaction and the fragmentation are invisible. *)
Theorem feed_refines_spec {S : Type} `{Http1ChunkSinkLaws S} (lim : Http1ChunkLimits) (out : S)
    (fragments : list (list Z)) :
  chunk_limits_wf lim -> sink_len out = 0 ->
  outcome_view (feed (decoder_new lim) out fragments)
  = Some (chunked_spec lim out (concat fragments)).
Proof. apply feed_chunked_spec. Qed.
Lemma feed_refines_spec_witness :
  outcome_view (feed (decoder_new sample_limits) ([] : list Z)
    [bs "3" ++ [CR]; [LF] ++ bs "ab"; bs "c" ++ crlf ++ bs "0" ++ crlf ++ crlf])
  = Some (bs "abc", Ok (Some (mkDecode 3 13))).
Proof.
  rewrite (feed_refines_spec sample_limits ([] : list Z));
    [vm_compute; reflexivity|apply sample_limits_wf|reflexivity].
Defined.

(** ** Chunk-size lines *)

Lemma token_byte_not_CR c : token_byte c = true -> c <> CR.
Proof. intros ?%token_byte_range. lia. Qed.

Lemma token_notin_CR v : http_token_valid v = true -> CR ∉ v.
Proof.
  intros [_ H]%http_token_valid_spec Hin. rewrite Forall_forall in H.
  by apply H, token_byte_not_CR in Hin.
Qed.

Lemma scan_quoted_used escaped s rest :
  scan_quoted escaped s = Ok rest -> exists used, s = used ++ rest /\ (CR ∉ used) /\ used <> [].
Proof.
  revert escaped. induction s as [|c s IH]; intros escaped; simpl; [done|].
  assert (forall esc, c <> CR -> scan_quoted esc s = Ok rest ->
    exists used, c :: s = used ++ rest /\ (CR ∉ used) /\ used <> []) as Hrec.
  { intros esc Hc Hs. destruct (IH _ Hs) as (used & -> & ?). exists (c :: used). set_solver. }
  destruct escaped.
  - destruct (quoted_byte_forbidden c) eqn:E; [done|]. apply Hrec. by intros ->.
  - destruct (Z.eqb_spec c 92) as [->|]; [by apply Hrec|].
    destruct (Z.eqb_spec c 34) as [->|]; [intros [= ->]; exists [34]; set_solver|].
    destruct (quoted_byte_forbidden c) eqn:E; [done|]. apply Hrec. by intros ->.
Qed.

Lemma validate_extension_token_used s rest :
  validate_extension_token s = Ok rest -> exists used, s = used ++ rest /\ CR ∉ used.
Proof.
  unfold validate_extension_token. set (n := default _ _). clearbody n.
  intros H. branches H. exists (ztake n s). rewrite ztake_drop. split; [done|].
  by apply token_notin_CR.
Qed.

Lemma validate_extension_value_used s rest :
  validate_extension_value s = Ok rest -> exists used, s = used ++ rest /\ CR ∉ used.
Proof.
  unfold validate_extension_value. destruct s as [|c s]; [apply validate_extension_token_used|].
  destruct (Z.eqb_spec c 34) as [->|]; [|apply validate_extension_token_used].
  destruct (scan_quoted false s) as [r|] eqn:Hs; simpl; [|done].
  apply scan_quoted_used in Hs as (used & -> & ? & _). intros Hr.
  assert (r = rest) as -> by (by destruct r; [|case_match]; simplify_eq).
  exists (34 :: used). set_solver.
Qed.

Lemma validate_one_extension_used s rest :
  validate_one_extension s = Ok rest ->
  exists used, s = used ++ rest /\ (CR ∉ used) /\ used <> [].
Proof.
  destruct s as [|c s]; [done|]. simpl. destruct (Z.eqb_spec c 59) as [->|]; [|done]. simpl.
  set (n := default _ _). clearbody n.
  destruct (_ || _) eqn:E; [done|]. apply orb_false_iff in E as [_ E%negb_false_iff].
  assert (CR ∉ ztake n s) as Hname.
  { rewrite forallb_forall in E. intros Hin%list_elem_of_In%E%token_notin_CR. set_solver. }
  assert (forall used, zdrop n s = used ++ rest -> CR ∉ used ->
    exists used', 59 :: s = used' ++ rest /\ (CR ∉ used') /\ used' <> []) as Hrec.
  { intros used Hd Hu. exists (59 :: ztake n s ++ used).
    rewrite <-(ztake_drop n s) at 1. rewrite Hd. simpl. rewrite <-app_assoc. set_solver. }
  destruct (zdrop n s) as [|x t] eqn:Hd; [intros [= <-]; apply (Hrec []); set_solver|].
  destruct (Z.eqb_spec x 61) as [->|].
  - intros (used & -> & ?)%validate_extension_value_used. apply (Hrec (61 :: used)); set_solver.
  - intros [= <-]. apply (Hrec []); set_solver.
Qed.

(** The loop over chunk extensions never runs out of its fuel, the number of
    bytes: every iteration takes at least one. *)
Lemma validate_extensions_loop_total fuel s :
  (length s <= fuel)%nat -> is_Some (validate_extensions_loop fuel s).
Proof.
  revert s. induction fuel as [|fuel IH]; intros [|c s] Hf;
    cbn -[validate_one_extension] in *; [eauto|lia|eauto|].
  destruct (validate_one_extension (c :: s)) as [rest|] eqn:E; [|eauto]. apply IH.
  apply validate_one_extension_used in E as ([|x used] & Hs & _ & ?); [done|].
  apply (f_equal length) in Hs. simpl in Hs. rewrite length_app in Hs. lia.
Qed.

Lemma validate_extensions_loop_no_CR fuel s :
  validate_extensions_loop fuel s = Some (Ok tt) -> CR ∉ s.
Proof.
  revert s. induction fuel as [|fuel IH]; intros [|c s]; cbn -[validate_one_extension]; try done;
    try set_solver.
  destruct (validate_one_extension (c :: s)) as [rest|] eqn:E; [|done].
  apply validate_one_extension_used in E as (used & -> & ? & _). intros ?%IH. set_solver.
Qed.

Lemma parse_hex_size_no_CR max size s n : parse_hex_size max size s = Ok n -> CR ∉ s.
Proof.
  revert size. induction s as [|c s IH]; intros size; simpl; [set_solver|].
  destruct (hex_value c) as [v|] eqn:Hv; [|done].
  destruct (_ ≫= _); simpl; [|done]. case_match; [done|]. intros ?%IH.
  apply not_elem_of_cons. split; [|done]. by intros <-.
Qed.

Lemma parse_chunk_size_line_no_CR line max r :
  parse_chunk_size_line line max = Ok r -> CR ∉ line.
Proof.
  unfold parse_chunk_size_line. set (n := default _ _). clearbody n. case_match; [done|].
  destruct (parse_hex_size _ _ _) eqn:E; simpl; [|done].
  unfold validate_chunk_extensions.
  destruct (validate_extensions_loop _ _) as [[[]|]|] eqn:E'; simpl; [|done..]. intros _.
  rewrite <-(ztake_drop n line). apply parse_hex_size_no_CR in E.
  apply validate_extensions_loop_no_CR in E'. set_solver.
Qed.

Lemma next_line_no_CR l r : CR ∉ l -> next_line (l ++ crlf ++ r) = Some (l, r).
Proof.
  induction l as [|x l IH]; [done|]. intros [Hx Hl]%not_elem_of_cons.
  change ((x :: l) ++ crlf ++ r) with (x :: (l ++ crlf ++ r)).
  rewrite next_line_cons, IH by done.
  rewrite (proj2 (Z.eqb_neq x CR)) by done. by destruct l.
Qed.

(** ** Encoded bodies *)

(** A chunk as it is sent: its size line (size and extensions, without the
    CRLF), the number of extension bytes in it, and its data. *)
Record chunk : Type := mkChunk { ck_line : list Z; ck_ext : Z; ck_data : list Z }.

Definition chunk_ok (lim : Http1ChunkLimits) (c : chunk) : Prop :=
  parse_chunk_size_line (ck_line c) (max_chunk_size lim) = Ok (zlen (ck_data c), ck_ext c)
  /\ zlen (ck_line c) <= max_chunk_line_bytes lim.

Definition encode_chunk (c : chunk) : list Z := ck_line c ++ crlf ++ ck_data c ++ crlf.
Definition encode_chunks (cs : list chunk) : list Z := concat (encode_chunk <$> cs).
Lemma encode_chunks_cons c cs : encode_chunks (c :: cs) = encode_chunk c ++ encode_chunks cs.
Proof. done. Qed.
Definition encode_body (cs : list chunk) (last : chunk) : list Z :=
  encode_chunks cs ++ encode_chunk last.
Definition total_ext (cs : list chunk) : Z := foldr (fun c n => ck_ext c + n) 0 cs.
Definition body_data (cs : list chunk) : list Z := concat (ck_data <$> cs).

(** A body within the limits: non-empty chunks and then one of size zero. *)
Record body_ok (lim : Http1ChunkLimits) (cs : list chunk) (last : chunk) : Prop := {
  bo_chunks : Forall (fun c => chunk_ok lim c /\ ck_data c <> []) cs;
  bo_last : chunk_ok lim last /\ ck_data last = [];
  bo_count : zlen cs + 1 <= max_chunk_count lim;
  bo_ext : total_ext cs + ck_ext last <= max_chunk_extension_bytes lim;
  bo_body : zlen (body_data cs) <= max_body_bytes lim;
  bo_encoded : zlen (encode_body cs last) <= max_encoded_bytes lim;
}.

(** What the reader does on chunk data, and at the end of the body, when the
    CRLF is where it should be. *)
Lemma read_data_exact {S} `{Http1ChunkSink S} lim r (out : S) data rest :
  read_data lim r out (data ++ crlf ++ rest) (zlen data) =
  if max_body_bytes lim <? r_decoded r + zlen data then Failed BodyTooLarge
  else match sink_append out data with
  | Err e => Failed e
  | Ok out => More (mkReader Size (r_count r) (r_ext r) (r_decoded r + zlen data)
                (r_consumed r + zlen data + 2)) out rest
  end.
Proof.
  unfold read_data.
  rewrite (proj2 (Z.ltb_ge _ _)) by (rewrite !zlen_app; unfold crlf; zl).
  rewrite bool_decide_true by (by rewrite zdrop_app_exact). simpl negb. cbv iota.
  rewrite ztake_app_exact, zdrop_app_ge by zl.
  by replace (zlen data + 2 - zlen data) with 2 by lia.
Qed.
Lemma read_end_exact {S} `{Http1ChunkSink S} r rest :
  @read_end S r (crlf ++ rest) = Finished (mkDecode (r_decoded r) (r_consumed r + 2)).
Proof.
  unfold read_end. rewrite (proj2 (Z.ltb_ge _ _)) by (unfold crlf; zl).
  by rewrite bool_decide_true.
Qed.

(** ** Round trip *)

Section RoundTrip.
Context (lim : Http1ChunkLimits) (Hlim : chunk_limits_wf lim).

Lemma chunk_ok_ext c : chunk_ok lim c -> 0 <= ck_ext c.
Proof using Hlim. intros [H _]. apply parse_chunk_size_line_range in H; [lia|apply Hlim]. Qed.

Lemma total_ext_nonneg cs :
  Forall (fun c => chunk_ok lim c /\ ck_data c <> []) cs -> 0 <= total_ext cs.
Proof using Hlim.
  induction 1 as [|c cs [Hc _] _ IH]; simpl; [lia|]. apply chunk_ok_ext in Hc. lia.
Qed.

(** The size line of a well-formed chunk is read as its size. *)
Lemma read_size_chunk r (out : list Z) c rest :
  chunk_ok lim c -> r_state r = Size ->
  r_count r + 1 <= max_chunk_count lim ->
  r_ext r + ck_ext c <= max_chunk_extension_bytes lim ->
  read_step lim r out (ck_line c ++ crlf ++ rest)
  = More (mkReader (if zlen (ck_data c) =? 0 then End else Data (zlen (ck_data c)))
            (r_count r + 1) (r_ext r + ck_ext c) (r_decoded r)
            (r_consumed r + zlen (ck_line c) + 2)) out rest.
Proof.
  intros [Hp Hl] Hst Hc He. unfold read_step. rewrite Hst. unfold read_size.
  rewrite next_line_no_CR by (by eapply parse_chunk_size_line_no_CR).
  rewrite (proj2 (Z.ltb_ge _ _) Hl), (proj2 (Z.ltb_ge _ _) Hc), Hp,
    (proj2 (Z.ltb_ge _ _) He). done.
Qed.

Lemma read_data_chunk r (out : list Z) data rest :
  r_state r = Data (zlen data) -> r_decoded r + zlen data <= max_body_bytes lim ->
  read_step lim r out (data ++ crlf ++ rest)
  = More (mkReader Size (r_count r) (r_ext r) (r_decoded r + zlen data)
            (r_consumed r + zlen data + 2)) (out ++ data) rest.
Proof.
  intros Hst Hb. unfold read_step. rewrite Hst, read_data_exact.
  by rewrite (proj2 (Z.ltb_ge _ _) Hb).
Qed.

Lemma reads_body cs last r out trailing :
  Forall (fun c => chunk_ok lim c /\ ck_data c <> []) cs ->
  chunk_ok lim last -> ck_data last = [] ->
  r_state r = Size ->
  r_count r + zlen cs + 1 <= max_chunk_count lim ->
  r_ext r + total_ext cs + ck_ext last <= max_chunk_extension_bytes lim ->
  r_decoded r + zlen (body_data cs) <= max_body_bytes lim ->
  reads lim r out (encode_body cs last ++ trailing)
    (VDone (out ++ body_data cs)
       (mkDecode (r_decoded r + zlen (body_data cs))
                 (r_consumed r + zlen (encode_body cs last)))).
Proof using Hlim.
  intros Hcs Hlast Hnil. revert r out.
  induction Hcs as [|c cs [Hc Hne] Hcs IH]; intros r out Hst Hcnt Hext Hdec.
  - unfold encode_body, encode_chunks, encode_chunk, body_data in *. simpl in *.
    rewrite Hnil, <-!app_assoc in *. simpl in *.
    eapply reads_more; [apply (read_size_chunk r out last); eauto; zl|].
    rewrite Hnil. simpl. eapply eq_ind; [apply reads_done; apply read_end_exact|].
    simpl. rewrite app_nil_r. unfold crlf. do 2 f_equal; zl.
  - assert (encode_body (c :: cs) last ++ trailing
      = ck_line c ++ crlf ++ ck_data c ++ crlf ++ encode_body cs last ++ trailing) as ->.
    { unfold encode_body. rewrite encode_chunks_cons. unfold encode_chunk at 1.
      by rewrite <-!app_assoc. }
    assert (body_data (c :: cs) = ck_data c ++ body_data cs) as Hbd by done.
    rewrite Hbd, zlen_app in *. simpl in Hext.
    pose proof (total_ext_nonneg cs Hcs). pose proof (chunk_ok_ext _ Hlast).
    assert (0 < zlen (ck_data c)) by (destruct (ck_data c); [done|zl]).
    eapply reads_more; [apply (read_size_chunk r out c); auto; zl|].
    rewrite (proj2 (Z.eqb_neq _ _)) by lia.
    eapply reads_more; [apply read_data_chunk; simpl; [done|zl]|].
    eapply eq_ind; [apply IH; simpl; [done|zl..]|]. simpl. rewrite <-app_assoc.
    do 2 f_equal; [lia|]. unfold encode_body. rewrite encode_chunks_cons.
    unfold encode_chunk at 2. rewrite !zlen_app. unfold crlf. zl.
Qed.
End RoundTrip.

Definition sample_chunks : list chunk :=
  [mkChunk (bs "4;a=b") 4 (bs "Wiki"); mkChunk (bs "005") 0 (bs "pedia")].
Definition sample_last : chunk := mkChunk (bs "0;x") 2 [].
Lemma sample_body_ok : body_ok sample_limits sample_chunks sample_last.
Proof. split; repeat constructor; vm_compute; done. Qed.

(** ** Where a body ends *)

Section Boundary.
Context {S : Type} `{Http1ChunkSinkLaws S}.
Context (lim : Http1ChunkLimits) (Hlim : chunk_limits_wf lim).

(** A step depends on the bytes it consumes and on nothing after them. *)
Lemma read_step_local r (out : S) rest r' out' rest' :
  reader_wf lim r -> read_step lim r out rest = More r' out' rest' ->
  exists used, rest = used ++ rest' /\ r_consumed r' = r_consumed r + zlen used
    /\ forall t, read_step lim r out (used ++ t) = More r' out' t.
Proof.
  intros Hwf. unfold read_step. destruct (r_state r) as [|n|] eqn:Hst.
  - unfold read_size. destruct (next_line rest) as [[line rest1]|] eqn:Hl; [|by case_match].
    intros Hr. apply next_line_Some in Hl. exists (line ++ crlf).
    branches Hr. apply parse_chunk_size_line_no_CR in E1 as Hcr.
    split; [by rewrite <-app_assoc|]. split; [simpl; unfold crlf; zl|].
    intros t. rewrite <-app_assoc, next_line_no_CR by done.
    zcond. rewrite E1. by zcond.
  - unfold reader_wf in Hwf. rewrite Hst in Hwf. intros Hr. unfold read_data in Hr. branches Hr.
    assert (zlen (ztake n rest) = n) as Hlen by (rewrite zlen_take by lia; lia).
    assert (rest = ztake n rest ++ crlf ++ zdrop (n + 2) rest) as Hsplit.
    { rewrite <-(ztake_drop n rest) at 1. f_equal. rewrite <-(ztake_drop 2 (zdrop n rest)).
      rewrite zdrop_drop by lia. by f_equal. }
    exists (ztake n rest ++ crlf). split; [by rewrite <-app_assoc|].
    split; [simpl; unfold crlf; zl|]. intros t. rewrite <-app_assoc.
    pose proof (read_data_exact lim r out (ztake n rest) t) as He. rewrite Hlen in He.
    etrans; [exact He|]. zcond. by rewrite E2.
  - unfold read_end. by repeat case_match.
Qed.

Lemma read_end_local r rest c :
  @read_end S r rest = Finished c ->
  exists t, rest = crlf ++ t /\ c = mkDecode (r_decoded r) (r_consumed r + 2).
Proof.
  unfold read_end. intros Hr. branches Hr. exists (zdrop 2 rest). split; [|done].
  rewrite <-(ztake_drop 2 rest) at 1. by rewrite E0.
Qed.

Lemma reads_done_local r (out : S) rest out' c :
  reads lim r out rest (VDone out' c) -> reader_wf lim r -> sink_len out = r_decoded r ->
  exists used t, rest = used ++ t /\ d_consumed_len c = r_consumed r + zlen used
    /\ d_decoded_len c = sink_len out' /\ d_decoded_len c <= max_body_bytes lim
    /\ forall t', reads lim r out (used ++ t') (VDone out' c).
Proof using Hlim H0.
  intros Hr. remember (VDone out' c) as v eqn:Ev.
  induction Hr as [|r out rest c' Hs| |r out rest r1 out1 rest1 v Hs Hr IH]; simplify_eq/=;
    intros Hwf Hl.
  - unfold read_step in Hs. destruct (r_state r) as [|n|] eqn:Hst.
    1: by unfold read_size in Hs; repeat case_match; simplify_eq.
    1: by unfold read_data in Hs; repeat case_match; simplify_eq.
    apply read_end_local in Hs as (t & -> & ->).
    exists crlf, t. repeat split; simpl; try done; try apply Hwf.
    intros t'. apply reads_done. unfold read_step. rewrite Hst. apply read_end_exact.
  - destruct (read_step_local _ _ _ _ _ _ Hwf Hs) as (u1 & -> & Hc1 & Ht1).
    pose proof (read_step_sink_len lim _ _ _ _ _ _ Hwf Hs Hl) as Hl1.
    apply (read_step_more _ Hlim) in Hs as [Hwf1 _]; [|done].
    destruct (IH eq_refl Hwf1 Hl1) as (u2 & t & -> & Hc2 & Hd & Hb & Ht2).
    exists (u1 ++ u2), t. rewrite <-app_assoc, zlen_app.
    repeat split; try done; try lia. intros t'. rewrite <-app_assoc.
    by eapply reads_more.
Qed.

Lemma chunked_spec_done_local (out : S) bytes out' c :
  chunked_spec lim out bytes = (out', Ok (Some c)) -> sink_len out = 0 ->
  d_consumed_len c <= zlen bytes /\ d_consumed_len c <= max_encoded_bytes lim
  /\ d_decoded_len c = sink_len out' /\ d_decoded_len c <= max_body_bytes lim
  /\ forall bytes', ztake (d_consumed_len c) bytes' = ztake (d_consumed_len c) bytes ->
     chunked_spec lim out bytes' = (out', Ok (Some c)).
Proof using Hlim H0.
  intros Hs Hl. destruct (chunked_spec_reads lim out bytes Hlim) as (v & Hv & Hs').
  rewrite Hs in Hs'. destruct v as [r ? ?|out1 c1|]; simpl in Hs';
    [by case_match|simplify_eq|done].
  apply reads_done_local in Hv as (used & t & Hu & Hc & Hd & Hb & Ht);
    [|by apply reader_new_wf|done].
  change (r_consumed reader_new) with 0 in Hc. rewrite Z.add_0_l in Hc.
  assert (zlen used + zlen t = zlen (ztake (max_encoded_bytes lim) bytes)) as Hlen
    by (rewrite Hu; zl).
  rewrite zlen_take in Hlen by apply Hlim. zlen_facts.
  assert (ztake (zlen used) bytes = used) as Hused.
  { trans (ztake (zlen used) (ztake (max_encoded_bytes lim) bytes));
      [rewrite ztake_take; f_equal; lia|rewrite Hu; apply ztake_app_exact]. }
  repeat split; try lia. intros bytes' Hb'. rewrite Hc, Hused in Hb'.
  rewrite <-(ztake_drop (zlen used) bytes'), Hb'.
  rewrite (chunked_spec_of_reads _ _ _ (VDone out1 c1) Hlim); [done|].
  rewrite ztake_app_ge by lia. apply Ht.
Qed.
End Boundary.

(** where a body ends.  When the decoder reports a complete body, the
    consumed length lies within what was received and within the encoded
    limit, the decoded length is what the sink received and within the body
    limit, and the outcome depends on the consumed bytes alone: any other
    input that starts with them, cut anywhere, completes with the same result.
    Bytes of a pipelined request can thus neither change a body nor be taken
    as part of it. *)
Theorem chunked_body_boundary {S : Type} `{Http1ChunkSinkLaws S} (lim : Http1ChunkLimits)
    (out out' : S) (fragments : list (list Z)) (c : Http1ChunkedDecode) :
  chunk_limits_wf lim -> sink_len out = 0 ->
  outcome_view (feed (decoder_new lim) out fragments) = Some (out', Ok (Some c)) ->
  d_consumed_len c <= zlen (concat fragments) /\ d_consumed_len c <= max_encoded_bytes lim
  /\ d_decoded_len c = sink_len out' /\ d_decoded_len c <= max_body_bytes lim
  /\ forall fragments',
     ztake (d_consumed_len c) (concat fragments') = ztake (d_consumed_len c) (concat fragments) ->
     outcome_view (feed (decoder_new lim) out fragments') = Some (out', Ok (Some c)).
Proof.
  intros Hlim Hl. rewrite feed_chunked_spec by done. intros [= Hs].
  destruct (chunked_spec_done_local lim Hlim _ _ _ _ Hs Hl) as (? & ? & ? & ? & Hrest).
  repeat split; try done. intros fragments' Hf. rewrite feed_chunked_spec by done.
  f_equal. by apply Hrest.
Qed.
Lemma chunked_body_boundary_witness :
  outcome_view (feed (decoder_new sample_limits) ([] : list Z)
    [bs "1" ++ crlf; bs "z" ++ crlf ++ bs "0" ++ crlf ++ crlf ++ bs "SMUGGLED"])
  = Some (bs "z", Ok (Some (mkDecode 1 11))).
Proof.
  apply (chunked_body_boundary sample_limits ([] : list Z) (bs "z")
    [bs "1" ++ crlf ++ bs "z" ++ crlf ++ bs "0" ++ crlf ++ crlf] (mkDecode 1 11)).
  - apply sample_limits_wf.
  - reflexivity.
  - vm_compute. reflexivity.
  - vm_compute. reflexivity.
Defined.

(** ** Buffered bytes *)

Section Buffered.
Context {S : Type} `{Http1ChunkSinkLaws S}.
Context (lim : Http1ChunkLimits) (Hlim : chunk_limits_wf lim).

(** Consumed bytes are kept only below the compaction threshold, up to half
    of the buffer, or on the line of the current chunk. *)
Definition slack (d : Http1ChunkedDecoder) : Prop :=
  limits d = lim /\ exists o,
    o <= input_offset d <= o + match state d with Size => 0 | _ => max_chunk_line_bytes lim + 2 end
    /\ (o < HTTP1_CHUNK_COMPACT_THRESHOLD_BYTES \/ 2 * o <= zlen (input d)).

Lemma compact_consumed_slack d d' :
  limits d = lim -> state d = Size -> compact_consumed d = Ok d' -> slack d'.
Proof.
  intros Hl Hst Hc. unfold compact_consumed in Hc. branch Hc.
  { breflect. split; [done|]. exists 0. rewrite E, Hst.
    unfold HTTP1_CHUNK_COMPACT_THRESHOLD_BYTES. lia. }
  branch Hc.
  { apply andb_true_iff in E0 as [_ E0]. split; [done|]. exists (input_offset d').
    rewrite Hst. split; [lia|].
    apply orb_true_iff in E0 as [E0|E0]; breflect; [by left|right].
    pose proof (Z.mul_div_le (zlen (input d')) 2 ltac:(lia)). lia. }
  destruct (checked_add _ _ _); simplify_eq/=. split; [done|]. exists 0. simpl.
  rewrite Hst. unfold HTTP1_CHUNK_COMPACT_THRESHOLD_BYTES. lia.
Qed.

Lemma process_size_moves d (out : S) :
  match process_size d out with
  | Continue d' _ =>
      limits d' = limits d /\ input d' = input d /\ state d' <> Size
      /\ input_offset d <= input_offset d'
         <= input_offset d + max_chunk_line_bytes (limits d) + 2
  | Stop (Returned d' _ (Ok None)) =>
      limits d' = limits d /\ input d' = input d /\ state d' = state d
      /\ input_offset d' = input_offset d
  | _ => True
  end.
Proof.
  unfold process_size. destruct (find_crlf _ _) as [e|].
  2: by destruct (zslice _ _ _); [|done]; destruct (_ <? _).
  destruct (zslice _ _ _) as [line|] eqn:Hs; [|done].
  apply zslice_Some in Hs as (Ha & Hb & ->).
  rewrite zlen_take, zlen_drop by lia.
  destruct (Z.ltb_spec (max_chunk_line_bytes (limits d))
    (Z.min (e - input_offset d) (Z.max 0 (zlen (input d) - input_offset d)))); [done|].
  destruct (checked_add _ (chunk_count d) 1); [|done]. simpl.
  destruct (max_chunk_count _ <? _); [done|].
  destruct (parse_chunk_size_line _ _) as [[size ext]|]; [|done].
  destruct (checked_add _ (extension_bytes d) ext); [|done]. simpl.
  destruct (max_chunk_extension_bytes _ <? _); [done|].
  destruct (checked_add _ e 2) as [off|] eqn:Ho; [|done].
  apply checked_add_Some in Ho as [_ ->]. simpl. repeat split; try lia. by case_match.
Qed.

Lemma process_iteration_slack d (out : S) :
  slack d ->
  match process_iteration d out with
  | Continue d' _ | Stop (Returned d' _ (Ok None)) => slack d'
  | _ => True
  end.
Proof.
  intros Hd. unfold process_iteration. destruct (state d) as [|n|] eqn:Hst.
  - pose proof (process_size_moves d out) as Hm. destruct Hd as [Hl (o & Ho & Hor)].
    rewrite Hst in Ho.
    destruct (process_size d out) as [d' out'|[d' out' [[]|]| |]]; try done.
    + destruct Hm as (Hl' & Hi & Hs & Hoff). split; [congruence|]. exists o. rewrite Hi, <-Hl.
      split; [|done]. destruct (state d'); [done|lia..].
    + destruct Hm as (Hl' & Hi & Hs & Hoff). split; [congruence|]. exists o.
      by rewrite Hi, Hs, Hst, Hoff.
  - unfold process_data. repeat case_match; simplify_eq/=; try done.
    match goal with Hc : compact_consumed _ = Ok _ |- _ =>
      apply compact_consumed_slack in Hc; [done|apply Hd|done] end.
  - unfold process_end. by repeat case_match; simplify_eq/=.
Qed.

Lemma process_loop_slack fuel d (out : S) d' out' :
  slack d -> process_loop fuel d out = Returned d' out' (Ok None) -> slack d'.
Proof.
  revert d out. induction fuel as [|fuel IH]; intros d out Hd; simpl; [done|].
  pose proof (process_iteration_slack d out Hd) as Hi.
  destruct (process_iteration d out); [by apply IH|]. by intros ->.
Qed.

Lemma receive_slack d fragment received : slack d -> slack (receive d fragment received).
Proof.
  intros [Hl (o & Ho & Hor)]. split; [done|]. exists o. split; [done|].
  destruct Hor; [by left|right]. simpl. zl.
Qed.

Lemma push_loop_slack fuel d (out : S) chunk d' out' :
  slack d -> push_loop fuel d out chunk = Returned d' out' (Ok None) -> slack d'.
Proof.
  revert d out chunk. induction fuel as [|fuel IH]; intros d out chunk Hd.
  all: destruct chunk as [|x chunk]; [by intros [= <- _]|]; try done.
  rewrite push_loop_step by done. cbv zeta. case_match; [done|].
  destruct (checked_add _ _ _) as [received|]; [|done].
  destruct (process _ _) as [d1 out1 [[]|]| |] eqn:Hp; try done.
  apply IH. eapply process_loop_slack; [|exact Hp]. by apply receive_slack.
Qed.

Lemma feed_slack fragments d (out : S) d' out' :
  slack d -> feed d out fragments = Returned d' out' (Ok None) -> slack d'.
Proof.
  revert d out. induction fragments as [|f fs IH]; intros d out Hd; simpl; [by intros [= <- _]|].
  destruct (push_to d out f) as [d1 out1 [[]|]| |] eqn:Hp; try done. apply IH.
  unfold push_to, push_with_sink in Hp. do 2 (case_match; [done|]).
  destruct f; [by eapply process_loop_slack|by eapply push_loop_slack].
Qed.

Lemma decoder_new_slack : slack (decoder_new lim).
Proof. split; [done|]. exists 0. simpl. unfold HTTP1_CHUNK_COMPACT_THRESHOLD_BYTES. lia. Qed.

(** How much a decoder that waits for input has not consumed. *)
Lemma waiting_unread d (out : S) :
  waiting lim d out ->
  match state d with
  | Size => zlen (unread d) <= max_chunk_line_bytes lim + 1
  | Data n => zlen (unread d) < n + 2
  | End => zlen (unread d) < 2
  end.
Proof.
  unfold waiting, read_step. simpl. destruct (state d) as [|n|].
  - unfold read_size. destruct (next_line _) as [[]|]; [by repeat case_match|].
    destruct (Z.ltb_spec (max_chunk_line_bytes lim)
      (zlen (unread d) - (if bool_decide (last (unread d) = Some CR) then 1 else 0)));
      [done|]. case_bool_decide; lia.
  - unfold read_data. destruct (Z.ltb_spec (zlen (unread d)) (n + 2)); [done|].
    by repeat case_match.
  - unfold read_end. destruct (Z.ltb_spec (zlen (unread d)) 2); [done|]. by repeat case_match.
Qed.

Lemma buffered_bound d (out : S) :
  decoder_inv lim d -> waiting lim d out -> slack d ->
  buffered_len d <= HTTP1_CHUNK_COMPACT_THRESHOLD_BYTES
                    + 2 * (max_chunk_line_bytes lim + max_chunk_size lim + 3).
Proof using Hlim.
  intros Hd Hw%waiting_unread [_ (o & Ho & Hor)]. pose proof (unread_zlen lim d Hd) as Hu.
  pose proof (di_reader _ _ Hd) as [Hr _]. simpl in Hr.
  unfold buffered_len, HTTP1_CHUNK_COMPACT_THRESHOLD_BYTES in *.
  destruct Hlim as (? & _ & _ & ? & _). destruct (state d); lia.
Qed.
End Buffered.

(** Memory.  Between two pushes, however many bytes went through it, the
    decoder holds no more than the compaction threshold plus twice one chunk
    and its size line. *)
Theorem buffered_len_bounded {S : Type} `{Http1ChunkSinkLaws S} (lim : Http1ChunkLimits)
    (out out' : S) (fragments : list (list Z)) (d : Http1ChunkedDecoder) :
  chunk_limits_wf lim -> sink_len out = 0 ->
  feed (decoder_new lim) out fragments = Returned d out' (Ok None) ->
  buffered_len d <= HTTP1_CHUNK_COMPACT_THRESHOLD_BYTES
                    + 2 * (max_chunk_line_bytes lim + max_chunk_size lim + 3).
Proof.
  intros Hlim Hl Hf.
  apply feed_slack with (lim := lim) in Hf as Hs; [|by apply decoder_new_slack].
  destruct (feed_sim lim Hlim fragments (decoder_new lim) out (decoder_new_inv lim Hlim))
    as (v & Hv & Hsh); [by apply waiting_new|done|].
  rewrite Hf in Hsh. destruct (cut _ _ v) as [r1 out1 rest1| |] eqn:Hc; simpl in Hsh.
  - destruct Hsh as (d1 & [= <- <-] & Hd & Ha & Hu & _).
    apply (buffered_bound lim Hlim d out'); [done| |done].
    assert (v = VNeed r1 out' rest1) as -> by (destruct v; simpl in Hc; [case_match|..]; congruence).
    unfold waiting. rewrite Ha, Hu. by eapply reads_VNeed.
  - by destruct Hsh as (? & ? & ?).
  - by destruct Hsh as (? & ?).
Qed.
Lemma buffered_len_bounded_witness :
  exists d, feed (decoder_new sample_limits) ([] : list Z) [bs "1" ++ crlf; bs "z"]
            = Returned d [] (Ok None) /\ buffered_len d <= 4096 + 2 * (32 + 64 + 3).
Proof.
  eexists. split; [vm_compute; reflexivity|].
  apply (buffered_len_bounded sample_limits ([] : list Z) [] [bs "1" ++ crlf; bs "z"]).
  - apply sample_limits_wf.
  - reflexivity.
  - vm_compute. reflexivity.
Defined.
