(* ===== verification/Http1HeadProps.v ===== *)
(** * Properties of HTTP/1 heads

    The incremental head buffer against one-shot parsing, what an accepted head
    is, body framing, the effective authority, and the request-head round trip. *)
From Stdlib Require Import ZArith Lia.
From stdpp Require Import base list numbers strings sets gmap.
From S2P Require Import Prelude Text NetAddr Http1Target Http1Head.

(** ** The end of a head *)

(** The length of the head at the start of [input]: up to and including the
    first empty line, wherever it is. *)
Definition head_end (input : list Z) : option Z :=
  (fun i => i + 4) <$> find_head_end input (length input).

Lemma find_head_end_bound input budget i :
  find_head_end input budget = Some i ->
  0 <= i < Z.of_nat budget /\ exists l r, input = l ++ crlf ++ crlf ++ r /\ zlen l = i.
Proof.
  revert input i. induction budget as [|budget IH]; intros input i; cbn [find_head_end]; [done|].
  destruct (strip_prefix _ input) as [r|] eqn:E.
  - intros [= <-]. split; [lia|]. apply strip_prefix_Some in E as ->. exists [], r. split; reflexivity.
  - destruct input as [|x input]; [done|].
    destruct (find_head_end input budget) as [j|] eqn:Ej; [|done]. intros [= <-].
    destruct (IH _ _ Ej) as (Hj & l & r & -> & <-). split; [lia|].
    exists (x :: l), r. split; [done|]. rewrite zlen_cons. lia.
Qed.

(** A smaller search budget only loses matches past it. *)
Lemma find_head_end_budget input b1 b2 :
  (b1 <= b2)%nat ->
  find_head_end input b1 =
  match find_head_end input b2 with
  | Some i => if i <? Z.of_nat b1 then Some i else None
  | None => None
  end.
Proof.
  revert input b2. induction b1 as [|b1 IH]; intros input b2 Hb.
  - destruct (find_head_end input b2) as [i|] eqn:E; [|done].
    apply find_head_end_bound in E as [? _]. by rewrite (proj2 (Z.ltb_ge _ _)) by lia.
  - destruct b2 as [|b2]; [lia|]. cbn [find_head_end].
    destruct (strip_prefix _ input); [by rewrite (proj2 (Z.ltb_lt _ _)) by lia|].
    destruct input as [|x input]; [done|]. rewrite (IH input b2) by lia.
    destruct (find_head_end input b2) as [i|]; [|done]. simpl.
    destruct (Z.ltb_spec i (Z.of_nat b1)), (Z.ltb_spec (i + 1) (Z.of_nat (S b1)));
      done || lia.
Qed.

Lemma head_end_bound input n :
  head_end input = Some n ->
  4 <= n <= zlen input /\ exists l r, input = l ++ crlf ++ crlf ++ r /\ zlen l = n - 4.
Proof.
  unfold head_end. destruct (find_head_end _ _) as [i|] eqn:E; [|done]. intros [= <-].
  apply find_head_end_bound in E as (? & l & r & -> & <-). split.
  - split; [zlen_facts; lia|]. unfold crlf. zl.
  - exists l, r. split; [done|lia].
Qed.

(** [complete_head_len] looks no further than the limit needs, and finds the
    first empty line exactly when the head is within the limit. *)
Lemma complete_head_len_spec input max :
  0 <= max -> max + 4 <= USIZE_MAX ->
  complete_head_len input max =
  match head_end input with
  | Some n => if max <? n then Err HeadTooLarge else Ok (Some n)
  | None => if max <? zlen input then Err HeadTooLarge else Ok None
  end.
Proof.
  intros H0 Hmax. unfold complete_head_len. rewrite saturating_add_exact by done.
  set (b := Z.to_nat _).
  assert (Z.of_nat b = Z.max 0 (Z.min (zlen input) (max + 4) - 3)) as Hb
    by (unfold b, saturating_sub; lia).
  rewrite (find_head_end_budget input b (length input)) by (unfold zlen in Hb; lia).
  pose proof (head_end_bound input) as Hr. unfold head_end in *.
  destruct (find_head_end input (length input)) as [i|]; [|done]. simpl in *.
  destruct (Hr _ eq_refl) as [Hi _].
  destruct (Z.ltb_spec i (Z.of_nat b)); [done|].
  destruct (Z.ltb_spec max (i + 4)), (Z.ltb_spec max (zlen input)); done || lia.
Qed.

(** *** More input does not change a head that was complete *)

Lemma strip_prefix_long p s more :
  zlen p <= zlen s ->
  strip_prefix p (s ++ more) = (fun r => r ++ more) <$> strip_prefix p s.
Proof.
  revert s. induction p as [|x p IH]; intros [|y s] Hl; simpl; [done..| |].
  { exfalso. rewrite zlen_cons, zlen_nil in Hl. zlen_facts. lia. }
  destruct (x =? y); [|done]. apply IH. rewrite !zlen_cons in Hl. lia.
Qed.

Lemma find_head_end_app input more b i :
  find_head_end input b = Some i -> find_head_end (input ++ more) b = Some i.
Proof.
  revert input i. induction b as [|b IH]; intros input i Hf; [done|].
  apply find_head_end_bound in Hf as Hi. destruct Hi as (Hi & l & r & Hinput & Hl).
  assert (zlen (crlf ++ crlf) <= zlen input) as Hlen
    by (rewrite Hinput, !zlen_app; unfold crlf; zl).
  cbn [find_head_end] in *. rewrite strip_prefix_long by done.
  destruct (strip_prefix (crlf ++ crlf) input) as [t|] eqn:E; [done|]. simpl.
  destruct input as [|x input]; [done|]. simpl.
  destruct (find_head_end input b) as [j|] eqn:Ej; [|done]. by rewrite (IH _ _ Ej).
Qed.

Lemma head_end_app input more n : head_end input = Some n -> head_end (input ++ more) = Some n.
Proof.
  unfold head_end. destruct (find_head_end input _) as [i|] eqn:E; [|done]. intros [= <-].
  apply find_head_end_bound in E as Hb. apply (find_head_end_app _ more) in E.
  rewrite (find_head_end_budget _ _ (length (input ++ more))) in E
    by (rewrite length_app; lia).
  destruct (find_head_end (input ++ more) (length (input ++ more))) as [j|]; [|done].
  simpl. by destruct (j <? _); simplify_eq.
Qed.
(** A head that ends within a prefix is the head of the prefix. *)
Lemma head_end_prefix input more n :
  head_end (input ++ more) = Some n -> n <= zlen input -> head_end input = Some n.
Proof.
  intros He Hn. apply head_end_bound in He as Hb. destruct Hb as (Hr & l & r & Hs & Hl).
  assert (ztake n input = l ++ crlf ++ crlf) as Hp.
  { rewrite <-(ztake_app_le n input more), Hs by done.
    replace n with (zlen (l ++ crlf ++ crlf)) by (rewrite !zlen_app; unfold crlf; zl).
    rewrite (app_assoc crlf crlf r), (app_assoc l (crlf ++ crlf) r). apply ztake_app_exact. }
  assert (exists r', input = l ++ crlf ++ crlf ++ r') as [r' ->].
  { exists (zdrop n input). rewrite <-(ztake_drop n input) at 1.
    rewrite Hp. by rewrite <-!app_assoc. }
  destruct (head_end (l ++ crlf ++ crlf ++ r')) as [m|] eqn:Em.
  - apply (head_end_app _ more) in Em. congruence.
  - exfalso. clear -Em. unfold head_end in Em.
    destruct (find_head_end _ _) eqn:E; [done|]. clear Em.
    induction l as [|x l IH]; [done|].
    cbn [find_head_end app length] in E. apply IH. destruct (strip_prefix _ _); [done|].
    by destruct (find_head_end _ _).
Qed.

Lemma parse_http1_request_head_raw_found input limits n :
  head_end input = Some n -> n <= max_head_bytes limits ->
  0 <= max_head_bytes limits -> max_head_bytes limits + 4 <= USIZE_MAX ->
  forall input', head_end input' = Some n -> ztake n input' = ztake n input ->
  parse_http1_request_head input' limits = parse_http1_request_head input limits.
Proof.
  intros Hn Hmax H0 Hu input' Hn' Ht.
  unfold parse_http1_request_head, parse_http1_request_head_raw.
  rewrite !complete_head_len_spec, Hn, Hn' by done. zcond. simpl. by rewrite Ht.
Qed.

(** ** The head buffer *)

(** A caller's read loop: append fragments until the buffer answers. *)
Fixpoint append_all (buf : Http1HeadBuffer) (fragments : list (list Z))
    : Http1HeadBuffer * result (option ValidatedHttp1RequestHead) Http1ParseError :=
  match fragments with
  | [] => (buf, Ok None)
  | fragment :: rest =>
      match head_buffer_append buf fragment with
      | (buf, Ok None) => append_all buf rest
      | answer => answer
      end
  end.

Definition head_limits_wf (limits : Http1HeadLimits) : Prop :=
  0 <= max_head_bytes limits /\ max_head_bytes limits + 4 <= USIZE_MAX.

Section HeadBuffer.
Context (limits : Http1HeadLimits) (Hlim : head_limits_wf limits).

Lemma parse_none_iff input :
  zlen input <= max_head_bytes limits ->
  parse_http1_request_head input limits = Ok None <-> head_end input = None.
Proof using Hlim.
  intros Hl. destruct Hlim.
  unfold parse_http1_request_head, parse_http1_request_head_raw.
  rewrite complete_head_len_spec by done. destruct (head_end input) as [n|] eqn:E.
  - apply head_end_bound in E as [? _]. zcond. simpl. split; [|done].
    destruct (negb _); [done|]. destruct (split_crlf _) as [|sl ls]; [done|].
    destruct (_ <? _); [done|]. destruct (parse_request_line sl) as [[[m t] v]|]; [|done].
    simpl. destruct (parse_header_lines _ _ _); [|done]. simpl.
    by destruct (validate_message _).
  - by zcond.
Qed.

(** A buffer that still waits holds everything it was given: it is within
    the limit and has no complete head. *)
Definition buffer_waiting (buf : Http1HeadBuffer) (given : list Z) : Prop :=
  hb_limits buf = limits /\ hb_bytes buf = given
  /\ zlen given <= max_head_bytes limits /\ head_end given = None.

Lemma parse_app_found given more n :
  head_end given = Some n -> zlen given <= max_head_bytes limits ->
  parse_http1_request_head (given ++ more) limits = parse_http1_request_head given limits.
Proof using Hlim.
  intros Hn Hl. destruct Hlim. apply head_end_bound in Hn as Hb. destruct Hb as [Hb _].
  apply (parse_http1_request_head_raw_found given limits n); try done; [lia|by apply head_end_app|].
  by rewrite ztake_app_le by lia.
Qed.

Lemma parse_too_large given more :
  head_end given = None -> max_head_bytes limits = zlen given -> more <> [] ->
  parse_http1_request_head (given ++ more) limits = Err HeadTooLarge.
Proof using Hlim.
  intros Hn Hl Hm. destruct Hlim.
  assert (0 < zlen more) by (destruct more; [done|zl]).
  unfold parse_http1_request_head, parse_http1_request_head_raw.
  rewrite complete_head_len_spec by done.
  destruct (head_end (given ++ more)) as [n|] eqn:E.
  - destruct (Z.ltb_spec (max_head_bytes limits) n); [done|].
    rewrite (head_end_prefix _ _ _ E) in Hn by lia. done.
  - rewrite zlen_app. by zcond.
Qed.

Lemma append_waiting buf given chunk :
  buffer_waiting buf given ->
  (exists buf', head_buffer_append buf chunk = (buf', Ok None)
     /\ buffer_waiting buf' (given ++ chunk))
  \/ (exists buf' r, head_buffer_append buf chunk = (buf', r) /\ r <> Ok None
     /\ forall more, parse_http1_request_head (given ++ chunk ++ more) limits = r).
Proof using Hlim.
  intros (Hl & Hg & Hle & Hn). unfold head_buffer_append.
  rewrite Hl, Hg. zcond. cbv zeta. rewrite saturating_sub_exact by done.
  set (k := Z.min _ _). set (fed := given ++ ztake k chunk).
  assert (zlen fed <= max_head_bytes limits) as Hf.
  { unfold fed, k. rewrite zlen_app, zlen_take; zlen_facts; lia. }
  assert (forall more, given ++ chunk ++ more = fed ++ zdrop k chunk ++ more) as Happ.
  { intros. unfold fed. rewrite <-app_assoc. f_equal. rewrite app_assoc. by rewrite ztake_drop. }
  destruct (head_end fed) as [n|] eqn:En.
  - right. pose proof (proj1 (parse_none_iff fed Hf)) as Hnone.
    assert (parse_http1_request_head fed limits <> Ok None) as Hne
      by (intros Heq%Hnone; congruence).
    eexists _, (parse_http1_request_head fed limits). split.
    { f_equal. by destruct (parse_http1_request_head fed limits) as [[]|]. }
    split; [done|]. intros more. rewrite Happ. by eapply parse_app_found.
  - rewrite (proj2 (parse_none_iff fed Hf) En).
    destruct (Z.ltb_spec (max_head_bytes limits - zlen given) (zlen chunk)) as [Hlt|Hge]; simpl.
    + right. eexists _, _. split; [done|]. split; [done|]. intros more. rewrite Happ.
      assert (0 <= k < zlen chunk /\ zlen given + k = max_head_bytes limits) as [Hk Hgk]
        by (unfold k; zlen_facts; lia).
      apply parse_too_large; [done| |].
      * unfold fed. rewrite zlen_app, zlen_take by lia. lia.
      * intros He%(f_equal zlen). rewrite zlen_app, zlen_drop in He by lia. zl.
    + left. zcond. eexists. split; [done|].
      assert (k = zlen chunk) as Hk by (unfold k; lia).
      unfold fed in *. rewrite Hk, (ztake_ge (zlen chunk)) in * by lia.
      repeat split; done.
Qed.

Lemma append_all_waiting fragments buf given :
  buffer_waiting buf given ->
  snd (append_all buf fragments) = parse_http1_request_head (given ++ concat fragments) limits.
Proof using Hlim.
  revert buf given. induction fragments as [|f fs IH]; intros buf given Hw; simpl.
  - rewrite app_nil_r. destruct Hw as (_ & _ & Hl & Hn). by rewrite (proj2 (parse_none_iff _ Hl)).
  - destruct (append_waiting buf given f Hw) as [(buf' & -> & Hw')|(buf' & r & -> & Hr & Hp)].
    + rewrite (IH _ _ Hw'), <-app_assoc. done.
    + rewrite (Hp (concat fs)). by destruct r as [[]|].
Qed.
End HeadBuffer.

(** the head buffer is transparent.  Appending a request head to a fresh
    buffer in any fragments gives exactly the answer of parsing all the bytes
    at once, errors included: it does not depend on how reads split the head,
    nor on the bytes that follow it. *)
Theorem append_all_parse (limits : Http1HeadLimits) (fragments : list (list Z)) :
  head_limits_wf limits ->
  snd (append_all (head_buffer_new limits) fragments)
  = parse_http1_request_head (concat fragments) limits.
Proof.
  intros Hlim. apply (append_all_waiting limits Hlim fragments _ []).
  split; [done|]. split; [done|]. split; [apply Hlim|done].
Qed.
Definition sample_head_limits : Http1HeadLimits := mkHttp1HeadLimits 256 8 64 64.
Lemma sample_head_limits_wf : head_limits_wf sample_head_limits.
Proof. split; vm_compute; discriminate. Qed.
Lemma append_all_parse_witness :
  result_ok (snd (append_all (head_buffer_new sample_head_limits)
    [bs "GET /a HTTP/1.1" ++ crlf ++ bs "Host: x"; crlf ++ [CR]; [LF] ++ bs "body"]))
  <> Some None.
Proof.
  rewrite (append_all_parse sample_head_limits) by apply sample_head_limits_wf.
  vm_compute. discriminate.
Defined.

(** ** Body framing *)

(** The values of the headers of a given name. *)
Definition header_values (name : list Z) (headers : list Http1Header) : list (list Z) :=
  h_value <$> List.filter (fun h => eq_ignore_ascii_case (h_name h) name) headers.

Lemma header_values_cons name h headers :
  header_values name (h :: headers) =
  if eq_ignore_ascii_case (h_name h) name then h_value h :: header_values name headers
  else header_values name headers.
Proof. unfold header_values. simpl. by case_match. Qed.

Definition CL : list Z := bs "content-length".
Definition TE : list Z := bs "transfer-encoding".
Lemma CL_not_TE : to_ascii_lowercase CL <> to_ascii_lowercase TE.
Proof. vm_compute. discriminate. Qed.

(** The transfer coding accepted: [chunked] alone. *)
Lemma parse_codings_count n chunked pieces r :
  0 <= n <= USIZE_MAX -> parse_codings n chunked pieces = Ok r ->
  r.1 = Z.min USIZE_MAX (n + zlen pieces).
Proof.
  revert n chunked. induction pieces as [|p ps IH]; intros n chunked Hn; cbn [parse_codings].
  - intros [= <-]. simpl. zl.
  - case_match; [done|]. intros ->%IH; [|ulia]. rewrite zlen_cons. zlen_facts. ulia.
Qed.

Lemma chunked_token s :
  eq_ignore_ascii_case s (bs "chunked") = true -> http_token_valid s = true /\ ~ 44 ∈ s.
Proof.
  intros He%eq_ignore_ascii_case_true. split.
  - by rewrite <-http_token_valid_lowercase, He.
  - intros Hin. apply (list_elem_of_fmap_2 to_ascii_lowercase1) in Hin.
    change (to_ascii_lowercase1 <$> s) with (to_ascii_lowercase s) in Hin. rewrite He in Hin.
    apply list_elem_of_In in Hin. vm_compute in Hin. naive_solver discriminate.
Qed.

Lemma parse_transfer_encoding_chunked v f :
  parse_transfer_encoding v = Ok f <->
  f = Chunked /\ eq_ignore_ascii_case (trim v) (bs "chunked") = true.
Proof.
  unfold parse_transfer_encoding. split.
  - destruct (parse_codings 0 false (split_byte 44 v)) as [[n c]|] eqn:Hp; simpl; [|done].
    apply parse_codings_count in Hp as Hn; [|ulia]. simpl in Hn.
    destruct (Z.eqb_spec n 1) as [->|]; [|done]. destruct c; simpl; [|done].
    intros [= <-]. split; [done|].
    destruct (split_byte 44 v) as [|p [|q ps]] eqn:Hs; autorewrite with zlist in Hn;
      [ulia| |zlen_facts; ulia].
    apply split_byte_single in Hs as ->. simpl in Hp. case_match; [done|]. by simplify_eq.
  - intros [-> He]. destruct (chunked_token _ He) as [Ht Hc].
    rewrite split_byte_notin by (intros Hin; apply Hc, trim_keeps; [by split|done]).
    cbn [parse_codings]. rewrite Ht, He.
    apply http_token_valid_spec in Ht as [Hne _]. by rewrite bool_decide_false.
Qed.

(** What the scan over the headers finds, from any accumulators. *)
Lemma framing_scan_Ok version headers cl te cl' te' :
  framing_scan version headers cl te = Ok (cl', te') <->
  match header_values CL headers with
  | [] => cl' = cl
  | [v] => cl = None /\ exists n, parse_content_length v = Ok n /\ cl' = Some n
  | _ => False
  end /\
  match header_values TE headers with
  | [] => te' = te
  | [v] => te = None /\ version = Http11
           /\ exists f, parse_transfer_encoding v = Ok f /\ te' = Some f
  | _ => False
  end.
Proof.
  revert cl te. induction headers as [|h headers IH]; intros cl te; [simpl; naive_solver|].
  cbn [framing_scan]. rewrite !header_values_cons. fold CL TE.
  destruct (eq_ignore_ascii_case (h_name h) CL) eqn:Ecl.
  - rewrite (eq_ignore_ascii_case_other _ _ TE CL_not_TE Ecl).
    destruct (parse_content_length (h_value h)) as [n|e] eqn:En; simpl.
    2:{ split; [done|]. destruct (header_values CL headers); naive_solver congruence. }
    destruct cl as [m|]; [split; [done|]; destruct (header_values CL headers); naive_solver|].
    rewrite IH. destruct (header_values CL headers) as [|? []]; naive_solver congruence.
  - destruct (eq_ignore_ascii_case (h_name h) TE) eqn:Ete; [|apply IH].
    case_bool_decide as Ev.
    { split; [done|]. destruct (header_values TE headers); naive_solver congruence. }
    assert (version = Http11) as -> by (by destruct version).
    destruct te as [m|]; [split; [done|]; destruct (header_values TE headers); naive_solver|].
    destruct (parse_transfer_encoding (h_value h)) as [f|e] eqn:Ef; simpl.
    2:{ split; [done|]. destruct (header_values TE headers); naive_solver congruence. }
    rewrite IH. destruct (header_values TE headers) as [|? []]; naive_solver congruence.
Qed.

(** The framing a request may have. *)
Inductive framed (version : Http1Version) (headers : list Http1Header)
    : Http1BodyFraming -> Prop :=
| framed_none :
    header_values CL headers = [] -> header_values TE headers = [] ->
    framed version headers NoBody
| framed_zero v :
    header_values CL headers = [v] -> header_values TE headers = [] ->
    parse_content_length v = Ok 0 -> framed version headers NoBody
| framed_length v n :
    header_values CL headers = [v] -> header_values TE headers = [] ->
    parse_content_length v = Ok n -> n <> 0 -> framed version headers (ContentLength n)
| framed_chunked v :
    version = Http11 -> header_values CL headers = [] -> header_values TE headers = [v] ->
    eq_ignore_ascii_case (trim v) (bs "chunked") = true ->
    framed version headers Chunked.

Lemma body_framing_framed version headers framing :
  http1_request_body_framing version headers = Ok framing <-> framed version headers framing.
Proof.
  unfold http1_request_body_framing. split.
  - destruct (framing_scan version headers None None) as [[cl te]|] eqn:Hs; simpl; [|done].
    apply framing_scan_Ok in Hs as [Hcl Hte].
    destruct (header_values CL headers) as [|v [|? ?]] eqn:Ecl; [| |done];
    destruct (header_values TE headers) as [|w [|? ?]] eqn:Ete; try done.
    + subst. intros [= <-]. by constructor.
    + subst. destruct Hte as (_ & -> & f & Hf & ->). intros [= <-].
      apply parse_transfer_encoding_chunked in Hf as [-> ?]. by econstructor.
    + subst. destruct Hcl as (_ & n & Hn & ->).
      destruct (Z.eqb_spec n 0) as [->|]; intros [= <-]; by econstructor.
    + destruct Hcl as (_ & n & Hn & ->), Hte as (_ & -> & f & Hf & ->). done.
  - intros Hf. assert (exists cl te, framing_scan version headers None None = Ok (cl, te)
      /\ match te, cl with
         | Some _, Some _ => False
         | Some f, None => f = framing
         | None, Some n => framing = if n =? 0 then NoBody else ContentLength n
         | None, None => framing = NoBody
         end) as (cl & te & -> & Hm).
    { setoid_rewrite framing_scan_Ok.
      destruct Hf as [-> ->|v -> -> Hn|v n -> -> Hn Hne|v -> -> -> He].
      - by exists None, None.
      - exists (Some 0), None. naive_solver.
      - exists (Some n), None. rewrite (proj2 (Z.eqb_neq _ _) Hne). naive_solver.
      - exists None, (Some Chunked). split; [|done]. split; [done|]. split; [done|]. split; [done|].
        exists Chunked. by rewrite parse_transfer_encoding_chunked. }
    simpl. destruct te, cl; subst; try done. by case_match.
Qed.

(** C19: body framing is unambiguous.  The framing of a request is decided
    exactly by its [Content-Length] and [Transfer-Encoding] headers, whatever
    the order and case of header names: chunked for HTTP/1.1 with no
    [Content-Length] and one [Transfer-Encoding] that is the single coding
    [chunked]; a length for one valid [Content-Length] and no
    [Transfer-Encoding]; no body when neither is there.  Everything else
    (duplicates, both, other codings, HTTP/1.0 codings) is rejected. *)
Theorem body_framing_exact (version : Http1Version) (headers : list Http1Header)
    (framing : Http1BodyFraming) :
  http1_request_body_framing version headers = Ok framing <-> framed version headers framing.
Proof. apply body_framing_framed. Qed.

(** ** Host and authority *)

Definition HOST : list Z := bs "host".

Lemma host_scan_Ok headers host r :
  host_scan headers host = Ok r <->
  match header_values HOST headers with
  | [] => r = host
  | [v] => host = None /\ validate_http1_authority (trim v) = Ok tt /\ r = Some (trim v)
  | _ => False
  end.
Proof.
  revert host. induction headers as [|h headers IH]; intros host; [simpl; naive_solver|].
  cbn [host_scan]. rewrite header_values_cons. fold HOST.
  destruct (eq_ignore_ascii_case (h_name h) HOST); [|apply IH].
  destruct host as [x|]; [split; [done|]; destruct (header_values HOST headers); naive_solver|].
  destruct (validate_http1_authority (trim (h_value h))) as [[]|] eqn:Ev; simpl.
  - rewrite IH. destruct (header_values HOST headers) as [|? []]; naive_solver congruence.
  - split; [done|]. destruct (header_values HOST headers); naive_solver congruence.
Qed.

(** The authority a request target carries. *)
Definition target_authority (t : Http1RequestTarget) : option (list Z) :=
  match t with
  | AbsoluteUri _ _ authority _ _ => authority
  | Authority raw _ => Some raw
  | Origin _ _ _ | Asterisk => None
  end.

(** The authority of a request: its target's, which a [Host] header must
    repeat, or else the one of its only [Host] header. *)
Definition authority_of (target : Http1RequestTarget) (hosts : list (list Z)) (a : list Z) : Prop :=
  validate_http1_authority a = Ok tt /\
  match target_authority target with
  | Some b => a = b /\ (hosts = [] \/ exists v, hosts = [v] /\ eq_ignore_ascii_case a (trim v) = true)
  | None => exists v, hosts = [v] /\ a = trim v
  end.

Lemma effective_authority_Ok h a :
  effective_authority h = Ok a ->
  exists target, rh_request_target h = Ok target
    /\ authority_of target (header_values HOST (rh_headers h)) a.
Proof.
  unfold effective_authority. destruct (rh_request_target h) as [t|]; simpl; [|done].
  destruct (http1_optional_host (rh_headers h)) as [host|] eqn:Eh; simpl; [|done].
  apply host_scan_Ok in Eh. intros Ha. exists t. split; [done|]. unfold authority_of.
  assert (forall authority,
    (let? _ := validate_http1_authority authority in
     if match host with
        | Some host => negb (eq_ignore_ascii_case authority host)
        | None => false
        end
     then Err ConflictingAuthority else Ok authority) = Ok a ->
    validate_http1_authority a = Ok tt /\ a = authority
    /\ (header_values HOST (rh_headers h) = [] \/
        exists v, header_values HOST (rh_headers h) = [v]
          /\ eq_ignore_ascii_case a (trim v) = true)) as Hcase.
  { intros b Hb. destruct (validate_http1_authority b) as [[]|] eqn:Ev; simpl in Hb; [|done].
    destruct (header_values HOST (rh_headers h)) as [|v [|]]; [| |done].
    - subst. simplify_eq. auto.
    - destruct Eh as (_ & _ & ->). destruct (eq_ignore_ascii_case b (trim v)) eqn:E;
        simpl in Hb; simplify_eq. naive_solver. }
  assert (ok_or host MissingHost = Ok a ->
    validate_http1_authority a = Ok tt
    /\ exists v, header_values HOST (rh_headers h) = [v] /\ a = trim v) as Hhost.
  { destruct (header_values HOST (rh_headers h)) as [|v [|]]; [by subst| |done].
    destruct Eh as (_ & ? & ->). simpl. intros [= <-]. eauto. }
  destruct t as [| ? ? [] | |]; simpl; auto. done.
Qed.

Lemma validate_authority_port_Err p e : validate_authority_port p = Err e -> e = InvalidAuthority.
Proof. unfold validate_authority_port. by repeat case_match; intros; simplify_eq. Qed.

Lemma validate_http1_authority_Err a e : validate_http1_authority a = Err e -> e = InvalidAuthority.
Proof.
  unfold validate_http1_authority. case_match; [by intros [= <-]|].
  destruct (strip_prefix [91] a) as [br|].
  - destruct (find_byte 93 br) as [close|]; cbn [ok_or]; [|by intros [= <-]].
    destruct (parse_ipv6 _); cbn [ok_or]; [|by intros [= <-]]. case_match; [done|].
    destruct (strip_prefix [58] _) as [port|]; cbn [ok_or]; [|by intros [= <-]].
    apply validate_authority_port_Err.
  - case_match; [by intros [= <-]|].
    destruct (match split_once 58 a with Some _ => _ | None => _ end) as [host port].
    case_match; [by intros [= <-]|]. destruct port as [port|]; [|done].
    destruct (validate_authority_port port) as [[]|e'] eqn:E; simpl; [done|].
    intros [= <-]. by eapply validate_authority_port_Err.
Qed.

Lemma host_scan_Err headers host e :
  host_scan headers host = Err e -> e = DuplicateHost \/ e = InvalidHost.
Proof.
  revert host. induction headers as [|h headers IH]; intros host; cbn [host_scan]; [done|].
  case_match; [|apply IH]. case_match; [intros [= <-]; auto|].
  destruct (validate_http1_authority _); simpl; [apply IH|intros [= <-]; auto].
Qed.

Lemma effective_authority_missing h target :
  rh_request_target h = Ok target -> effective_authority h = Err MissingHost ->
  header_values HOST (rh_headers h) = [] /\ target_authority target = None.
Proof.
  unfold effective_authority. intros ->. simpl.
  destruct (http1_optional_host (rh_headers h)) as [host|e] eqn:Eh; simpl;
    [|apply host_scan_Err in Eh as [-> | ->]; done].
  apply host_scan_Ok in Eh.
  assert (forall b, (let? _ := validate_http1_authority b in
     if match host with Some host => negb (eq_ignore_ascii_case b host) | None => false end
     then Err ConflictingAuthority else Ok b) <> Err MissingHost) as Hno.
  { intros b. destruct (validate_http1_authority b) as [[]|e] eqn:E; simpl; [repeat case_match; congruence|].
    apply validate_http1_authority_Err in E as ->. done. }
  assert (ok_or host MissingHost = Err MissingHost -> header_values HOST (rh_headers h) = []) as Hh.
  { destruct (header_values HOST (rh_headers h)) as [|v [|]]; [done| |done].
    by destruct Eh as (_ & _ & ->). }
  destruct target as [| ? ? [b|] | |]; simpl; auto; try done.
  all: intros Hx; by destruct (Hno _ Hx).
Qed.

(** ** Accepted heads *)

(** A header field as the parser delivers it. *)
Definition header_wf (h : Http1Header) : Prop :=
  http_token_valid (h_name h) = true /\ existsb value_byte_forbidden (h_value h) = false.

Lemma forbidden_trim s :
  existsb value_byte_forbidden s = false -> existsb value_byte_forbidden (trim s) = false.
Proof.
  intros Hs. destruct (existsb value_byte_forbidden (trim s)) eqn:E; [|done].
  apply existsb_exists in E as (c & Hin & Hc). rewrite <-Hs. symmetry. apply existsb_exists.
  exists c. split; [|done]. by apply list_elem_of_In, trim_sub, list_elem_of_In.
Qed.

Lemma http1_header_new_wf name value h : http1_header_new name value = Ok h -> header_wf h.
Proof.
  unfold http1_header_new. intros H. branches H. split; simpl; [done|].
  by apply forbidden_trim.
Qed.

Lemma parse_header_lines_wf limits lines headers headers' :
  parse_header_lines limits headers lines = Ok headers' ->
  Forall header_wf headers -> zlen headers <= Z.max 0 (max_header_count limits) ->
  Forall header_wf headers' /\ zlen headers' <= Z.max 0 (max_header_count limits).
Proof.
  revert headers. induction lines as [|l lines IH]; intros headers; cbn [parse_header_lines].
  { by intros [= <-]. }
  case_bool_decide; [by intros [= <-]|]. case_match; [done|]. case_match; [done|].
  destruct (Z.leb_spec (max_header_count limits) (zlen headers)); [done|].
  destruct (parse_header_line l) as [h|] eqn:Eh; simpl; [|done]. intros Hp Hf Hl.
  apply (IH _ Hp); [|rewrite zlen_app, zlen_cons, zlen_nil; lia].
  apply Forall_app. split; [done|]. constructor; [|done].
  unfold parse_header_line in Eh. destruct (split_once 58 l) as [[]|]; [|done].
  by eapply http1_header_new_wf.
Qed.

Definition show_version (v : Http1Version) : list Z :=
  match v with Http10 => bs "HTTP/1.0" | Http11 => bs "HTTP/1.1" end.
Lemma parse_version_show v : parse_version (show_version v) = Some v.
Proof. by destruct v. Qed.
Lemma parse_version_Some s v : parse_version s = Some v -> s = show_version v.
Proof. unfold parse_version. intros H. by branches H. Qed.

Definition request_line (method target : list Z) (version : Http1Version) : list Z :=
  method ++ [SP] ++ target ++ [SP] ++ show_version version.

Lemma parse_request_line_Ok line method target version :
  parse_request_line line = Ok (method, target, version) ->
  line = request_line method target version /\ http_token_valid method = true
  /\ exists t, http1_request_target method target = Ok t.
Proof.
  unfold parse_request_line. destruct (split_byte 32 line) as [|m [|t [|v []]]] eqn:Hs; try done.
  case_match; [done|]. case_match; [done|]. breflect.
  destruct (parse_version v) as [ver|] eqn:Ev; simpl; [|done].
  destruct (http1_request_target m t) as [rt|] eqn:Et; simpl; [|done]. intros [= <- <- <-].
  apply parse_version_Some in Ev as ->. apply split_byte_join in Hs.
  split; [|eauto]. rewrite <-Hs. simpl. unfold request_line. done.
Qed.

Lemma parse_raw_Some input limits h :
  head_limits_wf limits -> parse_http1_request_head_raw input limits = Ok (Some h) ->
  head_end input = Some (rh_head_len h) /\ rh_head_len h <= max_head_bytes limits
  /\ utf8_valid (ztake (rh_head_len h) input) = true
  /\ exists start lines, split_crlf (ztake (rh_head_len h) input) = start :: lines
     /\ zlen start <= max_start_line_bytes limits
     /\ parse_request_line start = Ok (rh_method h, rh_target h, rh_version h)
     /\ parse_header_lines limits [] lines = Ok (rh_headers h).
Proof.
  intros [? ?]. unfold parse_http1_request_head_raw. rewrite complete_head_len_spec by done.
  destruct (head_end input) as [n|] eqn:En; [|by destruct (_ <? _)].
  destruct (Z.ltb_spec (max_head_bytes limits) n); [done|]. simpl.
  destruct (utf8_valid _) eqn:Eu; simpl; [|done].
  destruct (split_crlf _) as [|start lines] eqn:Es; [done|].
  destruct (Z.ltb_spec (max_start_line_bytes limits) (zlen start)); [done|].
  destruct (parse_request_line start) as [[[m t] v]|] eqn:Er; simpl; [|done].
  destruct (parse_header_lines _ _ _) as [hs|] eqn:Eh; simpl; [|done]. intros [= <-]. simpl.
  repeat split; try done. by exists start, lines.
Qed.

Lemma parse_head_Some input limits vh :
  parse_http1_request_head input limits = Ok (Some vh) ->
  parse_http1_request_head_raw input limits = Ok (Some (vh_head vh))
  /\ validate_message (vh_head vh) = Ok (vh_validation vh).
Proof.
  unfold parse_http1_request_head.
  destruct (parse_http1_request_head_raw input limits) as [[h|]|]; simpl; [|done..].
  destruct (validate_message h) eqn:E; simpl; [|done]. by intros [= <-].
Qed.

Lemma validate_message_Ok h v :
  validate_message h = Ok v ->
  (rh_version h = Http11 -> exists host, header_values HOST (rh_headers h) = [host])
  /\ rh_request_target h = Ok (v_request_target v)
  /\ http1_request_body_framing (rh_version h) (rh_headers h) = Ok (v_body_framing v)
  /\ http1_connection_directive (rh_version h) (rh_headers h) = Ok (v_connection_directive v)
  /\ match v_effective_authority v with
     | Some a => effective_authority h = Ok a
     | None => rh_version h = Http10 /\ effective_authority h = Err MissingHost
     end.
Proof.
  unfold validate_message.
  match goal with |- match ?e with _ => _ end = _ -> _ => destruct e as [[]|] eqn:Eh end; simpl; [|done].
  destruct (rh_request_target h) as [t|] eqn:Et; simpl; [|done].
  match goal with |- match ?e with _ => _ end = _ -> _ => destruct e as [a|] eqn:Ea end; simpl; [|done].
  destruct (http1_request_body_framing _ _) as [f|]; simpl; [|done].
  destruct (http1_connection_directive _ _) as [c|]; simpl; [|done]. intros [= <-]. simpl.
  repeat split; try done.
  - intros Hv. rewrite Hv, bool_decide_true in Eh by done.
    unfold http1_required_host, http1_optional_host in Eh.
    destruct (host_scan (rh_headers h) None) as [host|] eqn:Es; simpl in Eh; [|done].
    apply host_scan_Ok in Es. destruct (header_values HOST (rh_headers h)) as [|x [|]];
      [by subst|by exists x|done].
  - destruct (effective_authority h) as [b|e]; [by simplify_eq|].
    destruct e; try done. case_bool_decide; by simplify_eq.
Qed.

Definition sample_request : list Z :=
  bs "POST /a?b HTTP/1.1" ++ crlf ++ bs "Host: x" ++ crlf ++ bs "content-length: 3" ++ crlf ++ crlf.
Definition sample_validated : ValidatedHttp1RequestHead :=
  mkValidated
    (mkRawHttp1RequestHead (bs "POST") (bs "/a?b") Http11
       [mkHttp1Header (bs "Host") (bs "x"); mkHttp1Header (bs "content-length") (bs "3")] 50)
    (mkHttp1RequestValidation (Origin (bs "/a?b") (bs "/a") (Some (bs "b"))) (ContentLength 3)
       Persistent (Some (bs "x"))).

(** C36: requests cannot smuggle a second authority.  An accepted HTTP/1.1
    request has exactly one [Host] header; the effective authority of any
    accepted request is valid, is the one of its target when the target has
    one, and a [Host] header never contradicts it (up to ASCII case); only an
    HTTP/1.0 request with neither may have none. *)
Theorem effective_authority_agrees (input : list Z) (limits : Http1HeadLimits)
    (vh : ValidatedHttp1RequestHead) :
  parse_http1_request_head input limits = Ok (Some vh) ->
  let hosts := header_values HOST (rh_headers (vh_head vh)) in
  (rh_version (vh_head vh) = Http11 -> exists host, hosts = [host])
  /\ match v_effective_authority (vh_validation vh) with
     | Some a => authority_of (v_request_target (vh_validation vh)) hosts a
     | None => rh_version (vh_head vh) = Http10 /\ hosts = []
               /\ target_authority (v_request_target (vh_validation vh)) = None
     end.
Proof.
  intros [_ Hval]%parse_head_Some.
  apply validate_message_Ok in Hval as (Hhost & Ht & _ & _ & Ha). split; [done|].
  destruct (v_effective_authority (vh_validation vh)) as [a|].
  - apply effective_authority_Ok in Ha as (t & Ht' & Ha). rewrite Ht in Ht'. by injection Ht' as <-.
  - destruct Ha as [Hv Ha]. split; [done|].
    by apply (effective_authority_missing _ _ Ht) in Ha.
Qed.
Lemma effective_authority_agrees_witness :
  authority_of (Origin (bs "/a?b") (bs "/a") (Some (bs "b"))) [bs "x"] (bs "x").
Proof.
  destruct (effective_authority_agrees (sample_request ++ bs "abc") sample_head_limits
    sample_validated) as [_ Ha]; [vm_compute; reflexivity|exact Ha].
Defined.

(** ** Round trip *)

Definition header_line (h : Http1Header) : list Z := h_name h ++ [58; SP] ++ h_value h.
Definition print_lines (lines : list (list Z)) : list Z := concat ((fun l => l ++ crlf) <$> lines).
Definition request_lines (method target : list Z) (version : Http1Version)
    (headers : list Http1Header) : list (list Z) :=
  request_line method target version :: (header_line <$> headers).
(** A request head as a client sends it. *)
Definition print_request_head (method target : list Z) (version : Http1Version)
    (headers : list Http1Header) : list Z :=
  print_lines (request_lines method target version headers) ++ crlf.

(** A header a client may send: a token, and a trimmed value of visible ASCII. *)
Definition header_printable (limits : Http1HeadLimits) (h : Http1Header) : Prop :=
  http_token_valid (h_name h) = true
  /\ Forall (fun c => c = HT \/ 32 <= c <= 126) (h_value h) /\ trimmed (h_value h)
  /\ zlen (header_line h) <= max_header_line_bytes limits.

Definition line_ok (l : list Z) : Prop :=
  l <> [] /\ (~ CR ∈ l) /\ Forall (fun c => 0 <= c < 128) l.

Lemma token_ascii s : http_token_valid s = true -> Forall (fun c => 33 <= c <= 126) s.
Proof.
  intros [_ H]%http_token_valid_spec. eapply Forall_impl; [exact H|]. simpl.
  intros c ?%token_byte_range. lia.
Qed.

Lemma line_ok_intro l :
  l <> [] -> Forall (fun c => c = HT \/ 32 <= c <= 126) l -> line_ok l.
Proof.
  intros Hne Hf. split; [done|]. split.
  - intros Hin. rewrite Forall_forall in Hf. destruct (Hf _ Hin); lia.
  - eapply Forall_impl; [exact Hf|]. simpl. intros; lia.
Qed.

Lemma http1_request_target_ascii method target t :
  http1_request_target method target = Ok t -> Forall (fun c => 0 <= c) target ->
  target <> [] /\ Forall (fun c => 33 <= c <= 126) target.
Proof.
  unfold http1_request_target. case_match eqn:E; [done|]. intros _ Hp. breflect. split; [done|].
  unfold target_has_forbidden_byte in *. breflect.
  match goal with H : is_ascii _ = true |- _ => unfold is_ascii in H; rewrite forallb_forall in H end.
  rewrite Forall_forall in Hp |- *. intros c Hc. specialize (Hp c Hc). apply list_elem_of_In in Hc.
  assert (between 0 32 c || (c =? 127) = false) as Hb.
  { destruct (_ || _) eqn:Hf; [|done].
    match goal with H : existsb _ target = false |- _ => rewrite <-H end.
    symmetry. apply existsb_exists. eauto. }
  match goal with H : forall x, In x target -> _ |- _ => specialize (H c Hc) end.
  unfold between in Hb. breflect.
  match goal with H : (_ && _) = false |- _ => apply andb_false_iff in H as [?|?] end; breflect; lia.
Qed.

Lemma parse_request_line_print method target version t :
  http_token_valid method = true -> http1_request_target method target = Ok t ->
  Forall (fun c => 0 <= c) target ->
  parse_request_line (request_line method target version) = Ok (method, target, version)
  /\ line_ok (request_line method target version).
Proof.
  intros Hm Ht Hp. destruct (http1_request_target_ascii _ _ _ Ht Hp) as [Hne Ha].
  apply token_ascii in Hm as Hma.
  assert (forall s, Forall (fun c => 33 <= c <= 126) s -> ~ 32 ∈ s) as Hsp.
  { intros s Hs Hin. rewrite Forall_forall in Hs. apply Hs in Hin. lia. }
  split.
  - unfold parse_request_line, request_line. simpl app.
    rewrite (split_byte_app 32 method), (split_byte_app 32 target) by auto.
    rewrite (split_byte_notin 32 (show_version version)) by (destruct version; by apply (bool_decide_unpack _)).
    apply http_token_valid_spec in Hm as Hmn. rewrite !bool_decide_false by naive_solver.
    rewrite Hm, parse_version_show, Ht. done.
  - apply line_ok_intro; [by destruct method|]. unfold request_line.
    rewrite !Forall_app. split_and!.
    2,4: by apply (bool_decide_unpack _).
    + eapply Forall_impl; [exact Hma|]. simpl. intros; lia.
    + eapply Forall_impl; [exact Ha|]. simpl. intros; lia.
    + destruct version; by apply (bool_decide_unpack _).
Qed.

Lemma parse_header_line_print limits h :
  header_printable limits h ->
  parse_header_line (header_line h) = Ok h /\ line_ok (header_line h)
  /\ starts_with [SP] (header_line h) = false /\ starts_with [HT] (header_line h) = false.
Proof.
  intros (Hn & Hv & Ht & _). apply token_ascii in Hn as Hna.
  assert (existsb value_byte_forbidden (SP :: h_value h) = false) as Hforb.
  { destruct (existsb _ _) eqn:E; [|done]. apply existsb_exists in E as (c & Hin & Hc).
    apply list_elem_of_In, elem_of_cons in Hin as [->|Hin]; [done|].
    rewrite Forall_forall in Hv. apply Hv in Hin. unfold value_byte_forbidden, between in Hc.
    repeat (apply orb_true_iff in Hc as [Hc|Hc]); breflect; lia. }
  split_and!.
  - unfold parse_header_line, header_line. simpl app. rewrite split_once_app.
    + unfold http1_header_new. rewrite Hn, Hforb. simpl negb. cbv iota.
      change (trim (SP :: h_value h)) with (trim (h_value h)).
      rewrite trim_trimmed by done. by destruct h.
    + apply http_token_valid_spec in Hn as [_ Hn]. intros Hin. rewrite Forall_forall in Hn.
      by apply Hn in Hin.
  - apply line_ok_intro; [by unfold header_line; destruct (h_name h)|]. unfold header_line.
    rewrite !Forall_app. split_and!; [|by apply (bool_decide_unpack _)|done].
    eapply Forall_impl; [exact Hna|]. simpl. intros; lia.
  - unfold header_line. apply http_token_valid_spec in Hn as [Hne _].
    destruct (h_name h) as [|c n]; [done|]. apply Forall_cons in Hna as [Hc _].
    apply starts_with_head_ne. lia.
  - unfold header_line. apply http_token_valid_spec in Hn as [Hne _].
    destruct (h_name h) as [|c n]; [done|]. apply Forall_cons in Hna as [Hc _].
    apply starts_with_head_ne. lia.
Qed.

Lemma parse_header_lines_print limits headers done_ rest :
  Forall (header_printable limits) headers ->
  zlen done_ + zlen headers <= max_header_count limits ->
  parse_header_lines limits done_ ((header_line <$> headers) ++ [] :: rest) = Ok (done_ ++ headers).
Proof.
  intros Hf. revert done_. induction Hf as [|h headers Hh Hf IH]; intros done_ Hl.
  - simpl. by rewrite app_nil_r.
  - destruct (parse_header_line_print _ _ Hh) as (Hp & [Hne _] & Hsp & Hht).
    rewrite fmap_cons. cbn [app parse_header_lines]. rewrite bool_decide_false by done.
    rewrite zlen_cons in Hl. zlen_facts.
    rewrite (proj2 (Z.ltb_ge _ _)) by apply Hh. rewrite Hsp, Hht. simpl orb. cbv iota.
    rewrite (proj2 (Z.leb_gt _ _)) by lia. rewrite Hp.
    rewrite IH by (rewrite zlen_app, zlen_cons, zlen_nil; lia). by rewrite <-app_assoc.
Qed.

Lemma split_crlf_print lines rest :
  Forall line_ok lines ->
  split_crlf (print_lines lines ++ rest) = lines ++ split_crlf rest.
Proof.
  induction 1 as [|l lines (_ & Hl & _) Hf IH]; [done|].
  unfold print_lines in *. rewrite fmap_cons. cbn [concat].
  rewrite <-!app_assoc, split_crlf_line by done. by rewrite IH.
Qed.

Lemma head_end_cons x s :
  head_end (x :: s) =
  match strip_prefix (crlf ++ crlf) (x :: s) with
  | Some _ => Some 4
  | None => (fun n => n + 1) <$> head_end s
  end.
Proof.
  unfold head_end. cbn [length find_head_end]. destruct (strip_prefix _ _); [done|].
  destruct (find_head_end s (length s)); simpl; [|done]. f_equal. lia.
Qed.
Lemma head_end_skip l s :
  (~ CR ∈ l) -> head_end (l ++ s) = (fun n => zlen l + n) <$> head_end s.
Proof.
  induction l as [|x l IH]; intros Hl; simpl app.
  - destruct (head_end s); [|done]. simpl. by rewrite zlen_nil.
  - apply not_elem_of_cons in Hl as [Hx Hl]. rewrite head_end_cons.
    change (crlf ++ crlf) with (CR :: [LF; CR; LF]).
    rewrite strip_prefix_head_ne by done. rewrite IH by done.
    destruct (head_end s); simpl; [|done]. f_equal. rewrite zlen_cons. lia.
Qed.

Lemma head_end_print lines rest :
  Forall line_ok lines -> lines <> [] ->
  head_end (print_lines lines ++ crlf ++ rest) = Some (zlen (print_lines lines ++ crlf)).
Proof.
  induction 1 as [|l lines (Hne & Hl & _) Hf IH]; [done|]. intros _.
  unfold print_lines in *. rewrite fmap_cons. cbn [concat]. rewrite <-!app_assoc.
  rewrite head_end_skip by done.
  destruct lines as [|l' lines'].
  - assert (head_end (crlf ++ crlf ++ rest) = Some 4) as Hh by done.
    cbn [fmap list_fmap concat app]. rewrite Hh. simpl. f_equal. rewrite !zlen_app. done.
  - specialize (IH ltac:(done)).
    set (tail := concat ((fun l => l ++ crlf) <$> l' :: lines')) in *.
    assert (exists c t, tail ++ crlf ++ rest = c :: t /\ c <> CR) as (c & t & Hct & Hc).
    { apply Forall_cons in Hf as [(Hne' & Hl' & _) _]. unfold tail. rewrite fmap_cons. cbn [concat].
      destruct l' as [|c l']; [done|]. exists c. eexists. split; [simpl; reflexivity|]. set_solver. }
    assert (head_end (crlf ++ tail ++ crlf ++ rest) = (fun n => n + 2) <$> head_end (tail ++ crlf ++ rest))
      as ->.
    { rewrite Hct. unfold crlf at 1. cbn [app]. rewrite !(head_end_cons CR), !(head_end_cons LF).
      assert (strip_prefix (crlf ++ crlf) (CR :: LF :: c :: t) = None) as ->
        by (apply (strip_prefix_head_ne CR [LF] c t); done).
      assert (strip_prefix (crlf ++ crlf) (LF :: c :: t) = None) as -> by done.
      destruct (head_end (c :: t)); simpl; [|done]. f_equal. lia. }
    rewrite IH. simpl. f_equal. rewrite !zlen_app. unfold crlf. zl.
Qed.

Lemma print_lines_ascii lines :
  Forall line_ok lines -> Forall (fun c => 0 <= c < 128) (print_lines lines).
Proof.
  induction 1 as [|l lines (_ & _ & Hl) Hf IH]; [constructor|].
  unfold print_lines. rewrite fmap_cons. cbn [concat].
  rewrite !Forall_app. split_and!; [done|by apply (bool_decide_unpack _)|done].
Qed.

(** A request head a client may send under the limits. *)
Record head_printable (limits : Http1HeadLimits) (method target : list Z)
    (version : Http1Version) (headers : list Http1Header) : Prop := {
  hp_method : http_token_valid method = true;
  hp_target : exists t, http1_request_target method target = Ok t;
  hp_target_bytes : Forall (fun c => 0 <= c) target;
  hp_headers : Forall (header_printable limits) headers;
  hp_count : zlen headers <= max_header_count limits;
  hp_start : zlen (request_line method target version) <= max_start_line_bytes limits;
  hp_head : zlen (print_request_head method target version headers) <= max_head_bytes limits;
}.

Lemma print_head_lines limits method target version headers :
  head_printable limits method target version headers ->
  parse_request_line (request_line method target version) = Ok (method, target, version)
  /\ Forall line_ok (request_lines method target version headers).
Proof.
  intros [Hm [t Ht] Hb Hh _ _ _].
  destruct (parse_request_line_print method target version t) as [Hr Hl]; try done.
  split; [done|]. constructor; [done|]. apply Forall_fmap. eapply Forall_impl; [exact Hh|].
  intros h Hp. by apply parse_header_line_print in Hp as (_ & ? & _).
Qed.

(** Request heads survive the wire.  Any method, target and headers that
    are valid and within the limits, written as a request head, are parsed back
    to themselves, with the head length written, whatever follows the head. *)
Theorem request_head_round_trip (limits : Http1HeadLimits) (method target : list Z)
    (version : Http1Version) (headers : list Http1Header) (body : list Z) :
  head_limits_wf limits -> head_printable limits method target version headers ->
  parse_http1_request_head_raw (print_request_head method target version headers ++ body) limits
  = Ok (Some (mkRawHttp1RequestHead method target version headers
                (zlen (print_request_head method target version headers)))).
Proof.
  intros [Hw Hu] Hp. destruct (print_head_lines _ _ _ _ _ Hp) as [Hr Hl].
  destruct Hp as [_ _ _ Hh Hc Hs Hm]. unfold parse_http1_request_head_raw.
  rewrite complete_head_len_spec by done. unfold print_request_head in *.
  rewrite <-(app_assoc _ crlf body), head_end_print by done. rewrite (proj2 (Z.ltb_ge _ _)) by done.
  rewrite (app_assoc _ crlf body), ztake_app_exact.
  rewrite utf8_valid_ascii by (apply Forall_app; split;
    [by apply print_lines_ascii|by apply (bool_decide_unpack _)]). simpl negb. cbv iota.
  rewrite split_crlf_print by done. change (split_crlf crlf) with [[]; @nil Z].
  unfold request_lines at 1. cbn [app]. rewrite (proj2 (Z.ltb_ge _ _)) by done.
  rewrite Hr. rewrite parse_header_lines_print by (rewrite ?zlen_nil; done || lia). done.
Qed.
Lemma request_head_round_trip_witness :
  head_printable sample_head_limits (bs "GET") (bs "/a?b") Http11
    [mkHttp1Header (bs "Host") (bs "a.example"); mkHttp1Header (bs "X-A") (bs "b c")]
  /\ result_ok (parse_http1_request_head_raw (print_request_head (bs "GET") (bs "/a?b") Http11
    [mkHttp1Header (bs "Host") (bs "a.example"); mkHttp1Header (bs "X-A") (bs "b c")] ++ bs "zz")
    sample_head_limits) <> None.
Proof.
  assert (head_printable sample_head_limits (bs "GET") (bs "/a?b") Http11
    [mkHttp1Header (bs "Host") (bs "a.example"); mkHttp1Header (bs "X-A") (bs "b c")]) as Hp.
  { split; [reflexivity|eexists; reflexivity|by apply (bool_decide_unpack _)| |by vm_compute..].
    apply Forall_cons; split; [|apply Forall_cons; split; [|by apply Forall_nil]].
    all: split; [reflexivity|]; split; [by apply (bool_decide_unpack _)|]; by vm_compute. }
  split; [exact Hp|].
  rewrite (request_head_round_trip sample_head_limits _ _ _ _ _ sample_head_limits_wf Hp).
  discriminate.
Defined.
