(* ===== verification/LbRetry.v ===== *)
(** * Retry admission ([retry_budget.rs], [retry.rs])

    The fixed-window budget shared by a pool, as a machine whose steps are the
    critical sections of concurrent requests, and the per-request sequence. *)
From Stdlib Require Import ZArith Lia.
From stdpp Require Import base list numbers strings sets relations.
From S2P Require Import Prelude Text.

(** ** The budget *)

(** [RetryBudget] with its [Window]; instants and durations in nanoseconds.
    [rb_poisoned]: a thread panicked while it held the window lock. *)
Record RetryBudget : Type := mkRetryBudget {
  rb_limit : Z;
  rb_window : Z;
  rb_started : Z;
  rb_used : Z;
  rb_poisoned : bool;
  rb_admitted : Z;
}.

Definition NANOS_PER_SEC : Z := 1000000000.

Definition retry_budget_new (limit window_secs now : Z) : RetryBudget :=
  mkRetryBudget limit (window_secs * NANOS_PER_SEC) now 0 false 0.

Definition set_window (b : RetryBudget) (started used : Z) : RetryBudget :=
  mkRetryBudget (rb_limit b) (rb_window b) started used (rb_poisoned b) (rb_admitted b).

(** [reserve_at]: the reservation's window, when admitted. *)
Definition reserve_at (b : RetryBudget) (now : Z) : option Z * RetryBudget :=
  if (rb_limit b =? 0) || (1000000 <? rb_limit b) || (rb_window b =? 0)
     || (3600 * NANOS_PER_SEC <? rb_window b)
  then (None, b)
  else if rb_poisoned b then (None, b)
  else
    let b := if rb_window b <=? saturating_sub now (rb_started b)
             then set_window b now 0 else b in
    if rb_limit b <=? rb_used b then (None, b)
    else match checked_add U32_MAX (rb_used b) 1 with
    | None => (None, b)
    | Some used => (Some (rb_started b), set_window b (rb_started b) used)
    end.

(** [RetryBudgetReservation::commit]; the reservation is then dropped without
    a window. *)
Definition reservation_commit (b : RetryBudget) : RetryBudget :=
  mkRetryBudget (rb_limit b) (rb_window b) (rb_started b) (rb_used b) (rb_poisoned b)
    (saturating_add U64_MAX (rb_admitted b) 1).

(** Dropping a reservation that still has its window. *)
Definition reservation_drop (b : RetryBudget) (window : Z) : RetryBudget :=
  if rb_poisoned b then b
  else if rb_started b =? window then set_window b (rb_started b) (saturating_sub (rb_used b) 1)
  else b.

(** ** Concurrent requests *)

(** A budget with the windows of the reservations held and of the retries
    committed so far. *)
Record budget_state : Type := mkBudgetState {
  bs_budget : RetryBudget;
  bs_held : list Z;
  bs_committed : list Z;
}.

(** One critical section of some thread.  The instant a thread read before it
    took the lock is arbitrary: instants may arrive out of order. *)
Inductive budget_step : budget_state -> budget_state -> Prop :=
| step_reserve b held committed now w b' :
    reserve_at b now = (Some w, b') ->
    budget_step (mkBudgetState b held committed) (mkBudgetState b' (w :: held) committed)
| step_deny b held committed now b' :
    reserve_at b now = (None, b') ->
    budget_step (mkBudgetState b held committed) (mkBudgetState b' held committed)
| step_commit b l w r committed :
    budget_step (mkBudgetState b (l ++ w :: r) committed)
                (mkBudgetState (reservation_commit b) (l ++ r) (w :: committed))
| step_drop b l w r committed :
    budget_step (mkBudgetState b (l ++ w :: r) committed)
                (mkBudgetState (reservation_drop b w) (l ++ r) committed)
| step_poison b held committed :
    budget_step (mkBudgetState b held committed)
      (mkBudgetState (mkRetryBudget (rb_limit b) (rb_window b) (rb_started b) (rb_used b) true
                        (rb_admitted b)) held committed).

Definition budget_reachable (limit window_secs now : Z) : budget_state -> Prop :=
  rtc budget_step (mkBudgetState (retry_budget_new limit window_secs now) [] []).

Definition count (w : Z) (l : list Z) : Z := zlen (filter (.= w) l).

Lemma count_cons w x l : count w (x :: l) = (if bool_decide (x = w) then 1 else 0) + count w l.
Proof. unfold count. rewrite filter_cons. case_decide; case_bool_decide; zl. Qed.
Lemma count_app w l k : count w (l ++ k) = count w l + count w k.
Proof. unfold count. rewrite filter_app. zl. Qed.
Lemma count_nonneg w l : 0 <= count w l.
Proof. apply zlen_nonneg. Qed.

(** No window is charged beyond the limit, and the current one exactly as often
    as it was used; no window is newer than the current one. *)
Record budget_inv (limit window : Z) (s : budget_state) : Prop := {
  bi_limit : rb_limit (bs_budget s) = limit;
  bi_window : rb_window (bs_budget s) = window;
  bi_charged : forall w, count w (bs_held s) + count w (bs_committed s) <= Z.max 0 limit;
  bi_used : rb_poisoned (bs_budget s) = false ->
    rb_used (bs_budget s) = count (rb_started (bs_budget s)) (bs_held s)
                            + count (rb_started (bs_budget s)) (bs_committed s);
  bi_past : Forall (fun w => w <= rb_started (bs_budget s)) (bs_held s ++ bs_committed s);
  bi_admitted : rb_admitted (bs_budget s) = Z.min U64_MAX (zlen (bs_committed s));
}.

Lemma count_future w l x : Forall (fun y => y <= x) l -> x < w -> count w l = 0.
Proof.
  induction 1 as [|y l Hy Hl IH]; intros Hw; [done|].
  rewrite count_cons, IH by done. case_bool_decide; lia.
Qed.

(** What a reservation attempt changes: nothing, a new window, and one use of
    the window when admitted. *)
Lemma reserve_at_window b now r b' :
  0 <= rb_limit b -> 0 <= rb_window b -> reserve_at b now = (r, b') ->
  rb_limit b' = rb_limit b /\ rb_window b' = rb_window b /\ rb_admitted b' = rb_admitted b
  /\ rb_poisoned b' = rb_poisoned b
  /\ exists started used,
     ((started = rb_started b /\ used = rb_used b)
      \/ (rb_started b + rb_window b <= started /\ rb_started b < started /\ used = 0))
     /\ rb_started b' = started
     /\ match r with
        | Some w => w = started /\ rb_used b' = used + 1 /\ used < rb_limit b /\ rb_poisoned b = false
        | None => rb_used b' = used
        end.
Proof.
  intros Hl Hw. unfold reserve_at.
  destruct (_ || _) eqn:E; [intros [= <- <-]; repeat split; eauto 10|].
  breflect. destruct (rb_poisoned b) eqn:Ep; [intros [= <- <-]; repeat split; eauto 10|].
  set (b1 := if _ <=? saturating_sub _ _ then _ else b). intros Hres.
  assert (rb_limit b1 = rb_limit b /\ rb_window b1 = rb_window b /\ rb_admitted b1 = rb_admitted b
    /\ rb_poisoned b1 = false
    /\ ((rb_started b1 = rb_started b /\ rb_used b1 = rb_used b)
        \/ (rb_started b + rb_window b <= rb_started b1 /\ rb_started b < rb_started b1
            /\ rb_used b1 = 0))) as (Hb1 & Hb2 & Hb3 & Hb4 & Hb5).
  { unfold b1. destruct (Z.leb_spec (rb_window b) (saturating_sub now (rb_started b)));
      simpl; [|auto 10]. split_and!; try done. right.
    unfold saturating_sub in *. lia. }
  clearbody b1. destruct (Z.leb_spec (rb_limit b1) (rb_used b1)).
  { injection Hres as <- <-. split_and!; try congruence. eauto 10. }
  destruct (checked_add U32_MAX (rb_used b1) 1) as [used|] eqn:Ea; injection Hres as <- <-;
    simpl; split_and!; try congruence; exists (rb_started b1), (rb_used b1); split_and!; try done.
  - by apply checked_add_Some in Ea as [_ ->].
  - lia.
Qed.

Lemma reserve_inv limit window b held committed now r b' :
  0 <= limit -> 0 <= window ->
  budget_inv limit window (mkBudgetState b held committed) -> reserve_at b now = (r, b') ->
  budget_inv limit window
    (mkBudgetState b' (match r with Some w => w :: held | None => held end) committed).
Proof.
  intros Hl Hw [HL HW HC HU HP HA] Hr. simpl in *.
  apply reserve_at_window in Hr as (H1 & H2 & H3 & H4 & st & us & Hst & H5 & H6); [|lia..].
  assert (Forall (fun w => w <= st) (held ++ committed)) as Hp.
  { eapply Forall_impl; [exact HP|]. simpl. intros; lia. }
  assert (rb_poisoned b = false -> us = count st held + count st committed) as Hu.
  { intros Hpo. specialize (HU Hpo). destruct Hst as [[-> ->]|(? & ? & ->)]; [done|].
    apply Forall_app in HP as [HP1 HP2]. rewrite !(count_future st _ _ HP1), !(count_future st _ _ HP2); lia. }
  destruct r as [w|].
  - destruct H6 as (-> & H6 & H7 & H8). specialize (Hu H8).
    split; simpl; try congruence.
    + intros w. rewrite count_cons. specialize (HC w). case_bool_decide; [subst|lia].
      lia.
    + intros _. rewrite H5, count_cons, bool_decide_true by done. lia.
    + rewrite H5. constructor; [lia|done].
  - split; simpl; try congruence.
    + intros Hpo. rewrite H4 in Hpo. rewrite H5, H6. auto.
    + by rewrite H5.
Qed.

Lemma budget_step_inv limit window s s' :
  0 <= limit -> 0 <= window ->
  budget_inv limit window s -> budget_step s s' -> budget_inv limit window s'.
Proof.
  intros Hl Hw Hinv Hs. destruct Hs as [b held com now w b' Hr|b held com now b' Hr|b l w r com
    |b l w r com|b held com].
  - by apply (reserve_inv _ _ _ _ _ _ _ _ Hl Hw Hinv) in Hr.
  - by apply (reserve_inv _ _ _ _ _ _ _ _ Hl Hw Hinv) in Hr.
  - destruct Hinv as [HL HW HC HU HP HA]; simpl in *. split; simpl; try done.
    + intros x. specialize (HC x). rewrite !count_app, !count_cons in *. lia.
    + intros Hpo. rewrite (HU Hpo), !count_app, !count_cons. lia.
    + rewrite <-app_assoc in HP. rewrite !Forall_app, !Forall_cons in *. naive_solver.
    + rewrite HA, zlen_cons. unfold saturating_add. zlen_facts. lia.
  - destruct Hinv as [HL HW HC HU HP HA]; simpl in *. unfold reservation_drop.
    assert (Forall (fun x => x <= rb_started b) ((l ++ r) ++ com)) as HP'.
    { rewrite <-app_assoc in HP |- *. rewrite !Forall_app, !Forall_cons in *. naive_solver. }
    assert (forall x, count x (l ++ r) + count x com <= Z.max 0 limit) as HC'.
    { intros x. specialize (HC x). rewrite !count_app, !count_cons in *.
      destruct (bool_decide (w = x)); lia. }
    destruct (rb_poisoned b) eqn:Ep; [by split; simpl; try congruence|].
    specialize (HU eq_refl). rewrite count_app, count_cons in HU.
    destruct (Z.eqb_spec (rb_started b) w) as [<-|Hne]; split; simpl; try congruence; intros _.
    + rewrite bool_decide_true in HU by done. rewrite HU, count_app, saturating_sub_exact; [lia|].
      pose proof (count_nonneg (rb_started b) l). pose proof (count_nonneg (rb_started b) r).
      pose proof (count_nonneg (rb_started b) com). lia.
    + rewrite bool_decide_false in HU by congruence. rewrite HU, count_app. lia.
  - destruct Hinv as [HL HW HC HU HP HA]; simpl in *. by split; simpl.
Qed.

Lemma budget_reachable_inv limit window_secs now s :
  0 <= limit -> 0 <= window_secs ->
  budget_reachable limit window_secs now s -> budget_inv limit (window_secs * NANOS_PER_SEC) s.
Proof.
  intros Hl Hw. unfold budget_reachable.
  assert (budget_inv limit (window_secs * NANOS_PER_SEC)
    (mkBudgetState (retry_budget_new limit window_secs now) [] [])) as H0.
  { split; simpl; try done. intros w. change (count w []) with 0. lia. }
  revert H0. generalize (mkBudgetState (retry_budget_new limit window_secs now) [] []).
  intros s0 H0 Hr. induction Hr as [|s0 s1 s2 Hs Hr IH]; [done|].
  apply IH. eapply budget_step_inv; [done| |done..]. unfold NANOS_PER_SEC. lia.
Qed.

(** C21: the pool-wide retry budget holds under concurrency.  However the
    critical sections of requests interleave, with instants in any order, no
    window ever has more held and committed retries together than the limit:
    a reservation dropped or committed after its window has rolled over gives
    nothing back to the new one.  The statistics counter counts the commits. *)
Theorem retry_budget_bounded (limit window_secs now : Z) (s : budget_state) (w : Z) :
  0 <= limit -> 0 <= window_secs -> budget_reachable limit window_secs now s ->
  count w (bs_held s) + count w (bs_committed s) <= limit
  /\ rb_admitted (bs_budget s) = Z.min U64_MAX (zlen (bs_committed s)).
Proof.
  intros Hl Hw Hr. destruct (budget_reachable_inv _ _ _ _ Hl Hw Hr) as [_ _ HC _ _ HA].
  specialize (HC w). split; [lia|done].
Qed.
Definition sample_budget_run : budget_state :=
  mkBudgetState
    (mkRetryBudget 1 (2 * NANOS_PER_SEC) (2 * NANOS_PER_SEC) 1 false 1)
    [0] [2 * NANOS_PER_SEC].
Lemma retry_budget_bounded_witness :
  budget_reachable 1 2 0 sample_budget_run
  /\ count 0 (bs_held sample_budget_run) + count 0 (bs_committed sample_budget_run) <= 1.
Proof.
  assert (budget_reachable 1 2 0 sample_budget_run) as Hr.
  { eapply rtc_l; [eapply (step_reserve _ _ _ 0); reflexivity|].
    eapply rtc_l; [eapply (step_reserve _ _ _ (2 * NANOS_PER_SEC)); reflexivity|].
    eapply rtc_l; [apply (step_commit _ [])|]. apply rtc_refl. }
  split; [exact Hr|]. apply (retry_budget_bounded 1 2 0 sample_budget_run 0); [lia|lia|exact Hr].
Defined.

(** ** One request's retries *)

(** The part of the pool's retry configuration a sequence reads. *)
Record RetryConfig : Type := mkRetryConfig {
  rc_enabled : bool;
  rc_max_retries : Z;
  rc_methods : list (list Z);
  rc_statuses : list Z;
  rc_status_ranges : list (Z * Z);
}.

Definition safe_method (method : list Z) : bool :=
  bool_decide (method = bs "GET") || bool_decide (method = bs "HEAD")
  || bool_decide (method = bs "OPTIONS") || bool_decide (method = bs "TRACE").

Definition retryable_status (config : RetryConfig) (status : Z) : bool :=
  between 500 599 status
  && (bool_decide (status ∈ rc_statuses config)
      || existsb (fun range => between 500 599 range.1 && between 500 599 range.2
                               && between range.1 range.2 status)
           (rc_status_ranges config)).

(** [retry_sequence]: the retries a request may still make. *)
Definition retry_sequence (config : RetryConfig) (method : list Z) (replayable : bool) : Z :=
  if replayable && rc_enabled config && (rc_max_retries config <=? 10) && safe_method method
     && existsb (fun configured => bool_decide (configured = method)) (rc_methods config)
  then rc_max_retries config else 0.

(** [LoadBalancerRetrySequence::reserve]: the budget's reservation, if any. *)
Definition sequence_reserve (config : RetryConfig) (remaining : Z) (status : option Z)
    (b : RetryBudget) (now : Z) : option Z * RetryBudget :=
  if (remaining =? 0)
     || match status with Some status => negb (retryable_status config status) | None => false end
  then (None, b)
  else reserve_at b now.

(** [LoadBalancerRetryPermit::commit] *)
Definition permit_commit (remaining : Z) (b : RetryBudget) : Z * RetryBudget :=
  (saturating_sub remaining 1, reservation_commit b).

(** The rounds of one request: after each failure it tries to reserve; a
    granted permit is committed or, with no backend left, dropped. *)
Inductive retry_rounds (config : RetryConfig) : Z -> RetryBudget -> Z -> Z -> RetryBudget -> Prop :=
| rounds_end remaining b : retry_rounds config remaining b 0 remaining b
| rounds_commit remaining b status now w b1 n remaining' b' :
    sequence_reserve config remaining status b now = (Some w, b1) ->
    retry_rounds config (permit_commit remaining b1).1 (permit_commit remaining b1).2 n remaining' b' ->
    retry_rounds config remaining b (n + 1) remaining' b'
| rounds_drop remaining b status now w b1 n remaining' b' :
    sequence_reserve config remaining status b now = (Some w, b1) ->
    retry_rounds config remaining (reservation_drop b1 w) n remaining' b' ->
    retry_rounds config remaining b n remaining' b'
| rounds_other remaining b b1 n remaining' b' :
    (* other requests of the pool *)
    retry_rounds config remaining b1 n remaining' b' ->
    retry_rounds config remaining b n remaining' b'.

Lemma retry_rounds_remaining config remaining b n remaining' b' :
  retry_rounds config remaining b n remaining' b' ->
  0 <= remaining -> 0 <= n /\ n + remaining' = remaining /\ 0 <= remaining'.
Proof.
  induction 1 as [|remaining b status now w b1 n remaining' b' Hr _ IH| |]; intros Hrem; [lia| |auto..].
  unfold sequence_reserve in Hr. destruct (Z.eqb_spec remaining 0); [done|].
  simpl in IH. unfold saturating_sub in IH. lia.
Qed.

(** One request never retries more than configured, and only when it may:
    the committed retries of a sequence are at most [max_retries], itself at
    most ten; there are none unless retries are enabled, the request is
    replayable and its method is one of the safe ones and configured. *)
Theorem retry_sequence_bounded (config : RetryConfig) (method : list Z) (replayable : bool)
    (b b' : RetryBudget) (n remaining' : Z) :
  0 <= rc_max_retries config ->
  retry_rounds config (retry_sequence config method replayable) b n remaining' b' ->
  n <= rc_max_retries config
  /\ (0 < n -> n <= 10 /\ replayable = true /\ rc_enabled config = true
       /\ safe_method method = true /\ method ∈ rc_methods config).
Proof.
  intros Hm Hr. apply retry_rounds_remaining in Hr; unfold retry_sequence in *.
  2:{ by case_match. }
  destruct (_ && _) eqn:E; [|lia]. split; [lia|]. intros _.
  apply andb_true_iff in E as [E Ex]. breflect. split_and!; try done; [lia|].
  apply existsb_exists in Ex as (m & Hin & Hm'). breflect. subst. by apply list_elem_of_In.
Qed.
Definition sample_retry : RetryConfig := mkRetryConfig true 2 [bs "GET"] [503] [].
Lemma retry_sequence_bounded_witness :
  exists b', retry_rounds sample_retry (retry_sequence sample_retry (bs "GET") true)
    (retry_budget_new 5 60 0) 1 1 b' /\ 1 <= rc_max_retries sample_retry.
Proof.
  exists (reservation_commit (reserve_at (retry_budget_new 5 60 0) 1).2).
  assert (retry_rounds sample_retry (retry_sequence sample_retry (bs "GET") true)
    (retry_budget_new 5 60 0) 1 1
    (reservation_commit (reserve_at (retry_budget_new 5 60 0) 1).2)) as Hr.
  { change 1 with (0 + 1) at 1. eapply (rounds_commit _ _ _ (Some 503) 1); [reflexivity|].
    apply rounds_end. }
  split; [exact Hr|].
  refine (proj1 (retry_sequence_bounded sample_retry (bs "GET") true _ _ _ _ _ Hr)). by vm_compute.
Defined.
