(* ===== verification/LbBackend.v ===== *)
(** * Backends of a pool ([backend_model.rs], [backend.rs], [backend/state.rs],
    [key.rs], [selection_hash.rs])

    A pool's backends are a [BTreeSet], here a strictly sorted list; their
    health records are shared cells, so that a task that still holds an older
    snapshot writes to the record the current snapshot reads. *)
From Stdlib Require Import ZArith Lia Sorted.
From stdpp Require Import base list numbers strings sets gmap.
From S2P Require Import Prelude Text NetAddr.

(** ** Hashing *)

Definition FNV_OFFSET_BASIS : Z := 0xcbf29ce484222325.
Definition FNV_PRIME : Z := 0x100000001b3.

Definition fnv1a64_with_seed (bytes : list Z) (seed : Z) : Z :=
  foldl (fun hash byte => wrapping_mul U64_MAX (Z.lxor hash byte) FNV_PRIME) seed bytes.
Definition fnv1a64 (bytes : list Z) : Z := fnv1a64_with_seed bytes FNV_OFFSET_BASIS.

(** [n.to_le_bytes()] for an integer of [width] bytes *)
Fixpoint to_le_bytes (width : nat) (n : Z) : list Z :=
  match width with
  | O => []
  | S width' => n mod 256 :: to_le_bytes width' (n / 256)
  end.

(** ** Backends and their order *)

Record FluxBackend : Type := mkFluxBackend {
  addr : SocketAddr;
  weight : Z;
}.
#[export] Instance FluxBackend_eq_dec : EqDecision FluxBackend.
Proof. solve_decision. Defined.

(** [FluxBackend::new_with_weight]; the error carries no value. *)
Definition new_with_weight (authority : list Z) (w : Z) : option FluxBackend :=
  a ← parse_socket_addr authority; Some (mkFluxBackend a w).
Definition backend_new (authority : list Z) : option FluxBackend := new_with_weight authority 1.

Definition authority (b : FluxBackend) : list Z := show_socket_addr (addr b).
Definition backend_authority_key (text : list Z) : Z := fnv1a64 text.
Definition backend_key (b : FluxBackend) : Z := backend_authority_key (authority b).

(** The derived [Ord]: field by field, IPv4 before IPv6. *)
Fixpoint lex_cmp (l k : list Z) : comparison :=
  match l, k with
  | [], [] => Eq
  | [], _ :: _ => Lt
  | _ :: _, [] => Gt
  | x :: l, y :: k => match x ?= y with Eq => lex_cmp l k | c => c end
  end.
Definition order_fields (b : FluxBackend) : list Z :=
  match sa_ip (addr b) with
  | V4 x y z t => [4; x; y; z; t]
  | V6 segs => 6 :: segs
  end ++ [sa_port (addr b); sa_scope_id (addr b); weight b].
Definition backend_cmp (b c : FluxBackend) : comparison := lex_cmp (order_fields b) (order_fields c).
Definition backend_lt (b c : FluxBackend) : Prop := backend_cmp b c = Lt.

(** [BTreeSet::insert] *)
Fixpoint set_insert (b : FluxBackend) (l : list FluxBackend) : list FluxBackend :=
  match l with
  | [] => [b]
  | c :: l' =>
      match backend_cmp b c with
      | Lt => b :: l
      | Eq => l
      | Gt => c :: set_insert b l'
      end
  end.

(** What discovery returns: [FluxBackendSet]. *)
Record FluxBackendSet : Type := mkFluxBackendSet {
  fs_backends : list FluxBackend;
  fs_ready : gmap Z bool;
}.
Definition backend_set_default : FluxBackendSet := mkFluxBackendSet [] ∅.
Definition backend_set_insert (s : FluxBackendSet) (b : FluxBackend) : FluxBackendSet :=
  mkFluxBackendSet (set_insert b (fs_backends s)) (fs_ready s).

(** ** Health records *)

Record FluxBackendHealthInner : Type := mkHealth {
  healthy : bool;
  enabled : bool;
  consecutive_counter : Z;
}.
#[export] Instance FluxBackendHealthInner_eq_dec : EqDecision FluxBackendHealthInner.
Proof. solve_decision. Defined.

Definition health_default : FluxBackendHealthInner := mkHealth true true 0.
Definition health_ready (h : FluxBackendHealthInner) : bool := healthy h && enabled h.
Definition health_enable (on : bool) (h : FluxBackendHealthInner) : FluxBackendHealthInner :=
  mkHealth (healthy h) on (consecutive_counter h).
(** [observe]: whether the health flipped, and the record afterwards. *)
Definition observe (now_healthy : bool) (flip_threshold : Z) (h : FluxBackendHealthInner)
  : bool * FluxBackendHealthInner :=
  if bool_decide (healthy h <> now_healthy) then
    let counter := saturating_add USIZE_MAX (consecutive_counter h) 1 in
    if flip_threshold <=? counter then (true, mkHealth now_healthy (enabled h) 0)
    else (false, mkHealth (healthy h) (enabled h) counter)
  else (false, mkHealth (healthy h) (enabled h) 0).

(** ** The runtime *)

(** [FluxBackendSnapshot]: the backends and, for each key, the cell of its
    health record. *)
Record FluxBackendSnapshot : Type := mkSnapshot {
  sn_backends : list FluxBackend;
  sn_health : gmap Z positive;
}.

(** The mutable part of [FluxLoadBalancerRuntime]: the current snapshot and
    the cells allocated so far ([cells] grows; a cell dropped by every
    snapshot is never reached again). *)
Record Runtime : Type := mkRuntime {
  snapshot : FluxBackendSnapshot;
  cells : gmap positive FluxBackendHealthInner;
  next_cell : positive;
  update_frequency : option Z;
  health_check : bool;
}.
Definition runtime_new (frequency : option Z) (check : bool) : Runtime :=
  mkRuntime (mkSnapshot [] ∅) ∅ 1%positive frequency check.

Definition store_snapshot (r : Runtime) (s : FluxBackendSnapshot) : Runtime :=
  mkRuntime s (cells r) (next_cell r) (update_frequency r) (health_check r).
Definition set_cells (r : Runtime) (m : gmap positive FluxBackendHealthInner) (n : positive) : Runtime :=
  mkRuntime (snapshot r) m n (update_frequency r) (health_check r).

(** [FluxBackendHealth::default()]: a new cell. *)
Definition alloc (r : Runtime) : positive * Runtime :=
  (next_cell r, set_cells r (<[next_cell r := health_default]> (cells r)) (Pos.succ (next_cell r))).
Definition enable_cell (c : positive) (on : bool) (r : Runtime) : Runtime :=
  set_cells r (alter (health_enable on) c (cells r)) (next_cell r).

(** The loop of [update_inner] over the new backends. *)
Fixpoint next_health (old : gmap Z positive) (enablement : gmap Z bool) (bs : list FluxBackend)
    (acc : gmap Z positive) (r : Runtime) : gmap Z positive * Runtime :=
  match bs with
  | [] => (acc, r)
  | b :: bs' =>
      let key := backend_key b in
      let '(cell, r) := match old !! key with Some cell => (cell, r) | None => alloc r end in
      let r := match enablement !! key with Some on => enable_cell cell on r | None => r end in
      next_health old enablement bs' (<[key := cell]> acc) r
  end.

(** [update_inner] on what discovery returned *)
Definition update_inner (discovered : FluxBackendSet) (r : Runtime) : Runtime :=
  if bool_decide (sn_backends (snapshot r) <> fs_backends discovered) then
    let '(health, r) :=
      next_health (sn_health (snapshot r)) (fs_ready discovered) (fs_backends discovered) ∅ r in
    store_snapshot r (mkSnapshot (fs_backends discovered) health)
  else
    foldr (fun '(key, on) r =>
             match sn_health (snapshot r) !! key with
             | Some cell => enable_cell cell on r
             | None => r
             end) r (map_to_list (fs_ready discovered)).

Definition set_enable (b : FluxBackend) (on : bool) (r : Runtime) : Runtime :=
  match sn_health (snapshot r) !! backend_key b with
  | Some cell => enable_cell cell on r
  | None => r
  end.

Definition MAX_RUNTIME_BACKEND_COUNT : Z := 256.

Definition runtime_backend_set_mutable (r : Runtime) : bool :=
  match update_frequency r with None => true | Some _ => false end.

(** The errors of the three operations below, by their messages. *)
Inductive BackendSetError : Type :=
| NotStatic
| AlreadyConfigured
| SizeLimit
| LastBackend
| NotConfigured
| UpdatedAlreadyConfigured.

Definition has_key (key : Z) (l : list FluxBackend) : bool :=
  existsb (fun existing => backend_key existing =? key) l.

(** [next_health.entry(key).or_default()] *)
Definition entry_or_default (key : Z) (health : gmap Z positive) (r : Runtime)
  : gmap Z positive * Runtime :=
  match health !! key with
  | Some _ => (health, r)
  | None => let '(cell, r) := alloc r in (<[key := cell]> health, r)
  end.

Definition add_runtime_backend (b : FluxBackend) (r : Runtime)
  : result Z BackendSetError * Runtime :=
  if negb (runtime_backend_set_mutable r) then (Err NotStatic, r)
  else
    let key := backend_key b in
    let current := snapshot r in
    if has_key key (sn_backends current) then (Err AlreadyConfigured, r)
    else if MAX_RUNTIME_BACKEND_COUNT <=? zlen (sn_backends current) then (Err SizeLimit, r)
    else
      let next_backends := set_insert b (sn_backends current) in
      let '(health, r) := entry_or_default key (sn_health current) r in
      (Ok (zlen next_backends), store_snapshot r (mkSnapshot next_backends health)).

Definition retain_key_ne (key : Z) (l : list FluxBackend) : list FluxBackend :=
  filter (fun existing => backend_key existing <> key) l.

Definition remove_runtime_backend (b : FluxBackend) (r : Runtime)
  : result Z BackendSetError * Runtime :=
  if negb (runtime_backend_set_mutable r) then (Err NotStatic, r)
  else
    let key := backend_key b in
    let current := snapshot r in
    if zlen (sn_backends current) <=? 1 then (Err LastBackend, r)
    else if negb (has_key key (sn_backends current)) then (Err NotConfigured, r)
    else
      let next_backends := retain_key_ne key (sn_backends current) in
      (Ok (zlen next_backends),
       store_snapshot r (mkSnapshot next_backends (delete key (sn_health current)))).

Definition update_runtime_backend (current updated : FluxBackend) (r : Runtime)
  : result Z BackendSetError * Runtime :=
  if negb (runtime_backend_set_mutable r) then (Err NotStatic, r)
  else
    let s := snapshot r in
    let current_key := backend_key current in
    let updated_key := backend_key updated in
    if negb (has_key current_key (sn_backends s)) then (Err NotConfigured, r)
    else if bool_decide (current_key <> updated_key) && has_key updated_key (sn_backends s)
    then (Err UpdatedAlreadyConfigured, r)
    else
      let next_backends := set_insert updated (retain_key_ne current_key (sn_backends s)) in
      let '(health, r) :=
        if bool_decide (current_key <> updated_key)
        then entry_or_default updated_key (delete current_key (sn_health s)) r
        else entry_or_default updated_key (sn_health s) r in
      (Ok (zlen next_backends), store_snapshot r (mkSnapshot next_backends health)).

(** [check_one] with the health map the task was started with: the outcome of
    the probe lands in that map's cell. *)
Definition check_one (b : FluxBackend) (probe_ok : bool) (threshold : Z)
    (health : gmap Z positive) (r : Runtime) : bool * Runtime :=
  match health !! backend_key b with
  | None => (false, r)
  | Some cell =>
      match cells r !! cell with
      | None => (false, r)
      | Some h =>
          let '(flipped, h') := observe probe_ok threshold h in
          (flipped, set_cells r (<[cell := h']> (cells r)) (next_cell r))
      end
  end.

(** [BackendContainerSnapshot::ready] *)
Definition snapshot_ready (r : Runtime) (b : FluxBackend) : bool :=
  match sn_health (snapshot r) !! backend_key b with
  | None => negb (health_check r)
  | Some cell =>
      match cells r !! cell with Some h => health_ready h | None => false end
  end.

(** [run_health_check] one backend after the other, on the snapshot loaded at
    its start; [probe] and [threshold] are the configured check. *)
Definition run_health_check (probe : FluxBackend -> bool) (threshold : bool -> Z) (r : Runtime)
  : Runtime :=
  if health_check r then
    let s := snapshot r in
    foldl (fun r b => (check_one b (probe b) (threshold (probe b)) (sn_health s) r).2)
      r (sn_backends s)
  else r.
