(* ===== verification/LbBackendProps.v ===== *)
(** * The backend set refines a finite map

    The sorted set, the health map and the shared cells of a runtime together
    implement a finite map from backend keys to a backend and its health
    record, whatever snapshots older tasks still hold. *)
From Stdlib Require Import ZArith Lia Sorted.
From stdpp Require Import base list numbers strings sets gmap relations.
From S2P Require Import Prelude Text NetAddr LbBackend.

(** ** The order on backends *)

Lemma lex_cmp_eq l k : lex_cmp l k = Eq <-> l = k.
Proof.
  revert k. induction l as [|x l IH]; intros [|y k]; simpl; try done.
  destruct (Z.compare_spec x y) as [->|?|?].
  - rewrite IH. naive_solver.
  - split; [done|]. intros [= -> ->]. lia.
  - split; [done|]. intros [= -> ->]. lia.
Qed.
Lemma lex_cmp_antisym l k : lex_cmp l k = CompOpp (lex_cmp k l).
Proof.
  revert k. induction l as [|x l IH]; intros [|y k]; simpl; try done.
  rewrite (Z.compare_antisym y x). destruct (y ?= x) eqn:E; simpl; auto.
Qed.
Lemma lex_cmp_trans l k m : lex_cmp l k = Lt -> lex_cmp k m = Lt -> lex_cmp l m = Lt.
Proof.
  revert k m. induction l as [|x l IH]; intros [|y k] [|z m]; simpl; try done.
  destruct (Z.compare_spec x y), (Z.compare_spec y z), (Z.compare_spec x z);
    subst; try done; try lia. apply IH.
Qed.

Lemma order_fields_inj b c : order_fields b = order_fields c -> b = c.
Proof.
  destruct b as [[[|segs] p s] w], c as [[[|segs'] p' s'] w'];
    unfold order_fields; simpl; intros E; simplify_eq; try done.
  apply app_inj_2 in E as [-> E]; [|done]. by simplify_eq.
Qed.
Lemma backend_cmp_eq b c : backend_cmp b c = Eq <-> b = c.
Proof.
  unfold backend_cmp. rewrite lex_cmp_eq. split; [apply order_fields_inj|by intros ->].
Qed.
Lemma backend_lt_trans b c d : backend_lt b c -> backend_lt c d -> backend_lt b d.
Proof. apply lex_cmp_trans. Qed.
Lemma backend_cmp_gt b c : backend_cmp b c = Gt -> backend_lt c b.
Proof.
  unfold backend_lt, backend_cmp. intros E. rewrite lex_cmp_antisym, E. done.
Qed.

(** ** [BTreeSet::insert] *)

Lemma set_insert_elem x b l : x ∈ set_insert b l <-> x = b \/ x ∈ l.
Proof.
  induction l as [|c l IH]; simpl; [by rewrite list_elem_of_singleton, elem_of_nil; naive_solver|].
  destruct (backend_cmp b c) eqn:E; rewrite !elem_of_cons.
  - apply backend_cmp_eq in E. naive_solver.
  - done.
  - rewrite IH. naive_solver.
Qed.
Lemma set_insert_sorted b l : StronglySorted backend_lt l -> StronglySorted backend_lt (set_insert b l).
Proof.
  induction 1 as [|c l Hl IH Hc]; simpl; [repeat constructor|].
  destruct (backend_cmp b c) eqn:E.
  - by constructor.
  - constructor; [by constructor|]. constructor; [done|].
    eapply Forall_impl; [done|]. intros d ?. by eapply backend_lt_trans.
  - constructor; [done|]. apply Forall_forall. intros d [->|Hd]%set_insert_elem.
    + by apply backend_cmp_gt.
    + rewrite Forall_forall in Hc. by apply Hc.
Qed.
Lemma set_insert_zlen b l : b ∉ l -> zlen (set_insert b l) = zlen l + 1.
Proof.
  induction l as [|c l IH]; simpl; [done|]. rewrite not_elem_of_cons. intros [Hne Hin].
  destruct (backend_cmp b c) eqn:E; rewrite ?zlen_cons, ?IH by done; try lia.
  by apply backend_cmp_eq in E.
Qed.
Lemma set_insert_keys b l :
  backend_key b ∉ backend_key <$> l -> NoDup (backend_key <$> l) ->
  NoDup (backend_key <$> set_insert b l).
Proof.
  induction l as [|c l IH]; simpl; intros Hb Hl; [by repeat constructor; apply not_elem_of_nil|].
  apply not_elem_of_cons in Hb as [Hne Hb]. apply NoDup_cons in Hl as [Hc Hl].
  destruct (backend_cmp b c) eqn:E.
  - by apply NoDup_cons.
  - cbn. apply NoDup_cons. split; [by apply not_elem_of_cons|by apply NoDup_cons].
  - cbn. apply NoDup_cons. split; [|auto]. rewrite list_elem_of_fmap.
    intros (d & Hd & [->|Hin]%set_insert_elem); [done|]. apply Hc. rewrite Hd.
    by apply list_elem_of_fmap_2.
Qed.
Lemma has_key_spec k l : has_key k l = true <-> exists b, b ∈ l /\ backend_key b = k.
Proof.
  unfold has_key. rewrite existsb_exists. split.
  - intros (b & Hb & E). breflect. exists b. by rewrite list_elem_of_In.
  - intros (b & Hb & E). exists b. rewrite <-list_elem_of_In. by rewrite E, Z.eqb_refl.
Qed.
Lemma has_key_false k l : has_key k l = false <-> forall b, b ∈ l -> backend_key b <> k.
Proof.
  rewrite <-not_true_iff_false, has_key_spec. naive_solver.
Qed.

(** ** The abstract pool *)

(** A pool is a finite map from keys to a member and its health record. *)
Abbreviation pool := (gmap Z (FluxBackend * FluxBackendHealthInner)).

Definition member_health (r : Runtime) (k : Z) : option FluxBackendHealthInner :=
  c ← sn_health (snapshot r) !! k; cells r !! c.
Definition abs_entries (r : Runtime) : list (Z * (FluxBackend * FluxBackendHealthInner)) :=
  (fun b => (backend_key b, (b, default health_default (member_health r (backend_key b)))))
  <$> sn_backends (snapshot r).
Definition abs_pool (r : Runtime) : pool := list_to_map (abs_entries r).

(** Well-formed runtimes: the set is sorted, no two members share a key, the
    health map has exactly the members' keys, and no two keys share a cell. *)
Record runtime_wf (r : Runtime) : Prop := {
  wf_sorted : StronglySorted backend_lt (sn_backends (snapshot r));
  wf_keys : NoDup (backend_key <$> sn_backends (snapshot r));
  wf_dom : forall k, is_Some (sn_health (snapshot r) !! k)
             <-> exists b, b ∈ sn_backends (snapshot r) /\ backend_key b = k;
  wf_inj : forall k k' c, sn_health (snapshot r) !! k = Some c ->
             sn_health (snapshot r) !! k' = Some c -> k = k';
  wf_cells : forall k c, sn_health (snapshot r) !! k = Some c ->
             is_Some (cells r !! c) /\ (c < next_cell r)%positive;
}.

Lemma abs_entries_keys r : (abs_entries r).*1 = backend_key <$> sn_backends (snapshot r).
Proof. unfold abs_entries. rewrite <-list_fmap_compose. done. Qed.

Lemma abs_lookup r k b h :
  runtime_wf r ->
  abs_pool r !! k = Some (b, h)
  <-> b ∈ sn_backends (snapshot r) /\ backend_key b = k /\ member_health r k = Some h.
Proof.
  intros W. unfold abs_pool. rewrite <-(elem_of_list_to_map (M := gmap Z) (abs_entries r))
    by (rewrite abs_entries_keys; apply W).
  unfold abs_entries. rewrite list_elem_of_fmap. split.
  - intros (b' & [= -> -> ->] & Hb). split_and!; [done..|].
    destruct (proj2 (wf_dom r W (backend_key b'))) as [c Hc]; [eauto|].
    destruct (wf_cells r W _ _ Hc) as [[h Hh] _]. unfold member_health. by rewrite Hc; simpl; rewrite Hh.
  - intros (Hb & <- & Hh). exists b. by rewrite Hh.
Qed.
Lemma has_key_abs r k :
  runtime_wf r -> has_key k (sn_backends (snapshot r)) = bool_decide (is_Some (abs_pool r !! k)).
Proof.
  intros W. apply eq_true_iff_eq. rewrite has_key_spec, bool_decide_eq_true. split.
  - intros (b & Hb & Hk). destruct (proj2 (wf_dom r W k)) as [c Hc]; [eauto|].
    destruct (wf_cells r W _ _ Hc) as [[h Hh] _]. exists (b, h). apply abs_lookup; [done|].
    unfold member_health. rewrite Hc. done.
  - intros [[b h] (Hb & Hk & _)%(abs_lookup r k b h W)]. eauto.
Qed.
Lemma size_abs r : runtime_wf r -> zlen (sn_backends (snapshot r)) = Z.of_nat (size (abs_pool r)).
Proof.
  intros W. unfold zlen, abs_pool. f_equal. rewrite <-length_map_to_list.
  rewrite (Permutation_length (map_to_list_to_map (abs_entries r) ltac:(rewrite abs_entries_keys; apply W))).
  unfold abs_entries. by rewrite length_fmap.
Qed.

(** ** What each operation does to the pool *)

Definition spec_enable (k : Z) (on : bool) (m : pool) : pool :=
  alter (fun '(b, h) => (b, health_enable on h)) k m.
Definition spec_probe (k : Z) (ok : bool) (threshold : Z) (m : pool) : pool :=
  alter (fun '(b, h) => (b, (observe ok threshold h).2)) k m.
Definition spec_add (static : bool) (b : FluxBackend) (m : pool)
  : result Z BackendSetError * pool :=
  if negb static then (Err NotStatic, m)
  else if bool_decide (is_Some (m !! backend_key b)) then (Err AlreadyConfigured, m)
  else if 256 <=? Z.of_nat (size m) then (Err SizeLimit, m)
  else (Ok (Z.of_nat (size m) + 1), <[backend_key b := (b, health_default)]> m).
Definition spec_remove (static : bool) (b : FluxBackend) (m : pool)
  : result Z BackendSetError * pool :=
  if negb static then (Err NotStatic, m)
  else if Z.of_nat (size m) <=? 1 then (Err LastBackend, m)
  else if negb (bool_decide (is_Some (m !! backend_key b))) then (Err NotConfigured, m)
  else (Ok (Z.of_nat (size m) - 1), delete (backend_key b) m).
Definition spec_update (static : bool) (current updated : FluxBackend) (m : pool)
  : result Z BackendSetError * pool :=
  let ck := backend_key current in
  let uk := backend_key updated in
  if negb static then (Err NotStatic, m)
  else if negb (bool_decide (is_Some (m !! ck))) then (Err NotConfigured, m)
  else if bool_decide (ck = uk) then
    (Ok (Z.of_nat (size m)), alter (fun '(_, h) => (updated, h)) ck m)
  else if bool_decide (is_Some (m !! uk)) then (Err UpdatedAlreadyConfigured, m)
  else (Ok (Z.of_nat (size m)), <[uk := (updated, health_default)]> (delete ck m)).
(** Discovery replaces the members; one that stays keeps its health record. *)
Definition discovered_health (d : FluxBackendSet) (m : pool) (k : Z) : FluxBackendHealthInner :=
  let h := match m !! k with Some (_, h) => h | None => health_default end in
  match fs_ready d !! k with Some on => health_enable on h | None => h end.
Definition spec_discover (d : FluxBackendSet) (m : pool) : pool :=
  list_to_map ((fun b => (backend_key b, (b, discovered_health d m (backend_key b))))
               <$> fs_backends d).

(** ** Cells *)

(** A health map all of whose cells are allocated, under one key each, and
    under the same keys as in the current snapshot. *)
Record map_wf (r : Runtime) (health : gmap Z positive) : Prop := {
  mw_inj : forall k k' c, health !! k = Some c -> health !! k' = Some c -> k = k';
  mw_cells : forall k c, health !! k = Some c -> is_Some (cells r !! c) /\ (c < next_cell r)%positive;
}.
Definition held_ok (r : Runtime) (held : gmap Z positive) : Prop :=
  map_wf r held
  /\ forall k k' c, held !! k = Some c -> sn_health (snapshot r) !! k' = Some c -> k = k'.

Lemma wf_map r : runtime_wf r -> map_wf r (sn_health (snapshot r)).
Proof. intros W. split; apply W. Qed.

Lemma publish_wf r bs health :
  StronglySorted backend_lt bs -> NoDup (backend_key <$> bs) ->
  (forall k, is_Some (health !! k) <-> exists b, b ∈ bs /\ backend_key b = k) ->
  map_wf r health -> runtime_wf (store_snapshot r (mkSnapshot bs health)).
Proof. intros ??? []. by split. Qed.

Lemma alloc_map_wf r health k :
  map_wf r health -> map_wf (alloc r).2 (<[k := next_cell r]> health).
Proof.
  intros [Hi Hc]. split.
  - intros k1 k2 c. rewrite !lookup_insert_Some.
    intros [[<- <-]|[Hne1 H1]] [[<- E]|[Hne2 H2]]; try done.
    + destruct (Hc _ _ H2). lia.
    + subst. destruct (Hc _ _ H1). lia.
    + by eapply Hi.
  - intros k1 c. cbn. rewrite lookup_insert_Some. intros [[<- <-]|[Hne H1]].
    + rewrite lookup_insert_eq. split; [eauto|lia].
    + destruct (Hc _ _ H1) as [Hs Hlt]. rewrite lookup_insert_ne by lia. split; [done|lia].
Qed.
Lemma alloc_held r health : map_wf r health -> map_wf (alloc r).2 health.
Proof.
  intros [Hi Hc]. split; [done|]. intros k c H1. cbn.
  destruct (Hc _ _ H1) as [Hs Hlt]. rewrite lookup_insert_ne by lia. split; [done|lia].
Qed.
Lemma alter_map_wf r health c f :
  map_wf r health -> map_wf (set_cells r (alter f c (cells r)) (next_cell r)) health.
Proof.
  intros [Hi Hc]. split; [done|]. intros k c' H1. cbn.
  destruct (Hc _ _ H1) as [[h Hs] Hlt]. split; [|done].
  destruct (decide (c = c')) as [<-|]; [rewrite lookup_alter_eq|rewrite lookup_alter_ne by done];
    by rewrite Hs.
Qed.

Lemma map_wf_cells r r' health :
  cells r' = cells r -> next_cell r' = next_cell r -> map_wf r health -> map_wf r' health.
Proof. intros E1 E2 [Hi Hc]. split; rewrite ?E1, ?E2; done. Qed.
Lemma map_wf_subset r health health' :
  (forall k c, health' !! k = Some c -> health !! k = Some c) -> map_wf r health -> map_wf r health'.
Proof. intros Hs [Hi Hc]. split; [intros ?????; eapply Hi; eauto|eauto]. Qed.

Lemma entry_new k health r :
  health !! k = None -> entry_or_default k health r = (<[k := next_cell r]> health, (alloc r).2).
Proof. intros E. unfold entry_or_default. by rewrite E. Qed.
Lemma entry_old k health r c :
  health !! k = Some c -> entry_or_default k health r = (health, r).
Proof. intros E. unfold entry_or_default. by rewrite E. Qed.

Lemma abs_eq r m :
  runtime_wf r ->
  (forall k b h, m !! k = Some (b, h)
     <-> b ∈ sn_backends (snapshot r) /\ backend_key b = k /\ member_health r k = Some h) ->
  abs_pool r = m.
Proof.
  intros W Hm. apply map_eq. intros k. apply option_eq. intros [b h].
  by rewrite abs_lookup, Hm by done.
Qed.
Lemma key_unique r b c :
  runtime_wf r -> b ∈ sn_backends (snapshot r) -> c ∈ sn_backends (snapshot r) ->
  backend_key b = backend_key c -> b = c.
Proof.
  intros W Hb Hc E. pose proof (wf_keys r W) as Hn.
  apply list_elem_of_lookup in Hb as [i Hi], Hc as [j Hj].
  assert (i = j) as <-; [|congruence].
  eapply NoDup_lookup; [apply Hn|rewrite list_lookup_fmap, Hi; done|].
  rewrite list_lookup_fmap, Hj. simpl. by rewrite E.
Qed.

Lemma retain_elem b k l : b ∈ retain_key_ne k l <-> b ∈ l /\ backend_key b <> k.
Proof. unfold retain_key_ne. rewrite list_elem_of_filter. naive_solver. Qed.
Lemma retain_keys k l : NoDup (backend_key <$> l) -> NoDup (backend_key <$> retain_key_ne k l).
Proof.
  induction l as [|b l IH]; [done|]. cbn [fmap list_fmap]. rewrite NoDup_cons. intros [Hb Hl].
  unfold retain_key_ne. rewrite filter_cons. case_decide; [|by apply IH].
  cbn [fmap list_fmap]. rewrite NoDup_cons. split; [|by apply IH]. intros (c & Hc & [? Hin]%list_elem_of_filter)%list_elem_of_fmap.
  apply Hb. rewrite Hc. by apply list_elem_of_fmap_2.
Qed.
Definition static_pool (r : Runtime) : bool := runtime_backend_set_mutable r.

Lemma member_health_new r k health bs :
  member_health (store_snapshot (alloc r).2 (mkSnapshot bs (<[k := next_cell r]> health))) k
  = Some health_default.
Proof. unfold member_health. cbn. rewrite lookup_insert_eq. cbn. by rewrite lookup_insert_eq. Qed.
Lemma member_health_kept r k k' health bs :
  map_wf r health -> k' <> k ->
  member_health (store_snapshot (alloc r).2 (mkSnapshot bs (<[k := next_cell r]> health))) k'
  = c ← health !! k'; cells r !! c.
Proof.
  intros W Hne. unfold member_health. cbn. rewrite lookup_insert_ne by done.
  destruct (health !! k') as [c|] eqn:E; [|done]. cbn. destruct (mw_cells _ _ W _ _ E).
  by rewrite lookup_insert_ne by lia.
Qed.
Lemma member_Some r k h :
  runtime_wf r -> member_health r k = Some h ->
  exists b, b ∈ sn_backends (snapshot r) /\ backend_key b = k.
Proof.
  intros W H. apply (wf_dom r W). unfold member_health in H.
  by destruct (sn_health (snapshot r) !! k).
Qed.
Lemma absent_health r k :
  runtime_wf r -> ~ is_Some (abs_pool r !! k) -> sn_health (snapshot r) !! k = None.
Proof.
  intros W Hk. apply eq_None_not_Some. intros Hs%(wf_dom r W). apply Hk.
  apply (proj1 (bool_decide_eq_true _)). by rewrite <-has_key_abs, has_key_spec.
Qed.
Lemma absent_member r k :
  runtime_wf r -> sn_health (snapshot r) !! k = None ->
  forall b, b ∈ sn_backends (snapshot r) -> backend_key b <> k.
Proof. intros W Hn b Hb E. apply eq_None_not_Some in Hn. apply Hn, (wf_dom r W). eauto. Qed.

(** Publishing one new member, in a new cell, next to members that keep
    their cells. *)
Lemma publish_new r b bs health (m : pool) :
  runtime_wf r -> StronglySorted backend_lt bs -> NoDup (backend_key <$> bs) ->
  health !! backend_key b = None ->
  (forall k c, health !! k = Some c -> sn_health (snapshot r) !! k = Some c) ->
  (forall k, is_Some (health !! k) <-> exists c, c ∈ bs /\ backend_key c = k) ->
  (forall k c h, m !! k = Some (c, h)
     <-> c ∈ bs /\ backend_key c = k /\ (cell ← health !! k; cells r !! cell) = Some h) ->
  let r' := store_snapshot (alloc r).2
              (mkSnapshot (set_insert b bs) (<[backend_key b := next_cell r]> health)) in
  runtime_wf r' /\ abs_pool r' = <[backend_key b := (b, health_default)]> m.
Proof.
  intros W Hs Hd Hn Hsub Hdom Hm r'.
  assert (forall c, c ∈ bs -> backend_key c <> backend_key b) as Hne.
  { intros c Hc E. apply eq_None_not_Some in Hn. apply Hn, Hdom. eauto. }
  assert (map_wf r health) as Wh by (eapply map_wf_subset, wf_map; done).
  assert (runtime_wf r') as W'.
  { apply publish_wf; [by apply set_insert_sorted| | |by apply alloc_map_wf].
    - apply set_insert_keys; [|done]. intros (c & Hc & Hin)%list_elem_of_fmap. by eapply Hne.
    - intros k. rewrite lookup_insert_is_Some, Hdom. setoid_rewrite set_insert_elem.
      split; [intros [<-|[? (c & ? & ?)]]; eauto|].
      intros (c & [->|Hc] & <-); [by left|right]. split; [|eauto]. intros E. by apply (Hne c). }
  split; [done|]. apply abs_eq; [done|]. intros k c h. cbn [sn_backends snapshot store_snapshot r'].
  rewrite set_insert_elem, lookup_insert_Some. destruct (decide (k = backend_key b)) as [->|Hk].
  - unfold r'. rewrite member_health_new. split.
    + intros [[_ [= <- <-]]|[? _]]; [auto|done].
    + intros ([->|Hc] & E & [= <-]); [by left|]. by destruct (Hne c).
  - unfold r'. rewrite member_health_kept by done. rewrite Hm. split.
    + intros [[E _]|[_ H]]; [by destruct Hk|]. naive_solver.
    + intros ([->|Hc] & E & H); [by destruct Hk|]. right. split; [naive_solver|done].
Qed.

Lemma count_refines r m : runtime_wf r -> abs_pool r = m -> zlen (sn_backends (snapshot r)) = Z.of_nat (size m).
Proof. intros W <-. by apply size_abs. Qed.

Lemma add_refines r b :
  runtime_wf r ->
  runtime_wf (add_runtime_backend b r).2
  /\ spec_add (static_pool r) b (abs_pool r)
     = ((add_runtime_backend b r).1, abs_pool (add_runtime_backend b r).2).
Proof.
  intros W. unfold add_runtime_backend, spec_add, static_pool. case_match; [done|].
  rewrite has_key_abs, (size_abs r) by done. case_bool_decide as Hk; [done|].
  unfold MAX_RUNTIME_BACKEND_COUNT. case_match; [done|].
  assert (sn_health (snapshot r) !! backend_key b = None) as Hn by by apply absent_health.
  rewrite entry_new by done. cbn [fst snd].
  destruct (publish_new r b (sn_backends (snapshot r)) (sn_health (snapshot r)) (abs_pool r) W)
    as [W' E]; [apply W|apply W|done|done|apply W|intros; by apply abs_lookup|].
  split; [done|]. rewrite E. f_equal. f_equal. symmetry. etransitivity; [apply (count_refines _ _ W' E)|].
  rewrite map_size_insert_None by (by apply eq_None_not_Some). lia.
Qed.

Lemma size_pos (m : pool) k : is_Some (m !! k) -> (0 < size m)%nat.
Proof.
  intros [x Hx]. destruct (size m) eqn:Es; [|lia]. apply map_size_empty_iff in Es. by subst.
Qed.

Lemma remove_refines r b :
  runtime_wf r ->
  runtime_wf (remove_runtime_backend b r).2
  /\ spec_remove (static_pool r) b (abs_pool r)
     = ((remove_runtime_backend b r).1, abs_pool (remove_runtime_backend b r).2).
Proof.
  intros W. unfold remove_runtime_backend, spec_remove, static_pool. case_match; [done|].
  rewrite has_key_abs, (size_abs r) by done. case_match; [done|].
  case_bool_decide as Hk; [|done]. cbn [negb fst snd].
  set (r' := store_snapshot r _).
  assert (runtime_wf r') as W'.
  { apply publish_wf; [apply StronglySorted_filter, W|apply retain_keys, W| |].
    - intros k. rewrite lookup_delete_is_Some, (wf_dom r W). setoid_rewrite retain_elem. naive_solver.
    - eapply map_wf_subset, wf_map, W. intros k c. by rewrite lookup_delete_Some; intros []. }
  assert (abs_pool r' = delete (backend_key b) (abs_pool r)) as E.
  { apply abs_eq; [done|]. intros k c h. rewrite lookup_delete_Some, abs_lookup by done.
    cbn [sn_backends snapshot store_snapshot r']. rewrite retain_elem.
    unfold member_health. cbn. destruct (decide (k = backend_key b)) as [->|Hne].
    - rewrite lookup_delete_eq. naive_solver.
    - rewrite lookup_delete_ne by done. naive_solver. }
  split; [done|]. rewrite E. f_equal. f_equal. symmetry. etransitivity; [apply (count_refines _ _ W' E)|].
  rewrite map_size_delete_Some by done. apply size_pos in Hk. lia.
Qed.

Lemma size_alter (f : FluxBackend * FluxBackendHealthInner -> FluxBackend * FluxBackendHealthInner)
    k (m : pool) : size (alter f k m) = size m.
Proof. by rewrite <-!size_dom, dom_alter_L. Qed.

(** Replacing a member under its own key: it keeps its cell. *)
Lemma update_same r current updated :
  runtime_wf r -> is_Some (abs_pool r !! backend_key current) ->
  backend_key current = backend_key updated ->
  let r' := store_snapshot r (mkSnapshot
              (set_insert updated (retain_key_ne (backend_key current) (sn_backends (snapshot r))))
              (sn_health (snapshot r))) in
  runtime_wf r'
  /\ abs_pool r' = alter (fun '(_, h) => (updated, h)) (backend_key current) (abs_pool r).
Proof.
  intros W [[b0 h0] Hb0] Ek r'. pose proof Hb0 as (Hin & Hkey & Hh)%abs_lookup; [|done].
  assert (runtime_wf r') as W'.
  { apply publish_wf; [apply set_insert_sorted, StronglySorted_filter, W| | |by apply wf_map].
    - apply set_insert_keys; [|apply retain_keys, W].
      intros (c & E & [_ Hne]%retain_elem)%list_elem_of_fmap. congruence.
    - intros k. rewrite (wf_dom r W). setoid_rewrite set_insert_elem. setoid_rewrite retain_elem.
      split.
      + intros (c & Hcin & <-). destruct (decide (backend_key c = backend_key current)); [|eauto].
        exists updated. split; [auto|congruence].
      + intros (c & [->|[? _]] & <-); [exists b0; split; [done|congruence]|eauto]. }
  split; [done|]. apply abs_eq; [done|]. intros k c h. rewrite lookup_alter_Some.
  cbn [sn_backends snapshot store_snapshot r']. rewrite set_insert_elem, retain_elem. split.
  - intros [(<- & [b1 h1] & Hb1 & [= -> ->])|[Hne Hl]].
    + apply abs_lookup in Hb1 as (_ & _ & ?); [|done]. by split_and!; [left| |].
    + apply abs_lookup in Hl as (? & <- & ?); [|done]. by split_and!; [right| |].
  - intros ([->|[Hcin Hne]] & <- & Hm).
    + left. split; [done|]. exists (b0, h0). split; [by rewrite <-Ek|].
      change (member_health r (backend_key updated) = Some h) in Hm. congruence.
    + right. split; [done|]. by apply abs_lookup.
Qed.

(** Replacing a member by one with another key: a new cell. *)
Lemma update_rekey r current updated :
  runtime_wf r -> backend_key current <> backend_key updated ->
  sn_health (snapshot r) !! backend_key updated = None ->
  let r' := store_snapshot (alloc r).2 (mkSnapshot
              (set_insert updated (retain_key_ne (backend_key current) (sn_backends (snapshot r))))
              (<[backend_key updated := next_cell r]>
                 (delete (backend_key current) (sn_health (snapshot r))))) in
  runtime_wf r'
  /\ abs_pool r' = <[backend_key updated := (updated, health_default)]>
                     (delete (backend_key current) (abs_pool r)).
Proof.
  intros W Ek Hn. apply publish_new; [done|apply StronglySorted_filter, W|apply retain_keys, W| | | |].
  - by rewrite lookup_delete_ne.
  - intros k c. by rewrite lookup_delete_Some; intros [].
  - intros k. rewrite lookup_delete_is_Some, (wf_dom r W). setoid_rewrite retain_elem. naive_solver.
  - intros k c h. rewrite lookup_delete_Some, abs_lookup, retain_elem by done.
    destruct (decide (k = backend_key current)) as [->|Hne].
    + rewrite lookup_delete_eq. naive_solver.
    + rewrite lookup_delete_ne by done. unfold member_health. naive_solver.
Qed.

Lemma update_refines r current updated :
  runtime_wf r ->
  runtime_wf (update_runtime_backend current updated r).2
  /\ spec_update (static_pool r) current updated (abs_pool r)
     = ((update_runtime_backend current updated r).1,
        abs_pool (update_runtime_backend current updated r).2).
Proof.
  intros W. unfold update_runtime_backend, spec_update, static_pool. case_match; [done|].
  rewrite !has_key_abs by done. case_bool_decide as Hk; [|done]. cbn [negb].
  destruct (decide (backend_key current = backend_key updated)) as [Ek|Ek].
  - rewrite (bool_decide_eq_true_2 (_ = _)), (bool_decide_eq_false_2 (_ <> _)) by naive_solver.
    cbn [andb]. destruct (update_same r current updated W Hk Ek) as [W' E].
    destruct Hk as [[b0 h0] (_ & _ & Hh)%abs_lookup]; [|done].
    unfold member_health in Hh. destruct (sn_health (snapshot r) !! _) as [cell|] eqn:Hc; [|done].
    rewrite <-Ek. erewrite entry_old by done. cbn [fst snd].
    split; [done|]. rewrite E. do 2 f_equal. symmetry. etransitivity; [apply (count_refines _ _ W' E)|].
    by rewrite size_alter.
  - rewrite (bool_decide_eq_false_2 (_ = _)), (bool_decide_eq_true_2 (_ <> _)) by naive_solver.
    cbn [andb]. case_bool_decide as Hu; [done|].
    assert (sn_health (snapshot r) !! backend_key updated = None) as Hn by by apply absent_health.
    destruct (update_rekey r current updated W Ek Hn) as [W' E].
    rewrite entry_new by by rewrite lookup_delete_ne. cbn [fst snd].
    split; [done|]. rewrite E. do 2 f_equal. symmetry. etransitivity; [apply (count_refines _ _ W' E)|].
    rewrite map_size_insert_None by (rewrite lookup_delete_ne by done; by apply eq_None_not_Some).
    rewrite map_size_delete_Some by done. apply size_pos in Hk. lia.
Qed.

(** ** Writing to a cell *)

Lemma cell_write r k c f :
  runtime_wf r -> sn_health (snapshot r) !! k = Some c ->
  let r' := set_cells r (alter f c (cells r)) (next_cell r) in
  runtime_wf r' /\ abs_pool r' = alter (fun '(b, h) => (b, f h)) k (abs_pool r).
Proof.
  intros W Hc r'. assert (runtime_wf r') as W'.
  { destruct (alter_map_wf r _ c f (wf_map r W)) as [Hi Hm]. destruct W. by split. }
  split; [done|]. apply abs_eq; [done|]. intros k' b h. rewrite lookup_alter_Some.
  unfold member_health. cbn [sn_backends snapshot set_cells r' cells]. split.
  - intros [(<- & [b1 h1] & Hb1 & [= -> ->])|[Hne Hl]].
    + apply abs_lookup in Hb1 as (? & ? & Hm); [|done]. split_and!; [done..|].
      unfold member_health in Hm. rewrite Hc in *. cbn in *. by rewrite lookup_alter_eq, Hm.
    + apply abs_lookup in Hl as (? & ? & Hm); [|done]. split_and!; [done..|].
      unfold member_health in Hm. destruct (sn_health (snapshot r) !! k') as [c'|] eqn:E; [|done].
      cbn in *. rewrite lookup_alter_ne; [done|]. intros <-. apply Hne. by eapply (wf_inj r W).
  - intros (Hb & Hk & Hm). destruct (decide (k = k')) as [<-|Hne].
    + left. split; [done|]. rewrite Hc in Hm. cbn in Hm. rewrite lookup_alter_Some in Hm.
      destruct Hm as [(_ & h1 & Hh1 & ->)|[]]; [|done].
      exists (b, h1). split; [|done]. apply abs_lookup; [done|]. unfold member_health.
      by rewrite Hc.
    + right. split; [done|]. apply abs_lookup; [done|]. split_and!; [done..|].
      unfold member_health. destruct (sn_health (snapshot r) !! k') as [c'|] eqn:E; [|done].
      cbn in *. rewrite lookup_alter_ne in Hm; [done|]. intros <-. apply Hne. by eapply (wf_inj r W).
Qed.
Lemma alter_absent f r k :
  runtime_wf r -> sn_health (snapshot r) !! k = None ->
  alter f k (abs_pool r) = abs_pool r.
Proof.
  intros W Hn. apply alter_id. intros [b h] (Hb & Hk & _)%abs_lookup; [|done].
  by destruct (absent_member r k W Hn b).
Qed.
(** A cell the current snapshot does not use. *)
Lemma cell_write_stale r c f :
  runtime_wf r -> (forall k, sn_health (snapshot r) !! k <> Some c) ->
  let r' := set_cells r (alter f c (cells r)) (next_cell r) in
  runtime_wf r' /\ abs_pool r' = abs_pool r.
Proof.
  intros W Hn r'. assert (runtime_wf r') as W'.
  { destruct (alter_map_wf r _ c f (wf_map r W)) as [Hi Hm]. destruct W. by split. }
  split; [done|]. apply abs_eq; [done|]. intros k b h. rewrite abs_lookup by done.
  unfold member_health. cbn [sn_backends snapshot set_cells r' cells].
  destruct (sn_health (snapshot r) !! k) as [c'|] eqn:E; [|done]. cbn.
  rewrite lookup_alter_ne; [done|]. intros ->. by eapply Hn.
Qed.

Lemma enable_refines r b on :
  runtime_wf r ->
  runtime_wf (set_enable b on r)
  /\ abs_pool (set_enable b on r) = spec_enable (backend_key b) on (abs_pool r).
Proof.
  intros W. unfold set_enable, spec_enable. case_match eqn:E.
  - by apply cell_write.
  - split; [done|]. symmetry. by apply alter_absent.
Qed.

Lemma alter_insert_cell (f : FluxBackendHealthInner -> FluxBackendHealthInner) c h
    (m : gmap positive FluxBackendHealthInner) : m !! c = Some h -> <[c := f h]> m = alter f c m.
Proof.
  intros E. apply map_eq. intros j. destruct (decide (c = j)) as [<-|].
  - by rewrite lookup_insert_eq, lookup_alter_eq, E.
  - by rewrite lookup_insert_ne, lookup_alter_ne.
Qed.

(** A probe whose task holds the health map [held]: it changes the record of
    its own member when that is still the same record, and nothing else. *)
Lemma probe_refines r b ok threshold held :
  runtime_wf r -> held_ok r held ->
  let r' := (check_one b ok threshold held r).2 in
  let k := backend_key b in
  runtime_wf r'
  /\ abs_pool r' = if bool_decide (held !! k = sn_health (snapshot r) !! k)
                   then spec_probe k ok threshold (abs_pool r) else abs_pool r.
Proof.
  intros W [[_ Hcells] Hsame] r' k. subst r'. unfold check_one, spec_probe. fold k.
  destruct (held !! k) as [c|] eqn:Hc.
  - destruct (Hcells _ _ Hc) as [[h Hh] _]. rewrite Hh.
    destruct (observe ok threshold h) as [flipped h'] eqn:Eo. cbn [snd].
    pose proof (alter_insert_cell (fun h => (observe ok threshold h).2) c h _ Hh) as Ew.
    cbn beta in Ew. rewrite Eo in Ew. cbn [snd] in Ew. rewrite Ew. case_bool_decide as E.
    + by apply cell_write.
    + apply cell_write_stale; [done|]. intros k' Hk'. assert (k = k') as <- by by eapply Hsame.
      congruence.
  - split; [done|]. case_bool_decide as E; [|done]. symmetry. by apply alter_absent.
Qed.

(** ** Discovery *)

Definition discovered_cell (old : gmap Z positive) (enablement : gmap Z bool) (r : Runtime) (k : Z)
  : FluxBackendHealthInner :=
  let h := match old !! k with
           | Some c => default health_default (cells r !! c)
           | None => health_default
           end in
  match enablement !! k with Some on => health_enable on h | None => h end.

(** One round of the loop of [update_inner]. *)
Definition health_round (old : gmap Z positive) (enablement : gmap Z bool) (k : Z) (r : Runtime)
  : positive * Runtime :=
  let '(c, r) := match old !! k with Some c => (c, r) | None => alloc r end in
  (c, match enablement !! k with Some on => enable_cell c on r | None => r end).

Record round_post (old : gmap Z positive) (enablement : gmap Z bool) (k : Z) (r : Runtime)
    (c : positive) (r' : Runtime) : Prop := {
  rp_snapshot : snapshot r' = snapshot r;
  rp_frequency : update_frequency r' = update_frequency r;
  rp_check : health_check r' = health_check r;
  rp_next : (next_cell r <= next_cell r')%positive;
  rp_cell : cells r' !! c = Some (discovered_cell old enablement r k);
  rp_lt : (c < next_cell r')%positive;
  rp_from : old !! k = Some c \/ (old !! k = None /\ c = next_cell r);
  rp_others : forall c', c' <> c -> (c' < next_cell r)%positive -> cells r' !! c' = cells r !! c';
}.
Lemma health_round_post old enablement k r :
  map_wf r old ->
  round_post old enablement k r (health_round old enablement k r).1 (health_round old enablement k r).2.
Proof.
  intros [_ Hc]. unfold health_round, discovered_cell. destruct (old !! k) as [c|] eqn:E.
  - destruct (Hc _ _ E) as [[h Hh] Hlt].
    destruct (enablement !! k) as [on|] eqn:Ee; split; cbn; rewrite ?E, ?Ee, ?Hh; auto; try lia.
    + unfold discovered_cell. by rewrite lookup_alter_eq, E, Ee, Hh.
    + intros c' Hne _. by rewrite lookup_alter_ne.
    + unfold discovered_cell. by rewrite E, Ee, Hh.
  - destruct (enablement !! k) as [on|] eqn:Ee; split; cbn; rewrite ?E, ?Ee; auto; try lia.
    + unfold discovered_cell. by rewrite lookup_alter_eq, lookup_insert_eq, E, Ee.
    + intros c' Hne Hlt. by rewrite lookup_alter_ne, lookup_insert_ne.
    + unfold discovered_cell. by rewrite lookup_insert_eq, E, Ee.
    + intros c' Hne Hlt. by rewrite lookup_insert_ne.
Qed.
Lemma next_health_cons old enablement b bs acc r :
  next_health old enablement (b :: bs) acc r
  = let '(c, r') := health_round old enablement (backend_key b) r in
    next_health old enablement bs (<[backend_key b := c]> acc) r'.
Proof. cbn [next_health]. unfold health_round. by destruct (old !! backend_key b). Qed.

Lemma round_map_wf old enablement k r c r' m :
  round_post old enablement k r c r' -> map_wf r m -> map_wf r' m.
Proof.
  intros [_ _ _ Hn Hc _ _ Ho] [Hi Hm]. split; [done|]. intros k' c' E.
  destruct (Hm _ _ E) as [Hs Hlt]. split; [|lia].
  destruct (decide (c' = c)) as [->|Hne]; [by rewrite Hc|]. by rewrite Ho.
Qed.
Lemma round_insert_wf old enablement k r c r' acc :
  round_post old enablement k r c r' -> map_wf r acc -> acc !! k = None ->
  (forall k1 k2 c, acc !! k1 = Some c -> old !! k2 = Some c -> k1 = k2) ->
  map_wf r' (<[k := c]> acc).
Proof.
  intros P Hacc Hk Hx. pose proof (round_map_wf _ _ _ _ _ _ _ P Hacc) as [_ Hm'].
  destruct P as [_ _ _ Hn Hc Hlt Hf _], Hacc as [Hi Hm].
  assert (forall k', acc !! k' <> Some c) as Hfresh.
  { intros k' E. destruct Hf as [Hf|[_ ->]].
    - assert (k' = k) as -> by by eapply Hx. congruence.
    - destruct (Hm _ _ E). lia. }
  split.
  - intros k1 k2 c'. rewrite !lookup_insert_Some.
    intros [[<- <-]|[Hne1 H1]] [[<- E]|[Hne2 H2]]; subst; try done.
    + by destruct (Hfresh k2).
    + by destruct (Hfresh k1).
    + by eapply Hi.
  - intros k1 c'. rewrite lookup_insert_Some. intros [[<- <-]|[_ E]]; [|eauto].
    rewrite Hc. eauto.
Qed.

Record rounds_post (old : gmap Z positive) (enablement : gmap Z bool) (bs : list FluxBackend)
    (acc : gmap Z positive) (r : Runtime) (acc' : gmap Z positive) (r' : Runtime) : Prop := {
  rs_snapshot : snapshot r' = snapshot r;
  rs_frequency : update_frequency r' = update_frequency r;
  rs_check : health_check r' = health_check r;
  rs_wf : forall m, map_wf r m -> map_wf r' m;
  rs_acc : map_wf r' acc';
  rs_next : (next_cell r <= next_cell r')%positive;
  rs_out : forall k, k ∉ backend_key <$> bs -> acc' !! k = acc !! k;
  rs_in : forall k, k ∈ backend_key <$> bs ->
            exists c, acc' !! k = Some c /\ cells r' !! c = Some (discovered_cell old enablement r k)
                      /\ (old !! k = Some c \/ (next_cell r <= c)%positive);
  rs_others : forall c, (c < next_cell r)%positive ->
                (forall k, k ∈ backend_key <$> bs -> old !! k <> Some c) ->
                cells r' !! c = cells r !! c;
}.
Lemma next_health_post old enablement bs acc r :
  NoDup (backend_key <$> bs) -> (forall k, k ∈ backend_key <$> bs -> acc !! k = None) ->
  map_wf r old -> map_wf r acc ->
  (forall k1 k2 c, acc !! k1 = Some c -> old !! k2 = Some c -> k1 = k2) ->
  rounds_post old enablement bs acc r (next_health old enablement bs acc r).1
    (next_health old enablement bs acc r).2.
Proof.
  revert acc r. induction bs as [|b bs IH]; intros acc r Hd Hk Hold Hacc Hx.
  { split; cbn; auto; [lia|]. intros k ?%elem_of_nil. done. }
  rewrite next_health_cons. pose proof (health_round_post old enablement (backend_key b) r Hold) as P.
  destruct (health_round old enablement (backend_key b) r) as [c r1]. cbn [fst snd] in P.
  cbn [fmap list_fmap] in *. apply NoDup_cons in Hd as [Hb Hd].
  assert (acc !! backend_key b = None) as Hbn by (apply Hk; left).
  destruct (IH (<[backend_key b := c]> acc) r1) as [R1 R2 R3 R4 R5 R6 R7 R8 R9].
  - done.
  - intros k Hin. rewrite lookup_insert_ne; [apply Hk; by right|]. intros E. by rewrite <-E in Hin.
  - by eapply round_map_wf.
  - by eapply round_insert_wf.
  - intros k1 k2 c'. rewrite lookup_insert_Some. intros [[<- <-]|[_ E]] E2; [|eauto].
    destruct P as [_ _ _ _ _ _ [Hf|[_ ->]] _]; [by eapply (mw_inj _ _ Hold)|].
    destruct (mw_cells _ _ Hold _ _ E2). lia.
  - pose proof P as [P1 P2 P3 P4 P5 P6 P7 P8]. split; try congruence; try done.
    + intros m Hm. by eapply R4, round_map_wf.
    + lia.
    + intros k [Hne Hin]%not_elem_of_cons. rewrite R7, lookup_insert_ne by done. done.
    + intros k [->|Hin]%elem_of_cons.
      * exists c. rewrite R7, lookup_insert_eq by done. split_and!; [done| |].
        -- rewrite R9; [done..|]. intros k Hin E. destruct P7 as [E'|[_ ->]].
           ++ assert (k = backend_key b) as -> by by eapply (mw_inj _ _ Hold). done.
           ++ destruct (mw_cells _ _ Hold _ _ E). lia.
        -- destruct P7 as [|[_ ->]]; [by left|right; lia].
      * destruct (R8 k Hin) as (c' & E1 & E2 & E3). exists c'. split_and!; [done| |].
        -- rewrite E2. f_equal. unfold discovered_cell. destruct (old !! k) as [c0|] eqn:E0; [|done].
           rewrite P8; [done| |by destruct (mw_cells _ _ Hold _ _ E0)].
           intros ->. destruct P7 as [E'|[_ ->]].
           ++ assert (k = backend_key b) as -> by by eapply (mw_inj _ _ Hold). done.
           ++ destruct (mw_cells _ _ Hold _ _ E0). lia.
        -- destruct E3; [by left|right; lia].
    + intros c' Hlt Hno. rewrite R9; [|lia|].
      * apply P8; [|done]. intros ->. destruct P7 as [E|[_ ->]]; [|lia].
        by eapply (Hno (backend_key b)); [left|].
      * intros k Hin. apply Hno. by right.
Qed.

(** What discovery may return: a [BTreeSet] no two of whose members share a
    key. *)
Definition discovered_ok (d : FluxBackendSet) : Prop :=
  StronglySorted backend_lt (fs_backends d) /\ NoDup (backend_key <$> fs_backends d).

Lemma spec_discover_lookup d m k b h :
  discovered_ok d ->
  spec_discover d m !! k = Some (b, h)
  <-> b ∈ fs_backends d /\ backend_key b = k /\ h = discovered_health d m k.
Proof.
  intros [_ Hd]. unfold spec_discover.
  rewrite <-(elem_of_list_to_map (M := gmap Z)) by (by rewrite <-list_fmap_compose).
  rewrite list_elem_of_fmap. split.
  - by intros (b' & [= -> -> ->] & Hb).
  - intros (Hb & <- & ->). by exists b.
Qed.
Lemma discovered_cell_abs d r k :
  runtime_wf r ->
  discovered_cell (sn_health (snapshot r)) (fs_ready d) r k = discovered_health d (abs_pool r) k.
Proof.
  intros W. unfold discovered_cell, discovered_health.
  destruct (abs_pool r !! k) as [[b h]|] eqn:E.
  - apply abs_lookup in E as (_ & _ & Hm); [|done]. unfold member_health in Hm.
    destruct (sn_health (snapshot r) !! k); [|done]. cbn in Hm. by rewrite Hm.
  - by rewrite absent_health by (done || by rewrite E; intros []).
Qed.

Lemma discover_changed r d :
  runtime_wf r -> discovered_ok d ->
  let res := next_health (sn_health (snapshot r)) (fs_ready d) (fs_backends d) ∅ r in
  let r' := store_snapshot res.2 (mkSnapshot (fs_backends d) res.1) in
  runtime_wf r' /\ abs_pool r' = spec_discover d (abs_pool r).
Proof.
  intros W Hok res. pose proof Hok as [Hs Hd].
  destruct (next_health_post (sn_health (snapshot r)) (fs_ready d) (fs_backends d) ∅ r)
    as [R1 R2 R3 R4 R5 R6 R7 R8 R9].
  { done. } { done. } { by apply wf_map. } { by split. } { by intros ???. }
  fold res in R1, R2, R3, R4, R5, R6, R7, R8, R9. intros r'.
  assert (runtime_wf r') as W'.
  { apply publish_wf; [done..| |done]. intros k.
    destruct (decide (k ∈ backend_key <$> fs_backends d)) as [Hin|Hin].
    - destruct (R8 k Hin) as (c & -> & _). split; [|done]. intros _.
      apply list_elem_of_fmap in Hin as (b & -> & ?). eauto.
    - rewrite R7, lookup_empty by done. split; [by intros []|].
      intros (b & Hb & <-). destruct Hin. by apply list_elem_of_fmap_2. }
  split; [done|]. apply abs_eq; [done|]. intros k b h. rewrite spec_discover_lookup by done.
  cbn [sn_backends snapshot store_snapshot r'].
  split; intros (Hb & <- & Hh); split_and!; try done.
  all: destruct (R8 (backend_key b)) as (c & E1 & E2 & _); [by apply list_elem_of_fmap_2|].
  all: unfold member_health in *; cbn [r' store_snapshot snapshot sn_health cells] in *.
  all: rewrite E1 in *; cbn in *; rewrite discovered_cell_abs in E2 by done; congruence.
Qed.

Lemma enable_all_lookup (l : list (Z * bool)) (m : pool) k :
  NoDup l.*1 ->
  foldr (fun '(key, on) m => spec_enable key on m) m l !! k
  = match (list_to_map l : gmap Z bool) !! k with
    | Some on => (fun '(b, h) => (b, health_enable on h)) <$> m !! k
    | None => m !! k
    end.
Proof.
  induction l as [|[k0 on] l IH]; cbn [foldr list_to_map fmap list_fmap fst]; [done|].
  rewrite NoDup_cons. intros [Hk Hd]. unfold spec_enable at 1. destruct (decide (k0 = k)) as [->|Hne].
  - rewrite lookup_alter_eq, lookup_insert_eq, IH by done.
    by rewrite (not_elem_of_list_to_map_1 (M := gmap Z) _ _ Hk).
  - by rewrite lookup_alter_ne, lookup_insert_ne, IH.
Qed.
Lemma enable_all_refines (l : list (Z * bool)) r :
  runtime_wf r ->
  let r' := foldr (fun '(key, on) r =>
              match sn_health (snapshot r) !! key with
              | Some cell => enable_cell cell on r
              | None => r
              end) r l in
  runtime_wf r' /\ snapshot r' = snapshot r
  /\ abs_pool r' = foldr (fun '(key, on) m => spec_enable key on m) (abs_pool r) l.
Proof.
  intros W. induction l as [|[k on] l (W' & Es & E)]; [done|]. cbn [foldr] in *.
  set (r1 := foldr _ r l) in *. rewrite <-E. unfold spec_enable.
  destruct (sn_health (snapshot r1) !! k) as [c|] eqn:Ec.
  - destruct (cell_write r1 k c (health_enable on) W' Ec). by split_and!.
  - split_and!; [done..|]. symmetry. by apply alter_absent.
Qed.

Lemma discover_refines r d :
  runtime_wf r -> discovered_ok d ->
  runtime_wf (update_inner d r) /\ abs_pool (update_inner d r) = spec_discover d (abs_pool r).
Proof.
  intros W Hok. unfold update_inner. case_bool_decide as Hne.
  - pose proof (discover_changed r d W Hok) as H. by destruct (next_health _ _ _ _ _).
  - destruct (enable_all_refines (map_to_list (fs_ready d)) r W) as (W' & _ & E).
    split; [done|]. rewrite E. apply map_eq. intros k.
    rewrite enable_all_lookup, list_to_map_to_list by apply NoDup_fst_map_to_list.
    apply option_eq. intros [b h]. rewrite spec_discover_lookup by done.
    assert (sn_backends (snapshot r) = fs_backends d) as <- by (by destruct (decide (sn_backends (snapshot r) = fs_backends d))).
    unfold discovered_health. destruct (abs_pool r !! k) as [[b1 h1]|] eqn:Ek.
    + apply abs_lookup in Ek as (Hb1 & Hk1 & _); [|done].
      transitivity (b = b1 /\ h = match fs_ready d !! k with Some on => health_enable on h1 | None => h1 end).
      { destruct (fs_ready d !! k); cbn; naive_solver. }
      split; [intros [-> ->]; by split_and!|]. intros (Hb & Hk & ->). split; [|done].
      eapply (key_unique r); [done|done|done|congruence].
    + transitivity False; [by destruct (fs_ready d !! k)|]. split; [done|].
      intros (Hb & Hk & _). apply eq_None_not_Some in Ek. apply Ek.
      apply (proj1 (bool_decide_eq_true _)). rewrite <-has_key_abs, has_key_spec by done. eauto.
Qed.

(** ** Runs with outstanding tasks *)

Inductive pool_event : Type :=
| EvDiscover (d : FluxBackendSet)
| EvAdd (b : FluxBackend) (res : result Z BackendSetError)
| EvRemove (b : FluxBackend) (res : result Z BackendSetError)
| EvUpdate (current updated : FluxBackend) (res : result Z BackendSetError)
| EvEnable (b : FluxBackend) (on : bool)
| EvSpawn
| EvProbe (b : FluxBackend) (ok : bool) (threshold : Z) (fresh : bool).

(** A runtime and the health maps the outstanding probe tasks hold.  A probe
    is fresh when its member's record is still the one of the snapshot. *)
Inductive pool_step : Runtime * list (gmap Z positive) -> pool_event ->
                      Runtime * list (gmap Z positive) -> Prop :=
| ps_discover d r hs :
    discovered_ok d -> pool_step (r, hs) (EvDiscover d) (update_inner d r, hs)
| ps_add b res r r' hs :
    add_runtime_backend b r = (res, r') -> pool_step (r, hs) (EvAdd b res) (r', hs)
| ps_remove b res r r' hs :
    remove_runtime_backend b r = (res, r') -> pool_step (r, hs) (EvRemove b res) (r', hs)
| ps_update current updated res r r' hs :
    update_runtime_backend current updated r = (res, r') ->
    pool_step (r, hs) (EvUpdate current updated res) (r', hs)
| ps_enable b on r hs : pool_step (r, hs) (EvEnable b on) (set_enable b on r, hs)
| ps_spawn r hs : pool_step (r, hs) EvSpawn (r, sn_health (snapshot r) :: hs)
| ps_probe b ok threshold fresh held r hs :
    held ∈ hs ->
    fresh = bool_decide (held !! backend_key b = sn_health (snapshot r) !! backend_key b) ->
    pool_step (r, hs) (EvProbe b ok threshold fresh) ((check_one b ok threshold held r).2, hs).
Inductive pool_trace : Runtime * list (gmap Z positive) -> list pool_event ->
                       Runtime * list (gmap Z positive) -> Prop :=
| pt_nil s : pool_trace s [] s
| pt_snoc s evs s1 e s2 : pool_trace s evs s1 -> pool_step s1 e s2 -> pool_trace s (evs ++ [e]) s2.

Definition spec_event (static : bool) (m : pool) (e : pool_event) (m' : pool) : Prop :=
  match e with
  | EvDiscover d => m' = spec_discover d m
  | EvAdd b res => (res, m') = spec_add static b m
  | EvRemove b res => (res, m') = spec_remove static b m
  | EvUpdate current updated res => (res, m') = spec_update static current updated m
  | EvEnable b on => m' = spec_enable (backend_key b) on m
  | EvSpawn => m' = m
  | EvProbe b ok threshold fresh =>
      m' = if fresh then spec_probe (backend_key b) ok threshold m else m
  end.
Inductive spec_trace (static : bool) : pool -> list pool_event -> pool -> Prop :=
| st_nil m : spec_trace static m [] m
| st_snoc m evs m1 e m2 :
    spec_trace static m evs m1 -> spec_event static m1 e m2 -> spec_trace static m (evs ++ [e]) m2.

(** A step keeps cells allocated and gives no cell a second key. *)
Record evolves (r r' : Runtime) : Prop := {
  ev_wf : forall m, map_wf r m -> map_wf r' m;
  ev_health : forall k c, sn_health (snapshot r') !! k = Some c ->
                sn_health (snapshot r) !! k = Some c \/ (next_cell r <= c)%positive;
  ev_static : static_pool r' = static_pool r;
}.
Lemma evolves_refl r : evolves r r.
Proof. split; auto. Qed.
Lemma evolves_alloc r bs health k :
  (forall k c, health !! k = Some c -> sn_health (snapshot r) !! k = Some c) ->
  evolves r (store_snapshot (alloc r).2 (mkSnapshot bs (<[k := next_cell r]> health))).
Proof.
  intros Hs. split; [intros m Hm; by eapply map_wf_cells, alloc_held| |done].
  intros k' c. cbn. rewrite lookup_insert_Some. intros [[_ <-]|[_ H]]; [right; lia|left; auto].
Qed.
Lemma evolves_publish r bs health :
  (forall k c, health !! k = Some c -> sn_health (snapshot r) !! k = Some c) ->
  evolves r (store_snapshot r (mkSnapshot bs health)).
Proof. intros Hs. split; [|auto|done]. intros m. by apply map_wf_cells. Qed.
Lemma evolves_write r c f : evolves r (set_cells r (alter f c (cells r)) (next_cell r)).
Proof. split; [intros m; apply alter_map_wf|by left|done]. Qed.
Lemma evolves_held r r' held : evolves r r' -> held_ok r held -> held_ok r' held.
Proof.
  intros [E1 E2 _] [Hm Hs]. split; [auto|]. intros k k' c Hk Hk'.
  destruct (E2 _ _ Hk') as [H|H]; [eauto|]. destruct (mw_cells _ _ Hm _ _ Hk). lia.
Qed.

Lemma entry_cases k health r health' r' :
  entry_or_default k health r = (health', r') ->
  (health' = health /\ r' = r) \/ (health' = <[k := next_cell r]> health /\ r' = (alloc r).2).
Proof. unfold entry_or_default. case_match; intros; simplify_eq/=; auto. Qed.

Lemma add_evolves b r res r' : add_runtime_backend b r = (res, r') -> evolves r r'.
Proof.
  unfold add_runtime_backend. intros H.
  repeat (case_match; simplify_eq; try apply evolves_refl).
  match goal with H : entry_or_default _ _ _ = _ |- _ => apply entry_cases in H end.
  destruct_or!; destruct_and!; subst; [by apply evolves_publish|by apply evolves_alloc].
Qed.
Lemma remove_evolves b r res r' : remove_runtime_backend b r = (res, r') -> evolves r r'.
Proof.
  unfold remove_runtime_backend. intros H. repeat (case_match; simplify_eq; try apply evolves_refl).
  apply evolves_publish. intros k c. by rewrite lookup_delete_Some; intros [].
Qed.
Lemma update_evolves current updated r res r' :
  update_runtime_backend current updated r = (res, r') -> evolves r r'.
Proof.
  unfold update_runtime_backend. intros H.
  case_match; simplify_eq; [apply evolves_refl|]. case_match; simplify_eq; [apply evolves_refl|].
  case_match; simplify_eq; [apply evolves_refl|].
  destruct (bool_decide _);
    destruct (entry_or_default _ _ _) as [health r1] eqn:E; simplify_eq;
    apply entry_cases in E as [[-> ->]|[-> ->]];
    first [apply evolves_publish|apply evolves_alloc]; try done;
    intros k c; by rewrite lookup_delete_Some; intros [].
Qed.
Lemma set_enable_evolves b on r : evolves r (set_enable b on r).
Proof. unfold set_enable. case_match; [apply evolves_write|apply evolves_refl]. Qed.
Lemma check_one_evolves b ok threshold held r : evolves r (check_one b ok threshold held r).2.
Proof.
  unfold check_one. case_match; [|apply evolves_refl]. case_match eqn:Eh; [|apply evolves_refl].
  destruct (observe ok threshold _) as [fl h'] eqn:Eo. cbn [snd].
  pose proof (alter_insert_cell (fun _ => h') _ _ _ Eh) as Ew. cbn beta in Ew. rewrite Ew.
  apply evolves_write.
Qed.
Lemma evolves_trans r1 r2 r3 :
  snapshot r2 = snapshot r1 -> next_cell r2 = next_cell r1 ->
  evolves r1 r2 -> evolves r2 r3 -> evolves r1 r3.
Proof.
  intros E1 E2 [A1 A2 A3] [B1 B2 B3]. split; [auto| |congruence].
  intros k c H. destruct (B2 _ _ H) as [H'|H']; [by rewrite E1 in H'; left|rewrite E2 in H'; by right].
Qed.
Lemma discover_evolves d r : runtime_wf r -> discovered_ok d -> evolves r (update_inner d r).
Proof.
  intros W [Hs Hd]. unfold update_inner. case_bool_decide as Hne.
  - destruct (next_health_post (sn_health (snapshot r)) (fs_ready d) (fs_backends d) ∅ r)
      as [R1 R2 R3 R4 R5 R6 R7 R8 R9]; [done|done|by apply wf_map|by split|by intros ???|].
    destruct (next_health _ _ _ _ _) as [health r1]. cbn [fst snd] in *. split; [| |].
    + intros m Hm. by eapply map_wf_cells, R4.
    + intros k c. cbn. intros E. destruct (decide (k ∈ backend_key <$> fs_backends d)) as [Hin|Hin].
      * destruct (R8 k Hin) as (c' & E1 & _ & [H|H]); simplify_eq; auto.
      * rewrite R7, lookup_empty in E by done. done.
    + unfold static_pool, runtime_backend_set_mutable. cbn. by rewrite R2.
  - assert (forall l, let r' := foldr (fun '(key, on) r => match sn_health (snapshot r) !! key with
              | Some cell => enable_cell cell on r | None => r end) r l in
            evolves r r' /\ snapshot r' = snapshot r /\ next_cell r' = next_cell r) as Hl; [|apply Hl].
    induction l as [|[k on] l (IH & E1 & E2)]; [split; [apply evolves_refl|done]|]. cbn [foldr] in *.
    case_match; [|done]. split; [|done]. eapply evolves_trans; [done..|]. apply evolves_write.
Qed.

Record run_inv (static : bool) (s : Runtime * list (gmap Z positive)) (m : pool) : Prop := {
  ri_wf : runtime_wf s.1;
  ri_held : Forall (held_ok s.1) s.2;
  ri_static : static_pool s.1 = static;
  ri_abs : abs_pool s.1 = m;
}.
Lemma held_current r : runtime_wf r -> held_ok r (sn_health (snapshot r)).
Proof. intros W. split; [by apply wf_map|apply W]. Qed.

Lemma pool_step_simulates static s e s' m :
  run_inv static s m -> pool_step s e s' ->
  exists m', spec_event static m e m' /\ run_inv static s' m'.
Proof.
  intros [W Hh Hs <-] Hstep.
  assert (evolves s.1 s'.1 -> Forall (held_ok s'.1) s.2 /\ static_pool s'.1 = static) as Hev.
  { intros E. split; [|rewrite (ev_static _ _ E); done].
    eapply Forall_impl; [done|]. intros held. by apply evolves_held. }
  destruct Hstep as [d r hs Hd|b res r r' hs E|b res r r' hs E|c u res r r' hs E|b on r hs|r hs
    |b ok threshold fresh held r hs Hin ->]; cbn [fst snd spec_event] in *.
  - destruct (discover_refines r d W Hd) as [W' Ea].
    destruct (Hev (discover_evolves d r W Hd)). eexists; split; [done|]. by split.
  - destruct (add_refines r b W) as [W' Ea]. rewrite E in W', Ea. cbn [fst snd] in *.
    destruct (Hev (add_evolves _ _ _ _ E)). rewrite <-Hs. eexists; split; [by symmetry|]. by split; cbn; [| |congruence|].
  - destruct (remove_refines r b W) as [W' Ea]. rewrite E in W', Ea. cbn [fst snd] in *.
    destruct (Hev (remove_evolves _ _ _ _ E)). rewrite <-Hs. eexists; split; [by symmetry|]. by split; cbn; [| |congruence|].
  - destruct (update_refines r c u W) as [W' Ea]. rewrite E in W', Ea. cbn [fst snd] in *.
    destruct (Hev (update_evolves _ _ _ _ _ E)). rewrite <-Hs. eexists; split; [by symmetry|]. by split; cbn; [| |congruence|].
  - destruct (enable_refines r b on W) as [W' Ea].
    destruct (Hev (set_enable_evolves b on r)). eexists; split; [done|]. by split.
  - eexists; split; [done|]. split; [done| |done|done]. cbn. constructor; [by apply held_current|done].
  - rewrite Forall_forall in Hh. destruct (probe_refines r b ok threshold held W (Hh _ Hin)) as [W' Ea].
    destruct (Hev (check_one_evolves b ok threshold held r)).
    eexists; split; [done|]. by split.
Qed.

Lemma runtime_new_inv frequency check :
  run_inv (match frequency with None => true | Some _ => false end) (runtime_new frequency check, []) ∅.
Proof.
  split; cbn; [|constructor|by destruct frequency|done]. split; cbn; try done.
  - constructor.
  - constructor.
  - intros k. rewrite lookup_empty. split; [by intros []|]. by intros (b & ?%elem_of_nil & _).
Qed.

Lemma pool_trace_simulates static s evs s' m :
  run_inv static s m -> pool_trace s evs s' ->
  exists m', spec_trace static m evs m' /\ run_inv static s' m'.
Proof.
  intros Hi. induction 1 as [|s evs s1 e s2 _ IH Hstep]; [by exists m; split; [constructor|]|].
  destruct (IH Hi) as (m1 & Ht & Hi1). destruct (pool_step_simulates _ _ _ _ _ Hi1 Hstep) as (m2 & He & Hi2).
  exists m2. split; [by econstructor|done].
Qed.

Lemma ready_abs r b :
  runtime_wf r ->
  snapshot_ready r b = match abs_pool r !! backend_key b with
                       | Some (_, h) => health_ready h
                       | None => negb (health_check r)
                       end.
Proof.
  intros W. unfold snapshot_ready. destruct (abs_pool r !! backend_key b) as [[c h]|] eqn:E.
  - apply abs_lookup in E as (_ & _ & Hm); [|done]. unfold member_health in Hm.
    destruct (sn_health (snapshot r) !! backend_key b); [|done]. cbn in Hm. by rewrite Hm.
  - by rewrite absent_health by (done || by rewrite E; intros []).
Qed.

(** C16: the backend set is a finite map.  Whatever sequence of discoveries,
    additions, removals, replacements, enablements and probes runs, with probe
    tasks that hold older snapshots, every result and every later state is the
    one of the finite map from keys to members and their health; a probe
    writes to the record of its own member or, if that was replaced
    meanwhile, to none; and readiness is read from that map. *)
Theorem backend_set_refines_map (frequency : option Z) (check : bool) (evs : list pool_event)
    (r : Runtime) (held : list (gmap Z positive)) :
  pool_trace (runtime_new frequency check, []) evs (r, held) ->
  spec_trace (match frequency with None => true | Some _ => false end) ∅ evs (abs_pool r)
  /\ StronglySorted backend_lt (sn_backends (snapshot r))
  /\ (forall b, snapshot_ready r b = match abs_pool r !! backend_key b with
                                     | Some (_, h) => health_ready h
                                     | None => negb (health_check r)
                                     end).
Proof.
  intros Ht. destruct (pool_trace_simulates _ _ _ _ _ (runtime_new_inv frequency check) Ht)
    as (m & Hs & [W _ _ Ea]). cbn [fst] in *. subst m.
  split; [done|]. split; [apply W|]. intros b. by apply ready_abs.
Qed.
Definition sample_backend (port : Z) : FluxBackend :=
  mkFluxBackend (mkSocketAddr (V4 10 0 0 1) port 0) 1.
Definition sample_discovery : FluxBackendSet :=
  backend_set_insert (backend_set_insert backend_set_default (sample_backend 81)) (sample_backend 80).
Lemma sample_discovery_ok : discovered_ok sample_discovery.
Proof.
  split; [apply set_insert_sorted, set_insert_sorted; constructor|].
  by apply (bool_decide_unpack _); vm_compute.
Qed.
Definition sample_r1 : Runtime := update_inner sample_discovery (runtime_new None true).
Definition sample_r2 : Runtime := (remove_runtime_backend (sample_backend 80) sample_r1).2.
Definition sample_r3 : Runtime :=
  (check_one (sample_backend 80) false 1 (sn_health (snapshot sample_r1)) sample_r2).2.
(** The removed member's late probe is not fresh. *)
Definition sample_events : list pool_event :=
  ((([] ++ [EvDiscover sample_discovery]) ++ [EvSpawn]) ++ [EvRemove (sample_backend 80) (Ok 1)])
  ++ [EvProbe (sample_backend 80) false 1 false].
Lemma backend_set_refines_map_witness : spec_trace true ∅ sample_events (abs_pool sample_r3).
Proof.
  apply (backend_set_refines_map None true sample_events sample_r3 [sn_health (snapshot sample_r1)]).
  eapply pt_snoc; [eapply pt_snoc; [eapply pt_snoc; [eapply pt_snoc; [apply pt_nil|]|]|]|].
  - apply ps_discover, sample_discovery_ok.
  - apply ps_spawn.
  - eapply (ps_remove _ _ _ sample_r2).
    rewrite (surjective_pairing (remove_runtime_backend _ _)). apply f_equal2; [by vm_compute|done].
  - apply ps_probe; [by left|by vm_compute].
Defined.

(** ** Hysteresis of health checks *)

(** Whether one of the observations flips the record. *)
Fixpoint observe_flips (threshold : Z) (h : FluxBackendHealthInner) (obs : list bool) : bool :=
  match obs with
  | [] => false
  | o :: obs' =>
      let '(flipped, h') := observe o threshold h in flipped || observe_flips threshold h' obs'
  end.
Definition has_run (n : nat) (x : bool) (l : list bool) : Prop :=
  exists pre post, l = pre ++ replicate n x ++ post.

Lemma has_run_cons n x y l :
  has_run n x (y :: l) <-> (exists post, y :: l = replicate n x ++ post) \/ has_run n x l.
Proof.
  split.
  - intros ([|z pre] & post & E); [by left; exists post|]. right. simplify_eq/=. by exists pre, post.
  - intros [(post & E)|(pre & post & ->)]; [by exists [], post|]. by exists (y :: pre), post.
Qed.

Lemma observe_flips_from n c h obs :
  (0 < n)%nat -> (c < n)%nat -> Z.of_nat n <= USIZE_MAX -> consecutive_counter h = Z.of_nat c ->
  observe_flips (Z.of_nat n) h obs = true
  <-> (exists post, obs = replicate (n - c) (negb (healthy h)) ++ post)
      \/ has_run n (negb (healthy h)) obs.
Proof.
  intros Hn Hc Hmax. revert c h Hc. induction obs as [|o obs IH]; intros c h Hc Hk; cbn [observe_flips].
  { split; [done|]. replace n with (S (n - 1)) by lia.
    intros [(post & E)|([|] & post & E)]; [|done..].
    replace (S (n - 1) - c)%nat with (S (n - c - 1)) in E by lia. done. }
  rewrite has_run_cons. unfold observe. rewrite Hk. destruct (decide (o = healthy h)) as [->|Hne].
  - rewrite bool_decide_eq_false_2 by naive_solver. cbn [orb]. rewrite (IH 0%nat) by done. cbn [healthy orb].
    assert (forall k post, (0 < k)%nat -> healthy h :: obs <> replicate k (negb (healthy h)) ++ post) as Hno.
    { intros k post Hpos E. destruct k; [lia|]. simplify_eq/=. by destruct (healthy h). }
    split.
    + intros [(post & E)|?]; [|by right; right]. right; right. exists [], post.
      by replace (n - 0)%nat with n in E by lia.
    + intros [(post & E)|[(post & E)|?]]; [by apply Hno in E; lia || done..|by right].
  - assert (o = negb (healthy h)) as -> by (by destruct o, (healthy h)).
    rewrite bool_decide_eq_true_2 by done.
    rewrite saturating_add_exact by lia. destruct (Z.leb_spec (Z.of_nat n) (Z.of_nat c + 1)).
    + cbn [orb]. split; [|done]. intros _. left. exists obs. by replace (n - c)%nat with 1%nat by lia.
    + cbn [orb]. rewrite (IH (S c)) by (cbn; lia). cbn [healthy].
      replace (n - c)%nat with (S (n - S c)) by lia. cbn [replicate app].
      split.
      * intros [(post & ->)|?]; [left; by exists post|by right; right].
      * intros [(post & E)|[(post & E)|?]]; [simplify_eq; left; by exists post| |by right].
        left. exists (replicate c (negb (healthy h)) ++ post).
        replace n with (S (n - S c) + c)%nat in E at 1 by lia.
        rewrite replicate_add, <-app_assoc in E. by simplify_eq/=.
Qed.

(** Hysteresis.  A backend whose counter is clear changes its health if
    and only if the configured number of probes in a row contradict it; fewer
    in a row, however often, never do. *)
Theorem health_flip_exact (threshold : Z) (h : FluxBackendHealthInner) (obs : list bool) :
  0 < threshold <= USIZE_MAX -> consecutive_counter h = 0 ->
  observe_flips threshold h obs = true
  <-> has_run (Z.to_nat threshold) (negb (healthy h)) obs.
Proof.
  intros Ht Hc. rewrite <-(Z2Nat.id threshold) at 1 by lia.
  rewrite (observe_flips_from _ 0) by lia. rewrite Nat.sub_0_r. split; [|by right].
  intros [(post & ->)|?]; [by exists [], post|done].
Qed.
Lemma health_flip_exact_witness :
  observe_flips 2 health_default [false; true; false; true] = true
  <-> has_run 2 false [false; true; false; true].
Proof. apply (health_flip_exact 2 health_default); [unfold USIZE_MAX, U64_MAX; lia|done]. Defined.
