(* ===== verification/LbState.v ===== *)
(** * Shared selection state of a pool ([state.rs])

    Passive ejections, slow start, connection counts and latencies, as one
    record threaded through the operations.  The clock and the entropy source
    are streams of the environment: each [Instant::now()] takes the next
    reading, each [getrandom] call the next value. *)
From Stdlib Require Import ZArith Lia.
From stdpp Require Import base list numbers strings sets gmap.
From S2P Require Import Prelude Text NetAddr LbRetry LbBackend.

(** ** The environment and the state *)

Class Env : Type := {
  clock : nat -> Z;
  random : nat -> Z;
  maglev_route_secret : Z;
  consistent_route_secret : Z;
  fnv_route_secret : Z;
  random_fill : nat -> nat -> list Z;
}.

Record PassiveBackendHealth : Type := mkPassive {
  consecutive_failures : Z;
  ejected_until : option Z;
}.
Record BackendLatencySample : Type := mkLatencySample {
  micros : Z;
  observed_at : Z;
}.

(** [LoadBalancerPersistenceEntry] *)
Record PersistenceEntry : Type := mkPersistenceEntry {
  pe_backend_key : Z;
  pe_expires_at : Z;
}.

(** The keys that sign affinity cookies: the current one and its predecessor. *)
Record ManagedCookieHmacKey : Type := mkHmacKey {
  hk_key : list Z;
  hk_created_at : Z;
}.
Record ManagedCookieHmacKeyRing : Type := mkKeyRing {
  kr_current : ManagedCookieHmacKey;
  kr_previous : option ManagedCookieHmacKey;
}.

Record World : Type := mkWorld {
  w_tick : nat;
  w_entropy : nat;
  w_passive : gmap Z PassiveBackendHealth;
  w_slow : gmap Z Z;
  w_sample_counter : Z;
  w_counts : gmap Z Z;
  w_latency : gmap Z BackendLatencySample;
  w_cursor : Z;
  w_table : gmap (list Z) PersistenceEntry;
  w_ring : option ManagedCookieHmacKeyRing;
}.

Definition set_passive (f : gmap Z PassiveBackendHealth -> gmap Z PassiveBackendHealth) (w : World) : World :=
  mkWorld (w_tick w) (w_entropy w) (f (w_passive w)) (w_slow w) (w_sample_counter w) (w_counts w)
    (w_latency w) (w_cursor w) (w_table w) (w_ring w).
Definition set_slow (f : gmap Z Z -> gmap Z Z) (w : World) : World :=
  mkWorld (w_tick w) (w_entropy w) (w_passive w) (f (w_slow w)) (w_sample_counter w) (w_counts w)
    (w_latency w) (w_cursor w) (w_table w) (w_ring w).
Definition set_sample_counter (n : Z) (w : World) : World :=
  mkWorld (w_tick w) (w_entropy w) (w_passive w) (w_slow w) n (w_counts w) (w_latency w) (w_cursor w) (w_table w) (w_ring w).
Definition set_counts (f : gmap Z Z -> gmap Z Z) (w : World) : World :=
  mkWorld (w_tick w) (w_entropy w) (w_passive w) (w_slow w) (w_sample_counter w) (f (w_counts w))
    (w_latency w) (w_cursor w) (w_table w) (w_ring w).
Definition set_latency (f : gmap Z BackendLatencySample -> gmap Z BackendLatencySample) (w : World) : World :=
  mkWorld (w_tick w) (w_entropy w) (w_passive w) (w_slow w) (w_sample_counter w) (w_counts w)
    (f (w_latency w)) (w_cursor w) (w_table w) (w_ring w).
Definition set_cursor (n : Z) (w : World) : World :=
  mkWorld (w_tick w) (w_entropy w) (w_passive w) (w_slow w) (w_sample_counter w) (w_counts w)
    (w_latency w) n (w_table w) (w_ring w).

Definition set_table (f : gmap (list Z) PersistenceEntry -> gmap (list Z) PersistenceEntry) (w : World)
  : World :=
  mkWorld (w_tick w) (w_entropy w) (w_passive w) (w_slow w) (w_sample_counter w) (w_counts w)
    (w_latency w) (w_cursor w) (f (w_table w)) (w_ring w).

Definition set_ring (r : ManagedCookieHmacKeyRing) (w : World) : World :=
  mkWorld (w_tick w) (w_entropy w) (w_passive w) (w_slow w) (w_sample_counter w) (w_counts w)
    (w_latency w) (w_cursor w) (w_table w) (Some r).

(** ** The state monad *)

Definition M (A : Type) : Type := World -> A * World.
Definition ret {A} (a : A) : M A := fun w => (a, w).
Definition bind {A B} (m : M A) (k : A -> M B) : M B := fun w => let '(a, w') := m w in k a w'.
Definition modify (f : World -> World) : M unit := fun w => (tt, f w).
Definition get {A} (f : World -> A) : M A := fun w => (f w, w).
Notation "'let!' x ':=' m 'in' k" := (bind m (fun x => k))
  (at level 10, x pattern, m at level 150, k at level 200) : rust_scope.
Notation "m ';;;' k" := (bind m (fun _ => k)) (at level 100, right associativity) : rust_scope.

(** [a && b] and [a || b] of computations, [b] only run when needed *)
Definition and_then (a b : M bool) : M bool := let! x := a in if x then b else ret false.
Definition or_else (a b : M bool) : M bool := let! x := a in if x then ret true else b.

(** [Instant::now()] and one 64-bit word of entropy *)
Definition instant_now `{Env} : M Z :=
  fun w => (clock (w_tick w),
            mkWorld (S (w_tick w)) (w_entropy w) (w_passive w) (w_slow w) (w_sample_counter w)
              (w_counts w) (w_latency w) (w_cursor w) (w_table w) (w_ring w)).
Definition random_u64 `{Env} : M Z :=
  fun w => (random (w_entropy w),
            mkWorld (w_tick w) (S (w_entropy w)) (w_passive w) (w_slow w) (w_sample_counter w)
              (w_counts w) (w_latency w) (w_cursor w) (w_table w) (w_ring w)).

(** [getrandom::fill] of [len] bytes *)
Definition getrandom_fill `{Env} (len : nat) : M (list Z) :=
  fun w => (random_fill (w_entropy w) len,
            mkWorld (w_tick w) (S (w_entropy w)) (w_passive w) (w_slow w) (w_sample_counter w)
              (w_counts w) (w_latency w) (w_cursor w) (w_table w) (w_ring w)).

(** Durations in nanoseconds. *)
Definition duration_from_secs (s : Z) : Z := s * NANOS_PER_SEC.
Definition duration_from_millis (ms : Z) : Z := ms * 1000000.
Definition as_millis (d : Z) : Z := d / 1000000.
Definition as_micros (d : Z) : Z := d / 1000.

(** [HashMap::retain] *)
Definition retain {V} (keep : Z -> V -> bool) (m : gmap Z V) : gmap Z V :=
  filter (fun kv => keep kv.1 kv.2 = true) m.

(** ** Passive health *)

Record PassiveHealthState : Type := mkPassiveHealth {
  consecutive_failure : Z;
  ejection : Z;
  min_healthy_backends : Z;
  max_latency : option Z;
  failure_statuses : list Z;
  failure_status_ranges : list (Z * Z);
}.

(** [PassiveHealthState::from_config] *)
Definition passive_from_config (failures ejection_secs min_healthy max_latency_ms : Z)
    (statuses : list Z) (ranges : list (Z * Z)) : PassiveHealthState :=
  mkPassiveHealth failures (duration_from_secs ejection_secs) min_healthy
    (if 0 <? max_latency_ms then Some (duration_from_millis max_latency_ms) else None)
    statuses ranges.

Section PassiveHealth.
Context `{Env}.

(** [key_is_ejected]: an ejection that is over is forgotten. *)
Definition key_is_ejected (key : Z) : M bool :=
  let! passive := get w_passive in
  match passive !! key with
  | None => ret false
  | Some state =>
      let! ejected := match ejected_until state with
                      | Some until => let! now := instant_now in ret (now <? until)
                      | None => ret false
                      end in
      if ejected : bool then ret true
      else
        modify (set_passive <[key := mkPassive (consecutive_failures state) None]>) ;;;
        ret false
  end.
Definition is_ejected (b : FluxBackend) : M bool := key_is_ejected (backend_key b).

Definition failure_status (s : PassiveHealthState) (status : Z) : bool :=
  if bool_decide (failure_statuses s = []) && bool_decide (failure_status_ranges s = [])
  then between 500 599 status
  else bool_decide (status ∈ failure_statuses s)
       || existsb (fun range => between range.1 range.2 status) (failure_status_ranges s).
Definition status_is_failure (s : PassiveHealthState) (status : Z) (latency : option Z) : bool :=
  failure_status s status
  || match latency, max_latency s with
     | Some latency, Some max => max <=? latency
     | _, _ => false
     end.

(** [PassiveHealthState::record_failure]: the end of the ejection it starts. *)
Definition record_failure (s : PassiveHealthState) (key : Z) : M (option Z) :=
  let! passive := get w_passive in
  let state := default (mkPassive 0 None) (passive !! key) in
  let failures := saturating_add USIZE_MAX (consecutive_failures state) 1 in
  if consecutive_failure s <=? failures then
    let! now := instant_now in
    let until := now + ejection s in
    modify (set_passive <[key := mkPassive 0 (Some until)]>) ;;;
    ret (Some until)
  else
    modify (set_passive <[key := mkPassive failures (ejected_until state)]>) ;;;
    ret None.
Definition record_success (key : Z) : M unit :=
  modify (set_passive (alter (fun _ => mkPassive 0 None) key)).
Definition record_status (s : PassiveHealthState) (key status : Z) (latency : option Z)
  : M (option Z) :=
  if status_is_failure s status latency then record_failure s key
  else record_success key ;;; ret None.

Definition passive_clear_key (key : Z) : M unit := modify (set_passive (delete key)).
(** [key_is_currently_ejected], [key_consecutive_failures] *)
Definition key_is_currently_ejected (key : Z) : M bool :=
  let! passive := get w_passive in
  match passive !! key ≫= ejected_until with
  | Some until => let! now := instant_now in ret (now <? until)
  | None => ret false
  end.
Definition key_consecutive_failures (key : Z) : M (option Z) :=
  get (fun w => consecutive_failures <$> w_passive w !! key).
Definition passive_prune_stale (live : gset Z) : M unit :=
  let! now := instant_now in
  modify (set_passive (retain (fun key state =>
    bool_decide (key ∈ live)
    || match ejected_until state with Some until => now <? until | None => false end))).
End PassiveHealth.

(** ** Slow start *)

(** [SlowStartState::duration]; its maps are in the state. *)
Definition progress_per_mille (elapsed duration : Z) : Z :=
  Z.max 1 (Z.min 1000 ((as_millis elapsed * 1000) / as_millis duration)).

Section SlowStart.
Context `{Env}.

Definition slow_permits (duration : Z) (b : FluxBackend) : M bool :=
  let! now := instant_now in
  let key := backend_key b in
  let! slow := get w_slow in
  let started_at := default now (slow !! key) in
  modify (set_slow (fun m => match m !! key with Some _ => m | None => <[key := now]> m end)) ;;;
  let elapsed := saturating_sub now started_at in
  if (duration =? 0) || (duration <=? elapsed) then ret true
  else
    let progress := progress_per_mille elapsed duration in
    let! sample := get w_sample_counter in
    modify (set_sample_counter ((sample + 1) mod (U64_MAX + 1))) ;;;
    let bucket := fnv1a64_with_seed (to_le_bytes 8 sample) key mod 1000 in
    ret (bucket <? progress).

Definition slow_permits_read_only (duration : Z) (b : FluxBackend) : M bool :=
  let! now := instant_now in
  let! slow := get w_slow in
  match slow !! backend_key b with
  | None => ret true
  | Some started_at =>
      if duration =? 0 then ret true
      else
        let elapsed := saturating_sub now started_at in
        if duration <=? elapsed then ret true
        else ret (500 <=? progress_per_mille elapsed duration)
  end.
Definition slow_reset_at (key restart_at : Z) : M unit := modify (set_slow <[key := restart_at]>).
Definition slow_prune_stale (live : gset Z) : M unit :=
  modify (set_slow (retain (fun key _ => bool_decide (key ∈ live)))).
End SlowStart.

(** ** Connection counts *)

(** [counter]: the entry of a backend, created at zero. *)
Definition counter_entry (key : Z) (m : gmap Z Z) : gmap Z Z :=
  match m !! key with Some _ => m | None => <[key := 0]> m end.
Definition count_of (w : World) (key : Z) : Z := default 0 (w_counts w !! key).
Definition connections (b : FluxBackend) : M Z :=
  modify (set_counts (counter_entry (backend_key b))) ;;;
  get (fun w => count_of w (backend_key b)).
Definition count_existing (b : FluxBackend) : M Z := get (fun w => count_of w (backend_key b)).
Definition counts_prune_stale (live : gset Z) : M unit :=
  modify (set_counts (retain (fun key n => bool_decide (key ∈ live) || (0 <? n)))).

(** ** Latencies *)

Definition LATENCY_RESAMPLE_AFTER : Z := duration_from_secs 30.

Section Latency.
Context `{Env}.

Definition record_latency (key latency : Z) : M unit :=
  let sample := Z.max 1 (Z.min U64_MAX (as_micros latency)) in
  let! samples := get w_latency in
  match samples !! key with
  | Some stored =>
      let! read_at := instant_now in
      let value := if LATENCY_RESAMPLE_AFTER <=? saturating_sub read_at (observed_at stored)
                   then sample
                   else (micros stored * 3 + sample + 2) / 4 in
      let! now := instant_now in
      modify (set_latency <[key := mkLatencySample value now]>)
  | None =>
      let! now := instant_now in
      modify (set_latency <[key := mkLatencySample sample now]>)
  end.
Definition latency_score (b : FluxBackend) : M (option Z) :=
  let! samples := get w_latency in
  match samples !! backend_key b with
  | None => ret None
  | Some stored =>
      let! now := instant_now in
      if saturating_sub now (observed_at stored) <? LATENCY_RESAMPLE_AFTER
      then ret (Some (micros stored)) else ret None
  end.
Definition latency_score_key (key : Z) : M (option Z) :=
  get (fun w => micros <$> w_latency w !! key).
Definition latency_prune_stale (live : gset Z) : M unit :=
  modify (set_latency (retain (fun key _ => bool_decide (key ∈ live)))).
End Latency.

(** ** The reporter of one dispatched request *)

(** [LoadBalancedUpstreamReporter]: which of the states the pool has. *)
Record Reporter : Type := mkReporter {
  rp_backend_key : Z;
  rp_passive : option PassiveHealthState;
  rp_slow_start : bool;
  rp_latency : bool;
}.
Record LoadBalancedUpstreamOutcome : Type := mkOutcome {
  failed : bool;
  ejected : bool;
}.

Section Reporter.
Context `{Env}.

Definition reset_slow_start (r : Reporter) (restart_at : Z) : M unit :=
  if rp_slow_start r then slow_reset_at (rp_backend_key r) restart_at else ret tt.
Definition after_ejection (r : Reporter) (ejected_at : option Z) : M unit :=
  match ejected_at with Some restart_at => reset_slow_start r restart_at | None => ret tt end.

(** [LoadBalancedUpstreamReporter::record_status] *)
Definition reporter_record_status (r : Reporter) (status : Z) (latency : option Z)
  : M LoadBalancedUpstreamOutcome :=
  match rp_latency r, latency with
  | true, Some latency => record_latency (rp_backend_key r) latency
  | _, _ => ret tt
  end ;;;
  match rp_passive r with
  | None => ret (mkOutcome false false)
  | Some s =>
      let failed := status_is_failure s status latency in
      let! ejected_at := record_status s (rp_backend_key r) status latency in
      after_ejection r ejected_at ;;;
      ret (mkOutcome failed (bool_decide (is_Some ejected_at)))
  end.

(** [LoadBalancedUpstreamReporter::record_failure] *)
Definition reporter_record_failure (r : Reporter) : M LoadBalancedUpstreamOutcome :=
  match rp_passive r with
  | None => ret (mkOutcome true false)
  | Some s =>
      let! ejected_at := record_failure s (rp_backend_key r) in
      after_ejection r ejected_at ;;;
      ret (mkOutcome true (bool_decide (is_Some ejected_at)))
  end.
End Reporter.
