(* ===== verification/LbPolicy.v ===== *)
(** * Backend policy ([policy.rs], [policy_runtime.rs], [policy_config.rs],
    [api_mutation.rs])

    Which members a selection pass may use: the configured sets, the runtime
    overrides of an operator, and the weights derived from health checks. *)
From Stdlib Require Import ZArith Lia.
From stdpp Require Import base list numbers strings sets gmap sorting.
From S2P Require Import Prelude Text NetAddr LbRetry LbBackend LbState.

(** ** Runtime overrides *)

Inductive LoadBalancerRuntimeBackendState : Type :=
| Normal
| Drained
| Disabled
| ForcedDown
| ManualResume.
#[export] Instance LoadBalancerRuntimeBackendState_eq_dec : EqDecision LoadBalancerRuntimeBackendState.
Proof. solve_decision. Defined.

Definition state_parse (value : list Z) : option LoadBalancerRuntimeBackendState :=
  let v := to_ascii_lowercase (trim value) in
  let any_of := fun names => existsb (fun name => bool_decide (v = bs name)) names in
  if any_of ["normal"; "enable"; "enabled"] then Some Normal
  else if any_of ["drain"; "drained"] then Some Drained
  else if any_of ["disable"; "disabled"] then Some Disabled
  else if any_of ["down"; "force-down"; "force_down"; "forced-down"; "forced_down"] then Some ForcedDown
  else if any_of ["resume"; "resumed"; "manual-resume"; "manual_resume"] then Some ManualResume
  else None.
Definition as_str (s : LoadBalancerRuntimeBackendState) : list Z :=
  match s with
  | Normal => bs "normal"
  | Drained => bs "drained"
  | Disabled => bs "disabled"
  | ForcedDown => bs "forced_down"
  | ManualResume => bs "manual_resume"
  end.

Definition MAX_RUNTIME_BACKEND_POLICY_OVERRIDE_ENTRIES : Z := 4096.
Definition MAX_RUNTIME_BACKEND_WEIGHT : Z := 1000.

(** [RuntimeBackendPolicyOverrideState] *)
Record Overrides : Type := mkOverrides {
  ov_drain : gset Z;
  ov_disabled : gset Z;
  ov_forced_down : gset Z;
  ov_weights : gmap Z Z;
  ov_weight_changed : gmap Z Z;
  ov_changed : gmap Z Z;
}.
Definition overrides_default : Overrides := mkOverrides ∅ ∅ ∅ ∅ ∅ ∅.

Definition overrides_drained (o : Overrides) (key : Z) : bool := bool_decide (key ∈ ov_drain o).
Definition overrides_disabled (o : Overrides) (key : Z) : bool :=
  bool_decide (key ∈ ov_disabled o) || bool_decide (key ∈ ov_forced_down o).

Definition key_has_capacity (keys : gset Z) (key : Z) : bool :=
  bool_decide (key ∈ keys)
  || (Z.of_nat (size keys) <? MAX_RUNTIME_BACKEND_POLICY_OVERRIDE_ENTRIES).

(** [set_state]; [now] is [unix_secs()]. *)
Definition set_state (key : Z) (state : LoadBalancerRuntimeBackendState) (now : Z) (o : Overrides)
  : bool * Overrides :=
  let drain := ov_drain o ∖ {[key]} in
  let disabled := ov_disabled o ∖ {[key]} in
  let forced := ov_forced_down o ∖ {[key]} in
  match state with
  | Normal | ManualResume =>
      (true, mkOverrides drain disabled forced (ov_weights o) (ov_weight_changed o)
               (delete key (ov_changed o)))
  | Drained =>
      if key_has_capacity drain key
      then (true, mkOverrides (drain ∪ {[key]}) disabled forced (ov_weights o) (ov_weight_changed o)
                    (<[key := now]> (ov_changed o)))
      else (false, mkOverrides drain disabled forced (ov_weights o) (ov_weight_changed o) (ov_changed o))
  | Disabled =>
      if key_has_capacity disabled key
      then (true, mkOverrides drain (disabled ∪ {[key]}) forced (ov_weights o) (ov_weight_changed o)
                    (<[key := now]> (ov_changed o)))
      else (false, mkOverrides drain disabled forced (ov_weights o) (ov_weight_changed o) (ov_changed o))
  | ForcedDown =>
      if key_has_capacity forced key
      then (true, mkOverrides drain disabled (forced ∪ {[key]}) (ov_weights o) (ov_weight_changed o)
                    (<[key := now]> (ov_changed o)))
      else (false, mkOverrides drain disabled forced (ov_weights o) (ov_weight_changed o) (ov_changed o))
  end.

Definition set_weight (key : Z) (w : option Z) (now : Z) (o : Overrides) : bool * Overrides :=
  match w with
  | Some w =>
      if negb (bool_decide (is_Some (ov_weights o !! key)))
         && (MAX_RUNTIME_BACKEND_POLICY_OVERRIDE_ENTRIES <=? Z.of_nat (size (ov_weights o)))
      then (false, o)
      else (true, mkOverrides (ov_drain o) (ov_disabled o) (ov_forced_down o)
                    (<[key := w]> (ov_weights o)) (<[key := now]> (ov_weight_changed o)) (ov_changed o))
  | None =>
      (true, mkOverrides (ov_drain o) (ov_disabled o) (ov_forced_down o)
               (delete key (ov_weights o)) (delete key (ov_weight_changed o)) (ov_changed o))
  end.

Definition override_state (o : Overrides) (key : Z) : option LoadBalancerRuntimeBackendState :=
  if bool_decide (key ∈ ov_forced_down o) then Some ForcedDown
  else if bool_decide (key ∈ ov_disabled o) then Some Disabled
  else if bool_decide (key ∈ ov_drain o) then Some Drained
  else None.

Definition overrides_prune_stale (live : gset Z) (o : Overrides) : Overrides :=
  let retained := ov_disabled o ∪ ov_forced_down o in
  let keep := fun (key _ : Z) => bool_decide (key ∈ live) || bool_decide (key ∈ retained) in
  mkOverrides (filter (fun key => key ∈ live) (ov_drain o)) (ov_disabled o) (ov_forced_down o)
    (retain keep (ov_weights o)) (retain keep (ov_weight_changed o)) (retain keep (ov_changed o)).

Definition overrides_clear_key (key : Z) (o : Overrides) : Overrides :=
  mkOverrides (ov_drain o ∖ {[key]}) (ov_disabled o ∖ {[key]}) (ov_forced_down o ∖ {[key]})
    (delete key (ov_weights o)) (delete key (ov_weight_changed o)) (delete key (ov_changed o)).

(** ** Snapshots of the overrides *)

Record StateSnapshot : Type := mkStateSnapshot {
  ss_key : Z;
  ss_state : LoadBalancerRuntimeBackendState;
  ss_changed_at : Z;
}.
Record WeightSnapshot : Type := mkWeightSnapshot {
  ws_key : Z;
  ws_weight : Z;
  ws_changed_at : Z;
}.
Record PolicySnapshot : Type := mkPolicySnapshot {
  ps_states : list StateSnapshot;
  ps_weights : list WeightSnapshot;
}.

(** The sort keys [(entry.key, entry.state.as_str())] and [entry.key]. *)
Definition state_le (x y : StateSnapshot) : Prop :=
  ss_key x < ss_key y
  \/ (ss_key x = ss_key y /\ lex_cmp (as_str (ss_state x)) (as_str (ss_state y)) <> Gt).
#[export] Instance state_le_dec : RelDecision state_le.
Proof. intros x y. unfold state_le. apply _. Defined.
Definition weight_le (x y : WeightSnapshot) : Prop := ws_key x <= ws_key y.
#[export] Instance weight_le_dec : RelDecision weight_le.
Proof. intros x y. unfold weight_le. apply _. Defined.

Definition state_entries (o : Overrides) (state : LoadBalancerRuntimeBackendState) (keys : gset Z)
  : list StateSnapshot :=
  (fun key => mkStateSnapshot key state (default 0 (ov_changed o !! key))) <$> elements keys.
Definition weight_entries (o : Overrides) : list WeightSnapshot :=
  (fun '(key, w) => mkWeightSnapshot key w (default 0 (ov_weight_changed o !! key)))
  <$> map_to_list (ov_weights o).
Definition policy_snapshot (o : Overrides) : PolicySnapshot :=
  mkPolicySnapshot
    (merge_sort state_le (state_entries o Drained (ov_drain o)
                          ++ state_entries o Disabled (ov_disabled o)
                          ++ state_entries o ForcedDown (ov_forced_down o)))
    (merge_sort weight_le (weight_entries o)).

Inductive SnapshotError : Type :=
| ExceedsEntryLimit
| DuplicateStateKeys
| NonPersistentState
| DuplicateWeightKeys
| InvalidWeight.

(** The loop of [prepare_snapshot] over the states; [seen] is [seen_states]. *)
Fixpoint restore_states (entries : list StateSnapshot) (seen : gset Z) (o : Overrides)
  : result Overrides SnapshotError :=
  match entries with
  | [] => Ok o
  | e :: entries' =>
      let key := ss_key e in
      if bool_decide (key ∈ seen) then Err DuplicateStateKeys
      else
        let changed := <[key := ss_changed_at e]> (ov_changed o) in
        let? o := match ss_state e with
                  | Drained => Ok (mkOverrides (ov_drain o ∪ {[key]}) (ov_disabled o)
                                     (ov_forced_down o) (ov_weights o) (ov_weight_changed o) changed)
                  | Disabled => Ok (mkOverrides (ov_drain o) (ov_disabled o ∪ {[key]})
                                      (ov_forced_down o) (ov_weights o) (ov_weight_changed o) changed)
                  | ForcedDown => Ok (mkOverrides (ov_drain o) (ov_disabled o)
                                        (ov_forced_down o ∪ {[key]}) (ov_weights o)
                                        (ov_weight_changed o) changed)
                  | Normal | ManualResume => Err NonPersistentState
                  end in
        restore_states entries' (seen ∪ {[key]}) o
  end.
Fixpoint restore_weights (entries : list WeightSnapshot) (seen : gset Z) (o : Overrides)
  : result Overrides SnapshotError :=
  match entries with
  | [] => Ok o
  | e :: entries' =>
      let key := ws_key e in
      if bool_decide (key ∈ seen) then Err DuplicateWeightKeys
      else if (ws_weight e =? 0) || (MAX_RUNTIME_BACKEND_WEIGHT <? ws_weight e) then Err InvalidWeight
      else restore_weights entries' (seen ∪ {[key]})
             (mkOverrides (ov_drain o) (ov_disabled o) (ov_forced_down o)
                (<[key := ws_weight e]> (ov_weights o))
                (<[key := ws_changed_at e]> (ov_weight_changed o)) (ov_changed o))
  end.
(** [prepare_snapshot]: what [commit_snapshot] then stores. *)
Definition prepare_snapshot (s : PolicySnapshot) : result Overrides SnapshotError :=
  if (MAX_RUNTIME_BACKEND_POLICY_OVERRIDE_ENTRIES <? zlen (ps_states s))
     || (MAX_RUNTIME_BACKEND_POLICY_OVERRIDE_ENTRIES <? zlen (ps_weights s))
  then Err ExceedsEntryLimit
  else
    let? o := restore_states (ps_states s) ∅ overrides_default in
    restore_weights (ps_weights s) ∅ o.

(** ** Health-derived weights *)

Definition MAX_HEALTH_DERIVED_WEIGHT_ENTRIES : Z := 4096.

Definition set_percent (key : Z) (percent : option Z) (weights : gmap Z Z) : gmap Z Z :=
  match percent with
  | Some percent =>
      if (1 <=? percent) && (percent <? 100) then
        if (MAX_HEALTH_DERIVED_WEIGHT_ENTRIES <=? Z.of_nat (size weights))
           && negb (bool_decide (is_Some (weights !! key)))
        then weights
        else <[key := percent]> weights
      else delete key weights
  | None => delete key weights
  end.

(** ** The selection policy *)

Record SelectionPass : Type := mkPass {
  minimum_priority_group : option Z;
  allow_backup : bool;
  ignore_slow_start : bool;
  ignore_locality : bool;
}.

Record BackendSelectionPolicy : Type := mkPolicy {
  p_backup : gset Z;
  p_drain : gset Z;
  p_disabled : gset Z;
  p_retry_excluded : list (option Z);
  p_runtime : Overrides;
  p_priority : gmap Z Z;
  p_localities : gmap Z (list Z);
  p_preferred_localities : gset (list Z);
  p_max_in_flight : gmap Z Z;
  p_priority_groups : list Z;
  p_priority_group_min_active : Z;
  p_health_weights : gmap Z Z;
}.

(** The fields of [ProxyConfig] the policy reads. *)
Record PolicyConfig : Type := mkPolicyConfig {
  pc_upstreams : list (list Z);
  pc_backup_upstreams : list (list Z);
  pc_drain_upstreams : list (list Z);
  pc_disabled_upstreams : list (list Z);
  pc_upstream_priority_groups : list Z;
  pc_upstream_localities : list (list Z);
  pc_upstream_max_in_flight : list Z;
  pc_preferred_upstream_localities : list (list Z);
  pc_upstream_priority_group_min_active : Z;
}.

Definition upstream_key (upstream : list Z) : option Z := backend_key <$> backend_new upstream.
Definition backend_keys (upstreams : list (list Z)) : gset Z := list_to_set (omap upstream_key upstreams).

(** [upstreams.iter().zip(values).filter_map(..).collect()]: later entries of
    one key win. *)
Definition keyed {V W} (f : V -> W) (upstreams : list (list Z)) (values : list V) : gmap Z W :=
  foldl (fun m '(upstream, value) =>
           match upstream_key upstream with Some key => <[key := f value]> m | None => m end)
    ∅ (zip upstreams values).
Definition backend_priority_groups (c : PolicyConfig) : gmap Z Z :=
  keyed id (pc_upstreams c) (pc_upstream_priority_groups c).
Definition backend_max_in_flight (c : PolicyConfig) : gmap Z Z :=
  keyed id (pc_upstreams c) (pc_upstream_max_in_flight c).
Definition backend_localities (c : PolicyConfig) : gmap Z (list Z) :=
  keyed to_ascii_lowercase (pc_upstreams c) (pc_upstream_localities c).
(** Distinct groups, highest first. *)
Definition sorted_priority_groups (priority : gmap Z Z) : list Z :=
  rev (merge_sort Z.le (elements (list_to_set (map_to_list priority).*2 : gset Z))).

Definition policy_from_config (c : PolicyConfig) : BackendSelectionPolicy :=
  mkPolicy (backend_keys (pc_backup_upstreams c)) (backend_keys (pc_drain_upstreams c))
    (backend_keys (pc_disabled_upstreams c)) (replicate 11 None) overrides_default
    (backend_priority_groups c) (backend_localities c)
    (list_to_set (to_ascii_lowercase <$> pc_preferred_upstream_localities c))
    (backend_max_in_flight c) (sorted_priority_groups (backend_priority_groups c))
    (pc_upstream_priority_group_min_active c) ∅.

(** [exclude_attempted]: whether the addresses fit the fixed table. *)
Definition exclude_attempted (addresses : list SocketAddr) (p : BackendSelectionPolicy)
  : bool * BackendSelectionPolicy :=
  if zlen (p_retry_excluded p) <? zlen addresses then (false, p)
  else
    let slots := (fun a => Some (backend_authority_key (show_socket_addr a))) <$> addresses in
    (true, mkPolicy (p_backup p) (p_drain p) (p_disabled p)
             (slots ++ replicate (length (p_retry_excluded p) - length slots) None)
             (p_runtime p) (p_priority p) (p_localities p) (p_preferred_localities p)
             (p_max_in_flight p) (p_priority_groups p) (p_priority_group_min_active p)
             (p_health_weights p)).

Definition policy_drained (p : BackendSelectionPolicy) (key : Z) : bool :=
  bool_decide (key ∈ p_drain p) || overrides_drained (p_runtime p) key.
Definition policy_disabled (p : BackendSelectionPolicy) (key : Z) : bool :=
  bool_decide (Some key ∈ p_retry_excluded p) || bool_decide (key ∈ p_disabled p)
  || overrides_disabled (p_runtime p) key.
Definition locality_permits (p : BackendSelectionPolicy) (key : Z) (pass : SelectionPass) : bool :=
  if ignore_locality pass || bool_decide (p_preferred_localities p = ∅) then true
  else match p_localities p !! key with
       | Some locality => bool_decide (locality ∈ p_preferred_localities p)
       | None => false
       end.

(** [permits], with every test but the in-flight limit read from the policy *)
Definition permits_statically (p : BackendSelectionPolicy) (key : Z) (pass : SelectionPass) : bool :=
  negb (policy_disabled p key) && negb (policy_drained p key)
  && (allow_backup pass || negb (bool_decide (key ∈ p_backup p)))
  && match minimum_priority_group pass with
     | Some group => group <=? default 0 (p_priority p !! key)
     | None => true
     end
  && locality_permits p key pass.
Definition permits (p : BackendSelectionPolicy) (b : FluxBackend) (pass : SelectionPass) : M bool :=
  let key := backend_key b in
  if permits_statically p key pass then
    match p_max_in_flight p !! key with
    | Some limit => let! n := connections b in ret (n <? limit)
    | None => ret true
    end
  else ret false.

Definition is_lowest_priority_group (p : BackendSelectionPolicy) (group : Z) : bool :=
  match last (p_priority_groups p) with Some lowest => lowest =? group | None => false end.

Definition effective_weight (p : BackendSelectionPolicy) (b : FluxBackend) : Z :=
  let key := backend_key b in
  let base := Z.max (default (weight b) (ov_weights (p_runtime p) !! key)) 1 in
  Z.max (match p_health_weights p !! key with
         | Some percent => saturating_add USIZE_MAX (saturating_mul USIZE_MAX base percent) 99 / 100
         | None => base
         end) 1.

Definition set_runtime (o : Overrides) (weights : gmap Z Z) (p : BackendSelectionPolicy)
  : BackendSelectionPolicy :=
  mkPolicy (p_backup p) (p_drain p) (p_disabled p) (p_retry_excluded p) o (p_priority p)
    (p_localities p) (p_preferred_localities p) (p_max_in_flight p) (p_priority_groups p)
    (p_priority_group_min_active p) weights.
Definition policy_prune_stale (live : gset Z) (p : BackendSelectionPolicy) : BackendSelectionPolicy :=
  set_runtime (overrides_prune_stale live (p_runtime p))
    (retain (fun key _ => bool_decide (key ∈ live)) (p_health_weights p)) p.
Definition clear_runtime_key (key : Z) (p : BackendSelectionPolicy) : BackendSelectionPolicy :=
  set_runtime (overrides_clear_key key (p_runtime p)) (delete key (p_health_weights p)) p.
