(* ===== verification/LbPolicyProps.v ===== *)
(** * Runtime overrides: invariant, effect and persistence *)
From Stdlib Require Import ZArith Lia.
From stdpp Require Import base list numbers strings sets gmap sorting.
From S2P Require Import Prelude Text NetAddr LbRetry LbBackend LbState LbPolicy.

(** ** The invariant of the override tables *)

Definition LIMIT : Z := MAX_RUNTIME_BACKEND_POLICY_OVERRIDE_ENTRIES.

Ltac ov_simpl :=
  cbn [ov_drain ov_disabled ov_forced_down ov_weights ov_weight_changed ov_changed fst snd] in *.

Record overrides_wf (o : Overrides) : Prop := {
  ow_dd : ov_drain o ## ov_disabled o;
  ow_df : ov_drain o ## ov_forced_down o;
  ow_bf : ov_disabled o ## ov_forced_down o;
  ow_drain : Z.of_nat (size (ov_drain o)) <= LIMIT;
  ow_disabled : Z.of_nat (size (ov_disabled o)) <= LIMIT;
  ow_forced : Z.of_nat (size (ov_forced_down o)) <= LIMIT;
  ow_changed : ov_drain o ∪ ov_disabled o ∪ ov_forced_down o ⊆ dom (ov_changed o);
  ow_weights : Z.of_nat (size (ov_weights o)) <= LIMIT;
  ow_weight_changed : dom (ov_weight_changed o) = dom (ov_weights o);
}.

Lemma size_difference_le (s : gset Z) key : (size (s ∖ {[key]}) <= size s)%nat.
Proof. apply subseteq_size. set_solver. Qed.
Lemma capacity_size (s : gset Z) key :
  key ∉ s -> key_has_capacity s key = true -> Z.of_nat (size (s ∪ {[key]})) <= LIMIT.
Proof.
  unfold key_has_capacity, LIMIT. intros Hk Hc. rewrite bool_decide_eq_false_2 in Hc by done.
  breflect. rewrite size_union, size_singleton by set_solver. lia.
Qed.

Lemma diff_disjoint (s t : gset Z) k : s ## t -> s ∖ {[k]} ## t ∖ {[k]}.
Proof. set_solver. Qed.
Lemma put_disjoint_l (s t : gset Z) k : s ## t -> s ∖ {[k]} ∪ {[k]} ## t ∖ {[k]}.
Proof. set_solver. Qed.
Lemma put_disjoint_r (s t : gset Z) k : s ## t -> s ∖ {[k]} ## t ∖ {[k]} ∪ {[k]}.
Proof. set_solver. Qed.

(** The tables without one key. *)
Definition without (key : Z) (o : Overrides) : Overrides :=
  mkOverrides (ov_drain o ∖ {[key]}) (ov_disabled o ∖ {[key]}) (ov_forced_down o ∖ {[key]})
    (ov_weights o) (ov_weight_changed o) (ov_changed o).
Definition overridden (o : Overrides) : gset Z := ov_drain o ∪ ov_disabled o ∪ ov_forced_down o.

Lemma without_overridden key o k : k ∈ overridden (without key o) <-> k ∈ overridden o /\ k <> key.
Proof. unfold overridden, without. ov_simpl. set_solver. Qed.

Lemma without_wf key o : overrides_wf o -> overrides_wf (without key o).
Proof.
  intros [].
  pose proof (size_difference_le (ov_drain o) key). pose proof (size_difference_le (ov_disabled o) key).
  pose proof (size_difference_le (ov_forced_down o) key).
  unfold without. split; ov_simpl; try done; try lia; try by apply diff_disjoint.
  intros k [Hk _]%(without_overridden key). by apply ow_changed0.
Qed.
(** A change of [changed] that keeps the other keys, and [key] if it is
    overridden. *)
Lemma changed_wf key o o' :
  overrides_wf (without key o) ->
  (forall k, k ∈ overridden o' -> k = key \/ k ∈ overridden (without key o)) ->
  (forall k, k <> key -> k ∈ dom (ov_changed o) -> k ∈ dom (ov_changed o')) ->
  (key ∈ overridden o' -> key ∈ dom (ov_changed o')) ->
  overridden o' ⊆ dom (ov_changed o').
Proof.
  intros W Ho Hc Hk k Hin. destruct (decide (k = key)) as [->|Hne]; [auto|].
  apply Hc; [done|]. destruct (Ho k Hin) as [->|Hin']; [done|]. by apply (ow_changed _ W).
Qed.
Lemma set_state_changed key st now o :
  overrides_wf o ->
  overridden (set_state key st now o).2 ⊆ dom (ov_changed (set_state key st now o).2).
Proof.
  intros W. apply (changed_wf key o (set_state key st now o).2 (without_wf key o W));
    unfold set_state, overridden, without; destruct st; cbn [snd];
    try destruct (key_has_capacity _ _); ov_simpl; rewrite ?dom_insert_L, ?dom_delete_L;
    clear; set_solver.
Qed.
Lemma set_state_wf key st now o : overrides_wf o -> overrides_wf (set_state key st now o).2.
Proof.
  intros W. pose proof (set_state_changed key st now o W) as Hc. pose proof (without_wf key o W) as W'.
  pose proof W' as [D1 D2 D3 S1 S2 S3 C Sw Dw]. destruct W as [E1 E2 E3 _ _ _ _ _ _].
  assert (forall s : gset Z, key ∉ s ∖ {[key]}) as Hn
    by (intros s; apply not_elem_of_difference; right; by apply elem_of_singleton).
  revert Hc. unfold set_state, without in *. destruct st; cbn [snd];
    try destruct (key_has_capacity _ _) eqn:Ec; ov_simpl; intros Hc;
    split; ov_simpl; auto using put_disjoint_l, put_disjoint_r, capacity_size.
Qed.
Lemma set_weight_wf key w now o : overrides_wf o -> overrides_wf (set_weight key w now o).2.
Proof.
  intros []. unfold set_weight. destruct w as [w|].
  - case_match eqn:E; [done|]. split; ov_simpl; try done.
    + destruct (ov_weights o !! key) eqn:Ek.
      * by rewrite map_size_insert_Some by eauto.
      * rewrite map_size_insert_None by done. rewrite bool_decide_eq_false_2 in E by (by intros []).
        cbn in E. breflect. unfold LIMIT. lia.
    + by rewrite !dom_insert_L, ow_weight_changed0.
  - split; ov_simpl; try done.
    + pose proof (map_size_delete key (ov_weights o)) as Hs.
      destruct (ov_weights o !! key); rewrite Hs; unfold LIMIT, id in *; lia.
    + by rewrite !dom_delete_L, ow_weight_changed0.
Qed.
Lemma clear_key_wf key o : overrides_wf o -> overrides_wf (overrides_clear_key key o).
Proof.
  intros W. pose proof (set_state_wf key Normal 0 o W) as [].
  pose proof (set_weight_wf key None 0 o W) as []. by split.
Qed.

Lemma size_retain_le (keep : Z -> Z -> bool) (m : gmap Z Z) : (size (retain keep m) <= size m)%nat.
Proof.
  rewrite <-!size_dom. apply subseteq_size. unfold retain. apply dom_filter_subseteq.
Qed.
Lemma retain_lookup {V} (keep : Z -> V -> bool) (m : gmap Z V) k v :
  retain keep m !! k = Some v <-> m !! k = Some v /\ keep k v = true.
Proof. unfold retain. apply map_lookup_filter_Some. Qed.
Lemma dom_retain (keep : Z -> bool) (m : gmap Z Z) k :
  k ∈ dom (retain (fun k _ => keep k) m) <-> k ∈ dom m /\ keep k = true.
Proof. rewrite !elem_of_dom. unfold is_Some. setoid_rewrite retain_lookup. naive_solver. Qed.

Lemma prune_wf live o : overrides_wf o -> overrides_wf (overrides_prune_stale live o).
Proof.
  intros []. unfold overrides_prune_stale. split; ov_simpl; try done.
  - clear -ow_dd0. set_solver.
  - clear -ow_df0. set_solver.
  - assert (size (filter (.∈ live) (ov_drain o)) <= size (ov_drain o))%nat by (apply subseteq_size; clear; set_solver). lia.
  - intros k Hk. apply (dom_retain (fun k => bool_decide (k ∈ live) || _)).
    rewrite orb_true_iff, !bool_decide_eq_true. clear -ow_changed0 Hk. set_solver.
  - pose proof (size_retain_le (fun key _ : Z => bool_decide (key ∈ live)
      || bool_decide (key ∈ ov_disabled o ∪ ov_forced_down o)) (ov_weights o)). lia.
  - apply set_eq. intros k.
    rewrite !(dom_retain (fun k => bool_decide (k ∈ live) || _)). by rewrite ow_weight_changed0.
Qed.

(** ** Restoring a snapshot *)

Definition persistent (s : LoadBalancerRuntimeBackendState) : Prop :=
  s = Drained \/ s = Disabled \/ s = ForcedDown.
Definition keys_in (st : LoadBalancerRuntimeBackendState) (l : list StateSnapshot) : gset Z :=
  list_to_set (ss_key <$> filter (fun e => ss_state e = st) l).
Definition changed_in (l : list StateSnapshot) : gmap Z Z :=
  list_to_map ((fun e => (ss_key e, ss_changed_at e)) <$> l).

Lemma keys_in_elem st l k : k ∈ keys_in st l <-> exists e, e ∈ l /\ ss_state e = st /\ ss_key e = k.
Proof.
  unfold keys_in. rewrite elem_of_list_to_set, list_elem_of_fmap.
  setoid_rewrite list_elem_of_filter. naive_solver.
Qed.
Lemma keys_in_cons st e l :
  keys_in st (e :: l) = (if decide (ss_state e = st) then {[ss_key e]} else ∅) ∪ keys_in st l.
Proof.
  apply set_eq. intros k. rewrite elem_of_union, !keys_in_elem. setoid_rewrite elem_of_cons.
  case_decide; set_solver.
Qed.

Lemma restore_states_ok l seen o :
  NoDup (ss_key <$> l) -> Forall (fun e => persistent (ss_state e)) l ->
  Forall (fun e => ss_key e ∉ seen) l ->
  restore_states l seen o
  = Ok (mkOverrides (ov_drain o ∪ keys_in Drained l) (ov_disabled o ∪ keys_in Disabled l)
          (ov_forced_down o ∪ keys_in ForcedDown l) (ov_weights o) (ov_weight_changed o)
          (changed_in l ∪ ov_changed o)).
Proof.
  revert seen o. induction l as [|e l IH]; intros seen o Hd Hp Hs; cbn [restore_states].
  { unfold keys_in, changed_in. cbn. rewrite !(right_id_L ∅ (∪)), (left_id_L ∅ (∪)). by destruct o. }
  cbn [fmap list_fmap] in Hd. apply NoDup_cons in Hd as [He Hd].
  apply Forall_cons in Hp as [Hpe Hp], Hs as [Hse Hs].
  rewrite bool_decide_eq_false_2 by done.
  assert (Forall (fun e' => ss_key e' ∉ seen ∪ {[ss_key e]}) l) as Hs'.
  { rewrite Forall_forall in *. intros e' Hin. rewrite not_elem_of_union, not_elem_of_singleton.
    split; [auto|]. intros E. apply He. rewrite <-E. by apply list_elem_of_fmap_2. }
  assert (changed_in l !! ss_key e = None) as Hn.
  { apply not_elem_of_list_to_map_1. by rewrite <-list_fmap_compose. }
  assert (forall m, changed_in l ∪ <[ss_key e := ss_changed_at e]> m = changed_in (e :: l) ∪ m) as Hc.
  { intros m. rewrite <-insert_union_r by done. unfold changed_in. cbn. by rewrite insert_union_l. }
  rewrite !keys_in_cons.
  destruct Hpe as [E | [E | E]]; rewrite E; rewrite IH by done; ov_simpl; rewrite Hc;
    repeat (case_decide; [|try done]); try done; rewrite ?(left_id_L ∅ (∪)), ?(assoc_L (∪)); done.
Qed.
Lemma restore_weights_ok l seen o :
  NoDup (ws_key <$> l) ->
  Forall (fun e => ws_weight e <> 0 /\ ws_weight e <= MAX_RUNTIME_BACKEND_WEIGHT) l ->
  Forall (fun e => ws_key e ∉ seen) l ->
  restore_weights l seen o
  = Ok (mkOverrides (ov_drain o) (ov_disabled o) (ov_forced_down o)
          (list_to_map ((fun e => (ws_key e, ws_weight e)) <$> l) ∪ ov_weights o)
          (list_to_map ((fun e => (ws_key e, ws_changed_at e)) <$> l) ∪ ov_weight_changed o)
          (ov_changed o)).
Proof.
  revert seen o. induction l as [|e l IH]; intros seen o Hd Hp Hs; cbn [restore_weights].
  { cbn. rewrite !(left_id_L ∅ (∪)). by destruct o. }
  cbn [fmap list_fmap] in Hd. apply NoDup_cons in Hd as [He Hd].
  apply Forall_cons in Hp as [Hpe Hp], Hs as [Hse Hs].
  rewrite bool_decide_eq_false_2 by done. zcond. cbn [orb]. rewrite IH; [|done..|].
  - ov_simpl. cbn [fmap list_fmap]. rewrite !list_to_map_cons, <-!insert_union_l.
    rewrite <-!insert_union_r; [done|..];
      apply not_elem_of_list_to_map_1; by rewrite <-list_fmap_compose.
  - rewrite Forall_forall in *. intros e' Hin. rewrite not_elem_of_union, not_elem_of_singleton.
    split; [auto|]. intros E. apply He. rewrite <-E. by apply list_elem_of_fmap_2.
Qed.

Lemma state_entries_elem o st keys e :
  e ∈ state_entries o st keys
  <-> ss_key e ∈ keys /\ ss_state e = st /\ ss_changed_at e = default 0 (ov_changed o !! ss_key e).
Proof.
  unfold state_entries. rewrite list_elem_of_fmap. setoid_rewrite elem_of_elements. split.
  - by intros (k & -> & Hk).
  - destruct e as [k s c]. cbn. intros (Hk & -> & ->). by exists k.
Qed.
Definition all_entries (o : Overrides) : list StateSnapshot :=
  state_entries o Drained (ov_drain o) ++ state_entries o Disabled (ov_disabled o)
  ++ state_entries o ForcedDown (ov_forced_down o).
Lemma all_entries_elem o e :
  e ∈ all_entries o
  <-> ss_changed_at e = default 0 (ov_changed o !! ss_key e)
      /\ ((ss_key e ∈ ov_drain o /\ ss_state e = Drained)
          \/ (ss_key e ∈ ov_disabled o /\ ss_state e = Disabled)
          \/ (ss_key e ∈ ov_forced_down o /\ ss_state e = ForcedDown)).
Proof. unfold all_entries. rewrite !elem_of_app, !state_entries_elem. tauto. Qed.
Lemma all_entries_keys o :
  ss_key <$> all_entries o
  = elements (ov_drain o) ++ elements (ov_disabled o) ++ elements (ov_forced_down o).
Proof.
  unfold all_entries, state_entries. rewrite !fmap_app, <-!list_fmap_compose.
  by rewrite !list_fmap_id.
Qed.
Lemma all_entries_nodup o : overrides_wf o -> NoDup (ss_key <$> all_entries o).
Proof.
  intros [D1 D2 D3 _ _ _ _ _ _]. rewrite all_entries_keys.
  apply NoDup_app. split; [apply NoDup_elements|]. split.
  - intros k. rewrite elem_of_app, !elem_of_elements. intros Hk [?|?]; [by apply (D1 k)|by apply (D2 k)].
  - apply NoDup_app. split; [apply NoDup_elements|]. split; [|apply NoDup_elements].
    intros k. rewrite !elem_of_elements. intros Hk ?. by apply (D3 k).
Qed.
Definition total_states (o : Overrides) : Z :=
  Z.of_nat (size (ov_drain o) + size (ov_disabled o) + size (ov_forced_down o)).
Lemma all_entries_zlen o : zlen (all_entries o) = total_states o.
Proof.
  unfold zlen, total_states. f_equal. rewrite <-(length_fmap ss_key), all_entries_keys, !length_app.
  unfold size, set_size. cbn. lia.
Qed.

Lemma keys_in_perm st l l' : l ≡ₚ l' -> keys_in st l = keys_in st l'.
Proof.
  intros Hp. apply set_eq. intros k. rewrite !keys_in_elem. by setoid_rewrite Hp.
Qed.
Lemma keys_in_all o :
  keys_in Drained (all_entries o) = ov_drain o
  /\ keys_in Disabled (all_entries o) = ov_disabled o
  /\ keys_in ForcedDown (all_entries o) = ov_forced_down o.
Proof.
  split_and!; apply set_eq; intros k; rewrite keys_in_elem; setoid_rewrite all_entries_elem; split.
  all: try (intros (e & (_ & [[? E]|[[? E]|[? E]]]) & E' & <-); congruence).
  - intros Hk. exists (mkStateSnapshot k Drained (default 0 (ov_changed o !! k))). naive_solver.
  - intros Hk. exists (mkStateSnapshot k Disabled (default 0 (ov_changed o !! k))). naive_solver.
  - intros Hk. exists (mkStateSnapshot k ForcedDown (default 0 (ov_changed o !! k))). naive_solver.
Qed.
Lemma changed_in_all o l :
  overrides_wf o -> l ≡ₚ all_entries o ->
  changed_in l = retain (fun k _ => bool_decide (k ∈ overridden o)) (ov_changed o).
Proof.
  intros W Hp. apply map_eq. intros k. apply option_eq. intros c.
  rewrite retain_lookup, bool_decide_eq_true. unfold changed_in.
  rewrite <-elem_of_list_to_map.
  2:{ rewrite <-list_fmap_compose. rewrite Hp. by apply all_entries_nodup. }
  rewrite list_elem_of_fmap. setoid_rewrite Hp. setoid_rewrite all_entries_elem.
  assert (k ∈ overridden o -> exists c', ov_changed o !! k = Some c') as Hd.
  { intros Hk. by apply (ow_changed o W), elem_of_dom in Hk. }
  unfold overridden in *. rewrite !elem_of_union in *. split.
  - intros (e & [= -> ->] & Hc & Hk). assert (exists c', ov_changed o !! ss_key e = Some c') as [c' E] by naive_solver.
    rewrite E in *. cbn in Hc. naive_solver.
  - intros [E Hk].
    destruct Hk as [[Hk|Hk]|Hk]; [exists (mkStateSnapshot k Drained c)|exists (mkStateSnapshot k Disabled c)
      |exists (mkStateSnapshot k ForcedDown c)]; cbn; rewrite E; naive_solver.
Qed.

Lemma weights_restored o l (f : WeightSnapshot -> Z) (m : gmap Z Z) :
  l ≡ₚ weight_entries o -> dom m = dom (ov_weights o) ->
  (forall k w, ov_weights o !! k = Some w ->
     Some (f (mkWeightSnapshot k w (default 0 (ov_weight_changed o !! k)))) = m !! k) ->
  list_to_map ((fun e => (ws_key e, f e)) <$> l) = m.
Proof.
  intros Hp Hd Hf. apply map_eq. intros k. apply option_eq. intros c.
  rewrite <-elem_of_list_to_map.
  2:{ rewrite <-list_fmap_compose, Hp. unfold weight_entries. rewrite <-list_fmap_compose.
      rewrite (list_fmap_ext _ fst); [apply NoDup_fst_map_to_list|]. by intros i [k' w'] _. }
  rewrite list_elem_of_fmap. setoid_rewrite Hp. unfold weight_entries. setoid_rewrite list_elem_of_fmap.
  split.
  - intros (e & [= -> ->] & [k' w] & -> & Hin). apply elem_of_map_to_list in Hin. cbn. by rewrite (Hf _ _ Hin).
  - intros E. assert (is_Some (ov_weights o !! k)) as [w Hw] by (apply elem_of_dom; rewrite <-Hd; by apply elem_of_dom_2 in E).
    eexists. split; [|exists (k, w); split; [done|by apply elem_of_map_to_list]].
    cbn. specialize (Hf _ _ Hw). rewrite E in Hf. by injection Hf as ->.
Qed.
Lemma weight_entries_keys o : NoDup (ws_key <$> weight_entries o).
Proof.
  unfold weight_entries. rewrite <-list_fmap_compose.
  rewrite (list_fmap_ext _ fst); [apply NoDup_fst_map_to_list|]. by intros i [k' w'] _.
Qed.

Lemma restore_states_inv l seen o o' :
  restore_states l seen o = Ok o' ->
  NoDup (ss_key <$> l) /\ Forall (fun e => persistent (ss_state e)) l
  /\ Forall (fun e => ss_key e ∉ seen) l.
Proof.
  revert seen o. induction l as [|e l IH]; intros seen o; cbn [restore_states]; [by repeat constructor|].
  case_bool_decide as Hk; [done|]. intros H.
  assert (persistent (ss_state e)) as Hp by (unfold persistent; destruct (ss_state e); naive_solver).
  assert (exists o1, restore_states l (seen ∪ {[ss_key e]}) o1 = Ok o') as [o1 H1]
    by (destruct (ss_state e); [done|eauto..|done]).
  apply IH in H1 as (Hd & Hps & Hs). rewrite Forall_forall in Hs.
  split_and!; [|by constructor|].
  - cbn [fmap list_fmap]. constructor; [|done]. intros (e' & E & Hin)%list_elem_of_fmap.
    apply (Hs _ Hin). rewrite <-E. set_solver.
  - constructor; [done|]. apply Forall_forall. intros e' Hin. specialize (Hs _ Hin). set_solver.
Qed.
Lemma restore_weights_inv l seen o o' :
  restore_weights l seen o = Ok o' ->
  NoDup (ws_key <$> l) /\ Forall (fun e => ws_key e ∉ seen) l
  /\ Forall (fun e => ws_weight e <> 0 /\ ws_weight e <= MAX_RUNTIME_BACKEND_WEIGHT) l.
Proof.
  revert seen o. induction l as [|e l IH]; intros seen o; cbn [restore_weights]; [by repeat constructor|].
  case_bool_decide as Hk; [done|]. case_match eqn:Ew; [done|]. breflect. intros (Hd & Hs & Hw)%IH.
  rewrite Forall_forall in Hs. split_and!; [| |by constructor].
  - cbn [fmap list_fmap]. constructor; [|done]. intros (e' & E & Hin)%list_elem_of_fmap.
    apply (Hs _ Hin). rewrite <-E. set_solver.
  - constructor; [done|]. apply Forall_forall. intros e' Hin. specialize (Hs _ Hin). set_solver.
Qed.

Lemma keys_in_size st l : Z.of_nat (size (keys_in st l)) <= zlen l.
Proof.
  unfold keys_in, zlen.
  assert (size (list_to_set (C := gset Z) (ss_key <$> filter (fun e => ss_state e = st) l))
            <= length (ss_key <$> filter (fun e => ss_state e = st) l))%nat as Hs.
  { generalize (ss_key <$> filter (fun e => ss_state e = st) l) as ks. intros ks.
    induction ks as [|k ks IH]; [done|]. cbn [list_to_set length].
    pose proof (size_union_alt {[k]} (list_to_set (C := gset Z) ks)) as Hu. cbn in Hu |- *.
    rewrite Hu, size_singleton.
    assert (size (list_to_set (C := gset Z) ks ∖ {[k]}) <= size (list_to_set (C := gset Z) ks))%nat
      by (apply subseteq_size; set_solver). lia. }
  rewrite length_fmap in Hs. pose proof (length_filter (fun e => ss_state e = st) l). lia.
Qed.
Lemma keys_in_disjoint st st' l :
  st <> st' -> NoDup (ss_key <$> l) -> keys_in st l ## keys_in st' l.
Proof.
  intros Hne Hd k (e & He & E1 & <-)%keys_in_elem (e' & He' & E1' & E)%keys_in_elem.
  apply list_elem_of_lookup in He as [i Hi], He' as [j Hj].
  assert (i = j) as <-; [|congruence].
  eapply NoDup_lookup; [done|rewrite list_lookup_fmap, Hi; done|].
  rewrite list_lookup_fmap, Hj. cbn. by rewrite E.
Qed.
Lemma changed_in_dom l k : k ∈ dom (changed_in l) <-> exists e, e ∈ l /\ ss_key e = k.
Proof.
  unfold changed_in. rewrite dom_list_to_map_L, elem_of_list_to_set, <-list_fmap_compose, list_elem_of_fmap.
  naive_solver.
Qed.

Lemma weight_keys_nodup (l : list WeightSnapshot) (f : WeightSnapshot -> Z) :
  NoDup (ws_key <$> l) -> NoDup (((fun e => (ws_key e, f e)) <$> l).*1).
Proof. by rewrite <-list_fmap_compose. Qed.

(** A restored snapshot is well-formed, whatever file it came from. *)
Lemma prepare_snapshot_wf s o : prepare_snapshot s = Ok o -> overrides_wf o.
Proof.
  unfold prepare_snapshot, MAX_RUNTIME_BACKEND_POLICY_OVERRIDE_ENTRIES. case_match eqn:El; [done|]. breflect.
  destruct (restore_states _ _ _) as [o1|] eqn:E1; [|done]. intros E2.
  pose proof (restore_states_inv _ _ _ _ E1) as (Hd & Hp & Hs). rewrite restore_states_ok in E1 by done.
  injection E1 as <-. pose proof (restore_weights_inv _ _ _ _ E2) as (Hwd & Hws & Hww).
  rewrite restore_weights_ok in E2 by done. injection E2 as <-. unfold overrides_default. ov_simpl.
  pose proof (keys_in_size Drained (ps_states s)). pose proof (keys_in_size Disabled (ps_states s)).
  pose proof (keys_in_size ForcedDown (ps_states s)).
  split; ov_simpl; rewrite ?(left_id_L ∅ (∪)), ?(right_id_L ∅ (∪)); try by apply keys_in_disjoint.
  1-3: unfold LIMIT, MAX_RUNTIME_BACKEND_POLICY_OVERRIDE_ENTRIES; lia.
  - intros k Hk. apply changed_in_dom. rewrite !elem_of_union, !keys_in_elem in Hk. naive_solver.
  - unfold LIMIT, MAX_RUNTIME_BACKEND_POLICY_OVERRIDE_ENTRIES. rewrite <-length_map_to_list.
    rewrite (Permutation_length (map_to_list_to_map _ (weight_keys_nodup _ _ Hwd))).
    rewrite length_fmap. unfold zlen in *. lia.
  - by rewrite !dom_list_to_map_L, <-!list_fmap_compose.
Qed.

(** Overrides reachable by the operations of a running proxy; the callers of
    [set_weight] pass weights between 1 and 1000. *)
Inductive overrides_reachable : Overrides -> Prop :=
| or_default : overrides_reachable overrides_default
| or_set_state key st now o :
    overrides_reachable o -> overrides_reachable (set_state key st now o).2
| or_set_weight key w now o :
    match w with Some w => 1 <= w <= MAX_RUNTIME_BACKEND_WEIGHT | None => True end ->
    overrides_reachable o -> overrides_reachable (set_weight key w now o).2
| or_prune live o : overrides_reachable o -> overrides_reachable (overrides_prune_stale live o)
| or_clear key o : overrides_reachable o -> overrides_reachable (overrides_clear_key key o)
| or_restore s o :
    prepare_snapshot s = Ok o -> Forall (fun e => 0 <= ws_weight e) (ps_weights s) ->
    overrides_reachable o.

Definition weights_valid (o : Overrides) : Prop :=
  forall k w, ov_weights o !! k = Some w -> 1 <= w <= MAX_RUNTIME_BACKEND_WEIGHT.
Lemma set_state_weights key st now o : ov_weights (set_state key st now o).2 = ov_weights o.
Proof. unfold set_state. destruct st; cbn [snd]; try destruct (key_has_capacity _ _); done. Qed.
Lemma set_weight_valid key w now o :
  match w with Some w => 1 <= w <= MAX_RUNTIME_BACKEND_WEIGHT | None => True end ->
  weights_valid o -> weights_valid (set_weight key w now o).2.
Proof.
  intros Hw Ho k v. unfold set_weight. destruct w as [w|]; [case_match; [by apply Ho|]|]; ov_simpl.
  - rewrite lookup_insert_Some. intros [[_ <-]|[_ Hk]]; [done|by eapply Ho].
  - rewrite lookup_delete_Some. intros [_ Hk]. by eapply Ho.
Qed.
Lemma prepare_snapshot_weights s o :
  prepare_snapshot s = Ok o -> Forall (fun e => 0 <= ws_weight e) (ps_weights s) -> weights_valid o.
Proof.
  unfold prepare_snapshot. case_match; [done|]. destruct (restore_states _ _ _) as [o1|] eqn:E1; [|done].
  intros E2 Hn. pose proof (restore_states_inv _ _ _ _ E1) as (? & ? & ?).
  rewrite restore_states_ok in E1 by done. injection E1 as <-.
  pose proof (restore_weights_inv _ _ _ _ E2) as (Hwd & Hws & Hww).
  rewrite restore_weights_ok in E2 by done. injection E2 as <-. intros k w. unfold overrides_default.
  ov_simpl. rewrite (right_id_L ∅ (∪)).
  intros Hin%elem_of_list_to_map_2. apply list_elem_of_fmap in Hin as (e & [= -> ->] & He).
  rewrite Forall_forall in Hn, Hww. specialize (Hn _ He). specialize (Hww _ He). lia.
Qed.
Lemma overrides_reachable_wf o : overrides_reachable o -> overrides_wf o /\ weights_valid o.
Proof.
  induction 1 as [|key st now o _ [W V]|key w now o Hw _ [W V]|live o _ [W V]|key o _ [W V]|s o E Hn].
  - split; [|by intros k w]. split; unfold overrides_default; ov_simpl; try done; set_solver.
  - split; [by apply set_state_wf|]. unfold weights_valid. by rewrite set_state_weights.
  - split; [by apply set_weight_wf|by apply set_weight_valid].
  - split; [by apply prune_wf|]. intros k w [Hk _]%retain_lookup. by eapply V.
  - split; [by apply clear_key_wf|]. intros k w. unfold overrides_clear_key. ov_simpl.
    intros [_ Hk]%lookup_delete_Some. by eapply V.
  - split; [by eapply prepare_snapshot_wf|by eapply prepare_snapshot_weights].
Qed.

(** overrides survive a restart.  A snapshot of the override tables, in
    any reachable state, is restored to the same tables whenever at most 4096 members are
    overridden in total; above that, though each table is within its own
    limit, the restore is refused. *)
Theorem override_snapshot_round_trip (o : Overrides) :
  overrides_reachable o ->
  prepare_snapshot (policy_snapshot o)
  = if total_states o <=? 4096
    then Ok (mkOverrides (ov_drain o) (ov_disabled o) (ov_forced_down o) (ov_weights o)
               (ov_weight_changed o)
               (retain (fun k _ => bool_decide (k ∈ overridden o)) (ov_changed o)))
    else Err ExceedsEntryLimit.
Proof.
  intros [W Hw]%overrides_reachable_wf. unfold prepare_snapshot, policy_snapshot. cbn [ps_states ps_weights].
  fold (all_entries o). set (ls := merge_sort state_le (all_entries o)).
  set (lw := merge_sort weight_le (weight_entries o)).
  assert (ls ≡ₚ all_entries o) as Hls by apply merge_sort_Permutation.
  assert (lw ≡ₚ weight_entries o) as Hlw by apply merge_sort_Permutation.
  assert (zlen ls = total_states o) as Hz.
  { rewrite <-all_entries_zlen. unfold zlen. by rewrite Hls. }
  assert (zlen lw <= 4096) as Hzw.
  { pose proof (ow_weights o W) as Hs. unfold LIMIT, MAX_RUNTIME_BACKEND_POLICY_OVERRIDE_ENTRIES in Hs.
    unfold zlen. rewrite Hlw. unfold weight_entries. by rewrite length_fmap, length_map_to_list. }
  rewrite Hz. unfold MAX_RUNTIME_BACKEND_POLICY_OVERRIDE_ENTRIES.
  destruct (Z.leb_spec (total_states o) 4096); zcond; cbn [orb]; [|done].
  rewrite restore_states_ok.
  - rewrite restore_weights_ok; ov_simpl.
    + destruct (keys_in_all o) as (E1 & E2 & E3). rewrite !(keys_in_perm _ _ _ Hls), E1, E2, E3.
      rewrite (changed_in_all o ls W Hls). unfold overrides_default. ov_simpl.
      rewrite !(left_id_L ∅ (∪)), !(right_id_L ∅ (∪)).
      rewrite (weights_restored o lw ws_weight (ov_weights o) Hlw) by (done || by intros ? ? ->).
      rewrite (weights_restored o lw ws_changed_at (ov_weight_changed o) Hlw); [done|apply W|].
      intros k w Hk. cbn. assert (is_Some (ov_weight_changed o !! k)) as [c ->]; [|done].
      apply elem_of_dom. rewrite (ow_weight_changed o W). by apply elem_of_dom_2 in Hk.
    + rewrite Hlw. apply weight_entries_keys.
    + rewrite Hlw. apply Forall_forall. unfold weight_entries.
      intros e ([k w] & -> & Hin%elem_of_map_to_list)%list_elem_of_fmap. cbn.
      specialize (Hw _ _ Hin). lia.
    + apply Forall_forall. intros; apply not_elem_of_empty.
  - rewrite Hls. by apply all_entries_nodup.
  - rewrite Hls. apply Forall_forall. intros e He%all_entries_elem. unfold persistent. naive_solver.
  - apply Forall_forall. intros; apply not_elem_of_empty.
Qed.
Definition sample_overrides : Overrides :=
  (set_weight 7 (Some 3) 11 (set_state 5 ForcedDown 10 (set_state 7 Drained 9 overrides_default).2).2).2.
Lemma override_snapshot_round_trip_witness :
  prepare_snapshot (policy_snapshot sample_overrides) = Ok sample_overrides.
Proof.
  rewrite (override_snapshot_round_trip sample_overrides); [vm_compute; reflexivity|].
  apply or_set_weight; [unfold MAX_RUNTIME_BACKEND_WEIGHT; lia|].
  apply or_set_state, or_set_state, or_default.
Defined.

(** ** The effect of an override *)

(** What an operator asked for. *)
Definition requested (s : LoadBalancerRuntimeBackendState) : option LoadBalancerRuntimeBackendState :=
  match s with Normal | ManualResume => None | s => Some s end.

Lemma set_state_others key st now o k :
  k <> key -> override_state (set_state key st now o).2 k = override_state o k.
Proof.
  intros Hne. assert (forall s : gset Z, k ∈ s ∖ {[key]} <-> k ∈ s) as Hd by set_solver.
  assert (forall s : gset Z, k ∈ s ∖ {[key]} ∪ {[key]} <-> k ∈ s) as Hu by set_solver.
  unfold override_state, set_state.
  destruct st; cbn [snd]; try destruct (key_has_capacity _ _); ov_simpl;
    by rewrite ?(bool_decide_ext _ _ (Hd _)), ?(bool_decide_ext _ _ (Hu _)).
Qed.
Lemma set_state_self key st now o :
  override_state (set_state key st now o).2 key
  = if (set_state key st now o).1 then requested st else None.
Proof.
  assert (forall s : gset Z, bool_decide (key ∈ s ∖ {[key]}) = false) as Hd
    by (intros; apply bool_decide_eq_false_2; set_solver).
  assert (forall s : gset Z, bool_decide (key ∈ s ∪ {[key]}) = true) as Hu
    by (intros; apply bool_decide_eq_true_2; set_solver).
  unfold override_state, set_state.
  destruct st; cbn [fst snd]; try destruct (key_has_capacity _ _); ov_simpl; by rewrite ?Hd, ?Hu, ?Hd.
Qed.

(** Runtime state changes.  An accepted change gives exactly the
    requested state to its member and to no other; it is accepted exactly when
    the table of that state has room; a refused change leaves its member without any
    override, also if it was drained, disabled or forced down before. *)
Theorem set_state_effect (key : Z) (st : LoadBalancerRuntimeBackendState) (now : Z) (o : Overrides) :
  overrides_reachable o ->
  let '(accepted, o') := set_state key st now o in
  overrides_reachable o' /\ total_states o' <= 3 * 4096
  /\ override_state o' key = (if accepted : bool then requested st else None)
  /\ (forall k, k <> key -> override_state o' k = override_state o k)
  /\ (accepted = true <-> match st with
                          | Drained => Z.of_nat (size (ov_drain o ∖ {[key]})) < 4096
                          | Disabled => Z.of_nat (size (ov_disabled o ∖ {[key]})) < 4096
                          | ForcedDown => Z.of_nat (size (ov_forced_down o ∖ {[key]})) < 4096
                          | Normal | ManualResume => True
                          end).
Proof.
  intros R. pose proof (or_set_state key st now o R) as R'.
  destruct (overrides_reachable_wf _ R') as [W' _]. pose proof (set_state_self key st now o) as Hs.
  pose proof (fun k => set_state_others key st now o k) as Ho.
  destruct (set_state key st now o) as [accepted o'] eqn:E. cbn [fst snd] in *. split_and!; try done.
  { destruct W' as [_ _ _ S1 S2 S3 _ _ _]. unfold total_states.
    unfold LIMIT, MAX_RUNTIME_BACKEND_POLICY_OVERRIDE_ENTRIES in *. lia. }
  assert (forall s : gset Z, key_has_capacity (s ∖ {[key]}) key = true
            <-> Z.of_nat (size (s ∖ {[key]})) < 4096) as Hc.
  { intros s. unfold key_has_capacity, MAX_RUNTIME_BACKEND_POLICY_OVERRIDE_ENTRIES.
    rewrite bool_decide_eq_false_2 by set_solver. apply Z.ltb_lt. }
  unfold set_state in E. destruct st; rewrite <-?Hc; branches E; naive_solver.
Qed.
Lemma set_state_effect_witness :
  override_state (set_state 5 ForcedDown 3 overrides_default).2 5 = Some ForcedDown.
Proof.
  pose proof (set_state_effect 5 ForcedDown 3 overrides_default or_default) as H.
  exact (proj1 (proj2 (proj2 H))).
Defined.
