(* ===== verification/LbSelect.v ===== *)
(** * Backend selection ([selection.rs], [selection_candidate.rs],
    [selection_weight.rs], [selection_fnv.rs], [selection_power.rs],
    [selection_consistent.rs], [selection_maglev.rs], [selection_ketama.rs],
    [inner.rs])

    Every algorithm tries the selection passes in order and returns the first
    backend a pass yields. *)
From Stdlib Require Import ZArith Lia.
From stdpp Require Import base list numbers strings sets gmap sorting.
From S2P Require Import Prelude Text NetAddr LbRetry LbBackend LbState LbPolicy.

(** ** Candidates *)

(** What one selection reads: the snapshot (with the health records), the
    states the pool has ([None] when not configured) and the policy. *)
Record Pool : Type := mkPool {
  pl_runtime : Runtime;
  pl_passive : option PassiveHealthState;
  pl_slow_start : option Z;
  pl_policy : BackendSelectionPolicy;
}.
Definition backends (p : Pool) : list FluxBackend := sn_backends (snapshot (pl_runtime p)).

Section Candidates.
Context `{Env} (p : Pool).

Definition backend_candidate_base_allowed (b : FluxBackend) (pass : SelectionPass)
    (slow_start_read_only : bool) : M bool :=
  if snapshot_ready (pl_runtime p) b then
    and_then (permits (pl_policy p) b pass)
      (if ignore_slow_start pass then ret true
       else match pl_slow_start p with
            | None => ret true
            | Some duration =>
                if slow_start_read_only then slow_permits_read_only duration b
                else slow_permits duration b
            end)
  else ret false.

(** [iter().filter(f).take(limit).count()]: stops at [limit] matches. *)
Fixpoint filter_take_count (f : FluxBackend -> M bool) (limit : Z) (l : list FluxBackend) : M Z :=
  if limit <=? 0 then ret 0
  else match l with
       | [] => ret 0
       | b :: l' =>
           let! ok := f b in
           if ok : bool
           then let! n := filter_take_count f (limit - 1) l' in ret (n + 1)
           else filter_take_count f limit l'
       end.

Definition floor_pass : SelectionPass := mkPass None true true true.
Definition non_ejected_candidate_count (limit : Z) : M Z :=
  match pl_passive p with
  | None => ret limit
  | Some _ =>
      filter_take_count
        (fun b => and_then (backend_candidate_base_allowed b floor_pass true)
                    (let! ejected := is_ejected b in ret (negb ejected)))
        limit (backends p)
  end.

Definition passive_health_candidate_allowed (b : FluxBackend) : M bool :=
  match pl_passive p with
  | None => ret true
  | Some health =>
      let! ejected := is_ejected b in
      if negb ejected then ret true
      else
        let floor := min_healthy_backends health in
        if 0 <? floor
        then let! n := non_ejected_candidate_count floor in ret (n <? floor)
        else ret false
  end.

Definition backend_candidate_allowed (b : FluxBackend) (pass : SelectionPass) : M bool :=
  and_then (backend_candidate_base_allowed b pass false) (passive_health_candidate_allowed b).
Definition backend_candidate_allowed_read_only (b : FluxBackend) (pass : SelectionPass) : M bool :=
  and_then (backend_candidate_base_allowed b pass true) (passive_health_candidate_allowed b).

(** ** Passes *)

Definition selection_priority_groups : list (option Z) :=
  match p_priority_groups (pl_policy p) with
  | [] => [None]
  | groups => Some <$> groups
  end.
Definition selection_passes : list SelectionPass :=
  concat ((fun ignore_locality : bool =>
    if ignore_locality && bool_decide (p_preferred_localities (pl_policy p) = ∅) then []
    else concat ((fun '(allow_backup, ignore_slow_start) =>
      (fun group => mkPass group allow_backup ignore_slow_start ignore_locality)
      <$> selection_priority_groups)
      <$> [(false, false); (true, false); (false, true)]))
    <$> [false; true]).

Definition priority_activation_satisfied (pass : SelectionPass) : M bool :=
  let min_active := p_priority_group_min_active (pl_policy p) in
  match minimum_priority_group pass with
  | None => ret true
  | Some group =>
      if (min_active <=? 1) || is_lowest_priority_group (pl_policy p) group then ret true
      else
        let! n := filter_take_count (fun b => backend_candidate_allowed_read_only b pass) min_active
                    (backends p) in
        ret (min_active <=? n)
  end.

(** The loop every algorithm has around its passes. *)
Fixpoint try_passes {A} (f : SelectionPass -> M (option A)) (passes : list SelectionPass)
  : M (option A) :=
  match passes with
  | [] => ret None
  | pass :: passes' =>
      let! active := priority_activation_satisfied pass in
      if active : bool then
        let! selected := f pass in
        match selected with
        | Some a => ret (Some a)
        | None => try_passes f passes'
        end
      else try_passes f passes'
  end.
Definition by_passes {A} (f : SelectionPass -> M (option A)) : M (option A) :=
  try_passes f selection_passes.

(** The candidates of a pass, each with what [score] reads of it. *)
Fixpoint candidates_in {S} (score : FluxBackend -> M S) (pass : SelectionPass)
    (l : list FluxBackend) : M (list (FluxBackend * S)) :=
  match l with
  | [] => ret []
  | b :: l' =>
      let! ok := backend_candidate_allowed b pass in
      if ok : bool then
        let! s := score b in
        let! rest := candidates_in score pass l' in
        ret ((b, s) :: rest)
      else candidates_in score pass l'
  end.
Definition candidates {S} (score : FluxBackend -> M S) (pass : SelectionPass)
  : M (list (FluxBackend * S)) := candidates_in score pass (backends p).

(** ** Weighted round robin *)

Definition total_weight {S} (weight_of : S -> Z) (l : list (FluxBackend * S)) : Z :=
  foldl (fun total c => saturating_add USIZE_MAX total (weight_of c.2)) 0 l.
Fixpoint pick (l : list (FluxBackend * Z)) (target : Z) : option FluxBackend :=
  match l with
  | [] => None
  | (b, w) :: l' => if target <? w then Some b else pick l' (saturating_sub target w)
  end.
Definition weighted_round_robin_pass (pass : SelectionPass) : M (option FluxBackend) :=
  let! l := candidates (fun b => ret (effective_weight (pl_policy p) b)) pass in
  let total := total_weight id l in
  if total =? 0 then ret None
  else
    let! cursor := get w_cursor in
    modify (set_cursor ((cursor + 1) mod (USIZE_MAX + 1))) ;;;
    ret (pick l (cursor mod total)).
Definition select_weighted_round_robin : M (option FluxBackend) := by_passes weighted_round_robin_pass.

(** ** Least connections, sessions, time *)

Definition least_connections_score_is_lower (candidate_connections candidate_weight
    selected_connections selected_weight : Z) : bool :=
  saturating_mul USIZE_MAX candidate_connections selected_weight
  <? saturating_mul USIZE_MAX selected_connections candidate_weight.
Definition load_lower (c s : Z * Z) : bool := least_connections_score_is_lower c.1 c.2 s.1 s.2.

(** [least_time_score_is_lower] on (latency, (connections, weight)); the
    products fit 128 bits. *)
Definition least_time_score_is_lower (c s : Z * (Z * Z)) : bool :=
  let candidate := c.1 * s.2.2 in
  let selected := s.1 * c.2.2 in
  (candidate <? selected) || ((candidate =? selected) && load_lower c.2 s.2).

(** The scan: the first candidate no later one is lower than. *)
Definition scan_min {S} (lower : S -> S -> bool) (l : list (FluxBackend * S))
  : option (FluxBackend * S) :=
  foldl (fun selected c =>
           match selected with
           | None => Some c
           | Some s => if lower c.2 s.2 then Some c else Some s
           end) None l.
Definition least_pass {S} (score : FluxBackend -> M S) (lower : S -> S -> bool)
    (pass : SelectionPass) : M (option FluxBackend) :=
  let! l := candidates score pass in
  ret (fst <$> scan_min lower l).

Definition connections_score (b : FluxBackend) : M (Z * Z) :=
  let! n := connections b in ret (n, effective_weight (pl_policy p) b).
Definition select_least_connections : M (option FluxBackend) :=
  by_passes (least_pass connections_score load_lower).

Definition sessions_score (sessions : gmap Z Z) (b : FluxBackend) : M (Z * Z) :=
  ret (default 0 (sessions !! backend_key b), effective_weight (pl_policy p) b).
Definition select_least_sessions (sessions : gmap Z Z) : M (option FluxBackend) :=
  by_passes (least_pass (sessions_score sessions) load_lower).

Definition time_score (b : FluxBackend) : M (Z * (Z * Z)) :=
  let! latency := latency_score b in
  let! s := connections_score b in
  ret (default 0 latency, s).
Definition select_least_time : M (option FluxBackend) :=
  by_passes (least_pass time_score least_time_score_is_lower).
End Candidates.

(** ** Hash selection ([selection_fnv.rs], [selection_weight.rs]) *)

Definition weighted_backend_indices (l : list FluxBackend) : list Z :=
  concat (imap (fun index b => replicate (Z.to_nat (Z.max (weight b) 1)) (Z.of_nat index)) l).

Section Hashing.
Context `{Env} (p : Pool).

(** The first of [l] that [ok] accepts. *)
Fixpoint find_first {A} (ok : A -> M bool) (l : list A) : M (option A) :=
  match l with
  | [] => ret None
  | a :: l' => let! x := ok a in if x : bool then ret (Some a) else find_first ok l'
  end.

(** One step of the loop after the first: rehash, skip members seen before. *)
Fixpoint fnv_steps (steps : nat) (l : list FluxBackend) (pass : SelectionPass)
    (index : Z) (seen : gset Z) : M (option FluxBackend) :=
  match steps with
  | O => ret None
  | S steps' =>
      let index := fnv1a64_with_seed (to_le_bytes 8 index) fnv_route_secret in
      match zget l (index mod zlen l) with
      | None => ret None
      | Some candidate =>
          let key := backend_key candidate in
          if bool_decide (key ∈ seen) then fnv_steps steps' l pass index seen
          else
            let! ok := backend_candidate_allowed p candidate pass in
            if ok : bool then ret (Some candidate)
            else fnv_steps steps' l pass index (seen ∪ {[key]})
      end
  end.
Definition fnv_hash_pass (key : list Z) (max_iterations : Z) (pass : SelectionPass)
  : M (option FluxBackend) :=
  let l := backends p in
  let weighted := weighted_backend_indices l in
  if bool_decide (l = []) || bool_decide (weighted = []) then ret None
  else
    let index := fnv1a64_with_seed key fnv_route_secret in
    match zget weighted (index mod zlen weighted) ≫= zget l with
    | None => ret None
    | Some candidate =>
        let! ok := backend_candidate_allowed p candidate pass in
        if ok : bool then ret (Some candidate)
        else fnv_steps (Z.to_nat (Z.max max_iterations 1) - 1) l pass index {[backend_key candidate]}
    end.
Definition select_fnv_hash (key : list Z) (max_iterations : Z) : M (option FluxBackend) :=
  by_passes p (fnv_hash_pass key max_iterations).

(** ** Power of two choices ([selection_power.rs]) *)

Definition random_candidate_allowed (pass : SelectionPass) (excluded : option Z)
    (seen : gset Z) (candidate : FluxBackend) : M (bool * gset Z) :=
  let key := backend_key candidate in
  if bool_decide (excluded = Some key) then ret (false, seen)
  else if bool_decide (key ∈ seen) then ret (false, seen)
  else
    let! ok := backend_candidate_allowed p candidate pass in
    ret (ok, seen ∪ {[key]}).
Fixpoint random_scan (pass : SelectionPass) (excluded : option Z) (l : list FluxBackend)
    (seen : gset Z) : M (option FluxBackend) :=
  match l with
  | [] => ret None
  | candidate :: l' =>
      let! r := random_candidate_allowed pass excluded seen candidate in
      if r.1 : bool then ret (Some candidate) else random_scan pass excluded l' r.2
  end.
(** The [n] elements of [l] from position [start] on, cyclically. *)
Definition rotate_take {A} (start n : Z) (l : list A) : list A :=
  ztake n (zdrop start l ++ l).
Definition select_weighted_random_candidate (max_iterations : Z) (pass : SelectionPass)
    (excluded : option Z) : M (option FluxBackend) :=
  let l := backends p in
  let weighted := weighted_backend_indices l in
  if bool_decide (l = []) || bool_decide (weighted = []) then ret None
  else
    let! r := random_u64 in
    match zget weighted (r mod zlen weighted) ≫= zget l with
    | None => ret None
    | Some candidate =>
        let! first := random_candidate_allowed pass excluded ∅ candidate in
        if first.1 : bool then ret (Some candidate)
        else
          let! r := random_u64 in
          random_scan pass excluded
            (rotate_take (r mod zlen l) (Z.min (Z.max max_iterations 1) (zlen l)) l) first.2
    end.
Definition power_of_two_pass (max_iterations : Z) (pass : SelectionPass) : M (option FluxBackend) :=
  let! first := select_weighted_random_candidate max_iterations pass None in
  match first with
  | None => ret None
  | Some first =>
      let! second := select_weighted_random_candidate max_iterations pass (Some (backend_key first)) in
      let second := default first second in
      let! second_connections := connections second in
      let! first_connections := connections first in
      if least_connections_score_is_lower
           second_connections (effective_weight (pl_policy p) second)
           first_connections (effective_weight (pl_policy p) first)
      then ret (Some second) else ret (Some first)
  end.
Definition select_power_of_two (max_iterations : Z) : M (option FluxBackend) :=
  by_passes p (power_of_two_pass max_iterations).

(** ** Consistent hashing ([selection_consistent.rs]) *)

Definition replica_hash (key : list Z) (backend_key replica : Z) : Z :=
  let hash := fnv1a64_with_seed key consistent_route_secret in
  let hash := fnv1a64_with_seed (to_le_bytes 8 backend_key) hash in
  fnv1a64_with_seed (to_le_bytes 8 replica) hash.
Definition consistent_backend_score (key : list Z) (backend_key w : Z) : Z :=
  foldl (fun best replica => Z.max best (replica_hash key backend_key replica)) 0
    (seqZ 0 (Z.max w 1)).

Record Ranked : Type := mkRanked {
  rk_score : Z;
  rk_key : Z;
  rk_backend : FluxBackend;
}.
(** Higher scores first, then smaller keys. *)
Definition ranked_le (x y : Ranked) : Prop :=
  rk_score y < rk_score x \/ (rk_score x = rk_score y /\ rk_key x <= rk_key y).
#[export] Instance ranked_le_dec : RelDecision ranked_le.
Proof. intros x y. unfold ranked_le. apply _. Defined.
Definition rank (key : list Z) (b : FluxBackend) : Ranked :=
  mkRanked (consistent_backend_score key (backend_key b) (effective_weight (pl_policy p) b))
    (backend_key b) b.
Definition consistent_hash_candidates (key : list Z) : list FluxBackend :=
  rk_backend <$> merge_sort ranked_le (rank key <$> backends p).

Record BoundedLoadSnapshot : Type := mkBound {
  bl_total_connections : Z;
  bl_total_weight : Z;
  bl_factor_per_mille : Z;
}.
Fixpoint bounded_load_totals (pass : SelectionPass) (l : list FluxBackend) (conns weights : Z)
  : M (Z * Z) :=
  match l with
  | [] => ret (conns, weights)
  | b :: l' =>
      let! ok := backend_candidate_allowed_read_only p b pass in
      if ok : bool then
        let! n := connections b in
        bounded_load_totals pass l' (saturating_add USIZE_MAX conns n)
          (saturating_add USIZE_MAX weights (effective_weight (pl_policy p) b))
      else bounded_load_totals pass l' conns weights
  end.
Definition bounded_load_snapshot (pass : SelectionPass) (factor_per_mille : Z)
  : M (option BoundedLoadSnapshot) :=
  let! t := bounded_load_totals pass (backends p) 0 0 in
  ret (if (0 <? t.2) && (0 <? t.1) then Some (mkBound t.1 t.2 factor_per_mille) else None).
Definition bounded_load_permits (b : FluxBackend) (bound : BoundedLoadSnapshot) : M bool :=
  let! n := connections b in
  let w := effective_weight (pl_policy p) b in
  let left := saturating_mul U128_MAX (saturating_mul U128_MAX n (bl_total_weight bound)) 1000 in
  let right := saturating_mul U128_MAX (saturating_mul U128_MAX (bl_total_connections bound) w)
                 (bl_factor_per_mille bound) in
  ret (left <=? right).

Definition consistent_hash_pass (key : list Z) (max_iterations : Z)
    (bound : option BoundedLoadSnapshot) (pass : SelectionPass) : M (option FluxBackend) :=
  let l := consistent_hash_candidates key in
  let limit := Z.min (Z.max max_iterations 1) (zlen l) in
  find_first
    (fun b => and_then (backend_candidate_allowed p b pass)
                (match bound with None => ret true | Some bound => bounded_load_permits b bound end))
    (ztake limit l).
Definition select_consistent_hash (key : list Z) (max_iterations : Z) : M (option FluxBackend) :=
  by_passes p (consistent_hash_pass key max_iterations None).

Definition bounded_load_pass (key : list Z) (max_iterations factor_per_mille : Z)
    (pass : SelectionPass) : M (option FluxBackend) :=
  let! bound := bounded_load_snapshot pass factor_per_mille in
  match bound with
  | None => consistent_hash_pass key max_iterations None pass
  | Some bound =>
      let! selected := consistent_hash_pass key max_iterations (Some bound) pass in
      match selected with
      | Some b => ret (Some b)
      | None => consistent_hash_pass key max_iterations None pass
      end
  end.
Definition select_bounded_load_consistent (key : list Z) (max_iterations factor_per_mille : Z)
  : M (option FluxBackend) :=
  by_passes p (bounded_load_pass key max_iterations factor_per_mille).

(** ** Tables of keys: Maglev and the nginx-compatible ring *)

(** The first key of a table that names an allowed member. *)
Definition table_pass (lookup : Z -> option FluxBackend) (keys : list Z) (pass : SelectionPass)
  : M (option FluxBackend) :=
  let! found := find_first
    (fun key => match lookup key with
                | None => ret false
                | Some b => backend_candidate_allowed p b pass
                end) keys in
  ret (found ≫= lookup).
(** [snapshot.backends().iter().find(..)] *)
Definition backend_with_key (key : Z) : option FluxBackend :=
  list_find (fun b => backend_key b = key) (backends p) ≫= fun x => Some x.2.
(** The [HashMap] of [select_maglev]: the last member of a key. *)
Definition backend_by_key : gmap Z FluxBackend :=
  foldl (fun m b => <[backend_key b := b]> m) ∅ (backends p).

Definition select_maglev (keys : list Z) : M (option FluxBackend) :=
  by_passes p (table_pass (fun key => backend_by_key !! key) keys).
Definition select_nginx_consistent_hash (keys : list Z) : M (option FluxBackend) :=
  by_passes p (table_pass backend_with_key keys).
End Hashing.
