(* ===== verification/LbMaglev.v ===== *)
(** * Maglev tables ([selection_maglev.rs])

    The lookup table is a map from slots to keys; a slot without an entry
    holds the initial [u64::MAX]. *)
From Stdlib Require Import ZArith Lia Znumtheory.
From stdpp Require Import base list numbers strings sets gmap.
From S2P Require Import Prelude Text NetAddr LbBackend LbState.

Definition MAGLEV_TABLE_SIZE : Z := 65537.

Definition maglev_candidate (offset next skip : Z) : Z := (offset + next * skip) mod MAGLEV_TABLE_SIZE.

(** A backend while the table is filled: its key, its permutation and the
    next position of it. *)
Record MaglevEntry : Type := mkEntry {
  me_key : Z;
  me_offset : Z;
  me_skip : Z;
  me_next : Z;
}.
Definition maglev_entry (key : Z) : MaglevEntry :=
  let bytes := to_le_bytes 8 key in
  mkEntry key
    (fnv1a64_with_seed bytes FNV_OFFSET_BASIS mod MAGLEV_TABLE_SIZE)
    (fnv1a64_with_seed bytes 0x84222325cbf29ce4 mod (MAGLEV_TABLE_SIZE - 1) + 1)
    0.

(** The inner [loop]: the entry takes its next free slot. *)
Fixpoint claim_slot (fuel : nat) (e : MaglevEntry) (slots : gmap Z Z)
  : option (MaglevEntry * gmap Z Z) :=
  match fuel with
  | O => None
  | S fuel' =>
      let candidate := maglev_candidate (me_offset e) (me_next e) (me_skip e) in
      let e' := mkEntry (me_key e) (me_offset e) (me_skip e) (saturating_add USIZE_MAX (me_next e) 1) in
      if default U64_MAX (slots !! candidate) =? U64_MAX
      then Some (e', <[candidate := me_key e]> slots)
      else claim_slot fuel' e' slots
  end.

(** The [for] loop over the backends, left early when the table is full. *)
Fixpoint fill_round (fuel : nat) (es : list MaglevEntry) (slots : gmap Z Z) (filled : Z)
  : option (list MaglevEntry * gmap Z Z * Z) :=
  match es with
  | [] => Some ([], slots, filled)
  | e :: es' =>
      '(e, slots) ← claim_slot fuel e slots;
      let filled := filled + 1 in
      if filled =? MAGLEV_TABLE_SIZE then Some (e :: es', slots, filled)
      else
        '(es', slots, filled) ← fill_round fuel es' slots filled;
        Some (e :: es', slots, filled)
  end.

(** The [while] loop. *)
Fixpoint fill_table (rounds fuel : nat) (es : list MaglevEntry) (slots : gmap Z Z) (filled : Z)
  : option (gmap Z Z) :=
  if filled <? MAGLEV_TABLE_SIZE then
    match rounds with
    | O => None
    | S rounds' =>
        '(es, slots, filled) ← fill_round fuel es slots filled;
        fill_table rounds' fuel es slots filled
    end
  else Some slots.

(** [from_backend_keys]: [None] for no backends; the loops run at most once
    per slot. *)
Definition maglev_from_backend_keys (keys : list Z) : option (gmap Z Z) :=
  if bool_decide (keys = []) then None
  else fill_table (Z.to_nat MAGLEV_TABLE_SIZE) (Z.to_nat MAGLEV_TABLE_SIZE)
         (maglev_entry <$> keys) ∅ 0.

(** [candidate_keys] *)
Definition maglev_candidate_keys `{Env} (slots : gmap Z Z) (key : list Z) (max_iterations : Z)
  : list Z :=
  let start := fnv1a64_with_seed key maglev_route_secret mod MAGLEV_TABLE_SIZE in
  let limit := Z.min (Z.max max_iterations 1) MAGLEV_TABLE_SIZE in
  (fun offset => default U64_MAX (slots !! ((start + offset) mod MAGLEV_TABLE_SIZE)))
  <$> seqZ 0 limit.

(** ** Permutations *)

Lemma maglev_no_small_divisor d : 2 <= d <= 256 -> ~ (d | MAGLEV_TABLE_SIZE).
Proof.
  intros Hd Hdiv. apply Z.mod_divide in Hdiv; [|lia].
  assert (forallb (fun d => negb (65537 mod d =? 0)) (seqZ 2 255) = true) as Hall by (by vm_compute).
  rewrite forallb_forall in Hall. specialize (Hall d).
  rewrite <-list_elem_of_In, elem_of_seqZ in Hall. unfold MAGLEV_TABLE_SIZE in Hdiv.
  rewrite Hdiv in Hall. cbn in Hall. discriminate Hall. lia.
Qed.
Lemma maglev_coprime skip :
  1 <= skip < MAGLEV_TABLE_SIZE -> Z.gcd skip MAGLEV_TABLE_SIZE = 1.
Proof.
  intros Hs. set (g := Z.gcd skip MAGLEV_TABLE_SIZE).
  assert (0 < g) as Hg by (pose proof (Z.gcd_nonneg skip MAGLEV_TABLE_SIZE);
    destruct (Z.eq_dec g 0) as [E|]; [apply Z.gcd_eq_0_l in E; lia|lia]).
  assert (g <= skip) by (apply Z.divide_pos_le; [lia|apply Z.gcd_divide_l]).
  destruct (Z.gcd_divide_r skip MAGLEV_TABLE_SIZE) as [q Hq]. fold g in Hq.
  destruct (Z.eq_dec g 1) as [|Hne]; [done|exfalso].
  unfold MAGLEV_TABLE_SIZE in *. assert (1 < q) by nia.
  destruct (Z.le_gt_cases g 256).
  - apply (maglev_no_small_divisor g); [lia|]. exists q. done.
  - apply (maglev_no_small_divisor q); [nia|]. exists g. unfold MAGLEV_TABLE_SIZE. lia.
Qed.
Lemma maglev_inverse skip :
  1 <= skip < MAGLEV_TABLE_SIZE -> exists u t, u * skip = 1 + t * MAGLEV_TABLE_SIZE.
Proof.
  intros Hs. destruct (Z.gcd_bezout skip MAGLEV_TABLE_SIZE 1 (maglev_coprime skip Hs)) as (u & v & E).
  exists u, (- v). lia.
Qed.

(** Every slot is a candidate of any [MAGLEV_TABLE_SIZE] steps in a row. *)
Lemma maglev_candidate_hits offset skip next slot :
  1 <= skip < MAGLEV_TABLE_SIZE -> 0 <= slot < MAGLEV_TABLE_SIZE ->
  exists n, next <= n < next + MAGLEV_TABLE_SIZE /\ maglev_candidate offset n skip = slot.
Proof.
  intros Hs Hc. destruct (maglev_inverse skip Hs) as (u & t & Hu).
  set (r := (slot - offset) * u - next).
  pose proof (Z.mod_pos_bound r MAGLEV_TABLE_SIZE ltac:(done)).
  pose proof (Z_div_mod_eq_full r MAGLEV_TABLE_SIZE) as Hr.
  set (q := r / MAGLEV_TABLE_SIZE) in *.
  exists (next + r mod MAGLEV_TABLE_SIZE). split; [lia|]. unfold maglev_candidate.
  replace (offset + (next + r mod MAGLEV_TABLE_SIZE) * skip)
    with (slot + ((slot - offset) * t - q * skip) * MAGLEV_TABLE_SIZE).
  - rewrite Z_mod_plus_full, Z.mod_small; lia.
  - replace (r mod MAGLEV_TABLE_SIZE) with (r - MAGLEV_TABLE_SIZE * q) by lia. subst r.
    replace (offset + (next + ((slot - offset) * u - next - MAGLEV_TABLE_SIZE * q)) * skip)
      with (offset + (slot - offset) * (u * skip) - MAGLEV_TABLE_SIZE * q * skip) by ring.
    rewrite Hu. ring.
Qed.

(** ** Filling the table *)

Lemma table_size_value : MAGLEV_TABLE_SIZE = 65537.
Proof. reflexivity. Qed.
Lemma table_size_nat : Z.of_nat (Z.to_nat MAGLEV_TABLE_SIZE) = MAGLEV_TABLE_SIZE.
Proof. apply Z2Nat.id. unfold MAGLEV_TABLE_SIZE. lia. Qed.
#[local] Opaque MAGLEV_TABLE_SIZE.

Definition slot_set : gset Z := list_to_set (seqZ 0 MAGLEV_TABLE_SIZE).
Lemma slot_set_elem i : i ∈ slot_set <-> 0 <= i < MAGLEV_TABLE_SIZE.
Proof. unfold slot_set. rewrite elem_of_list_to_set, elem_of_seqZ. lia. Qed.
Lemma slot_set_size : Z.of_nat (size slot_set) = MAGLEV_TABLE_SIZE.
Proof.
  unfold slot_set. rewrite size_list_to_set by apply NoDup_seqZ. rewrite length_seqZ. apply table_size_nat.
Qed.

#[local] Opaque slot_set.

(** Only slots of the table are used, and none holds the marker. *)
Record slots_ok (slots : gmap Z Z) : Prop := {
  so_dom : dom slots ⊆ slot_set;
  so_marker : forall i, slots !! i <> Some U64_MAX;
}.
Definition slots_of (slots : gmap Z Z) (k : Z) : Z :=
  Z.of_nat (size (filter (fun kv => kv.2 = k) slots)).
Definition filled_slots (slots : gmap Z Z) : Z := Z.of_nat (size slots).

Lemma slots_ok_le slots : slots_ok slots -> filled_slots slots <= MAGLEV_TABLE_SIZE.
Proof.
  intros [Hd _]. rewrite <-slot_set_size. unfold filled_slots. rewrite <-size_dom.
  apply subseteq_size in Hd. lia.
Qed.
Lemma pigeonhole (s d : gset Z) : (size d < size s)%nat -> exists i, i ∈ s /\ i ∉ d.
Proof.
  intros Hlt. assert (exists i, i ∈ s ∖ d) as [i [Hi Hn]%elem_of_difference]; [|eauto].
  apply set_choose_L. intros E. assert (s ⊆ d) as Hs.
  { intros i Hi. destruct (decide (i ∈ d)); [done|]. assert (i ∈ s ∖ d) as H by by apply elem_of_difference.
    by rewrite E in H. }
  apply subseteq_size in Hs. lia.
Qed.
Lemma free_slot slots :
  slots_ok slots -> filled_slots slots < MAGLEV_TABLE_SIZE ->
  exists i, 0 <= i < MAGLEV_TABLE_SIZE /\ slots !! i = None.
Proof.
  intros _ Hlt. destruct (pigeonhole slot_set (dom slots)) as (i & Hi & Hn).
  - rewrite size_dom. pose proof slot_set_size. unfold filled_slots in Hlt. lia.
  - exists i. split; [by apply (proj1 (slot_set_elem i))|by apply not_elem_of_dom].
Qed.
Lemma full_slots slots :
  slots_ok slots -> filled_slots slots = MAGLEV_TABLE_SIZE ->
  forall i, 0 <= i < MAGLEV_TABLE_SIZE -> is_Some (slots !! i).
Proof.
  intros [Hd _] Hf i Hi. apply elem_of_dom. apply (proj2 (slot_set_elem i)) in Hi.
  pose proof slot_set_size as Hs. unfold filled_slots in Hf. rewrite <-size_dom in Hf.
  rewrite <-Hs in Hf. clear Hs. revert Hd Hf Hi. generalize slot_set as s. intros s Hd Hf Hi.
  assert (dom slots ≡ s) as E; [|by apply E]. apply set_subseteq_size_equiv; [done|]. lia.
Qed.

Lemma slots_of_insert slots i key k :
  slots !! i = None ->
  slots_of (<[i := key]> slots) k = slots_of slots k + (if decide (key = k) then 1 else 0).
Proof.
  intros Hi. unfold slots_of. case_decide as Hk.
  - rewrite map_filter_insert_True by done. rewrite map_size_insert_None; [lia|].
    rewrite map_lookup_filter_None. by left.
  - rewrite map_filter_insert_False by done. rewrite delete_id by done. lia.
Qed.
Lemma filled_insert slots i key :
  slots !! i = None -> filled_slots (<[i := key]> slots) = filled_slots slots + 1.
Proof. intros Hi. unfold filled_slots. rewrite map_size_insert_None by done. lia. Qed.
Lemma slots_ok_insert slots i key :
  slots_ok slots -> 0 <= i < MAGLEV_TABLE_SIZE -> key <> U64_MAX -> slots_ok (<[i := key]> slots).
Proof.
  intros [Hd Hm] Hi Hk. split.
  - rewrite dom_insert. apply union_subseteq. split; [|done]. apply singleton_subseteq_l.
    by apply (proj2 (slot_set_elem i)).
  - intros j. rewrite lookup_insert_Some. naive_solver.
Qed.

(** An entry whose position stays far below the integer width. *)
Record entry_ok (e : MaglevEntry) (claims : Z) : Prop := {
  eo_skip : 1 <= me_skip e < MAGLEV_TABLE_SIZE;
  eo_key : me_key e <> U64_MAX;
  eo_next : 0 <= me_next e <= MAGLEV_TABLE_SIZE * claims;
}.

Lemma claim_slot_from fuel e slots n :
  slots_ok slots -> 0 <= me_next e -> me_next e + Z.of_nat fuel <= USIZE_MAX ->
  me_next e <= n < me_next e + Z.of_nat fuel ->
  slots !! maglev_candidate (me_offset e) n (me_skip e) = None ->
  exists next' i,
    claim_slot fuel e slots
      = Some (mkEntry (me_key e) (me_offset e) (me_skip e) next', <[i := me_key e]> slots)
    /\ slots !! i = None /\ 0 <= i < MAGLEV_TABLE_SIZE
    /\ me_next e <= next' <= me_next e + Z.of_nat fuel.
Proof.
  revert e. induction fuel as [|fuel IH]; intros e Hs H0 Hmax Hn Hfree; [lia|]. cbn [claim_slot].
  rewrite saturating_add_exact by lia. set (c := maglev_candidate (me_offset e) (me_next e) (me_skip e)).
  assert (0 <= c < MAGLEV_TABLE_SIZE) by (apply Z.mod_pos_bound; rewrite table_size_value; lia).
  destruct (slots !! c) as [k|] eqn:Ec.
  - change (default U64_MAX (Some k)) with k. destruct (Z.eqb_spec k U64_MAX) as [->|_]; [by destruct (so_marker _ Hs c)|].
    destruct (Z.eq_dec n (me_next e)) as [->|Hne]; [subst c; congruence|].
    destruct (IH (mkEntry (me_key e) (me_offset e) (me_skip e) (me_next e + 1)) Hs) as (next' & i & E & ? & ? & ?);
      cbn in *; [lia..|done|]. exists next', i. split_and!; first [done | lia].
  - change (default U64_MAX None =? U64_MAX) with true. exists (me_next e + 1), c. split_and!; first [done | lia].
Qed.
Lemma claim_slot_ok e claims slots :
  slots_ok slots -> filled_slots slots < MAGLEV_TABLE_SIZE ->
  entry_ok e claims -> 0 <= claims <= MAGLEV_TABLE_SIZE ->
  exists e' i,
    claim_slot (Z.to_nat MAGLEV_TABLE_SIZE) e slots = Some (e', <[i := me_key e]> slots)
    /\ slots !! i = None /\ 0 <= i < MAGLEV_TABLE_SIZE /\ me_key e' = me_key e
    /\ entry_ok e' (claims + 1).
Proof.
  intros Hs Hf [E1 E2 E3] Hc. destruct (free_slot slots Hs Hf) as (i & Hi & Hfree).
  destruct (maglev_candidate_hits (me_offset e) (me_skip e) (me_next e) i E1 Hi) as (n & Hn & Hcand).
  destruct (claim_slot_from (Z.to_nat MAGLEV_TABLE_SIZE) e slots n Hs) as (next' & j & E & ? & ? & ?).
  - lia.
  - rewrite table_size_nat. rewrite table_size_value in *. unfold USIZE_MAX, U64_MAX. lia.
  - by rewrite table_size_nat.
  - by rewrite Hcand.
  - eexists _, j. split; [exact E|]. rewrite table_size_nat in *. split_and!; [done|lia|lia|done|].
    split; cbn [me_skip me_key me_next]; [done|done|lia].
Qed.

#[local] Abbreviation fuel_max := (Z.to_nat MAGLEV_TABLE_SIZE).

(** After a round the first [j] backends have one slot more. *)
Record round_ok (es : list MaglevEntry) (claims : Z) (slots : gmap Z Z)
    (es' : list MaglevEntry) (slots' : gmap Z Z) (j : nat) : Prop := {
  ro_slots : slots_ok slots';
  ro_keys : me_key <$> es' = me_key <$> es;
  ro_count : forall k, slots_of slots' k
               = slots_of slots k + (if decide (k ∈ take j (me_key <$> es)) then 1 else 0);
  ro_filled : filled_slots slots' = filled_slots slots + Z.of_nat j;
  ro_values : forall i v, slots' !! i = Some v -> slots !! i = Some v \/ v ∈ me_key <$> es;
  ro_bound : (j <= length es)%nat;
  ro_end : (j = length es /\ Forall (fun e => entry_ok e (claims + 1)) es')
           \/ filled_slots slots' = MAGLEV_TABLE_SIZE;
}.
Lemma fill_round_ok es claims slots :
  slots_ok slots -> Forall (fun e => entry_ok e claims) es -> NoDup (me_key <$> es) ->
  filled_slots slots < MAGLEV_TABLE_SIZE -> 0 <= claims <= MAGLEV_TABLE_SIZE ->
  exists es' slots' j,
    fill_round fuel_max es slots (filled_slots slots) = Some (es', slots', filled_slots slots')
    /\ round_ok es claims slots es' slots' j.
Proof.
  revert slots. induction es as [|e es IH]; intros slots Hs He Hd Hf Hc; cbn [fill_round].
  { exists [], slots, 0%nat. split; [done|].
    split; cbn [length]; [done|done| |lia|by left|lia|by left].
    intros k. rewrite decide_False by apply not_elem_of_nil. lia. }
  apply Forall_cons in He as [He Hes]. cbn [fmap list_fmap] in Hd. apply NoDup_cons in Hd as [Hk Hd].
  destruct (claim_slot_ok e claims slots Hs Hf He Hc) as (e' & i & E & Hi & Hr & Hkey & He').
  rewrite E. cbn [mbind option_bind]. set (slots1 := <[i := me_key e]> slots) in *.
  assert (slots_ok slots1) as Hs1 by (apply slots_ok_insert; [done..|apply He]).
  assert (filled_slots slots1 = filled_slots slots + 1) as Ef by by apply filled_insert.
  rewrite <-Ef. destruct (Z.eqb_spec (filled_slots slots1) MAGLEV_TABLE_SIZE) as [Hfull|Hnot].
  - exists (e' :: es), slots1, 1%nat. split; [done|]. split; cbn [length fmap list_fmap];
      [done|by f_equal| |done| |lia|by right].
    + intros k. unfold slots1. rewrite slots_of_insert by done. f_equal. cbn [take].
      destruct (decide (me_key e = k)) as [<-|Hne]; [by rewrite decide_True by left|].
      rewrite decide_False by (by rewrite list_elem_of_singleton). done.
    + intros x v. unfold slots1. rewrite lookup_insert_Some, elem_of_cons. naive_solver.
  - assert (filled_slots slots1 < MAGLEV_TABLE_SIZE) as Hf1 by (apply slots_ok_le in Hs1; lia).
    destruct (IH slots1 Hs1 Hes Hd Hf1 Hc) as (es' & slots2 & j & E2 & [R1 R2 R3 R4 R5 R6 R7]).
    rewrite E2. cbn [mbind option_bind]. exists (e' :: es'), slots2, (S j). split; [done|].
    split; cbn [length fmap list_fmap]; [done|by f_equal| |lia| |lia|].
    + intros k. rewrite R3. unfold slots1. rewrite slots_of_insert by done. cbn [take].
      destruct (decide (me_key e = k)) as [<-|Hne].
      * rewrite (decide_True (P := _ ∈ me_key e :: _)) by left.
        rewrite decide_False; [lia|]. intros Hin. apply Hk.
        rewrite <-(take_drop j (me_key <$> es)), elem_of_app. by left.
      * destruct (decide (k ∈ take j _)) as [Hin|Hin].
        -- rewrite decide_True by (by right). lia.
        -- rewrite decide_False by (by rewrite elem_of_cons; naive_solver). lia.
    + intros x v Hx. rewrite elem_of_cons. destruct (R5 _ _ Hx) as [Hx'|?]; [|auto].
      unfold slots1 in Hx'. rewrite lookup_insert_Some in Hx'. naive_solver.
    + destruct R7 as [[-> Hall]|?]; [left; split; [done|by constructor]|by right].
Qed.

Lemma fill_table_full rounds es slots filled :
  MAGLEV_TABLE_SIZE <= filled -> fill_table rounds fuel_max es slots filled = Some slots.
Proof. intros Hf. destruct rounds; cbn [fill_table]; by zcond. Qed.

Lemma share_bounds (n r : Z) (j : Z) :
  0 < n -> 0 <= j <= n -> MAGLEV_TABLE_SIZE = r * n + j ->
  (j < n -> MAGLEV_TABLE_SIZE / n = r) /\ (j = n -> MAGLEV_TABLE_SIZE / n = r + 1).
Proof.
  intros Hn Hj E. split; intros H; symmetry; [apply (Z.div_unique _ _ _ j)|apply (Z.div_unique _ _ _ 0)]; lia.
Qed.

Definition balanced (keys : list Z) (slots : gmap Z Z) : Prop :=
  let share := MAGLEV_TABLE_SIZE / zlen keys in
  (forall i, 0 <= i < MAGLEV_TABLE_SIZE -> exists k, slots !! i = Some k /\ k ∈ keys)
  /\ (forall k, k ∈ keys -> share <= slots_of slots k <= share + 1).
Lemma balanced_intro keys slots (r : Z) (j : nat) :
  slots_ok slots -> filled_slots slots = MAGLEV_TABLE_SIZE -> keys <> [] -> (j <= length keys)%nat ->
  MAGLEV_TABLE_SIZE = r * zlen keys + Z.of_nat j ->
  (forall i v, slots !! i = Some v -> v ∈ keys) ->
  (forall k, k ∈ keys -> slots_of slots k = r + (if decide (k ∈ take j keys) then 1 else 0)) ->
  balanced keys slots.
Proof.
  intros Hs Hf Hne Hj Hm Hv Hc.
  assert (0 < zlen keys) as Hn by (destruct keys; [done|rewrite zlen_cons; zl]).
  destruct (share_bounds (zlen keys) r (Z.of_nat j)) as [B1 B2]; [done|unfold zlen; lia|done|].
  split.
  - intros i Hi. destruct (full_slots slots Hs Hf i Hi) as [v E]. eauto.
  - intros k Hk. rewrite (Hc k Hk). destruct (Nat.eq_dec j (length keys)) as [->|Hne'].
    + rewrite B2 by done. rewrite firstn_all, decide_True by done. lia.
    + rewrite B1 by (unfold zlen; lia). case_decide; lia.
Qed.

Lemma fill_table_ok rounds es r slots :
  slots_ok slots -> Forall (fun e => entry_ok e r) es -> NoDup (me_key <$> es) -> es <> [] -> 0 <= r ->
  filled_slots slots = r * zlen es ->
  (forall k, k ∈ me_key <$> es -> slots_of slots k = r) ->
  (forall i v, slots !! i = Some v -> v ∈ me_key <$> es) ->
  MAGLEV_TABLE_SIZE - filled_slots slots <= Z.of_nat rounds ->
  exists slots', fill_table rounds fuel_max es slots (filled_slots slots) = Some slots'
    /\ balanced (me_key <$> es) slots'.
Proof.
  revert es r slots. induction rounds as [|rounds IH]; intros es r slots Hs He Hd Hne Hr Hf Hc Hv Hfuel.
  all: assert (me_key <$> es <> []) as Hkne by (by destruct es).
  all: assert (zlen (me_key <$> es) = zlen es) as Hlen by (unfold zlen; by rewrite length_fmap).
  all: assert (0 < zlen es) as Hn by (destruct es; [done|rewrite zlen_cons; zl]).
  all: pose proof (slots_ok_le slots Hs) as Hle.
  all: destruct (Z.eq_dec (filled_slots slots) MAGLEV_TABLE_SIZE) as [Hfull|Hnot];
    [exists slots; split; [apply fill_table_full; lia|];
     eapply (balanced_intro _ _ r 0); [done|done|done|lia|lia|done|];
     intros k Hk; rewrite decide_False by apply not_elem_of_nil; rewrite Hc by done; lia|].
  { lia. }
  destruct (fill_round_ok es r slots) as (es' & slots' & j & E & [R1 R2 R3 R4 R5 R6 R7]);
    [done..|lia|nia|]. cbn [fill_table]. zcond. rewrite E. cbn [mbind option_bind].
  assert (forall i v, slots' !! i = Some v -> v ∈ me_key <$> es) as Hv'
    by (intros i v Hi; destruct (R5 _ _ Hi); eauto).
  assert (forall k, k ∈ me_key <$> es ->
    slots_of slots' k = r + (if decide (k ∈ take j (me_key <$> es)) then 1 else 0)) as Hc'
    by (intros k Hk; rewrite R3, Hc; done).
  destruct R7 as [[-> Hall]|Hdone].
  - destruct (IH es' (r + 1) slots') as (slots2 & E2 & Hb); rewrite ?R2; try done; try lia.
    + by intros ->.
    + assert (zlen es' = zlen es) as -> by (unfold zlen; rewrite <-(length_fmap me_key es'), R2, length_fmap; done).
      unfold zlen in *. lia.
    + intros k Hk. rewrite Hc' by done. rewrite firstn_all2, decide_True by (rewrite ?length_fmap; done || lia). done.
    + unfold zlen in *. lia.
    + rewrite R2 in Hb. eauto.
  - exists slots'. split; [apply fill_table_full; lia|].
    eapply (balanced_intro _ _ r j); [done|done|done|by rewrite length_fmap|lia|done|done].
Qed.

Lemma maglev_entry_ok key : key <> U64_MAX -> entry_ok (maglev_entry key) 0.
Proof.
  intros Hk. unfold maglev_entry. split; cbn [me_skip me_key me_next]; [|done|lia].
  pose proof (Z.mod_pos_bound (fnv1a64_with_seed (to_le_bytes 8 key) 0x84222325cbf29ce4)
                (MAGLEV_TABLE_SIZE - 1)) as Hb.
  rewrite table_size_value in *. lia.
Qed.

(** Maglev tables.  For any non-empty list of distinct backend keys other
    than the marker [u64::MAX], the construction ends with a table in which
    every slot names one of the backends and no backend has more than one
    slot above an equal share. *)
Theorem maglev_table_balanced (keys : list Z) :
  keys <> [] -> NoDup keys -> U64_MAX ∉ keys ->
  exists slots, maglev_from_backend_keys keys = Some slots /\ balanced keys slots.
Proof.
  intros Hne Hd Hm. unfold maglev_from_backend_keys. rewrite bool_decide_eq_false_2 by done.
  assert (me_key <$> (maglev_entry <$> keys) = keys) as Hk
    by (rewrite <-list_fmap_compose; apply list_fmap_id).
  assert (forall k, slots_of ∅ k = 0) as Hz by (intros k; unfold slots_of; by rewrite map_filter_empty).
  destruct (fill_table_ok fuel_max (maglev_entry <$> keys) 0 ∅) as (slots & E & Hb).
  - split; [rewrite dom_empty; apply empty_subseteq|by intros i].
  - apply Forall_forall. intros e (k & -> & Hin)%list_elem_of_fmap. apply maglev_entry_ok. by intros ->.
  - by rewrite Hk.
  - by destruct keys.
  - lia.
  - done.
  - intros k _. apply Hz.
  - by intros i v.
  - rewrite table_size_nat. unfold filled_slots. rewrite map_size_empty. lia.
  - exists slots. rewrite Hk in Hb. split; [exact E|done].
Qed.
Lemma maglev_table_balanced_witness :
  exists slots, maglev_from_backend_keys [3; 5; 7] = Some slots /\ balanced [3; 5; 7] slots.
Proof.
  apply maglev_table_balanced; [done|by apply (bool_decide_unpack _)|by apply (bool_decide_unpack _)].
Defined.
