(* ===== verification/LbKetama.v ===== *)
(** * The nginx-compatible Ketama ring ([selection_ketama.rs])

    The checksum is [crc32fast]'s, a parameter; feeding it in pieces is
    feeding it the pieces' concatenation.  [sort_unstable_by_key] may order
    points of one hash in any way, so the sort is a parameter too. *)
From Stdlib Require Import ZArith Lia Sorted.
From stdpp Require Import base list numbers strings sets gmap sorting.
From S2P Require Import Prelude Text NetAddr LbBackend.

Definition NGINX_KETAMA_POINT_MULTIPLE : Z := 160.

Record NginxKetamaPoint : Type := mkPoint {
  pt_hash : Z;
  pt_backend_key : Z;
}.

(** What the ring uses of other code: the checksum and the unstable sort. *)
Class KetamaEnv : Type := {
  crc32 : list Z -> Z;
  sort_unstable_by_hash : list NginxKetamaPoint -> list NginxKetamaPoint;
}.
Definition hash_le (x y : NginxKetamaPoint) : Prop := pt_hash x <= pt_hash y.
Definition hash_lt (x y : NginxKetamaPoint) : Prop := pt_hash x < pt_hash y.
Class KetamaLaws `{KetamaEnv} : Prop := {
  sort_permutes : forall l, sort_unstable_by_hash l ≡ₚ l;
  sort_sorts : forall l, StronglySorted hash_le (sort_unstable_by_hash l);
}.

(** [dedup_by(|left, right| left.hash == right.hash)]: drops a point whose
    hash is that of the last point kept. *)
Fixpoint dedup_from (last : Z) (l : list NginxKetamaPoint) : list NginxKetamaPoint :=
  match l with
  | [] => []
  | x :: l' => if pt_hash x =? last then dedup_from last l' else x :: dedup_from (pt_hash x) l'
  end.
Definition dedup_by_hash (l : list NginxKetamaPoint) : list NginxKetamaPoint :=
  match l with [] => [] | x :: l' => x :: dedup_from (pt_hash x) l' end.

Section Ketama.
Context `{KetamaEnv}.

(** The loop of [push_nginx_ketama_points]: [n] points chained by their
    hashes. *)
Fixpoint chain_points (n : nat) (base : list Z) (key previous_hash : Z) : list NginxKetamaPoint :=
  match n with
  | O => []
  | S n' =>
      let hash := crc32 (base ++ to_le_bytes 4 previous_hash) in
      mkPoint hash key :: chain_points n' base key hash
  end.
Definition push_nginx_ketama_points (address : SocketAddr) (key w : Z) : list NginxKetamaPoint :=
  let base := show_ip (sa_ip address) ++ [0] ++ to_decimal (sa_port address) in
  let count := saturating_mul USIZE_MAX (Z.max w 1) NGINX_KETAMA_POINT_MULTIPLE in
  chain_points (Z.to_nat count) base key 0.

(** [from_backend_identities] *)
Inductive KetamaError : Type :=
| NotASocketAddress
| NoBackends.
Fixpoint all_points (l : list FluxBackend) : result (list NginxKetamaPoint) KetamaError :=
  match l with
  | [] => Ok []
  | b :: l' =>
      match parse_socket_addr (authority b) with
      | None => Err NotASocketAddress
      | Some address =>
          let? rest := all_points l' in
          Ok (push_nginx_ketama_points address (backend_key b) (weight b) ++ rest)
      end
  end.
Definition ketama_from_backends (l : list FluxBackend) : result (list NginxKetamaPoint) KetamaError :=
  let? points := all_points l in
  if bool_decide (points = []) then Err NoBackends
  else Ok (dedup_by_hash (sort_unstable_by_hash points)).

(** [binary_search_by]: the position of the hash, or where it would go. *)
Definition binary_search (points : list NginxKetamaPoint) (hash : Z) : result nat nat :=
  match list_find (fun x => hash <= pt_hash x) points with
  | Some (i, x) => if pt_hash x =? hash then Ok i else Err i
  | None => Err (length points)
  end.

(** The loop of [ketama_backend_keys]: keys not seen before, until [limit]. *)
Fixpoint distinct_keys (l : list NginxKetamaPoint) (seen : gset Z) (limit : Z) : list Z :=
  match l with
  | [] => []
  | x :: l' =>
      if limit <=? 0 then []
      else if bool_decide (pt_backend_key x ∈ seen) then distinct_keys l' seen limit
      else pt_backend_key x :: distinct_keys l' (seen ∪ {[pt_backend_key x]}) (limit - 1)
  end.
Definition ring_start (points : list NginxKetamaPoint) (hash : Z) : nat :=
  match binary_search points hash with
  | Ok i => i
  | Err i => if (i =? length points)%nat then 0%nat else i
  end.
Definition ketama_backend_keys (points : list NginxKetamaPoint) (key : list Z) (max_iterations : Z) : list Z :=
  if bool_decide (points = []) then []
  else
    let start := ring_start points (crc32 key) in
    let limit := Z.min (Z.max max_iterations 1) (zlen points) in
    distinct_keys (drop start points ++ take start points) ∅ limit.
End Ketama.

(** ** Deduplication *)

Lemma dedup_from_sub last l x : x ∈ dedup_from last l -> x ∈ l.
Proof.
  revert last. induction l as [|y l IH]; intros last; cbn; [done|]. case_match.
  - intros ?%IH. by right.
  - rewrite !elem_of_cons. intros [->|?%IH]; auto.
Qed.
Lemma dedup_from_sorted last l :
  StronglySorted hash_le l -> Forall (fun x => last <= pt_hash x) l ->
  StronglySorted hash_lt (dedup_from last l) /\ Forall (fun x => last < pt_hash x) (dedup_from last l).
Proof.
  intros Hl. revert last. induction Hl as [|x l Hl IH Hx]; intros last Hlast; cbn; [by split; constructor|].
  apply Forall_cons in Hlast as [Hlx Hlast]. destruct (Z.eqb_spec (pt_hash x) last) as [E|Hne]; [by apply IH|].
  destruct (IH (pt_hash x)) as [H1 H2]; [done|]. split.
  - by constructor.
  - constructor; [lia|]. eapply Forall_impl; [done|]. cbn. lia.
Qed.
Lemma dedup_from_covers last l x :
  x ∈ l -> pt_hash x = last \/ exists y, y ∈ dedup_from last l /\ pt_hash y = pt_hash x.
Proof.
  revert last. induction l as [|y l IH]; intros last; [by intros ?%elem_of_nil|].
  rewrite elem_of_cons. cbn. destruct (Z.eqb_spec (pt_hash y) last) as [E|Hne]; intros [->|Hin].
  - by left.
  - by apply IH.
  - right. exists y. split; [left|done].
  - right. destruct (IH (pt_hash y) Hin) as [E|(z & Hz & E)]; [exists y; split; [left|done]|].
    exists z. split; [by right|done].
Qed.
Lemma dedup_sorted l : StronglySorted hash_le l -> StronglySorted hash_lt (dedup_by_hash l).
Proof.
  intros [|x l' Hl Hx]; cbn; [constructor|].
  destruct (dedup_from_sorted (pt_hash x) l' Hl Hx) as [H1 H2]. by constructor.
Qed.
Lemma dedup_sub l x : x ∈ dedup_by_hash l -> x ∈ l.
Proof.
  destruct l as [|y l]; cbn; [done|]. rewrite !elem_of_cons. intros [->|?%dedup_from_sub]; auto.
Qed.
Lemma dedup_covers l x : x ∈ l -> exists y, y ∈ dedup_by_hash l /\ pt_hash y = pt_hash x.
Proof.
  destruct l as [|y l]; [by intros ?%elem_of_nil|]. cbn. rewrite elem_of_cons. intros [->|Hin].
  - exists y. split; [left|done].
  - destruct (dedup_from_covers (pt_hash y) l x Hin) as [E|(z & Hz & E)].
    + exists y. split; [left|done].
    + exists z. split; [by right|done].
Qed.
Lemma dedup_from_id last l :
  last ∉ pt_hash <$> l -> NoDup (pt_hash <$> l) -> dedup_from last l = l.
Proof.
  revert last. induction l as [|x l IH]; intros last; [done|]. cbn [fmap list_fmap dedup_from].
  rewrite not_elem_of_cons, NoDup_cons. intros [Hne _] [Hx Hl].
  rewrite (proj2 (Z.eqb_neq _ _)) by done. by rewrite IH.
Qed.
Lemma dedup_id l : NoDup (pt_hash <$> l) -> dedup_by_hash l = l.
Proof.
  destruct l as [|x l]; [done|]. cbn [fmap list_fmap dedup_by_hash]. rewrite NoDup_cons. intros [Hx Hl].
  by rewrite dedup_from_id.
Qed.

(** ** The ring of a pool *)

Section Ring.
Context `{KetamaLaws}.

Lemma chain_points_keys n base key h x : x ∈ chain_points n base key h -> pt_backend_key x = key.
Proof.
  revert h. induction n as [|n IH]; intros h; cbn; [by intros ?%elem_of_nil|].
  rewrite elem_of_cons. intros [->|?%IH]; done.
Qed.
(** The points of a backend. *)
Definition points_of (b : FluxBackend) : list NginxKetamaPoint :=
  push_nginx_ketama_points (addr b) (backend_key b) (weight b).
Lemma points_of_keys b x : x ∈ points_of b -> pt_backend_key x = backend_key b.
Proof. apply chain_points_keys. Qed.
Lemma points_of_not_nil b : points_of b <> [].
Proof.
  unfold points_of, push_nginx_ketama_points. unfold saturating_mul, NGINX_KETAMA_POINT_MULTIPLE, USIZE_MAX, U64_MAX.
  replace (Z.to_nat (Z.min (Z.max (weight b) 1 * 160) 18446744073709551615))
    with (S (Z.to_nat (Z.min (Z.max (weight b) 1 * 160) 18446744073709551615) - 1)) by lia.
  done.
Qed.

Lemma all_points_ok l :
  Forall (fun b => socket_addr_wf (addr b)) l -> all_points l = Ok (concat (points_of <$> l)).
Proof.
  induction 1 as [|b l Hb Hl IH]; [done|]. cbn [all_points]. unfold authority.
  rewrite parse_socket_addr_show by done. by rewrite IH.
Qed.
Lemma ring_built l :
  l <> [] -> Forall (fun b => socket_addr_wf (addr b)) l ->
  ketama_from_backends l = Ok (dedup_by_hash (sort_unstable_by_hash (concat (points_of <$> l)))).
Proof.
  intros Hne Hl. unfold ketama_from_backends. rewrite all_points_ok by done.
  rewrite bool_decide_eq_false_2; [done|]. destruct l as [|b l]; [done|]. cbn.
  pose proof (points_of_not_nil b). by destruct (points_of b).
Qed.
End Ring.

(** ** Walking the ring *)

(** The points from the first hash not below [h] on, around the ring. *)
Definition walk (ring : list NginxKetamaPoint) (h : Z) : list NginxKetamaPoint :=
  filter (fun x => h <= pt_hash x) ring ++ filter (fun x => pt_hash x < h) ring.

Lemma walk_split l1 l2 h :
  Forall (fun x => pt_hash x < h) l1 -> Forall (fun x => h <= pt_hash x) l2 ->
  walk (l1 ++ l2) h = l2 ++ l1.
Proof.
  intros H1 H2. unfold walk. rewrite !filter_app.
  rewrite (filter_all (fun x => h <= pt_hash x) l2), (filter_all (fun x => pt_hash x < h) l1) by done.
  rewrite (filter_none (fun x => h <= pt_hash x) l1) by (eapply Forall_impl; [exact H1|]; cbn; lia).
  rewrite (filter_none (fun x => pt_hash x < h) l2) by (eapply Forall_impl; [exact H2|]; cbn; lia).
  by rewrite app_nil_r.
Qed.
Lemma walk_filter (P : NginxKetamaPoint -> Prop) `{forall x, Decision (P x)} ring h :
  walk (filter P ring) h = filter P (walk ring h).
Proof. unfold walk. rewrite filter_app. f_equal; apply filter_comm. Qed.

Lemma ring_start_walk ring h :
  StronglySorted hash_lt ring ->
  drop (ring_start ring h) ring ++ take (ring_start ring h) ring = walk ring h.
Proof.
  intros Hs. unfold ring_start, binary_search.
  destruct (list_find (fun x => h <= pt_hash x) ring) as [[i x]|] eqn:E.
  - apply list_find_Some in E as (Hi & Hx & Hbefore).
    assert ((if pt_hash x =? h then Ok i else Err i) = @Ok nat nat i
            \/ (if pt_hash x =? h then Ok i else Err i) = @Err nat nat i) as Hcase
      by (destruct (pt_hash x =? h); auto).
    assert (i < length ring)%nat as Hlt by by eapply lookup_lt_Some.
    assert (match (if pt_hash x =? h then Ok i else Err i) with
            | Ok i => i | Err i => if (i =? length ring)%nat then 0%nat else i end = i) as ->.
    { destruct Hcase as [-> | ->]; [done|]. by rewrite (proj2 (Nat.eqb_neq _ _)) by lia. }
    rewrite <-(take_drop i ring) at 3. symmetry. apply walk_split.
    + apply Forall_lookup. intros j y. rewrite lookup_take_Some. intros [Hj Hlt'].
      specialize (Hbefore _ _ Hj Hlt'). cbn in Hbefore. lia.
    + rewrite (drop_S _ _ _ Hi). constructor; [done|].
      rewrite <-(take_drop_middle _ _ _ Hi) in Hs. apply StronglySorted_app_1_r in Hs.
      inversion Hs as [|? ? _ Hall]; subst. eapply Forall_impl; [exact Hall|]. unfold hash_lt. intros y. cbn. lia.
  - apply list_find_None in E. rewrite Nat.eqb_refl. cbn. rewrite app_nil_r.
    rewrite <-(app_nil_r ring) at 2. rewrite walk_split; [done| |constructor].
    eapply Forall_impl; [exact E|]. cbn. lia.
Qed.

(** The keys in the order of their first points. *)
Fixpoint first_keys (l : list NginxKetamaPoint) (seen : gset Z) : list Z :=
  match l with
  | [] => []
  | x :: l' =>
      if bool_decide (pt_backend_key x ∈ seen) then first_keys l' seen
      else pt_backend_key x :: first_keys l' (seen ∪ {[pt_backend_key x]})
  end.
Lemma distinct_keys_take l seen limit :
  0 <= limit -> distinct_keys l seen limit = ztake limit (first_keys l seen).
Proof.
  revert seen limit. induction l as [|x l IH]; intros seen limit Hl; cbn [distinct_keys first_keys].
  - unfold ztake. by rewrite take_nil.
  - destruct (Z.leb_spec limit 0) as [Hz|Hz]; [by replace limit with 0 by lia|].
    case_bool_decide; [by apply IH|]. rewrite ztake_cons, IH by lia. done.
Qed.
Lemma first_keys_len l seen : zlen (first_keys l seen) <= zlen l.
Proof.
  revert seen. induction l as [|x l IH]; intros seen; cbn; [done|]. case_bool_decide.
  - rewrite zlen_cons. specialize (IH seen). lia.
  - rewrite !zlen_cons. specialize (IH (seen ∪ {[pt_backend_key x]})). lia.
Qed.
Lemma first_keys_elem l seen k :
  k ∈ first_keys l seen <-> (k ∉ seen) /\ exists x, x ∈ l /\ pt_backend_key x = k.
Proof.
  revert seen. induction l as [|x l IH]; intros seen; cbn.
  - rewrite elem_of_nil. split; [done|]. by intros (_ & x & ?%elem_of_nil & _).
  - setoid_rewrite elem_of_cons. case_bool_decide as Hx.
    + rewrite IH. naive_solver.
    + rewrite elem_of_cons, IH. destruct (decide (k = pt_backend_key x)) as [->|Hne]; [naive_solver|].
      rewrite not_elem_of_union, not_elem_of_singleton. naive_solver.
Qed.
Lemma first_keys_nodup l seen : NoDup (first_keys l seen).
Proof.
  revert seen. induction l as [|x l IH]; intros seen; cbn; [constructor|]. case_bool_decide; [apply IH|].
  constructor; [|apply IH]. rewrite first_keys_elem. set_solver.
Qed.
Lemma first_keys_ext l seen seen' :
  (forall x, x ∈ l -> pt_backend_key x ∈ seen <-> pt_backend_key x ∈ seen') ->
  first_keys l seen = first_keys l seen'.
Proof.
  revert seen seen'. induction l as [|x l IH]; intros seen seen' Hs; cbn; [done|].
  assert (pt_backend_key x ∈ seen <-> pt_backend_key x ∈ seen') as Hx by (apply Hs; left).
  rewrite (bool_decide_ext _ _ Hx). case_bool_decide.
  - apply IH. intros y Hy. apply Hs. by right.
  - f_equal. apply IH. intros y Hy. rewrite !elem_of_union, (Hs y) by (by right). done.
Qed.
Lemma first_keys_filter k l seen :
  first_keys (filter (fun x => pt_backend_key x <> k) l) seen
  = filter (fun k' => k' <> k) (first_keys l seen).
Proof.
  revert seen. induction l as [|x l IH]; intros seen; [done|]. rewrite filter_cons. cbn [first_keys].
  destruct (decide (pt_backend_key x <> k)) as [Hne|He].
  - cbn [first_keys]. case_bool_decide; [apply IH|]. rewrite filter_cons_True by done. f_equal. apply IH.
  - assert (pt_backend_key x = k) as Ek by (by destruct (decide (pt_backend_key x = k))).
    case_bool_decide; [apply IH|]. rewrite filter_cons_False by done. rewrite <-IH.
    apply first_keys_ext. intros y [Hy _]%list_elem_of_filter. set_solver.
Qed.

Section RingProps.
Context `{KetamaLaws}.

Lemma keys_walk ring key n :
  StronglySorted hash_lt ring ->
  ketama_backend_keys ring key n = ztake (Z.max n 1) (first_keys (walk ring (crc32 key)) ∅).
Proof.
  intros Hs. unfold ketama_backend_keys. case_bool_decide as E.
  - subst. cbn. unfold ztake. by rewrite take_nil.
  - rewrite ring_start_walk by done. rewrite distinct_keys_take by zl.
    assert (zlen (first_keys (walk ring (crc32 key)) ∅) <= zlen ring) as Hl.
    { etransitivity; [apply first_keys_len|]. rewrite <-ring_start_walk by done. rewrite zlen_app.
      unfold zlen. rewrite length_drop, length_take. lia. }
    destruct (Z.le_gt_cases (Z.max n 1) (zlen ring)); [by rewrite Z.min_l by lia|].
    rewrite Z.min_r by lia. rewrite !ztake_ge by lia. done.
Qed.
Lemma points_filter k l :
  concat (points_of <$> filter (fun b => backend_key b <> k) l)
  = filter (fun x => pt_backend_key x <> k) (concat (points_of <$> l)).
Proof.
  induction l as [|b l IH]; [done|]. rewrite filter_cons. cbn [fmap list_fmap concat]. rewrite filter_app.
  case_decide as Hb.
  - cbn [fmap list_fmap concat]. rewrite IH. f_equal. symmetry. apply filter_all, Forall_forall.
    intros x ->%points_of_keys. done.
  - rewrite IH, (filter_none _ (points_of b)); [done|]. apply Forall_forall.
    intros x E%points_of_keys Hx. congruence.
Qed.
Lemma nodup_hash_eq l x y :
  NoDup (pt_hash <$> l) -> x ∈ l -> y ∈ l -> pt_hash x = pt_hash y -> x = y.
Proof.
  intros Hd Hx Hy E. apply list_elem_of_lookup in Hx as [i Hi], Hy as [j Hj].
  assert (i = j) as <-; [|congruence].
  eapply NoDup_lookup; [done|rewrite list_lookup_fmap, Hi; done|].
  rewrite list_lookup_fmap, Hj. cbn. by rewrite E.
Qed.
Lemma sort_filter (P : NginxKetamaPoint -> Prop) `{forall x, Decision (P x)} l :
  NoDup (pt_hash <$> l) -> sort_unstable_by_hash (filter P l) = filter P (sort_unstable_by_hash l).
Proof using All.
  intros Hd. apply (StronglySorted_unique_strong hash_le).
  - intros x y Hx Hy. rewrite sort_permutes in Hx.
    apply list_elem_of_filter in Hx as [_ Hx], Hy as [_ Hy]. rewrite sort_permutes in Hy.
    unfold hash_le. intros ??. apply (nodup_hash_eq l); [done..|lia].
  - apply sort_sorts.
  - apply StronglySorted_filter, sort_sorts.
  - by rewrite !sort_permutes.
Qed.

(** The ring.  A pool of backends with well-formed addresses has a ring;
    its hashes are strictly increasing, each point belongs to a backend of
    the pool, each point a backend is due is there up to one of equal hash,
    and a lookup lists, without repetition, the backends in the order in
    which their points follow the key's hash around the ring. *)
Theorem ketama_ring_correct (l : list FluxBackend) (key : list Z) (n : Z) :
  l <> [] -> Forall (fun b => socket_addr_wf (addr b)) l ->
  exists ring, ketama_from_backends l = Ok ring
    /\ StronglySorted hash_lt ring
    /\ (forall x, x ∈ ring -> exists b, b ∈ l /\ x ∈ points_of b)
    /\ (forall b x, b ∈ l -> x ∈ points_of b -> exists y, y ∈ ring /\ pt_hash y = pt_hash x)
    /\ ketama_backend_keys ring key n = ztake (Z.max n 1) (first_keys (walk ring (crc32 key)) ∅)
    /\ NoDup (ketama_backend_keys ring key n).
Proof using All.
  intros Hne Hl. rewrite ring_built by done. eexists. split; [done|].
  set (points := concat (points_of <$> l)). set (ring := dedup_by_hash _).
  assert (StronglySorted hash_lt ring) as Hs by apply dedup_sorted, sort_sorts.
  split_and!; [done| | |by apply keys_walk|].
  - intros x Hx%dedup_sub. rewrite sort_permutes in Hx. unfold points in Hx.
    apply elem_of_concat in Hx as (ps & (b & -> & Hb)%list_elem_of_fmap & Hx). eauto.
  - intros b x Hb Hx. apply dedup_covers. rewrite sort_permutes. apply elem_of_concat.
    exists (points_of b). split; [by apply list_elem_of_fmap_2|done].
  - rewrite keys_walk by done. unfold ztake. eapply sublist_NoDup; [apply first_keys_nodup|].
    apply sublist_take.
Qed.

(** minimal disruption.  When no two points of the pool share a hash,
    taking a backend out of the pool takes its key out of every lookup and
    changes nothing else: the remaining backends keep their order for every
    request key. *)
Theorem ketama_minimal_disruption (l : list FluxBackend) (removed : Z) (ring ring' : list NginxKetamaPoint)
    (key : list Z) (n : Z) :
  Forall (fun b => socket_addr_wf (addr b)) l ->
  NoDup (pt_hash <$> concat (points_of <$> l)) ->
  ketama_from_backends l = Ok ring ->
  ketama_from_backends (filter (fun b => backend_key b <> removed) l) = Ok ring' ->
  exists order,
    ketama_backend_keys ring key n = ztake (Z.max n 1) order
    /\ ketama_backend_keys ring' key n = ztake (Z.max n 1) (filter (fun k => k <> removed) order).
Proof using All.
  intros Hl Hd E E'.
  assert (l <> []) as Hne by (by intros ->; cbn in E).
  assert (filter (fun b => backend_key b <> removed) l <> []) as Hne' by (intros Ef; by rewrite Ef in E').
  rewrite ring_built in E by done. rewrite ring_built in E'.
  2:{ done. } 2:{ rewrite Forall_forall in *. intros b [_ Hb]%list_elem_of_filter. auto. }
  injection E as <-. injection E' as <-. rewrite points_filter, sort_filter by done.
  set (ring := sort_unstable_by_hash _).
  assert (NoDup (pt_hash <$> ring)) as Hd' by (unfold ring; by rewrite sort_permutes).
  assert (StronglySorted hash_lt ring) as Hs by (rewrite <-(dedup_id ring) by done; apply dedup_sorted, sort_sorts).
  assert (NoDup (pt_hash <$> filter (fun x => pt_backend_key x <> removed) ring)) as Hf
    by (eapply sublist_NoDup; [exact Hd'|]; apply fmap_sublist, sublist_filter).
  rewrite (dedup_id ring), (dedup_id (filter _ ring)) by done.
  exists (first_keys (walk ring (crc32 key)) ∅). split; [by apply keys_walk|].
  rewrite keys_walk by by apply StronglySorted_filter. by rewrite walk_filter, first_keys_filter.
Qed.
End RingProps.

(** A checksum and a sort that satisfy the laws. *)
#[export] Instance hash_le_dec : RelDecision hash_le.
Proof. intros x y. unfold hash_le. apply _. Defined.
#[export] Instance hash_le_trans : Transitive hash_le.
Proof. intros x y z. unfold hash_le. lia. Qed.
#[export] Instance hash_le_total : Total hash_le.
Proof. intros x y. unfold hash_le. lia. Qed.
Definition sample_env : KetamaEnv := {|
  crc32 := fun bytes => foldl (fun h byte => (h * 31 + byte + 7) mod 4294967296) 1 bytes;
  sort_unstable_by_hash := merge_sort hash_le;
|}.
Lemma sample_env_laws : @KetamaLaws sample_env.
Proof.
  split; cbn.
  - intros l. apply merge_sort_Permutation.
  - intros l. apply (StronglySorted_merge_sort hash_le).
Qed.
Definition sample_members : list FluxBackend :=
  [mkFluxBackend (mkSocketAddr (V4 10 0 0 1) 80 0) 1; mkFluxBackend (mkSocketAddr (V4 10 0 0 2) 80 0) 1].
Lemma sample_members_wf : Forall (fun b => socket_addr_wf (addr b)) sample_members.
Proof. repeat constructor; unfold in_u8, in_u16; vm_compute; congruence. Qed.
Lemma ketama_ring_correct_witness :
  exists ring, @ketama_from_backends sample_env sample_members = Ok ring /\ StronglySorted hash_lt ring.
Proof.
  destruct (@ketama_ring_correct sample_env sample_env_laws sample_members (bs "key") 3)
    as (ring & E & Hs & _); [done|exact sample_members_wf|]. exists ring. split; [exact E|exact Hs].
Defined.
Definition sample_ring (l : list FluxBackend) : list NginxKetamaPoint :=
  match @ketama_from_backends sample_env l with Ok ring => ring | Err _ => [] end.
Lemma ketama_minimal_disruption_witness :
  let removed := backend_key (mkFluxBackend (mkSocketAddr (V4 10 0 0 2) 80 0) 1) in
  exists order,
    @ketama_backend_keys sample_env (sample_ring sample_members) (bs "key") 3 = ztake 3 order
    /\ @ketama_backend_keys sample_env
         (sample_ring (filter (fun b => backend_key b <> removed) sample_members)) (bs "key") 3
       = ztake 3 (filter (fun k => k <> removed) order).
Proof.
  intros removed.
  apply (@ketama_minimal_disruption sample_env sample_env_laws sample_members removed
    (sample_ring sample_members)
    (sample_ring (filter (fun b => backend_key b <> removed) sample_members)) (bs "key") 3).
  - exact sample_members_wf.
  - apply (bool_decide_unpack _). vm_compute. exact I.
  - vm_compute. reflexivity.
  - vm_compute. reflexivity.
Defined.
