(* ===== verification/LbCookie.v ===== *)
(** * Request keys and managed affinity cookies ([persistence_request.rs],
    [persistence_cookie.rs])

    Which bytes of a request name its client, and the signed cookie a pool
    issues for clients without such a name.  HMAC-SHA-256 and the base64
    alphabet come from other packages and are parameters. *)
From Stdlib Require Import ZArith Lia.
From stdpp Require Import base list numbers strings sets gmap.
From S2P Require Import Prelude Text NetAddr LbRetry LbBackend LbState.

Definition MAX_PERSISTENCE_KEY_BYTES : Z := 512.

(** What selection reads of a request: [LoadBalancerRequestView]. *)
Record RequestView : Type := mkRequestView {
  uri_key : list Z;
  header_values : list Z -> list (list Z);
  cookie_headers : list (list Z);
}.

(** ** Keys of a request *)

Fixpoint header_key_from (key : list Z) (values : list (list Z)) : option (list Z) :=
  match values with
  | [] => Some key
  | bytes :: values' =>
      let key := key ++ to_le_bytes 8 (zlen bytes) ++ bytes in
      if MAX_PERSISTENCE_KEY_BYTES <? zlen key then None else header_key_from key values'
  end.
Definition request_header_key (request : RequestView) (name : list Z) : option (list Z) :=
  key ← header_key_from [] (header_values request name);
  if bool_decide (key = []) then None else Some key.

(** The value of the first part of a cookie header with this name; the outer
    option is whether there is one. *)
Fixpoint cookie_in_parts (name : list Z) (parts : list (list Z)) : option (list Z) :=
  match parts with
  | [] => None
  | part :: parts' =>
      match split_once 61 (trim part) with
      | None => cookie_in_parts name parts'
      | Some (candidate, value) =>
          if bool_decide (trim candidate = name) then Some (trim value)
          else cookie_in_parts name parts'
      end
  end.
Fixpoint cookie_in_headers (name : list Z) (headers : list (list Z)) : option (list Z) :=
  match headers with
  | [] => None
  | header :: headers' =>
      match cookie_in_parts name (split_byte 59 header) with
      | Some value => Some value
      | None => cookie_in_headers name headers'
      end
  end.
Definition cookie_key (request : RequestView) (name : list Z) : option (list Z) :=
  bytes ← cookie_in_headers name (cookie_headers request);
  if MAX_PERSISTENCE_KEY_BYTES <? zlen bytes then None else Some bytes.

Inductive LoadBalanceKeySource : Type :=
| KeyNone
| KeySourceIp
| KeyUri
| KeyHeader (name : list Z)
| KeyCookie (name : list Z).
Definition request_key (source : LoadBalanceKeySource) (request : RequestView)
    (client_ip : option IpAddr) : option (list Z) :=
  match source with
  | KeyNone => None
  | KeySourceIp => show_ip <$> client_ip
  | KeyUri => Some (uri_key request)
  | KeyHeader name => request_header_key request name
  | KeyCookie name => cookie_key request name
  end.

(** ** Managed cookies *)

Definition MANAGED_COOKIE_KEY_BYTES : Z := 16.
Definition MANAGED_COOKIE_TAG_BYTES : Z := 32.
Definition MANAGED_COOKIE_TOKEN_BYTES : Z := MANAGED_COOKIE_KEY_BYTES + MANAGED_COOKIE_TAG_BYTES.
Definition MANAGED_COOKIE_HMAC_ROTATION : Z := duration_from_secs 86400.

Class CookieEnv : Type := {
  hmac_sha256 : list Z -> list Z -> list Z;
  base64_encode : list Z -> option (list Z);
  base64_decode : list Z -> option (list Z);
}.

(** [rotate_if_due]; the new key is drawn only when it is needed. *)
Definition rotate_if_due `{Env} (now : Z) (r : ManagedCookieHmacKeyRing) : M ManagedCookieHmacKeyRing :=
  if saturating_sub now (hk_created_at (kr_current r)) <? MANAGED_COOKIE_HMAC_ROTATION then ret r
  else
    let! key := getrandom_fill 32 in
    ret (mkKeyRing (mkHmacKey key now) (Some (kr_current r))).

(** The key ring, created on its first use, after the rotation both users do. *)
Definition key_ring_rotated `{Env} : M ManagedCookieHmacKeyRing :=
  let! ring := get w_ring in
  let! ring := match ring with
               | Some ring => ret ring
               | None =>
                   let! now := instant_now in
                   let! key := getrandom_fill 32 in
                   ret (mkKeyRing (mkHmacKey key now) None)
               end in
  let! now := instant_now in
  let! ring := rotate_if_due now ring in
  modify (set_ring ring) ;;;
  ret ring.
Definition current_key `{Env} : M (list Z) :=
  let! ring := key_ring_rotated in ret (hk_key (kr_current ring)).
Definition verify_keys `{Env} : M (list (list Z)) :=
  let! ring := key_ring_rotated in
  ret (hk_key (kr_current ring) :: match kr_previous ring with
                                  | Some previous => [hk_key previous]
                                  | None => []
                                  end).

Section Cookies.
Context `{Env} `{CookieEnv}.

(** The message binds the length of the name, the name and the key; a name of
    more than 65535 bytes stops the process. *)
Definition cookie_message (name key : list Z) : option (list Z) :=
  if U16_MAX <? zlen name then None
  else Some (to_le_bytes 2 (zlen name) ++ name ++ key).
Definition managed_cookie_tag_with_key (hmac_key name key : list Z) : option (list Z) :=
  hmac_sha256 hmac_key <$> cookie_message name key.

Definition managed_cookie_key (request : RequestView) (name : list Z) : M (option (list Z)) :=
  match (encoded ← cookie_key request name; base64_decode encoded) with
  | None => ret None
  | Some token =>
      if negb (zlen token =? MANAGED_COOKIE_TOKEN_BYTES) then ret None
      else
        let key := ztake MANAGED_COOKIE_KEY_BYTES token in
        let tag := zdrop MANAGED_COOKIE_KEY_BYTES token in
        let! keys := verify_keys in
        ret (if existsb (fun hmac_key =>
                  bool_decide (managed_cookie_tag_with_key hmac_key name key = Some tag)) keys
             then Some key else None)
  end.

Definition managed_cookie_token (name key : list Z) : M (option (list Z)) :=
  if negb (zlen key =? MANAGED_COOKIE_KEY_BYTES) then ret None
  else
    let! hmac_key := current_key in
    ret (tag ← managed_cookie_tag_with_key hmac_key name key; base64_encode (key ++ tag)).
End Cookies.

Inductive SameSite : Type := Lax | Strict | NoneSite.
Definition same_site_str (s : SameSite) : list Z :=
  match s with Lax => bs "Lax" | Strict => bs "Strict" | NoneSite => bs "None" end.

Record ManagedCookieConfig : Type := mkCookieConfig {
  mc_name : list Z;
  mc_domain : option (list Z);
  mc_path : list Z;
  mc_secure : bool;
  mc_http_only : bool;
  mc_same_site : SameSite;
  mc_max_age_secs : Z;
}.
Definition cookie_header_value (c : ManagedCookieConfig) (value : list Z) : list Z :=
  mc_name c ++ bs "=" ++ value ++ bs "; Path=" ++ mc_path c
  ++ match mc_domain c with Some domain => bs "; Domain=" ++ domain | None => [] end
  ++ bs "; Max-Age=" ++ to_decimal (mc_max_age_secs c)
  ++ (if mc_http_only c then bs "; HttpOnly" else [])
  ++ (if mc_secure c then bs "; Secure" else [])
  ++ bs "; SameSite=" ++ same_site_str (mc_same_site c).

(** [new_managed_cookie]: the key and the [Set-Cookie] value. *)
Definition new_managed_cookie `{Env} `{CookieEnv} (config : option ManagedCookieConfig)
  : M (option (list Z * list Z)) :=
  match config with
  | None => ret None
  | Some config =>
      let! key := getrandom_fill (Z.to_nat MANAGED_COOKIE_KEY_BYTES) in
      let! token := managed_cookie_token (mc_name config) key in
      ret (match token with
           | Some token => Some (key, cookie_header_value config token)
           | None => None
           end)
  end.

(** * Properties of managed affinity cookies

    A cookie is accepted exactly when its tag is the HMAC of its name and key
    under a key of the ring, and stays accepted for a rotation period after it
    was issued, whatever else uses the ring in between. *)
(** Documented behaviour of the base64 and HMAC packages: a token of whole
    groups is printed with four letters per three bytes and read back; tags
    are 32 bytes. *)
Class CookieLaws `{Env} `{CookieEnv} : Prop := {
  clock_monotone : forall i j, (i <= j)%nat -> clock i <= clock j;
  random_fill_bytes : forall i len, length (random_fill i len) = len /\ Forall in_u8 (random_fill i len);
  hmac_bytes : forall k m, zlen (hmac_sha256 k m) = 32 /\ Forall in_u8 (hmac_sha256 k m);
  base64_token : forall token,
    zlen token = MANAGED_COOKIE_TOKEN_BYTES -> Forall in_u8 token ->
    exists text, base64_encode token = Some text /\ zlen text = 64 /\ base64_decode text = Some token;
}.

(** ** The message *)

Lemma to_le_bytes_length width n : length (to_le_bytes width n) = width.
Proof. revert n. induction width; intros; simpl; auto. Qed.
Lemma to_le_bytes_inj width m n :
  0 <= m < 256 ^ Z.of_nat width -> 0 <= n < 256 ^ Z.of_nat width ->
  to_le_bytes width m = to_le_bytes width n -> m = n.
Proof.
  revert m n. induction width as [| width IH]; intros m n Hm Hn E; [simpl in *; lia |].
  rewrite Nat2Z.inj_succ, Z.pow_succ_r in Hm, Hn by lia. simpl in E. injection E as E1 E2.
  assert (m / 256 = n / 256).
  { apply IH; [| | exact E2]; (split; [apply Z.div_pos; lia | apply Z.div_lt_upper_bound; lia]). }
  rewrite (Z.div_mod m 256), (Z.div_mod n 256) by lia. congruence.
Qed.

Lemma cookie_message_inj name key name' key' m :
  cookie_message name key = Some m -> cookie_message name' key' = Some m -> name = name' /\ key = key'.
Proof.
  unfold cookie_message. case Z.ltb_spec; intros ? Em; [discriminate |].
  revert Em. case Z.ltb_spec; intros ? Em' Em; [discriminate |].
  assert (E : to_le_bytes 2 (zlen name) ++ name ++ key = to_le_bytes 2 (zlen name') ++ name' ++ key')
    by congruence. clear Em Em'.
  apply app_inj_1 in E as [El E]; [| by rewrite !to_le_bytes_length].
  apply to_le_bytes_inj in El; [| unfold U16_MAX in *; zlen_facts; simpl; lia ..].
  apply app_inj_1 in E; [exact E | unfold zlen in El; lia].
Qed.

(** ** The key ring *)

Section Ring.
Context `{Env} `{CookieEnv} `{!CookieLaws}.

Lemma rotation_pos : 0 < MANAGED_COOKIE_HMAC_ROTATION.
Proof. done. Qed.
#[local] Opaque MANAGED_COOKIE_HMAC_ROTATION.

(** The key [k], created at [c], can still verify. *)
Definition available (k : list Z) (c : Z) (r : ManagedCookieHmacKeyRing) : Prop :=
  kr_current r = mkHmacKey k c
  \/ (kr_previous r = Some (mkHmacKey k c)
      /\ c + MANAGED_COOKIE_HMAC_ROTATION <= hk_created_at (kr_current r)).

Lemma rotate_available k c now r w :
  available k c r -> now < c + 2 * MANAGED_COOKIE_HMAC_ROTATION ->
  available k c (rotate_if_due now r w).1.
Proof.
  unfold rotate_if_due, available, saturating_sub.
  intros Ha Hnow. case Z.ltb_spec; intros; [exact Ha |]. pose proof rotation_pos.
  destruct Ha as [E | [Hp Hc]]; [| lia]. right. cbn. rewrite E in *. cbn in *. split; [done | lia].
Qed.
Lemma rotate_current_young now r w :
  now < hk_created_at (kr_current (rotate_if_due now r w).1) + MANAGED_COOKIE_HMAC_ROTATION.
Proof.
  unfold rotate_if_due, saturating_sub. pose proof rotation_pos.
  case Z.ltb_spec; intros; cbn; lia.
Qed.

(** What may happen between two uses: any number of other uses of the ring,
    and anything that leaves the ring alone and lets time pass. *)
Inductive ring_run : World -> World -> Prop :=
| run_done w : ring_run w w
| run_ring w w' : ring_run (key_ring_rotated w).2 w' -> ring_run w w'
| run_other w w1 w' :
    w_ring w1 = w_ring w -> (w_tick w <= w_tick w1)%nat -> ring_run w1 w' -> ring_run w w'.

Lemma key_ring_rotated_some r w :
  w_ring w = Some r ->
  exists w',
    key_ring_rotated w = ((rotate_if_due (clock (w_tick w)) r w).1, w')
    /\ w_ring w' = Some (rotate_if_due (clock (w_tick w)) r w).1 /\ w_tick w' = S (w_tick w).
Proof.
  intros E. unfold key_ring_rotated, rotate_if_due, bind, get, ret, modify, instant_now, getrandom_fill.
  rewrite E. case Z.ltb_spec; intros; eexists; (split; [reflexivity | done]).
Qed.
Lemma key_ring_rotated_tick w : (w_tick w <= w_tick (key_ring_rotated w).2)%nat.
Proof.
  unfold key_ring_rotated, rotate_if_due, bind, get, ret, modify, instant_now, getrandom_fill.
  destruct (w_ring w); case Z.ltb_spec; intros; cbn; lia.
Qed.
Lemma ring_run_tick w w' : ring_run w w' -> (w_tick w <= w_tick w')%nat.
Proof. induction 1; [lia | pose proof (key_ring_rotated_tick w); lia | lia]. Qed.

Lemma ring_run_available k c r w w' :
  ring_run w w' -> w_ring w = Some r -> available k c r ->
  clock (w_tick w') < c + 2 * MANAGED_COOKIE_HMAC_ROTATION ->
  exists r', w_ring w' = Some r' /\ available k c r'.
Proof using All.
  intros Hrun. revert r. induction Hrun as [w | w w' Hrun IH | w w1 w' Er Ht Hrun IH]; intros r Hr Ha Hc.
  - eauto.
  - destruct (key_ring_rotated_some r w Hr) as (w1 & E & E1 & Et). rewrite E in Hrun, IH. cbn in *.
    apply (IH _ E1); [| done]. apply rotate_available; [done |].
    pose proof (ring_run_tick _ _ Hrun). pose proof (clock_monotone (w_tick w) (w_tick w')). lia.
  - apply (IH r); [congruence | done | done].
Qed.

(** After any use, the ring is there and its current key is young. *)
Lemma key_ring_rotated_young w :
  exists r w', key_ring_rotated w = (r, w') /\ w_ring w' = Some r
    /\ clock (w_tick w) < hk_created_at (kr_current r) + MANAGED_COOKIE_HMAC_ROTATION.
Proof using All.
  destruct (w_ring w) as [r |] eqn:E.
  - destruct (key_ring_rotated_some r w E) as (w' & Ek & Er & _). do 2 eexists.
    split_and!; [exact Ek | exact Er | apply rotate_current_young].
  - unfold key_ring_rotated, bind, get, ret, instant_now, getrandom_fill. rewrite E. cbn [w_tick].
    match goal with |- context [rotate_if_due ?now ?r ?v] =>
      pose proof (rotate_current_young now r v) as Hy; destruct (rotate_if_due now r v) as [r' w'] end.
    do 2 eexists. split_and!; [reflexivity | reflexivity |]. cbn in Hy.
    pose proof (clock_monotone (w_tick w) (S (w_tick w))). lia.
Qed.

(** ** Issue and verification *)

Lemma tag_some hmac_key name key :
  zlen name <= U16_MAX ->
  exists tag, managed_cookie_tag_with_key hmac_key name key = Some tag /\ zlen tag = 32 /\ Forall in_u8 tag.
Proof using All.
  intros Hn. unfold managed_cookie_tag_with_key, cookie_message. zcond.
  eexists. split; [reflexivity | apply hmac_bytes].
Qed.

Lemma verify_token request name encoded key tag w k c r :
  cookie_in_headers name (cookie_headers request) = Some encoded -> zlen encoded <= 512 ->
  base64_decode encoded = Some (key ++ tag) -> zlen key = 16 -> zlen tag = 32 ->
  w_ring w = Some r -> available k c r -> clock (w_tick w) < c + 2 * MANAGED_COOKIE_HMAC_ROTATION ->
  managed_cookie_tag_with_key k name key = Some tag ->
  (managed_cookie_key request name w).1 = Some key.
Proof using All.
  intros Hh Hl Hd Hk Ht Hr Ha Hc Htag. unfold managed_cookie_key, cookie_key. rewrite Hh. simpl.
  unfold MAX_PERSISTENCE_KEY_BYTES. zcond. simpl. rewrite Hd.
  rewrite (proj2 (Z.eqb_eq _ _)) by (unfold MANAGED_COOKIE_TOKEN_BYTES, MANAGED_COOKIE_KEY_BYTES,
    MANAGED_COOKIE_TAG_BYTES; zl). simpl.
  unfold MANAGED_COOKIE_KEY_BYTES, ztake, zdrop. rewrite take_app_length', drop_app_length' by (unfold zlen in Hk; lia).
  destruct (key_ring_rotated_some r w Hr) as (w' & Ek & _).
  unfold verify_keys, bind, ret. rewrite Ek.
  pose proof (rotate_available k c _ r w Ha Hc) as Ha'. cbn [fst].
  set (r' := (rotate_if_due _ r w).1) in *. clearbody r'.
  rewrite (proj2 (existsb_exists _ _)); [done |]. exists k.
  split; [| by apply bool_decide_eq_true]. destruct Ha' as [-> | [-> _]]; simpl; auto.
Qed.
End Ring.

Section Theorems.
Context `{Env} `{CookieEnv} `{!CookieLaws}.

(** Issuing a managed cookie always succeeds, with a fresh 16-byte key; a
    request that carries the issued token within a rotation period (24 hours)
    is recognised as that key, however often the key ring was used, and
    rotated, in between. *)
Theorem managed_cookie_round_trip (config : ManagedCookieConfig) (w : World) :
  zlen (mc_name config) <= U16_MAX ->
  exists key token w1,
    new_managed_cookie (Some config) w = (Some (key, cookie_header_value config token), w1)
    /\ zlen key = MANAGED_COOKIE_KEY_BYTES
    /\ forall w2 request,
         ring_run w1 w2 ->
         clock (w_tick w2) <= clock (w_tick w) + MANAGED_COOKIE_HMAC_ROTATION ->
         cookie_in_headers (mc_name config) (cookie_headers request) = Some token ->
         (managed_cookie_key request (mc_name config) w2).1 = Some key.
Proof using All.
  intros Hn. destruct (random_fill_bytes (w_entropy w) 16) as [Hlen Hbytes].
  set (key := random_fill (w_entropy w) 16) in *.
  set (w0 := (getrandom_fill 16 w).2).
  destruct (key_ring_rotated_young w0) as (r & w1 & Ek & Er & Hy).
  destruct (tag_some (hk_key (kr_current r)) (mc_name config) key Hn) as (tag & Et & Htl & Htb).
  assert (Hk : zlen key = 16) by (unfold zlen; lia).
  destruct (base64_token (key ++ tag)) as (text & Ee & El & Ed);
    [unfold MANAGED_COOKIE_TOKEN_BYTES, MANAGED_COOKIE_KEY_BYTES, MANAGED_COOKIE_TAG_BYTES; zl
    | by apply Forall_app |].
  exists key, text, w1. split_and!; [| done |].
  - unfold new_managed_cookie, managed_cookie_token, current_key, bind, ret.
    change (Z.to_nat MANAGED_COOKIE_KEY_BYTES) with 16%nat.
    change (getrandom_fill 16 w) with (key, w0). cbv beta iota.
    rewrite Hk. cbn [Z.eqb Pos.eqb MANAGED_COOKIE_KEY_BYTES negb].
    rewrite Ek, Et. cbn [mbind option_bind]. by rewrite Ee.
  - intros w2 request Hrun Hc Hh.
    assert (Hc2 : clock (w_tick w2) < hk_created_at (kr_current r) + 2 * MANAGED_COOKIE_HMAC_ROTATION).
    { change (w_tick w0) with (w_tick w) in Hy. lia. }
    destruct (ring_run_available (hk_key (kr_current r)) (hk_created_at (kr_current r)) r w1 w2)
      as (r2 & Er2 & Ha2); [done .. | by left; destruct (kr_current r) | done |].
    eapply verify_token; [exact Hh | lia | exact Ed | done | done | exact Er2 | exact Ha2 | done | done].
Qed.

(** C33: A request is recognised as [key] exactly when its cookie decodes to
    [key] followed by the HMAC, under the current or the previous key of the
    ring, of a message that no other cookie name and no other key has. *)
Theorem managed_cookie_accepts_exactly (request : RequestView) (name key : list Z) (w : World) :
  (managed_cookie_key request name w).1 = Some key <->
  exists encoded m hmac_key,
    cookie_in_headers name (cookie_headers request) = Some encoded
    /\ zlen encoded <= MAX_PERSISTENCE_KEY_BYTES
    /\ base64_decode encoded = Some (key ++ hmac_sha256 hmac_key m)
    /\ zlen key = MANAGED_COOKIE_KEY_BYTES
    /\ cookie_message name key = Some m
    /\ hmac_key ∈ (verify_keys w).1
    /\ forall name' key', cookie_message name' key' = Some m -> name' = name /\ key' = key.
Proof using All.
  unfold managed_cookie_key, cookie_key, bind, ret. split.
  - destruct (cookie_in_headers name (cookie_headers request)) as [encoded |] eqn:Eh; [| done]. simpl.
    case Z.ltb_spec; intros Hl; [done |]. simpl.
    destruct (base64_decode encoded) as [token |] eqn:Ed; [| done].
    case Z.eqb_spec; intros Ht; [| done]. simpl. destruct (verify_keys w) as [keys w'] eqn:Ev. simpl.
    destruct (existsb _ keys) eqn:Ex; [| done]. intros [= <-].
    apply existsb_exists in Ex as (k & Hk & E). apply bool_decide_eq_true in E.
    unfold managed_cookie_tag_with_key in E. apply fmap_Some in E as (m & Em & Etag).
    exists encoded, m, k. rewrite <- Etag. split_and!; try done.
    + rewrite Ed. f_equal. symmetry. apply take_drop.
    + unfold MANAGED_COOKIE_TOKEN_BYTES, MANAGED_COOKIE_TAG_BYTES in Ht.
      unfold ztake, zlen in *. rewrite length_take. unfold MANAGED_COOKIE_KEY_BYTES in *. lia.
    + by apply list_elem_of_In.
    + intros name' key' E'. destruct (cookie_message_inj _ _ _ _ _ E' Em); auto.
  - intros (encoded & m & k & Eh & Hl & Ed & Hk & Em & Hin & _). rewrite Eh. simpl. zcond. simpl.
    rewrite Ed. rewrite (proj2 (Z.eqb_eq _ _)).
    2:{ destruct (hmac_bytes k m). unfold MANAGED_COOKIE_TOKEN_BYTES, MANAGED_COOKIE_TAG_BYTES. zl. }
    simpl. destruct (verify_keys w) as [keys w']. simpl in *.
    unfold ztake, zdrop. rewrite take_app_length', drop_app_length' by (unfold zlen in Hk; lia).
    rewrite (proj2 (existsb_exists _ _)); [done |]. exists k. split; [by apply list_elem_of_In |].
    apply bool_decide_eq_true. unfold managed_cookie_tag_with_key. by rewrite Em.
Qed.
End Theorems.

(** ** A concrete environment *)

Definition letter (n : Z) : Z :=
  if n <? 26 then 65 + n else if n <? 52 then 71 + n else if n <? 62 then n - 4
  else if n =? 62 then 45 else 95.
Definition unletter (c : Z) : Z :=
  if between 65 90 c then c - 65 else if between 97 122 c then c - 71
  else if between 48 57 c then c + 4 else if c =? 45 then 62 else 63.
Lemma unletter_letter n : 0 <= n < 64 -> unletter (letter n) = n.
Proof.
  intros Hn. unfold unletter, letter, between.
  repeat case Z.ltb_spec; intros; repeat case Z.eqb_spec; intros; simpl; zcond; simpl; zcond; lia.
Qed.

Fixpoint encode_groups (l : list Z) : list Z :=
  match l with
  | a :: b :: c :: l' =>
      letter (a / 4) :: letter (a mod 4 * 16 + b / 16) :: letter (b mod 16 * 4 + c / 64)
      :: letter (c mod 64) :: encode_groups l'
  | _ => []
  end.
Fixpoint decode_groups (l : list Z) : list Z :=
  match l with
  | w :: x :: y :: z :: l' =>
      let '(w, x, y, z) := (unletter w, unletter x, unletter y, unletter z) in
      w * 4 + x / 16 :: x mod 16 * 16 + y / 4 :: y mod 4 * 64 + z :: decode_groups l'
  | _ => []
  end.
Lemma decode_encode_groups n l :
  length l = (3 * n)%nat -> Forall in_u8 l ->
  decode_groups (encode_groups l) = l /\ length (encode_groups l) = (4 * n)%nat.
Proof.
  revert l. induction n as [| n IH]; intros l Hl Hb; [destruct l; [done | simpl in Hl; lia] |].
  destruct l as [| a [| b [| c l]]]; simpl in Hl; [lia .. |].
  apply Forall_cons in Hb as [Ha Hb]. apply Forall_cons in Hb as [Hb Hr]. apply Forall_cons in Hr as [Hc Hr].
  destruct (IH l) as [IH1 IH2]; [lia | done |]. unfold in_u8, U8_MAX in *.
  cbn [encode_groups decode_groups length]. rewrite IH1, IH2.
  rewrite !unletter_letter by (Z.div_mod_to_equations; lia).
  split; [repeat f_equal; Z.div_mod_to_equations; lia | lia].
Qed.

Definition sample_cookie_clock : Env := {|
  clock := fun n => Z.of_nat n * 1000000000;
  random := fun n => Z.of_nat n;
  maglev_route_secret := 1;
  consistent_route_secret := 2;
  fnv_route_secret := 3;
  random_fill := fun i len => replicate len (Z.of_nat i mod 256);
|}.
Definition sample_cookie_env : CookieEnv := {|
  hmac_sha256 := fun k m => replicate 32 (foldl Z.add 0 (k ++ m) mod 256);
  base64_encode := fun t => Some (encode_groups t);
  base64_decode := fun t => Some (decode_groups t);
|}.
Lemma replicate_bytes n x : Forall in_u8 (replicate n (x mod 256)).
Proof. apply Forall_replicate. unfold in_u8, U8_MAX. pose proof (Z.mod_pos_bound x 256). lia. Qed.
Lemma sample_cookie_laws : @CookieLaws sample_cookie_clock sample_cookie_env.
Proof.
  split.
  - intros. cbn. lia.
  - intros. split; [apply length_replicate | apply replicate_bytes].
  - intros. split; [reflexivity | apply replicate_bytes].
  - intros token Hl Hb. destruct (decode_encode_groups 16 token) as [Ed El].
    + unfold zlen in Hl. change MANAGED_COOKIE_TOKEN_BYTES with 48 in Hl. lia.
    + done.
    + exists (encode_groups token). split_and!; [done | unfold zlen; lia | cbn; by rewrite Ed].
Qed.

Definition sample_cookie : ManagedCookieConfig :=
  mkCookieConfig (bs "fluxheim_lb") None (bs "/") true true Lax 3600.
Definition sample_world : World := mkWorld 0 0 ∅ ∅ 0 ∅ ∅ 0 ∅ None.
#[local] Existing Instance sample_cookie_clock.
#[local] Existing Instance sample_cookie_env.

(** The token of the first issue, and a request that returns it. *)
Definition sample_token : list Z :=
  default [] ((managed_cookie_token (bs "fluxheim_lb") (replicate 16 0)
                 (getrandom_fill 16 sample_world).2).1).
Definition sample_request : RequestView :=
  mkRequestView [] (fun _ => []) [bs "theme=dark; fluxheim_lb=" ++ sample_token].
Lemma cookie_header_value_inj config t t' :
  cookie_header_value config t = cookie_header_value config t' -> t = t'.
Proof. unfold cookie_header_value. intros E. do 2 apply app_inv_head in E. by apply app_inv_tail in E. Qed.

Lemma issued_inj config (key key' t t' : list Z) :
  Some (key, cookie_header_value config t) = Some (key', cookie_header_value config t') -> key = key' /\ t = t'.
Proof. intros E. split; [congruence | apply (cookie_header_value_inj config); congruence]. Qed.

Lemma managed_cookie_round_trip_witness :
  exists w1,
    new_managed_cookie (Some sample_cookie) sample_world
    = (Some (replicate 16 0, cookie_header_value sample_cookie sample_token), w1)
    /\ (managed_cookie_key sample_request (bs "fluxheim_lb") w1).1 = Some (replicate 16 0).
Proof.
  destruct (@managed_cookie_round_trip _ _ sample_cookie_laws sample_cookie sample_world)
    as (key & token & w1 & E & _ & Hv); [vm_compute; discriminate |].
  exists w1. assert (Hn : (new_managed_cookie (Some sample_cookie) sample_world).1
    = Some (replicate 16 0, cookie_header_value sample_cookie sample_token)) by (vm_compute; reflexivity).
  assert (Ht : (w_tick w1 <= 3)%nat).
  { change w1 with (Some (key, cookie_header_value sample_cookie token), w1).2. rewrite <- E.
    vm_compute. lia. }
  rewrite E in Hn. apply issued_inj in Hn as [-> ->].
  split; [exact E |].
  apply Hv; [apply run_done | | vm_compute; reflexivity].
  cbn [clock sample_cookie_clock]. change (MANAGED_COOKIE_HMAC_ROTATION) with 86400000000000. lia.
Defined.

Lemma managed_cookie_accepts_exactly_witness :
  exists m, cookie_message (bs "fluxheim_lb") (replicate 16 0) = Some m
    /\ forall name' key', cookie_message name' key' = Some m -> name' = bs "fluxheim_lb" /\ key' = replicate 16 0.
Proof.
  destruct (proj1 (@managed_cookie_accepts_exactly _ _ sample_cookie_laws sample_request (bs "fluxheim_lb")
    (replicate 16 0) (new_managed_cookie (Some sample_cookie) sample_world).2))
    as (encoded & m & k & _ & _ & _ & _ & Em & _ & Hu); [vm_compute; reflexivity |].
  exists m. split; [exact Em | exact Hu].
Defined.
