(* ===== verification/LbPersistence.v ===== *)
(** * Session persistence ([persistence.rs])

    The table that keeps a client on its member, its snapshots, and the key a
    request is looked up with. *)
From Stdlib Require Import ZArith Lia.
From stdpp Require Import base list numbers strings sets gmap sorting fin_maps.
From S2P Require Import Prelude Text NetAddr LbRetry LbBackend LbState LbCookie.

Inductive LoadBalancePersistenceMode : Type :=
| ModeSourceIp
| ModeHeader
| ModeCookie
| ModeManagedCookie.
#[export] Instance LoadBalancePersistenceMode_eq_dec : EqDecision LoadBalancePersistenceMode.
Proof. solve_decision. Defined.

(** [LoadBalancerPersistenceState]; its table is [w_table]. *)
Record PersistenceState : Type := mkPersistence {
  ps_mode : LoadBalancePersistenceMode;
  ps_header : option (list Z);
  ps_cookie : option (list Z);
  ps_ttl : Z;
  ps_table_max_entries : Z;
  ps_managed_cookie : option ManagedCookieConfig;
}.

Definition persistence_key `{Env} `{CookieEnv} (s : PersistenceState) (request : RequestView)
    (client_ip : option IpAddr) : M (option (list Z)) :=
  match ps_mode s with
  | ModeSourceIp => ret (show_ip <$> client_ip)
  | ModeHeader => ret (header ← ps_header s; request_header_key request header)
  | ModeCookie => ret (cookie ← ps_cookie s; cookie_key request cookie)
  | ModeManagedCookie =>
      match ps_managed_cookie s with
      | Some config => managed_cookie_key request (mc_name config)
      | None => ret None
      end
  end.
Definition is_managed_cookie (s : PersistenceState) : bool := bool_decide (ps_mode s = ModeManagedCookie).

(** ** The table at one reading of the clock *)

Abbreviation Table := (gmap (list Z) PersistenceEntry).

Definition lookup_at (now : Z) (key : list Z) (t : Table) : option Z * Table :=
  match t !! key with
  | None => (None, t)
  | Some entry =>
      if pe_expires_at entry <=? now then (None, delete key t) else (Some (pe_backend_key entry), t)
  end.

Definition retain_unexpired (now : Z) (t : Table) : Table := filter (fun kv => now < pe_expires_at kv.2) t.

(** [iter().min_by_key(|(_, entry)| entry.expires_at)]: the first of the
    smallest, in the map's order. *)
Definition min_by_expiry (l : list (list Z * PersistenceEntry)) : option (list Z * PersistenceEntry) :=
  foldl (fun best kv =>
           match best with
           | None => Some kv
           | Some b => if pe_expires_at kv.2 <? pe_expires_at b.2 then Some kv else best
           end) None l.
Definition stale_key (t : Table) : option (list Z) := fst <$> min_by_expiry (map_to_list t).

Definition make_room (s : PersistenceState) (now : Z) (key : list Z) (t : Table) : Table :=
  if (ps_table_max_entries s <=? Z.of_nat (size t)) && negb (bool_decide (is_Some (t !! key))) then
    let t := retain_unexpired now t in
    if ps_table_max_entries s <=? Z.of_nat (size t)
    then match stale_key t with Some stale => delete stale t | None => t end
    else t
  else t.
Definition record_at (s : PersistenceState) (now : Z) (key : list Z) (backend_key : Z) (t : Table) : Table :=
  let t := make_room s now key t in
  if (Z.of_nat (size t) <? ps_table_max_entries s) || bool_decide (is_Some (t !! key))
  then <[key := mkPersistenceEntry backend_key (now + ps_ttl s)]> t
  else t.

Definition entry_live (live : option (gset Z)) (now : Z) (entry : PersistenceEntry) : bool :=
  (now <? pe_expires_at entry)
  && match live with Some keys => bool_decide (pe_backend_key entry ∈ keys) | None => true end.
Definition counts_at (live : option (gset Z)) (now : Z) (t : Table) : Z * gmap Z Z :=
  foldr (fun kv acc =>
           if entry_live live now kv.2
           then (acc.1 + 1, <[pe_backend_key kv.2 := default 0 (acc.2 !! pe_backend_key kv.2) + 1]> acc.2)
           else acc) (0, ∅) (map_to_list t).
Definition prune_at (live : gset Z) (now : Z) (t : Table) : Table :=
  filter (fun kv => entry_live (Some live) now kv.2 = true) t.

(** ** The operations *)

Section Operations.
Context `{Env} (s : PersistenceState).

Definition on_table {A} (f : Z -> Table -> A * Table) : M A :=
  let! now := instant_now in
  let! t := get w_table in
  modify (set_table (fun _ => (f now t).2)) ;;;
  ret (f now t).1.
Definition lookup_persistence (key : list Z) : M (option Z) := on_table (fun now => lookup_at now key).
Definition record_persistence (key : list Z) (backend_key : Z) : M unit :=
  on_table (fun now t => (tt, record_at s now key backend_key t)).
Definition clear_persistence_table : M Z :=
  let! t := get w_table in
  modify (set_table (fun _ => ∅)) ;;;
  ret (Z.of_nat (size t)).
Definition runtime_counts_for_live_backends (live : option (gset Z)) : M (Z * gmap Z Z) :=
  on_table (fun now t => (counts_at live now t, t)).
Definition runtime_counts : M (Z * gmap Z Z) := runtime_counts_for_live_backends None.
Definition prune_stale_for_live_backends (live : gset Z) : M unit :=
  on_table (fun now t => (tt, prune_at live now t)).
End Operations.

(** ** Snapshots *)

Record EntrySnapshot : Type := mkEntrySnapshot {
  es_key : list Z;
  es_backend_key : Z;
  es_ttl_remaining_secs : Z;
}.
Inductive PersistenceSnapshotError : Type :=
| ExceedsTableLimit
| InvalidKey
| InvalidTtl
| DuplicateKeys.

Definition as_secs (d : Z) : Z := d / NANOS_PER_SEC.
Definition entry_snapshot (s : PersistenceState) (now : Z) (kv : list Z * PersistenceEntry) : EntrySnapshot :=
  mkEntrySnapshot kv.1 (pe_backend_key kv.2)
    (Z.min (Z.max (as_secs (saturating_sub (pe_expires_at kv.2) now)) 1) (as_secs (ps_ttl s))).
Definition entry_snapshot_le (x y : EntrySnapshot) : Prop :=
  es_backend_key x < es_backend_key y
  \/ (es_backend_key x = es_backend_key y /\ lex_cmp (es_key x) (es_key y) <> Gt).
#[export] Instance entry_snapshot_le_dec : RelDecision entry_snapshot_le.
Proof. intros x y. unfold entry_snapshot_le. apply _. Defined.
Definition persistence_snapshot_at (s : PersistenceState) (live : gset Z) (now : Z) (t : Table)
  : list EntrySnapshot :=
  merge_sort entry_snapshot_le
    (entry_snapshot s now <$> filter (fun kv => entry_live (Some live) now kv.2 = true) (map_to_list t)).

(** The loop of [prepare_snapshot]. *)
Fixpoint restore_entries (s : PersistenceState) (live : gset Z) (now : Z) (entries : list EntrySnapshot)
    (next : Table) : result Table PersistenceSnapshotError :=
  match entries with
  | [] => Ok next
  | entry :: entries' =>
      if bool_decide (es_key entry = []) || (MAX_PERSISTENCE_KEY_BYTES <? zlen (es_key entry))
      then Err InvalidKey
      else if (es_ttl_remaining_secs entry =? 0) || (as_secs (ps_ttl s) <? es_ttl_remaining_secs entry)
      then Err InvalidTtl
      else if negb (bool_decide (es_backend_key entry ∈ live)) then restore_entries s live now entries' next
      else if bool_decide (is_Some (next !! es_key entry)) then Err DuplicateKeys
      else restore_entries s live now entries'
             (<[es_key entry := mkPersistenceEntry (es_backend_key entry)
                                  (now + duration_from_secs (es_ttl_remaining_secs entry))]> next)
  end.
Definition persistence_snapshot `{Env} (s : PersistenceState) (live : gset Z) : M (list EntrySnapshot) :=
  on_table (fun now t => (persistence_snapshot_at s live now t, t)).
Definition prepare_persistence `{Env} (s : PersistenceState) (live : gset Z) (entries : list EntrySnapshot)
  : M (result Table PersistenceSnapshotError) :=
  if ps_table_max_entries s <? zlen entries then ret (Err ExceedsTableLimit)
  else let! now := instant_now in ret (restore_entries s live now entries ∅).
Definition commit_persistence (t : Table) : M unit := modify (set_table (fun _ => t)).

(** * Properties of the persistence table

    What recording a client does to its own entry and to all others, and what
    a saved table is after a restart. *)
(** ** The entry to evict *)

Lemma min_by_expiry_spec l :
  match min_by_expiry l with
  | None => l = []
  | Some b => b ∈ l /\ Forall (fun kv => pe_expires_at b.2 <= pe_expires_at kv.2) l
  end.
Proof.
  unfold min_by_expiry. induction l as [| kv l IH] using rev_ind; [done |].
  rewrite foldl_snoc. destruct (foldl _ None l) as [b |].
  - destruct IH as [Hin Hmin]. case Z.ltb_spec; intros Hlt.
    + split; [apply elem_of_app; right; by apply list_elem_of_singleton |].
      apply Forall_app. split; [eapply Forall_impl; [exact Hmin |]; simpl; intros; lia |].
      apply Forall_singleton. lia.
    + split; [apply elem_of_app; by left |]. apply Forall_app. by split; [| apply Forall_singleton].
  - subst l. simpl. split; [by apply list_elem_of_singleton | apply Forall_singleton; lia].
Qed.

Lemma stale_key_spec (t : Table) :
  match stale_key t with
  | None => t = ∅
  | Some k => exists e, t !! k = Some e /\ forall k' e', t !! k' = Some e' -> pe_expires_at e <= pe_expires_at e'
  end.
Proof.
  unfold stale_key. pose proof (min_by_expiry_spec (map_to_list t)) as Hm.
  destruct (min_by_expiry _) as [[k e] |]; simpl.
  - destruct Hm as [Hin Hmin]. exists e. split; [by apply elem_of_map_to_list |].
    intros k' e' Hk'. rewrite Forall_forall in Hmin.
    apply (Hmin (k', e')). by apply elem_of_map_to_list.
  - by apply map_to_list_empty_iff.
Qed.

(** ** Recording *)

Lemma retain_unexpired_lookup (now : Z) (t : Table) (k : list Z) (e : PersistenceEntry) :
  retain_unexpired now t !! k = Some e <-> t !! k = Some e /\ now < pe_expires_at e.
Proof. unfold retain_unexpired. by rewrite map_lookup_filter_Some. Qed.
Lemma retain_unexpired_size (now : Z) (t : Table) : (size (retain_unexpired now t) <= size t)%nat.
Proof. apply map_subseteq_size, map_filter_subseteq. Qed.
(** No entry was dropped: none had expired. *)
Lemma retain_unexpired_full (now : Z) (t : Table) :
  (size t <= size (retain_unexpired now t))%nat -> retain_unexpired now t = t.
Proof. intros Hs. apply map_subseteq_size_eq; [apply map_filter_subseteq | done]. Qed.

(** The entries a record may drop from a full table: the expired ones, or one
    that expires first when none has expired. *)
Definition evictable (now : Z) (t : Table) (e : PersistenceEntry) : Prop :=
  pe_expires_at e <= now
  \/ (retain_unexpired now t = t
      /\ forall k' e', t !! k' = Some e' -> pe_expires_at e <= pe_expires_at e').

Lemma retain_unexpired_cases (now : Z) (t : Table) (k : list Z) :
  retain_unexpired now t !! k = t !! k
  \/ (retain_unexpired now t !! k = None /\ exists e, t !! k = Some e /\ pe_expires_at e <= now).
Proof.
  destruct (retain_unexpired now t !! k) as [e |] eqn:E.
  - left. symmetry. by apply retain_unexpired_lookup in E as [? _].
  - destruct (t !! k) as [e |] eqn:Ek; [right | by left]. split; [done |]. exists e. split; [done |].
    destruct (decide (pe_expires_at e <= now)) as [| Hn]; [done |].
    exfalso. rewrite (proj2 (retain_unexpired_lookup now t k e)) in E; [done |]. split; [done | lia].
Qed.

Lemma make_room_spec (s : PersistenceState) (now : Z) (key : list Z) (t : Table) :
  1 <= ps_table_max_entries s -> Z.of_nat (size t) <= ps_table_max_entries s ->
  let t' := make_room s now key t in
  (Z.of_nat (size t') < ps_table_max_entries s \/ is_Some (t' !! key))
  /\ (size t' <= size t)%nat
  /\ forall k, t' !! k = t !! k
       \/ (t' !! k = None /\ Z.of_nat (size t) = ps_table_max_entries s /\ t !! key = None
           /\ exists e, t !! k = Some e /\ evictable now t e).
Proof.
  intros Hm Hs. unfold make_room. destruct (_ && _) eqn:Eg; cbv zeta.
  2:{ split_and!; [| done | by left]. apply andb_false_iff in Eg as [Eg | Eg]; breflect; [lia | by right]. }
  apply andb_true_iff in Eg as [Ef Ek]. breflect. rewrite <- eq_None_not_Some in Ek.
  pose proof (retain_unexpired_size now t) as Hsz.
  case Z.leb_spec; intros Hfull.
  - assert (Er : retain_unexpired now t = t) by (apply retain_unexpired_full; lia). rewrite Er. pose proof (stale_key_spec t) as Hst.
    destruct (stale_key t) as [k0 |]; [| subst t; rewrite map_size_empty in *; lia].
    destruct Hst as (e0 & Ek0 & Hmin). pose proof (map_size_delete_Some k0 t (ex_intro _ e0 Ek0)).
    assert (size t <> 0%nat) by lia.
    split_and!; [left; lia | lia |]. intros k.
    destruct (decide (k = k0)) as [-> | Hne]; [right | left; by apply lookup_delete_ne].
    rewrite lookup_delete_eq. split_and!; [done | lia | done |].
    exists e0. split; [done |]. by right.
  - split_and!; [by left | done |]. intros k.
    destruct (retain_unexpired_cases now t k) as [| (En & e & Ee & Hexp)]; [by left | right].
    split_and!; [done | lia | done |]. exists e. split; [done | by left].
Qed.

(** Every table a pool can have at [now]: empty, after any lookups, records,
    prunes and restores at earlier readings. *)
Inductive table_reach (s : PersistenceState) : Z -> Table -> Prop :=
| reach_empty now : table_reach s now ∅
| reach_time now now' t : table_reach s now t -> now <= now' -> table_reach s now' t
| reach_lookup now key t : table_reach s now t -> table_reach s now (lookup_at now key t).2
| reach_record now key b t : table_reach s now t -> table_reach s now (record_at s now key b t)
| reach_prune live now t : table_reach s now t -> table_reach s now (prune_at live now t)
| reach_restore live now entries t :
    zlen entries <= ps_table_max_entries s -> restore_entries s live now entries ∅ = Ok t ->
    table_reach s now t.

Record table_ok (s : PersistenceState) (now : Z) (t : Table) : Prop := {
  ok_size : Z.of_nat (size t) <= ps_table_max_entries s;
  ok_expiry : forall k e, t !! k = Some e -> pe_expires_at e <= now + ps_ttl s;
}.
Lemma table_ok_sub (s : PersistenceState) (now : Z) (t t' : Table) : table_ok s now t -> t' ⊆ t -> table_ok s now t'.
Proof.
  intros [Hs He] Hsub. split.
  - pose proof (map_subseteq_size _ _ Hsub). lia.
  - intros k e E. apply (He k). by eapply lookup_weaken.
Qed.

Lemma record_at_spec (s : PersistenceState) (now : Z) (key : list Z) (b : Z) (t : Table) :
  1 <= ps_table_max_entries s -> Z.of_nat (size t) <= ps_table_max_entries s ->
  let t' := record_at s now key b t in
  t' !! key = Some (mkPersistenceEntry b (now + ps_ttl s))
  /\ Z.of_nat (size t') <= ps_table_max_entries s
  /\ forall k, k <> key ->
       t' !! k = t !! k
       \/ (t' !! k = None /\ Z.of_nat (size t) = ps_table_max_entries s /\ t !! key = None
           /\ exists e, t !! k = Some e /\ evictable now t e).
Proof.
  intros Hm Hs. destruct (make_room_spec s now key t Hm Hs) as (Hroom & Hsize & Hothers).
  unfold record_at. set (t1 := make_room s now key t) in *.
  assert (Eg : (Z.of_nat (size t1) <? ps_table_max_entries s) || bool_decide (is_Some (t1 !! key)) = true).
  { apply orb_true_iff. destruct Hroom; [left; by apply Z.ltb_lt | right; by apply bool_decide_eq_true]. }
  rewrite Eg. cbv zeta. split_and!.
  - apply lookup_insert_eq.
  - destruct (t1 !! key) as [e |] eqn:Ek.
    + rewrite map_size_insert_Some by (by eexists). lia.
    + destruct Hroom as [Hroom | [? ?]]; [| done].
      rewrite (map_size_insert_None _ _ _ Ek). lia.
  - intros k Hk. rewrite lookup_insert_ne by done. apply Hothers.
Qed.

Lemma secs_le d n : n <= as_secs d -> duration_from_secs n <= d.
Proof.
  unfold as_secs, duration_from_secs, NANOS_PER_SEC. intros Hn.
  pose proof (Z.mul_div_le d 1000000000). lia.
Qed.

Lemma restore_entries_ok (s : PersistenceState) (live : gset Z) (now : Z) (entries : list EntrySnapshot) (next t : Table) :
  restore_entries s live now entries next = Ok t ->
  (forall k e, next !! k = Some e -> pe_expires_at e <= now + ps_ttl s) ->
  (size t <= size next + length entries)%nat
  /\ forall k e, t !! k = Some e -> pe_expires_at e <= now + ps_ttl s.
Proof.
  revert next. induction entries as [| x entries IH]; intros next; simpl.
  - intros [= ->]. split; [lia | done].
  - intros E Hn. branches E.
    + destruct (IH _ E Hn). split; [lia | done].
    + destruct (IH _ E) as [Hs He].
      * intros k e. destruct (decide (k = es_key x)) as [-> |].
        -- rewrite lookup_insert_eq. intros [= <-]. simpl.
           pose proof (secs_le (ps_ttl s) (es_ttl_remaining_secs x)). lia.
        -- rewrite lookup_insert_ne by done. apply Hn.
      * split; [| done]. rewrite map_size_insert_None in Hs by (by apply eq_None_not_Some). lia.
Qed.

Lemma table_reach_ok (s : PersistenceState) (now : Z) (t : Table) :
  1 <= ps_table_max_entries s -> 0 <= ps_ttl s -> table_reach s now t -> table_ok s now t.
Proof.
  intros Hm Httl. induction 1 as [now | now now' t H IH Hle | now key t H IH | now key b t H IH
    | live now t H IH | live now entries t Hlen E].
  - split; [rewrite map_size_empty; lia | by intros k e ?%lookup_empty_Some].
  - destruct IH as [Hs He]. split; [done |]. intros k e E. specialize (He k e E). lia.
  - apply (table_ok_sub s now t); [done |]. unfold lookup_at.
    repeat case_match; simpl; [apply delete_subseteq | done | done].
  - destruct IH as [Hs He]. destruct (record_at_spec s now key b t Hm Hs) as (Ek & Hsz & Ho).
    split; [done |]. intros k e E. destruct (decide (k = key)) as [-> | Hne].
    + rewrite Ek in E. injection E as <-. simpl. lia.
    + destruct (Ho k Hne) as [E' | [E' _]]; rewrite E' in E; [by apply (He k) | done].
  - apply (table_ok_sub s now t); [done | apply map_filter_subseteq].
  - destruct (restore_entries_ok s live now entries ∅ t E) as [Hs He];
      [by intros k e ?%lookup_empty_Some |].
    split; [rewrite map_size_empty in Hs; unfold zlen in Hlen; lia | done].
Qed.

(** Recording a client puts it on its member for the whole time to live;
    the table never exceeds its limit, and another client loses its entry only
    when the table is full, and then only an expired entry, or one that
    expires first when no entry has expired. *)
Theorem record_effect (s : PersistenceState) (now : Z) (key : list Z) (b : Z) (t : Table) :
  1 <= ps_table_max_entries s -> 0 <= ps_ttl s -> table_reach s now t ->
  let t' := record_at s now key b t in
  Z.of_nat (size t') <= ps_table_max_entries s
  /\ (forall later, now <= later < now + ps_ttl s -> lookup_at later key t' = (Some b, t'))
  /\ (forall later, now + ps_ttl s <= later -> lookup_at later key t' = (None, delete key t'))
  /\ forall k, k <> key ->
       t' !! k = t !! k
       \/ (t' !! k = None /\ Z.of_nat (size t) = ps_table_max_entries s /\ t !! key = None
           /\ exists e, t !! k = Some e /\ evictable now t e).
Proof.
  intros Hm Httl Hr. destruct (table_reach_ok s now t Hm Httl Hr) as [Hs _].
  destruct (record_at_spec s now key b t Hm Hs) as (Ek & Hsz & Ho). cbv zeta in *.
  split_and!; [done | | | exact Ho]; intros later Hl; unfold lookup_at; rewrite Ek; simpl; by zcond.
Qed.

(** ** Saving and restoring *)

Definition key_valid (k : list Z) : Prop := k <> [] /\ zlen k <= MAX_PERSISTENCE_KEY_BYTES.
Definition restored (now : Z) (x : EntrySnapshot) : PersistenceEntry :=
  mkPersistenceEntry (es_backend_key x) (now + duration_from_secs (es_ttl_remaining_secs x)).

Lemma key_valid_test (k : list Z) :
  bool_decide (k = []) || (MAX_PERSISTENCE_KEY_BYTES <? zlen k) = false <-> key_valid k.
Proof. unfold key_valid. rewrite orb_false_iff, bool_decide_eq_false, Z.ltb_ge. done. Qed.

(** The table after one restored entry. *)
Definition restore_one (live : gset Z) (now : Z) (x : EntrySnapshot) (next : Table) : Table :=
  if bool_decide (es_backend_key x ∈ live) then <[es_key x := restored now x]> next else next.
Lemma restore_one_lookup (live : gset Z) (now : Z) (x : EntrySnapshot) (next : Table) (k : list Z)
    (e : PersistenceEntry) :
  next !! es_key x = None ->
  restore_one live now x next !! k = Some e <->
  next !! k = Some e \/ (es_key x = k /\ es_backend_key x ∈ live /\ e = restored now x).
Proof.
  intros Hnone. unfold restore_one. case_bool_decide; [| naive_solver].
  rewrite lookup_insert_Some. naive_solver.
Qed.
Lemma restore_entries_cons (s : PersistenceState) (live : gset Z) (now : Z) (x : EntrySnapshot)
    (xs : list EntrySnapshot) (next : Table) :
  key_valid (es_key x) -> next !! es_key x = None -> 1 <= es_ttl_remaining_secs x <= as_secs (ps_ttl s) ->
  restore_entries s live now (x :: xs) next = restore_entries s live now xs (restore_one live now x next).
Proof.
  intros Hk Hnone Ht. simpl. rewrite (proj2 (key_valid_test _) Hk). zcond. simpl.
  rewrite Hnone, (bool_decide_eq_false_2 (is_Some None)) by (by intros [? ?]).
  unfold restore_one. by case_bool_decide.
Qed.

Lemma restore_entries_total (s : PersistenceState) (live : gset Z) (now : Z)
    (xs : list EntrySnapshot) (next : Table) :
  NoDup (es_key <$> xs) -> (forall x, x ∈ xs -> next !! es_key x = None) ->
  Forall (fun x => 1 <= es_ttl_remaining_secs x <= as_secs (ps_ttl s)) xs ->
  (Exists (fun x => ~ key_valid (es_key x)) xs -> restore_entries s live now xs next = Err InvalidKey)
  /\ (Forall (fun x => key_valid (es_key x)) xs ->
      exists t, restore_entries s live now xs next = Ok t
        /\ forall k e, t !! k = Some e <->
             next !! k = Some e
             \/ exists x, x ∈ xs /\ es_key x = k /\ es_backend_key x ∈ live /\ e = restored now x).
Proof.
  revert next. induction xs as [| x xs IH]; intros next Hnd Hnext Httl.
  { split; [by intros ?%Exists_nil |]. intros _. exists next. split; [done |]. set_solver. }
  apply Forall_cons in Httl as [Hx Httl]. simpl in Hnd. apply NoDup_cons in Hnd as [Hnin Hnd].
  assert (Hnone : next !! es_key x = None) by (apply Hnext; by left).
  destruct (bool_decide (es_key x = []) || (MAX_PERSISTENCE_KEY_BYTES <? zlen (es_key x))) eqn:Ekey.
  { simpl. rewrite Ekey. split; [done |]. intros [Hk _]%Forall_cons. apply key_valid_test in Hk. congruence. }
  apply key_valid_test in Ekey. rewrite restore_entries_cons by done.
  destruct (IH (restore_one live now x next)) as [IHe IHo]; [done | | done |].
  { intros y Hy. apply eq_None_not_Some. intros [e [He | (E & _)]%restore_one_lookup]; [| | done].
    - rewrite Hnext in He; [done | by right].
    - apply Hnin, list_elem_of_fmap. by exists y. }
  split.
  - intros [Hbad | Hbad]%Exists_cons; [done | by apply IHe].
  - intros [_ Hg]%Forall_cons. destruct (IHo Hg) as (t & Et & Hspec). exists t. split; [done |].
    intros k e. rewrite Hspec, restore_one_lookup by done. clear. set_solver.
Qed.

(** The entries that are saved. *)
Lemma saved_elem (s : PersistenceState) (live : gset Z) (now : Z) (t : Table) (x : EntrySnapshot) :
  x ∈ persistence_snapshot_at s live now t <->
  exists k e, x = entry_snapshot s now (k, e) /\ t !! k = Some e /\ entry_live (Some live) now e = true.
Proof.
  unfold persistence_snapshot_at. rewrite merge_sort_Permutation, list_elem_of_fmap. split.
  - intros ([k e] & -> & [Hl Hin]%list_elem_of_filter). apply elem_of_map_to_list in Hin. eauto.
  - intros (k & e & -> & Hk & Hl). exists (k, e). split; [done |].
    apply list_elem_of_filter. split; [done | by apply elem_of_map_to_list].
Qed.
Lemma saved_keys_nodup (s : PersistenceState) (live : gset Z) (now : Z) (t : Table) :
  NoDup (es_key <$> persistence_snapshot_at s live now t).
Proof.
  unfold persistence_snapshot_at. rewrite merge_sort_Permutation, <- list_fmap_compose.
  eapply sublist_NoDup; [apply (NoDup_fst_map_to_list t) |].
  apply fmap_sublist, sublist_filter.
Qed.
Lemma saved_length (s : PersistenceState) (live : gset Z) (now : Z) (t : Table) :
  zlen (persistence_snapshot_at s live now t) <= Z.of_nat (size t).
Proof.
  unfold persistence_snapshot_at, zlen. rewrite merge_sort_Permutation, length_fmap.
  pose proof (length_filter (fun kv => entry_live (Some live) now kv.2 = true) (map_to_list t)).
  rewrite length_map_to_list in *. lia.
Qed.

(** The seconds left of an entry, at most one second short and never rounded
    up past the first second. *)
Definition remaining_ok (ttl before after : Z) : Prop :=
  NANOS_PER_SEC <= after <= ttl
  /\ after <= Z.max before NANOS_PER_SEC /\ Z.min before ttl - NANOS_PER_SEC < after.
Lemma entry_snapshot_remaining (s : PersistenceState) (now : Z) (k : list Z) (e : PersistenceEntry) :
  NANOS_PER_SEC <= ps_ttl s -> now < pe_expires_at e ->
  let secs := es_ttl_remaining_secs (entry_snapshot s now (k, e)) in
  1 <= secs <= as_secs (ps_ttl s)
  /\ remaining_ok (ps_ttl s) (pe_expires_at e - now) (duration_from_secs secs).
Proof.
  unfold remaining_ok, entry_snapshot, as_secs, duration_from_secs, saturating_sub, NANOS_PER_SEC. simpl.
  intros Httl He. rewrite (Z.max_l (pe_expires_at e - now) 0) by lia.
  generalize (pe_expires_at e - now) (ps_ttl s) Httl. intros d ttl Ht.
  Z.div_mod_to_equations. lia.
Qed.

Lemma entry_live_unexpired (live : option (gset Z)) (now : Z) (e : PersistenceEntry) :
  entry_live live now e = true -> now < pe_expires_at e.
Proof. unfold entry_live. intros He. by breflect. Qed.

Lemma saved_restores (s : PersistenceState) (live live' : gset Z) (now now' : Z) (t : Table) :
  NANOS_PER_SEC <= ps_ttl s ->
  let restore := restore_entries s live' now' (persistence_snapshot_at s live now t) ∅ in
  ((exists k e, t !! k = Some e /\ entry_live (Some live) now e = true /\ ~ key_valid k)
   -> restore = Err InvalidKey)
  /\ ((forall k e, t !! k = Some e -> entry_live (Some live) now e = true -> key_valid k)
      -> exists t', restore = Ok t' /\ forall k e',
           t' !! k = Some e' <->
           exists e, t !! k = Some e /\ entry_live (Some live) now e = true
             /\ pe_backend_key e ∈ live' /\ e' = restored now' (entry_snapshot s now (k, e))).
Proof.
  intros Httl restore. set (saved := persistence_snapshot_at s live now t) in *.
  destruct (restore_entries_total s live' now' saved ∅) as [Hbad Hgood].
  { apply saved_keys_nodup. }
  { intros. apply lookup_empty. }
  { apply Forall_forall. intros x (k & e & -> & _ & He)%saved_elem.
    by apply entry_snapshot_remaining; [| eapply entry_live_unexpired]. }
  split.
  - intros (k & e & Hk & He & Hv). apply Hbad, Exists_exists.
    exists (entry_snapshot s now (k, e)). split; [apply saved_elem; eauto | done].
  - intros Hv. destruct Hgood as (t' & Et & Hspec).
    { apply Forall_forall. intros x (k & e & -> & Hk & He)%saved_elem. by apply (Hv k e). }
    exists t'. split; [done |]. intros k e'. rewrite Hspec. split.
    + intros [He' | (x & (k' & e & -> & Hk & He)%saved_elem & E & Hl & ->)]; [by apply lookup_empty_Some in He' |].
      simpl in E. subst k'. eauto.
    + intros (e & Hk & He & Hl & ->). right. eexists. split_and!; [apply saved_elem; eauto | done ..].
Qed.

(** C38: A saved table is refused as a whole when one of its unexpired entries
    has an empty or oversized key; otherwise it is restored: exactly the
    unexpired entries whose member was live when it was saved and is live when
    it is restored, each on its member, for its remaining time rounded down to
    seconds. *)
Theorem persistence_snapshot_restores `{Env} (s : PersistenceState) (live live' : gset Z)
    (now : Z) (t : Table) (w : World) :
  1 <= ps_table_max_entries s -> NANOS_PER_SEC <= ps_ttl s -> table_reach s now t ->
  let saved := persistence_snapshot_at s live now t in
  let restore := (prepare_persistence s live' saved w).1 in
  ((exists k e, t !! k = Some e /\ entry_live (Some live) now e = true /\ ~ key_valid k)
   -> restore = Err InvalidKey)
  /\ ((forall k e, t !! k = Some e -> entry_live (Some live) now e = true -> key_valid k)
      -> exists t', restore = Ok t' /\ forall k,
         match t !! k with
         | Some e =>
             if entry_live (Some live) now e && bool_decide (pe_backend_key e ∈ live')
             then exists e', t' !! k = Some e' /\ pe_backend_key e' = pe_backend_key e
               /\ remaining_ok (ps_ttl s) (pe_expires_at e - now) (pe_expires_at e' - clock (w_tick w))
             else t' !! k = None
         | None => t' !! k = None
         end).
Proof.
  intros Hm Httl Hr saved restore.
  destruct (table_reach_ok s now t) as [Hs _]; [done | unfold NANOS_PER_SEC in *; lia | done |].
  pose proof (saved_length s live now t : zlen saved <= _) as Hlen.
  assert (Er : restore = restore_entries s live' (clock (w_tick w)) saved ∅).
  { unfold restore, prepare_persistence. by zcond. }
  rewrite Er. clear Er. destruct (saved_restores s live live' now (clock (w_tick w)) t Httl) as [Hbad Hgood].
  split; [exact Hbad |]. intros Hv. destruct (Hgood Hv) as (t' & Et & Hspec). exists t'. split; [exact Et |].
  intros k. destruct (t !! k) as [e |] eqn:Ek.
  2:{ apply eq_None_not_Some. intros [e' (e & He & _)%Hspec]. congruence. }
  destruct (entry_live (Some live) now e) eqn:El; simpl.
  2:{ apply eq_None_not_Some. intros [e' (e1 & He & Hl & _)%Hspec]. congruence. }
  case_bool_decide as Hb.
  2:{ apply eq_None_not_Some. intros [e' (e1 & He & _ & Hl & _)%Hspec]. congruence. }
  eexists. split_and!; [apply Hspec; eauto | done |].
  destruct (entry_snapshot_remaining s now k e) as [_ Hrem]; [done | by eapply entry_live_unexpired |].
  unfold restored. cbn [pe_expires_at]. by rewrite Z.add_simpl_l.
Qed.

(** ** Counting sessions *)

(** The entries of one member that have not expired. *)
Definition sessions_of (live : option (gset Z)) (now b : Z) (t : Table) : Z :=
  zlen (filter (fun kv => entry_live live now kv.2 = true /\ pe_backend_key kv.2 = b) (map_to_list t)).

(** The session counts of a selection are, for every member, the number of
    unexpired entries on it, and their total the number of unexpired entries. *)
Theorem session_counts_exact (live : option (gset Z)) (now : Z) (t : Table) :
  (counts_at live now t).1 = zlen (filter (fun kv => entry_live live now kv.2 = true) (map_to_list t))
  /\ forall b, default 0 ((counts_at live now t).2 !! b) = sessions_of live now b t.
Proof.
  unfold counts_at, sessions_of. induction (map_to_list t) as [| [k e] l [IH1 IH2]]; [done |].
  cbn [foldr snd]. rewrite filter_cons. destruct (entry_live live now e) eqn:El; cbn [fst snd].
  - rewrite decide_True by done. split; [rewrite IH1; unfold zlen; simpl; lia |].
    intros b. rewrite filter_cons. cbn [snd]. destruct (decide (pe_backend_key e = b)) as [-> | Hne].
    + rewrite lookup_insert_eq, decide_True by done. rewrite IH2. unfold zlen. simpl. lia.
    + rewrite lookup_insert_ne, decide_False by naive_solver. apply IH2.
  - rewrite decide_False by congruence. split; [done |].
    intros b. rewrite filter_cons. cbn [snd]. rewrite decide_False by (rewrite El; naive_solver). apply IH2.
Qed.

(** ** A small table *)

Definition sample_persistence : PersistenceState :=
  mkPersistence ModeCookie None (Some (bs "sid")) (duration_from_secs 60) 2 None.
Definition sample_table : Table :=
  record_at sample_persistence 5 (bs "b") 20 (record_at sample_persistence 0 (bs "a") 10 ∅).
Lemma sample_table_reach : table_reach sample_persistence 5 sample_table.
Proof. apply reach_record, (reach_time _ 0); [apply reach_record, reach_empty | done]. Qed.

Lemma record_effect_witness :
  let t' := record_at sample_persistence 9 (bs "c") 30 sample_table in
  lookup_at 10 (bs "c") t' = (Some 30, t') /\ t' !! bs "a" = None.
Proof.
  destruct (record_effect sample_persistence 9 (bs "c") 30 sample_table) as (_ & Hl & _);
    [vm_compute; discriminate | vm_compute; discriminate
    | apply (reach_time _ 5); [exact sample_table_reach | done] |].
  split; [apply Hl; vm_compute; split; congruence | vm_compute; reflexivity].
Defined.

#[local] Instance sample_clock : Env := {|
  clock := fun n => Z.of_nat n * 1000000000;
  random := fun n => Z.of_nat n;
  maglev_route_secret := 1;
  consistent_route_secret := 2;
  fnv_route_secret := 3;
  random_fill := fun i len => replicate len 0;
|}.
Definition sample_start : World := mkWorld 0 0 ∅ ∅ 0 ∅ ∅ 0 ∅ None.

Lemma sample_keys_valid k : is_Some (sample_table !! k) -> key_valid k.
Proof.
  intros Hk. apply elem_of_dom in Hk.
  replace (dom sample_table) with ({[bs "a"; bs "b"]} : gset (list Z)) in Hk by (vm_compute; reflexivity).
  apply elem_of_union in Hk as [Hk | Hk]; apply elem_of_singleton in Hk as ->; split; vm_compute; congruence.
Qed.
Lemma persistence_snapshot_restores_witness :
  exists t', (prepare_persistence sample_persistence {[20]}
                (persistence_snapshot_at sample_persistence {[10; 20]} 5 sample_table) sample_start).1 = Ok t'
    /\ t' !! bs "a" = None /\ pe_backend_key <$> t' !! bs "b" = Some 20.
Proof.
  destruct (persistence_snapshot_restores sample_persistence {[10; 20]} {[20]} 5 sample_table sample_start)
    as [_ Hok]; [vm_compute; discriminate | vm_compute; discriminate | exact sample_table_reach |].
  destruct Hok as (t' & E & Hk).
  { intros k e Hk _. apply sample_keys_valid. by eexists. }
  exists t'. split; [exact E |].
  assert (Ea : sample_table !! bs "a" = Some (mkPersistenceEntry 10 60000000000)) by (vm_compute; reflexivity).
  assert (Eb : sample_table !! bs "b" = Some (mkPersistenceEntry 20 60000000005)) by (vm_compute; reflexivity).
  pose proof (Hk (bs "a")) as Ha. pose proof (Hk (bs "b")) as Hb. rewrite Ea in Ha. rewrite Eb in Hb.
  rewrite bool_decide_eq_false_2, andb_false_r in Ha by (cbn; rewrite elem_of_singleton; lia).
  rewrite (bool_decide_eq_true_2 (_ ∈ _)) in Hb by (cbn; by rewrite elem_of_singleton).
  unfold entry_live in Hb. rewrite (bool_decide_eq_true_2 (_ ∈ _)) in Hb by (cbn; set_solver).
  split; [exact Ha |]. destruct Hb as (e' & -> & Hb & _). exact (f_equal Some Hb).
Defined.

(** A client whose cookie is empty gets an entry with an empty key, and the
    saved table can then not be restored. *)
Definition empty_cookie_request : RequestView := mkRequestView [] (fun _ => []) [bs "sid="].
Lemma empty_cookie_blocks_restore :
  exists key, cookie_key empty_cookie_request (bs "sid") = Some key
    /\ let t := record_at sample_persistence 5 key 20 ∅ in
       (prepare_persistence sample_persistence {[20]}
          (persistence_snapshot_at sample_persistence {[20]} 5 t) sample_start).1 = Err InvalidKey.
Proof. exists []. split; vm_compute; reflexivity. Qed.
