(* ===== verification/LbBalancer.v ===== *)
(** * The load balancer of a pool ([lib.rs], [inner.rs], [retry.rs],
    [queue.rs], [api_selection.rs])

    Selection as a request sees it: the persistence table first, then the
    configured algorithm, then a connection permit. *)
From Stdlib Require Import ZArith Lia.
From stdpp Require Import base list numbers strings sets gmap.
From S2P Require Import Prelude Text NetAddr LbRetry LbBackend LbState LbPolicy LbSelect LbMaglev LbKetama LbCookie LbPersistence.

(** [UpstreamLoadBalancerInner], without the runtime all variants share *)
Inductive Algorithm : Type :=
| RoundRobin
| LeastConnections
| LeastSessions
| LeastTime
| PowerOfTwo
| FnvHash
| ConsistentHash
| NginxConsistentHash (table : list NginxKetamaPoint)
| BoundedLoadConsistentHash (factor_per_mille : Z)
| MaglevHash (table : gmap Z Z).

(** [UpstreamLoadBalancer]: the pool, and what is fixed at its construction *)
Record Balancer : Type := mkBalancer {
  bl_pool : Pool;
  bl_algorithm : Algorithm;
  bl_key_source : LoadBalanceKeySource;
  bl_aliases : gmap Z (list Z);
  bl_persistence : option PersistenceState;
  bl_max_iterations : Z;
  bl_prune_counter : Z;
}.
Definition set_pool (p : Pool) (bal : Balancer) : Balancer :=
  mkBalancer p (bl_algorithm bal) (bl_key_source bal) (bl_aliases bal) (bl_persistence bal)
    (bl_max_iterations bal) (bl_prune_counter bal).
Definition set_policy (policy : BackendSelectionPolicy) (bal : Balancer) : Balancer :=
  let p := bl_pool bal in
  set_pool (mkPool (pl_runtime p) (pl_passive p) (pl_slow_start p) policy) bal.
Definition set_backend_runtime (r : Runtime) (bal : Balancer) : Balancer :=
  let p := bl_pool bal in
  set_pool (mkPool r (pl_passive p) (pl_slow_start p) (pl_policy p)) bal.
Definition set_prune_counter (n : Z) (bal : Balancer) : Balancer :=
  mkBalancer (bl_pool bal) (bl_algorithm bal) (bl_key_source bal) (bl_aliases bal) (bl_persistence bal)
    (bl_max_iterations bal) n.

Inductive LoadBalancerPersistenceOutcome : Type := Hit | Miss | Fallback.
Record SelectedUpstream : Type := mkSelected {
  su_backend : FluxBackend;
  su_alias : option (list Z);
  su_reporter : option Reporter;
  su_persistence_outcome : option LoadBalancerPersistenceOutcome;
  su_managed_affinity_cookie : option (list Z);
}.

(** ** Connection permits *)

(** [BackendConnectionCounters::permit] when no other thread interferes; its
    loop under interference is in [LbAdmission]. *)
Definition permit (b : FluxBackend) (max_in_flight : option Z) : M bool :=
  let! current := connections b in
  if match max_in_flight with Some limit => limit <=? current | None => false end then ret false
  else match checked_add USIZE_MAX current 1 with
       | None => ret false
       | Some next => modify (set_counts <[backend_key b := next]>) ;;; ret true
       end.
(** [LoadBalancedConnectionPermit::drop] *)
Definition permit_drop (key : Z) : M unit := modify (set_counts (alter (fun n => n - 1) key)).

Section Balancing.
Context `{Env} `{CookieEnv} `{KetamaEnv}.

Definition inner_select (bal : Balancer) (key : option (list Z)) (sessions : gmap Z Z)
  : M (option FluxBackend) :=
  let p := bl_pool bal in
  let n := bl_max_iterations bal in
  let k := default [] key in
  match bl_algorithm bal with
  | RoundRobin => select_weighted_round_robin p
  | LeastConnections => select_least_connections p
  | LeastSessions => select_least_sessions p sessions
  | LeastTime => select_least_time p
  | PowerOfTwo => select_power_of_two p n
  | FnvHash => select_fnv_hash p k n
  | ConsistentHash => select_consistent_hash p k n
  | NginxConsistentHash table => select_nginx_consistent_hash p (ketama_backend_keys table k n)
  | BoundedLoadConsistentHash factor => select_bounded_load_consistent p k n factor
  | MaglevHash table => select_maglev p (maglev_candidate_keys table k n)
  end.

(** [latency_state().is_some()] *)
Definition has_latency (bal : Balancer) : bool :=
  match bl_algorithm bal with LeastTime => true | _ => false end.

Definition prepare_selected (bal : Balancer) (b : FluxBackend)
    (outcome : option LoadBalancerPersistenceOutcome) : M (option SelectedUpstream) :=
  let key := backend_key b in
  let p := bl_pool bal in
  let! admitted := permit b (p_max_in_flight (pl_policy p) !! key) in
  if admitted : bool then
    ret (Some (mkSelected b (bl_aliases bal !! key)
      (if bool_decide (is_Some (pl_passive p)) || has_latency bal
       then Some (mkReporter key (pl_passive p) (bool_decide (is_Some (pl_slow_start p))) (has_latency bal))
       else None)
      outcome None))
  else ret None.

Definition persistence_pass : SelectionPass := mkPass None true false false.
Definition not_currently_ejected (p : Pool) (key : Z) : M bool :=
  match pl_passive p with
  | Some _ => let! ejected := key_is_currently_ejected key in ret (negb ejected)
  | None => ret true
  end.
Definition slow_start_permits_read_only (p : Pool) (b : FluxBackend) : M bool :=
  match pl_slow_start p with
  | Some duration => slow_permits_read_only duration b
  | None => ret true
  end.
Definition backend_available_for_persistence (bal : Balancer) (b : FluxBackend) : M bool :=
  let p := bl_pool bal in
  let key := backend_key b in
  if snapshot_ready (pl_runtime p) b then
    and_then (not_currently_ejected p key)
    (and_then (slow_start_permits_read_only p b)
    (and_then (permits (pl_policy p) b persistence_pass)
       (ret (negb (policy_disabled (pl_policy p) key) && negb (policy_drained (pl_policy p) key)))))
  else ret false.

(** ** Pruning *)

Definition live_backend_keys (bal : Balancer) : gset Z :=
  list_to_set (backend_key <$> backends (bl_pool bal)).
Definition when (b : bool) (m : M unit) : M unit := if b then m else ret tt.
Definition prune_stale_backend_state (bal : Balancer) : M Balancer :=
  let live := live_backend_keys bal in
  let p := bl_pool bal in
  counts_prune_stale live ;;;
  when (bool_decide (is_Some (bl_persistence bal))) (prune_stale_for_live_backends live) ;;;
  when (bool_decide (is_Some (pl_passive p))) (passive_prune_stale live) ;;;
  when (bool_decide (is_Some (pl_slow_start p))) (slow_prune_stale live) ;;;
  when (has_latency bal) (latency_prune_stale live) ;;;
  ret (set_policy (policy_prune_stale live (pl_policy p)) bal).

Definition BACKEND_STATE_PRUNE_INTERVAL : Z := 1024.
Definition prune_stale_backend_state_periodically (bal : Balancer) : M Balancer :=
  let current := bl_prune_counter bal in
  let bal := set_prune_counter ((current + 1) mod (USIZE_MAX + 1)) bal in
  if negb (current mod BACKEND_STATE_PRUNE_INTERVAL =? 0) then ret bal
  else prune_stale_backend_state bal.

(** ** Selection *)

Definition fresh_selection_needs_persistence_counts (bal : Balancer) (persistence_key : option (list Z))
    (s : PersistenceState) : bool :=
  match bl_algorithm bal with LeastSessions => true | _ => false end
  && (negb (is_managed_cookie s) || bool_decide (is_Some persistence_key)).

(** The record of a fresh selection, and the cookie of a new client. *)
Definition remember (bal : Balancer) (persistence_key : option (list Z)) (selected : SelectedUpstream)
  : M SelectedUpstream :=
  match bl_persistence bal with
  | None => ret selected
  | Some s =>
      match persistence_key with
      | Some key => record_persistence s key (backend_key (su_backend selected)) ;;; ret selected
      | None =>
          let! cookie := new_managed_cookie (ps_managed_cookie s) in
          match cookie with
          | None => ret selected
          | Some (key, cookie) =>
              record_persistence s key (backend_key (su_backend selected)) ;;;
              ret (mkSelected (su_backend selected) (su_alias selected) (su_reporter selected)
                     (su_persistence_outcome selected) (Some cookie))
          end
      end
  end.

(** The sessions per member, when the algorithm reads them. *)
Definition fresh_sessions (bal : Balancer) (persistence_key : option (list Z)) : M (gmap Z Z) :=
  match bl_persistence bal with
  | Some s =>
      if fresh_selection_needs_persistence_counts bal persistence_key s
      then let! counts := runtime_counts in ret counts.2
      else ret ∅
  | None => ret ∅
  end.
(** [select_fresh] after its prune *)
Definition select_now (bal : Balancer) (request : RequestView) (client_ip : option IpAddr)
    (persistence_key : option (list Z)) (outcome : option LoadBalancerPersistenceOutcome)
  : M (option SelectedUpstream) :=
  let key := request_key (bl_key_source bal) request client_ip in
  let! sessions := fresh_sessions bal persistence_key in
  let! chosen := inner_select bal key sessions in
  match chosen with
  | None => ret None
  | Some b =>
      let! selected := prepare_selected bal b outcome in
      match selected with
      | None => ret None
      | Some selected => let! selected := remember bal persistence_key selected in ret (Some selected)
      end
  end.
Definition select_fresh (bal : Balancer) (request : RequestView) (client_ip : option IpAddr)
    (persistence_key : option (list Z)) (outcome : option LoadBalancerPersistenceOutcome)
  : M (option SelectedUpstream * Balancer) :=
  let! bal := prune_stale_backend_state_periodically bal in
  let! selected := select_now bal request client_ip persistence_key outcome in
  ret (selected, bal).

(** The member a known client is on, when it can still be used. *)
Definition select_persisted (bal : Balancer) (key : Z) : M (option SelectedUpstream) :=
  match backend_with_key (bl_pool bal) key with
  | None => ret None
  | Some b =>
      let! available := backend_available_for_persistence bal b in
      if available : bool then prepare_selected bal b (Some Hit) else ret None
  end.

Definition select (bal : Balancer) (request : RequestView) (client_ip : option IpAddr)
  : M (option SelectedUpstream * Balancer) :=
  let! persistence_key := match bl_persistence bal with
                          | Some s => persistence_key s request client_ip
                          | None => ret None
                          end in
  match persistence_key with
  | None => select_fresh bal request client_ip None None
  | Some key =>
      let! known := lookup_persistence key in
      match known with
      | None => select_fresh bal request client_ip (Some key) (Some Miss)
      | Some known =>
          let! persisted := select_persisted bal known in
          match persisted with
          | Some selected => ret (Some selected, bal)
          | None => select_fresh bal request client_ip (Some key) (Some Fallback)
          end
      end
  end.

(** [select_excluding]: the exclusions live in a copy of the pool, whose other
    state is shared. *)
Definition restore_exclusions (excluded : list (option Z)) (bal : Balancer) : Balancer :=
  let q := pl_policy (bl_pool bal) in
  set_policy (mkPolicy (p_backup q) (p_drain q) (p_disabled q) excluded (p_runtime q) (p_priority q)
    (p_localities q) (p_preferred_localities q) (p_max_in_flight q) (p_priority_groups q)
    (p_priority_group_min_active q) (p_health_weights q)) bal.
Definition select_excluding (bal : Balancer) (request : RequestView) (client_ip : option IpAddr)
    (attempted : list SocketAddr) : M (option SelectedUpstream * Balancer) :=
  let policy := pl_policy (bl_pool bal) in
  let '(ok, excluding) := exclude_attempted attempted policy in
  if negb ok then ret (None, bal)
  else
    let! r := select (set_policy excluding bal) request client_ip in
    ret (r.1, restore_exclusions (p_retry_excluded policy) r.2).
End Balancing.
