(* ===== verification/LbFrame.v ===== *)
(** * A small pool

    Two members behind one balancer, with the third-party functions
    instantiated: the concrete state on which the theorems about the balancer
    are applied. *)
From Stdlib Require Import ZArith Lia.
From stdpp Require Import base list numbers strings sets gmap.
From S2P Require Import Prelude Text NetAddr LbRetry LbBackend LbState LbPolicy LbSelect LbMaglev LbKetama LbCookie LbPersistence LbBalancer.

Definition first_member : FluxBackend := mkFluxBackend (mkSocketAddr (V4 10 0 0 1) 80 0) 1.
Definition second_member : FluxBackend := mkFluxBackend (mkSocketAddr (V4 10 0 0 2) 80 0) 2.
Definition small_runtime : Runtime :=
  update_inner (backend_set_insert (backend_set_insert backend_set_default first_member) second_member)
    (runtime_new None false).
(** Two addresses can be excluded; the second member takes two connections. *)
Definition small_policy : BackendSelectionPolicy :=
  policy_from_config (mkPolicyConfig [bs "10.0.0.1:80"; bs "10.0.0.2:80"] [] [] [] [] [] [10; 2] [] 1).
Definition small_pool (passive : option PassiveHealthState) : Pool :=
  mkPool small_runtime passive None small_policy.
Definition small_balancer (algorithm : Algorithm) (persistence : option PersistenceState) : Balancer :=
  mkBalancer (small_pool (Some (passive_from_config 2 30 1 0 [] []))) algorithm KeyNone
    ∅ persistence 16 1.
(** One connection is open on the second member. *)
Definition small_world : World := mkWorld 0 0 ∅ ∅ 0 {[backend_key second_member := 1]} ∅ 0 ∅ None.
Definition plain_request : RequestView := mkRequestView (bs "/index.html") (fun _ => []) [].

(** * What a selection changes

    Everything a selection does before it admits a connection: it reads the
    clock, creates zero counters, starts slow-start periods, forgets ejections
    that are over; it starts no ejection and changes no count.  [frame] says so for two states, [framed] for a computation,
    and the lemmas carry both through the loops of the algorithms. *)
Lemma bind_run {A B} (m : M A) (k : A -> M B) w : bind m k w = k (m w).1 (m w).2.
Proof. unfold bind. by destruct (m w). Qed.
Lemma and_then_run a b w : (and_then a b w).1 = (a w).1 && (b (a w).2).1.
Proof. unfold and_then. rewrite bind_run. by destruct (a w).1. Qed.

Lemma count_of_counter_entry w b key :
  count_of (set_counts (counter_entry (backend_key b)) w) key = count_of w key.
Proof.
  unfold count_of, counter_entry. simpl. destruct (w_counts w !! backend_key b) as [n |] eqn:E; [done |].
  destruct (decide (key = backend_key b)) as [-> |]; [by rewrite lookup_insert_eq, E | by rewrite lookup_insert_ne].
Qed.
Lemma connections_run b w :
  connections b w = (count_of w (backend_key b), set_counts (counter_entry (backend_key b)) w).
Proof. unfold connections. rewrite bind_run. unfold modify, get. simpl. by rewrite count_of_counter_entry. Qed.

Definition ejection (w : World) (key : Z) : option Z := w_passive w !! key ≫= ejected_until.

Section Frame.
Context `{Env}.

(** Every reading of the clock between two states is before [u]. *)
Definition before (w w' : World) (u : Z) : Prop :=
  forall n, (w_tick w <= n < w_tick w')%nat -> clock n < u.

Record frame (w w' : World) : Prop := mkFrame {
  fr_tick : (w_tick w <= w_tick w')%nat;
  fr_counts : forall key, count_of w' key = count_of w key;
  fr_kept : forall key u, ejection w key = Some u -> before w w' u -> ejection w' key = Some u;
  fr_none : forall key, ejection w key = None -> ejection w' key = None;
}.

Lemma before_sub w0 w w' w1 u :
  (w_tick w0 <= w_tick w)%nat -> (w_tick w' <= w_tick w1)%nat -> before w0 w1 u -> before w w' u.
Proof. intros ? ? Hb n Hn. apply Hb. lia. Qed.

#[global] Instance frame_preorder : PreOrder frame.
Proof.
  split.
  - intros w. by split.
  - intros w1 w2 w3 [t1 c1 k1 n1] [t2 c2 k2 n2]. split; [lia | congruence | | eauto].
    intros key u E Hb. apply k2; [apply k1; [done |] |].
    + eapply before_sub; [| | exact Hb]; lia.
    + eapply before_sub; [| | exact Hb]; lia.
Qed.

Definition framed {A} (m : M A) : Prop := forall w, frame w (m w).2.

Lemma framed_ret {A} (a : A) : framed (ret a).
Proof. intros w. reflexivity. Qed.
Lemma framed_bind {A B} (m : M A) (k : A -> M B) : framed m -> (forall a, framed (k a)) -> framed (bind m k).
Proof.
  intros Hm Hk w. unfold bind. destruct (m w) as [a w'] eqn:E. simpl.
  transitivity w'; [| apply Hk]. specialize (Hm w). by rewrite E in Hm.
Qed.
Lemma framed_get {A} (f : World -> A) : framed (get f).
Proof. intros w. reflexivity. Qed.
Lemma framed_if {A} (b : bool) (m n : M A) : framed m -> framed n -> framed (if b then m else n).
Proof. by destruct b. Qed.
Lemma framed_and_then a b : framed a -> framed b -> framed (and_then a b).
Proof. intros ? ?. apply framed_bind; [done |]. intros []; [done | apply framed_ret]. Qed.
Lemma framed_instant_now : framed instant_now.
Proof. intros w. by split; simpl; auto. Qed.
Lemma framed_random_u64 : framed random_u64.
Proof. intros w. by split. Qed.
Lemma framed_set_slow f : framed (modify (set_slow f)).
Proof. intros w. by split. Qed.
Lemma framed_set_sample_counter n : framed (modify (set_sample_counter n)).
Proof. intros w. by split. Qed.
Lemma framed_set_cursor n : framed (modify (set_cursor n)).
Proof. intros w. by split. Qed.
Lemma framed_connections b : framed (connections b).
Proof. intros w. rewrite connections_run. split; try done. intros key. apply count_of_counter_entry. Qed.
Lemma framed_getrandom_fill n : framed (getrandom_fill n).
Proof. intros w. by split. Qed.
Lemma framed_set_latency f : framed (modify (set_latency f)).
Proof. intros w. by split. Qed.
Lemma framed_set_table f : framed (modify (set_table f)).
Proof. intros w. by split. Qed.
Lemma framed_set_ring r : framed (modify (set_ring r)).
Proof. intros w. by split. Qed.
Lemma framed_key_is_ejected key : framed (key_is_ejected key).
Proof.
  intros w. unfold key_is_ejected, bind, get, ret, modify, instant_now, ejection.
  destruct (w_passive w !! key) as [st |] eqn:E; [| reflexivity].
  destruct (ejected_until st) as [u |] eqn:Eu.
  - case Z.ltb_spec; intros Hlt; (split; simpl; [lia | done | |]); unfold ejection; simpl; try done.
    + intros key' u' E' Hb. destruct (decide (key' = key)) as [-> | Hne]; [| by rewrite lookup_insert_ne].
      rewrite E in E'. simpl in E'. rewrite Eu in E'. injection E' as ->.
      specialize (Hb (w_tick w)). simpl in Hb. lia.
    + intros key' E'. destruct (decide (key' = key)) as [-> |]; [by rewrite lookup_insert_eq | by rewrite lookup_insert_ne].
  - split; simpl; [lia | done | |]; unfold ejection; simpl; intros key'.
    + intros u E' _. destruct (decide (key' = key)) as [-> | Hne]; [| by rewrite lookup_insert_ne].
      rewrite E in E'. simpl in E'. congruence.
    + intros E'. destruct (decide (key' = key)) as [-> |]; [by rewrite lookup_insert_eq | by rewrite lookup_insert_ne].
Qed.
End Frame.

Create HintDb framed.
#[export] Hint Resolve framed_ret framed_get framed_instant_now framed_random_u64 framed_set_slow
  framed_set_sample_counter framed_set_cursor framed_set_latency framed_set_table
  framed_set_ring framed_getrandom_fill framed_connections framed_key_is_ejected : framed.
(** Decompose a computation into the steps above. *)
Ltac framed_step :=
  first
  [ solve [eauto with framed]
  | apply framed_and_then
  | apply framed_bind; [| intros ?]
  | match goal with |- framed (match ?x with _ => _ end) => destruct x end ].
Ltac framed_tac := repeat framed_step.
