(* ===== verification/LbSelectProps.v ===== *)
(** * Which member a selection may return

    Every algorithm, in every state: the member it returns is a member of the
    snapshot that is ready, permitted by the policy of one of the passes and
    below its connection limit, and it is an ejected one only when too few
    others are left. *)
From Stdlib Require Import ZArith Lia.
From stdpp Require Import base list numbers strings sets gmap sorting.
From S2P Require Import Prelude Text NetAddr LbRetry LbBackend LbState LbPolicy LbSelect LbFrame.

(** ** Candidates *)

(** Slow start has no say in the pass. *)
Definition no_slow_start (p : Pool) (pass : SelectionPass) : Prop :=
  ignore_slow_start pass = true \/ pl_slow_start p = None.

Section Candidates.
Context `{Env} (p : Pool).

Definition below_limit (w : World) (key : Z) : bool :=
  match p_max_in_flight (pl_policy p) !! key with
  | Some limit => count_of w key <? limit
  | None => true
  end.
(** What a pass requires of a member, apart from slow start and ejection. *)
Definition eligible (w : World) (pass : SelectionPass) (b : FluxBackend) : bool :=
  snapshot_ready (pl_runtime p) b && permits_statically (pl_policy p) (backend_key b) pass
  && below_limit w (backend_key b).
(** The members that count towards [min_healthy_backends] for certain. *)
Definition healthy_in (w : World) (b : FluxBackend) : bool :=
  eligible w floor_pass b && bool_decide (ejection w (backend_key b) = None).
Definition healthy_count (w : World) : Z := zlen (filter (fun b => healthy_in w b = true) (backends p)).

(** A member that stays ejected is only used below the floor. *)
Definition ejection_ok (w w' : World) (b : FluxBackend) : Prop :=
  forall health u, pl_passive p = Some health -> ejection w (backend_key b) = Some u -> before w w' u ->
  healthy_count w < min_healthy_backends health.
Record admissible (w w' : World) (pass : SelectionPass) (b : FluxBackend) : Prop := mkAdmissible {
  ad_eligible : eligible w pass b = true;
  ad_ejection : ejection_ok w w' b;
}.

Lemma eligible_frame w w' pass b : frame w w' -> eligible w' pass b = eligible w pass b.
Proof.
  intros Hf. unfold eligible, below_limit. destruct (p_max_in_flight _ !! _); [| done].
  by rewrite (fr_counts _ _ Hf).
Qed.
Lemma healthy_in_frame w w' b : frame w w' -> healthy_in w b = true -> healthy_in w' b = true.
Proof.
  intros Hf Hh. unfold healthy_in in *. breflect. rewrite (eligible_frame w w') by done.
  apply andb_true_intro. split; [done |]. apply bool_decide_eq_true. by apply (fr_none _ _ Hf).
Qed.
Lemma healthy_count_frame w w' : frame w w' -> healthy_count w <= healthy_count w'.
Proof.
  intros Hf. unfold healthy_count, zlen. apply inj_le.
  induction (backends p) as [| b l IH]; [done |]. rewrite !filter_cons.
  destruct (decide (healthy_in w b = true)) as [Hb |].
  - rewrite decide_True by (by eapply healthy_in_frame). simpl. lia.
  - case_decide; simpl; lia.
Qed.
(** What was decided in part of an interval holds of the whole. *)
Lemma admissible_extend w0 w w' w1 pass b :
  frame w0 w -> frame w w' -> frame w' w1 -> admissible w w' pass b -> admissible w0 w1 pass b.
Proof.
  intros F0 F F1 [He Ho]. split; [by rewrite <- (eligible_frame w0 w) |].
  intros health u Hp E Hb. pose proof (fr_tick _ _ F0). pose proof (fr_tick _ _ F). pose proof (fr_tick _ _ F1).
  pose proof (healthy_count_frame _ _ F0).
  assert (healthy_count w < min_healthy_backends health); [| lia].
  apply (Ho health u Hp).
  - apply (fr_kept _ _ F0); [done |]. eapply before_sub; [| | exact Hb]; lia.
  - eapply before_sub; [| | exact Hb]; lia.
Qed.

(** ** The candidate tests *)

Lemma framed_permits b pass : framed (permits (pl_policy p) b pass).
Proof. unfold permits. framed_tac. Qed.
Lemma framed_slow_permits d b : framed (slow_permits d b).
Proof. unfold slow_permits. framed_tac. Qed.
Lemma framed_slow_permits_read_only d b : framed (slow_permits_read_only d b).
Proof. unfold slow_permits_read_only. framed_tac. Qed.
#[local] Hint Resolve framed_permits framed_slow_permits framed_slow_permits_read_only : framed.
Lemma framed_base_allowed b pass ro : framed (backend_candidate_base_allowed p b pass ro).
Proof. unfold backend_candidate_base_allowed. framed_tac. Qed.
Lemma framed_is_ejected b : framed (is_ejected b).
Proof. apply framed_key_is_ejected. Qed.
#[local] Hint Resolve framed_base_allowed framed_is_ejected : framed.
Lemma framed_filter_take_count f n l : (forall b, framed (f b)) -> framed (filter_take_count f n l).
Proof. intros Hf. revert n. induction l; intros n; simpl; framed_tac. Qed.
Lemma framed_non_ejected_count n : framed (non_ejected_candidate_count p n).
Proof.
  unfold non_ejected_candidate_count. destruct (pl_passive p); [| framed_tac].
  apply framed_filter_take_count. intros. framed_tac.
Qed.
#[local] Hint Resolve framed_non_ejected_count : framed.
Lemma framed_passive_allowed b : framed (passive_health_candidate_allowed p b).
Proof. unfold passive_health_candidate_allowed. framed_tac. Qed.
#[local] Hint Resolve framed_passive_allowed : framed.
Lemma framed_allowed b pass : framed (backend_candidate_allowed p b pass).
Proof. unfold backend_candidate_allowed. framed_tac. Qed.
Lemma framed_allowed_read_only b pass : framed (backend_candidate_allowed_read_only p b pass).
Proof. unfold backend_candidate_allowed_read_only. framed_tac. Qed.
#[local] Hint Resolve framed_allowed framed_allowed_read_only : framed.
Lemma framed_activation pass : framed (priority_activation_satisfied p pass).
Proof.
  unfold priority_activation_satisfied. destruct (minimum_priority_group pass); [| framed_tac].
  case_match; [framed_tac |]. apply framed_bind; [apply framed_filter_take_count; intros; framed_tac |].
  intros. framed_tac.
Qed.

Lemma permits_run b pass w :
  (permits (pl_policy p) b pass w).1
  = permits_statically (pl_policy p) (backend_key b) pass && below_limit w (backend_key b).
Proof.
  unfold permits, below_limit. destruct (permits_statically _ _ _); [| done]. simpl.
  destruct (p_max_in_flight _ !! _); [| done].
  by rewrite bind_run, connections_run.
Qed.
Lemma base_allowed_eligible b pass ro w :
  (backend_candidate_base_allowed p b pass ro w).1 = true -> eligible w pass b = true.
Proof.
  unfold backend_candidate_base_allowed, eligible. destruct (snapshot_ready _ b); [| done].
  rewrite and_then_run, permits_run. simpl. by intros [E _]%andb_true_iff.
Qed.
Lemma base_allowed_fast b pass ro w :
  no_slow_start p pass ->
  (backend_candidate_base_allowed p b pass ro w).1 = eligible w pass b.
Proof.
  intros Hi. unfold backend_candidate_base_allowed, eligible. destruct (snapshot_ready _ b); [| done].
  rewrite and_then_run, permits_run. simpl. destruct Hi as [-> | ->]; [by rewrite andb_true_r |].
  by destruct (ignore_slow_start pass); simpl; rewrite andb_true_r.
Qed.

Lemma is_ejected_none b w : ejection w (backend_key b) = None -> (is_ejected b w).1 = false.
Proof.
  unfold ejection, is_ejected, key_is_ejected. intros E. rewrite bind_run. simpl.
  destruct (w_passive w !! backend_key b) as [st |]; [| done]. simpl in E. rewrite E. done.
Qed.
Lemma is_ejected_over b w u :
  (is_ejected b w).1 = false -> ejection w (backend_key b) = Some u -> ~ before w (is_ejected b w).2 u.
Proof.
  unfold ejection, is_ejected, key_is_ejected. rewrite bind_run. simpl.
  destruct (w_passive w !! backend_key b) as [st |]; [| done]. simpl. intros E Eu. revert E. rewrite Eu.
  rewrite bind_run. simpl. case Z.ltb_spec; intros Hlt; [done |]. simpl. intros _ Hb.
  specialize (Hb (w_tick w)). simpl in Hb. lia.
Qed.

(** Counting stops early, but never misses a member it should count. *)
Lemma filter_take_count_least (P : World -> FluxBackend -> bool) f limit l w :
  (forall b, framed (f b)) ->
  (forall w w' b, frame w w' -> P w b = true -> P w' b = true) ->
  (forall w b, P w b = true -> (f b w).1 = true) ->
  Z.min limit (zlen (filter (fun b => P w b = true) l)) <= (filter_take_count f limit l w).1.
Proof.
  intros Hf HP Hfp. revert limit w. induction l as [| b l IH]; intros limit w; simpl.
  { case Z.leb_spec; intros; simpl; zlen_facts; unfold zlen; simpl; lia. }
  case Z.leb_spec; intros Hl; [simpl; lia |]. rewrite bind_run.
  pose proof (Hf b w) as Fb. set (w1 := (f b w).2) in *.
  assert (Hmono : (length (filter (fun b => P w b = true) l) <= length (filter (fun b => P w1 b = true) l))%nat).
  { clear -HP Fb. induction l as [| c l IH]; [done |]. rewrite !filter_cons.
    destruct (decide (P w c = true)); [rewrite decide_True by eauto; simpl; lia | case_decide; simpl; lia]. }
  rewrite filter_cons. destruct ((f b w).1) eqn:Efb.
  - rewrite bind_run. simpl. specialize (IH (limit - 1) w1). unfold zlen in *. case_decide; simpl; lia.
  - rewrite decide_False by (intros HPb; rewrite (Hfp w b HPb) in Efb; done).
    specialize (IH limit w1). unfold zlen in *. lia.
Qed.

Lemma non_ejected_count_least health limit w :
  pl_passive p = Some health -> Z.min limit (healthy_count w) <= (non_ejected_candidate_count p limit w).1.
Proof.
  intros Hp. unfold non_ejected_candidate_count. rewrite Hp. apply filter_take_count_least.
  - intros. framed_tac.
  - intros. by eapply healthy_in_frame.
  - intros w' b Hb. unfold healthy_in in Hb. breflect. rewrite and_then_run, base_allowed_fast by (by left).
    rewrite H0. simpl. rewrite bind_run. simpl. rewrite is_ejected_none; [done |].
    apply (fr_none _ _ (framed_base_allowed b floor_pass true w')). done.
Qed.

Lemma passive_allowed_ok b w :
  (passive_health_candidate_allowed p b w).1 = true ->
  ejection_ok w (passive_health_candidate_allowed p b w).2 b.
Proof.
  intros E health u Hp Eu Hb. pose proof (framed_passive_allowed b w) as F.
  unfold passive_health_candidate_allowed in *. rewrite Hp in *. rewrite bind_run in *.
  pose proof (framed_is_ejected b w) as F1.
  destruct ((is_ejected b w).1) eqn:Ej; simpl in *.
  - revert E Hb. case Z.ltb_spec; intros Hfl; [| done]. rewrite bind_run. simpl. intros E Hb.
    apply Z.ltb_lt in E.
    pose proof (non_ejected_count_least health (min_healthy_backends health) (is_ejected b w).2 Hp).
    pose proof (healthy_count_frame _ _ F1). lia.
  - exfalso. eapply is_ejected_over; [exact Ej | exact Eu | exact Hb].
Qed.

Lemma allowed_admissible b pass w :
  (backend_candidate_allowed p b pass w).1 = true ->
  admissible w (backend_candidate_allowed p b pass w).2 pass b.
Proof.
  unfold backend_candidate_allowed. rewrite and_then_run. intros E. breflect.
  unfold and_then. rewrite bind_run, H0.
  pose proof (framed_base_allowed b pass false w) as F1.
  set (w1 := (backend_candidate_base_allowed p b pass false w).2) in *.
  apply (admissible_extend w w1 (passive_health_candidate_allowed p b w1).2 _); [done | apply framed_passive_allowed | done |].
  split; [rewrite (eligible_frame w w1) by done; by apply base_allowed_eligible in H0 | by apply passive_allowed_ok].
Qed.
End Candidates.
#[export] Hint Resolve framed_permits framed_slow_permits framed_slow_permits_read_only framed_base_allowed
  framed_is_ejected framed_filter_take_count framed_non_ejected_count framed_passive_allowed framed_allowed
  framed_allowed_read_only framed_activation : framed.

(** ** Weights *)

Definition weight_sum (l : list (FluxBackend * Z)) : Z := foldr (fun c s => c.2 + s) 0 l.
(** The weights of a non-empty list name a member for every target. *)
Lemma pick_some l target :
  Forall (fun c : FluxBackend * Z => 1 <= c.2) l -> 0 <= target < weight_sum l ->
  is_Some (pick l target).
Proof.
  unfold weight_sum. revert target. induction l as [| [c w] l IH]; intros target Hl Ht; simpl in *; [lia |].
  apply Forall_cons in Hl as [Hc Hl]. case Z.ltb_spec; intros Hlt; [eauto |].
  apply IH; [done |]. rewrite saturating_sub_exact by lia. lia.
Qed.

(** ** Members a computation has vouched for *)

Section Vouched.
Context `{Env} (p : Pool) (pass : SelectionPass).

Definition good (w w' : World) (b : FluxBackend) : Prop := b ∈ backends p /\ admissible p w w' pass b.
(** [m] returns members (the list [ms] of its result) that it knows already or
    finds good while it runs. *)
Definition vouches {A} (known : list FluxBackend) (ms : A -> list FluxBackend) (m : M A) : Prop :=
  forall w, frame w (m w).2 /\ forall b, b ∈ ms (m w).1 -> b ∈ known \/ good w (m w).2 b.
Definition nobody {A} (_ : A) : list FluxBackend := [].

Lemma good_extend w0 w w' w1 b :
  frame w0 w -> frame w w' -> frame w' w1 -> good w w' b -> good w0 w1 b.
Proof. intros ? ? ? [? ?]. split; [done |]. by eapply (admissible_extend p w0 w w' w1). Qed.

Lemma vouches_framed {A} known (m : M A) : framed m -> vouches known nobody m.
Proof. intros Hm w. split; [apply Hm |]. by intros b ?%not_elem_of_nil. Qed.
Lemma vouches_ret {A} known (ms : A -> list FluxBackend) a : ms a ⊆ known -> vouches known ms (ret a).
Proof. intros Ha w. split; [reflexivity |]. intros b Hb. left. by apply Ha. Qed.
Lemma vouches_ret_nobody {A} known (ms : A -> list FluxBackend) a : ms a = [] -> vouches known ms (ret a).
Proof. intros Ha. apply vouches_ret. rewrite Ha. apply list_subseteq_nil. Qed.
Lemma vouches_bind {A B} known (ms : A -> list FluxBackend) (ms' : B -> list FluxBackend) m k :
  vouches known ms m -> (forall a, vouches (known ++ ms a) ms' (k a)) -> vouches known ms' (bind m k).
Proof.
  intros Hm Hk w. rewrite bind_run. destruct (Hm w) as [F1 G1]. set (w1 := (m w).2) in *.
  destruct (Hk (m w).1 w1) as [F2 G2]. split; [by transitivity w1 |]. intros b Hb.
  destruct (G2 b Hb) as [Hin | Hg].
  - apply elem_of_app in Hin as [Hin | Hin]; [by left |]. destruct (G1 b Hin) as [| Hg]; [by left |].
    right. by eapply (good_extend w w w1); [reflexivity | ..].
  - right. by eapply (good_extend w w1); [| | reflexivity |].
Qed.
Lemma vouches_bind_framed {A B} known (ms' : B -> list FluxBackend) (m : M A) k :
  framed m -> (forall a, vouches known ms' (k a)) -> vouches known ms' (bind m k).
Proof.
  intros Hm Hk. apply (vouches_bind known nobody); [by apply vouches_framed |].
  intros a. by rewrite app_nil_r.
Qed.
Lemma vouches_allowed known b :
  b ∈ backends p -> vouches known (fun ok : bool => if ok then [b] else []) (backend_candidate_allowed p b pass).
Proof.
  intros Hb w. split; [apply framed_allowed |]. destruct (backend_candidate_allowed p b pass w).1 eqn:E.
  - intros c ->%list_elem_of_singleton. right. split; [done | by apply allowed_admissible].
  - by intros c ?%not_elem_of_nil.
Qed.
(** The test most loops are made of. *)
Lemma vouches_test {A} known (ms : A -> list FluxBackend) b (yes no : M A) :
  b ∈ backends p -> vouches (known ++ [b]) ms yes -> vouches known ms no ->
  vouches known ms (let! ok := backend_candidate_allowed p b pass in if ok : bool then yes else no).
Proof.
  intros Hb Hy Hn. eapply vouches_bind; [by apply vouches_allowed |]. intros []; [done | by rewrite app_nil_r].
Qed.
Lemma vouches_weaken {A} known known' (ms : A -> list FluxBackend) m :
  known ⊆ known' -> vouches known ms m -> vouches known' ms m.
Proof. intros Hs Hm w. destruct (Hm w) as [F G]. split; [done |]. intros b Hb. destruct (G b Hb); auto. Qed.

(** ** The passes *)

Definition chosen (r : option FluxBackend) : list FluxBackend := option_list r.

Lemma vouches_candidates_in {S} (score : FluxBackend -> M S) l known :
  (forall b, framed (score b)) -> l ⊆ backends p ->
  vouches known (fun r => r.*1) (candidates_in p score pass l).
Proof.
  intros Hs. revert known. induction l as [| b l IH]; intros known Hl; simpl.
  - by apply vouches_ret_nobody.
  - apply vouches_test; [set_solver | | apply IH; set_solver].
    apply vouches_bind_framed; [done |]. intros s.
    eapply vouches_bind; [apply IH; set_solver |]. intros r. apply vouches_ret. set_solver.
Qed.
Lemma pick_elem l target b : pick l target = Some b -> b ∈ l.*1.
Proof.
  revert target. induction l as [| [c w] l IH]; intros target; simpl; [done |].
  case_match; [intros [= ->]; set_solver | intros Hp%IH; set_solver].
Qed.
Lemma scan_min_elem {S} (lower : S -> S -> bool) l x : scan_min lower l = Some x -> x ∈ l.
Proof.
  unfold scan_min. revert x. induction l as [| c l IH] using rev_ind; intros x; [done |].
  rewrite foldl_snoc. destruct (foldl _ None l) as [s |].
  - case_match; intros [= <-]; [set_solver | apply elem_of_app; left; by apply IH].
  - intros [= <-]. set_solver.
Qed.
Lemma vouches_round_robin : vouches [] chosen (weighted_round_robin_pass p pass).
Proof.
  unfold weighted_round_robin_pass. eapply vouches_bind.
  { unfold candidates. apply vouches_candidates_in; [intros; framed_tac | done]. }
  intros l. case_match; [by apply vouches_ret_nobody |].
  apply vouches_bind_framed; [framed_tac |]. intros c.
  apply vouches_bind_framed; [framed_tac |]. intros _. apply vouches_ret.
  intros b Hb. unfold chosen in Hb. destruct (pick _ _) as [c' |] eqn:E; [| by apply not_elem_of_nil in Hb].
  apply list_elem_of_singleton in Hb as ->. simpl. by apply pick_elem in E.
Qed.
Lemma vouches_least {S} (score : FluxBackend -> M S) lower :
  (forall b, framed (score b)) -> vouches [] chosen (least_pass p score lower pass).
Proof.
  intros Hs. unfold least_pass. eapply vouches_bind; [by apply vouches_candidates_in |].
  intros l. apply vouches_ret. intros b Hb. simpl. unfold chosen in Hb.
  destruct (scan_min lower l) as [x |] eqn:E; [| by apply not_elem_of_nil in Hb].
  apply list_elem_of_singleton in Hb as ->. apply list_elem_of_fmap. exists x. split; [done | by apply scan_min_elem in E].
Qed.

(** Hashed choices *)

Lemma zget_elem {A} (l : list A) i x : zget l i = Some x -> x ∈ l.
Proof. unfold zget. case_match; [done |]. apply list_elem_of_lookup_2. Qed.
Lemma vouches_find_first {A} (ok : A -> M bool) (member : A -> list FluxBackend) l :
  (forall a, a ∈ l -> vouches [] (fun x : bool => if x then member a else []) (ok a)) ->
  vouches [] (fun r => match r with Some a => member a | None => [] end) (find_first ok l).
Proof.
  induction l as [| a l IH]; intros Hl; simpl; [by apply vouches_ret_nobody |].
  eapply vouches_bind; [apply Hl; by left |]. intros []; simpl; [by apply vouches_ret |].
  apply IH. intros b Hb. apply Hl. by right.
Qed.
Lemma vouches_fnv_steps n index seen : vouches [] chosen (fnv_steps p n (backends p) pass index seen).
Proof.
  revert index seen. induction n as [| n IH]; intros index seen; cbn [fnv_steps]; [by apply vouches_ret_nobody |].
  destruct (zget _ _) as [c |] eqn:E; [| by apply vouches_ret_nobody].
  case_match; [apply IH |]. apply vouches_test; [by eapply zget_elem | by apply vouches_ret | apply IH].
Qed.
(** The member a weighted index names. *)
Lemma weighted_elem l i x : zget (weighted_backend_indices l) i ≫= zget l = Some x -> x ∈ l.
Proof. intros (j & _ & Hj)%bind_Some. by eapply zget_elem. Qed.
Lemma vouches_fnv key n : vouches [] chosen (fnv_hash_pass p key n pass).
Proof.
  unfold fnv_hash_pass. case_match; [by apply vouches_ret_nobody |].
  destruct (zget _ _ ≫= _) as [c |] eqn:E; [| by apply vouches_ret_nobody].
  apply vouches_test; [by eapply weighted_elem | by apply vouches_ret | apply vouches_fnv_steps].
Qed.

Lemma vouches_random_candidate excluded seen c known :
  c ∈ backends p ->
  vouches known (fun r : bool * gset Z => if r.1 then [c] else []) (random_candidate_allowed p pass excluded seen c).
Proof.
  intros Hc. unfold random_candidate_allowed. do 2 (case_match; [by apply vouches_ret_nobody |]).
  eapply vouches_bind; [by apply vouches_allowed |]. intros ok. apply vouches_ret. set_solver.
Qed.
Lemma vouches_random_scan excluded l seen :
  l ⊆ backends p -> vouches [] chosen (random_scan p pass excluded l seen).
Proof.
  revert seen. induction l as [| c l IH]; intros seen Hl; simpl; [by apply vouches_ret_nobody |].
  eapply vouches_bind; [apply vouches_random_candidate; set_solver |]. intros [[] seen']; simpl.
  - by apply vouches_ret.
  - apply IH. set_solver.
Qed.
Lemma rotate_take_subseteq {A} (start n : Z) (l : list A) : rotate_take start n l ⊆ l.
Proof.
  unfold rotate_take, ztake, zdrop. intros x Hx%subseteq_take.
  apply elem_of_app in Hx as [Hx%subseteq_drop | Hx]; done.
Qed.
Lemma vouches_random n excluded : vouches [] chosen (select_weighted_random_candidate p n pass excluded).
Proof.
  unfold select_weighted_random_candidate. case_match; [by apply vouches_ret_nobody |].
  apply vouches_bind_framed; [framed_tac |]. intros r.
  destruct (zget _ _ ≫= _) as [c |] eqn:E; [| by apply vouches_ret_nobody].
  eapply vouches_bind; [apply vouches_random_candidate; by eapply weighted_elem |].
  intros [[] seen]; simpl; [by apply vouches_ret |].
  apply vouches_bind_framed; [framed_tac |]. intros r'. apply vouches_random_scan, rotate_take_subseteq.
Qed.
Lemma vouches_power_of_two n : vouches [] chosen (power_of_two_pass p n pass).
Proof.
  unfold power_of_two_pass. eapply vouches_bind; [apply vouches_random |].
  intros [first |]; simpl; [| by apply vouches_ret_nobody].
  eapply vouches_bind; [eapply vouches_weaken; [| apply vouches_random]; apply list_subseteq_nil |].
  intros second. do 2 (apply vouches_bind_framed; [framed_tac |]; intros ?).
  case_match; apply vouches_ret; [| set_solver]. destruct second; simpl; set_solver.
Qed.

Lemma consistent_hash_candidates_elem key b : b ∈ consistent_hash_candidates p key <-> b ∈ backends p.
Proof.
  unfold consistent_hash_candidates. rewrite merge_sort_Permutation, <- list_fmap_compose.
  rewrite (list_fmap_ext _ id), list_fmap_id; [done |]. done.
Qed.
Lemma framed_bounded_permits b bound : framed (bounded_load_permits p b bound).
Proof. unfold bounded_load_permits. framed_tac. Qed.
Lemma vouches_consistent key n bound : vouches [] chosen (consistent_hash_pass p key n bound pass).
Proof.
  apply (vouches_find_first _ (fun b => [b])). intros b Hb.
  assert (Hin : b ∈ backends p).
  { apply (consistent_hash_candidates_elem key). by apply subseteq_take in Hb. }
  unfold and_then. eapply vouches_bind; [by apply vouches_allowed |]. intros []; simpl.
  - destruct bound as [bound |]; [| by apply vouches_ret].
    intros w. split; [apply framed_bounded_permits |]. intros c Hc. left. by destruct (bounded_load_permits _ _ _ w).1; set_solver.
  - by apply vouches_ret_nobody.
Qed.
Lemma framed_bounded_totals l c w : framed (bounded_load_totals p pass l c w).
Proof. revert c w. induction l; intros c w; simpl; framed_tac. Qed.
Lemma vouches_bounded key n factor : vouches [] chosen (bounded_load_pass p key n factor pass).
Proof.
  unfold bounded_load_pass, bounded_load_snapshot. apply vouches_bind_framed.
  { apply framed_bind; [apply framed_bounded_totals | intros; framed_tac]. }
  intros [bound |]; [| apply vouches_consistent].
  eapply vouches_bind; [apply vouches_consistent |].
  intros [b |]; simpl; [by apply vouches_ret | apply vouches_consistent].
Qed.
Lemma vouches_table lookup keys :
  (forall key b, lookup key = Some b -> b ∈ backends p) -> vouches [] chosen (table_pass p lookup keys pass).
Proof.
  intros Hl. unfold table_pass. eapply vouches_bind.
  - apply (vouches_find_first _ (fun key => chosen (lookup key))). intros key _.
    destruct (lookup key) as [b |] eqn:E; [| by apply vouches_ret_nobody].
    apply vouches_allowed. by eapply Hl.
  - intros [key |]; simpl; by apply vouches_ret.
Qed.
Lemma backend_with_key_elem key b : backend_with_key p key = Some b -> b ∈ backends p /\ backend_key b = key.
Proof.
  unfold backend_with_key. intros ([i c] & Hf & [= <-])%bind_Some.
  apply list_find_Some in Hf as (Hi & Hk & _). split; [by eapply list_elem_of_lookup_2 | done].
Qed.
Lemma backend_by_key_elem key b : backend_by_key p !! key = Some b -> b ∈ backends p /\ backend_key b = key.
Proof.
  unfold backend_by_key. revert key b. induction (backends p) as [| c l IH] using rev_ind; [done |].
  intros key b. rewrite foldl_snoc, lookup_insert_Some. intros [[<- <-] | [_ Hb%IH]]; set_solver.
Qed.
End Vouched.

(** ** The passes in order *)

Section Passes.
Context `{Env} (p : Pool).

Definition selects_admissible (m : M (option FluxBackend)) : Prop :=
  forall w, frame w (m w).2
    /\ forall b, (m w).1 = Some b ->
       exists pass, pass ∈ selection_passes p /\ b ∈ backends p /\ admissible p w (m w).2 pass b.

Lemma try_passes_admissible f passes :
  (forall pass, vouches p pass [] chosen (f pass)) -> passes ⊆ selection_passes p ->
  selects_admissible (try_passes p f passes).
Proof.
  intros Hf. induction passes as [| pass passes IH]; intros Hp w; simpl; [split; [reflexivity | done] |].
  assert (IH' := IH ltac:(set_solver)). clear IH. rewrite bind_run.
  pose proof (framed_activation p pass w) as F1. set (w1 := (priority_activation_satisfied p pass w).2) in *.
  assert (Hskip : forall w2, frame w w2 -> frame w (try_passes p f passes w2).2
    /\ forall b, (try_passes p f passes w2).1 = Some b ->
       exists pass, pass ∈ selection_passes p /\ b ∈ backends p /\ admissible p w (try_passes p f passes w2).2 pass b).
  { intros w2 F2. destruct (IH' w2) as [F3 G]. split; [by transitivity w2 |]. intros b Hb.
    destruct (G b Hb) as (pass' & ? & ? & Ha). exists pass'. split_and!; [done | done |].
    by eapply (admissible_extend p w w2); [| | reflexivity |]. }
  destruct (_.1); [| by apply Hskip]. rewrite bind_run.
  destruct (Hf pass w1) as [F2 G]. set (w2 := (f pass w1).2) in *.
  destruct ((f pass w1).1) as [c |]; simpl; [| apply Hskip; by transitivity w1].
  split; [by transitivity w1 |]. intros b [= <-]. destruct (G c) as [Hc | [Hin Ha]]; [set_solver | by apply not_elem_of_nil in Hc |].
  exists pass. split_and!; [set_solver | done |]. by eapply (admissible_extend p w w1); [| | reflexivity |].
Qed.
Lemma by_passes_admissible f :
  (forall pass, vouches p pass [] chosen (f pass)) -> selects_admissible (by_passes p f).
Proof. intros Hf. by apply try_passes_admissible. Qed.
End Passes.
