(* ===== verification/LbBalancerProps.v ===== *)
(** * What a request gets from a pool

    Over persistence, pruning, the ten algorithms and the connection permit:
    the member a request is sent to may take it, and exactly one connection is
    counted for it. *)
From Stdlib Require Import ZArith Lia.
From stdpp Require Import base list numbers strings sets gmap.
From S2P Require Import Prelude Text NetAddr LbRetry LbBackend LbState LbPolicy LbSelect LbMaglev LbKetama LbCookie LbPersistence LbBalancer LbFrame LbSelectProps.

(** ** Steps that only prepare *)

Section Prepare.
Context `{Env} `{CookieEnv} `{KetamaEnv}.

Lemma framed_on_table {A} (f : Z -> gmap (list Z) PersistenceEntry -> A * gmap (list Z) PersistenceEntry) :
  framed (on_table f).
Proof. unfold on_table. framed_tac. Qed.
Lemma framed_key_ring : framed key_ring_rotated.
Proof. unfold key_ring_rotated, rotate_if_due. framed_tac. Qed.
#[local] Hint Resolve framed_on_table framed_key_ring : framed.
Lemma framed_managed_cookie_key request name : framed (managed_cookie_key request name).
Proof. unfold managed_cookie_key, verify_keys. framed_tac. Qed.
Lemma framed_new_managed_cookie config : framed (new_managed_cookie config).
Proof. unfold new_managed_cookie, managed_cookie_token, current_key. framed_tac. Qed.
#[local] Hint Resolve framed_managed_cookie_key framed_new_managed_cookie : framed.
Lemma framed_persistence_key s request ip : framed (persistence_key s request ip).
Proof. unfold persistence_key. framed_tac. Qed.
Lemma framed_lookup_persistence key : framed (lookup_persistence key).
Proof. apply framed_on_table. Qed.
Lemma framed_record_persistence s key b : framed (record_persistence s key b).
Proof. apply framed_on_table. Qed.
Lemma framed_currently_ejected key : framed (key_is_currently_ejected key).
Proof. unfold key_is_currently_ejected. framed_tac. Qed.
#[local] Hint Resolve framed_persistence_key framed_lookup_persistence framed_record_persistence
  framed_currently_ejected : framed.
Lemma framed_not_ejected p key : framed (not_currently_ejected p key).
Proof. unfold not_currently_ejected. framed_tac. Qed.
Lemma framed_slow_read_only p b : framed (slow_start_permits_read_only p b).
Proof. unfold slow_start_permits_read_only. framed_tac. Qed.
#[local] Hint Resolve framed_not_ejected framed_slow_read_only : framed.
Lemma framed_available bal b : framed (backend_available_for_persistence bal b).
Proof. unfold backend_available_for_persistence. framed_tac. Qed.
Lemma framed_remember bal key selected : framed (remember bal key selected).
Proof. unfold remember. framed_tac. Qed.

(** Counters are unsigned. *)
Definition counts_ok (w : World) : Prop := forall key, 0 <= count_of w key.
Lemma counts_ok_frame w w' : frame w w' -> counts_ok w -> counts_ok w'.
Proof. intros Hf Hc key. by rewrite (fr_counts _ _ Hf). Qed.

Lemma lookup_retain {V} (keep : Z -> V -> bool) (m : gmap Z V) key :
  retain keep m !! key = match m !! key with Some v => if keep key v then Some v else None | None => None end.
Proof.
  unfold retain. destruct (m !! key) as [v |] eqn:E; [destruct (keep key v) eqn:Ek |].
  - by apply map_lookup_filter_Some.
  - apply map_lookup_filter_None. right. intros v' Hv'. simpl. congruence.
  - apply map_lookup_filter_None. by left.
Qed.
Lemma counts_prune_frame live w : counts_ok w -> frame w (counts_prune_stale live w).2.
Proof.
  intros Hc. split; try done. intros key. specialize (Hc key). revert Hc.
  unfold count_of, counts_prune_stale, modify. simpl. rewrite lookup_retain.
  destruct (w_counts w !! key) as [n |]; [| done]. simpl. intros Hn.
  destruct (_ || _) eqn:E; [done |]. breflect. simpl. lia.
Qed.
Lemma framed_passive_prune live : framed (passive_prune_stale live).
Proof.
  intros w. unfold passive_prune_stale. rewrite bind_run. split; simpl; [lia | done | |];
    intros key; unfold ejection; simpl; rewrite lookup_retain.
  - intros u E Hb. destruct (w_passive w !! key) as [st |]; [| done]. simpl in E. rewrite E.
    specialize (Hb (w_tick w)). simpl in Hb. rewrite (proj2 (Z.ltb_lt _ _)) by (apply Hb; lia).
    by rewrite orb_true_r.
  - intros E. destruct (w_passive w !! key) as [st |]; [| done]. simpl in *. case_match; done.
Qed.
Lemma framed_when b m : framed m -> framed (when b m).
Proof. intros Hm. destruct b; [done | apply framed_ret]. Qed.
Lemma prune_rest_framed bal live :
  framed (when (bool_decide (is_Some (bl_persistence bal))) (prune_stale_for_live_backends live) ;;;
          when (bool_decide (is_Some (pl_passive (bl_pool bal)))) (passive_prune_stale live) ;;;
          when (bool_decide (is_Some (pl_slow_start (bl_pool bal)))) (slow_prune_stale live) ;;;
          when (has_latency bal) (latency_prune_stale live) ;;;
          ret (set_policy (policy_prune_stale live (pl_policy (bl_pool bal))) bal)).
Proof.
  repeat (apply framed_bind; [apply framed_when | intros _]);
    [apply framed_on_table | apply framed_passive_prune | apply framed_set_slow | apply framed_set_latency | apply framed_ret].
Qed.

(** The pool after a prune: the policy has forgotten members that are gone. *)
Definition pruned (bal : Balancer) : Balancer :=
  set_policy (policy_prune_stale (live_backend_keys bal) (pl_policy (bl_pool bal))) bal.
Lemma prune_run bal w :
  counts_ok w ->
  frame w (prune_stale_backend_state bal w).2 /\ (prune_stale_backend_state bal w).1 = pruned bal.
Proof.
  intros Hc. split.
  - unfold prune_stale_backend_state. rewrite bind_run.
    transitivity (counts_prune_stale (live_backend_keys bal) w).2; [by apply counts_prune_frame |].
    apply prune_rest_framed.
  - unfold prune_stale_backend_state. by repeat (rewrite bind_run; simpl).
Qed.
End Prepare.

(** ** Pruning changes nothing for the members of the pool *)

Lemma live_keys_elem bal b : b ∈ backends (bl_pool bal) -> backend_key b ∈ live_backend_keys bal.
Proof. intros Hb. apply elem_of_list_to_set, list_elem_of_fmap. by exists b. Qed.
Lemma pruned_drained live q key : key ∈ live -> policy_drained (policy_prune_stale live q) key = policy_drained q key.
Proof.
  intros Hk. unfold policy_drained, overrides_drained. cbn [p_drain policy_prune_stale set_runtime p_runtime
    overrides_prune_stale ov_drain]. f_equal. apply bool_decide_ext. rewrite elem_of_filter. tauto.
Qed.
Lemma pruned_permits live q key pass :
  key ∈ live -> permits_statically (policy_prune_stale live q) key pass = permits_statically q key pass.
Proof. intros Hk. unfold permits_statically. rewrite pruned_drained by done. reflexivity. Qed.

Section Pruned.
Context (bal : Balancer).
Lemma pruned_eligible w pass b :
  b ∈ backends (bl_pool bal) -> eligible (bl_pool (pruned bal)) w pass b = eligible (bl_pool bal) w pass b.
Proof.
  intros Hb. unfold eligible. f_equal. f_equal. apply pruned_permits. by apply live_keys_elem.
Qed.
Lemma pruned_healthy_count w : healthy_count (bl_pool (pruned bal)) w = healthy_count (bl_pool bal) w.
Proof.
  unfold healthy_count. f_equal. change (backends (bl_pool (pruned bal))) with (backends (bl_pool bal)).
  apply filter_ext_in. intros b Hb. unfold healthy_in. by rewrite pruned_eligible.
Qed.
End Pruned.

(** ** The algorithms *)

Section Algorithms.
Context `{Env} `{CookieEnv} `{KetamaEnv}.

Lemma inner_select_admissible bal key sessions :
  selects_admissible (bl_pool bal) (inner_select bal key sessions).
Proof.
  unfold inner_select. destruct (bl_algorithm bal); apply by_passes_admissible; intros pass.
  - apply vouches_round_robin.
  - apply vouches_least. intros. unfold connections_score. framed_tac.
  - apply vouches_least. intros. unfold sessions_score. framed_tac.
  - apply vouches_least. intros. unfold time_score, latency_score, connections_score. framed_tac.
  - apply vouches_power_of_two.
  - apply vouches_fnv.
  - apply vouches_consistent.
  - apply vouches_table. intros. by eapply backend_with_key_elem.
  - apply vouches_bounded.
  - apply vouches_table. intros. by eapply backend_by_key_elem.
Qed.
End Algorithms.

(** ** Admission *)

Section Admission.
Context `{Env} `{CookieEnv} `{KetamaEnv}.

(** The member may take a request of the interval from [w] to [w']. *)
Record may_take (p : Pool) (w w' : World) (b : FluxBackend) : Prop := mkMayTake {
  mt_member : b ∈ backends p;
  mt_ready : snapshot_ready (pl_runtime p) b = true;
  mt_enabled : policy_disabled (pl_policy p) (backend_key b) = false;
  mt_undrained : policy_drained (pl_policy p) (backend_key b) = false;
  mt_ejection : ejection_ok p w w' b;
}.
(** ... and it took exactly one. *)
Record admitted (p : Pool) (w w' : World) (b : FluxBackend) : Prop := mkAdmitted {
  ad_tick : (w_tick w <= w_tick w')%nat;
  ad_take : may_take p w w' b;
  ad_count : count_of w' (backend_key b) = count_of w (backend_key b) + 1;
  ad_limit : forall limit, p_max_in_flight (pl_policy p) !! backend_key b = Some limit ->
             count_of w' (backend_key b) <= limit;
  ad_others : forall key, key <> backend_key b -> count_of w' key = count_of w key;
}.

Lemma permits_statically_enabled q key pass :
  permits_statically q key pass = true -> policy_disabled q key = false /\ policy_drained q key = false.
Proof. unfold permits_statically. intros E. by breflect. Qed.
Lemma admissible_may_take bal w w' pass b :
  b ∈ backends (bl_pool bal) -> admissible (bl_pool bal) w w' pass b -> may_take (bl_pool bal) w w' b.
Proof.
  intros Hb [He Ho]. unfold eligible in He. breflect.
  destruct (permits_statically_enabled _ _ _ H4). by split.
Qed.
Lemma may_take_pruned bal w w' b : may_take (bl_pool (pruned bal)) w w' b -> may_take (bl_pool bal) w w' b.
Proof.
  intros [Hm Hr He Hu Ho]. split; [done | done | exact He | |].
  - rewrite <- Hu. symmetry. apply pruned_drained. by apply live_keys_elem.
  - intros health u Hp E Hb. specialize (Ho health u Hp E Hb). by rewrite pruned_healthy_count in Ho.
Qed.
Lemma may_take_extend p w0 w w' w1 b :
  frame w0 w -> frame w w' -> frame w' w1 -> may_take p w w' b -> may_take p w0 w1 b.
Proof.
  intros F0 F F1 [Hm Hr He Hu Ho]. split; [done .. |]. intros health u Hp E Hb.
  pose proof (fr_tick _ _ F0). pose proof (fr_tick _ _ F). pose proof (fr_tick _ _ F1).
  pose proof (healthy_count_frame p _ _ F0).
  assert (healthy_count p w < min_healthy_backends health); [| lia].
  apply (Ho health u Hp).
  - apply (fr_kept _ _ F0); [done |]. eapply before_sub; [| | exact Hb]; lia.
  - eapply before_sub; [| | exact Hb]; lia.
Qed.

(** The permit counts one connection, or changes nothing. *)
Lemma permit_run b limit w :
  let '(ok, w') := permit b limit w in
  if ok : bool
  then w_tick w' = w_tick w /\ (forall key, ejection w' key = ejection w key)
       /\ (forall l, limit = Some l -> count_of w (backend_key b) < l)
       /\ count_of w' (backend_key b) = count_of w (backend_key b) + 1
       /\ forall key, key <> backend_key b -> count_of w' key = count_of w key
  else frame w w'.
Proof.
  unfold permit. rewrite bind_run, connections_run. simpl.
  pose proof (framed_connections b w) as F. rewrite connections_run in F. simpl in F.
  destruct limit as [l |]; [case Z.leb_spec; intros Hl; [exact F |] |].
  all: destruct (checked_add _ _ 1) as [next |] eqn:En; [| exact F].
  all: unfold checked_add in En; branches En; simpl; split_and!; try done.
  all: try (intros l' [= <-]; done).
  all: unfold count_of; simpl; try (by rewrite lookup_insert_eq).
  all: intros key Hk; rewrite lookup_insert_ne by done; apply (count_of_counter_entry w b key).
Qed.

Lemma admitted_intro p w w1 w2 w3 b :
  frame w w1 -> may_take p w w1 b ->
  permit b (p_max_in_flight (pl_policy p) !! backend_key b) w1 = (true, w2) -> frame w2 w3 ->
  admitted p w w3 b.
Proof.
  intros F1 Ht Ep F3. pose proof (permit_run b (p_max_in_flight (pl_policy p) !! backend_key b) w1) as Hp.
  rewrite Ep in Hp. destruct Hp as (Htick & Hej & Hlim & Hcount & Hothers). split.
  - pose proof (fr_tick _ _ F1). pose proof (fr_tick _ _ F3). lia.
  - destruct Ht as [Hm Hr He Hu Ho]. split; [done .. |]. intros health u Hp E Hb. apply (Ho health u Hp E).
    pose proof (fr_tick _ _ F3). eapply before_sub; [| | exact Hb]; lia.
  - rewrite (fr_counts _ _ F3), Hcount, (fr_counts _ _ F1). done.
  - intros limit El. specialize (Hlim limit El). rewrite (fr_counts _ _ F3). lia.
  - intros key Hk. by rewrite (fr_counts _ _ F3), Hothers, (fr_counts _ _ F1).
Qed.

(** A step of a selection: nothing happened to the counts, or one member was
    admitted. *)
Definition admits (p : Pool) (w : World) (r : option SelectedUpstream) (w' : World) : Prop :=
  match r with
  | None => frame w w'
  | Some selected => admitted p w w' (su_backend selected)
  end.
Lemma prepare_selected_admits bal b outcome w w1 :
  frame w w1 -> may_take (bl_pool bal) w w1 b ->
  admits (bl_pool bal) w (prepare_selected bal b outcome w1).1 (prepare_selected bal b outcome w1).2
  /\ forall s, (prepare_selected bal b outcome w1).1 = Some s ->
     su_backend s = b /\ forall w', frame (prepare_selected bal b outcome w1).2 w' -> admitted (bl_pool bal) w w' b.
Proof.
  intros F1 Ht. unfold prepare_selected. rewrite bind_run.
  set (limit := p_max_in_flight (pl_policy (bl_pool bal)) !! backend_key b).
  pose proof (permit_run b limit w1) as Hp.
  destruct (permit b limit w1) as [[] w2] eqn:Ep; simpl.
  - split; [by eapply admitted_intro; [.. | reflexivity] |].
    intros s [= <-]. split; [done |]. intros w' F'. by eapply admitted_intro.
  - split; [by transitivity w1 | done].
Qed.

Lemma prepare_selected_some bal b outcome w :
  below_limit (bl_pool bal) w (backend_key b) = true -> count_of w (backend_key b) < USIZE_MAX ->
  exists s, (prepare_selected bal b outcome w).1 = Some s
    /\ su_backend s = b /\ su_persistence_outcome s = outcome.
Proof.
  intros Hl Hm. unfold prepare_selected, permit. rewrite !bind_run, connections_run. simpl.
  unfold below_limit in Hl. unfold checked_add.
  destruct (p_max_in_flight _ !! _); breflect; zcond; rewrite bind_run; simpl; eauto.
Qed.

Lemma admits_frame p w w1 r w' : frame w w1 -> admits p w1 r w' -> admits p w r w'.
Proof.
  intros F1. pose proof (fr_tick _ _ F1). destruct r as [s |]; simpl; [| by transitivity w1].
  intros [Hti Ht Hc Hl Ho]. split; [lia | | by rewrite Hc, (fr_counts _ _ F1) | done
    | intros; by rewrite Ho, (fr_counts _ _ F1)].
  destruct Ht as [Hm Hr He Hu Hej]. split; [done .. |]. intros health u Hp E Hb.
  pose proof (healthy_count_frame p _ _ F1).
  assert (healthy_count p w1 < min_healthy_backends health); [| lia].
  apply (Hej health u Hp).
  - apply (fr_kept _ _ F1); [done |]. eapply before_sub; [| | exact Hb]; lia.
  - eapply before_sub; [| | exact Hb]; lia.
Qed.
Lemma admits_pruned bal w r w' : admits (bl_pool (pruned bal)) w r w' -> admits (bl_pool bal) w r w'.
Proof. destruct r as [s |]; [| done]. intros [Hti Ht Hc Hl Ho]. split; [done | by apply may_take_pruned | done ..]. Qed.

(** A client that comes back. *)
Lemma currently_ejected_over key w u :
  (key_is_currently_ejected key w).1 = false -> ejection w key = Some u ->
  ~ before w (key_is_currently_ejected key w).2 u.
Proof.
  unfold key_is_currently_ejected. rewrite bind_run. simpl. unfold ejection. intros E Eu. revert E. rewrite Eu.
  rewrite bind_run. simpl. case Z.ltb_spec; intros Hlt E; [done |]. intros Hb.
  specialize (Hb (w_tick w)). simpl in Hb. lia.
Qed.
Lemma and_then_state a b w : (a w).1 = true -> (and_then a b w).2 = (b (a w).2).2.
Proof. intros E. unfold and_then. by rewrite bind_run, E. Qed.
Lemma not_ejected_ok p b w :
  (not_currently_ejected p (backend_key b) w).1 = true ->
  ejection_ok p w (not_currently_ejected p (backend_key b) w).2 b.
Proof.
  unfold not_currently_ejected. intros E health u Hp Eu Hb. exfalso. rewrite Hp, bind_run in *. simpl in *.
  breflect. by eapply currently_ejected_over.
Qed.
Lemma available_may_take bal b w :
  b ∈ backends (bl_pool bal) ->
  (backend_available_for_persistence bal b w).1 = true ->
  may_take (bl_pool bal) w (backend_available_for_persistence bal b w).2 b.
Proof.
  intros Hb. unfold backend_available_for_persistence. destruct (snapshot_ready _ b) eqn:Er; [| done].
  rewrite !and_then_run. simpl. intros E. apply andb_true_iff in E as [E1 E2]. rewrite and_then_state by done.
  pose proof (not_ejected_ok _ _ _ E1) as Hej. set (w1 := (not_currently_ejected _ _ w).2) in *.
  match goal with |- may_take _ _ (?m w1).2 _ => assert (F2 : frame w1 (m w1).2) end.
  { apply framed_and_then; [apply framed_slow_read_only | framed_tac]. }
  breflect. split; [done .. |]. intros health u Hp Eu Hbef. apply (Hej health u Hp Eu).
  pose proof (fr_tick _ _ F2). eapply before_sub; [| | exact Hbef]; [done | lia].
Qed.

Lemma select_persisted_admits bal key w :
  admits (bl_pool bal) w (select_persisted bal key w).1 (select_persisted bal key w).2.
Proof.
  unfold select_persisted. destruct (backend_with_key _ key) as [b |] eqn:Ek; [| simpl; reflexivity].
  apply backend_with_key_elem in Ek as [Hb _]. rewrite bind_run.
  pose proof (framed_available bal b w) as F1.
  destruct ((backend_available_for_persistence bal b w).1) eqn:Ea; [| exact F1].
  apply prepare_selected_admits; [done | by apply available_may_take].
Qed.

Lemma remember_backend bal key s w : su_backend (remember bal key s w).1 = su_backend s.
Proof. unfold remember. repeat (case_match || rewrite bind_run || done). Qed.

Lemma framed_sessions bal pk : framed (fresh_sessions bal pk).
Proof. unfold fresh_sessions, runtime_counts, runtime_counts_for_live_backends. framed_tac. Qed.
Lemma select_now_admits bal request ip pk outcome w :
  admits (bl_pool bal) w (select_now bal request ip pk outcome w).1 (select_now bal request ip pk outcome w).2.
Proof.
  unfold select_now. rewrite bind_run. pose proof (framed_sessions bal pk w) as F1.
  set (sessions := (fresh_sessions bal pk w).1). set (w1 := (fresh_sessions bal pk w).2) in *.
  set (key := request_key _ _ _). rewrite bind_run.
  destruct (inner_select_admissible bal key sessions w1) as [F2 Hsafe].
  destruct ((inner_select bal key sessions w1).1) as [b |] eqn:Eb; [| simpl; by transitivity w1].
  destruct (Hsafe b eq_refl) as (pass & _ & Hb & Ha). set (w2 := (inner_select bal key sessions w1).2) in *.
  assert (Ht : may_take (bl_pool bal) w w2 b).
  { eapply (may_take_extend (bl_pool bal) w w1 w2 w2); [done | done | reflexivity | by eapply admissible_may_take]. }
  rewrite bind_run.
  destruct (prepare_selected_admits bal b outcome w w2) as [Hp Hs]; [by transitivity w1 | done |].
  destruct ((prepare_selected bal b outcome w2).1) as [s |] eqn:Es; [| done].
  destruct (Hs s eq_refl) as [<- Hadm]. rewrite bind_run. simpl.
  rewrite remember_backend. apply Hadm, framed_remember.
Qed.

Lemma select_fresh_admits bal request ip pk outcome w :
  counts_ok w ->
  let r := select_fresh bal request ip pk outcome w in admits (bl_pool bal) w r.1.1 r.2.
Proof.
  intros Hc. unfold select_fresh, prune_stale_backend_state_periodically.
  set (bal1 := set_prune_counter _ bal). rewrite bind_run. destruct (negb _); rewrite bind_run; simpl.
  - apply (select_now_admits bal1).
  - destruct (prune_run bal1 w Hc) as [F1 E]. rewrite E. eapply admits_frame; [exact F1 |].
    apply (admits_pruned bal1), select_now_admits.
Qed.

Lemma select_run_admits bal request ip w :
  counts_ok w -> let r := select bal request ip w in admits (bl_pool bal) w r.1.1 r.2.
Proof.
  intros Hc. unfold select. rewrite bind_run.
  match goal with |- context [(?m w).2] => assert (F1 : frame w (m w).2) end.
  { destruct (bl_persistence bal); [apply framed_persistence_key | apply framed_ret]. }
  match goal with |- context [(?m w).1] => destruct ((m w).1) as [key |] end.
  2:{ eapply admits_frame; [exact F1 | apply select_fresh_admits; by eapply counts_ok_frame]. }
  eapply admits_frame; [exact F1 |]. apply (counts_ok_frame _ _ F1) in Hc.
  match goal with F : frame w ?x |- _ => generalize dependent x end. intros w1 Hc _.
  rewrite bind_run. pose proof (framed_lookup_persistence key w1) as F2.
  eapply admits_frame; [exact F2 |]. apply (counts_ok_frame _ _ F2) in Hc.
  destruct ((lookup_persistence key w1).1) as [known |]; [| by apply select_fresh_admits].
  generalize dependent ((lookup_persistence key w1).2). intros w2 Hc _. rewrite bind_run.
  pose proof (select_persisted_admits bal known w2) as Hp.
  destruct ((select_persisted bal known w2).1) as [s |]; simpl in *; [done |].
  eapply admits_frame; [exact Hp | apply select_fresh_admits; by eapply counts_ok_frame].
Qed.

(** C8: Whatever the request, the algorithm and the state, a selection either
    leaves all connection counts alone, or returns a member of the current
    snapshot that is ready, neither disabled nor drained nor excluded, whose
    count it raised by exactly one, to at most its limit; the member is one
    that stays ejected only when fewer than [min_healthy_backends] members are
    left that are eligible and not ejected. *)
Theorem selection_safe (bal : Balancer) (request : RequestView) (client_ip : option IpAddr) (w : World) :
  counts_ok w ->
  let p := bl_pool bal in
  let r := select bal request client_ip w in
  match r.1.1 with
  | None => forall key, count_of r.2 key = count_of w key
  | Some selected =>
      let b := su_backend selected in
      let key := backend_key b in
      b ∈ backends p /\ snapshot_ready (pl_runtime p) b = true
      /\ policy_disabled (pl_policy p) key = false /\ policy_drained (pl_policy p) key = false
      /\ count_of r.2 key = count_of w key + 1
      /\ (forall limit, p_max_in_flight (pl_policy p) !! key = Some limit -> count_of r.2 key <= limit)
      /\ (forall other, other <> key -> count_of r.2 other = count_of w other)
      /\ (forall health until, pl_passive p = Some health -> ejection w key = Some until ->
            before w r.2 until -> healthy_count p w < min_healthy_backends health)
  end.
Proof.
  intros Hc. pose proof (select_run_admits bal request client_ip w Hc) as Ha. cbv zeta in *.
  destruct (select bal request client_ip w) as [[[s |] bal'] w']; simpl in *; [| apply Ha].
  destruct Ha as [_ [Hm Hr He Hu Ho] Hn Hl Hs]. by split_and!.
Qed.
End Admission.

#[local] Existing Instance sample_cookie_clock.
#[local] Existing Instance sample_cookie_env.
#[local] Existing Instance sample_env.
Lemma small_counts key : count_of small_world key = 0 \/ count_of small_world key = 1.
Proof. unfold count_of. cbn [w_counts small_world]. rewrite lookup_singleton. case_decide; [by right | by left]. Qed.
Lemma small_counts_ok : counts_ok small_world.
Proof. intros key. destruct (small_counts key) as [-> | ->]; lia. Qed.
Lemma selection_safe_witness :
  let bal := small_balancer LeastConnections None in
  let r := select bal plain_request None small_world in
  count_of r.2 (backend_key first_member) = count_of small_world (backend_key first_member) + 1.
Proof.
  intros bal r. pose proof (selection_safe bal plain_request None small_world small_counts_ok) as Hs.
  assert (E : (su_backend <$> r.1.1) = Some first_member) by (vm_compute; reflexivity).
  cbv zeta in Hs. fold r in Hs. destruct (r.1.1) as [s |]; [| discriminate].
  cbn in E. injection E as E. rewrite E in Hs. apply Hs.
Defined.
