(* ===== verification/LbServes.v ===== *)
(** * A member is found whenever there is one

    The algorithms that consider every member return one as long as a member
    is ready, permitted in a pass that ignores slow start, below its limit and
    not ejected; so does the whole selection. *)
From Stdlib Require Import ZArith Lia.
From stdpp Require Import base list numbers strings sets gmap sorting.
From S2P Require Import Prelude Text NetAddr LbRetry LbBackend LbState LbPolicy LbSelect LbMaglev LbKetama LbCookie LbPersistence LbBalancer LbFrame LbSelectProps LbBalancerProps.

Section Finds.
Context `{Env} (p : Pool) (pass : SelectionPass) (Hfast : no_slow_start p pass).

(** A member that every test of the pass lets through, now and later. *)
Definition certain (w : World) (b : FluxBackend) : Prop :=
  b ∈ backends p /\ eligible p w pass b = true /\ ejection w (backend_key b) = None.
Lemma certain_frame w w' b : frame w w' -> certain w b -> certain w' b.
Proof.
  intros F (Hb & He & Hn). split_and!; [done | by rewrite (eligible_frame p w w') | by apply (fr_none _ _ F)].
Qed.
Lemma certain_allowed w b : certain w b -> (backend_candidate_allowed p b pass w).1 = true.
Proof using Hfast.
  intros (Hb & He & Hn). unfold backend_candidate_allowed. rewrite and_then_run, base_allowed_fast by done.
  rewrite He. simpl. unfold passive_health_candidate_allowed. destruct (pl_passive p); [| done].
  rewrite bind_run, is_ejected_none; [done |]. by apply (fr_none _ _ (framed_base_allowed p b pass false w)).
Qed.

Definition finds (m : M (option FluxBackend)) : Prop :=
  framed m /\ forall w b, certain w b -> is_Some (m w).1.

Lemma candidates_in_certain {S} (score : FluxBackend -> M S) l w b :
  (forall c, framed (score c)) -> certain w b -> b ∈ l -> b ∈ (candidates_in p score pass l w).1.*1.
Proof using Hfast.
  intros Hs. revert w. induction l as [| c l IH]; intros w Hc Hb; [by apply not_elem_of_nil in Hb |]. simpl.
  pose proof (framed_allowed p c pass w) as F1. rewrite bind_run.
  apply (certain_frame _ _ _ F1) in Hc as Hc1.
  destruct (decide (b = c)) as [-> | Hne].
  - rewrite (certain_allowed w c Hc). rewrite !bind_run. simpl. by left.
  - apply elem_of_cons in Hb as [? | Hb]; [done |].
    destruct ((backend_candidate_allowed p c pass w).1); [| by apply IH]. rewrite !bind_run. simpl. right. apply IH; [| done].
    by eapply certain_frame; [apply Hs |].
Qed.
Lemma framed_candidates {S} (score : FluxBackend -> M S) l :
  (forall c, framed (score c)) -> framed (candidates_in p score pass l).
Proof. intros Hs. induction l; simpl; framed_tac. Qed.

Lemma scan_min_some {S} (lower : S -> S -> bool) l x : x ∈ l -> is_Some (scan_min lower l).
Proof.
  unfold scan_min. destruct l as [| y l _] using rev_ind; [by intros ?%not_elem_of_nil |]. intros _.
  rewrite foldl_snoc. repeat case_match; eauto.
Qed.
Lemma finds_least {S} (score : FluxBackend -> M S) lower :
  (forall c, framed (score c)) -> finds (least_pass p score lower pass).
Proof using Hfast.
  intros Hs. split.
  - unfold least_pass, candidates. apply framed_bind; [by apply framed_candidates | intros; framed_tac].
  - intros w b Hc. unfold least_pass. rewrite bind_run. simpl. apply fmap_is_Some.
    destruct (Hc) as (Hb & _). pose proof (candidates_in_certain score (backends p) w b Hs Hc Hb) as Hin.
    apply list_elem_of_fmap in Hin as (x & _ & Hx). by eapply scan_min_some.
Qed.

(** The weights of a non-empty list name a member for every target. *)
Lemma total_weight_sum l acc :
  Forall (fun c : FluxBackend * Z => 1 <= c.2) l -> 0 <= acc ->
  foldl (fun total c => saturating_add USIZE_MAX total c.2) acc l <= acc + weight_sum l.
Proof.
  revert acc. induction l as [| c l IH]; intros acc Hl Ha; simpl; [lia |].
  apply Forall_cons in Hl as [Hc Hl]. unfold weight_sum in *. cbn [foldr].
  assert (0 <= saturating_add USIZE_MAX acc c.2 <= acc + c.2) by ulia.
  specialize (IH (saturating_add USIZE_MAX acc c.2) Hl). lia.
Qed.
Lemma total_weight_pos l acc :
  Forall (fun c : FluxBackend * Z => 1 <= c.2) l -> 0 <= acc -> (l <> [] \/ 0 < acc) ->
  0 < foldl (fun total c => saturating_add USIZE_MAX total c.2) acc l.
Proof.
  revert acc. induction l as [| c l IH]; intros acc Hl Ha Hne; simpl; [destruct Hne; [done | lia] |].
  apply Forall_cons in Hl as [Hc Hl]. apply IH; [done | ulia | right; ulia].
Qed.

Lemma effective_weight_pos q b : 1 <= effective_weight q b.
Proof. unfold effective_weight. lia. Qed.
Lemma candidates_weights l w :
  Forall (fun c => 1 <= c.2)
    (candidates_in p (fun b => ret (effective_weight (pl_policy p) b)) pass l w).1.
Proof.
  revert w. induction l as [| c l IH]; intros w; simpl; [constructor |]. rewrite bind_run.
  destruct ((backend_candidate_allowed p c pass w).1); [| apply IH].
  rewrite !bind_run. simpl. constructor; [apply effective_weight_pos | apply IH].
Qed.
Lemma finds_round_robin : finds (weighted_round_robin_pass p pass).
Proof using Hfast.
  assert (Hs : forall b, framed (ret (effective_weight (pl_policy p) b))) by (intros; framed_tac).
  split.
  - unfold weighted_round_robin_pass, candidates. apply framed_bind; [by apply framed_candidates |].
    intros l. framed_tac.
  - intros w b Hc. destruct (Hc) as (Hb & _). unfold weighted_round_robin_pass, candidates. rewrite bind_run.
    pose proof (candidates_in_certain _ (backends p) w b Hs Hc Hb) as Hin.
    pose proof (candidates_weights (backends p) w) as Hw.
    set (l := (candidates_in _ _ _ _ w).1) in *.
    assert (Hne : l <> []) by (intros E; rewrite E in Hin; by apply not_elem_of_nil in Hin).
    pose proof (total_weight_pos l 0 Hw ltac:(lia) (or_introl Hne)) as Hpos.
    pose proof (total_weight_sum l 0 Hw ltac:(lia)) as Hsum.
    change (total_weight id l) with (foldl (fun total c => saturating_add USIZE_MAX total c.2) 0 l).
    set (total := foldl _ 0 l) in *. zcond. rewrite !bind_run. simpl.
    apply pick_some; [done |]. pose proof (Z.mod_pos_bound (w_cursor (candidates_in p
      (fun b0 => ret (effective_weight (pl_policy p) b0)) pass (backends p) w).2) total). lia.
Qed.

(** Scans of a list that contains the member. *)
Lemma find_first_some {A} (ok : A -> M bool) l a w :
  (forall x, framed (ok x)) -> a ∈ l -> (forall w', frame w w' -> (ok a w').1 = true) ->
  is_Some (find_first ok l w).1.
Proof.
  intros Hf. revert w. induction l as [| x l IH]; intros w Ha Hok; [by apply not_elem_of_nil in Ha |]. simpl.
  rewrite bind_run. destruct ((ok x w).1) eqn:E; [eauto |].
  apply elem_of_cons in Ha as [-> | Ha].
  - rewrite Hok in E; [done | reflexivity].
  - apply IH; [done |]. intros w' F'. apply Hok. by transitivity (ok x w).2; [apply Hf |].
Qed.
Lemma framed_find_first {A} (ok : A -> M bool) l : (forall x, framed (ok x)) -> framed (find_first ok l).
Proof. intros Hf. induction l; simpl; framed_tac. Qed.
Lemma framed_consistent_pass key n bound : framed (consistent_hash_pass p key n bound pass).
Proof.
  apply framed_find_first. intros b. apply framed_and_then; [framed_tac |].
  destruct bound; [apply framed_bounded_permits | framed_tac].
Qed.
Lemma finds_consistent key n : zlen (backends p) <= n -> finds (consistent_hash_pass p key n None pass).
Proof using Hfast.
  intros Hn. split; [apply framed_consistent_pass |]. intros w b Hc. destruct (Hc) as (Hb & _).
  unfold consistent_hash_pass. apply (find_first_some _ _ b).
  - intros x. framed_tac.
  - assert (Hlen : zlen (consistent_hash_candidates p key) = zlen (backends p)).
    { unfold consistent_hash_candidates, zlen. by rewrite length_fmap, merge_sort_Permutation, length_fmap. }
    unfold ztake. rewrite take_ge; [by apply consistent_hash_candidates_elem |].
    unfold zlen in *. lia.
  - intros w' F'. rewrite and_then_run, certain_allowed; [done |]. by eapply certain_frame.
Qed.
Lemma finds_bounded key n factor : zlen (backends p) <= n -> finds (bounded_load_pass p key n factor pass).
Proof using Hfast.
  intros Hn. destruct (finds_consistent key n Hn) as [Hf Hfind]. split.
  - unfold bounded_load_pass, bounded_load_snapshot. pose proof (framed_bounded_totals p pass).
    pose proof framed_consistent_pass. framed_tac.
  - intros w b Hc. unfold bounded_load_pass. rewrite bind_run.
    assert (F1 : frame w (bounded_load_snapshot p pass factor w).2).
    { unfold bounded_load_snapshot. apply framed_bind; [apply framed_bounded_totals | intros; framed_tac]. }
    apply (certain_frame _ _ _ F1) in Hc.
    destruct ((bounded_load_snapshot p pass factor w).1) as [bound |]; [| by eapply Hfind]. rewrite bind_run.
    match goal with |- context [match ?r with Some _ => _ | None => _ end] => destruct r end; [simpl; eauto |]. eapply Hfind. eapply certain_frame; [apply framed_consistent_pass | done].
Qed.

(** Two random choices: the scan after them goes once around. *)
Lemma certain_key w b c :
  certain w b -> c ∈ backends p -> backend_key c = backend_key b -> certain w c.
Proof.
  intros (_ & He & Hn) Hc Ek. unfold certain, eligible, snapshot_ready in *. rewrite Ek. done.
Qed.
Lemma framed_random_candidate excluded seen c : framed (random_candidate_allowed p pass excluded seen c).
Proof. unfold random_candidate_allowed. framed_tac. Qed.
Lemma random_candidate_seen seen c w b :
  c ∈ backends p -> certain w b -> backend_key b ∉ seen ->
  (random_candidate_allowed p pass None seen c w).1.1 = true
  \/ ((backend_key b ∉ (random_candidate_allowed p pass None seen c w).1.2) /\ b <> c).
Proof using Hfast.
  intros Hc Hb Hs. unfold random_candidate_allowed. rewrite bool_decide_eq_false_2 by done.
  case_bool_decide as Hin; [right; simpl; split; [done | by intros ->] |]. rewrite bind_run. simpl.
  destruct ((backend_candidate_allowed p c pass w).1) eqn:Ea; [by left | right].
  assert (backend_key c <> backend_key b).
  { intros Ek. rewrite (certain_allowed w c) in Ea; [done |]. by eapply certain_key. }
  split; [set_solver | by intros ->].
Qed.
Lemma random_scan_some l seen w b :
  l ⊆ backends p -> b ∈ l -> certain w b -> backend_key b ∉ seen ->
  is_Some (random_scan p pass None l seen w).1.
Proof using Hfast.
  revert seen w. induction l as [| c l IH]; intros seen w Hl Hb Hc Hs; [by apply not_elem_of_nil in Hb |].
  simpl. rewrite bind_run. pose proof (framed_random_candidate None seen c w) as F1.
  destruct (random_candidate_seen seen c w b) as [-> | [Hs' Hne]]; [set_solver | done | done | simpl; eauto |].
  destruct ((random_candidate_allowed p pass None seen c w).1.1); [simpl; eauto |].
  apply IH; [set_solver | set_solver | by eapply certain_frame | done].
Qed.
Lemma rotate_take_all {A} (start n : Z) (l : list A) x : zlen l <= n -> x ∈ l -> x ∈ rotate_take start n l.
Proof.
  intros Hn Hx. unfold rotate_take, ztake, zdrop. rewrite <- (take_drop (Z.to_nat start) l) in Hx.
  assert (Hp : drop (Z.to_nat start) l ++ take (Z.to_nat start) l `prefix_of` drop (Z.to_nat start) l ++ l).
  { apply prefix_app, prefix_take. }
  destruct Hp as [k ->]. rewrite take_app, take_ge.
  - apply elem_of_app. left. rewrite elem_of_app in *. tauto.
  - rewrite length_app, length_drop, length_take. unfold zlen in Hn. lia.
Qed.
Lemma framed_random_scan excluded l seen : framed (random_scan p pass excluded l seen).
Proof. revert seen. induction l; intros seen; simpl; [framed_tac |]. apply framed_bind; [apply framed_random_candidate | intros; framed_tac]. Qed.
Lemma framed_random_choice n excluded : framed (select_weighted_random_candidate p n pass excluded).
Proof.
  unfold select_weighted_random_candidate. pose proof framed_random_scan. pose proof framed_random_candidate.
  framed_tac.
Qed.
Lemma weighted_indices_cover l b : b ∈ l -> weighted_backend_indices l <> [].
Proof.
  intros Hb. destruct l as [| c l]; [by apply not_elem_of_nil in Hb |]. unfold weighted_backend_indices. simpl.
  destruct (Z.to_nat (Z.max (weight c) 1)) eqn:E; [lia | done].
Qed.
Lemma zget_some {A} (l : list A) i : 0 <= i < zlen l -> is_Some (zget l i).
Proof. intros Hi. unfold zget. zcond. apply lookup_lt_is_Some. unfold zlen in Hi. lia. Qed.
Lemma weighted_indices_range l j : j ∈ weighted_backend_indices l -> 0 <= j < zlen l.
Proof.
  unfold weighted_backend_indices. intros (x & Hx & Hj)%elem_of_concat.
  apply elem_of_lookup_imap in Hx as (i & b & -> & Hi). apply elem_of_replicate in Hj as [-> _].
  apply lookup_lt_Some in Hi. unfold zlen. lia.
Qed.
Lemma weighted_choice l b r : b ∈ l -> is_Some (zget (weighted_backend_indices l) (r mod zlen (weighted_backend_indices l)) ≫= zget l).
Proof.
  intros Hb. pose proof (weighted_indices_cover l b Hb) as Hne.
  assert (0 < zlen (weighted_backend_indices l)).
  { unfold zlen. destruct (weighted_backend_indices l); [done | simpl; lia]. }
  destruct (zget_some (weighted_backend_indices l) (r mod zlen (weighted_backend_indices l))) as [j Ej].
  { by apply Z.mod_pos_bound. }
  rewrite Ej. simpl. apply zget_some, weighted_indices_range. by eapply zget_elem.
Qed.
Lemma random_choice_some n w b :
  zlen (backends p) <= n -> certain w b -> is_Some (select_weighted_random_candidate p n pass None w).1.
Proof using Hfast.
  intros Hn Hc. destruct (Hc) as (Hb & _). unfold select_weighted_random_candidate.
  rewrite (bool_decide_eq_false_2 (backends p = [])) by (intros E; rewrite E in Hb; by apply not_elem_of_nil in Hb).
  rewrite bool_decide_eq_false_2 by (by eapply weighted_indices_cover). cbn [orb]. rewrite bind_run.
  pose proof (framed_random_u64 w) as F1. apply (certain_frame _ _ _ F1) in Hc.
  destruct (weighted_choice (backends p) b (random_u64 w).1 Hb) as [c Ec]. rewrite Ec.
  apply weighted_elem in Ec. set (w1 := (random_u64 w).2) in *. rewrite bind_run.
  pose proof (framed_random_candidate None ∅ c w1) as F2.
  destruct (random_candidate_seen ∅ c w1 b) as [-> | [Hs _]]; [done | done | set_solver | simpl; eauto |].
  destruct ((random_candidate_allowed p pass None ∅ c w1).1.1); [simpl; eauto |]. rewrite bind_run.
  apply (random_scan_some _ _ _ b).
  - apply rotate_take_subseteq.
  - apply rotate_take_all; [| done]. destruct (backends p); unfold zlen in *; simpl in *; lia.
  - eapply certain_frame; [apply framed_random_u64 |]. by eapply certain_frame.
  - done.
Qed.
Lemma finds_power_of_two n : zlen (backends p) <= n -> finds (power_of_two_pass p n pass).
Proof using Hfast.
  intros Hn. split.
  - unfold power_of_two_pass. pose proof framed_random_choice. framed_tac.
  - intros w b Hc. unfold power_of_two_pass. rewrite bind_run.
    destruct (random_choice_some n w b Hn Hc) as [c ->]. rewrite !bind_run. case_match; simpl; eauto.
Qed.
End Finds.

(** ** The passes in order *)

Section Serves.
Context `{Env} `{CookieEnv} `{KetamaEnv}.

(** A pass that ignores slow start and whose priority group is always active. *)
Definition last_resort (p : Pool) (pass : SelectionPass) : Prop :=
  pass ∈ selection_passes p /\ ignore_slow_start pass = true
  /\ match minimum_priority_group pass with
     | None => True
     | Some group => is_lowest_priority_group (pl_policy p) group = true
     end.
Lemma last_resort_active p pass w :
  last_resort p pass -> (priority_activation_satisfied p pass w).1 = true.
Proof.
  intros (_ & _ & Hg). unfold priority_activation_satisfied. destruct (minimum_priority_group pass); [| done].
  by rewrite Hg, orb_true_r.
Qed.

Lemma try_passes_finds p f pass passes w b :
  (forall pass', framed (f pass')) -> last_resort p pass -> finds p pass (f pass) ->
  pass ∈ passes -> certain p pass w b -> is_Some (try_passes p f passes w).1.
Proof.
  intros Hf Hl [_ Hfind]. revert w. induction passes as [| q passes IH]; intros w Hin Hc;
    [by apply not_elem_of_nil in Hin |]. simpl. rewrite bind_run.
  pose proof (framed_activation p q w) as F1. apply (certain_frame _ _ _ _ _ F1) in Hc as Hc1.
  pose proof (last_resort_active p pass w Hl) as Hact.
  set (w1 := (priority_activation_satisfied p q w).2) in *.
  pose proof (Hf q w1) as F2. apply (certain_frame _ _ _ _ _ F2) in Hc1 as Hc2.
  apply elem_of_cons in Hin as [<- | Hin].
  - rewrite Hact, bind_run. destruct (Hfind w1 b Hc1) as [c ->]. simpl. eauto.
  - destruct ((priority_activation_satisfied p q w).1); [| by apply IH]. rewrite bind_run.
    destruct ((f q w1).1); [simpl; eauto | by apply IH].
Qed.

(** The algorithms that try every member of a pass. *)
Definition considers_all (bal : Balancer) : Prop :=
  match bl_algorithm bal with
  | RoundRobin | LeastConnections | LeastSessions | LeastTime => True
  | PowerOfTwo | ConsistentHash | BoundedLoadConsistentHash _ =>
      zlen (backends (bl_pool bal)) <= bl_max_iterations bal
  | FnvHash | NginxConsistentHash _ | MaglevHash _ => False
  end.
Lemma vouches_framed_each {p} {f : SelectionPass -> M (option FluxBackend)} :
  (forall pass, vouches p pass [] chosen (f pass)) -> forall pass, framed (f pass).
Proof. intros Hv pass w. apply Hv. Qed.
Lemma inner_select_serves bal key sessions pass w b :
  considers_all bal -> last_resort (bl_pool bal) pass -> certain (bl_pool bal) pass w b ->
  is_Some (inner_select bal key sessions w).1.
Proof.
  intros Hall Hl Hc. destruct (Hl) as (Hin & Hfast' & _).
  assert (Hfast := or_introl Hfast' : no_slow_start (bl_pool bal) pass).
  unfold considers_all in Hall. unfold inner_select.
  assert (Hcs : forall c, framed (connections_score (bl_pool bal) c)) by (intros; unfold connections_score; framed_tac).
  assert (Hss : forall c, framed (sessions_score (bl_pool bal) sessions c)) by (intros; unfold sessions_score; framed_tac).
  assert (Hts : forall c, framed (time_score (bl_pool bal) c)).
  { intros. unfold time_score, latency_score, connections_score. framed_tac. }
  destruct (bl_algorithm bal); try done; (eapply try_passes_finds; [| exact Hl | | exact Hin | exact Hc]).
  - apply (vouches_framed_each (vouches_round_robin _)).
  - by apply finds_round_robin.
  - apply (vouches_framed_each (fun q => vouches_least _ q _ _ Hcs)).
  - by apply finds_least.
  - apply (vouches_framed_each (fun q => vouches_least _ q _ _ Hss)).
  - by apply finds_least.
  - apply (vouches_framed_each (fun q => vouches_least _ q _ _ Hts)).
  - by apply finds_least.
  - apply (vouches_framed_each (fun q => vouches_power_of_two _ q _)).
  - by apply finds_power_of_two.
  - apply (vouches_framed_each (fun q => vouches_consistent _ q _ _ _)).
  - by apply finds_consistent.
  - apply (vouches_framed_each (fun q => vouches_bounded _ q _ _ _)).
  - by apply finds_bounded.
Qed.

Definition counts_below_max (w : World) : Prop := forall key, count_of w key < USIZE_MAX.
Lemma select_now_serves bal request ip pk outcome pass w b :
  counts_below_max w -> considers_all bal -> last_resort (bl_pool bal) pass -> certain (bl_pool bal) pass w b ->
  is_Some (select_now bal request ip pk outcome w).1.
Proof.
  intros Hm Hall Hl Hc. unfold select_now. rewrite bind_run.
  pose proof (framed_sessions bal pk w) as F1. apply (certain_frame _ _ _ _ _ F1) in Hc.
  generalize (fresh_sessions bal pk w).1. intros sessions. set (w1 := (fresh_sessions bal pk w).2) in *.
  rewrite bind_run. set (key := request_key _ _ _).
  destruct (inner_select_admissible bal key sessions w1) as [F2 Hsafe].
  destruct (inner_select_serves bal key sessions pass w1 b Hall Hl Hc) as [c Ec]. rewrite Ec.
  destruct (Hsafe c Ec) as (q & _ & _ & [He _]). rewrite bind_run.
  destruct (prepare_selected_some bal c outcome (inner_select bal key sessions w1).2) as (s & Es & _).
  - unfold eligible in He. breflect. unfold below_limit in *. by rewrite (fr_counts _ _ F2).
  - rewrite (fr_counts _ _ F2), (fr_counts _ _ F1). apply Hm.
  - rewrite Es, bind_run. simpl. eauto.
Qed.

Lemma counts_below_frame w w' : frame w w' -> counts_below_max w -> counts_below_max w'.
Proof. intros F Hm key. by rewrite (fr_counts _ _ F). Qed.
Lemma select_fresh_serves bal request ip pk outcome pass w b :
  counts_ok w -> counts_below_max w -> considers_all bal -> last_resort (bl_pool bal) pass ->
  certain (bl_pool bal) pass w b -> is_Some (select_fresh bal request ip pk outcome w).1.1.
Proof.
  intros Hok Hm Hall Hl Hc. unfold select_fresh, prune_stale_backend_state_periodically.
  set (bal1 := set_prune_counter _ bal). rewrite bind_run. destruct (negb _); rewrite bind_run; simpl.
  - by apply (select_now_serves bal1 _ _ _ _ pass _ b).
  - destruct (prune_run bal1 w Hok) as [F1 ->]. apply (certain_frame _ _ _ _ _ F1) in Hc.
    apply (select_now_serves (pruned bal1) _ _ _ _ pass _ b); [by eapply counts_below_frame | done | exact Hl |].
    destruct Hc as (Hb & He & Hn). split_and!; [done | by rewrite (pruned_eligible bal1) | done].
Qed.

End Serves.

#[local] Existing Instance sample_cookie_clock.
#[local] Existing Instance sample_cookie_env.
#[local] Existing Instance sample_env.

(** * Retries and returning clients

    A retry never goes back to an address it has tried; a known client stays
    on its member while the member may take it. *)
Lemma exclude_attempted_excludes attempted q q' a :
  exclude_attempted attempted q = (true, q') -> a ∈ attempted ->
  policy_disabled q' (backend_authority_key (show_socket_addr a)) = true.
Proof.
  unfold exclude_attempted. case Z.ltb_spec; intros Hlen [= <-] Ha.
  unfold policy_disabled. cbn [p_retry_excluded]. rewrite bool_decide_eq_true_2; [done |].
  apply elem_of_app. left. apply list_elem_of_fmap. by exists a.
Qed.

Section Sticky.
Context `{Env} `{CookieEnv} `{KetamaEnv}.

(** A retry selects nothing, or a member whose address is not among those
    the request was already sent to; more attempts than the table of
    exclusions holds stop the retry. *)
Theorem retry_avoids_attempted (bal : Balancer) (request : RequestView) (client_ip : option IpAddr)
    (attempted : list SocketAddr) (w : World) :
  counts_ok w ->
  let r := select_excluding bal request client_ip attempted w in
  (zlen (p_retry_excluded (pl_policy (bl_pool bal))) < zlen attempted -> r.1.1 = None)
  /\ match r.1.1 with
     | None => True
     | Some selected => (addr (su_backend selected) ∉ attempted) /\ su_backend selected ∈ backends (bl_pool bal)
     end
  /\ p_retry_excluded (pl_policy (bl_pool r.1.2)) = p_retry_excluded (pl_policy (bl_pool bal)).
Proof.
  intros Hc. unfold select_excluding. destruct (exclude_attempted attempted _) as [ok q] eqn:Eq.
  assert (Hok : ok = true -> zlen attempted <= zlen (p_retry_excluded (pl_policy (bl_pool bal)))).
  { unfold exclude_attempted in Eq. revert Eq. case Z.ltb_spec; intros ? [= <- <-] ?; [done | lia]. }
  destruct ok; simpl; [| done]. rewrite bind_run. specialize (Hok eq_refl). simpl.
  split; [lia |]. split; [| done].
  pose proof (select_run_admits (set_policy q bal) request client_ip w Hc) as Ha. cbv zeta in Ha.
  destruct ((select (set_policy q bal) request client_ip w).1.1) as [s |]; [| done]. simpl in Ha.
  destruct Ha as [_ [Hm _ He _ _] _ _ _]. split; [| done]. intros Hin.
  pose proof (exclude_attempted_excludes _ _ _ _ Eq Hin) as Hd. simpl in He. unfold backend_key, authority in He.
  congruence.
Qed.

Lemma lookup_persistence_hit key e w :
  w_table w !! key = Some e -> clock (w_tick w) < pe_expires_at e ->
  (lookup_persistence key w).1 = Some (pe_backend_key e) /\ w_slow (lookup_persistence key w).2 = w_slow w.
Proof.
  intros Ht He. unfold lookup_persistence, on_table. rewrite !bind_run. simpl. unfold lookup_at. rewrite Ht.
  by zcond.
Qed.
Lemma currently_ejected_none key w : ejection w key = None -> (key_is_currently_ejected key w).1 = false.
Proof. intros E. unfold key_is_currently_ejected. rewrite bind_run. simpl. unfold ejection in E. by rewrite E. Qed.
Lemma not_ejected_when p key w :
  ejection w key = None ->
  (not_currently_ejected p key w).1 = true /\ w_slow (not_currently_ejected p key w).2 = w_slow w.
Proof.
  intros E. unfold not_currently_ejected. destruct (pl_passive p); [| done]. rewrite bind_run. simpl.
  rewrite currently_ejected_none by done. unfold key_is_currently_ejected. rewrite bind_run. simpl.
  unfold ejection in E. by rewrite E.
Qed.
Lemma slow_read_only_when p b w :
  pl_slow_start p = None \/ w_slow w !! backend_key b = None -> (slow_start_permits_read_only p b w).1 = true.
Proof.
  unfold slow_start_permits_read_only, slow_permits_read_only. intros [-> | E]; [done |].
  destruct (pl_slow_start p); [| done]. rewrite !bind_run. simpl. by rewrite E.
Qed.
Lemma available_when bal b w :
  eligible (bl_pool bal) w persistence_pass b = true -> ejection w (backend_key b) = None ->
  (pl_slow_start (bl_pool bal) = None \/ w_slow w !! backend_key b = None) ->
  (backend_available_for_persistence bal b w).1 = true.
Proof.
  intros He Hej Hslow. pose proof (framed_not_ejected (bl_pool bal) (backend_key b) w) as F1.
  destruct (not_ejected_when (bl_pool bal) (backend_key b) w Hej) as [E1 Es].
  set (w1 := (not_currently_ejected _ _ w).2) in *.
  pose proof (framed_slow_read_only (bl_pool bal) b w1) as F2. rewrite <- Es in Hslow.
  rewrite <- (eligible_frame _ w w1), <- (eligible_frame _ w1 (slow_start_permits_read_only (bl_pool bal) b w1).2) in He by done.
  unfold eligible in He. apply andb_true_iff in He as [He Hl]. apply andb_true_iff in He as [Hr Hp].
  destruct (permits_statically_enabled _ _ _ Hp) as [Hd Hdr].
  unfold backend_available_for_persistence. rewrite Hr, and_then_run, E1. simpl. fold w1.
  rewrite and_then_run, slow_read_only_when by done. simpl. rewrite and_then_run, permits_run, Hp, Hl. simpl.
  by rewrite Hd, Hdr.
Qed.

(** A known client is sent to its member, as a hit, while its entry has
    not expired and the member is in the pool, ready, permitted, below its
    limit and neither ejected nor in slow start. *)
Theorem known_client_stays (bal : Balancer) (s : PersistenceState) (request : RequestView)
    (client_ip : option IpAddr) (w w1 : World) (key : list Z) (e : PersistenceEntry) (b : FluxBackend) :
  bl_persistence bal = Some s -> persistence_key s request client_ip w = (Some key, w1) ->
  w_table w1 !! key = Some e -> clock (w_tick w1) < pe_expires_at e ->
  backend_with_key (bl_pool bal) (pe_backend_key e) = Some b ->
  eligible (bl_pool bal) w1 persistence_pass b = true ->
  ejection w1 (backend_key b) = None ->
  (pl_slow_start (bl_pool bal) = None \/ w_slow w1 !! backend_key b = None) ->
  count_of w1 (backend_key b) < USIZE_MAX ->
  exists selected w', select bal request client_ip w = (Some selected, bal, w')
    /\ su_backend selected = b /\ su_persistence_outcome selected = Some Hit.
Proof.
  intros Hs Hk Ht Hexp Hb He Hej Hslow Hmax. unfold select. rewrite Hs, bind_run, Hk. cbn [fst snd].
  destruct (lookup_persistence_hit key e w1 Ht Hexp) as [El Esl]. rewrite bind_run, El.
  pose proof (framed_lookup_persistence key w1) as F1. set (w2 := (lookup_persistence key w1).2) in *.
  rewrite bind_run. unfold select_persisted. rewrite Hb, bind_run.
  rewrite available_when; [| by rewrite (eligible_frame _ w1 w2) | by apply (fr_none _ _ F1) | by rewrite Esl].
  pose proof (framed_available bal b w2) as F2. set (w3 := (backend_available_for_persistence bal b w2).2) in *.
  destruct (prepare_selected_some bal b (Some Hit) w3) as (s1 & Es & Hsb & Hso).
  - unfold eligible in He. apply andb_true_iff in He as [_ Hl]. unfold below_limit in *.
    by rewrite (fr_counts _ _ F2), (fr_counts _ _ F1).
  - by rewrite (fr_counts _ _ F2), (fr_counts _ _ F1).
  - rewrite Es. exists s1. eexists. by split_and!.
Qed.
End Sticky.

#[local] Existing Instance sample_cookie_clock.
#[local] Existing Instance sample_cookie_env.
#[local] Existing Instance sample_env.
Lemma retry_avoids_attempted_witness :
  let r := select_excluding (small_balancer RoundRobin None) plain_request None [addr first_member] small_world in
  (su_backend <$> r.1.1) = Some second_member /\ addr second_member ∉ [addr first_member].
Proof.
  intros r. pose proof (retry_avoids_attempted (small_balancer RoundRobin None) plain_request None
    [addr first_member] small_world small_counts_ok) as (_ & Hr & _). fold r in Hr.
  assert (E : (su_backend <$> r.1.1) = Some second_member) by (vm_compute; reflexivity).
  split; [exact E |]. destruct (r.1.1) as [s |]; [| discriminate]. cbn in E. injection E as E. rewrite E in Hr. apply Hr.
Defined.

(** The client is on the second member until time 100. *)
Definition sticky_world : World :=
  set_table (fun _ => {[bs "10.0.0.9" := mkPersistenceEntry (backend_key second_member) 100]}) small_world.
Definition by_source : PersistenceState := mkPersistence ModeSourceIp None None 60 2 None.
Lemma known_client_stays_witness :
  exists selected w',
    select (small_balancer RoundRobin (Some by_source)) plain_request (Some (V4 10 0 0 9)) sticky_world
    = (Some selected, small_balancer RoundRobin (Some by_source), w')
    /\ su_backend selected = second_member /\ su_persistence_outcome selected = Some Hit.
Proof.
  apply (known_client_stays (small_balancer RoundRobin (Some by_source)) by_source plain_request
    (Some (V4 10 0 0 9)) sticky_world sticky_world (bs "10.0.0.9")
    (mkPersistenceEntry (backend_key second_member) 100) second_member).
  - reflexivity.
  - vm_compute. reflexivity.
  - vm_compute. reflexivity.
  - reflexivity.
  - vm_compute. reflexivity.
  - vm_compute. reflexivity.
  - vm_compute. reflexivity.
  - left. reflexivity.
  - vm_compute. reflexivity.
Defined.
