(* ===== verification/LbAdmission.v ===== *)
(** * Admission under interference ([state.rs], [queue.rs])

    The compare-and-swap loops that admit a connection to a member and a
    request to the queue, run by any number of threads in any order, together
    with the pruning of the counters.  The sequential [LbBalancer.permit] is
    what the loop does when no other thread interferes. *)
From Stdlib Require Import ZArith Lia.
From stdpp Require Import base list numbers strings sets gmap.
From S2P Require Import Prelude Text NetAddr LbRetry LbBackend LbState LbPolicy LbSelect LbMaglev LbKetama LbCookie LbPersistence LbBalancer LbFrame.

(** ** One turn of a loop *)

Inductive Turn : Type :=
| Refused
| Taken (next : Z)
| Observed (value : Z).

(** [compare_exchange_weak]: it may fail although the value is the expected
    one. *)
Definition compare_exchange_weak (value current next : Z) (spurious : bool) : Turn :=
  if negb spurious && (value =? current) then Taken next else Observed value.

(** The body of the loop of [BackendConnectionCounters::permit]. *)
Definition permit_turn (max_in_flight : option Z) (current value : Z) (spurious : bool) : Turn :=
  if match max_in_flight with Some limit => limit <=? current | None => false end then Refused
  else match checked_add USIZE_MAX current 1 with
       | None => Refused
       | Some next => compare_exchange_weak value current next spurious
       end.
(** The body of the loop of [acquire_queue_slot]. *)
Definition queue_turn (max_waiting current value : Z) (spurious : bool) : Turn :=
  if max_waiting <=? current then Refused
  else compare_exchange_weak value current (current + 1) spurious.

(** ** The shared counters *)

(** [BackendConnectionCounters]: the table of counters, and every counter
    that some thread may still hold. *)
Record Counters : Type := mkCounters {
  ct_table : gmap Z positive;
  ct_values : gmap positive Z;
  ct_next : positive;
}.
(** [counter] *)
Definition counter (key : Z) (s : Counters) : positive * Counters :=
  match ct_table s !! key with
  | Some c => (c, s)
  | None =>
      let c := ct_next s in
      (c, mkCounters (<[key := c]> (ct_table s)) (<[c := 0]> (ct_values s)) (Pos.succ c))
  end.
Definition value_of (s : Counters) (c : positive) : Z := default 0 (ct_values s !! c).
Definition set_value (c : positive) (v : Z) (s : Counters) : Counters :=
  mkCounters (ct_table s) (<[c := v]> (ct_values s)) (ct_next s).
(** [prune_stale] *)
Definition counters_prune_stale (live : gset Z) (s : Counters) : Counters :=
  mkCounters (filter (fun kc => kc.1 ∈ live \/ 0 < value_of s kc.2) (ct_table s)) (ct_values s) (ct_next s).
(** [fetch_sub(1)] on a [usize] *)
Definition fetch_sub (c : positive) (s : Counters) : Counters :=
  set_value c ((value_of s c - 1) mod (USIZE_MAX + 1)) s.

(** ** Threads *)

Inductive Thread : Type :=
| Idle
| HasCounter (key : Z) (c : positive) (max_in_flight : option Z)
| Looping (key : Z) (c : positive) (max_in_flight : option Z) (current : Z)
| Holding (key : Z) (c : positive).
Record System : Type := mkSystem {
  threads : list Thread;
  counters : Counters;
}.

Inductive Event : Type :=
| Start (i : nat) (key : Z) (max_in_flight : option Z)
| LoadCounter (i : nat)
| TakeTurn (i : nat) (spurious : bool)
| Release (i : nat)
| PruneCounters (live : gset Z).

Definition set_thread (i : nat) (t : Thread) (counters : Counters) (s : System) : System :=
  mkSystem (<[i := t]> (threads s)) counters.
Definition system_step (e : Event) (s : System) : option System :=
  let k := counters s in
  match e with
  | Start i key max =>
      match threads s !! i with
      | Some Idle => let '(c, k') := counter key k in Some (set_thread i (HasCounter key c max) k' s)
      | _ => None
      end
  | LoadCounter i =>
      match threads s !! i with
      | Some (HasCounter key c max) => Some (set_thread i (Looping key c max (value_of k c)) k s)
      | _ => None
      end
  | TakeTurn i spurious =>
      match threads s !! i with
      | Some (Looping key c max current) =>
          Some match permit_turn max current (value_of k c) spurious with
               | Refused => set_thread i Idle k s
               | Taken next => set_thread i (Holding key c) (set_value c next k) s
               | Observed value => set_thread i (Looping key c max value) k s
               end
      | _ => None
      end
  | Release i =>
      match threads s !! i with
      | Some (Holding key c) => Some (set_thread i Idle (fetch_sub c k) s)
      | _ => None
      end
  | PruneCounters live => Some (mkSystem (threads s) (counters_prune_stale live k))
  end.
Definition system_run (events : list Event) (s : System) : option System :=
  foldl (fun s e => s ≫= system_step e) (Some s) events.
Definition system_start (n : nat) : System := mkSystem (replicate n Idle) (mkCounters ∅ ∅ 1).

(** ** Counting threads *)

Definition threads_that (f : Thread -> bool) (l : list Thread) : Z :=
  foldr (fun t n => (if f t then 1 else 0) + n) 0 l.
Definition holds (c : positive) (t : Thread) : bool :=
  match t with Holding _ c' => bool_decide (c' = c) | _ => false end.
Definition holds_key (key : Z) (t : Thread) : bool :=
  match t with Holding key' _ => key' =? key | _ => false end.

Lemma threads_that_nonneg f l : 0 <= threads_that f l.
Proof. induction l; simpl; [lia | case_match; lia]. Qed.
Lemma threads_that_insert f l i t t' :
  l !! i = Some t ->
  threads_that f (<[i := t']> l) = threads_that f l - (if f t then 1 else 0) + (if f t' then 1 else 0).
Proof.
  revert i. induction l as [| x l IH]; intros [| i] Hi; try done; simpl in *; [injection Hi as ->; lia |].
  rewrite (IH i Hi). lia.
Qed.
Lemma threads_that_ext f g l : (forall t, t ∈ l -> f t = g t) -> threads_that f l = threads_that g l.
Proof.
  induction l as [| x l IH]; intros Hfg; simpl; [done |]. rewrite (Hfg x) by set_solver. f_equal. apply IH. set_solver.
Qed.
Lemma threads_that_pos f l i t : l !! i = Some t -> f t = true -> 0 < threads_that f l.
Proof.
  revert i. induction l as [| x l IH]; intros [| i] Hi Ht; simpl in *; try done.
  - injection Hi as ->. rewrite Ht. pose proof (threads_that_nonneg f l). lia.
  - pose proof (IH i Hi Ht). case_match; lia.
Qed.
Lemma threads_that_idle f n : f Idle = false -> threads_that f (replicate n Idle) = 0.
Proof. intros Hf. induction n as [| n IH]; simpl; [done |]. by rewrite Hf, IH. Qed.

(** The counter a thread refers to. *)
Definition refers (t : Thread) : option (Z * positive) :=
  match t with
  | Idle => None
  | HasCounter key c _ | Looping key c _ _ | Holding key c => Some (key, c)
  end.
Definition limit_used (t : Thread) : option (Z * option Z) :=
  match t with HasCounter key _ max | Looping key _ max _ => Some (key, max) | _ => None end.

(** ** The invariant *)

Section Bounded.
Context (limits : Z -> option Z).

(** [owner] is the key each counter was made for. *)
Definition thread_ok (owner : positive -> Z) (values : gmap positive Z) (t : Thread) : Prop :=
  (forall key c, refers t = Some (key, c) -> owner c = key /\ is_Some (values !! c))
  /\ (forall key max, limit_used t = Some (key, max) -> max = limits key).
Lemma thread_ok_idle owner values : thread_ok owner values Idle.
Proof. by split. Qed.
Record invariant (owner : positive -> Z) (s : System) : Prop := mkInvariant {
  iv_table : forall key c, ct_table (counters s) !! key = Some c ->
    owner c = key /\ is_Some (ct_values (counters s) !! c);
  iv_threads : Forall (thread_ok owner (ct_values (counters s))) (threads s);
  iv_fresh : forall c, is_Some (ct_values (counters s) !! c) -> (c < ct_next (counters s))%positive;
  iv_value : forall c, value_of (counters s) c = threads_that (holds c) (threads s);
  iv_bound : forall c, value_of (counters s) c <= USIZE_MAX
    /\ forall limit, limits (owner c) = Some limit -> 0 <= limit -> value_of (counters s) c <= limit;
}.
Lemma thread_ok_at owner s i t :
  invariant owner s -> threads s !! i = Some t -> thread_ok owner (ct_values (counters s)) t.
Proof. intros Hs Hi. pose proof (iv_threads _ _ Hs) as Hf. rewrite Forall_lookup in Hf. eauto. Qed.

(** A step that changes one thread and leaves every count alone. *)
Lemma invariant_local owner s i t t' :
  invariant owner s -> threads s !! i = Some t ->
  (forall c, holds c t = holds c t') -> thread_ok owner (ct_values (counters s)) t' ->
  invariant owner (set_thread i t' (counters s) s).
Proof.
  intros [Ht Hth Hf Hv Hb] Hi Hh Hok. split; simpl; [done | by apply Forall_insert | done | | done].
  intros c. rewrite (threads_that_insert _ _ _ _ _ Hi), Hh. rewrite Hv. lia.
Qed.

(** A step of a thread that moves a count by one. *)
Lemma value_of_set c v s c' : value_of (set_value c v s) c' = if decide (c' = c) then v else value_of s c'.
Proof.
  unfold value_of, set_value. simpl. case_decide as Hc; [subst; by rewrite lookup_insert_eq | by rewrite lookup_insert_ne].
Qed.
Lemma thread_ok_values owner values values' t :
  (forall c, is_Some (values !! c) -> is_Some (values' !! c)) -> thread_ok owner values t -> thread_ok owner values' t.
Proof. intros Hv [H1 H2]. split; [| done]. intros key c Hr. destruct (H1 key c Hr). eauto. Qed.
Lemma is_Some_insert (values : gmap positive Z) c v c' : is_Some (values !! c') -> is_Some (<[c := v]> values !! c').
Proof. intros Hc. rewrite lookup_insert. case_decide; eauto. Qed.

Lemma invariant_count owner s i t t' c v :
  invariant owner s -> threads s !! i = Some t -> is_Some (ct_values (counters s) !! c) ->
  (forall c', c' <> c -> holds c' t = holds c' t') ->
  v = value_of (counters s) c - (if holds c t then 1 else 0) + (if holds c t' then 1 else 0) ->
  v <= USIZE_MAX -> (forall limit, limits (owner c) = Some limit -> 0 <= limit -> v <= limit) ->
  thread_ok owner (ct_values (counters s)) t' ->
  invariant owner (set_thread i t' (set_value c v (counters s)) s).
Proof.
  intros [Ht Hth Hf Hv Hb] Hi Hc Hh Ev Hmax Hlim Hok. split; simpl.
  - intros key c' Hk. destruct (Ht key c' Hk). eauto using is_Some_insert.
  - apply Forall_insert; [| by eapply thread_ok_values; [apply is_Some_insert |]].
    eapply Forall_impl; [exact Hth |]. intros x. apply thread_ok_values, is_Some_insert.
  - intros c' Hc'. apply Hf. rewrite lookup_insert in Hc'. case_decide; [by subst | done].
  - intros c'. rewrite value_of_set, (threads_that_insert _ _ _ _ _ Hi), <- Hv.
    case_decide as Hc'; [by subst | rewrite Hh by done; lia].
  - intros c'. rewrite value_of_set. case_decide as Hc'; [by subst | apply Hb].
Qed.

(** A new counter. *)
Definition owner_new (key : Z) (c : positive) (owner : positive -> Z) : positive -> Z :=
  fun c' => if decide (c' = c) then key else owner c'.
Lemma invariant_counter owner s key :
  invariant owner s ->
  exists owner', invariant owner' (mkSystem (threads s) (counter key (counters s)).2)
    /\ ct_table (counter key (counters s)).2 !! key = Some (counter key (counters s)).1.
Proof.
  intros Hs. destruct s as [l k]. unfold counter. simpl in *. destruct (ct_table k !! key) as [c |] eqn:Ek; [by exists owner |].
  destruct Hs as [Ht Hth Hf Hv Hb]. simpl in *. set (c := ct_next k) in *.
  assert (Hnew : forall c', is_Some (ct_values k !! c') -> c' <> c) by (intros c' Hc' ->; apply Hf in Hc'; lia).
  assert (Hzero : value_of k c = 0).
  { unfold value_of. destruct (ct_values k !! c) eqn:E; [| done]. by destruct (Hnew c); [rewrite E; eauto |]. }
  assert (Hval : forall c', value_of (mkCounters (<[key:=c]> (ct_table k)) (<[c:=0]> (ct_values k)) (Pos.succ c)) c' = value_of k c').
  { intros c'. change (value_of (set_value c 0 k) c' = value_of k c'). rewrite value_of_set. case_decide; [congruence | done]. }
  exists (owner_new key c owner). split; [| simpl; by rewrite lookup_insert_eq].
  split; simpl.
  - intros key' c'. rewrite lookup_insert_Some. unfold owner_new. intros [[<- <-] | [Hne Hk]].
    + rewrite decide_True, lookup_insert_eq by done. eauto.
    + destruct (Ht key' c' Hk) as [<- Hc']. rewrite decide_False by eauto. eauto using is_Some_insert.
  - eapply Forall_impl; [exact Hth |]. intros t [H1 H2]. split; [| done]. intros key' c' Hr.
    destruct (H1 key' c' Hr) as [<- Hc']. unfold owner_new. rewrite decide_False by eauto. eauto using is_Some_insert.
  - intros c' Hc'. rewrite lookup_insert in Hc'. case_decide as Hd; [subst; lia |]. apply Hf in Hc'. lia.
  - intros c'. by rewrite Hval.
  - intros c'. rewrite Hval. unfold owner_new. case_decide as Hd; [| apply Hb]. subst c'. rewrite Hzero.
    split; [done | intros; lia].
Qed.

(** Every attempt uses the configured limit of its key. *)
Definition respects (e : Event) : Prop :=
  match e with Start _ key max => max = limits key | _ => True end.

Lemma invariant_prune owner s live :
  invariant owner s -> invariant owner (mkSystem (threads s) (counters_prune_stale live (counters s))).
Proof.
  intros [Ht Hth Hf Hv Hb]. split; simpl; [| done ..].
  intros key c [Hk _]%map_lookup_filter_Some. by apply Ht.
Qed.

Lemma invariant_start owner s i key :
  invariant owner s -> threads s !! i = Some Idle ->
  exists owner', invariant owner' (set_thread i (HasCounter key (counter key (counters s)).1 (limits key))
                                     (counter key (counters s)).2 s).
Proof.
  intros Hs Hi. destruct (invariant_counter owner s key Hs) as (owner' & Hs' & Hk). exists owner'.
  apply (invariant_local owner' (mkSystem (threads s) (counter key (counters s)).2) i Idle); [done | done | done |].
  split; simpl.
  - intros key' c' [= <- <-]. by apply (iv_table _ _ Hs').
  - by intros key' max [= <- <-].
Qed.

Lemma invariant_turn owner s i key c max current spurious :
  invariant owner s -> threads s !! i = Some (Looping key c max current) ->
  invariant owner match permit_turn max current (value_of (counters s) c) spurious with
                  | Refused => set_thread i Idle (counters s) s
                  | Taken next => set_thread i (Holding key c) (set_value c next (counters s)) s
                  | Observed value => set_thread i (Looping key c max value) (counters s) s
                  end.
Proof.
  intros Hs Hi. destruct (thread_ok_at _ _ _ _ Hs Hi) as [Hr Hm]. destruct (Hr key c eq_refl) as [Hk Hc].
  pose proof (Hm key max eq_refl) as ->.
  assert (Hidle : invariant owner (set_thread i Idle (counters s) s)) 
    by (eapply invariant_local; [done | done | done | apply thread_ok_idle]).
  unfold permit_turn, checked_add. destruct (match limits key with Some limit => limit <=? current | None => false end) eqn:El; [done |].
  case Z.leb_spec; intros Hmax; [| done].
  unfold compare_exchange_weak. destruct (negb spurious && _) eqn:Ec.
  - breflect. eapply invariant_count; [done | done | done | | | lia | |].
    + intros c' Hne. simpl. by rewrite bool_decide_eq_false_2.
    + simpl. rewrite bool_decide_eq_true_2 by done. lia.
    + rewrite Hk. intros limit El' _. rewrite El' in El. revert El. case Z.leb_spec; intros; [done | lia].
    + split; [| done]. by intros key' c' [= <- <-].
  - eapply invariant_local; [done | done | done |]. split; simpl; [| exact Hm]. by intros key' c' [= <- <-].
Qed.

Lemma invariant_release owner s i key c :
  invariant owner s -> threads s !! i = Some (Holding key c) ->
  invariant owner (set_thread i Idle (fetch_sub c (counters s)) s).
Proof.
  intros Hs Hi. destruct (thread_ok_at _ _ _ _ Hs Hi) as [Hr _]. destruct (Hr key c eq_refl) as [_ Hc].
  pose proof (threads_that_pos (holds c) _ _ _ Hi (bool_decide_eq_true_2 _ eq_refl)) as Hpos.
  rewrite <- (iv_value _ _ Hs) in Hpos. destruct (iv_bound _ _ Hs c) as [Hmax Hlim].
  unfold fetch_sub. rewrite Z.mod_small by lia. eapply invariant_count; [done | done | done | | | lia | |].
  - intros c' Hne. simpl. by rewrite bool_decide_eq_false_2.
  - simpl. rewrite bool_decide_eq_true_2 by done. lia.
  - intros limit El Hl. specialize (Hlim limit El Hl). lia.
  - split; done.
Qed.

Lemma invariant_step owner s e s' :
  invariant owner s -> respects e -> system_step e s = Some s' -> exists owner', invariant owner' s'.
Proof.
  intros Hs Hr Hstep. destruct e as [i key max | i | i spurious | i | live]; simpl in *.
  5:{ injection Hstep as <-. exists owner. by apply invariant_prune. }
  all: destruct (threads s !! i) as [t |] eqn:Hi; [| done]; destruct t; simplify_eq.
  - destruct (counter key (counters s)) as [c k'] eqn:Ec. simplify_eq.
    destruct (invariant_start owner s i key Hs Hi) as [owner' H']. rewrite Ec in H'. by exists owner'.
  - exists owner. destruct (thread_ok_at _ _ _ _ Hs Hi) as [H1 H2]. by eapply invariant_local.
  - exists owner. by apply invariant_turn.
  - exists owner. by eapply invariant_release.
Qed.

Lemma invariant_initial n : invariant (fun _ => 0) (system_start n).
Proof.
  split; simpl.
  - intros key c Hk. by rewrite lookup_empty in Hk.
  - apply Forall_replicate. by split.
  - intros c [v Hc]. by rewrite lookup_empty in Hc.
  - intros c. unfold value_of. simpl. by rewrite lookup_empty, threads_that_idle.
  - intros c. unfold value_of. simpl. rewrite lookup_empty. simpl. split; [done | lia].
Qed.

(** ** Keys that are never pruned *)

Definition keeps (key : Z) (e : Event) : Prop :=
  match e with PruneCounters live => key ∈ live | _ => True end.
(** Every thread at the key refers to the counter in the table. *)
Definition one_counter (key : Z) (s : System) : Prop :=
  Forall (fun t => forall c, refers t = Some (key, c) -> ct_table (counters s) !! key = Some c) (threads s).

Lemma one_counter_local key s i t k :
  one_counter key s ->
  (forall c, ct_table (counters s) !! key = Some c -> ct_table k !! key = Some c) ->
  (forall c, refers t = Some (key, c) -> ct_table k !! key = Some c) ->
  one_counter key (set_thread i t k s).
Proof using Type.
  clear. intros Hs Hk Ht. apply Forall_insert; [| done]. eapply Forall_impl; [exact Hs |]. simpl. eauto.
Qed.
Lemma counter_table key' key k c :
  ct_table k !! key = Some c -> ct_table (counter key' k).2 !! key = Some c.
Proof using Type.
  clear. intros Hk. unfold counter. destruct (ct_table k !! key') eqn:E; [done |]. simpl.
  rewrite lookup_insert_ne; congruence.
Qed.
Lemma counter_in_table key k : ct_table (counter key k).2 !! key = Some (counter key k).1.
Proof using Type. clear. unfold counter. case_match eqn:E; simpl; [done | by rewrite lookup_insert_eq]. Qed.

Lemma one_counter_step key s e s' :
  one_counter key s -> keeps key e -> system_step e s = Some s' -> one_counter key s'.
Proof using Type.
  clear. intros Hs Hk Hstep. destruct e as [i key' max | i | i spurious | i | live]; simpl in *.
  5:{ injection Hstep as <-. eapply Forall_impl; [exact Hs |]. simpl. intros t Ht c Hc.
      apply map_lookup_filter_Some. split; [by apply Ht | by left]. }
  all: destruct (threads s !! i) as [t |] eqn:Hi; [| done]; destruct t as [| k c m | k c m cur | k c]; simplify_eq.
  - destruct (counter key' (counters s)) as [c k'] eqn:Ec. simplify_eq.
    pose proof (counter_table key' key (counters s)) as Htab. pose proof (counter_in_table key' (counters s)) as Hin.
    rewrite Ec in Htab, Hin. apply one_counter_local; [done | done |]. by intros c' [= -> <-].
  - unfold one_counter in Hs. apply one_counter_local; [done | done |]. intros c' [= -> <-].
    rewrite Forall_lookup in Hs. by apply (Hs i _ Hi).
  - assert (Hc : forall c', refers (Looping k c m cur) = Some (key, c') -> ct_table (counters s) !! key = Some c').
    { unfold one_counter in Hs. rewrite Forall_lookup in Hs. by apply (Hs i _ Hi). }
    case_match; apply one_counter_local; try done; by intros c' [= -> <-]; apply Hc.
  - by apply one_counter_local.
Qed.

Lemma one_counter_holders key s c :
  one_counter key s -> ct_table (counters s) !! key = Some c ->
  (forall owner, invariant owner s ->
     threads_that (holds_key key) (threads s) = threads_that (holds c) (threads s)).
Proof using Type.
  intros Hs Hc owner Hinv. apply threads_that_ext. intros t Ht. destruct t as [| | | k c']; simpl; try done.
  pose proof (iv_threads _ _ Hinv) as Hok. unfold one_counter in Hs. rewrite Forall_forall in Hs, Hok.
  destruct (Hok _ Ht) as [Hr _]. destruct (Hr k c' eq_refl) as [Ho _].
  destruct (iv_table _ _ Hinv key c Hc) as [Ho' _].
  destruct (decide (c' = c)) as [-> | Hne].
  - rewrite bool_decide_eq_true_2 by done. apply Z.eqb_eq. congruence.
  - rewrite bool_decide_eq_false_2 by done. apply Z.eqb_neq. intros ->. apply Hne.
    pose proof (Hs _ Ht c' eq_refl). congruence.
Qed.
Lemma no_counter_holders key s :
  one_counter key s -> ct_table (counters s) !! key = None -> threads_that (holds_key key) (threads s) = 0.
Proof using Type.
  clear. intros Hs Hc. transitivity (threads_that (fun _ => false) (threads s)).
  - apply threads_that_ext. intros t Ht. destruct t as [| | | k c']; simpl; try done.
    apply Z.eqb_neq. intros ->. unfold one_counter in Hs. rewrite Forall_forall in Hs.
    pose proof (Hs _ Ht c' eq_refl). congruence.
  - clear. induction (threads s); simpl; lia.
Qed.

Lemma system_run_invariant events n s :
  system_run events (system_start n) = Some s -> Forall respects events ->
  (exists owner, invariant owner s) /\ forall key, Forall (keeps key) events -> one_counter key s.
Proof using Type.
  unfold system_run. revert s. induction events as [| e events IH] using rev_ind; intros s Hrun Hr.
  - injection Hrun as <-. split; [eexists; apply invariant_initial |]. intros key _.
    apply Forall_replicate. done.
  - rewrite foldl_snoc in Hrun. apply bind_Some in Hrun as (s0 & Hrun & Hstep). apply Forall_app in Hr as [Hr He].
    destruct (IH s0 Hrun Hr) as [[owner Hinv] Hone]. split.
    + eapply invariant_step; [exact Hinv | by inversion He | done].
    + intros key [Hk Hke]%Forall_app. eapply one_counter_step; [by apply Hone | by inversion Hke | done].
Qed.
End Bounded.

(** C22: However the loops of any number of threads interleave, with spurious
    failures and with pruning, every counter is exactly the number of threads
    that hold a permit of it, never wraps, and the permits of a member that no
    prune considers gone never exceed its limit. *)
Theorem admission_bounded (limits : Z -> option Z) (n : nat) (events : list Event) (s : System) :
  system_run events (system_start n) = Some s -> Forall (respects limits) events ->
  (forall c, value_of (counters s) c = threads_that (holds c) (threads s) /\ value_of (counters s) c <= USIZE_MAX)
  /\ forall key limit, limits key = Some limit -> 0 <= limit -> Forall (keeps key) events ->
     threads_that (holds_key key) (threads s) <= limit
     /\ default 0 (value_of (counters s) <$> ct_table (counters s) !! key)
        = threads_that (holds_key key) (threads s).
Proof.
  intros Hrun Hr. destruct (system_run_invariant limits events n s Hrun Hr) as [[owner Hinv] Hone]. split.
  - intros c. split; [apply (iv_value _ _ _ Hinv) | exact (proj1 (iv_bound _ _ _ Hinv c))].
  - intros key limit Hl Hpos Hk. specialize (Hone key Hk). destruct (ct_table (counters s) !! key) as [c |] eqn:Ec; simpl.
    + rewrite (one_counter_holders limits key s c Hone Ec owner Hinv), (iv_value _ _ _ Hinv). split; [| done].
      rewrite <- (iv_value _ _ _ Hinv). destruct (iv_table _ _ _ Hinv key c Ec) as [Ho _].
      apply (proj2 (iv_bound _ _ _ Hinv c)); [by rewrite Ho | done].
    + rewrite no_counter_holders by done. done.
Qed.

(** Two threads compete for the one permit of key 7; the loser sees the new
    value and gives up. *)
Definition contended_events : list Event :=
  [Start 0 7 (Some 1); Start 1 7 (Some 1); LoadCounter 0; LoadCounter 1; TakeTurn 1 true; TakeTurn 0 false;
   PruneCounters {[7]}; TakeTurn 1 false; TakeTurn 1 false].
Definition contended_end : System :=
  mkSystem [Holding 7 1; Idle] (mkCounters {[7 := 1%positive]} {[1%positive := 1]} 2).
Lemma admission_bounded_witness :
  system_run contended_events (system_start 2) = Some contended_end
  /\ threads_that (holds_key 7) (threads contended_end) <= 1.
Proof.
  assert (E : system_run contended_events (system_start 2) = Some contended_end) by (vm_compute; reflexivity).
  split; [exact E |].
  refine (proj1 (proj2 (admission_bounded (fun _ => Some 1) 2 contended_events contended_end E _) 7 1 _ _ _)).
  - unfold contended_events. repeat apply Forall_cons_2; simpl; try exact I; try reflexivity. by apply Forall_nil_2.
  - reflexivity.
  - lia.
  - unfold contended_events. repeat apply Forall_cons_2; simpl; try exact I; [set_solver | by apply Forall_nil_2].
Defined.

(** The condition on the prunes is needed: a counter that is pruned between
    [counter] and the compare-and-swap is replaced by a second one. *)
Lemma pruned_counter_doubles :
  exists events s, system_run events (system_start 2) = Some s
    /\ Forall (respects (fun _ => Some 1)) events
    /\ threads_that (holds_key 7) (threads s) = 2.
Proof.
  exists [Start 0 7 (Some 1); PruneCounters ∅; Start 1 7 (Some 1); LoadCounter 0; LoadCounter 1;
          TakeTurn 0 false; TakeTurn 1 false].
  eexists. split_and!; [vm_compute; reflexivity | repeat constructor | reflexivity].
Qed.

(** The queue runs the same loop. *)
Lemma queue_turn_permit max_waiting current value spurious :
  max_waiting <= USIZE_MAX ->
  queue_turn max_waiting current value spurious = permit_turn (Some max_waiting) current value spurious.
Proof.
  intros Hm. unfold queue_turn, permit_turn, checked_add. case Z.leb_spec; intros; [done |].
  by zcond.
Qed.

(** Without interference the loop ends after one turn, as [permit] does. *)
Lemma permit_uncontended (b : FluxBackend) (max : option Z) (w : World) (k : Counters) :
  let key := backend_key b in
  default 0 (value_of k <$> ct_table k !! key) = count_of w key ->
  exists s, system_run [Start 0 key max; LoadCounter 0; TakeTurn 0 false] (mkSystem [Idle] k) = Some s
    /\ threads_that (holds_key key) (threads s) = (if (permit b max w).1 then 1 else 0)
    /\ default 0 (value_of (counters s) <$> ct_table (counters s) !! key) = count_of (permit b max w).2 key.
Proof.
  intros key Hv. unfold system_run. cbn [foldl mbind option_bind system_step threads lookup list_lookup counters].
  destruct (counter key k) as [c k'] eqn:Ec.
  assert (Hk : ct_table k' !! key = Some c /\ value_of k' c = count_of w key).
  { pose proof (counter_in_table key k) as Hin. rewrite Ec in Hin. split; [done |]. rewrite <- Hv.
    unfold counter in Ec. destruct (ct_table k !! key); simplify_eq; simpl; [done |].
    unfold value_of. simpl. by rewrite lookup_insert_eq. }
  destruct Hk as [Hk Hc]. unfold permit. rewrite bind_run, connections_run. cbn [fst snd]. fold key.
  unfold set_thread. cbn [foldl mbind option_bind system_step threads lookup list_lookup counters insert list_insert].
  eexists. split; [reflexivity |]. unfold set_thread. cbn [counters threads insert list_insert]. rewrite Hc. unfold permit_turn, checked_add.
  destruct (match max with Some limit => limit <=? count_of w key | None => false end).
  - cbn. rewrite Hk. cbn. rewrite Hc. split; [done |]. symmetry. apply (count_of_counter_entry w b key).
  - destruct (count_of w key + 1 <=? USIZE_MAX).
    + unfold compare_exchange_weak. rewrite Z.eqb_refl. cbn [andb negb]. cbn. rewrite Hk. cbn.
      unfold count_of, value_of. cbn. rewrite !lookup_insert_eq. split; [by rewrite Z.eqb_refl | done].
    + cbn. rewrite Hk. cbn. rewrite Hc. split; [done |]. symmetry. apply (count_of_counter_entry w b key).
Qed.
