(* ===== verification/LbQueue.v ===== *)
(** * Waiting for a member ([queue.rs], [config_load_balance_queue.rs])

    A request that finds no member waits in a bounded queue, and tries again
    until its time is up.  What other tasks do while it sleeps is a parameter. *)
From Stdlib Require Import ZArith Lia.
From stdpp Require Import base list numbers strings sets gmap.
From S2P Require Import Prelude Text NetAddr LbRetry LbBackend LbState LbPolicy LbSelect LbMaglev LbKetama LbCookie LbPersistence LbBalancer LbFrame LbSelectProps LbBalancerProps.

(** ** The configuration *)

Record QueueConfig : Type := mkQueueConfig {
  max_waiting : Z;
  timeout_ms : Z;
  retry_interval_ms : Z;
}.
Definition MAX_LB_QUEUE_MAX_WAITING : Z := 100000.
Definition MAX_LB_QUEUE_TIMEOUT_MS : Z := 60000.
Definition MAX_LB_QUEUE_RETRY_INTERVAL_MS : Z := 1000.
Definition queue_enabled (q : QueueConfig) : bool := (0 <? max_waiting q) && (0 <? timeout_ms q).

Inductive QueueConfigError : Type :=
| MaxWaitingTooLarge
| TimeoutTooLarge
| RetryIntervalOutOfRange
| MaxWaitingRequired
| TimeoutRequired.
Definition queue_validate (q : QueueConfig) : result unit QueueConfigError :=
  if MAX_LB_QUEUE_MAX_WAITING <? max_waiting q then Err MaxWaitingTooLarge
  else if MAX_LB_QUEUE_TIMEOUT_MS <? timeout_ms q then Err TimeoutTooLarge
  else if (retry_interval_ms q =? 0) || (MAX_LB_QUEUE_RETRY_INTERVAL_MS <? retry_interval_ms q)
       then Err RetryIntervalOutOfRange
  else if (max_waiting q =? 0) && (0 <? timeout_ms q) then Err MaxWaitingRequired
  else if (0 <? max_waiting q) && (timeout_ms q =? 0) then Err TimeoutRequired
  else Ok tt.

(** ** The queue *)

Inductive LoadBalancerQueueOutcome : Type := Waited | Full | TimedOut.
Record SelectionResult : Type := mkSelectionResult {
  sr_selected : option SelectedUpstream;
  sr_queue_outcome : option LoadBalancerQueueOutcome;
  sr_queue_wait : option Z;
}.

(** The balancer and its count of waiting requests, both shared. *)
Record QueueState : Type := mkQueueState {
  qs_balancer : Balancer;
  qs_waiting : Z;
}.
(** [acquire_queue_slot] when no other thread interferes, and the slot's
    [drop]; the loop under interference is [LbAdmission.queue_turn]. *)
Definition acquire_queue_slot (q : QueueConfig) (s : QueueState) : option QueueState :=
  if max_waiting q <=? qs_waiting s then None
  else Some (mkQueueState (qs_balancer s) (qs_waiting s + 1)).
Definition release_queue_slot (s : QueueState) : QueueState :=
  mkQueueState (qs_balancer s) (qs_waiting s - 1).

(** [tokio::time::sleep]: the shared state when the task runs again. *)
Class Timer : Type := { asleep : Z -> QueueState -> World -> QueueState * World }.

Section Waiting.
Context `{Env} `{CookieEnv} `{KetamaEnv} `{Timer}.
Context (q : QueueConfig) (request : RequestView) (client_ip : option IpAddr).

(** [Instant::elapsed] *)
Definition elapsed (since : Z) : M Z := let! now := instant_now in ret (saturating_sub now since).

(** The loop of [select_or_wait_result]; [None] when the fuel is used up. *)
Fixpoint wait_loop (fuel : nat) (queued_at deadline : Z) (s : QueueState)
  : M (option (SelectionResult * QueueState)) :=
  match fuel with
  | O => ret None
  | S fuel' =>
      let! r := select (qs_balancer s) request client_ip in
      let s := mkQueueState r.2 (qs_waiting s) in
      match r.1 with
      | Some selected =>
          let! wait := elapsed queued_at in
          ret (Some (mkSelectionResult (Some selected) (Some Waited) (Some wait), s))
      | None =>
          let! now := instant_now in
          if deadline <=? now then
            let! wait := elapsed queued_at in
            ret (Some (mkSelectionResult None (Some TimedOut) (Some wait), s))
          else
            let sleep_for := Z.min (saturating_sub deadline now) (duration_from_millis (retry_interval_ms q)) in
            let! s := asleep sleep_for s in
            wait_loop fuel' queued_at deadline s
      end
  end.

Definition select_or_wait_result (fuel : nat) (s : QueueState) : M (option (SelectionResult * QueueState)) :=
  let! r := select (qs_balancer s) request client_ip in
  let s := mkQueueState r.2 (qs_waiting s) in
  match r.1 with
  | Some selected => ret (Some (mkSelectionResult (Some selected) None None, s))
  | None =>
      if negb (queue_enabled q) then ret (Some (mkSelectionResult None None None, s))
      else
        match acquire_queue_slot q s with
        | None => ret (Some (mkSelectionResult None (Some Full) None, s))
        | Some s =>
            let! queued_at := instant_now in
            let deadline := queued_at + duration_from_millis (timeout_ms q) in
            let! r := wait_loop fuel queued_at deadline s in
            ret (prod_map id release_queue_slot <$> r)
        end
  end.
End Waiting.

(** ** The wait ends *)

(** The clock does not go back, a sleep does not end early, and whatever ran
    in between left no negative count. *)
Class TimerLaws `{Env} `{Timer} : Prop := {
  clock_mono : forall m n, (m <= n)%nat -> clock m <= clock n;
  asleep_late : forall d s w n, w_tick w = S n -> clock n + d <= clock (w_tick (asleep d s w).2);
  asleep_counts : forall d s w, counts_ok w -> counts_ok (asleep d s w).2;
}.

Section Terminates.
Context `{Env} `{CookieEnv} `{KetamaEnv} `{Timer} `{!TimerLaws}.
Context (q : QueueConfig) (request : RequestView) (client_ip : option IpAddr).

(** What a request that waited is told. *)
Definition wait_ok (r : SelectionResult) : Prop :=
  match sr_queue_outcome r with
  | Some Waited => is_Some (sr_selected r)
  | Some TimedOut =>
      sr_selected r = None
      /\ exists wait, sr_queue_wait r = Some wait /\ duration_from_millis (timeout_ms q) <= wait
  | _ => False
  end.

Lemma select_none_frame bal w :
  counts_ok w -> (select bal request client_ip w).1.1 = None -> frame w (select bal request client_ip w).2.
Proof using Type.
  intros Hc Hn. pose proof (select_run_admits bal request client_ip w Hc) as Ha. cbv zeta in Ha. by rewrite Hn in Ha.
Qed.
Lemma instant_now_run w : (instant_now w).1 = clock (w_tick w) /\ w_tick (instant_now w).2 = S (w_tick w).
Proof using Type. done. Qed.

Lemma wait_loop_ends fuel queued_at s w :
  1 <= retry_interval_ms q -> counts_ok w -> (0 < fuel)%nat ->
  let deadline := queued_at + duration_from_millis (timeout_ms q) in
  deadline <= clock (w_tick w) + duration_from_millis (Z.of_nat fuel - 1) ->
  exists r s', (wait_loop q request client_ip fuel queued_at deadline s w).1 = Some (r, s') /\ wait_ok r.
Proof using All.
  intros Hi. cbv zeta. set (deadline := queued_at + duration_from_millis (timeout_ms q)). revert s w.
  induction fuel as [| fuel IH]; intros s w Hc Hf Hd; [lia |]. cbn [wait_loop]. rewrite bind_run.
  pose proof (select_none_frame (qs_balancer s) w Hc) as Hn.
  destruct (select (qs_balancer s) request client_ip w) as [[[sel |] bal] w1]; cbn [fst snd] in *.
  - rewrite bind_run. eexists _, _. split; [reflexivity |]. unfold wait_ok. simpl. eauto.
  - specialize (Hn eq_refl). pose proof (clock_mono _ _ (fr_tick _ _ Hn)) as Hm.
    rewrite bind_run. destruct (instant_now_run w1) as [-> Ht]. set (w2 := (instant_now w1).2) in *.
    case Z.leb_spec; intros Hnow.
    + rewrite bind_run. eexists _, _. split; [reflexivity |]. split; [done |]. eexists. split; [reflexivity |].
      change (duration_from_millis (timeout_ms q) <= saturating_sub (clock (w_tick w2)) queued_at).
      pose proof (clock_mono (w_tick w1) (w_tick w2) ltac:(lia)). unfold saturating_sub. lia.
    + rewrite bind_run. set (d := Z.min _ _). pose proof (asleep_late d (mkQueueState bal (qs_waiting s)) w2 _ Ht) as Hs.
      assert (Hlong : deadline - clock (w_tick w1) <= d \/ 1000000 <= d)
        by (unfold d, saturating_sub, duration_from_millis; lia).
      clearbody d. apply IH.
      * apply asleep_counts. eapply counts_ok_frame; [| exact Hc]. transitivity w1; [done |]. apply framed_instant_now.
      * unfold duration_from_millis in *. lia.
      * unfold duration_from_millis in Hd |- *. lia.
Qed.
End Terminates.

(** For every accepted configuration, a request gets its answer after at
    most one attempt more than its timeout has milliseconds, whatever other
    tasks do meanwhile: a member, or a timeout no earlier than configured, or
    that the queue was full, or nothing at once when there is no queue. *)
Theorem select_or_wait_terminates `{Env} `{CookieEnv} `{KetamaEnv} `{Timer} `{!TimerLaws}
    (q : QueueConfig) (request : RequestView) (client_ip : option IpAddr) (s : QueueState) (w : World) :
  queue_validate q = Ok tt -> 0 <= timeout_ms q -> 0 <= retry_interval_ms q -> counts_ok w ->
  exists r s',
    (select_or_wait_result q request client_ip (Z.to_nat (timeout_ms q) + 1) s w).1 = Some (r, s')
    /\ match sr_queue_outcome r with
       | None => is_Some (sr_selected r) \/ queue_enabled q = false
       | Some Full => sr_selected r = None /\ max_waiting q <= qs_waiting s
       | Some _ => wait_ok q r
       end.
Proof.
  intros Hq Ht Hi Hc. assert (Hr : 1 <= retry_interval_ms q).
  { unfold queue_validate in Hq. repeat (case_match; [done |]). breflect. lia. }
  unfold select_or_wait_result. rewrite bind_run. pose proof (select_none_frame request client_ip (qs_balancer s) w Hc) as Hn.
  destruct (select (qs_balancer s) request client_ip w) as [[[sel |] bal] w1]; cbn [fst snd] in *.
  { eexists _, _. split; [reflexivity |]. simpl. eauto. }
  specialize (Hn eq_refl). destruct (queue_enabled q); [| eexists _, _; split; [reflexivity |]; simpl; eauto].
  unfold acquire_queue_slot. cbn [qs_waiting negb]. case Z.leb_spec; intros Hw.
  { eexists _, _. split; [reflexivity |]. simpl. eauto. }
  rewrite bind_run. destruct (instant_now_run w1) as [-> Htick]. rewrite bind_run.
  match goal with |- context [wait_loop _ _ _ ?f ?a _ ?s2 ?w2] =>
    destruct (wait_loop_ends q request client_ip f a s2 w2) as (r & s' & E & Hok) end; [done | | lia | |].
  - eapply counts_ok_frame; [| exact Hc]. transitivity w1; [done |]. apply framed_instant_now.
  - rewrite Htick. pose proof (clock_mono (w_tick w1) (S (w_tick w1)) ltac:(lia)).
    unfold duration_from_millis. lia.
  - exists r, (release_queue_slot s'). rewrite E. split; [done |]. unfold wait_ok in *.
    destruct (sr_queue_outcome r) as [[] |]; done.
Qed.

(** A pool whose members are both at their limits, and no other task. *)
#[local] Existing Instance sample_cookie_clock.
#[local] Existing Instance sample_cookie_env.
#[local] Existing Instance sample_env.
Definition full_world : World :=
  set_counts (fun _ => {[backend_key first_member := 10; backend_key second_member := 2]}) small_world.
Definition lone_timer : Timer := {|
  asleep := fun d s w =>
    (s, mkWorld (w_tick w + Z.to_nat (d / 1000000000) + 1) (w_entropy w) (w_passive w) (w_slow w) (w_sample_counter w)
          (w_counts w) (w_latency w) (w_cursor w) (w_table w) (w_ring w))
|}.
#[local] Existing Instance lone_timer.
Lemma lone_timer_laws : TimerLaws.
Proof.
  split.
  - intros m n Hmn. cbn. lia.
  - intros d s w n Hn. cbn. rewrite Hn. pose proof (Z.div_mod d 1000000000 ltac:(lia)).
    pose proof (Z.mod_pos_bound d 1000000000 ltac:(lia)). lia.
  - done.
Qed.
Lemma full_counts_ok : counts_ok full_world.
Proof.
  intros key. unfold count_of, full_world, set_counts. cbn [w_counts].
  generalize (backend_key first_member) (backend_key second_member). intros first second.
  rewrite lookup_insert. case_decide; [done |]. rewrite lookup_singleton. by case_decide.
Qed.
Lemma select_or_wait_terminates_witness :
  let q := mkQueueConfig 1 5 1 in
  exists r s',
    (select_or_wait_result q plain_request None 6 (mkQueueState (small_balancer RoundRobin None) 0) full_world).1
    = Some (r, s')
    /\ sr_queue_outcome r = Some TimedOut /\ wait_ok q r.
Proof.
  intros q.
  destruct (@select_or_wait_terminates _ _ _ _ lone_timer_laws q plain_request None
    (mkQueueState (small_balancer RoundRobin None) 0) full_world) as (r & s' & E & Hr);
    [reflexivity | cbn; lia | cbn; lia | exact full_counts_ok |].
  exists r, s'. change (Z.to_nat (timeout_ms q) + 1)%nat with 6%nat in E. split; [exact E |].
  assert (Eo : (fst <$> (select_or_wait_result q plain_request None 6
    (mkQueueState (small_balancer RoundRobin None) 0) full_world).1) ≫= sr_queue_outcome = Some TimedOut)
    by (vm_compute; reflexivity).
  rewrite E in Eo. cbn in Eo. rewrite Eo in Hr. split; [exact Eo | exact Hr].
Defined.
