(* ===== verification/LbFair.v ===== *)
(** * Fairness of weighted round robin

    In a pool without passive health and slow start, as many consecutive
    selections as the weights add up to send to every candidate exactly its
    weight. *)
From Stdlib Require Import ZArith Lia.
From stdpp Require Import base list numbers strings sets gmap sorting.
From S2P Require Import Prelude Text NetAddr LbRetry LbBackend LbState LbPolicy LbSelect LbMaglev LbKetama LbCookie LbPersistence LbBalancer LbFrame LbSelectProps LbServes.

(** ** The weights as a list of turns *)

Definition turns (l : list (FluxBackend * Z)) : list FluxBackend :=
  concat ((fun c => replicate (Z.to_nat c.2) c.1) <$> l).

Lemma turns_cons c l : turns (c :: l) = replicate (Z.to_nat c.2) c.1 ++ turns l.
Proof. done. Qed.
Lemma turns_elem l b : b ∈ turns l -> b ∈ l.*1.
Proof.
  induction l as [| c l IH]; [by intros ?%not_elem_of_nil |]. rewrite turns_cons, elem_of_app, elem_of_replicate.
  intros [[-> _] | Hb]; [by left | right; by apply IH].
Qed.
Lemma turns_length l : Forall (fun c => 0 <= c.2) l -> zlen (turns l) = weight_sum l.
Proof.
  unfold zlen. induction 1 as [| c l Hc Hl IH]; [done |].
  change (weight_sum (c :: l)) with (c.2 + weight_sum l). rewrite turns_cons, length_app, length_replicate. lia.
Qed.
Lemma pick_turns l t :
  Forall (fun c => 0 <= c.2) l -> 0 <= t -> pick l t = turns l !! Z.to_nat t.
Proof.
  intros Hl. revert t. induction Hl as [| [b w] l Hw Hl IH]; intros t Ht; simpl; [done |].
  rewrite turns_cons. cbn [fst snd] in *. case Z.ltb_spec; intros Hlt.
  - rewrite lookup_app_l by (rewrite length_replicate; lia). symmetry. apply lookup_replicate_2. lia.
  - rewrite lookup_app_r by (rewrite length_replicate; lia). rewrite length_replicate, saturating_sub_exact by lia.
    rewrite IH by lia. f_equal. lia.
Qed.

(** Consecutive numbers modulo [n] go once around. *)
Lemma seqZ_rotate c n :
  0 < n -> (fun k => (c + k) mod n) <$> seqZ 0 n = seqZ (c mod n) (n - c mod n) ++ seqZ 0 (c mod n).
Proof.
  intros Hn. pose proof (Z.mod_pos_bound c n Hn) as Hr. set (r := c mod n) in *.
  assert (Ec : c = n * (c / n) + r) by (by apply Z.div_mod; lia).
  apply list_eq. intros i. rewrite list_lookup_fmap.
  destruct (decide (Z.of_nat i < n)) as [Hi | Hi].
  - rewrite lookup_seqZ_lt by lia. simpl. destruct (decide (Z.of_nat i < n - r)) as [Hlt | Hge].
    + rewrite lookup_app_l by (rewrite length_seqZ; lia). rewrite lookup_seqZ_lt by lia. f_equal.
      symmetry. apply (Z.mod_unique_pos _ _ (c / n)); lia.
    + rewrite lookup_app_r by (rewrite length_seqZ; lia). rewrite length_seqZ, lookup_seqZ_lt by lia. f_equal.
      symmetry. apply (Z.mod_unique_pos _ _ (c / n + 1)); lia.
  - rewrite lookup_seqZ_ge by lia. simpl. symmetry. apply lookup_ge_None.
    rewrite length_app, !length_seqZ. lia.
Qed.
Lemma seqZ_rotate_perm c n : 0 < n -> (fun k => (c + k) mod n) <$> seqZ 0 n ≡ₚ seqZ 0 n.
Proof.
  intros Hn. pose proof (Z.mod_pos_bound c n Hn). rewrite seqZ_rotate by done.
  rewrite (Permutation_app_comm (seqZ (c mod n) _)).
  replace (seqZ 0 n) with (seqZ 0 (c mod n + (n - c mod n))) by (f_equal; lia).
  rewrite seqZ_app by lia. done.
Qed.
Lemma seqZ_lookups {A} (l : list A) : (fun t => l !! Z.to_nat t) <$> seqZ 0 (zlen l) = Some <$> l.
Proof.
  apply list_eq. intros i. rewrite !list_lookup_fmap. destruct (decide (i < length l)%nat) as [Hi | Hi].
  - rewrite lookup_seqZ_lt by (unfold zlen; lia).
    destruct (lookup_lt_is_Some_2 l i Hi) as [x Hx]. rewrite Hx. cbn [fmap option_fmap option_map].
    f_equal. rewrite <- Hx. f_equal. lia.
  - rewrite lookup_seqZ_ge by (unfold zlen; lia). rewrite lookup_ge_None_2 by lia. done.
Qed.
(** A whole round of the cursor takes every turn once. *)
Lemma turns_round l c :
  Forall (fun x => 0 <= x.2) l -> 0 < weight_sum l ->
  (fun k => pick l ((c + k) mod weight_sum l)) <$> seqZ 0 (weight_sum l) ≡ₚ Some <$> turns l.
Proof.
  intros Hl Hpos. rewrite <- seqZ_lookups, (turns_length l Hl).
  rewrite <- (seqZ_rotate_perm c) at 2 by done. rewrite <- list_fmap_compose.
  apply eq_subrelation; [apply _ |]. apply list_fmap_ext. intros i k Hk. simpl.
  apply pick_turns; [done | by apply Z.mod_pos_bound].
Qed.
Lemma turns_count l b w :
  NoDup l.*1 -> (b, w) ∈ l -> 0 <= w -> Z.of_nat (length (filter (fun c => c = b) (turns l))) = w.
Proof.
  induction l as [| [c v] l IH]; intros Hnd Hin Hw; [by apply not_elem_of_nil in Hin |].
  apply NoDup_cons in Hnd as [Hnin Hnd]. cbn [fst] in Hnin.
  rewrite turns_cons, filter_app, length_app. cbn [fst snd].
  apply elem_of_cons in Hin as [[= -> ->] | Hin].
  - rewrite (filter_all _ (replicate _ c)) by (by apply Forall_replicate). rewrite length_replicate.
    rewrite filter_none; [simpl; lia |]. apply Forall_forall. by intros x Hx%turns_elem ->.
  - rewrite filter_none; [simpl; by apply IH |]. apply Forall_replicate. intros ->.
    apply Hnin, list_elem_of_fmap. by exists (b, w).
Qed.

Lemma count_some {A} `{EqDecision A} (l : list A) b :
  length (filter (fun r => r = Some b) (Some <$> l)) = length (filter (fun c => c = b) l).
Proof.
  induction l as [| c l IH]; [done |]. cbn [fmap list_fmap]. rewrite !filter_cons.
  repeat case_decide; simplify_eq; cbn [length]; auto.
Qed.

(** ** A calm pool *)

Section Calm.
Context `{Env} (p : Pool) (Hpassive : pl_passive p = None) (Hslow : pl_slow_start p = None).

(** The same counts and the same cursor. *)
Definition same_turn (w w' : World) : Prop := frame w w' /\ w_cursor w' = w_cursor w.
#[local] Instance same_turn_preorder : PreOrder same_turn.
Proof.
  split; [intros w; split; reflexivity |]. intros w1 w2 w3 [F1 E1] [F2 E2].
  split; [by transitivity w2 | congruence].
Qed.

Lemma allowed_calm_at b pass ro w :
  let r := and_then (backend_candidate_base_allowed p b pass ro) (passive_health_candidate_allowed p b) w in
  r.1 = eligible p w pass b /\ same_turn w r.2.
Proof using Hpassive Hslow.
  cbv zeta. unfold passive_health_candidate_allowed. rewrite Hpassive. split.
  - rewrite and_then_run. simpl. rewrite andb_true_r. unfold backend_candidate_base_allowed, eligible.
    rewrite Hslow. destruct (snapshot_ready _ b); [| done]. rewrite and_then_run, permits_run.
    simpl. by destruct (ignore_slow_start pass); simpl; rewrite andb_true_r.
  - split; [apply framed_and_then; framed_tac |].
    unfold and_then. rewrite bind_run. unfold backend_candidate_base_allowed. rewrite Hslow.
    destruct (snapshot_ready _ b); [| done]. unfold and_then, permits. rewrite !bind_run.
    destruct (permits_statically _ _ _); [| done].
    destruct (p_max_in_flight _ !! _); [rewrite !bind_run, connections_run; simpl |]; repeat case_match; done.
Qed.

Lemma allowed_calm b pass w :
  (backend_candidate_allowed p b pass w).1 = eligible p w pass b
  /\ same_turn w (backend_candidate_allowed p b pass w).2.
Proof using Hpassive Hslow. apply (allowed_calm_at b pass false w). Qed.
Lemma allowed_read_only_calm b pass w :
  (backend_candidate_allowed_read_only p b pass w).1 = eligible p w pass b
  /\ same_turn w (backend_candidate_allowed_read_only p b pass w).2.
Proof using Hpassive Hslow. apply (allowed_calm_at b pass true w). Qed.

Definition pass_members (w : World) (pass : SelectionPass) : list FluxBackend :=
  filter (fun b => eligible p w pass b = true) (backends p).
Lemma members_frame (l : list FluxBackend) w w' pass :
  frame w w' -> filter (fun b => eligible p w' pass b = true) l = filter (fun b => eligible p w pass b = true) l.
Proof. intros F. apply filter_ext_in. intros b _. by rewrite (eligible_frame p w w'). Qed.

Lemma count_calm pass limit l w :
  0 <= limit ->
  let r := filter_take_count (fun b => backend_candidate_allowed_read_only p b pass) limit l w in
  r.1 = Z.min limit (zlen (filter (fun b => eligible p w pass b = true) l)) /\ same_turn w r.2.
Proof using Hpassive Hslow.
  revert limit w. induction l as [| b l IH]; intros limit w Hl; cbv zeta; simpl.
  { case Z.leb_spec; intros; simpl; (split; [unfold zlen; simpl; lia | reflexivity]). }
  case Z.leb_spec; intros Hlim; [simpl; split; [zlen_facts; lia | reflexivity] |].
  destruct (allowed_read_only_calm b pass w) as [Er [F1 Ec]]. rewrite bind_run, Er.
  set (w1 := (backend_candidate_allowed_read_only p b pass w).2) in *. rewrite filter_cons.
  destruct (eligible p w pass b).
  - rewrite decide_True by done. rewrite bind_run. simpl. destruct (IH (limit - 1) w1) as [E1 [F2 E2]]; [lia |].
    rewrite E1, (members_frame l w w1) by done. split; [unfold zlen; simpl; lia |].
    split; [by transitivity w1 | congruence].
  - rewrite decide_False by done. destruct (IH limit w1) as [E1 [F2 E2]]; [lia |].
    rewrite E1, (members_frame l w w1) by done. split; [done |]. split; [by transitivity w1 | congruence].
Qed.

Definition active (w : World) (pass : SelectionPass) : bool :=
  match minimum_priority_group pass with
  | None => true
  | Some group =>
      (p_priority_group_min_active (pl_policy p) <=? 1) || is_lowest_priority_group (pl_policy p) group
      || (p_priority_group_min_active (pl_policy p) <=? zlen (pass_members w pass))
  end.
Lemma activation_calm pass w :
  (priority_activation_satisfied p pass w).1 = active w pass
  /\ same_turn w (priority_activation_satisfied p pass w).2.
Proof using Hpassive Hslow.
  unfold priority_activation_satisfied, active. destruct (minimum_priority_group pass) as [g |]; [| split; [done | reflexivity]].
  set (n := p_priority_group_min_active _). destruct ((n <=? 1) || _) eqn:E; [split; [done | reflexivity] |].
  apply orb_false_iff in E as [E _]. breflect. rewrite bind_run.
  destruct (count_calm pass n (backends p) w) as [-> Hs]; [lia |]. split; [| exact Hs]. simpl.
  unfold pass_members. repeat case Z.leb_spec; intros; lia.
Qed.
Lemma candidates_calm pass w l :
  let r := candidates_in p (fun b => ret (effective_weight (pl_policy p) b)) pass l w in
  r.1 = (fun b => (b, effective_weight (pl_policy p) b)) <$> filter (fun b => eligible p w pass b = true) l
  /\ same_turn w r.2.
Proof using Hpassive Hslow.
  revert w. induction l as [| b l IH]; intros w; cbv zeta; [split; [done | reflexivity] |].
  cbn [candidates_in]. destruct (allowed_calm b pass w) as [Er [F1 Ec]]. rewrite bind_run, Er, filter_cons.
  set (w1 := (backend_candidate_allowed p b pass w).2) in *. destruct (IH w1) as [E1 [F2 E2]].
  rewrite (members_frame l w w1) in E1 by done.
  destruct (eligible p w pass b).
  - rewrite decide_True by done. rewrite !bind_run. cbn [ret fst snd]. rewrite E1. split; [done |].
    split; [by transitivity w1 | congruence].
  - rewrite decide_False by done. split; [done |]. split; [by transitivity w1 | congruence].
Qed.

(** The members of a pass with their weights. *)
Definition shares (w : World) (pass : SelectionPass) : list (FluxBackend * Z) :=
  (fun b => (b, effective_weight (pl_policy p) b)) <$> pass_members w pass.
Lemma shares_frame w w' pass : frame w w' -> shares w' pass = shares w pass.
Proof. intros F. unfold shares, pass_members. by rewrite (members_frame _ w w'). Qed.
Lemma shares_pos w pass : Forall (fun c => 1 <= c.2) (shares w pass).
Proof. apply Forall_fmap, Forall_forall. intros b _. simpl. unfold effective_weight. lia. Qed.
Lemma active_frame w w' pass : frame w w' -> active w' pass = active w pass.
Proof. intros F. unfold active, pass_members. by rewrite (members_frame _ w w'). Qed.
Definition usable (w : World) (pass : SelectionPass) : bool :=
  active w pass && negb (bool_decide (shares w pass = [])).
Definition first_usable (w : World) (passes : list SelectionPass) : option SelectionPass :=
  snd <$> list_find (fun pass => usable w pass = true) passes.

Lemma total_weight_from l acc :
  Forall (fun c : FluxBackend * Z => 1 <= c.2) l -> 0 <= acc -> acc + weight_sum l <= USIZE_MAX ->
  foldl (fun total c => saturating_add USIZE_MAX total (id c.2)) acc l = acc + weight_sum l.
Proof.
  revert acc. induction l as [| c l IH]; intros acc Hl Ha Hs; [cbn; lia |].
  apply Forall_cons in Hl as [Hc Hl]. change (weight_sum (c :: l)) with (c.2 + weight_sum l) in *.
  assert (0 <= weight_sum l).
  { clear -Hl. induction Hl; [done |]. unfold weight_sum in *. cbn [foldr]. lia. }
  cbn [foldl]. change (id c.2) with c.2. rewrite saturating_add_exact by lia. rewrite IH by (done || lia). lia.
Qed.
Lemma weight_sum_pos l : Forall (fun c : FluxBackend * Z => 1 <= c.2) l -> l <> [] -> 0 < weight_sum l.
Proof.
  intros Hl. induction Hl as [| c l Hc Hl IH]; [done |]. intros _.
  change (weight_sum (c :: l)) with (c.2 + weight_sum l). destruct l as [| d l]; [cbn; lia |].
  specialize (IH ltac:(done)). lia.
Qed.

Lemma round_robin_pass_calm pass w :
  weight_sum (shares w pass) <= USIZE_MAX ->
  let r := weighted_round_robin_pass p pass w in
  if bool_decide (shares w pass = [])
  then r.1 = None /\ same_turn w r.2
  else r.1 = pick (shares w pass) (w_cursor w mod weight_sum (shares w pass)) /\ frame w r.2
       /\ w_cursor r.2 = (w_cursor w + 1) mod (USIZE_MAX + 1).
Proof using Hpassive Hslow.
  intros Hmax. cbv zeta. unfold weighted_round_robin_pass, candidates.
  destruct (candidates_calm pass w (backends p)) as [El [F1 Ec]].
  change (_ <$> _) with (shares w pass) in El. rewrite bind_run, El. set (w1 := (candidates_in _ _ _ _ w).2) in *.
  pose proof (shares_pos w pass) as Hpos. unfold total_weight. rewrite total_weight_from by (done || lia).
  case_bool_decide as Hnil.
  - rewrite Hnil. cbn. split; [done |]. by split.
  - pose proof (weight_sum_pos _ Hpos Hnil). zcond. rewrite !bind_run. cbn. rewrite Ec. split; [done |].
    split; [| done]. transitivity w1; [done |]. apply (framed_set_cursor _ w1).
Qed.

(** What a round-robin selection does at [w]. *)
Definition takes_turn (w : World) (pass : SelectionPass) (r : option FluxBackend * World) : Prop :=
  r.1 = pick (shares w pass) (w_cursor w mod weight_sum (shares w pass)) /\ frame w r.2
  /\ w_cursor r.2 = (w_cursor w + 1) mod (USIZE_MAX + 1).
Lemma takes_turn_later w w2 pass r : same_turn w w2 -> takes_turn w2 pass r -> takes_turn w pass r.
Proof.
  intros [F E] (R1 & R2 & R3). unfold takes_turn in *. rewrite (shares_frame w w2), E in R1 by done. rewrite E in R3.
  split_and!; [done | by transitivity w2 | done].
Qed.
Lemma first_usable_later w w2 passes : frame w w2 -> first_usable w2 passes = first_usable w passes.
Proof.
  intros F. unfold first_usable. induction passes as [| q passes IH]; [done |]. cbn [list_find].
  unfold usable in *. rewrite (active_frame w w2), (shares_frame w w2) by done.
  case_decide; [done |]. rewrite <- !option_fmap_compose. exact IH.
Qed.
Lemma first_usable_cons w q passes :
  first_usable w (q :: passes) = if usable w q then Some q else first_usable w passes.
Proof.
  unfold first_usable. cbn [list_find]. destruct (usable w q); [by rewrite decide_True |].
  rewrite decide_False by done. rewrite <- option_fmap_compose. by destruct (list_find _ passes) as [[]|].
Qed.
Lemma try_passes_calm passes pass w :
  first_usable w passes = Some pass -> weight_sum (shares w pass) <= USIZE_MAX ->
  takes_turn w pass (try_passes p (weighted_round_robin_pass p) passes w).
Proof using Hpassive Hslow.
  revert w. induction passes as [| q passes IH]; intros w; [done |]. rewrite first_usable_cons. intros Hf Hmax.
  cbn [try_passes]. destruct (activation_calm q w) as [Ea [F1 Ec1]]. rewrite bind_run, Ea.
  set (w1 := (priority_activation_satisfied p q w).2) in *.
  assert (Hskip : forall w2, same_turn w w2 -> first_usable w passes = Some pass ->
    takes_turn w pass (try_passes p (weighted_round_robin_pass p) passes w2)).
  { intros w2 Hs Hfu. apply (takes_turn_later w w2); [done |]. apply IH; [by rewrite (first_usable_later w w2) by apply Hs |].
    rewrite (shares_frame w w2); [done | apply Hs]. }
  assert (Hs1 : same_turn w w1) by (by split).
  unfold usable in Hf. destruct (active w q); simpl in Hf; [| by apply Hskip].
  rewrite bind_run. destruct (bool_decide (shares w q = [])) eqn:En; simpl in Hf.
  - breflect. pose proof (round_robin_pass_calm q w1) as Hr. cbv zeta in Hr.
    rewrite (shares_frame w w1), En, bool_decide_eq_true_2 in Hr by done.
    destruct Hr as [-> Hs2]; [done |]. apply Hskip; [by transitivity w1 | done].
  - injection Hf as ->. pose proof (round_robin_pass_calm pass w1) as Hr. cbv zeta in Hr.
    rewrite (shares_frame w w1), En in Hr by done. destruct (Hr Hmax) as (R1 & R2 & R3).
    breflect. pose proof (weight_sum_pos _ (shares_pos w pass) En) as Hpos.
    assert (Hsome : is_Some (weighted_round_robin_pass p pass w1).1).
    { rewrite R1. apply pick_some; [apply shares_pos | by apply Z.mod_pos_bound]. }
    destruct Hsome as [b Eb]. rewrite Eb in R1 |- *. apply (takes_turn_later w w1); [done |].
    unfold takes_turn. rewrite (shares_frame w w1) by done. by split_and!.
Qed.

(** [n] selections, one after the other. *)
Fixpoint round_robins (n : nat) (w : World) : list (option FluxBackend) :=
  match n with
  | O => []
  | S n' => let r := select_weighted_round_robin p w in r.1 :: round_robins n' r.2
  end.
Lemma round_robins_run pass n w :
  first_usable w (selection_passes p) = Some pass -> weight_sum (shares w pass) <= USIZE_MAX ->
  0 <= w_cursor w -> w_cursor w + Z.of_nat n <= USIZE_MAX + 1 ->
  round_robins n w
  = (fun k => pick (shares w pass) ((w_cursor w + k) mod weight_sum (shares w pass))) <$> seqZ 0 (Z.of_nat n).
Proof using Hpassive Hslow.
  revert w. induction n as [| n IH]; intros w Hf Hmax Hc Hn; [done |].
  destruct (try_passes_calm (selection_passes p) pass w Hf Hmax) as (R1 & R2 & R3).
  cbn [round_robins]. cbv zeta. change (try_passes _ _ _ w) with (select_weighted_round_robin p w) in *.
  rewrite R1. set (w1 := (select_weighted_round_robin p w).2) in *.
  rewrite seqZ_cons by lia. cbn [fmap list_fmap]. f_equal; [by rewrite Z.add_0_r |].
  destruct n as [| n]; [done |].
  assert (Ec : w_cursor w1 = w_cursor w + 1) by (rewrite R3; apply Z.mod_small; lia).
  rewrite (IH w1); [| by rewrite (first_usable_later w w1) | by rewrite (shares_frame w w1) | lia | lia].
  rewrite (shares_frame w w1) by done. rewrite Ec. replace (Z.pred (Z.of_nat (S (S n)))) with (Z.of_nat (S n)) by lia.
  change (Z.succ 0) with (1 + 0). rewrite <- fmap_add_seqZ, <- list_fmap_compose.
  apply list_fmap_ext. intros i k _. cbn. by rewrite Z.add_assoc.
Qed.
End Calm.


#[local] Existing Instance sample_cookie_clock.

(** * The least loaded candidate

    Least connections and least sessions return a candidate of smallest load
    relative to its weight. *)
(** ** The scan *)

Lemma scan_min_minimal {S} (lower : S -> S -> bool) (l : list (FluxBackend * S)) :
  (forall x y z, x ∈ l.*2 -> y ∈ l.*2 -> z ∈ l.*2 -> lower x y = true -> lower y z = true -> lower x z = true) ->
  (forall x, x ∈ l.*2 -> lower x x = false) ->
  match scan_min lower l with
  | None => l = []
  | Some s => s ∈ l /\ forall c, c ∈ l -> lower c.2 s.2 = false
  end.
Proof.
  intros Htrans Hirr. induction l as [| c l IH] using rev_ind; [done |]. unfold scan_min. rewrite foldl_snoc.
  fold (scan_min lower l). rewrite fmap_app in Htrans, Hirr.
  assert (IH' : match scan_min lower l with None => l = []
    | Some s => s ∈ l /\ forall c, c ∈ l -> lower c.2 s.2 = false end).
  { apply IH; [intros x y z ? ? ?; apply Htrans | intros x ?; apply Hirr]; set_solver. }
  clear IH. destruct (scan_min lower l) as [s |].
  - destruct IH' as [Hs Hmin]. assert (s.2 ∈ l.*2) by (by apply list_elem_of_fmap_2).
    destruct (lower c.2 s.2) eqn:E; (split; [set_solver |]); intros d [Hd | ->%list_elem_of_singleton]%elem_of_app.
    + destruct (lower d.2 c.2) eqn:Ed; [| done]. rewrite <- (Hmin d Hd). symmetry.
      eapply (Htrans d.2 c.2); [| set_solver | set_solver | done | done].
      apply elem_of_app. left. by apply list_elem_of_fmap_2.
    + apply Hirr. set_solver.
    + by apply Hmin.
    + done.
  - subst l. split; [set_solver |]. intros d ->%list_elem_of_singleton. apply Hirr. set_solver.
Qed.

(** Loads of two members compared by their weights: the products do not
    overflow. *)
Definition load_fits (c s : Z * Z) : Prop := 0 <= c.1 /\ 1 <= c.2 /\ c.1 * s.2 <= USIZE_MAX.
Lemma load_lower_iff c s : load_fits c s -> load_fits s c -> load_lower c s = true <-> c.1 * s.2 < s.1 * c.2.
Proof.
  unfold load_fits, load_lower, least_connections_score_is_lower, saturating_mul. intros (? & ? & ?) (? & ? & ?).
  rewrite Z.ltb_lt, !Z.min_l by lia. done.
Qed.
Lemma load_lower_trans x y z :
  load_fits x y -> load_fits y x -> load_fits y z -> load_fits z y -> load_fits x z -> load_fits z x ->
  load_lower x y = true -> load_lower y z = true -> load_lower x z = true.
Proof.
  intros Fxy Fyx Fyz Fzy Fxz Fzx. rewrite !load_lower_iff by done. unfold load_fits in *. intros H1 H2. nia.
Qed.
Lemma load_lower_irrefl x : load_fits x x -> load_lower x x = false.
Proof. intros F. apply not_true_is_false. rewrite load_lower_iff by done. lia. Qed.

(** ** The least loaded candidate of a pass *)

Section Least.
Context `{Env} (p : Pool) (w : World) (score : FluxBackend -> M (Z * Z)) (load : FluxBackend -> Z).
Context (Hframed : forall c, framed (score c)).
Context (Hread : forall c w', frame w w' -> (score c w').1 = (load c, effective_weight (pl_policy p) c)).
Context (Hload : forall c, 0 <= load c).
Context (Hfit : forall b c, b ∈ backends p -> c ∈ backends p ->
  load b * effective_weight (pl_policy p) c <= USIZE_MAX).

Lemma candidates_in_scores pass l w' :
  frame w w' ->
  Forall (fun x => x.1 ∈ l /\ x.2 = (load x.1, effective_weight (pl_policy p) x.1))
    (candidates_in p score pass l w').1.
Proof using Hread Hframed.
  revert w'. induction l as [| c l IH]; intros w' F; simpl; [constructor |]. rewrite bind_run.
  pose proof (framed_allowed p c pass w') as F1. set (w1 := (backend_candidate_allowed p c pass w').2) in *.
  assert (Hw : forall w2, frame w w2 -> Forall (fun x => x.1 ∈ c :: l /\ x.2 = (load x.1, effective_weight (pl_policy p) x.1))
    (candidates_in p score pass l w2).1).
  { intros w2 F2. eapply Forall_impl; [by apply IH |]. intros x [? ?]. split; [by right | done]. }
  destruct ((backend_candidate_allowed p c pass w').1); [| apply Hw; by transitivity w'].
  rewrite !bind_run. simpl. constructor.
  - simpl. split; [by left |]. apply Hread. by transitivity w'.
  - apply Hw. transitivity w1; [by transitivity w' | apply Hframed].
Qed.

Definition least_loaded (pass : SelectionPass) (b : FluxBackend) : Prop :=
  b ∈ backends p
  /\ forall c, no_slow_start p pass -> certain p pass w c ->
     load b * effective_weight (pl_policy p) c <= load c * effective_weight (pl_policy p) b.

Lemma least_pass_minimal pass w' b :
  frame w w' -> (least_pass p score load_lower pass w').1 = Some b -> least_loaded pass b.
Proof using Hread Hload Hframed Hfit.
  intros F Hb. unfold least_pass in Hb. rewrite bind_run in Hb. simpl in Hb. unfold candidates in Hb.
  pose proof (candidates_in_scores pass (backends p) w' F) as Hs.
  pose proof (fun c Hc Hn => candidates_in_certain p pass Hn score (backends p) w' c Hframed
    (certain_frame _ _ _ _ c F Hc)) as Hin.
  set (l := (candidates_in p score pass (backends p) w').1) in *. clearbody l.
  assert (Hf : forall x y, x ∈ l.*2 -> y ∈ l.*2 -> load_fits x y).
  { intros x y (u & -> & Hu)%list_elem_of_fmap (v & -> & Hv)%list_elem_of_fmap. rewrite Forall_forall in Hs.
    destruct (Hs u Hu) as [Hu1 ->], (Hs v Hv) as [Hv1 ->]. split_and!; simpl;
      [apply Hload | apply effective_weight_pos | by apply Hfit]. }
  pose proof (scan_min_minimal load_lower l) as Hm. apply fmap_Some in Hb as (s & Es & ->). rewrite Es in Hm.
  destruct Hm as [Hsl Hmin]; 
    [intros x y z ? ? ?; apply load_lower_trans; by apply Hf | intros x ?; apply load_lower_irrefl; by apply Hf |].
  rewrite Forall_forall in Hs. destruct (Hs s Hsl) as [Hb E2]. split; [done |].
  intros c Hn Hc. specialize (Hin c Hc Hn (proj1 Hc)). apply list_elem_of_fmap in Hin as (x & -> & Hx).
  specialize (Hmin x Hx). destruct (Hs x Hx) as [_ Ex].
  apply not_true_iff_false in Hmin. rewrite load_lower_iff in Hmin by (apply Hf; by apply list_elem_of_fmap_2).
  rewrite Ex, E2 in Hmin. simpl in Hmin. lia.
Qed.

Lemma try_passes_origin (f : SelectionPass -> M (option FluxBackend)) passes w' b :
  (forall pass, framed (f pass)) -> frame w w' -> (try_passes p f passes w').1 = Some b ->
  exists pass w1, pass ∈ passes /\ frame w w1 /\ (f pass w1).1 = Some b.
Proof using Type.
  clear. intros Hf. revert w'. induction passes as [| q passes IH]; intros w' F; simpl; [done |].
  assert (Hrest : forall w2, frame w w2 -> (try_passes p f passes w2).1 = Some b ->
    exists pass w1, pass ∈ q :: passes /\ frame w w1 /\ (f pass w1).1 = Some b).
  { intros w2 F2 Hb. destruct (IH w2 F2 Hb) as (pass & w1 & ? & ? & ?). exists pass, w1. split_and!; [by right | done | done]. }
  rewrite bind_run. assert (F1 : frame w (priority_activation_satisfied p q w').2)
    by (transitivity w'; [done | apply framed_activation]).
  destruct ((priority_activation_satisfied p q w').1); [| by apply Hrest]. rewrite bind_run.
  set (w1 := (priority_activation_satisfied p q w').2) in *.
  destruct ((f q w1).1) as [c |] eqn:Ec; simpl.
  - intros [= ->]. exists q, w1. split_and!; [by left | done | done].
  - apply Hrest. transitivity w1; [done | apply Hf].
Qed.

Lemma least_selection_minimal b :
  (by_passes p (least_pass p score load_lower) w).1 = Some b ->
  exists pass, pass ∈ selection_passes p /\ least_loaded pass b.
Proof using Hread Hload Hframed Hfit.
  intros Hb. apply try_passes_origin in Hb as (pass & w1 & Hp & F & Hb); [| | reflexivity].
  - exists pass. split; [done | by eapply least_pass_minimal].
  - intros pass. unfold least_pass, candidates. apply framed_bind; [by apply framed_candidates | intros; framed_tac].
Qed.
End Least.

(** Least connections returns a member whose connections per weight are
    least among the members that are certainly candidates in the same pass;
    the products compared must fit the machine word. *)
Theorem least_connections_minimal `{Env} (p : Pool) (w : World) (b : FluxBackend) :
  (forall key, 0 <= count_of w key) ->
  (forall c d, c ∈ backends p -> d ∈ backends p ->
     count_of w (backend_key c) * effective_weight (pl_policy p) d <= USIZE_MAX) ->
  (select_least_connections p w).1 = Some b ->
  exists pass, pass ∈ selection_passes p
    /\ least_loaded p w (fun c => count_of w (backend_key c)) pass b.
Proof.
  intros Hpos Hfit Hb. apply (least_selection_minimal p w (connections_score p)); [| | | done | done].
  - intros c. unfold connections_score. framed_tac.
  - intros c w' F. unfold connections_score. rewrite bind_run, connections_run. simpl. by rewrite (fr_counts _ _ F).
  - intros c. apply Hpos.
Qed.

(** Least sessions does the same with the sessions of the persistence
    table. *)
Theorem least_sessions_minimal `{Env} (p : Pool) (sessions : gmap Z Z) (w : World) (b : FluxBackend) :
  (forall key, 0 <= default 0 (sessions !! key)) ->
  (forall c d, c ∈ backends p -> d ∈ backends p ->
     default 0 (sessions !! backend_key c) * effective_weight (pl_policy p) d <= USIZE_MAX) ->
  (select_least_sessions p sessions w).1 = Some b ->
  exists pass, pass ∈ selection_passes p
    /\ least_loaded p w (fun c => default 0 (sessions !! backend_key c)) pass b.
Proof.
  intros Hpos Hfit Hb. apply (least_selection_minimal p w (sessions_score p sessions)); [| | | done | done].
  - intros c. unfold sessions_score. framed_tac.
  - done.
  - intros c. apply Hpos.
Qed.

#[local] Existing Instance sample_cookie_clock.
Lemma least_connections_minimal_witness :
  exists pass, pass ∈ selection_passes (small_pool None)
    /\ least_loaded (small_pool None) small_world (fun c => count_of small_world (backend_key c)) pass first_member.
Proof.
  apply (least_connections_minimal (small_pool None) small_world first_member).
  - intros key. unfold count_of. cbn [w_counts small_world]. rewrite lookup_singleton. case_decide; [done | done].
  - assert (Hall : Forall (fun c => Forall (fun d => count_of small_world (backend_key c)
      * effective_weight (pl_policy (small_pool None)) d <= USIZE_MAX) (backends (small_pool None)))
      (backends (small_pool None))) by (apply (bool_decide_unpack _); vm_compute; exact I).
    intros c d Hc Hd. rewrite Forall_forall in Hall. specialize (Hall c Hc). rewrite Forall_forall in Hall.
    exact (Hall d Hd).
  - vm_compute. reflexivity.
Defined.

(** * Consistent hashing by highest score

    The order in which [selection_consistent.rs] tries the members for a key:
    removing members leaves the order of the others as it was. *)
#[export] Instance ranked_le_total : Total ranked_le.
Proof. intros x y. unfold ranked_le. lia. Qed.
#[export] Instance ranked_le_trans : Transitive ranked_le.
Proof. intros x y z. unfold ranked_le. lia. Qed.

Section Rendezvous.
Context `{Env}.

(** [b] is tried before [c], or is [c]. *)
Definition ahead (p : Pool) (key : list Z) (b c : FluxBackend) : Prop := ranked_le (rank p key b) (rank p key c).

Lemma key_inj l b c : NoDup (backend_key <$> l) -> b ∈ l -> c ∈ l -> backend_key b = backend_key c -> b = c.
Proof.
  intros Hnd [i Hb]%list_elem_of_lookup [j Hc]%list_elem_of_lookup E.
  assert (i = j) as ->; [| congruence].
  eapply NoDup_lookup; [exact Hnd | |]; rewrite list_lookup_fmap; [by rewrite Hb | rewrite Hc; simpl; congruence].
Qed.
Lemma ahead_antisymm p key l b c :
  NoDup (backend_key <$> l) -> b ∈ l -> c ∈ l -> ahead p key b c -> ahead p key c b -> b = c.
Proof.
  intros Hnd Hb Hc H1 H2. apply (key_inj l); [done .. |]. unfold ahead, ranked_le in *. simpl in *. lia.
Qed.
Lemma sorted_of_fmap {A B} (f : A -> B) (R : B -> B -> Prop) l :
  StronglySorted R (f <$> l) -> StronglySorted (fun x y => R (f x) (f y)) l.
Proof.
  induction l as [| x l IH]; intros Hs; [constructor |]. rewrite fmap_cons in Hs. inversion Hs as [| ? ? Hl Hx]; subst.
  constructor; [by apply IH |]. by rewrite Forall_fmap in Hx.
Qed.

Lemma ranks_of_candidates p key :
  merge_sort ranked_le (rank p key <$> backends p) = rank p key <$> consistent_hash_candidates p key.
Proof.
  unfold consistent_hash_candidates. rewrite <- list_fmap_compose.
  assert (Hr : Forall (fun x => rank p key (rk_backend x) = x) (merge_sort ranked_le (rank p key <$> backends p))).
  { rewrite (merge_sort_Permutation ranked_le). apply Forall_fmap, Forall_forall. intros b _. done. }
  induction Hr as [| x l Hx _ IH]; [done |]. rewrite fmap_cons, <- IH. simpl. by rewrite Hx.
Qed.
Lemma candidates_sorted p key : StronglySorted (ahead p key) (consistent_hash_candidates p key).
Proof.
  apply (sorted_of_fmap (rank p key) ranked_le). rewrite <- ranks_of_candidates.
  apply (StronglySorted_merge_sort ranked_le).
Qed.
Lemma candidates_permutation p key : consistent_hash_candidates p key ≡ₚ backends p.
Proof.
  unfold consistent_hash_candidates. rewrite (merge_sort_Permutation ranked_le), <- list_fmap_compose.
  by rewrite (list_fmap_ext _ id), list_fmap_id.
Qed.
End Rendezvous.


#[local] Existing Instance sample_cookie_clock.
Definition without_first : Pool :=
  mkPool (update_inner (backend_set_insert backend_set_default second_member) (runtime_new None false))
    None None small_policy.
