(* ===== verification/LbMutation.v ===== *)
(** * Changes at run time ([runtime_mutation.rs], [runtime_state.rs],
    [inner.rs], [api.rs])

    The operations of the admin interface on a pool: state and weight of a
    member, members added, removed and retargeted, and the saved state.
    Writing the state file after an operation is left out. *)
From Stdlib Require Import ZArith Lia.
From stdpp Require Import base list numbers strings sets gmap.
From S2P Require Import Prelude Text NetAddr LbRetry LbBackend LbBackendProps LbState LbPolicy LbPolicyProps LbSelect LbMaglev LbKetama LbCookie LbPersistence LbBalancer LbFrame LbSelectProps LbBalancerProps.

(** ** Member references *)

(** [chars().any(char::is_whitespace)] on the UTF-8 bytes *)
Fixpoint has_whitespace (s : list Z) : bool :=
  match s with
  | [] => false
  | c0 :: s0 =>
      ws1 c0
      || match s0 with
         | c1 :: s1 => ws2 c0 c1 || match s1 with c2 :: _ => ws3 c0 c1 c2 | [] => false end
         | [] => false
         end
      || has_whitespace s0
  end.
Definition MAX_MEMBER_BYTES : Z := 256.
(** The test both functions below make of the trimmed reference. *)
Definition member_text_ok (member : list Z) : bool :=
  negb (bool_decide (member = [])) && (zlen member <=? MAX_MEMBER_BYTES) && negb (has_whitespace member).

Inductive MutationError : Type :=
| MemberInvalid
| MemberAmbiguous
| MemberNotConfigured
| AddressInvalid
| WeightOutOfRange
| AddressUnparsable
| OverrideTableFull
| WeightNotSupported
| StaticRing
| PoolNotStatic
| InFlight
| NothingChanges
| AliasedRetarget
| BackendSetRefused (e : BackendSetError).

Definition refers_to (aliases : gmap Z (list Z)) (member : list Z) (b : FluxBackend) : bool :=
  bool_decide (authority b = member)
  || match aliases !! backend_key b with
     | Some alias => eq_ignore_ascii_case alias member
     | None => false
     end.
Fixpoint match_member (aliases : gmap Z (list Z)) (member : list Z) (l : list FluxBackend)
    (matched : option FluxBackend) : result FluxBackend MutationError :=
  match l with
  | [] => ok_or matched MemberNotConfigured
  | b :: l' =>
      if refers_to aliases member b then
        match matched with
        | Some _ => Err MemberAmbiguous
        | None => match_member aliases member l' (Some b)
        end
      else match_member aliases member l' matched
  end.
Definition backend_by_member (bal : Balancer) (member : list Z) : result FluxBackend MutationError :=
  let member := trim member in
  if member_text_ok member then match_member (bl_aliases bal) member (backends (bl_pool bal)) None
  else Err MemberInvalid.

Definition runtime_backend_from_member (member : list Z) (w : Z) : result FluxBackend MutationError :=
  let member := trim member in
  if negb (member_text_ok member) then Err AddressInvalid
  else if (w =? 0) || (MAX_RUNTIME_BACKEND_WEIGHT <? w) then Err WeightOutOfRange
  else ok_or (new_with_weight member w) AddressUnparsable.

(** [parse_load_balancer_runtime_weight] and [parse_load_balancer_member_weight] *)
Inductive WeightTextError : Type := NotANumber | OutOfRange.
Definition parse_load_balancer_member_weight (value : list Z) : result Z WeightTextError :=
  match parse_uint USIZE_MAX (trim value) with
  | None => Err NotANumber
  | Some w => if (w =? 0) || (MAX_RUNTIME_BACKEND_WEIGHT <? w) then Err OutOfRange else Ok w
  end.
Definition parse_load_balancer_runtime_weight (value : list Z) : result (option Z) WeightTextError :=
  let value := trim value in
  if existsb (fun name => eq_ignore_ascii_case value (bs name)) ["default"; "reset"; "clear"; "configured"]
  then Ok None
  else match parse_uint USIZE_MAX value with
       | None => Err NotANumber
       | Some w => if (w =? 0) || (MAX_RUNTIME_BACKEND_WEIGHT <? w) then Err OutOfRange else Ok (Some w)
       end.

(** ** State and weight of a member *)

Definition supports_runtime_weight_override (a : Algorithm) : bool :=
  match a with RoundRobin | LeastConnections | LeastSessions | LeastTime => true | _ => false end.
Definition supports_runtime_backend_set_mutation (a : Algorithm) : bool :=
  match a with NginxConsistentHash _ | MaglevHash _ => false | _ => true end.

Definition set_overrides (o : Overrides) (bal : Balancer) : Balancer :=
  let q := pl_policy (bl_pool bal) in set_policy (set_runtime o (p_health_weights q) q) bal.

Section Mutation.
Context `{Env}.

Definition set_runtime_backend_state (bal : Balancer) (member : list Z)
    (state : LoadBalancerRuntimeBackendState) (unix_secs : Z) : M (result FluxBackend MutationError * Balancer) :=
  match backend_by_member bal member with
  | Err e => ret (Err e, bal)
  | Ok b =>
      let key := backend_key b in
      let p := bl_pool bal in
      let '(ok, o) := set_state key state unix_secs (p_runtime (pl_policy p)) in
      let bal := set_overrides o bal in
      if negb ok then ret (Err OverrideTableFull, bal)
      else
        when (bool_decide (state = ManualResume))
          (when (bool_decide (is_Some (pl_passive p))) (passive_clear_key key) ;;;
           when (bool_decide (is_Some (pl_slow_start p)))
             (let! now := instant_now in slow_reset_at key now)) ;;;
        ret (Ok b, bal)
  end.

(** The configured and the effective weight afterwards, and the override. *)
Definition set_runtime_backend_weight (bal : Balancer) (member : list Z) (w : option Z) (unix_secs : Z)
  : M (result (Z * Z * option Z) MutationError * Balancer) :=
  if negb (supports_runtime_weight_override (bl_algorithm bal)) then ret (Err WeightNotSupported, bal)
  else
    match backend_by_member bal member with
    | Err e => ret (Err e, bal)
    | Ok b =>
        let key := backend_key b in
        let '(ok, o) := set_weight key w unix_secs (p_runtime (pl_policy (bl_pool bal))) in
        let bal := set_overrides o bal in
        if negb ok then ret (Err OverrideTableFull, bal)
        else
          let q := pl_policy (bl_pool bal) in
          ret (Ok (weight b, effective_weight q b, ov_weights (p_runtime q) !! key), bal)
    end.

(** ** Members *)

Definition validate_runtime_backend_set_mutation (bal : Balancer) : result unit MutationError :=
  if negb (supports_runtime_backend_set_mutation (bl_algorithm bal)) then Err StaticRing
  else if negb (runtime_backend_set_mutable (pl_runtime (bl_pool bal))) then Err PoolNotStatic
  else Ok tt.

Inductive SetOperation : Type := Added | Removed | Updated.
Record SetMutation : Type := mkSetMutation {
  sm_member : list Z;
  sm_operation : SetOperation;
  sm_configured_weight : Z;
  sm_backend_count : Z;
  sm_address : list Z;
  sm_previous_address : option (list Z);
  sm_alias : option (list Z);
}.

Definition add_runtime_backend_member (bal : Balancer) (member : list Z) (w : Z)
  : M (result SetMutation MutationError * Balancer) :=
  match (let? _ := validate_runtime_backend_set_mutation bal in runtime_backend_from_member member w) with
  | Err e => ret (Err e, bal)
  | Ok b =>
      match add_runtime_backend b (pl_runtime (bl_pool bal)) with
      | (Err e, _) => ret (Err (BackendSetRefused e), bal)
      | (Ok n, r) =>
          ret (Ok (mkSetMutation (authority b) Added (weight b) n (authority b) None (bl_aliases bal !! backend_key b)),
               set_backend_runtime r bal)
      end
  end.

Definition clear_removed_backend_state (bal : Balancer) (key : Z) : M Balancer :=
  let p := bl_pool bal in
  when (bool_decide (is_Some (pl_passive p))) (passive_clear_key key) ;;;
  ret (set_policy (clear_runtime_key key (pl_policy p)) bal).

Definition remove_runtime_backend_member (bal : Balancer) (member : list Z)
  : M (result SetMutation MutationError * Balancer) :=
  match (let? _ := validate_runtime_backend_set_mutation bal in backend_by_member bal member) with
  | Err e => ret (Err e, bal)
  | Ok b =>
      let! in_flight := connections b in
      if 0 <? in_flight then ret (Err InFlight, bal)
      else
        let key := backend_key b in
        let alias := bl_aliases bal !! key in
        match remove_runtime_backend b (pl_runtime (bl_pool bal)) with
        | (Err e, _) => ret (Err (BackendSetRefused e), bal)
        | (Ok n, r) =>
            let! _ := connections b in
            let! bal := clear_removed_backend_state (set_backend_runtime r bal) key in
            let! bal := prune_stale_backend_state bal in
            ret (Ok (mkSetMutation (authority b) Removed (weight b) n (authority b) None alias), bal)
        end
  end.

(** The new address, and whether it is a new one. *)
Definition updated_authority_of (current : FluxBackend) (updated_member : option (list Z)) : list Z :=
  match trim <$> updated_member with
  | Some (_ :: _ as member) => member
  | _ => authority current
  end.
Definition update_runtime_backend_member (bal : Balancer) (member : list Z) (updated_member : option (list Z))
    (new_weight : option Z) : M (result SetMutation MutationError * Balancer) :=
  match (let? _ := validate_runtime_backend_set_mutation bal in backend_by_member bal member) with
  | Err e => ret (Err e, bal)
  | Ok current =>
      let updated_authority := updated_authority_of current updated_member in
      let w := default (weight current) new_weight in
      let retarget := negb (bool_decide (updated_authority = authority current)) in
      if negb retarget && (w =? weight current) then ret (Err NothingChanges, bal)
      else
        let key := backend_key current in
        let alias := bl_aliases bal !! key in
        if retarget && bool_decide (is_Some alias) then ret (Err AliasedRetarget, bal)
        else
          let! busy := (if retarget then let! n := connections current in ret (0 <? n) else ret false) in
          if busy : bool then ret (Err InFlight, bal)
          else
            match runtime_backend_from_member updated_authority w with
            | Err e => ret (Err e, bal)
            | Ok updated =>
                match update_runtime_backend current updated (pl_runtime (bl_pool bal)) with
                | (Err e, _) => ret (Err (BackendSetRefused e), bal)
                | (Ok n, r) =>
                    let bal := set_backend_runtime r bal in
                    let! bal := (if key =? backend_key updated then ret bal
                                 else let! _ := connections current in clear_removed_backend_state bal key) in
                    let! bal := prune_stale_backend_state bal in
                    ret (Ok (mkSetMutation (authority current) Updated (weight updated) n
                               (authority updated) (Some (authority current))
                               (match alias with
                                | Some alias => Some alias
                                | None => bl_aliases bal !! backend_key updated
                                end)), bal)
                end
            end
  end.

Definition clear_persistence (bal : Balancer) : M Z :=
  match bl_persistence bal with Some _ => clear_persistence_table | None => ret 0 end.
End Mutation.

(** ** The saved state *)

Definition LOAD_BALANCER_RUNTIME_STATE_VERSION : Z := 1.
Record RuntimeStateSnapshot : Type := mkRuntimeStateSnapshot {
  rs_version : Z;
  rs_runtime_overrides : PolicySnapshot;
  rs_persistence : option (list EntrySnapshot);
}.
Inductive RestoreError : Type :=
| UnsupportedVersion
| OverridesRefused (e : SnapshotError)
| PersistenceRefused (e : PersistenceSnapshotError).

Section SavedState.
Context `{Env}.

Definition runtime_state_snapshot (bal : Balancer) : M RuntimeStateSnapshot :=
  let overrides := policy_snapshot (p_runtime (pl_policy (bl_pool bal))) in
  match bl_persistence bal with
  | None => ret (mkRuntimeStateSnapshot LOAD_BALANCER_RUNTIME_STATE_VERSION overrides None)
  | Some s =>
      let! entries := persistence_snapshot s (live_backend_keys bal) in
      ret (mkRuntimeStateSnapshot LOAD_BALANCER_RUNTIME_STATE_VERSION overrides (Some entries))
  end.

(** The number of restored entries, and the balancer afterwards. *)
Definition restore_runtime_state_snapshot (bal : Balancer) (saved : RuntimeStateSnapshot)
  : M (result Z RestoreError * Balancer) :=
  if negb (rs_version saved =? LOAD_BALANCER_RUNTIME_STATE_VERSION) then ret (Err UnsupportedVersion, bal)
  else
    match prepare_snapshot (rs_runtime_overrides saved) with
    | Err e => ret (Err (OverridesRefused e), bal)
    | Ok o =>
        match bl_persistence bal, rs_persistence saved with
        | Some s, Some entries =>
            let! prepared := prepare_persistence s (live_backend_keys bal) entries in
            match prepared with
            | Err e => ret (Err (PersistenceRefused e), bal)
            | Ok t => commit_persistence t ;;; ret (Ok (Z.of_nat (size t)), set_overrides o bal)
            end
        | _, _ => ret (Ok 0, set_overrides o bal)
        end
    end.
End SavedState.

(** * Properties of the changes at run time *)
(** ** Member references *)

Lemma match_member_more aliases member l b :
  match_member aliases member l (Some b)
  = match filter (fun c => refers_to aliases member c = true) l with [] => Ok b | _ => Err MemberAmbiguous end.
Proof.
  induction l as [| x l IH]; [done |]. simpl. rewrite filter_cons. destruct (refers_to aliases member x); [done |].
  rewrite decide_False by done. apply IH.
Qed.
(** A reference names a member exactly when one member has it as its address
    or alias. *)
Lemma match_member_spec aliases member l :
  match_member aliases member l None
  = match filter (fun c => refers_to aliases member c = true) l with
    | [] => Err MemberNotConfigured
    | [b] => Ok b
    | _ => Err MemberAmbiguous
    end.
Proof.
  induction l as [| x l IH]; [done |]. simpl. rewrite filter_cons. destruct (refers_to aliases member x).
  - rewrite decide_True, match_member_more by done. by destruct (filter _ l).
  - rewrite decide_False by done. apply IH.
Qed.
Lemma backend_by_member_ok bal member b :
  backend_by_member bal member = Ok b ->
  filter (fun c => refers_to (bl_aliases bal) (trim member) c = true) (backends (bl_pool bal)) = [b].
Proof.
  unfold backend_by_member. destruct (member_text_ok _); [| done]. rewrite match_member_spec.
  destruct (filter _ _) as [| c [|]] eqn:Ef; try done. by intros [= ->].
Qed.

(** ** What a prune does *)

Section Prune.
Context `{Env} (bal : Balancer) (w : World).
Let p := bl_pool bal.
Let live := live_backend_keys bal.
Let w' := (prune_stale_backend_state bal w).2.

Lemma prune_fields :
  w_counts w' = retain (fun key n => bool_decide (key ∈ live) || (0 <? n)) (w_counts w)
  /\ (exists now, w_passive w' = if bool_decide (is_Some (pl_passive p))
        then retain (fun key state => bool_decide (key ∈ live)
               || match ejected_until state with Some until => now <? until | None => false end) (w_passive w)
        else w_passive w)
  /\ w_slow w' = (if bool_decide (is_Some (pl_slow_start p)) then retain (fun key _ => bool_decide (key ∈ live)) (w_slow w) else w_slow w)
  /\ w_latency w' = (if has_latency bal then retain (fun key _ => bool_decide (key ∈ live)) (w_latency w) else w_latency w)
  /\ w_table w' = (if bool_decide (is_Some (bl_persistence bal)) then prune_at live (clock (w_tick w)) (w_table w) else w_table w).
Proof.
  unfold w', prune_stale_backend_state, when. fold p live.
  destruct (bool_decide (is_Some (pl_passive p))), (bool_decide (is_Some (pl_slow_start p))), (has_latency bal),
    (bool_decide (is_Some (bl_persistence bal))); split_and!;
    (reflexivity || (eexists; reflexivity) || (exists 0; reflexivity)).
Qed.

(** Nothing is left of a member that is gone, except an ejection under way. *)
Lemma prune_forgets key :
  key ∉ live ->
  (count_of w key = 0 -> w_counts w' !! key = None)
  /\ (w_passive w !! key = None -> w_passive w' !! key = None)
  /\ (is_Some (pl_slow_start p) -> w_slow w' !! key = None)
  /\ (has_latency bal = true -> w_latency w' !! key = None)
  /\ (is_Some (bl_persistence bal) -> forall k e, w_table w' !! k = Some e -> pe_backend_key e <> key).
Proof.
  intros Hk. destruct prune_fields as (Ec & [now Ep] & Es & El & Et). rewrite Ec, Ep, Es, El, Et.
  assert (Hgone : bool_decide (key ∈ live) = false) by (by apply bool_decide_eq_false).
  split_and!.
  - unfold count_of. intros Hz. rewrite lookup_retain. destruct (w_counts w !! key); [| done]. simpl in Hz. subst.
    by rewrite Hgone.
  - intros Hp. destruct (bool_decide (is_Some (pl_passive p))); [| done]. by rewrite lookup_retain, Hp.
  - intros Hs. rewrite (bool_decide_eq_true_2 _ Hs), lookup_retain, Hgone. by destruct (w_slow w !! key).
  - intros ->. rewrite lookup_retain, Hgone. by destruct (w_latency w !! key).
  - intros Hs k e. rewrite (bool_decide_eq_true_2 _ Hs). unfold prune_at. rewrite map_lookup_filter_Some.
    intros [_ He] <-. simpl in He. unfold entry_live in He. breflect. done.
Qed.

(** Nothing changes for a member of the pool. *)
Lemma prune_keeps key :
  key ∈ live ->
  w_counts w' !! key = w_counts w !! key /\ w_passive w' !! key = w_passive w !! key
  /\ w_slow w' !! key = w_slow w !! key /\ w_latency w' !! key = w_latency w !! key
  /\ forall k e, w_table w !! k = Some e -> pe_backend_key e = key -> clock (w_tick w) < pe_expires_at e ->
     w_table w' !! k = Some e.
Proof.
  intros Hk. destruct prune_fields as (Ec & [now Ep] & Es & El & Et). rewrite Ec, Ep, Es, El, Et.
  assert (Hlive : bool_decide (key ∈ live) = true) by (by apply bool_decide_eq_true).
  split_and!.
  - rewrite lookup_retain, Hlive. by destruct (w_counts w !! key).
  - destruct (bool_decide (is_Some (pl_passive p))); [| done]. rewrite lookup_retain, Hlive. by destruct (w_passive w !! key).
  - destruct (bool_decide (is_Some (pl_slow_start p))); [| done]. rewrite lookup_retain, Hlive. by destruct (w_slow w !! key).
  - destruct (has_latency bal); [| done]. rewrite lookup_retain, Hlive. by destruct (w_latency w !! key).
  - intros k e He Hb Hexp. destruct (bool_decide (is_Some (bl_persistence bal))); [| done]. unfold prune_at. apply map_lookup_filter_Some. split; [done |].
    simpl. unfold entry_live. subst key. rewrite Hlive. zcond. done.
Qed.
End Prune.

(** ** A removed member *)

(** No state of the key is left. *)
Record forgotten (bal : Balancer) (w : World) (key : Z) : Prop := mkForgotten {
  fg_state : override_state (p_runtime (pl_policy (bl_pool bal))) key = None;
  fg_weight : ov_weights (p_runtime (pl_policy (bl_pool bal))) !! key = None;
  fg_health_weight : p_health_weights (pl_policy (bl_pool bal)) !! key = None;
  fg_count : w_counts w !! key = None;
  fg_passive : is_Some (pl_passive (bl_pool bal)) -> w_passive w !! key = None;
  fg_slow : is_Some (pl_slow_start (bl_pool bal)) -> w_slow w !! key = None;
  fg_latency : has_latency bal = true -> w_latency w !! key = None;
  fg_table : is_Some (bl_persistence bal) -> forall k e, w_table w !! k = Some e -> pe_backend_key e <> key;
}.
(** The key's state is the same in both, its unexpired sessions are kept. *)
Record undisturbed (bal bal' : Balancer) (w w' : World) `{Env} (key : Z) : Prop := mkUndisturbed {
  un_state : override_state (p_runtime (pl_policy (bl_pool bal'))) key
             = override_state (p_runtime (pl_policy (bl_pool bal))) key;
  un_weight : ov_weights (p_runtime (pl_policy (bl_pool bal'))) !! key
              = ov_weights (p_runtime (pl_policy (bl_pool bal))) !! key;
  un_health_weight : p_health_weights (pl_policy (bl_pool bal')) !! key
                     = p_health_weights (pl_policy (bl_pool bal)) !! key;
  un_count : count_of w' key = count_of w key;
  un_passive : w_passive w' !! key = w_passive w !! key;
  un_slow : w_slow w' !! key = w_slow w !! key;
  un_latency : w_latency w' !! key = w_latency w !! key;
  un_table : forall k e, w_table w !! k = Some e -> pe_backend_key e = key -> clock (w_tick w) < pe_expires_at e ->
    w_table w' !! k = Some e;
}.

Lemma override_state_ext o o' key :
  (key ∈ ov_drain o <-> key ∈ ov_drain o') -> (key ∈ ov_disabled o <-> key ∈ ov_disabled o') ->
  (key ∈ ov_forced_down o <-> key ∈ ov_forced_down o') -> override_state o key = override_state o' key.
Proof. intros H1 H2 H3. unfold override_state. by rewrite (bool_decide_ext _ _ H1), (bool_decide_ext _ _ H2), (bool_decide_ext _ _ H3). Qed.

Section Removed.
Context `{Env}.

(** The policy after the clearing of [key] and the prune. *)
Definition cleared (key : Z) (live : gset Z) (q : BackendSelectionPolicy) : BackendSelectionPolicy :=
  policy_prune_stale live (clear_runtime_key key q).
Lemma cleared_key key live q :
  let o := p_runtime (cleared key live q) in
  override_state o key = None /\ ov_weights o !! key = None /\ p_health_weights (cleared key live q) !! key = None.
Proof.
  cbn. split_and!.
  - unfold override_state. cbn. rewrite !bool_decide_eq_false_2; [done | set_solver ..].
  - rewrite lookup_retain. by rewrite lookup_delete_eq.
  - rewrite lookup_retain. by rewrite lookup_delete_eq.
Qed.
Lemma cleared_other key live q k :
  k <> key -> k ∈ live ->
  let o := p_runtime (cleared key live q) in
  override_state o k = override_state (p_runtime q) k /\ ov_weights o !! k = ov_weights (p_runtime q) !! k
  /\ p_health_weights (cleared key live q) !! k = p_health_weights q !! k.
Proof.
  intros Hne Hk. cbn. split_and!.
  - apply override_state_ext; cbn; set_solver.
  - rewrite lookup_retain, lookup_delete_ne by done. rewrite (bool_decide_eq_true_2 _ Hk). simpl. by case_match.
  - rewrite lookup_retain, lookup_delete_ne by done. rewrite (bool_decide_eq_true_2 _ Hk). by case_match.
Qed.

Lemma set_policy_live q bal : live_backend_keys (set_policy q bal) = live_backend_keys bal.
Proof. done. Qed.
(** Clearing a key that is gone, and the prune. *)
Definition forget (key : Z) (bal : Balancer) : M Balancer :=
  let! bal := clear_removed_backend_state bal key in prune_stale_backend_state bal.
Lemma clear_run key bal w :
  clear_removed_backend_state bal key w
  = (set_policy (clear_runtime_key key (pl_policy (bl_pool bal))) bal,
     if bool_decide (is_Some (pl_passive (bl_pool bal))) then set_passive (delete key) w else w).
Proof. unfold clear_removed_backend_state, when. rewrite bind_run. by destruct (bool_decide _). Qed.

Lemma forget_run key bal w :
  counts_ok w -> key ∉ live_backend_keys bal -> count_of w key = 0 ->
  let r := forget key bal w in
  r.1 = set_policy (cleared key (live_backend_keys bal) (pl_policy (bl_pool bal))) bal
  /\ forgotten r.1 r.2 key
  /\ forall k, k ∈ live_backend_keys bal -> undisturbed bal r.1 w r.2 k.
Proof.
  intros Hc Hk Hz. cbv zeta. unfold forget. rewrite bind_run, clear_run. cbn [fst snd].
  set (bal1 := set_policy _ bal).
  set (w1 := if bool_decide _ then _ else _).
  assert (Hc1 : counts_ok w1) by (unfold w1; by destruct (bool_decide _)).
  destruct (prune_run bal1 w1 Hc1) as [_ Ebal].
  assert (Ebal' : (prune_stale_backend_state bal1 w1).1
    = set_policy (cleared key (live_backend_keys bal) (pl_policy (bl_pool bal))) bal) by (by rewrite Ebal).
  rewrite Ebal'. split; [done |]. split.
  - destruct (prune_forgets bal1 w1 key Hk) as (Pc & Pp & Ps & Pl & Pt).
    destruct (cleared_key key (live_backend_keys bal) (pl_policy (bl_pool bal))) as (H1 & H2 & H3).
    split; [exact H1 | exact H2 | exact H3 | | | exact Ps | exact Pl | exact Pt].
    + apply Pc. unfold w1. by destruct (bool_decide _).
    + intros Hp. apply Pp. unfold w1. change (is_Some (pl_passive (bl_pool bal))) in Hp.
      rewrite (bool_decide_eq_true_2 _ Hp). simpl. apply lookup_delete_eq.
  - intros k Hlive. assert (Hne : k <> key) by (by intros ->).
    destruct (prune_keeps bal1 w1 k Hlive) as (Pc & Pp & Ps & Pl & Pt).
    destruct (cleared_other key (live_backend_keys bal) (pl_policy (bl_pool bal)) k Hne Hlive) as (H1 & H2 & H3).
    assert (Ew : w_counts w1 = w_counts w /\ w_slow w1 = w_slow w /\ w_latency w1 = w_latency w
      /\ w_table w1 = w_table w /\ w_tick w1 = w_tick w /\ w_passive w1 !! k = w_passive w !! k).
    { unfold w1. destruct (bool_decide _); [| done]. split_and!; try done. simpl. by rewrite lookup_delete_ne. }
    destruct Ew as (E1 & E2 & E3 & E4 & E5 & E6).
    split; [exact H1 | exact H2 | exact H3 | | | | |].
    + unfold count_of. by rewrite Pc, E1.
    + by rewrite Pp, E6.
    + by rewrite Ps, E2.
    + by rewrite Pl, E3.
    + rewrite E4, E5 in Pt. exact Pt.
Qed.
End Removed.

(** The keys of a pool without one. *)
Lemma removed_keys key bal r n b :
  backend_key b = key ->
  remove_runtime_backend b (pl_runtime (bl_pool bal)) = (Ok n, r) ->
  backends (bl_pool (set_backend_runtime r bal)) = retain_key_ne key (backends (bl_pool bal))
  /\ key ∉ live_backend_keys (set_backend_runtime r bal).
Proof.
  intros <-. unfold remove_runtime_backend. repeat (case_match; [done |]). intros [= <- <-]. split; [done |].
  unfold live_backend_keys. rewrite elem_of_list_to_set, list_elem_of_fmap. intros (c & Ec & Hc).
  by apply retain_elem in Hc as [_ ?].
Qed.

(** Removing a member succeeds only for the one member of the pool the
    reference names, and only without open connections; the other members stay,
    with their overrides, counts, ejections, slow start, latencies and
    unexpired sessions, and nothing of the removed member's is left for a
    member added at its address later. *)
Theorem removed_member_forgotten `{Env} (bal bal' : Balancer) (member : list Z) (m : SetMutation) (w w' : World) :
  counts_ok w -> remove_runtime_backend_member bal member w = ((Ok m, bal'), w') ->
  exists b,
    filter (fun c => refers_to (bl_aliases bal) (trim member) c = true) (backends (bl_pool bal)) = [b]
    /\ count_of w (backend_key b) = 0
    /\ backends (bl_pool bal') = retain_key_ne (backend_key b) (backends (bl_pool bal))
    /\ sm_backend_count m = zlen (backends (bl_pool bal'))
    /\ forgotten bal' w' (backend_key b)
    /\ forall k, k ∈ live_backend_keys bal' -> undisturbed bal bal' w w' k.
Proof.
  intros Hc. unfold remove_runtime_backend_member.
  destruct (validate_runtime_backend_set_mutation bal) as [[] |]; [| done].
  destruct (backend_by_member bal member) as [b |] eqn:Eb; [| done]. apply backend_by_member_ok in Eb.
  rewrite bind_run, connections_run. cbn [fst snd]. set (key := backend_key b).
  set (w1 := set_counts (counter_entry key) w).
  assert (Hc1 : forall k, count_of w1 k = count_of w k) by (intros k; apply (count_of_counter_entry w b)).
  case Z.ltb_spec; intros Hz; [done |]. assert (count_of w key = 0) as Hzero by (specialize (Hc key); lia).
  destruct (remove_runtime_backend b (pl_runtime (bl_pool bal))) as [[n |] r] eqn:Er; [| done].
  rewrite bind_run, connections_run. cbn [fst snd]. fold key.
  set (w2 := set_counts (counter_entry key) w1).
  assert (Hc2 : forall k, count_of w2 k = count_of w k).
  { intros k. unfold w2. rewrite (count_of_counter_entry w1 b). apply Hc1. }
  destruct (removed_keys key bal r n b eq_refl Er) as [Hbs Hkey]. set (bal1 := set_backend_runtime r bal) in *.
  pose proof (forget_run key bal1 w2) as Hf. unfold forget in Hf. rewrite bind_run in Hf. rewrite bind_run.
  rewrite bind_run. cbv zeta in Hf.
  destruct Hf as (Ebal & Hfg & Hun); [intros k; by rewrite Hc2 | done | by rewrite Hc2 |].
  intros [= <- <- <-]. exists b. fold key. split_and!; [done | done | by rewrite Ebal | | done |].
  - rewrite Ebal. cbn. unfold remove_runtime_backend in Er. repeat (case_match; [done |]). by simplify_eq.
  - intros k Hk. rewrite Ebal in Hk. destruct (Hun k Hk) as [? ? ? Hcount]. split; try done. by rewrite Hcount, Hc2.
Qed.

#[local] Existing Instance sample_cookie_clock.
Lemma removed_member_forgotten_witness :
  let r := remove_runtime_backend_member (small_balancer LeastTime None) (bs " 10.0.0.1:80") small_world in
  backends (bl_pool r.1.2) = [second_member] /\ forgotten r.1.2 r.2 (backend_key first_member).
Proof.
  intros r. assert (Eb : backends (bl_pool r.1.2) = [second_member]) by (vm_compute; reflexivity).
  split; [exact Eb |]. clear Eb.
  assert (Ok' : match r.1.1 with Ok _ => true | Err _ => false end = true) by (vm_compute; reflexivity).
  assert (Er : remove_runtime_backend_member (small_balancer LeastTime None) (bs " 10.0.0.1:80") small_world = r)
    by reflexivity.
  clearbody r. destruct r as [[[m | e] bal'] w']; [| discriminate Ok'].
  pose proof (removed_member_forgotten (small_balancer LeastTime None) bal' (bs " 10.0.0.1:80") m small_world w'
    small_counts_ok Er) as Hall.
  destruct Hall as (b & Hf & _ & _ & _ & Hforgot & _).
  assert (Ef : filter (fun c => refers_to ∅ (trim (bs " 10.0.0.1:80")) c = true) (backends (small_pool None))
    = [first_member]) by (vm_compute; reflexivity).
  assert (b = first_member) as <- by (cut ([b] = [first_member]); [congruence | rewrite <- Hf; exact Ef]).
  exact Hforgot.
Defined.

(** ** Refused changes *)

Inductive Mutation : Type :=
| SetState (member : list Z) (state : LoadBalancerRuntimeBackendState) (unix_secs : Z)
| SetWeight (member : list Z) (w : option Z) (unix_secs : Z)
| AddMember (member : list Z) (w : Z)
| RemoveMember (member : list Z)
| UpdateMember (member : list Z) (updated_member : option (list Z)) (w : option Z).
Definition failure {A} (r : result A MutationError) : option MutationError :=
  match r with Ok _ => None | Err e => Some e end.
Definition mutate `{Env} (m : Mutation) (bal : Balancer) : M (option MutationError * Balancer) :=
  match m with
  | SetState member state now => let! r := set_runtime_backend_state bal member state now in ret (failure r.1, r.2)
  | SetWeight member w now => let! r := set_runtime_backend_weight bal member w now in ret (failure r.1, r.2)
  | AddMember member w => let! r := add_runtime_backend_member bal member w in ret (failure r.1, r.2)
  | RemoveMember member => let! r := remove_runtime_backend_member bal member in ret (failure r.1, r.2)
  | UpdateMember member updated w => let! r := update_runtime_backend_member bal member updated w in ret (failure r.1, r.2)
  end.

(** Only counters at zero were created. *)
Record same_state (w w' : World) : Prop := mkSameState {
  sa_counts : forall key, count_of w' key = count_of w key;
  sa_rest : w' = set_counts (fun _ => w_counts w') w;
}.
Lemma same_state_refl w : same_state w w.
Proof. split; [done |]. by destruct w. Qed.
Lemma same_state_connections b w : same_state w (connections b w).2.
Proof. rewrite connections_run. split; [intros key; apply (count_of_counter_entry w b) |]. by destruct w. Qed.

Lemma set_overrides_same bal : set_overrides (p_runtime (pl_policy (bl_pool bal))) bal = bal.
Proof. by destruct bal as [[? ? ? []] ? ? ? ? ? ?]. Qed.

Section Refused.
Context `{Env} (bal : Balancer).

(** What a refused operation leaves: the pool as it was, and the state too. *)
Definition refused_cleanly {A} (m : M (result A MutationError * Balancer)) : Prop :=
  forall w e, (m w).1.1 = Err e -> same_state w (m w).2 /\ (m w).1.2 = bal.
Lemma refused_ret {A} (r : result A MutationError) bal' :
  (forall e, r = Err e -> bal' = bal) -> refused_cleanly (ret (r, bal')).
Proof. intros Hr w e He. split; [apply same_state_refl | simpl in *; eauto]. Qed.
Lemma refused_ok {A B} (m : M B) (f : B -> A * Balancer) :
  refused_cleanly (let! x := m in ret (Ok (f x).1, (f x).2)).
Proof. intros w e He. rewrite bind_run in He. done. Qed.
Lemma refused_connections {A} b (k : Z -> M (result A MutationError * Balancer)) :
  (forall n, refused_cleanly (k n)) -> refused_cleanly (let! n := connections b in k n).
Proof.
  intros Hk w e He. rewrite bind_run in *. destruct (Hk _ _ e He) as [[Hc Hr] Hb]. split; [| done].
  destruct (same_state_connections b w) as [Hc0 Hr0]. split.
  - intros key. by rewrite Hc, Hc0.
  - rewrite Hr at 1. rewrite Hr0 at 1. done.
Qed.

Lemma set_weight_refused member v now : refused_cleanly (set_runtime_backend_weight bal member v now).
Proof.
  unfold set_runtime_backend_weight. destruct (negb _); [by apply refused_ret |].
  destruct (backend_by_member bal member) as [b |]; [| by apply refused_ret].
  destruct (set_weight _ _ _ _) as [ok o] eqn:Ew. destruct ok; simpl; [by apply refused_ret |].
  apply refused_ret. intros _ _. unfold set_weight in Ew. destruct v; [| done]. case_match; [| done].
  injection Ew as <-. apply set_overrides_same.
Qed.
Lemma add_refused member v : refused_cleanly (add_runtime_backend_member bal member v).
Proof.
  unfold add_runtime_backend_member. repeat case_match; by apply refused_ret.
Qed.
Lemma remove_refused member : refused_cleanly (remove_runtime_backend_member bal member).
Proof.
  unfold remove_runtime_backend_member.
  destruct (let? _ := validate_runtime_backend_set_mutation bal in backend_by_member bal member) as [b |];
    [| by apply refused_ret].
  apply refused_connections. intros n. destruct (0 <? n); [by apply refused_ret |].
  destruct (remove_runtime_backend _ _) as [[c |] r]; [| by apply refused_ret].
  intros w e He. exfalso. revert He. by rewrite !bind_run.
Qed.
Lemma update_refused member um v : refused_cleanly (update_runtime_backend_member bal member um v).
Proof.
  unfold update_runtime_backend_member.
  destruct (let? _ := validate_runtime_backend_set_mutation bal in backend_by_member bal member) as [a |];
    [| by apply refused_ret].
  destruct (_ && (_ =? weight a)); [by apply refused_ret |]. destruct (_ && bool_decide _); [by apply refused_ret |].
  set (rest := fun busy : bool => if busy then _ else _).
  assert (Hrest : forall busy, refused_cleanly (rest busy)).
  { intros [|]; unfold rest; [by apply refused_ret |].
    destruct (runtime_backend_from_member _ _) as [u |]; [| by apply refused_ret].
    destruct (update_runtime_backend _ _ _) as [[c |] r]; [| by apply refused_ret].
    intros w e He. exfalso. revert He. by rewrite !bind_run. }
  destruct (negb (bool_decide _)).
  - intros w e. exact (refused_connections a (fun n => rest (0 <? n)) (fun n => Hrest _) w e).
  - intros w e. exact (Hrest false w e).
Qed.

(** The one operation that does not: a state the full table refuses has
    already cleared the previous one. *)
Lemma set_state_refused member state now w e :
  (set_runtime_backend_state bal member state now w).1.1 = Err e ->
  same_state w (set_runtime_backend_state bal member state now w).2
  /\ ((set_runtime_backend_state bal member state now w).1.2 = bal
      \/ e = OverrideTableFull /\ exists b, backend_by_member bal member = Ok b
         /\ (set_runtime_backend_state bal member state now w).1.2
            = set_overrides (without (backend_key b) (p_runtime (pl_policy (bl_pool bal)))) bal).
Proof.
  unfold set_runtime_backend_state. destruct (backend_by_member bal member) as [b |].
  2:{ intros _. split; [apply same_state_refl | by left]. }
  destruct (set_state _ _ _ _) as [ok o] eqn:Es. destruct ok; cbn [negb].
  - by rewrite !bind_run.
  - intros [= <-]. split; [apply same_state_refl |]. right. split; [done |]. exists b. split; [done |].
    simpl. f_equal. unfold set_state in Es. destruct state; try done; case_match; try done; by injection Es as <-.
Qed.
End Refused.

(** A change that is refused leaves the pool, the overrides and all state
    as they were, and only ever creates counters at zero; the exception is a
    state change refused for lack of room, after which the member is without
    the state override it had. *)
Theorem refused_change_is_clean `{Env} (m : Mutation) (bal bal' : Balancer) (e : MutationError) (w w' : World) :
  mutate m bal w = ((Some e, bal'), w') ->
  same_state w w'
  /\ (bal' = bal
      \/ exists member state now b,
           m = SetState member state now /\ e = OverrideTableFull /\ backend_by_member bal member = Ok b
           /\ bal' = set_overrides (without (backend_key b) (p_runtime (pl_policy (bl_pool bal)))) bal).
Proof.
  intros Hm. assert (Hfail : forall A (r : result A MutationError), failure r = Some e -> r = Err e).
  { intros A [] Hr; simpl in Hr; congruence. }
  destruct m as [member state now | member v now | member v | member | member um v]; cbn [mutate] in Hm;
    rewrite bind_run in Hm; injection Hm as Hf <- <-; apply Hfail in Hf.
  - destruct (set_state_refused bal member state now w e Hf) as [Hs [Hb | (-> & b & Hb & Eb)]]; (split; [done |]);
      [by left | right; by exists member, state, now, b].
  - destruct (set_weight_refused bal member v now w e Hf). eauto.
  - destruct (add_refused bal member v w e Hf). eauto.
  - destruct (remove_refused bal member w e Hf). eauto.
  - destruct (update_refused bal member um v w e Hf). eauto.
Qed.

(** The second member cannot be removed while its connection is open. *)
Lemma refused_change_is_clean_witness :
  let r := mutate (RemoveMember (bs "10.0.0.2:80")) (small_balancer RoundRobin None) small_world in
  r.1.1 = Some InFlight /\ same_state small_world r.2.
Proof.
  intros r. assert (Ee : r.1.1 = Some InFlight) by (vm_compute; reflexivity). split; [exact Ee |].
  assert (Er : mutate (RemoveMember (bs "10.0.0.2:80")) (small_balancer RoundRobin None) small_world = r) by reflexivity.
  clearbody r. destruct r as [[o bal'] w']. cbn in Ee. subst o.
  pose proof (refused_change_is_clean _ _ _ _ _ _ Er) as [Hs _]. exact Hs.
Defined.

(** ** The saved state *)

(** A refused restore changes neither overrides nor sessions. *)
Lemma restore_all_or_nothing `{Env} (bal : Balancer) (saved : RuntimeStateSnapshot) (w : World) :
  let r := restore_runtime_state_snapshot bal saved w in
  match r.1.1 with
  | Err _ => r.1.2 = bal /\ w_table r.2 = w_table w
  | Ok n =>
      exists o, prepare_snapshot (rs_runtime_overrides saved) = Ok o /\ r.1.2 = set_overrides o bal
      /\ match bl_persistence bal, rs_persistence saved with
         | Some s, Some entries =>
             (prepare_persistence s (live_backend_keys bal) entries w).1 = Ok (w_table r.2)
             /\ n = Z.of_nat (size (w_table r.2))
         | _, _ => w_table r.2 = w_table w /\ n = 0
         end
  end.
Proof.
  cbv zeta. unfold restore_runtime_state_snapshot. destruct (negb _); [done |].
  destruct (prepare_snapshot _) as [o |] eqn:Eo; [| done].
  destruct (bl_persistence bal) as [s |], (rs_persistence saved) as [entries |]; simpl; [| by exists o ..].
  rewrite bind_run. unfold prepare_persistence. destruct (_ <? _); [done |]. rewrite !bind_run. cbn [fst snd ret].
  destruct (restore_entries _ _ _ _ _) as [t |] eqn:Et; [| done].
  rewrite bind_run. cbn. exists o. split_and!; [done | done | | done]. done.
Qed.
