(* ===== verification/CacheBins.v ===== *)
(** * The storage-bin allocator of the cache ([storage_bin_alloc.rs],
    [storage_bin_manifest.rs])

    Cached objects live in bins of a fixed size.  The free map hands out
    ranges of bytes, takes them back, merges neighbours, gives up empty bins at
    the end, and is rebuilt from the index after a restart. *)
From Stdlib Require Import ZArith Lia Sorted.
From stdpp Require Import base list numbers strings sets gmap sorting.
From S2P Require Import Prelude.

Record FreeRange : Type := mkRange {
  fr_offset : Z;
  fr_len : Z;
}.
Record ObjectLocation : Type := mkLocation {
  lo_bin : Z;
  lo_offset : Z;
  lo_len : Z;
}.
#[export] Instance ObjectLocation_eq_dec : EqDecision ObjectLocation.
Proof. solve_decision. Defined.

Inductive BinError : Type :=
| LocationOverflows
| LocationOutsideBin
| BinOutsideBudget
| ObjectExceedsBin
| ObjectsOverlap
| EmptyAllocation
| RangeOverflows
| RangeExceedsBin.

(** [StorageBinObjectLocation::validate] *)
Definition location_validate (l : ObjectLocation) (bin_size : Z) : result ObjectLocation BinError :=
  match checked_add U64_MAX (lo_offset l) (lo_len l) with
  | None => Err LocationOverflows
  | Some e => if (lo_len l =? 0) || (bin_size <? e) then Err LocationOutsideBin else Ok l
  end.

(** The part of the layout the allocator reads. *)
Record Layout : Type := mkLayout {
  ly_bin_size : Z;
  ly_max_size : Z;
}.

Record FreeMap : Type := mkFreeMap {
  fm_bin_size : Z;
  fm_max_size : Z;
  fm_next_bin : Z;
  fm_free : gmap Z (list FreeRange);
}.
Definition set_free (f : gmap Z (list FreeRange)) (m : FreeMap) : FreeMap :=
  mkFreeMap (fm_bin_size m) (fm_max_size m) (fm_next_bin m) f.
Definition set_next_bin (n : Z) (m : FreeMap) : FreeMap :=
  mkFreeMap (fm_bin_size m) (fm_max_size m) n (fm_free m).
Definition free_map_new (l : Layout) : FreeMap := mkFreeMap (ly_bin_size l) (ly_max_size l) 0 ∅.

Definition bin_capacity (m : FreeMap) (bin : Z) : option Z :=
  match checked_mul U64_MAX bin (fm_bin_size m) with
  | None => None
  | Some start => if fm_max_size m <=? start then None else Some (Z.min (fm_bin_size m) (fm_max_size m - start))
  end.
Definition free_ranges (m : FreeMap) (bin : Z) : list FreeRange := default [] (fm_free m !! bin).

(** ** Free ranges of a bin *)

Definition range_end (r : FreeRange) : Z := saturating_add U64_MAX (fr_offset r) (fr_len r).
Definition range_le (r s : FreeRange) : Prop := fr_offset r <= fr_offset s.
#[export] Instance range_le_dec : RelDecision range_le.
Proof. intros r s. unfold range_le. apply _. Defined.

(** The loop that merges neighbours; [last] is the last range of [merged]. *)
Fixpoint merge_from (last : FreeRange) (l : list FreeRange) : list FreeRange :=
  match l with
  | [] => [last]
  | r :: l' =>
      if fr_offset r <=? range_end last
      then merge_from (mkRange (fr_offset last) (Z.max (saturating_sub (range_end r) (fr_offset last)) (fr_len last))) l'
      else last :: merge_from r l'
  end.
Definition merge_ranges (l : list FreeRange) : list FreeRange :=
  match l with [] => [] | r :: l' => merge_from r l' end.

Definition insert_free_range (bin : Z) (r : FreeRange) (m : FreeMap) : result FreeMap BinError :=
  if fr_len r =? 0 then Ok m
  else
    match bin_capacity m bin with
    | None => Err BinOutsideBudget
    | Some capacity =>
        match checked_add U64_MAX (fr_offset r) (fr_len r) with
        | None => Err RangeOverflows
        | Some e =>
            if capacity <? e then Err RangeExceedsBin
            else Ok (set_free (<[bin := merge_ranges (merge_sort range_le (free_ranges m bin ++ [r]))]> (fm_free m)) m)
        end
    end.

(** The first range that is long enough, and the ranges without the part
    taken from its front. *)
Fixpoint take_from_ranges (len : Z) (l : list FreeRange) : option (Z * list FreeRange) :=
  match l with
  | [] => None
  | r :: l' =>
      if len <=? fr_len r then
        Some (fr_offset r,
              if fr_len r =? len then l'
              else mkRange (saturating_add U64_MAX (fr_offset r) len) (saturating_sub (fr_len r) len) :: l')
      else
        match take_from_ranges len l' with
        | Some (offset, rest) => Some (offset, r :: rest)
        | None => None
        end
  end.

(** ** The operations *)

(** A [BTreeMap] is walked in the order of its keys. *)
Definition key_le (x y : Z * list FreeRange) : Prop := x.1 <= y.1.
#[export] Instance key_le_dec : RelDecision key_le.
Proof. intros x y. unfold key_le. apply _. Defined.
Definition bins_in_order (m : FreeMap) : list (Z * list FreeRange) := merge_sort key_le (map_to_list (fm_free m)).

Fixpoint first_bin_with (len : Z) (l : list (Z * list FreeRange)) : option (Z * Z * list FreeRange) :=
  match l with
  | [] => None
  | (bin, ranges) :: l' =>
      match take_from_ranges len ranges with
      | Some (offset, rest) => Some (bin, offset, rest)
      | None => first_bin_with len l'
      end
  end.
Definition allocate_from_free_ranges (len : Z) (m : FreeMap) : option (ObjectLocation * FreeMap) :=
  match first_bin_with len (bins_in_order m) with
  | None => None
  | Some (bin, offset, rest) =>
      Some (mkLocation bin offset len,
            set_free (match rest with [] => delete bin (fm_free m) | _ => <[bin := rest]> (fm_free m) end) m)
  end.

Definition allocate (len : Z) (m : FreeMap) : result (option ObjectLocation) BinError * FreeMap :=
  if len =? 0 then (Err EmptyAllocation, m)
  else if fm_bin_size m <? len then (Ok None, m)
  else
    match allocate_from_free_ranges len m with
    | Some (location, m) => (Ok (Some location), m)
    | None =>
        match bin_capacity m (fm_next_bin m) with
        | None => (Ok None, m)
        | Some capacity =>
            if capacity <? len then (Ok None, m)
            else
              let bin := fm_next_bin m in
              let m := set_next_bin (saturating_add U64_MAX bin 1) m in
              let remaining := saturating_sub capacity len in
              match (if 0 <? remaining then insert_free_range bin (mkRange len remaining) m else Ok m) with
              | Err e => (Err e, m)
              | Ok m => (Ok (Some (mkLocation bin 0 len)), m)
              end
        end
    end.

Definition release (l : ObjectLocation) (m : FreeMap) : result FreeMap BinError :=
  let? _ := location_validate l (fm_bin_size m) in
  match bin_capacity m (lo_bin l) with
  | None => Err BinOutsideBudget
  | Some capacity =>
      if capacity <? saturating_add U64_MAX (lo_offset l) (lo_len l) then Err RangeExceedsBin
      else insert_free_range (lo_bin l) (mkRange (lo_offset l) (lo_len l)) m
  end.

Definition bin_is_free (m : FreeMap) (bin : Z) : bool :=
  match bin_capacity m bin, fm_free m !! bin with
  | Some capacity, Some [r] => (fr_offset r =? 0) && (fr_len r =? capacity)
  | _, _ => false
  end.
(** The loop of [reclaim_free_tail_bins] runs once for each bin at most. *)
Fixpoint reclaim_loop (fuel : nat) (m : FreeMap) (reclaimed : list Z) : list Z * FreeMap :=
  match fuel with
  | O => (reclaimed, m)
  | S fuel' =>
      if fm_next_bin m <=? 0 then (reclaimed, m)
      else
        let bin := fm_next_bin m - 1 in
        if bin_is_free m bin
        then reclaim_loop fuel' (set_next_bin bin (set_free (delete bin (fm_free m)) m)) (reclaimed ++ [bin])
        else (reclaimed, m)
  end.
Definition reclaim_free_tail_bins (m : FreeMap) : list Z * FreeMap :=
  reclaim_loop (Z.to_nat (fm_next_bin m)) m [].

(** ** Rebuilding from the index *)

(** The first loop of [from_occupied]: the ranges in use of every bin. *)
Fixpoint occupied_ranges (layout : Layout) (entries : list ObjectLocation) (m : FreeMap)
    (occupied : gmap Z (list FreeRange)) : result (FreeMap * gmap Z (list FreeRange)) BinError :=
  match entries with
  | [] => Ok (m, occupied)
  | l :: entries' =>
      let? l := location_validate l (ly_bin_size layout) in
      match bin_capacity m (lo_bin l) with
      | None => Err BinOutsideBudget
      | Some capacity =>
          if capacity <? saturating_add U64_MAX (lo_offset l) (lo_len l) then Err ObjectExceedsBin
          else
            occupied_ranges layout entries'
              (set_next_bin (Z.max (fm_next_bin m) (saturating_add U64_MAX (lo_bin l) 1)) m)
              (<[lo_bin l := default [] (occupied !! lo_bin l) ++ [mkRange (lo_offset l) (lo_len l)]]> occupied)
      end
  end.
(** The gaps between the ranges in use of one bin. *)
Fixpoint free_gaps (bin : Z) (ranges : list FreeRange) (cursor : Z) (m : FreeMap)
  : result (Z * FreeMap) BinError :=
  match ranges with
  | [] => Ok (cursor, m)
  | r :: ranges' =>
      if fr_offset r <? cursor then Err ObjectsOverlap
      else
        let? m := (if cursor <? fr_offset r
                   then insert_free_range bin (mkRange cursor (fr_offset r - cursor)) m else Ok m) in
        free_gaps bin ranges' (range_end r) m
  end.
Definition free_bin (bin : Z) (ranges : list FreeRange) (m : FreeMap) : result FreeMap BinError :=
  let capacity := default 0 (bin_capacity m bin) in
  let? (cursor, m) := free_gaps bin (merge_sort range_le ranges) 0 m in
  if cursor <? capacity then insert_free_range bin (mkRange cursor (capacity - cursor)) m else Ok m.
Fixpoint free_bins (l : list (Z * list FreeRange)) (m : FreeMap) : result FreeMap BinError :=
  match l with
  | [] => Ok m
  | (bin, ranges) :: l' => let? m := free_bin bin ranges m in free_bins l' m
  end.
Definition from_occupied (layout : Layout) (entries : list ObjectLocation) : result FreeMap BinError :=
  let? (m, occupied) := occupied_ranges layout entries (free_map_new layout) ∅ in
  free_bins (merge_sort key_le (map_to_list occupied)) m.

(** ** Figures *)

Definition sum_sizes (l : list Z) : Z := foldl (saturating_add U64_MAX) 0 l.
Definition allocated_size_bytes (m : FreeMap) : Z :=
  sum_sizes (omap (bin_capacity m) (seqZ 0 (fm_next_bin m))).
Definition free_size_bytes (m : FreeMap) : Z :=
  sum_sizes (fr_len <$> concat (bins_in_order m).*2).
Definition free_range_count (m : FreeMap) : Z := sum_sizes ((fun x => zlen x.2) <$> bins_in_order m).
Definition largest_free_range_bytes (m : FreeMap) : Z :=
  foldl Z.max 0 (fr_len <$> concat (bins_in_order m).*2).
