(* ===== verification/CacheBinsProps.v ===== *)
(** * Correctness of the storage-bin allocator

    Live objects never overlap, and every byte of the bins in use is either
    free or part of exactly one of them. *)
From Stdlib Require Import ZArith Lia Sorted.
From stdpp Require Import base list numbers strings sets gmap sorting.
From S2P Require Import Prelude CacheBins.

(** ** Ranges of one bin *)

Definition covers (l : list FreeRange) (i : Z) : Prop :=
  exists r, r ∈ l /\ fr_offset r <= i < fr_offset r + fr_len r.
Record range_ok (capacity : Z) (r : FreeRange) : Prop := mkRangeOk {
  ro_offset : 0 <= fr_offset r;
  ro_len : 0 < fr_len r;
  ro_end : fr_offset r + fr_len r <= capacity;
}.
(** The ranges are in order and no two of them touch. *)
Definition gap (r s : FreeRange) : Prop := fr_offset r + fr_len r < fr_offset s.
Definition ranges_ok (capacity : Z) (l : list FreeRange) : Prop :=
  Forall (range_ok capacity) l /\ StronglySorted gap l.

Lemma covers_nil i : ~ covers [] i.
Proof. by intros (r & ?%not_elem_of_nil & _). Qed.
Lemma covers_cons r l i : covers (r :: l) i <-> fr_offset r <= i < fr_offset r + fr_len r \/ covers l i.
Proof. unfold covers. setoid_rewrite elem_of_cons. naive_solver. Qed.
Lemma covers_app l k i : covers (l ++ k) i <-> covers l i \/ covers k i.
Proof. unfold covers. setoid_rewrite elem_of_app. naive_solver. Qed.
Lemma covers_perm l k i : l ≡ₚ k -> covers l i <-> covers k i.
Proof. intros Hp. unfold covers. by setoid_rewrite Hp. Qed.

#[export] Instance range_le_total : Total range_le.
Proof. intros r s. unfold range_le. lia. Qed.
#[export] Instance range_le_trans : Transitive range_le.
Proof. intros r s t. unfold range_le. lia. Qed.

Lemma range_end_exact capacity r : capacity <= U64_MAX -> range_ok capacity r -> range_end r = fr_offset r + fr_len r.
Proof. intros Hc [? ? ?]. unfold range_end, saturating_add. lia. Qed.

Lemma merge_from_spec capacity last l :
  capacity <= U64_MAX -> range_ok capacity last -> Forall (range_ok capacity) l ->
  StronglySorted range_le (last :: l) ->
  ranges_ok capacity (merge_from last l)
  /\ Forall (fun r => fr_offset last <= fr_offset r) (merge_from last l)
  /\ forall i, covers (merge_from last l) i <-> covers (last :: l) i.
Proof.
  intros Hc. revert last. induction l as [| r l IH]; intros last Hl Hok Hs; simpl.
  - split_and!; [split; [by constructor | repeat constructor] | by constructor | done].
  - inversion_clear Hok as [| ? ? Hr Hok']. inversion_clear Hs as [| ? ? Hs' Hle].
    inversion_clear Hle as [| ? ? Hlr Hle']. unfold range_le in Hlr.
    rewrite (range_end_exact _ _ Hc Hl), (range_end_exact _ _ Hc Hr). unfold saturating_sub.
    destruct Hl as [L1 L2 L3], Hr as [R1 R2 R3]. case Z.leb_spec; intros Htouch.
    + set (m := mkRange _ _). destruct (IH m) as (Hok & Hge & Hcov); [split; simpl; lia | done | |].
      { constructor; [by inversion Hs' | exact Hle']. }
      split_and!; [done | done |]. intros i. rewrite Hcov, !covers_cons. simpl. split; [| naive_solver lia].
      intros [Hi | Hi]; [| naive_solver]. destruct (Z.lt_ge_cases i (fr_offset last + fr_len last)); [left; lia | right; left; lia].
    + destruct (IH r) as ([Hok Hsort] & Hge & Hcov); [by split | done | done |]. split_and!.
      * split; [constructor; [by split | done] |]. constructor; [done |].
        eapply Forall_impl; [exact Hge |]. intros s Hs0. simpl in Hs0. unfold gap. lia.
      * constructor; [lia |]. eapply Forall_impl; [exact Hge |]. simpl. lia.
      * intros i. by rewrite covers_cons, Hcov, (covers_cons last).
Qed.

Lemma merge_from_cons last l : merge_from last l <> [].
Proof. revert last. induction l; intros last; simpl; [done | case_match; eauto; done]. Qed.
Lemma insert_range_spec capacity l r :
  capacity <= U64_MAX -> Forall (range_ok capacity) l -> range_ok capacity r ->
  let out := merge_ranges (merge_sort range_le (l ++ [r])) in
  ranges_ok capacity out /\ out <> []
  /\ forall i, covers out i <-> covers l i \/ fr_offset r <= i < fr_offset r + fr_len r.
Proof.
  intros Hc Hl Hr. cbv zeta. pose proof (merge_sort_Permutation range_le (l ++ [r])) as Hp.
  pose proof (StronglySorted_merge_sort range_le (l ++ [r])) as Hs.
  assert (Hok : Forall (range_ok capacity) (merge_sort range_le (l ++ [r]))).
  { rewrite Hp. apply Forall_app. split; [done | by constructor]. }
  destruct (merge_sort range_le (l ++ [r])) as [| x k].
  { symmetry in Hp. apply Permutation_nil_r in Hp. by destruct l. }
  inversion_clear Hok. destruct (merge_from_spec capacity x k) as (H1 & _ & H3); [done .. |].
  split_and!; [done | apply merge_from_cons |].
  intros i. simpl. rewrite H3, (covers_perm _ _ i Hp), covers_app, covers_cons. pose proof (covers_nil i). tauto.
Qed.

Lemma take_from_ranges_spec capacity len l :
  capacity <= U64_MAX -> 0 < len -> ranges_ok capacity l ->
  match take_from_ranges len l with
  | None => Forall (fun r => fr_len r < len) l
  | Some (offset, rest) =>
      ranges_ok capacity rest /\ 0 <= offset /\ offset + len <= capacity
      /\ (forall i, offset <= i < offset + len -> covers l i)
      /\ (forall i, covers rest i <-> covers l i /\ ~ offset <= i < offset + len)
      /\ forall s, s ∈ rest -> exists t, t ∈ l /\ fr_offset t <= fr_offset s
  end.
Proof.
  intros Hc Hlen. induction l as [| r l IH]; intros [Hok Hs]; simpl; [constructor |].
  inversion_clear Hok as [| ? ? [R1 R2 R3] Hok']. inversion_clear Hs as [| ? ? Hs' Hgap].
  assert (Hafter : forall i, covers l i -> fr_offset r + fr_len r < i).
  { intros i (s & Hsl & Hi). rewrite Forall_forall in Hgap. specialize (Hgap s Hsl). unfold gap in Hgap. lia. }
  case Z.leb_spec; intros Hfit.
  - assert (Hin : forall i, fr_offset r <= i < fr_offset r + len -> covers (r :: l) i)
      by (intros i Hi; apply covers_cons; left; lia).
    destruct (Z.eqb_spec (fr_len r) len) as [El | Hne].
    + split_and!; [by split | lia | lia | done | | intros s Hsl; exists s; split; [by right | lia]].
      intros i. rewrite covers_cons. specialize (Hafter i). split; [intros Hi; split; [tauto | intros ?; specialize (Hafter Hi); lia] |].
      intros [[Hi | Hi] Hn]; [lia | done].
    + unfold saturating_add, saturating_sub. rewrite Z.min_l, Z.max_l by lia. split_and!; [| lia | lia | done | |].
      * split; constructor; [by split; simpl; lia | done | done |].
        eapply Forall_impl; [exact Hgap |]. unfold gap. simpl. lia.
      * intros i. rewrite !covers_cons. simpl. specialize (Hafter i). split.
        -- intros [Hi | Hi]; [split; [left; lia | lia] |]. specialize (Hafter Hi). split; [by right | lia].
        -- intros [[Hi | Hi] Hn]; [left; lia | by right].
      * intros s [-> | Hsl]%elem_of_cons; [exists r; split; [by left | simpl; lia] | exists s; split; [by right | lia]].
  - specialize (IH (conj Hok' Hs')). destruct (take_from_ranges len l) as [[offset rest] |]; [| by constructor].
    destruct IH as ([Hok2 Hs2] & H1 & H2 & H3 & H4 & H5). split_and!; [| done | done | | |].
    + split; constructor; [by split | done | done |]. apply Forall_forall. intros s Hsr. destruct (H5 s Hsr) as (t & Ht & Hle).
      rewrite Forall_forall in Hgap. specialize (Hgap t Ht). unfold gap in *. lia.
    + intros i Hi. apply covers_cons. right. by apply H3.
    + intros i. rewrite !covers_cons, H4. split.
      * intros [Hi | [Hi Hn]]; [| tauto]. split; [by left |]. intros Ho. specialize (Hafter i (H3 i Ho)). lia.
      * tauto.
    + intros s [-> | Hsr]%elem_of_cons; [exists r; split; [by left | lia] |].
      destruct (H5 s Hsr) as (t & Ht & Hle). exists t. split; [by right | done].
Qed.

(** ** The map and the live objects *)

Definition in_object (l : ObjectLocation) (bin i : Z) : Prop :=
  lo_bin l = bin /\ lo_offset l <= i < lo_offset l + lo_len l.
Definition in_use (objects : list ObjectLocation) (bin i : Z) : Prop := exists l, l ∈ objects /\ in_object l bin i.
Definition free_at (m : FreeMap) (bin i : Z) : Prop := covers (free_ranges m bin) i.
(** Two objects share no byte. *)
Definition apart (a b : ObjectLocation) : Prop :=
  lo_bin a <> lo_bin b \/ lo_offset a + lo_len a <= lo_offset b \/ lo_offset b + lo_len b <= lo_offset a.
Record object_ok (m : FreeMap) (l : ObjectLocation) : Prop := mkObjectOk {
  oo_bin : 0 <= lo_bin l < fm_next_bin m;
  oo_offset : 0 <= lo_offset l;
  oo_len : 0 < lo_len l;
  oo_end : exists capacity, bin_capacity m (lo_bin l) = Some capacity /\ lo_offset l + lo_len l <= capacity;
}.
Record sizes_ok (m : FreeMap) : Prop := mkSizesOk {
  so_bin : 0 < fm_bin_size m <= U64_MAX;
  so_max : 0 <= fm_max_size m <= U64_MAX;
  so_next : 0 <= fm_next_bin m;
  so_bins : forall bin, 0 <= bin < fm_next_bin m -> is_Some (bin_capacity m bin);
}.
Record map_ok (m : FreeMap) : Prop := mkMapOk {
  mo_sizes : sizes_ok m;
  mo_ranges : forall bin ranges, fm_free m !! bin = Some ranges ->
    ranges <> [] /\ 0 <= bin < fm_next_bin m
    /\ forall capacity, bin_capacity m bin = Some capacity -> ranges_ok capacity ranges;
}.
(** [lost] are bins in use that are neither free nor hold an object. *)
Record invariant (lost : gset Z) (m : FreeMap) (objects : list ObjectLocation) : Prop := mkInvariant {
  iv_map : map_ok m;
  iv_objects : Forall (object_ok m) objects;
  iv_apart : StronglySorted apart objects;
  iv_bytes : forall bin capacity i, 0 <= bin < fm_next_bin m -> bin_capacity m bin = Some capacity -> 0 <= i < capacity ->
    if decide (bin ∈ lost) then ~ free_at m bin i /\ ~ in_use objects bin i
    else free_at m bin i <-> ~ in_use objects bin i;
  iv_lost : forall bin, bin ∈ lost -> bin < fm_next_bin m;
}.

Lemma bin_capacity_range m bin capacity :
  sizes_ok m -> bin_capacity m bin = Some capacity -> 0 < capacity <= fm_bin_size m /\ capacity <= U64_MAX.
Proof.
  intros [? ? _ _]. unfold bin_capacity, checked_mul. case Z.leb_spec; [| done]. intros _.
  case Z.leb_spec; [done |]. intros ? [= <-]. lia.
Qed.
Lemma bin_capacity_same m m' bin :
  fm_bin_size m' = fm_bin_size m -> fm_max_size m' = fm_max_size m -> bin_capacity m' bin = bin_capacity m bin.
Proof. intros E1 E2. unfold bin_capacity. by rewrite E1, E2. Qed.
(** A later bin within the budget means every earlier one is. *)
Lemma bin_capacity_below m bin bin' :
  0 < fm_bin_size m -> 0 <= bin <= bin' -> is_Some (bin_capacity m bin') -> is_Some (bin_capacity m bin).
Proof.
  intros Hb Hle. unfold bin_capacity, checked_mul. case Z.leb_spec; [| by intros ? []]. intros H1.
  case Z.leb_spec; [by intros ? [] |]. intros H2 _. rewrite (proj2 (Z.leb_le _ _)) by nia. case Z.leb_spec; intros; [nia | eauto].
Qed.

Lemma ranges_ok_at m bin capacity :
  map_ok m -> bin_capacity m bin = Some capacity -> ranges_ok capacity (free_ranges m bin).
Proof.
  intros [_ Hr] Hc. unfold free_ranges. destruct (fm_free m !! bin) as [ranges |] eqn:E; simpl; [| by split; constructor].
  by apply (Hr bin ranges E).
Qed.
Lemma free_ranges_set m f bin : free_ranges (set_free f m) bin = default [] (f !! bin).
Proof. done. Qed.

Lemma sizes_ok_set_free m f : sizes_ok m -> sizes_ok (set_free f m).
Proof. intros []. by split. Qed.
(** Freeing a range that is within a bin in use. *)
Lemma insert_free_range_ok bin r m capacity :
  map_ok m -> 0 <= bin < fm_next_bin m -> bin_capacity m bin = Some capacity -> range_ok capacity r ->
  exists f, insert_free_range bin r m = Ok (set_free f m) /\ map_ok (set_free f m)
    /\ forall b i, free_at (set_free f m) b i
         <-> free_at m b i \/ (b = bin /\ fr_offset r <= i < fr_offset r + fr_len r).
Proof.
  intros Hm Hbin Hc Hr. pose proof (bin_capacity_range m bin capacity (mo_sizes _ Hm) Hc) as Hcap.
  pose proof (ranges_ok_at m bin capacity Hm Hc) as [Hok _].
  destruct (insert_range_spec capacity (free_ranges m bin) r) as (Hout & Hne & Hcov); [lia | done | done |].
  set (out := merge_ranges _) in *. exists (<[bin := out]> (fm_free m)). destruct Hr as [R1 R2 R3].
  unfold insert_free_range. rewrite Hc. unfold checked_add. zcond. split; [done |]. split.
  - destruct Hm as [Hs Hr]. split; [by apply sizes_ok_set_free |]. simpl. intros b ranges. rewrite lookup_insert_Some.
    intros [[<- <-] | [_ Hb]]; [| by apply Hr]. split_and!; [done | lia | lia |]. intros c Ec.
    change (bin_capacity m bin = Some c) in Ec. congruence.
  - intros b i. unfold free_at. rewrite free_ranges_set. destruct (decide (b = bin)) as [-> | Hb].
    + rewrite lookup_insert_eq. simpl. rewrite Hcov. tauto.
    + rewrite lookup_insert_ne by done. unfold free_ranges. tauto.
Qed.

(** ** Allocation *)

Lemma bins_in_order_elem m bin ranges : (bin, ranges) ∈ bins_in_order m <-> fm_free m !! bin = Some ranges.
Proof. unfold bins_in_order. rewrite (merge_sort_Permutation key_le). apply elem_of_map_to_list. Qed.
Lemma first_bin_with_spec len l :
  match first_bin_with len l with
  | None => forall bin ranges, (bin, ranges) ∈ l -> take_from_ranges len ranges = None
  | Some (bin, offset, rest) => exists ranges, (bin, ranges) ∈ l /\ take_from_ranges len ranges = Some (offset, rest)
  end.
Proof.
  induction l as [| [bin ranges] l IH]; simpl; [by intros ? ? ?%not_elem_of_nil |].
  destruct (take_from_ranges len ranges) as [[offset rest] |] eqn:E; [exists ranges; split; [by left | done] |].
  destruct (first_bin_with len l) as [[[b o] k] |].
  - destruct IH as (rs & Hin & Ht). exists rs. split; [by right | done].
  - intros b rs [[= -> ->] | Hin]%elem_of_cons; [done | by eapply IH].
Qed.

(** No free range is long enough. *)
Definition no_room (m : FreeMap) (len : Z) : Prop :=
  forall bin r, r ∈ free_ranges m bin -> fr_len r < len.

Lemma in_use_cons l objects bin i : in_use (l :: objects) bin i <-> in_object l bin i \/ in_use objects bin i.
Proof. unfold in_use. setoid_rewrite elem_of_cons. naive_solver. Qed.
Lemma in_use_perm a b bin i : a ≡ₚ b -> in_use a bin i <-> in_use b bin i.
Proof. intros Hp. unfold in_use. by setoid_rewrite Hp. Qed.

(** An object on bytes that were free shares none with the others. *)
Lemma free_apart lost m objects l :
  invariant lost m objects -> object_ok m l ->
  (forall i, lo_offset l <= i < lo_offset l + lo_len l -> free_at m (lo_bin l) i) -> Forall (apart l) objects.
Proof.
  intros Hinv [Hbin Hoff Hlen (capacity & Hc & Hend)] Hfree. apply Forall_forall. intros o Ho. unfold apart.
  destruct (decide (lo_bin l = lo_bin o)) as [Eb |]; [| by left]. right.
  pose proof (iv_objects _ _ _ Hinv) as Hob. rewrite Forall_forall in Hob. destruct (Hob o Ho) as [_ O1 O2 (c' & Hc' & O3)].
  destruct (Z.le_gt_cases (lo_offset l + lo_len l) (lo_offset o)); [by left | right].
  destruct (Z.le_gt_cases (lo_offset o + lo_len o) (lo_offset l)); [done | exfalso].
  set (i := Z.max (lo_offset l) (lo_offset o)).
  pose proof (iv_bytes _ _ _ Hinv (lo_bin l) capacity i Hbin Hc ltac:(lia)) as Hi.
  assert (Hf : free_at m (lo_bin l) i) by (apply Hfree; lia).
  assert (Hu : in_use objects (lo_bin l) i) by (exists o; split; [done | split; [done | lia]]).
  case_decide; [by apply Hi | by apply Hi].
Qed.

Lemma object_ok_set_free f m l : object_ok m l -> object_ok (set_free f m) l.
Proof. intros []. by split. Qed.

(** Taking free bytes for an object. *)
Lemma invariant_take lost f m objects l :
  invariant lost m objects -> object_ok m l -> map_ok (set_free f m) ->
  (forall i, lo_offset l <= i < lo_offset l + lo_len l -> free_at m (lo_bin l) i) ->
  (forall b i, free_at (set_free f m) b i <-> free_at m b i /\ ~ in_object l b i) ->
  invariant lost (set_free f m) (l :: objects).
Proof.
  intros Hinv Hobj Hmap Hwas Hfree. split; [done | | | | apply Hinv].
  - constructor; [by apply object_ok_set_free |]. eapply Forall_impl; [apply Hinv |]. intros o. apply object_ok_set_free.
  - constructor; [apply Hinv | by eapply (free_apart lost m)].
  - intros b c i Hb Hcb Hi. pose proof (iv_bytes _ _ _ Hinv b c i Hb Hcb Hi) as HB.
    case_decide as Hlost; rewrite Hfree, in_use_cons; [| tauto]. split; [tauto |].
    intros [[Eb Ho] | Hu]; [| tauto]. subst b. by apply (proj1 HB), Hwas.
Qed.

(** The map after a range was taken from a bin. *)
Definition without_range (bin : Z) (rest : list FreeRange) (m : FreeMap) : gmap Z (list FreeRange) :=
  match rest with [] => delete bin (fm_free m) | _ => <[bin := rest]> (fm_free m) end.
Lemma without_range_lookup bin rest m :
  without_range bin rest m !! bin = (match rest with [] => None | _ => Some rest end)
  /\ forall b, b <> bin -> without_range bin rest m !! b = fm_free m !! b.
Proof.
  unfold without_range. destruct rest; (split; [by rewrite ?lookup_delete_eq, ?lookup_insert_eq |]);
    intros b Hb; by rewrite ?lookup_delete_ne, ?lookup_insert_ne.
Qed.
Lemma without_range_ok bin rest m capacity ranges :
  map_ok m -> fm_free m !! bin = Some ranges -> bin_capacity m bin = Some capacity -> ranges_ok capacity rest ->
  map_ok (set_free (without_range bin rest m) m).
Proof.
  intros [Hs Hr] Hin Hc Hrest. destruct (without_range_lookup bin rest m) as [H1 H2].
  split; [by apply sizes_ok_set_free |]. simpl. intros b rs Hb. destruct (decide (b = bin)) as [-> | Hne].
  - rewrite H1 in Hb. destruct (Hr bin ranges Hin) as (_ & Hbin & _). destruct rest; simplify_eq. split; [done |].
    split; [done |]. intros c Ec. change (bin_capacity m bin = Some c) in Ec. congruence.
  - rewrite H2 in Hb by done. by apply Hr.
Qed.

Lemma allocate_from_free_inv lost len m objects l m' :
  invariant lost m objects -> 0 < len -> allocate_from_free_ranges len m = Some (l, m') ->
  lo_len l = len /\ invariant lost m' (l :: objects).
Proof.
  intros Hinv Hlen. unfold allocate_from_free_ranges. pose proof (first_bin_with_spec len (bins_in_order m)) as Hf.
  destruct (first_bin_with len (bins_in_order m)) as [[[bin offset] rest] |]; [| done].
  destruct Hf as (ranges & Hin%bins_in_order_elem & Ht). intros [= <- <-]. split; [done |].
  pose proof (iv_map _ _ _ Hinv) as Hm. destruct (mo_ranges _ Hm bin ranges Hin) as (_ & Hbin & Hok).
  destruct (so_bins _ (mo_sizes _ Hm) bin Hbin) as [capacity Hc]. specialize (Hok capacity Hc).
  pose proof (bin_capacity_range m bin capacity (mo_sizes _ Hm) Hc) as Hcap.
  pose proof (take_from_ranges_spec capacity len ranges ltac:(lia) Hlen Hok) as Hspec. rewrite Ht in Hspec.
  destruct Hspec as (Hrest & H1 & H2 & H3 & H4 & _). fold (without_range bin rest m).
  apply invariant_take; [done | split; simpl; eauto | by eapply without_range_ok | |].
  - simpl. intros i Hi. unfold free_at, free_ranges. rewrite Hin. by apply H3.
  - destruct (without_range_lookup bin rest m) as [Hf1 Hf2].
    intros b i. unfold free_at, in_object. rewrite free_ranges_set. simpl. destruct (decide (b = bin)) as [-> | Hb].
    + rewrite Hf1. unfold free_ranges. rewrite Hin. simpl. transitivity (covers rest i); [by destruct rest |].
      rewrite H4. tauto.
    + rewrite Hf2 by done. unfold free_ranges. naive_solver.
Qed.

(** A new bin: first all of it is free, then the object takes the front. *)
Lemma next_bin_room m capacity :
  sizes_ok m -> bin_capacity m (fm_next_bin m) = Some capacity -> fm_next_bin m < U64_MAX.
Proof.
  intros [Hb Hm Hn _]. unfold bin_capacity, checked_mul. case Z.leb_spec; [| done]. intros H1.
  case Z.leb_spec; [done |]. intros H2 _. nia.
Qed.
Lemma free_beyond m i : map_ok m -> ~ free_at m (fm_next_bin m) i.
Proof.
  intros [_ Hr]. unfold free_at, free_ranges. destruct (fm_free m !! fm_next_bin m) as [rs |] eqn:E; simpl; [| apply covers_nil].
  destruct (Hr _ _ E) as (_ & Hb & _). lia.
Qed.
Lemma not_in_use_beyond lost m objects bin i :
  invariant lost m objects -> fm_next_bin m <= bin -> ~ in_use objects bin i.
Proof.
  intros Hinv Hb (l & Hl & El & _). pose proof (iv_objects _ _ _ Hinv) as Ho. rewrite Forall_forall in Ho.
  destruct (Ho l Hl) as [Hbin _ _ _]. lia.
Qed.

(** The map with one more bin, of which [len] bytes are taken. *)
Lemma grown_map_ok m capacity :
  map_ok m -> bin_capacity m (fm_next_bin m) = Some capacity -> map_ok (set_next_bin (fm_next_bin m + 1) m).
Proof.
  intros [[Hb Hm Hn Hbins] Hr] Hc. split; [split; simpl; [done | done | lia |] |].
  - intros bin Hbin. destruct (decide (bin = fm_next_bin m)) as [-> |]; [eauto | apply Hbins; lia].
  - simpl. intros bin ranges Hbr. destruct (Hr bin ranges Hbr) as (? & ? & ?). split_and!; [done | lia | lia | done].
Qed.
Lemma invariant_grow lost m m' objects len capacity :
  invariant lost m objects -> bin_capacity m (fm_next_bin m) = Some capacity -> 0 < len <= capacity ->
  map_ok m' -> fm_bin_size m' = fm_bin_size m -> fm_max_size m' = fm_max_size m ->
  fm_next_bin m' = fm_next_bin m + 1 ->
  (forall b i, free_at m' b i <-> free_at m b i \/ b = fm_next_bin m /\ len <= i < capacity) ->
  invariant lost m' (mkLocation (fm_next_bin m) 0 len :: objects).
Proof.
  intros Hinv Hc Hlen Hm' E1 E2 E3 Hfree.
  assert (Hcap : forall b, bin_capacity m' b = bin_capacity m b) by (intros b; by apply bin_capacity_same).
  pose proof (so_next _ (mo_sizes _ (iv_map _ _ _ Hinv))) as Hn. split; [done | | | |].
  - constructor; [split; simpl; [lia | lia | lia |] |].
    + exists capacity. rewrite Hcap. split; [done | lia].
    + eapply Forall_impl; [exact (iv_objects _ _ _ Hinv) |]. intros o [? ? ? Ho]. split; [lia | done | done | by rewrite Hcap].
  - constructor; [apply Hinv |]. eapply Forall_impl; [exact (iv_objects _ _ _ Hinv) |]. intros o [? _ _ _]. left. simpl. lia.
  - intros b c i Hb Hcb Hi. rewrite Hcap in Hcb.
    pose proof (free_beyond m i (iv_map _ _ _ Hinv)) as Hnf.
    pose proof (not_in_use_beyond lost m objects (fm_next_bin m) i Hinv ltac:(lia)) as Hnu.
    destruct (decide (b = fm_next_bin m)) as [-> | Hne].
    + case_decide as Hl; [apply (iv_lost _ _ _ Hinv) in Hl; lia |]. rewrite Hfree, in_use_cons. unfold in_object. simpl.
      assert (c = capacity) as -> by congruence. split; [intros [? | [_ ?]]; [done |] | intros Hn0; right; split; [done |]].
      * intros [[_ ?] | ?]; [lia | done].
      * destruct (Z.lt_ge_cases i len); [| lia]. exfalso. apply Hn0. left. split; [done | lia].
    + pose proof (iv_bytes _ _ _ Hinv b c i ltac:(lia) Hcb Hi) as HB.
      case_decide; rewrite Hfree, in_use_cons; unfold in_object; simpl; naive_solver.
  - intros b Hb. apply (iv_lost _ _ _ Hinv) in Hb. lia.
Qed.

Lemma allocate_inv lost len m objects :
  invariant lost m objects -> 0 < len ->
  match allocate len m with
  | (Ok (Some l), m') => lo_len l = len /\ invariant lost m' (l :: objects)
  | (Ok None, m') =>
      m' = m /\ (fm_bin_size m < len
        \/ (no_room m len /\ forall capacity, bin_capacity m (fm_next_bin m) = Some capacity -> capacity < len))
  | (Err _, _) => False
  end.
Proof.
  intros Hinv Hlen. unfold allocate. zcond. case Z.ltb_spec; intros Hbig; [auto |].
  destruct (allocate_from_free_ranges len m) as [[l m'] |] eqn:Ea; [by eapply allocate_from_free_inv |].
  assert (Hroom : no_room m len).
  { unfold allocate_from_free_ranges in Ea. pose proof (first_bin_with_spec len (bins_in_order m)) as Hf.
    destruct (first_bin_with len (bins_in_order m)) as [[[? ?] ?] |]; [done |].
    intros bin r Hr. unfold free_ranges in Hr. destruct (fm_free m !! bin) as [rs |] eqn:E; [| by apply not_elem_of_nil in Hr].
    pose proof (Hf bin rs (proj2 (bins_in_order_elem m bin rs) E)) as Ht.
    destruct (iv_map _ _ _ Hinv) as [Hs Hrs]. destruct (Hrs bin rs E) as (_ & Hbin & Hok).
    destruct (so_bins _ Hs bin Hbin) as [c Hc]. pose proof (bin_capacity_range m bin c Hs Hc).
    pose proof (take_from_ranges_spec c len rs ltac:(lia) Hlen (Hok c Hc)) as Hspec. rewrite Ht in Hspec.
    rewrite Forall_forall in Hspec. by apply Hspec. }
  destruct (bin_capacity m (fm_next_bin m)) as [capacity |] eqn:Hc; [| split; [done | right; split; [done | done]]].
  case Z.ltb_spec; intros Hfit; [split; [done | right; split; [done | by intros ? [= <-]]] |].
  pose proof (iv_map _ _ _ Hinv) as Hm. pose proof (next_bin_room m capacity (mo_sizes _ Hm) Hc) as Hroom'.
  unfold saturating_add. rewrite Z.min_l by lia. pose proof (grown_map_ok m capacity Hm Hc) as Hg.
  unfold saturating_sub. case Z.ltb_spec; intros Hrem.
  - destruct (insert_free_range_ok (fm_next_bin m) (mkRange len (Z.max (capacity - len) 0))
      (set_next_bin (fm_next_bin m + 1) m) capacity Hg) as (f & -> & Hok & Hfree);
      [simpl; pose proof (so_next _ (mo_sizes _ Hm)); lia | done | split; simpl; lia |].
    split; [done |]. eapply invariant_grow; [done | exact Hc | lia | done | done | done | done |].
    intros b i. rewrite Hfree. simpl. replace (len + Z.max (capacity - len) 0) with capacity by lia. done.
  - split; [done |]. eapply invariant_grow; [done | exact Hc | lia | done | done | done | done |].
    intros b i. split; [by left |]. intros [? | [_ ?]]; [done | lia].
Qed.

(** ** Release *)

#[export] Instance apart_symm : Symmetric apart.
Proof. intros a b. unfold apart. naive_solver. Qed.
Lemma pairwise_perm (l k : list ObjectLocation) : l ≡ₚ k -> StronglySorted apart l -> StronglySorted apart k.
Proof.
  induction 1 as [| x l k Hp IH | x y l | l k j _ IH1 _ IH2]; intros Hs.
  - done.
  - inversion_clear Hs. constructor; [by apply IH | by rewrite <- Hp].
  - inversion_clear Hs as [| ? ? Hs1 Hy]. inversion_clear Hs1 as [| ? ? Hs2 Hx]. inversion_clear Hy as [| ? ? Hyx Hy'].
    constructor; [by constructor |]. constructor; [by apply apart_symm | done].
  - auto.
Qed.
Lemma invariant_perm lost m objects objects' :
  objects ≡ₚ objects' -> invariant lost m objects -> invariant lost m objects'.
Proof.
  intros Hp [Hm Ho Ha Hb Hl]. split; [done | by rewrite <- Hp | by eapply pairwise_perm | | done].
  intros bin c i H1 H2 H3. specialize (Hb bin c i H1 H2 H3).
  case_decide; by rewrite <- (in_use_perm _ _ bin i Hp).
Qed.
Lemma apart_bytes a b bin i : apart a b -> in_object a bin i -> ~ in_object b bin i.
Proof. unfold apart, in_object. lia. Qed.

Lemma release_inv lost m objects l :
  invariant lost m (l :: objects) -> exists m', release l m = Ok m' /\ invariant lost m' objects.
Proof.
  intros [Hm Ho Ha Hb Hl]. inversion_clear Ho as [| ? ? Hob Ho']. destruct Hob as [O1 O2 O3 (capacity & Hc & O4)].
  inversion_clear Ha as [| ? ? Ha' Hap]. pose proof (bin_capacity_range m (lo_bin l) capacity (mo_sizes _ Hm) Hc) as Hcap.
  destruct (insert_free_range_ok (lo_bin l) (mkRange (lo_offset l) (lo_len l)) m capacity) as (f & Ef & Hok & Hfree);
    [done | done | done | by split |].
  exists (set_free f m). split.
  - unfold release, location_validate, checked_add, saturating_add. rewrite Hc, Z.min_l by lia.
    zcond. cbn [orb]. zcond. exact Ef.
  - split; [done | | done | | done].
    + eapply Forall_impl; [exact Ho' |]. intros o. apply object_ok_set_free.
    + intros bin c i H1 H2 H3. specialize (Hb bin c i H1 H2 H3).
      assert (Hx : in_object l bin i -> ~ in_use objects bin i).
      { intros Hi (o & Hin & Hio). rewrite Forall_forall in Hap. by apply (apart_bytes l o bin i (Hap o Hin)). }
      assert (Hf : free_at (set_free f m) bin i <-> free_at m bin i \/ in_object l bin i).
      { rewrite (Hfree bin i). unfold in_object. simpl. split; (intros [? | [? ?]]; [by left | by right]). }
      assert (Hd : in_object l bin i \/ ~ in_object l bin i) by (unfold in_object; lia).
      clear -Hb Hx Hf Hd. case_decide; rewrite in_use_cons in Hb; rewrite Hf; tauto.
Qed.

(** ** Giving up bins *)

Lemma bin_is_free_true m bin i capacity :
  map_ok m -> bin_is_free m bin = true -> bin_capacity m bin = Some capacity -> 0 <= i < capacity -> free_at m bin i.
Proof.
  intros Hm. unfold bin_is_free. destruct (bin_capacity m bin); [| done].
  destruct (fm_free m !! bin) as [[| r []] |] eqn:E; try done. intros Hb [= ->] Hi. breflect.
  unfold free_at, free_ranges. rewrite E. simpl. apply covers_cons. left. lia.
Qed.
Lemma reclaim_one_inv lost m objects :
  invariant lost m objects -> 0 < fm_next_bin m -> bin_is_free m (fm_next_bin m - 1) = true ->
  let bin := fm_next_bin m - 1 in
  invariant lost (set_next_bin bin (set_free (delete bin (fm_free m)) m)) objects.
Proof.
  intros Hinv Hn Hfree bin. set (m' := set_next_bin _ _). destruct (Hinv) as [Hm Ho Ha Hb Hl].
  destruct (so_bins _ (mo_sizes _ Hm) bin ltac:(lia)) as [capacity Hc].
  pose proof (bin_capacity_range m bin capacity (mo_sizes _ Hm) Hc) as Hcap.
  assert (Hnone : forall i, 0 <= i < capacity -> (bin ∉ lost) /\ ~ in_use objects bin i).
  { intros i Hi. pose proof (Hb bin capacity i ltac:(lia) Hc Hi) as HB.
    pose proof (bin_is_free_true m bin i capacity Hm Hfree Hc Hi). case_decide; tauto. }
  assert (Hother : forall b i, b <> bin -> free_at m' b i <-> free_at m b i).
  { intros b i Hne. unfold free_at, free_ranges. simpl. by rewrite lookup_delete_ne. }
  split.
  - destruct Hm as [[S1 S2 S3 S4] Hr]. split; [split; simpl; [done | done | lia | intros b Hb0; apply S4; lia] |].
    simpl. intros b rs Hbr. apply lookup_delete_Some in Hbr as [Hne Hbr]. destruct (Hr b rs Hbr) as (? & ? & ?).
    split_and!; [done | lia | lia | done].
  - apply Forall_forall. intros o Hin. rewrite Forall_forall in Ho. destruct (Ho o Hin) as [O1 O2 O3 (c & Hco & O4)].
    split; [| done | done | eauto]. simpl. destruct (decide (lo_bin o = bin)) as [E |]; [| lia]. exfalso.
    assert (c = capacity) by congruence. subst c. apply (Hnone (lo_offset o)); [lia |]. exists o. split; [done |].
    split; [done | lia].
  - done.
  - intros b c i H1 H2 H3. simpl in H1. specialize (Hb b c i ltac:(lia) H2 H3). case_decide; by rewrite Hother by lia.
  - intros b Hlost. simpl. pose proof (Hl b Hlost). destruct (decide (b = bin)) as [-> |]; [| lia].
    destruct (Hnone 0 ltac:(lia)). done.
Qed.
Lemma reclaim_loop_inv lost fuel m objects acc :
  invariant lost m objects -> (Z.to_nat (fm_next_bin m) <= fuel)%nat ->
  let r := reclaim_loop fuel m acc in
  invariant lost r.2 objects
  /\ (fm_next_bin r.2 <= 0 \/ bin_is_free r.2 (fm_next_bin r.2 - 1) = false).
Proof.
  revert m acc. induction fuel as [| fuel IH]; intros m acc Hinv Hf; simpl.
  - split; [done |]. left. lia.
  - case Z.leb_spec; intros Hn; [split; [done | left; simpl; lia] |].
    destruct (bin_is_free m (fm_next_bin m - 1)) eqn:E; [| split; [done | by right]].
    apply IH; [by apply reclaim_one_inv | simpl; lia].
Qed.

(** ** Rebuilding *)

Definition range_of (l : ObjectLocation) : FreeRange := mkRange (lo_offset l) (lo_len l).
Definition ranges_in (bin : Z) (objects : list ObjectLocation) : list FreeRange :=
  range_of <$> filter (fun l => lo_bin l = bin) objects.
Lemma ranges_in_cons bin l objects :
  ranges_in bin (l :: objects) = if decide (lo_bin l = bin) then range_of l :: ranges_in bin objects else ranges_in bin objects.
Proof. unfold ranges_in. rewrite filter_cons. by case_decide. Qed.
Lemma ranges_in_covers bin objects i : covers (ranges_in bin objects) i <-> in_use objects bin i.
Proof.
  unfold covers, ranges_in, in_use, in_object. setoid_rewrite list_elem_of_fmap. setoid_rewrite list_elem_of_filter.
  split; [intros (r & (l & -> & Hb & Hl) & Hi); eauto | intros (l & Hl & Hb & Hi); exists (range_of l); eauto 10].
Qed.

(** Ranges in use are in order and may touch. *)
Definition clear_of (r s : FreeRange) : Prop := fr_offset r + fr_len r <= fr_offset s.
Definition disjoint_ranges (r s : FreeRange) : Prop := clear_of r s \/ clear_of s r.
Lemma disjoint_perm (l k : list FreeRange) :
  l ≡ₚ k -> StronglySorted disjoint_ranges l -> StronglySorted disjoint_ranges k.
Proof.
  induction 1 as [| x l k Hp IH | x y l | l k j _ IH1 _ IH2]; intros Hs.
  - done.
  - inversion_clear Hs. constructor; [by apply IH | by rewrite <- Hp].
  - inversion_clear Hs as [| ? ? Hs1 Hy]. inversion_clear Hs1 as [| ? ? Hs2 Hx]. inversion_clear Hy as [| ? ? Hyx Hy'].
    constructor; [by constructor |]. constructor; [unfold disjoint_ranges in *; tauto | done].
  - auto.
Qed.

Lemma free_gap_ok bin cursor upto m capacity :
  map_ok m -> 0 <= bin < fm_next_bin m -> bin_capacity m bin = Some capacity -> 0 <= cursor -> upto <= capacity ->
  exists f, (if cursor <? upto then insert_free_range bin (mkRange cursor (upto - cursor)) m else Ok m) = Ok (set_free f m)
    /\ map_ok (set_free f m)
    /\ forall b i, free_at (set_free f m) b i <-> free_at m b i \/ (b = bin /\ cursor <= i < upto).
Proof.
  intros Hm Hbin Hc H0 Hu. case Z.ltb_spec; intros Hgap.
  - destruct (insert_free_range_ok bin (mkRange cursor (upto - cursor)) m capacity) as (f & Ef & Hf & Hfree);
      [done | done | done | split; simpl; lia |]. exists f. split_and!; [done | done |].
    intros b i. rewrite Hfree. simpl. by replace (cursor + (upto - cursor)) with upto by lia.
  - exists (fm_free m). split_and!; [by destruct m | by destruct m |]. intros b i. split; [by left |].
    intros [? | [_ ?]]; [done | lia].
Qed.
Lemma free_gaps_spec bin l cursor m cursor' m' capacity :
  map_ok m -> 0 <= bin < fm_next_bin m -> bin_capacity m bin = Some capacity ->
  Forall (range_ok capacity) l -> StronglySorted range_le l -> 0 <= cursor <= capacity ->
  free_gaps bin l cursor m = Ok (cursor', m') ->
  StronglySorted clear_of l /\ Forall (fun r => cursor <= fr_offset r) l /\ cursor <= cursor' <= capacity
  /\ (forall i, covers l i -> cursor <= i < cursor')
  /\ map_ok m' /\ (exists f, m' = set_free f m)
  /\ forall b i, free_at m' b i <-> free_at m b i \/ (b = bin /\ cursor <= i < cursor' /\ ~ covers l i).
Proof.
  intros Hm Hbin Hc. destruct (bin_capacity_range m bin capacity (mo_sizes _ Hm) Hc) as [_ Hcap].
  revert cursor m Hm Hbin Hc. induction l as [| r l IH]; intros cursor m Hm Hbin Hc Hok Hs Hcur; simpl.
  { intros [= <- <-]. split_and!; [constructor | constructor | lia | lia | by intros i ?%covers_nil | done | | ].
    - exists (fm_free m). by destruct m.
    - intros b i. split; [by left | intros [? | (_ & ? & _)]; [done | lia]]. }
  inversion_clear Hok as [| ? ? Hr Hok']. inversion_clear Hs as [| ? ? Hs' Hle]. rewrite (range_end_exact capacity) by (done || lia).
  case Z.ltb_spec; intros Hov; [done |].
  destruct (free_gap_ok bin cursor (fr_offset r) m capacity) as (f & -> & Hf & Hfree); [done | done | done | lia | destruct Hr; lia |].
  destruct Hr as [R1 R2 R3]. intros Hrun.
  apply IH in Hrun as (H1 & H2 & H3 & H4 & H5 & [f' ->] & H7); [| done | done | done | done | done | lia].
  split_and!.
  - constructor; [done |]. eapply Forall_impl; [exact H2 |]. intros s. unfold clear_of. simpl. lia.
  - constructor; [done |]. eapply Forall_impl; [exact H2 |]. simpl. lia.
  - lia.
  - lia.
  - intros i [Hi | Hi]%covers_cons; [lia | specialize (H4 i Hi); lia].
  - done.
  - by exists f'.
  - intros b i. rewrite H7, Hfree. setoid_rewrite covers_cons. specialize (H4 i). split.
    + intros [[? | [-> ?]] | (-> & ? & ?)]; [by left | right | right]; (split_and!; [done | lia | lia |]).
      * intros [? | Hi]; [lia | specialize (H4 Hi); lia].
      * intros [? | Hi]; [lia | done].
    + intros [? | (-> & Hi & Hn)]; [by left; left |]. destruct (Z.lt_ge_cases i (fr_offset r)); [left; right; split; [done | lia] |].
      right. split_and!; [done | | lia | tauto]. destruct (Z.lt_ge_cases i (fr_offset r + fr_len r)); [| lia]. exfalso. apply Hn. left. lia.
Qed.

Lemma free_bin_spec bin l m m' capacity :
  map_ok m -> 0 <= bin < fm_next_bin m -> bin_capacity m bin = Some capacity -> Forall (range_ok capacity) l ->
  free_bin bin l m = Ok m' ->
  StronglySorted disjoint_ranges l /\ map_ok m' /\ (exists f, m' = set_free f m)
  /\ forall b i, free_at m' b i <-> free_at m b i \/ (b = bin /\ 0 <= i < capacity /\ ~ covers l i).
Proof.
  intros Hm Hbin Hc Hok. unfold free_bin. rewrite Hc. cbn [from_option id]. unfold id.
  pose proof (merge_sort_Permutation range_le l) as Hp. set (k := merge_sort range_le l) in *.
  destruct (bin_capacity_range m bin capacity (mo_sizes _ Hm) Hc) as [Hcap _].
  destruct (free_gaps bin k 0 m) as [[cursor m1] |] eqn:Eg; [| done]. cbv beta iota.
  apply (free_gaps_spec bin k 0 m cursor m1 capacity) in Eg as (H1 & _ & H3 & H4 & H5 & [f ->] & H7);
    [| done | done | done | by rewrite Hp | apply (StronglySorted_merge_sort range_le) | lia].
  destruct (free_gap_ok bin cursor capacity (set_free f m) capacity) as (f' & -> & Hf' & Hfree); [done .. | lia | lia |].
  intros [= <-]. split_and!; [| done | by exists f' |].
  - apply (disjoint_perm k); [done |]. clear -H1. induction H1; constructor; [done |].
    eapply Forall_impl; [eassumption |]. intros s ?. by left.
  - intros b i. rewrite Hfree, H7. specialize (H4 i). rewrite (covers_perm _ _ i Hp) in H4. rewrite (covers_perm _ _ i Hp). split.
    + intros [[? | (-> & ? & ?)] | (-> & ?)]; [by left | right | right]; (split_and!; [done | lia | lia |]); [done |].
      intros Hi. specialize (H4 Hi). lia.
    + intros [? | (-> & Hi & Hn)]; [by left; left |]. destruct (Z.lt_ge_cases i cursor); [left; right | right]; (split; [done |]); [split; [lia | done] | lia].
Qed.

(** The ranges of a bin are within it. *)
Definition bin_ranges_ok (m : FreeMap) (x : Z * list FreeRange) : Prop :=
  0 <= x.1 < fm_next_bin m
  /\ forall capacity, bin_capacity m x.1 = Some capacity -> Forall (range_ok capacity) x.2.
Lemma free_bins_spec l m m' :
  map_ok m -> Forall (bin_ranges_ok m) l -> free_bins l m = Ok m' ->
  Forall (fun x => StronglySorted disjoint_ranges x.2) l /\ map_ok m' /\ (exists f, m' = set_free f m)
  /\ forall b i, free_at m' b i <->
       free_at m b i \/ exists ranges capacity, (b, ranges) ∈ l /\ bin_capacity m b = Some capacity
                        /\ 0 <= i < capacity /\ ~ covers ranges i.
Proof.
  revert m. induction l as [| [bin ranges] l IH]; intros m Hm Hl; simpl.
  { intros [= <-]. split_and!; [constructor | done | exists (fm_free m); by destruct m |]. intros b i. split; [by left |].
    by intros [? | (? & ? & ?%not_elem_of_nil & _)]. }
  inversion_clear Hl as [| ? ? [Hbin Hok] Hl']. simpl in *.
  destruct (so_bins _ (mo_sizes _ Hm) bin Hbin) as [capacity Hc]. specialize (Hok capacity Hc).
  destruct (free_bin bin ranges m) as [m1 |] eqn:Eb; [| done].
  apply (free_bin_spec bin ranges m m1 capacity) in Eb as (D1 & Hm1 & [f ->] & Hf1); [| done ..].
  intros Hrun. apply IH in Hrun as (D2 & Hm2 & [f' ->] & Hf2); [| done | done].
  split_and!; [by constructor | done | by exists f' |]. intros b i. rewrite Hf2, Hf1. split.
  - intros [[? | (-> & ? & ?)] | (rs & c & Hin & Hcb & Hi & Hn)]; [by left | right; exists ranges, capacity | right; exists rs, c];
      (split_and!; [| done | lia | lia | done]); [by left | by right].
  - intros [? | (rs & c & [[= -> ->] | Hin]%elem_of_cons & Hcb & Hi & Hn)]; [by left; left | left; right | right; exists rs, c].
    + split_and!; [done | lia | assert (c = capacity) by congruence; lia | done].
    + split_and!; [done | done | lia | lia | done].
Qed.

(** The objects of an index; all fields are [u64]. *)
Definition location_u64 (l : ObjectLocation) : Prop := 0 <= lo_bin l /\ 0 <= lo_offset l /\ 0 <= lo_len l.
Lemma occupied_ranges_spec layout entries m occupied m' occupied' :
  0 < ly_bin_size layout -> fm_bin_size m = ly_bin_size layout -> sizes_ok m -> Forall location_u64 entries ->
  occupied_ranges layout entries m occupied = Ok (m', occupied') ->
  fm_free m' = fm_free m /\ fm_bin_size m' = fm_bin_size m /\ fm_max_size m' = fm_max_size m
  /\ fm_next_bin m <= fm_next_bin m' /\ sizes_ok m' /\ Forall (object_ok m') entries
  /\ forall bin, occupied' !! bin = match ranges_in bin entries with
                                    | [] => occupied !! bin
                                    | rs => Some (default [] (occupied !! bin) ++ rs)
                                    end.
Proof.
  intros Hbs. revert m occupied. induction entries as [| l entries IH]; intros m occupied Eb Hs Hu; simpl.
  { intros [= <- <-]. by split_and!. }
  inversion_clear Hu as [| ? ? (U1 & U2 & U3) Hu']. unfold location_validate, checked_add.
  case Z.leb_spec; intros Hadd; [| done]. destruct (_ || _) eqn:Ev; [done |]. breflect.
  destruct (bin_capacity m (lo_bin l)) as [capacity |] eqn:Hc; [| done].
  unfold saturating_add at 1. rewrite Z.min_l by lia. case Z.ltb_spec; intros Hfit; [done |].
  set (m1 := set_next_bin _ m).
  assert (Hnext : fm_next_bin m1 = Z.max (fm_next_bin m) (lo_bin l + 1)).
  { unfold m1, saturating_add. simpl. rewrite Z.min_l; [done |]. unfold bin_capacity, checked_mul in Hc.
    destruct Hs as [S1 S2 _ _]. revert Hc. case Z.leb_spec; [| done]. intros ?. case Z.leb_spec; [done |]. intros. nia. }
  assert (Hs1 : sizes_ok m1).
  { destruct Hs as [S1 S2 S3 S4]. split; [done | done | lia |]. intros bin Hbin. change (is_Some (bin_capacity m bin)).
    destruct (Z.lt_ge_cases bin (fm_next_bin m)); [apply S4; lia |].
    apply (bin_capacity_below m bin (lo_bin l)); [lia | lia | eauto]. }
  intros Hrun. apply IH in Hrun as (H1 & H2 & H3 & H4 & H5 & H6 & H7); [| done | done | done].
  split_and!; [done | done | done | lia | done | |].
  - constructor; [| done]. split; [lia | done | lia |]. exists capacity.
    by rewrite (bin_capacity_same m1 m' _ H2 H3).
  - intros bin. rewrite H7, ranges_in_cons. case_decide as Hb.
    + subst bin. rewrite lookup_insert_eq. simpl. destruct (ranges_in (lo_bin l) entries); [done |]. by rewrite <- app_assoc.
    + by rewrite lookup_insert_ne.
Qed.

(** The bins below the highest one in use that hold no object. *)
Definition empty_bins (m : FreeMap) (objects : list ObjectLocation) : gset Z :=
  list_to_set (filter (fun bin => Forall (fun l => lo_bin l <> bin) objects) (seqZ 0 (fm_next_bin m))).
Lemma empty_bins_elem m objects bin :
  bin ∈ empty_bins m objects <-> (0 <= bin < fm_next_bin m /\ ranges_in bin objects = []).
Proof.
  unfold empty_bins. rewrite elem_of_list_to_set, list_elem_of_filter, elem_of_seqZ. unfold ranges_in.
  rewrite Forall_forall. split.
  - intros [Hn Hb]. split; [lia |]. rewrite filter_none; [done |]. apply Forall_forall. intros l Hl. by apply Hn.
  - intros [Hb Hn%fmap_nil_inv]. split; [| lia]. intros l Hl E. assert (Hin : l ∈ filter (fun l => lo_bin l = bin) objects)
      by (by apply list_elem_of_filter). rewrite Hn in Hin. by apply not_elem_of_nil in Hin.
Qed.
Lemma apart_by_bins objects :
  (forall bin, StronglySorted disjoint_ranges (ranges_in bin objects)) -> StronglySorted apart objects.
Proof.
  induction objects as [| l objects IH]; intros Hb; constructor.
  - apply IH. intros bin. specialize (Hb bin). rewrite ranges_in_cons in Hb. case_decide; [by inversion Hb | done].
  - apply Forall_forall. intros o Ho. specialize (Hb (lo_bin l)). rewrite ranges_in_cons, decide_True in Hb by done.
    inversion_clear Hb as [| ? ? _ Hd]. unfold apart. destruct (decide (lo_bin l = lo_bin o)) as [E |]; [right | by left].
    rewrite Forall_forall in Hd. specialize (Hd (range_of o)). unfold disjoint_ranges, clear_of in Hd. simpl in Hd.
    apply Hd. unfold ranges_in. apply list_elem_of_fmap_2, list_elem_of_filter. done.
Qed.

Lemma ranges_in_ok m entries bin capacity :
  Forall (object_ok m) entries -> bin_capacity m bin = Some capacity -> Forall (range_ok capacity) (ranges_in bin entries).
Proof.
  intros Hobj Hc. unfold ranges_in. apply Forall_fmap, Forall_forall. intros l [<- Hl]%list_elem_of_filter.
  rewrite Forall_forall in Hobj. destruct (Hobj l Hl) as [_ O2 O3 (c & Hc' & O4)].
  assert (c = capacity) by congruence. split; simpl; lia.
Qed.
Lemma ranges_in_bin m entries bin :
  Forall (object_ok m) entries -> ranges_in bin entries <> [] -> 0 <= bin < fm_next_bin m.
Proof.
  intros Hobj Hne. unfold ranges_in in Hne. destruct (filter _ entries) as [| l k] eqn:E; [done |].
  assert (Hl : l ∈ filter (fun l => lo_bin l = bin) entries) by (rewrite E; by left).
  apply list_elem_of_filter in Hl as [<- Hl]. rewrite Forall_forall in Hobj. apply (Hobj l Hl).
Qed.

(** When every bin with objects has its gaps free, and no other range is. *)
Lemma rebuilt_inv m entries :
  map_ok m -> Forall (object_ok m) entries ->
  (forall bin, StronglySorted disjoint_ranges (ranges_in bin entries)) ->
  (forall b i, free_at m b i <-> exists capacity, ranges_in b entries <> [] /\ bin_capacity m b = Some capacity
                                 /\ 0 <= i < capacity /\ ~ covers (ranges_in b entries) i) ->
  invariant (empty_bins m entries) m entries.
Proof.
  intros Hm Hobj Hd Hfree. split; [done | done | by apply apart_by_bins | |].
  - intros bin c i Hb Hc Hi. pose proof (ranges_in_covers bin entries i) as Hu. specialize (Hfree bin i).
    case_decide as Hl; rewrite empty_bins_elem in Hl.
    + destruct Hl as [_ Hn]. rewrite <- Hu, Hfree, Hn. split; [by intros (? & ? & _) | apply covers_nil].
    + rewrite <- Hu, Hfree. split; [by intros (? & _ & _ & _ & ?) |]. intros Hn. exists c. split_and!; [| done | lia | lia | done].
      intros E. by apply Hl.
  - intros bin [Hb _]%empty_bins_elem. lia.
Qed.
Lemma from_occupied_inv layout entries m :
  0 < ly_bin_size layout <= U64_MAX -> 0 <= ly_max_size layout <= U64_MAX -> Forall location_u64 entries ->
  from_occupied layout entries = Ok m -> invariant (empty_bins m entries) m entries.
Proof.
  intros Hbs Hms Hu. unfold from_occupied.
  destruct (occupied_ranges layout entries (free_map_new layout) ∅) as [[m0 occupied] |] eqn:Eo; [| done].
  apply occupied_ranges_spec in Eo as (H1 & H2 & H3 & _ & Hs & Hobj & Hocc); [| lia | done | | done].
  2:{ split; simpl; [done | done | lia | lia]. }
  assert (Hm0 : map_ok m0) by (split; [done |]; rewrite H1; simpl; intros bin rs Hb; by rewrite lookup_empty in Hb).
  assert (Hnofree : forall b i, ~ free_at m0 b i).
  { intros b i. unfold free_at, free_ranges. rewrite H1. simpl. rewrite lookup_empty. apply covers_nil. }
  assert (Hin : forall b rs, (b, rs) ∈ merge_sort key_le (map_to_list occupied) <-> rs = ranges_in b entries /\ ranges_in b entries <> []).
  { intros b rs. rewrite (merge_sort_Permutation key_le), elem_of_map_to_list, Hocc, lookup_empty.
    destruct (ranges_in b entries) eqn:E; simpl; naive_solver. }
  cbv beta iota. intros Hrun. apply free_bins_spec in Hrun as (D & Hm & [f ->] & Hfree); [| done |].
  2:{ apply Forall_forall. intros [b rs] [-> Hne]%Hin. split; [by eapply ranges_in_bin |]. intros c Hc. by eapply ranges_in_ok. }
  apply rebuilt_inv; [done | | |].
  - eapply Forall_impl; [exact Hobj |]. intros l. apply object_ok_set_free.
  - intros bin. destruct (ranges_in bin entries) as [| r rs] eqn:E; [constructor |].
    rewrite Forall_forall in D. rewrite <- E. apply (D (bin, ranges_in bin entries)), Hin. split; [done | by rewrite E].
  - intros b i. rewrite Hfree. split.
    + intros [? | (rs & c & [-> ?]%Hin & ? & ? & ?)]; [by exfalso; eapply Hnofree | by exists c].
    + intros (c & ? & ? & ? & ?). right. exists (ranges_in b entries), c. split_and!; [by apply Hin | done | lia | lia | done].
Qed.

(** ** Every run *)

Definition layout_ok (l : Layout) : Prop := 0 < ly_bin_size l <= U64_MAX /\ 0 <= ly_max_size l <= U64_MAX.
(** The maps a cache can have, with its live objects and the lost bins: new or
    rebuilt, then after any operations; only live objects are released. *)
Inductive bins_reach (layout : Layout) : gset Z -> FreeMap -> list ObjectLocation -> Prop :=
| br_new : bins_reach layout ∅ (free_map_new layout) []
| br_rebuilt entries m :
    Forall location_u64 entries -> from_occupied layout entries = Ok m ->
    bins_reach layout (empty_bins m entries) m entries
| br_allocate lost m objects len l m' :
    bins_reach layout lost m objects -> 0 < len -> allocate len m = (Ok (Some l), m') ->
    bins_reach layout lost m' (l :: objects)
| br_release lost m objects objects' l m' :
    bins_reach layout lost m objects -> objects ≡ₚ l :: objects' -> release l m = Ok m' ->
    bins_reach layout lost m' objects'
| br_reclaim lost m objects :
    bins_reach layout lost m objects -> bins_reach layout lost (reclaim_free_tail_bins m).2 objects.

Lemma free_map_new_inv layout : layout_ok layout -> invariant ∅ (free_map_new layout) [].
Proof.
  intros [Hb Hm]. split; simpl; [| constructor | constructor | lia | set_solver].
  split; [split; simpl; [done | done | lia | lia] |]. simpl. intros bin rs E. by rewrite lookup_empty in E.
Qed.
Lemma bins_reach_inv layout lost m objects :
  layout_ok layout -> bins_reach layout lost m objects -> invariant lost m objects.
Proof.
  intros Hl. induction 1 as [| entries m Hu Hf | lost m objects len l m' _ IH Hlen Ha
    | lost m objects objects' l m' _ IH Hp Hr | lost m objects _ IH].
  - by apply free_map_new_inv.
  - destruct Hl. by apply (from_occupied_inv layout).
  - pose proof (allocate_inv lost len m objects IH Hlen) as Hi. rewrite Ha in Hi. apply Hi.
  - destruct (release_inv lost m objects' l) as (m1 & E & Hi); [by eapply invariant_perm |]. congruence.
  - by apply (reclaim_loop_inv lost _ m objects []).
Qed.

(** C14: Whatever is allocated, released, reclaimed and rebuilt, live objects
    lie within the budget and share no byte, and every byte of the bins in use
    is either free or in an object, never both; bins without objects that a
    rebuild found below others are the exception: they are neither. *)
Theorem storage_bins_partition (layout : Layout) (lost : gset Z) (m : FreeMap) (objects : list ObjectLocation) :
  layout_ok layout -> bins_reach layout lost m objects ->
  Forall (object_ok m) objects /\ StronglySorted apart objects
  /\ forall bin capacity i, 0 <= bin < fm_next_bin m -> bin_capacity m bin = Some capacity -> 0 <= i < capacity ->
     if decide (bin ∈ lost) then ~ free_at m bin i /\ ~ in_use objects bin i
     else free_at m bin i <-> ~ in_use objects bin i.
Proof.
  intros Hl Hr. destruct (bins_reach_inv layout lost m objects Hl Hr) as [_ Ho Ha Hb _]. by split_and!.
Qed.

(** In every such state an allocation fails only when the object is larger
    than a bin, or no free range is long enough and no further bin of that
    size fits the budget; releasing a live object always succeeds; and a
    reclaim leaves no entirely free bin at the end. *)
Theorem storage_bins_complete (layout : Layout) (lost : gset Z) (m : FreeMap) (objects : list ObjectLocation) :
  layout_ok layout -> bins_reach layout lost m objects ->
  (forall len, 0 < len ->
     (exists l m', allocate len m = (Ok (Some l), m') /\ lo_len l = len)
     \/ (allocate len m = (Ok None, m)
         /\ (fm_bin_size m < len
             \/ (no_room m len /\ forall capacity, bin_capacity m (fm_next_bin m) = Some capacity -> capacity < len))))
  /\ (forall l, l ∈ objects -> exists m', release l m = Ok m')
  /\ (let m' := (reclaim_free_tail_bins m).2 in
      fm_next_bin m' = 0 \/ bin_is_free m' (fm_next_bin m' - 1) = false).
Proof.
  intros Hl Hr. pose proof (bins_reach_inv layout lost m objects Hl Hr) as Hinv. split_and!.
  - intros len Hlen. pose proof (allocate_inv lost len m objects Hinv Hlen) as Ha.
    destruct (allocate len m) as [[[l |] | e] m']; [left | right | done].
    + exists l, m'. by destruct Ha.
    + destruct Ha as [-> Ha]. done.
  - intros l [k Hk]%elem_of_Permutation. destruct (release_inv lost m k l) as (m' & E & _); [by eapply invariant_perm | eauto].
  - destruct (reclaim_loop_inv lost (Z.to_nat (fm_next_bin m)) m objects []) as [Hi Hlast]; [done | done |].
    cbv zeta. unfold reclaim_free_tail_bins. destruct Hlast as [Hz | Hf]; [left | by right].
    pose proof (so_next _ (mo_sizes _ (iv_map _ _ _ Hi))). lia.
Qed.

(** ** A small cache *)

Definition small_layout : Layout := {| ly_bin_size := 100; ly_max_size := 250 |}.
Definition object_at (bin offset len : Z) : ObjectLocation := {| lo_bin := bin; lo_offset := offset; lo_len := len |}.
(** Three objects allocated, the first released. *)
Definition full_map : FreeMap := (allocate 30 (allocate 50 (allocate 60 (free_map_new small_layout)).2).2).2.
Definition small_map : FreeMap := match release (object_at 0 0 60) full_map with Ok m => m | Err _ => full_map end.
Definition small_objects : list ObjectLocation := [object_at 0 60 30; object_at 1 0 50].
Lemma small_layout_ok : layout_ok small_layout.
Proof. split; vm_compute; split; congruence. Qed.
Lemma reach_allocated layout lost m objects len l :
  bins_reach layout lost m objects -> 0 < len -> (allocate len m).1 = Ok (Some l) ->
  bins_reach layout lost (allocate len m).2 (l :: objects).
Proof. intros Hr Hlen E. apply (br_allocate _ _ m _ len); [done | done |]. rewrite <- E. apply surjective_pairing. Qed.
Lemma full_reach : bins_reach small_layout ∅ full_map [object_at 0 60 30; object_at 1 0 50; object_at 0 0 60].
Proof. do 3 (apply reach_allocated; [| lia | vm_compute; reflexivity]). apply br_new. Qed.
Lemma small_reach : bins_reach small_layout ∅ small_map small_objects.
Proof.
  apply (br_release _ _ full_map _ small_objects (object_at 0 0 60) small_map full_reach); [| vm_compute; reflexivity].
  symmetry. apply Permutation_cons_append.
Qed.

Lemma storage_bins_partition_witness :
  free_at small_map 0 10 /\ ~ free_at small_map 0 70.
Proof.
  destruct (storage_bins_partition small_layout ∅ small_map small_objects small_layout_ok small_reach) as (_ & _ & H).
  split.
  - apply (H 0 100 10); [vm_compute; split; congruence | reflexivity | lia |].
    intros (l & Hin & Hl). unfold small_objects in Hin. rewrite !elem_of_cons, elem_of_nil in Hin.
    unfold in_object in Hl. destruct Hin as [-> | [-> | []]]; simpl in Hl; lia.
  - intros Hf. apply (H 0 100 70) in Hf; [| vm_compute; split; congruence | reflexivity | lia].
    apply Hf. exists (object_at 0 60 30). split; [set_solver | unfold in_object; simpl; lia].
Defined.
Lemma storage_bins_complete_witness :
  (exists m', release (object_at 1 0 50) small_map = Ok m') /\ allocate 60 small_map = (Ok (Some (object_at 0 0 60)), (allocate 60 small_map).2).
Proof.
  destruct (storage_bins_complete small_layout ∅ small_map small_objects small_layout_ok small_reach) as (_ & H & _).
  split; [apply H; set_solver | reflexivity].
Defined.

(** A cache whose only object lies in the second of two bins: after the map is
    rebuilt from the index, the first bin can neither be allocated from nor
    reclaimed, although it holds nothing. *)
Definition two_bins : Layout := {| ly_bin_size := 100; ly_max_size := 200 |}.
Definition rebuilt_map : FreeMap :=
  match from_occupied two_bins [object_at 1 0 100] with Ok m => m | Err _ => free_map_new two_bins end.
Definition released_map : FreeMap :=
  match release (object_at 1 0 100) rebuilt_map with Ok m => m | Err _ => rebuilt_map end.
Lemma rebuild_loses_bins :
  from_occupied two_bins [object_at 1 0 100] = Ok rebuilt_map
  /\ allocate 1 rebuilt_map = (Ok None, rebuilt_map)
  /\ release (object_at 1 0 100) rebuilt_map = Ok released_map
  /\ fm_next_bin (reclaim_free_tail_bins released_map).2 = 1.
Proof. split_and!; vm_compute; reflexivity. Qed.
