(* ===== verification/HostNames.v ===== *)
(** * Host names and authorities of the configuration ([config_net.rs])

    Normal forms of host names, upstream authorities, address matchers and
    trusted proxies, as the configuration and the header policies use them. *)
From Stdlib Require Import ZArith Lia.
From stdpp Require Import base list numbers strings sets.
From S2P Require Import Prelude Text NetAddr.

(** ** Text helpers of the standard library *)

(** [str::trim_end_matches(c)], [str::trim_start_matches(f)] and [str::trim_matches(f)] *)
Fixpoint drop_while (f : Z -> bool) (s : list Z) : list Z :=
  match s with
  | [] => []
  | c :: s' => if f c then drop_while f s' else s
  end.
Definition trim_end_matches (f : Z -> bool) (s : list Z) : list Z := rev (drop_while f (rev s)).
Definition trim_matches (f : Z -> bool) (s : list Z) : list Z := trim_end_matches f (drop_while f s).

(** [str::rsplit_once(c)] *)
Definition rsplit_once (c : Z) (s : list Z) : option (list Z * list Z) :=
  match split_once c (rev s) with
  | Some (r, l) => Some (rev l, rev r)
  | None => None
  end.

(** [char::is_control]: one byte, or two for the second control block. *)
Definition control1 (c : Z) : bool := between 0 31 c || (c =? 127).
Definition control2 (c0 c1 : Z) : bool := (c0 =? 194) && between 128 159 c1.
(** [s.chars().any(|ch| ch.is_whitespace() || ch.is_control())] *)
Fixpoint any_space_or_control (s : list Z) : bool :=
  match s with
  | [] => false
  | c0 :: s0 =>
      ws1 c0 || control1 c0
      || match s0 with
         | c1 :: s1 =>
             ws2 c0 c1 || control2 c0 c1
             || match s1 with c2 :: _ => ws3 c0 c1 c2 | [] => false end
         | [] => false
         end
      || any_space_or_control s0
  end.
(** [s.chars().any(char::is_whitespace)] *)
Fixpoint any_space (s : list Z) : bool :=
  match s with
  | [] => false
  | c0 :: s0 =>
      ws1 c0
      || match s0 with
         | c1 :: s1 => ws2 c0 c1 || match s1 with c2 :: _ => ws3 c0 c1 c2 | [] => false end
         | [] => false
         end
      || any_space s0
  end.

Definition is_loopback (ip : IpAddr) : bool :=
  match ip with
  | V4 a _ _ _ => a =? 127
  | V6 segs => bool_decide (segs = [0; 0; 0; 0; 0; 0; 0; 1])
  end.
Definition is_unspecified (ip : IpAddr) : bool :=
  match ip with
  | V4 a b c d => (a =? 0) && (b =? 0) && (c =? 0) && (d =? 0)
  | V6 segs => bool_decide (segs = [0; 0; 0; 0; 0; 0; 0; 0])
  end.

(** ** Host names *)

Definition is_dot (c : Z) : bool := c =? 46.

Definition dns_label_valid (label : list Z) : bool :=
  negb (bool_decide (label = [])) && (zlen label <=? 63) && negb (starts_with [45] label)
  && negb (ends_with [45] label) && forallb (fun c => is_ascii_alphanumeric c || (c =? 45)) label.

Definition valid_dns_hostname (host : list Z) : bool :=
  let host := trim_end_matches is_dot host in
  if bool_decide (host = []) || (253 <? zlen host) || contains_byte 37 host then false
  else
    let labels := split_byte 46 host in
    if negb (forallb dns_label_valid labels) then false
    else negb (forallb is_ascii_digit (default [] (last labels))).

Definition valid_port_suffix (rest : list Z) : bool :=
  match strip_prefix [58] rest with
  | Some port => negb (bool_decide (port = [])) && bool_decide (is_Some (parse_uint U16_MAX port))
  | None => false
  end.

(** The host of [candidate:port], or the whole text when that is not its form. *)
Definition host_without_port (host : list Z) : list Z :=
  match rsplit_once 58 host with
  | Some (candidate, port) =>
      if negb (contains_byte 58 candidate) && negb (bool_decide (candidate = []))
         && bool_decide (is_Some (parse_uint U16_MAX port))
      then trim_end_matches is_dot candidate
      else host
  | None => host
  end.

Definition normalize_host (host : list Z) : option (list Z) :=
  let host := trim_end_matches is_dot (trim host) in
  if bool_decide (host = []) || contains_byte 42 host || contains_byte 47 host
     || contains_byte 92 host || contains_byte 63 host || contains_byte 35 host
     || contains_byte 64 host || any_space_or_control host
  then None
  else
    match strip_prefix [91] host with
    | Some stripped =>
        match split_once 93 stripped with
        | None => None
        | Some (addr, rest) =>
            if negb (bool_decide (rest = [])) && negb (valid_port_suffix rest) then None
            else Some (to_ascii_lowercase addr)
        end
    | None =>
        let host := host_without_port host in
        if bool_decide (host = []) || starts_with [46] host then None
        else if bool_decide (parse_ip host = None) && negb (valid_dns_hostname host) then None
        else Some (to_ascii_lowercase host)
    end.

Definition normalize_host_pattern (host : list Z) : option (list Z) :=
  let host := trim host in
  match strip_prefix (bs "*.") host with
  | Some suffix =>
      match normalize_host suffix with
      | None => None
      | Some suffix => if contains_byte 58 suffix then None else Some (bs "*." ++ suffix)
      end
  | None => normalize_host host
  end.

(** ** Authorities *)

Definition is_bracket (c : Z) : bool := (c =? 91) || (c =? 93).

Definition split_host_port (authority : list Z) : option (list Z * Z) :=
  match rsplit_once 58 authority with
  | None => None
  | Some (host, port) =>
      if bool_decide (trim host = []) || bool_decide (trim port = []) then None
      else match parse_uint U16_MAX port with
           | None => None
           | Some port =>
               if port =? 0 then None
               else
                 let host := trim_matches is_bracket host in
                 if bool_decide (trim host = []) || contains_byte 47 host then None
                 else Some (host, port)
           end
  end.

Definition upstream_host (authority : list Z) : option (list Z) :=
  match parse_socket_addr authority with
  | Some socket => Some (show_ip (sa_ip socket))
  | None => fst <$> split_host_port authority
  end.

Definition valid_authority (authority : list Z) : bool :=
  if bool_decide (is_Some (parse_socket_addr authority)) then true
  else match split_host_port authority with
       | Some (host, _) => bool_decide (is_Some (parse_ip host)) || bool_decide (is_Some (normalize_host host))
       | None => false
       end.

Definition valid_u16_port (port : list Z) : bool :=
  match parse_uint U16_MAX port with Some port => negb (port =? 0) | None => false end.
Definition valid_http_authority_port_tail (tail : list Z) : bool :=
  match strip_prefix [58] tail with Some port => valid_u16_port port | None => false end.
Definition valid_http_host (host : list Z) : bool :=
  bool_decide (is_Some (parse_ip host)) || valid_dns_hostname host.

Definition valid_http_authority (authority : list Z) : bool :=
  if starts_with [91] authority then
    match find_byte 93 authority with
    | None => false
    | Some close =>
        if close <=? 1 then false
        else
          let tail := zdrop (close + 1) authority in
          bool_decide (tail = []) || valid_http_authority_port_tail tail
    end
  else match rsplit_once 58 authority with
       | None => valid_http_host authority
       | Some (host, port) => valid_http_host host && valid_u16_port port
       end.

Definition http_authority_host (authority : list Z) : option (list Z) :=
  if contains_byte 64 authority then None
  else if starts_with [91] authority then
    match find_byte 93 authority with
    | None => None
    | Some close =>
        let tail := zdrop (close + 1) authority in
        if negb (bool_decide (tail = [])) && negb (valid_http_authority_port_tail tail) then None
        else Some (ztake (close - 1) (zdrop 1 authority))
    end
  else match rsplit_once 58 authority with
       | Some (host, port) =>
           if contains_byte 58 host || negb (valid_u16_port port) then None else Some host
       | None => Some authority
       end.

Definition http_authority_is_loopback (authority : list Z) : bool :=
  match http_authority_host authority with
  | None => false
  | Some host =>
      eq_ignore_ascii_case host (bs "localhost")
      || match parse_ip host with Some address => is_loopback address | None => false end
  end.
Definition http_authority_is_numeric_loopback (authority : list Z) : bool :=
  match http_authority_host authority with
  | Some host => bool_decide (host = bs "127.0.0.1") || bool_decide (host = bs "::1")
  | None => false
  end.

Definition valid_upstream_alias (alias : list Z) : bool :=
  negb (bool_decide (alias = [])) && (zlen alias <=? 64)
  && forallb (fun c => is_ascii_alphanumeric c || existsb (Z.eqb c) (bs ".-_")) alias.

(** ** Address matchers and trusted proxies *)

Definition prefix_fits (address : IpAddr) (prefix : Z) : bool :=
  match address with V4 _ _ _ _ => prefix <=? 32 | V6 _ => prefix <=? 128 end.

Definition valid_ip_matcher (value : list Z) : bool :=
  let value := trim value in
  if bool_decide (value = []) || any_space value then false
  else match split_once 47 value with
       | None => bool_decide (is_Some (parse_ip value))
       | Some (address, prefix) =>
           match parse_ip address, parse_uint U8_MAX prefix with
           | Some address, Some prefix => prefix_fits address prefix
           | _, _ => false
           end
       end.

Definition trusted_proxy_has_safe_scope (value : list Z) : bool :=
  let value := trim value in
  match split_once 47 value with
  | None => match parse_ip value with Some address => negb (is_unspecified address) | None => false end
  | Some (address, prefix) =>
      match parse_ip address, parse_uint U8_MAX prefix with
      | Some address, Some prefix =>
          if is_unspecified address then false
          else match address with V4 _ _ _ _ => 8 <=? prefix | V6 _ => 29 <=? prefix end
      | _, _ => false
      end
  end.

Definition valid_trusted_proxy (value : list Z) : bool :=
  valid_ip_matcher value && trusted_proxy_has_safe_scope value.

Definition trusted_proxy_ipv6_prefix_broader_than_32 (value : list Z) : option Z :=
  match split_once 47 (trim value) with
  | None => None
  | Some (address, prefix) =>
      match parse_ip address, parse_uint U8_MAX prefix with
      | Some (V6 _), Some prefix => if prefix <? 32 then Some prefix else None
      | _, _ => None
      end
  end.

(** ** Sample behaviour *)

Example normalize_port : normalize_host (bs " Example.COM.:8443 ") = Some (bs "example.com").
Proof. reflexivity. Qed.
Example normalize_v6 : normalize_host (bs "[2001:DB8::1]:443") = Some (bs "2001:db8::1").
Proof. reflexivity. Qed.
Example normalize_number : normalize_host (bs "1.2.3") = None.
Proof. reflexivity. Qed.
Example trusted_broad : valid_trusted_proxy (bs "2a06:98c0::/29") = true /\ valid_trusted_proxy (bs "2001:db8::/28") = false.
Proof. by vm_compute. Qed.
(** What stands in brackets is not checked to be an address: it can be empty or
    a name. *)
Example normalize_brackets_unchecked :
  normalize_host (bs "[]") = Some [] /\ normalize_host (bs "[Example.com]:80") = Some (bs "example.com")
  /\ normalize_host (bs "[a:b]") = Some (bs "a:b") /\ normalize_host (bs "a:b") = None.
Proof. by vm_compute. Qed.
