(* ===== verification/Headers.v ===== *)
(** * Header policies ([fluxheim-headers], [proxy_protocol.rs] of the server)

    The client address behind trusted proxies, the [Forwarded] value, hop-by-hop
    headers, and the rewriting of response headers.  Header values are lists of
    UTF-8 bytes; every byte tested here is ASCII, so byte positions are
    character positions. *)
From Stdlib Require Import ZArith Lia.
From stdpp Require Import base list numbers strings sets.
From S2P Require Import Prelude Text NetAddr ProxyProtocol Http1Target HostNames.

(** ** Trusted sources *)

(** [Ipv6Addr::to_ipv4_mapped] on an address *)
Definition normalize_ipv4_mapped_ip (address : IpAddr) : IpAddr :=
  match address with
  | V6 segs => match to_ipv4_mapped segs with Some (a, b, c, d) => V4 a b c d | None => V6 segs end
  | V4 _ _ _ _ => address
  end.
Definition prefix_match (width network address prefix : Z) : bool :=
  if width <? prefix then false
  else Z.land network (cidr_mask width prefix) =? Z.land address (cidr_mask width prefix).
(** [ProxyProtocolTrustedSource::contains] *)
Definition source_contains (source : ProxyProtocolTrustedSource) (address : IpAddr) : bool :=
  let address := normalize_ipv4_mapped_ip address in
  match source, address with
  | TrustedIp trusted, _ => bool_decide (normalize_ipv4_mapped_ip trusted = address)
  | TrustedCidr (V4 n1 n2 n3 n4) prefix, V4 a b c d =>
      prefix_match 32 (ipv4_to_u32 n1 n2 n3 n4) (ipv4_to_u32 a b c d) prefix
  | TrustedCidr (V6 network) prefix, V6 segs =>
      prefix_match 128 (ipv6_to_u128 network) (ipv6_to_u128 segs) prefix
  | _, _ => false
  end.

(** ** The client address ([client_ip.rs]) *)

Definition parse_x_forwarded_for_ip (value : list Z) : option IpAddr :=
  let value := trim value in
  if bool_decide (value = []) then None
  else
    let unquoted :=
      match starts_with [34] value, ends_with [34] value with
      | true, true =>
          match strip_prefix [34] value with
          | None => None
          | Some inner =>
              match strip_suffix [34] inner with
              | None => None
              | Some inner => if bool_decide (inner = []) || contains_byte 34 inner then None else Some inner
              end
          end
      | false, false => Some value
      | _, _ => None
      end in
    match unquoted with
    | None => None
    | Some value =>
        match strip_prefix [91] value ≫= strip_suffix [93] with
        | Some value => match parse_ip value with Some (V6 segs) => Some (V6 segs) | _ => None end
        | None => parse_ip value
        end
    end.

(** The loop over the hops, from the last; [last_valid] is the first hop read. *)
Fixpoint client_hops (direct : IpAddr) (trusted : IpAddr -> bool) (last_valid : option IpAddr)
    (hops : list (list Z)) : IpAddr :=
  match hops with
  | [] => default direct last_valid
  | raw :: rest =>
      match parse_x_forwarded_for_ip raw with
      | None => direct
      | Some hop =>
          let last_valid := Some (default hop last_valid) in
          if negb (trusted hop) then hop else client_hops direct trusted last_valid rest
      end
  end.
Definition effective_client_ip (direct : IpAddr) (trusted_direct_peer : bool)
    (original : option (list Z)) (matcher : option (IpAddr -> bool)) : IpAddr :=
  if negb trusted_direct_peer then direct
  else match original, matcher with
       | Some original, Some trusted => client_hops direct trusted None (rev (split_byte 44 original))
       | _, _ => direct
       end.

(** ** The [Forwarded] value *)

Inductive ForwardedProto : Type := ProtoHttp | ProtoHttps.
Definition proto_as_str (p : ForwardedProto) : list Z :=
  match p with ProtoHttp => bs "http" | ProtoHttps => bs "https" end.

Definition forwarded_host_byte_bad (c : Z) : bool :=
  between 0 31 c || (c =? 127) || (c =? 32) || (c =? 34) || (c =? 92) || (c =? 59) || (c =? 44).
Definition valid_forwarded_host (host : list Z) : bool :=
  negb (bool_decide (host = [])) && is_ascii host && bool_decide (trim host = host)
  && negb (existsb forwarded_host_byte_bad host)
  && bool_decide (is_Some (normalize_host host))
  && (starts_with [91] host || (zlen (List.filter (fun c => c =? 58) host) <=? 1)).
Definition forwarded_ip (ip : IpAddr) : list Z :=
  match ip with
  | V4 _ _ _ _ => show_ip ip
  | V6 _ => [34; 91] ++ show_ip ip ++ [93; 34]
  end.
Fixpoint escape_quoted (value : list Z) : list Z :=
  match value with
  | [] => []
  | c :: rest => (if (c =? 92) || (c =? 34) then [92; c] else [c]) ++ escape_quoted rest
  end.
Definition quote_forwarded_value (value : list Z) : list Z := [34] ++ escape_quoted value ++ [34].
Definition build_forwarded_header (client_ip : IpAddr) (host : option (list Z)) (proto : ForwardedProto)
    : option (list Z) :=
  if match host with Some host => negb (valid_forwarded_host host) | None => false end then None
  else
    Some (bs "for=" ++ forwarded_ip client_ip
          ++ match host with Some host => bs ";host=" ++ quote_forwarded_value host | None => [] end
          ++ bs ";proto=" ++ proto_as_str proto).

(** ** Hop-by-hop headers ([hop_by_hop.rs]) *)

Definition HOP_BY_HOP_REQUEST_HEADERS : list (list Z) :=
  [bs "connection"; bs "keep-alive"; bs "proxy-connection"; bs "proxy-authenticate";
   bs "proxy-authorization"; bs "te"; bs "trailer"; bs "transfer-encoding"; bs "upgrade"].
Record HopByHopRequestHeaderPolicy : Type := mkHopByHop {
  connection_listed_headers : list (list Z);
  preserve_chunked_framing : bool;
}.
Definition hop_by_hop_request_header_policy (connection_values transfer_encoding_values : list (list Z))
    : HopByHopRequestHeaderPolicy :=
  let listed := to_ascii_lowercase <$>
    List.filter http_token_valid (trim <$> (connection_values ≫= split_byte 44)) in
  let codings := List.filter (fun v => negb (bool_decide (v = [])))
    (trim <$> (transfer_encoding_values ≫= split_byte 44)) in
  mkHopByHop listed
    (match last codings with Some coding => eq_ignore_ascii_case coding (bs "chunked") | None => false end).

(** ** Joined values ([lib.rs]) *)

Definition join_header_values_with_separator (values : list (list Z)) (separator : list Z) : option (list Z) :=
  match values with
  | [] => None
  | first :: rest => Some (foldl (fun joined value => joined ++ separator ++ value) first rest)
  end.
Definition join_header_values (values : list (list Z)) : option (list Z) :=
  join_header_values_with_separator values (bs ", ").

(** ** Rewriting of response headers ([lib.rs]) *)

Record RewriteRule : Type := mkRewriteRule { rr_from : list Z; rr_to : list Z }.

Fixpoint rewrite_header_prefix (value : list Z) (rules : list RewriteRule) : option (list Z) :=
  match rules with
  | [] => None
  | rule :: rest =>
      if response_rewrite_prefix_matches value (rr_from rule)
      then Some (rr_to rule ++ zdrop (zlen (rr_from rule)) value)
      else rewrite_header_prefix value rest
  end.

Definition is_blank (c : Z) : bool := (c =? 32) || (c =? 9).
(** Blanks, an equals sign and blanks: how many bytes they are. *)
Definition after_equals (s : list Z) : option Z :=
  match drop_while is_blank s with
  | 61 :: rest => Some (zlen s - zlen (drop_while is_blank rest))
  | _ => None
  end.

(** The search from [index]; [previous] is the byte before it. *)
Fixpoint find_refresh_from (previous : option Z) (index : Z) (s : list Z) : option Z :=
  match s with
  | [] => None
  | c :: rest =>
      match rest with
      | _ :: _ :: tail =>
          let separated := match previous with None => true | Some p => (p =? 59) || is_blank p end in
          let found := if separated && eq_ignore_ascii_case (take 3 s) (bs "url") then after_equals tail else None in
          match found with
          | Some n => Some (index + 3 + n)
          | None => find_refresh_from (Some c) (index + 1) rest
          end
      | _ => None
      end
  end.
Definition find_refresh_url_start (value : list Z) : option Z := find_refresh_from None 0 value.

(** The sums here are of lengths within one string, so the checked additions
    of the code never fail. *)
Definition rewrite_refresh_url (value : list Z) (rules : list RewriteRule) : option (list Z) :=
  match find_refresh_url_start value with
  | None => None
  | Some url_start =>
      let quote := match zget value url_start with
                   | Some c => if (c =? 34) || (c =? 39) then Some c else None
                   | None => None
                   end in
      let match_start := url_start + match quote with Some _ => 1 | None => 0 end in
      let match_end := match quote with
                       | Some q => (fun i => match_start + i) <$> find_byte q (zdrop match_start value)
                       | None => Some (zlen value)
                       end in
      match match_end with
      | None => None
      | Some match_end =>
          match rewrite_header_prefix (ztake (match_end - match_start) (zdrop match_start value)) rules with
          | None => None
          | Some url => Some (ztake match_start value ++ url ++ zdrop match_end value)
          end
      end
  end.

(** *** Cookies *)

(** The position of the value of [attribute] in the segment. *)
Definition cookie_attribute_value_start (segment attribute : list Z) : option Z :=
  let after_blanks := drop_while is_blank segment in
  if (zlen after_blanks <? zlen attribute)
     || negb (eq_ignore_ascii_case (ztake (zlen attribute) after_blanks) attribute) then None
  else
    let rest := zdrop (zlen attribute) after_blanks in
    match after_equals rest with
    | None => None
    | Some n => Some (zlen segment - zlen rest + n)
    end.

Definition normalize_cookie_attribute_value (value : list Z) : list Z :=
  let value := trim_matches is_blank value in
  default value (strip_prefix [34] value ≫= strip_suffix [34]).
Definition normalized_cookie_domain (value : list Z) : list Z :=
  let value := normalize_cookie_attribute_value value in
  default value (strip_prefix [46] value).

Fixpoint rewrite_domain_rules (value : list Z) (rules : list RewriteRule) : option (list Z) :=
  match rules with
  | [] => None
  | rule :: rest =>
      if eq_ignore_ascii_case value (normalized_cookie_domain (rr_from rule)) then Some (rr_to rule)
      else rewrite_domain_rules value rest
  end.
(** [normalized] is the value of the attribute without blanks and quotes. *)
Definition rewrite_cookie_domain (normalized : list Z) (rules : list RewriteRule) : option (list Z) :=
  rewrite_domain_rules (default normalized (strip_prefix [46] normalized)) rules.
Definition rewrite_cookie_path (normalized : list Z) (rules : list RewriteRule) : option (list Z) :=
  rewrite_header_prefix normalized rules.

Definition rewrite_cookie_attribute (segment attribute : list Z) (rules : list RewriteRule)
    (rewrite_value : list Z -> list RewriteRule -> option (list Z)) : option (list Z) :=
  if bool_decide (rules = []) then None
  else match cookie_attribute_value_start segment attribute with
       | None => None
       | Some start =>
           match rewrite_value (normalize_cookie_attribute_value (zdrop start segment)) rules with
           | None => None
           | Some value => Some (ztake start segment ++ value)
           end
       end.

Record CookieRewrite : Type := mkCookieRewrite {
  cookie_domain : list RewriteRule;
  cookie_path : list RewriteRule;
}.
(** One attribute of the cookie: its new text, if any. *)
Definition rewrite_segment (rewrite : CookieRewrite) (segment : list Z) : option (list Z) :=
  match rewrite_cookie_attribute segment (bs "domain") (cookie_domain rewrite) rewrite_cookie_domain with
  | Some next => Some next
  | None => rewrite_cookie_attribute segment (bs "path") (cookie_path rewrite) rewrite_cookie_path
  end.
(** The attributes after the first segment, each with its semicolon. *)
Fixpoint rewrite_segments (rewrite : CookieRewrite) (changed : bool) (rewritten : list Z)
    (segments : list (list Z)) : bool * list Z :=
  match segments with
  | [] => (changed, rewritten)
  | segment :: rest =>
      match rewrite_segment rewrite segment with
      | Some next => rewrite_segments rewrite true (rewritten ++ [59] ++ next) rest
      | None => rewrite_segments rewrite changed (rewritten ++ [59] ++ segment) rest
      end
  end.
Definition rewrite_set_cookie_value (value : list Z) (rewrite : CookieRewrite) : option (list Z) :=
  let '(changed, rewritten) :=
    match split_byte 59 value with
    | [] => (false, [])
    | first :: rest => rewrite_segments rewrite false first rest
    end in
  if changed then Some rewritten else None.

(** ** Sample behaviour *)

Definition backend_rule (from to : string) : RewriteRule := mkRewriteRule (bs from) (bs to).
Example refresh_rewritten :
  rewrite_refresh_url (bs "0; url = http://backend.internal/login")
    [backend_rule "http://backend.internal/" "https://example.test/"]
  = Some (bs "0; url = https://example.test/login").
Proof. reflexivity. Qed.
Example cookie_rewritten :
  rewrite_set_cookie_value (bs "session=abc; Domain=BACKEND.internal; Path=/app/admin; HttpOnly")
    (mkCookieRewrite [backend_rule ".backend.internal" "example.test"] [backend_rule "/app/" "/"])
  = Some (bs "session=abc; Domain=example.test; Path=/admin; HttpOnly").
Proof. reflexivity. Qed.
Example client_behind_proxy :
  effective_client_ip (V4 10 89 0 254) true (Some (bs "198.51.100.9, 203.0.113.10"))
    (Some (fun ip => bool_decide (ip = V4 203 0 113 10))) = V4 198 51 100 9.
Proof. reflexivity. Qed.

(** * The client address and the [Forwarded] value

    A client cannot change the address the proxy derives for it by sending
    forwarding headers of its own, and the generated [Forwarded] value is one
    element that names exactly that address. *)
(** ** Hops *)

Section hops.
Context (trusted : IpAddr -> bool).

(** A hop the search passes over, and one it stops at. *)
Definition hop_trusted (raw : list Z) : Prop := exists ip, parse_x_forwarded_for_ip raw = Some ip /\ trusted ip = true.
Definition hop_stops (raw : list Z) : Prop :=
  match parse_x_forwarded_for_ip raw with Some ip => trusted ip = false | None => True end.

Lemma hop_dec raw : hop_trusted raw \/ hop_stops raw.
Proof using Type.
  unfold hop_trusted, hop_stops. destruct (parse_x_forwarded_for_ip raw) as [ip |]; [| by right].
  destruct (trusted ip) eqn:E; [left; eauto | by right].
Qed.

Lemma client_hops_skip direct last good hops :
  Forall hop_trusted good ->
  exists last', client_hops direct trusted last (good ++ hops) = client_hops direct trusted last' hops.
Proof using Type.
  intros Hg. revert last. induction Hg as [| raw good (ip & Hp & Ht) Hg IH]; intros last; [by exists last |].
  cbn [app client_hops]. rewrite Hp, Ht. cbn [negb]. apply IH.
Qed.
Lemma client_hops_stop direct last raw rest :
  hop_stops raw ->
  client_hops direct trusted last (raw :: rest) = default direct (parse_x_forwarded_for_ip raw).
Proof using Type.
  unfold hop_stops. cbn [client_hops]. destruct (parse_x_forwarded_for_ip raw) as [ip |]; [| done]. by intros ->.
Qed.
Lemma client_hops_all direct last good :
  Forall hop_trusted good ->
  client_hops direct trusted last good
  = default (default direct (head good ≫= parse_x_forwarded_for_ip)) last.
Proof using Type.
  intros Hg. destruct Hg as [| raw good (ip & Hp & Ht) Hg]; [done |].
  cbn [client_hops head]. rewrite Hp, Ht. cbn [negb mbind option_bind]. rewrite Hp. simpl.
  generalize (default ip last) as x. clear Hp Ht. induction Hg as [| raw' good (ip' & Hp' & Ht') Hg IH]; intros x; [done |].
  cbn [client_hops]. rewrite Hp', Ht'. cbn [negb]. apply IH.
Qed.

(** Every list of hops is passed over entirely, or up to the first that stops. *)
Lemma hops_split hops :
  Forall hop_trusted hops
  \/ exists good raw rest, hops = good ++ raw :: rest /\ Forall hop_trusted good /\ hop_stops raw.
Proof using Type.
  induction hops as [| raw hops IH]; [by left |]. destruct (hop_dec raw) as [Hr | Hr].
  - destruct IH as [IH | (good & raw' & rest & -> & Hg & Hs)]; [by left; constructor |].
    right. exists (raw :: good), raw', rest. by split_and!; [| constructor |].
  - right. exists [], raw, hops. by split_and!.
Qed.
End hops.

Lemma split_byte_cons_app c s t : exists l, split_byte c (s ++ c :: t) = l ++ split_byte c t.
Proof.
  destruct (split_once c s) as [[l r] |] eqn:E.
  - revert s l E. induction r as [r IH] using (induction_ltof1 _ length); unfold ltof in IH.
    intros s l E. apply split_once_Some in E as [-> Hl].
    replace ((l ++ c :: r) ++ c :: t) with (l ++ c :: (r ++ c :: t)) by by rewrite <- app_assoc.
    rewrite split_byte_app by done. destruct (split_once c r) as [[l' r'] |] eqn:E.
    + destruct (IH r' ltac:(apply split_once_Some in E as [-> _]; rewrite length_app; simpl; lia) r l' E) as [k ->].
      by exists (l :: k).
    + apply split_once_None in E. exists [l; r]. by rewrite split_byte_app by done.
  - apply split_once_None in E. exists [s]. by rewrite split_byte_app by done.
Qed.

(** C28: Only a trusted peer is believed about the client.  Then the address is
    that of the last hop in the chain that is not a trusted proxy (the peer's
    own when that hop is malformed; the nearest proxy's when there is none),
    and nothing written before such a hop changes it. *)
Theorem client_ip_unspoofable (direct : IpAddr) (trusted : IpAddr -> bool) (text : list Z) :
  (forall original matcher, effective_client_ip direct false original matcher = direct)
  /\ (Forall (hop_trusted trusted) (split_byte 44 text) ->
      effective_client_ip direct true (Some text) (Some trusted)
      = default direct (last (split_byte 44 text) ≫= parse_x_forwarded_for_ip))
  /\ (forall before raw after,
      split_byte 44 text = before ++ raw :: after ->
      Forall (hop_trusted trusted) after -> hop_stops trusted raw ->
      effective_client_ip direct true (Some text) (Some trusted) = default direct (parse_x_forwarded_for_ip raw)
      /\ forall forged, effective_client_ip direct true (Some (forged ++ [44] ++ text)) (Some trusted)
                        = effective_client_ip direct true (Some text) (Some trusted)).
Proof.
  split_and!; [done | |].
  - intros Hf. unfold effective_client_ip. cbn [negb]. rewrite client_hops_all by by apply Forall_rev.
    rewrite rev_alt. change (rev_append (split_byte 44 text) []) with (reverse (split_byte 44 text)).
    by rewrite head_reverse.
  - intros before raw after Hs Ha Hr.
    assert (forall l, client_hops direct trusted None (rev (l ++ before ++ raw :: after))
                      = default direct (parse_x_forwarded_for_ip raw)) as Hc.
    { intros l. replace (rev (l ++ before ++ raw :: after)) with (rev after ++ raw :: rev (l ++ before))
        by by rewrite !rev_app_distr; cbn [rev]; rewrite <- !app_assoc.
      destruct (client_hops_skip trusted direct None (rev after) (raw :: rev (l ++ before))) as [last' ->];
        [by apply Forall_rev |]. by apply client_hops_stop. }
    unfold effective_client_ip. cbn [negb]. split.
    + rewrite Hs. apply (Hc []).
    + intros forged. destruct (split_byte_cons_app 44 forged text) as [l E]. cbn [app] in *.
      rewrite E, Hs, (Hc l). symmetry. apply (Hc []).
Qed.
Lemma client_ip_unspoofable_witness :
  let trusted ip := bool_decide (ip = V4 203 0 113 10) in
  effective_client_ip (V4 10 0 0 1) true (Some (bs "1.2.3.4, 198.51.100.9, 203.0.113.10")) (Some trusted)
  = V4 198 51 100 9.
Proof.
  intros trusted.
  destruct (client_ip_unspoofable (V4 10 0 0 1) trusted (bs " 198.51.100.9, 203.0.113.10")) as (_ & _ & H).
  destruct (H [] (bs " 198.51.100.9") [bs " 203.0.113.10"]) as [E Hf]; [reflexivity | | reflexivity |].
  - constructor; [| constructor]. exists (V4 203 0 113 10). split; reflexivity.
  - etransitivity; [apply (Hf (bs "1.2.3.4")) | exact E].
Defined.

(** ** The [Forwarded] value *)

(** The bytes an address is written with. *)
Definition address_byte (c : Z) : Prop := 48 <= c <= 57 \/ 97 <= c <= 102 \/ c = 46 \/ c = 58.
#[export] Instance address_byte_dec c : Decision (address_byte c).
Proof. unfold address_byte. apply _. Defined.
Definition address_text (s : list Z) : Prop := s <> [] /\ Forall address_byte s.

Lemma digits_address n : Forall address_byte (to_decimal n).
Proof.
  unfold to_decimal. apply Forall_rev. generalize 20%nat as fuel. intros fuel. revert n.
  induction fuel as [| fuel IH]; intros n; [constructor |]. simpl. pose proof (Z.mod_pos_bound n 10).
  constructor; [left; lia |]. destruct (n <? 10); [constructor | apply IH].
Qed.
Lemma hex_address n : Forall address_byte (to_hex n).
Proof.
  unfold to_hex. apply Forall_rev. generalize 4%nat as fuel. intros fuel. revert n.
  induction fuel as [| fuel IH]; intros n; [constructor |]. cbn [hex_rev]. pose proof (Z.mod_pos_bound n 16).
  constructor; [unfold hex_digit, address_byte; destruct (Z.ltb_spec (n mod 16) 10); lia |].
  destruct (n <? 16); [constructor | apply IH].
Qed.
Lemma show_v4_address a b c d : Forall address_byte (show_v4 a b c d).
Proof.
  unfold show_v4. rewrite !Forall_app.
  split_and!; try apply digits_address; by apply (bool_decide_unpack _).
Qed.
Lemma fmt_subslice_address segs : Forall address_byte (fmt_subslice segs).
Proof.
  destruct segs as [| n segs]; [constructor |]. simpl. apply Forall_app. split; [apply hex_address |].
  induction segs as [| m segs IH]; [constructor |]. simpl. constructor; [unfold address_byte; lia |].
  apply Forall_app. split; [apply hex_address | done].
Qed.
Lemma show_ip_address ip : ip_wf ip -> address_text (show_ip ip).
Proof.
  intros Hw. split.
  - intros E. pose proof (parse_ip_show ip Hw) as Hp. rewrite E in Hp. discriminate.
  - destruct ip as [a b c d | segs]; [apply show_v4_address |]. simpl. unfold show_v6.
    destruct (to_ipv4_mapped segs) as [[[[a b] c] d] |].
    + apply Forall_app. split; [| apply show_v4_address]. by apply (bool_decide_unpack _).
    + destruct (zero_span _ _ _ _) as [start n]. case_match; [| apply fmt_subslice_address].
      rewrite !Forall_app. split_and!; try apply fmt_subslice_address. by apply (bool_decide_unpack _).
Qed.
Lemma address_not_in s c : Forall address_byte s -> ~ address_byte c -> c ∉ s.
Proof. intros Hf Hc Hin. rewrite Forall_forall in Hf. by apply Hc, Hf. Qed.
Lemma address_graphic c : address_byte c -> ascii_graphic c.
Proof. intros Hc. unfold ascii_graphic, ws1, between, address_byte in *. split; [lia |]. apply orb_false_iff. split; [apply andb_false_iff |]; breflect; lia. Qed.

Lemma address_trim s : address_text s -> trim s = s.
Proof.
  intros [Hne Hf]. apply trim_trimmed. destruct s as [| c s]; [done |]. unfold trimmed.
  destruct (last (c :: s)) as [d |] eqn:E; [| by apply last_None in E].
  rewrite Forall_forall in Hf. split; apply address_graphic, Hf; [by left |]. apply list_elem_of_In.
  apply last_Some in E as [l ->]. apply in_app_iff. right. by left.
Qed.
Lemma starts_with_notin c s : c ∉ s -> starts_with [c] s = false.
Proof. intros Hc. destruct s as [| x s]; [done |]. apply starts_with_head_ne. set_solver. Qed.
Lemma strip_suffix_notin c s : c ∉ s -> strip_suffix [c] s = None.
Proof.
  intros Hc. destruct (strip_suffix [c] s) eqn:E; [| done]. apply strip_suffix_Some in E as ->. set_solver.
Qed.
Lemma contains_byte_notin c s : c ∉ s -> contains_byte c s = false.
Proof.
  intros Hc. unfold contains_byte. destruct (existsb _ s) eqn:E; [| done].
  apply existsb_exists in E as (x & Hx & Ex). apply list_elem_of_In in Hx. breflect. set_solver.
Qed.

(** Neither quotes nor brackets occur in an address. *)
Lemma parse_forwarded_show ip : ip_wf ip -> parse_x_forwarded_for_ip (show_ip ip) = Some ip.
Proof.
  intros Hw. pose proof (show_ip_address ip Hw) as Ht. pose proof (proj2 Ht) as Hf.
  unfold parse_x_forwarded_for_ip. rewrite address_trim by done. rewrite bool_decide_false by apply Ht.
  assert (34 ∉ show_ip ip) by (apply address_not_in; [done | unfold address_byte; lia]).
  assert (91 ∉ show_ip ip) as H91 by (apply address_not_in; [done | unfold address_byte; lia]).
  rewrite starts_with_notin by done. unfold ends_with. rewrite strip_suffix_notin by done.
  assert (strip_prefix [91] (show_ip ip) = None) as ->.
  { destruct (strip_prefix _ _) eqn:E; [| done]. apply strip_prefix_Some in E. rewrite E in H91. set_solver. }
  simpl. by apply parse_ip_show.
Qed.
Lemma parse_forwarded_quoted segs :
  ip_wf (V6 segs) -> parse_x_forwarded_for_ip ([34; 91] ++ show_v6 segs ++ [93; 34]) = Some (V6 segs).
Proof.
  intros Hw. pose proof (show_ip_address (V6 segs) Hw) as [_ Hf]. simpl in Hf.
  unfold parse_x_forwarded_for_ip.
  assert (trim ([34; 91] ++ show_v6 segs ++ [93; 34]) = [34; 91] ++ show_v6 segs ++ [93; 34]) as ->.
  { assert (last ([34; 91] ++ show_v6 segs ++ [93; 34]) = Some 34) as E
      by (change [93; 34] with ([93] ++ [34]); by rewrite !app_assoc, last_snoc).
    apply trim_trimmed. unfold trimmed. cbn [app] in *. rewrite E. by split. }
  simpl bool_decide. cbn [app]. assert (starts_with [34] (34 :: 91 :: show_v6 segs ++ [93; 34]) = true) as -> by done.
  replace (34 :: 91 :: show_v6 segs ++ [93; 34]) with ([34] ++ (91 :: show_v6 segs ++ [93]) ++ [34])
    by (simpl; by rewrite <- app_assoc).
  unfold ends_with. rewrite strip_prefix_app, !app_assoc, !strip_suffix_app.
  assert (34 ∉ 91 :: show_v6 segs ++ [93]).
  { assert (34 ∉ show_v6 segs) by (apply address_not_in; [done | unfold address_byte; lia]). set_solver. }
  rewrite contains_byte_notin, bool_decide_false by done. cbn [orb].
  change (91 :: show_v6 segs ++ [93]) with ([91] ++ (show_v6 segs ++ [93])).
  rewrite strip_prefix_app. cbn [mbind option_bind]. rewrite strip_suffix_app.
  by rewrite (parse_ip_show (V6 segs) Hw : parse_ip (show_v6 segs) = _).
Qed.
Lemma parse_forwarded_ip ip : ip_wf ip -> parse_x_forwarded_for_ip (forwarded_ip ip) = Some ip.
Proof. intros Hw. destruct ip as [a b c d | segs]; [by apply (parse_forwarded_show (V4 a b c d)) | by apply parse_forwarded_quoted]. Qed.

Lemma forwarded_ip_bytes ip c : ip_wf ip -> c <> 34 -> c <> 91 -> c <> 93 -> (~ address_byte c) -> c ∉ forwarded_ip ip.
Proof.
  intros Hw H34 H91 H93 Hc. pose proof (show_ip_address ip Hw) as [_ Hf]. pose proof (address_not_in _ _ Hf Hc).
  destruct ip; simpl in *; set_solver.
Qed.
Lemma forwarded_host_clean host c :
  valid_forwarded_host host = true -> forwarded_host_byte_bad c = true -> c ∉ host.
Proof.
  unfold valid_forwarded_host. intros Hv Hc Hin. breflect.
  match goal with H : existsb forwarded_host_byte_bad host = false |- _ => rename H into Hb end.
  assert (existsb forwarded_host_byte_bad host = true) as E; [| congruence].
  apply existsb_exists. exists c. by rewrite <- list_elem_of_In.
Qed.
Lemma escape_quoted_clean s : 92 ∉ s -> 34 ∉ s -> escape_quoted s = s.
Proof.
  induction s as [| c s IH]; intros H92 H34; [done |]. simpl.
  apply not_elem_of_cons in H92 as [? ?], H34 as [? ?].
  rewrite (proj2 (Z.eqb_neq c 92)), (proj2 (Z.eqb_neq c 34)) by done. simpl. by rewrite IH.
Qed.

(** The parts of a [Forwarded] element. *)
Definition forwarded_parts (ip : IpAddr) (host : option (list Z)) (proto : ForwardedProto) : list (list Z) :=
  [bs "for=" ++ forwarded_ip ip]
  ++ match host with Some host => [bs "host=" ++ [34] ++ host ++ [34]] | None => [] end
  ++ [bs "proto=" ++ proto_as_str proto].
Lemma parts_clean ip host proto c :
  ip_wf ip -> (match host with Some host => valid_forwarded_host host = true | None => True end) ->
  c = 44 \/ c = 59 -> Forall (fun part => c ∉ part) (forwarded_parts ip host proto).
Proof.
  intros Hw Hh Hc.
  assert (c ∉ forwarded_ip ip) by (apply forwarded_ip_bytes; [done | lia | lia | lia | unfold address_byte; lia]).
  assert (match host with Some host => c ∉ host | None => True end) as Hch.
  { destruct host; [| done]. apply forwarded_host_clean; [done |]. destruct Hc as [-> | ->]; reflexivity. }
  assert (forall s, bool_decide ((44 ∉ bs s) /\ (59 ∉ bs s)) = true -> c ∉ bs s) as Hlit.
  { intros s E. apply bool_decide_eq_true in E as [? ?]. by destruct Hc as [-> | ->]. }
  unfold forwarded_parts. rewrite !Forall_app. split_and!.
  - constructor; [| constructor]. rewrite elem_of_app. intros [Hin | Hin]; [by apply (Hlit "for=") in Hin | done].
  - destruct host as [host |]; [| constructor]. constructor; [| constructor].
    rewrite !elem_of_app, !elem_of_cons, !elem_of_nil.
    intros [Hin | Hin]; [by apply (Hlit "host=") in Hin |]. destruct Hc; naive_solver lia.
  - constructor; [| constructor]. rewrite elem_of_app.
    intros [Hin | Hin]; [by apply (Hlit "proto=") in Hin |]. by destruct proto; apply Hlit in Hin.
Qed.

Lemma split_byte_joined c pieces :
  pieces <> [] -> Forall (fun p => c ∉ p) pieces -> split_byte c (join_byte c pieces) = pieces.
Proof.
  induction pieces as [| p pieces IH]; [done |]. intros _ [Hp Hf]%Forall_cons.
  destruct pieces as [| q pieces]; [by apply split_byte_notin |].
  change (join_byte c (p :: q :: pieces)) with (p ++ c :: join_byte c (q :: pieces)).
  by rewrite split_byte_app, IH.
Qed.

(** The [Forwarded] value is a single element, with the address, the host
    and the protocol in separate parameters; its address reads back as the
    client's, and the host stands in it as received.  It is withheld exactly
    for a host that could break out of its quotes. *)
Theorem forwarded_value_exact (ip : IpAddr) (host : option (list Z)) (proto : ForwardedProto) :
  ip_wf ip ->
  match build_forwarded_header ip host proto with
  | Some value =>
      split_byte 59 value = forwarded_parts ip host proto /\ (44 ∉ value)
      /\ parse_x_forwarded_for_ip (forwarded_ip ip) = Some ip
  | None => exists h, host = Some h /\ valid_forwarded_host h = false
  end.
Proof.
  intros Hw. unfold build_forwarded_header.
  destruct (match host with Some host => negb (valid_forwarded_host host) | None => false end) eqn:E.
  { destruct host as [h |]; [| done]. exists h. by apply negb_true_iff in E. }
  assert (match host with Some host => valid_forwarded_host host = true | None => True end) as Hh.
  { destruct host; [by apply negb_false_iff in E | done]. }
  set (value := bs "for=" ++ _). assert (value = join_byte 59 (forwarded_parts ip host proto)) as ->.
  { unfold value, forwarded_parts. destruct host as [h |]; simpl; rewrite <- ?app_assoc; [| done].
    unfold quote_forwarded_value. rewrite escape_quoted_clean by (apply forwarded_host_clean; done).
    simpl. by rewrite <- ?app_assoc. }
  split_and!; [| | by apply parse_forwarded_ip].
  - apply split_byte_joined; [done |]. apply parts_clean; auto.
  - pose proof (parts_clean ip host proto 44 Hw Hh (or_introl eq_refl)) as Hf.
    induction Hf as [| p ps Hp Hf IH]; [set_solver |].
    destruct ps as [| q ps]; [done |].
    change (join_byte 59 (p :: q :: ps)) with (p ++ 59 :: join_byte 59 (q :: ps)). set_solver.
Qed.
Lemma forwarded_value_exact_witness :
  let value := default [] (build_forwarded_header (V4 198 51 100 9) (Some (bs "example.test")) ProtoHttps) in
  split_byte 59 value = [bs "for=198.51.100.9"; bs "host=" ++ [34] ++ bs "example.test" ++ [34]; bs "proto=https"]
  /\ (44 ∉ value).
Proof.
  assert (ip_wf (V4 198 51 100 9)) as Hw by (vm_compute; repeat split; congruence).
  pose proof (forwarded_value_exact (V4 198 51 100 9) (Some (bs "example.test")) ProtoHttps Hw) as H.
  destruct (build_forwarded_header (V4 198 51 100 9) (Some (bs "example.test")) ProtoHttps) as [v |] eqn:E;
    [| vm_compute in E; discriminate].
  destruct H as (Hs & Hc & _). split; [exact Hs | exact Hc].
Defined.
