(* ===== verification/RequestHeaders.v ===== *)
(** * The request header policy of a route ([native_http1_route_request_headers.rs])

    What the proxy does to the headers of a request before it is sent on:
    stripping headers that claim a client address, resolving the client
    address, writing the forwarding headers, and the configured removals,
    replacements and additions with their templates.  This is the ordinary
    build; the privacy build leaves the forwarding headers out. *)
From Stdlib Require Import ZArith Lia.
From stdpp Require Import base list numbers strings sets.
From S2P Require Import Prelude Text NetAddr ProxyProtocol Http1Target Http1Head HostNames Headers.

(** ** Requests *)

Record TlsClientIdentity : Type := mkTlsClientIdentity {
  ti_cipher : option (list Z);
  ti_version : option (list Z);
  ti_organization : option (list Z);
  ti_serial_number : option (list Z);
  ti_cert_sha256 : option (list Z);
}.
(** A header as the server holds it: its name and its value. *)
Abbreviation header := (list Z * list Z)%type.
(** [NativeHttp1Request], without the geographic data *)
Record NativeHttp1Request : Type := mkRequest {
  rq_method : list Z;
  rq_peer_addr : option SocketAddr;
  rq_local_addr : option SocketAddr;
  rq_effective_client_addr : option SocketAddr;
  rq_downstream_tls : bool;
  rq_tls_identity : option TlsClientIdentity;
  rq_target : list Z;
  rq_version : Http1Version;
  rq_headers : list header;
  rq_body : list Z;
}.
Definition set_headers (headers : list header) (r : NativeHttp1Request) : NativeHttp1Request :=
  mkRequest (rq_method r) (rq_peer_addr r) (rq_local_addr r) (rq_effective_client_addr r)
    (rq_downstream_tls r) (rq_tls_identity r) (rq_target r) (rq_version r) headers (rq_body r).
Definition set_effective_client_addr (a : option SocketAddr) (r : NativeHttp1Request) : NativeHttp1Request :=
  mkRequest (rq_method r) (rq_peer_addr r) (rq_local_addr r) a
    (rq_downstream_tls r) (rq_tls_identity r) (rq_target r) (rq_version r) (rq_headers r) (rq_body r).

Definition named (name : list Z) (h : header) : bool := eq_ignore_ascii_case h.1 name.

(** ** Reading and changing headers *)

Definition has_value (h : header) : bool := negb (bool_decide (trim h.2 = [])).
Definition request_header_value (r : NativeHttp1Request) (name : list Z) : option (list Z) :=
  (fun h => trim h.2) <$> head (List.filter (fun h => named name h && has_value h) (rq_headers r)).
Definition joined_header_value (r : NativeHttp1Request) (name : list Z) : option (list Z) :=
  match (fun h : header => trim h.2) <$> List.filter (fun h => named name h && has_value h) (rq_headers r) with
  | [] => None
  | first :: rest => Some (foldl (fun joined value => joined ++ bs ", " ++ value) first rest)
  end.

Definition SPOOFABLE_CLIENT_IP_HEADERS : list (list Z) :=
  [bs "x-forwarded-for"; bs "x-real-ip"; bs "forwarded"; bs "x-forwarded-host"; bs "x-forwarded-proto";
   bs "cf-connecting-ip"; bs "true-client-ip"; bs "x-client-ip"; bs "client-ip"; bs "x-cluster-client-ip";
   bs "fastly-client-ip"; bs "x-envoy-external-address"; bs "x-original-forwarded-for"; bs "x-azure-clientip";
   bs "fly-client-ip"; bs "x-proxyuser-ip"; bs "x-forwarded-client-cert"].
Definition spoofable (h : header) : bool := existsb (fun blocked => named blocked h) SPOOFABLE_CLIENT_IP_HEADERS.
Definition strip_spoofable_client_ip_headers (r : NativeHttp1Request) : NativeHttp1Request :=
  set_headers (List.filter (fun h => negb (spoofable h)) (rq_headers r)) r.
Definition remove_request_header (name : list Z) (r : NativeHttp1Request) : NativeHttp1Request :=
  set_headers (List.filter (fun h => negb (named name h)) (rq_headers r)) r.
Definition push_header (h : header) (r : NativeHttp1Request) : NativeHttp1Request :=
  set_headers (rq_headers r ++ [h]) r.
Definition replace_request_header (name value : list Z) (r : NativeHttp1Request) : NativeHttp1Request :=
  push_header (name, value) (remove_request_header name r).
(** The header is replaced with the value, or removed when there is none. *)
Definition put_header (name : list Z) (value : option (list Z)) (r : NativeHttp1Request) : NativeHttp1Request :=
  match value with
  | Some value => replace_request_header name value r
  | None => remove_request_header name r
  end.

(** ** Templates *)

(** [value.chars().filter(|c| !c.is_control())] *)
Fixpoint drop_controls (s : list Z) : list Z :=
  match s with
  | [] => []
  | c0 :: s0 =>
      if control1 c0 then drop_controls s0
      else match s0 with
           | c1 :: s1 => if control2 c0 c1 then drop_controls s1 else c0 :: drop_controls s0
           | [] => [c0]
           end
  end.

Definition TemplateContext := list (list Z * list Z).
Definition context_variable (context : TemplateContext) (variable : list Z) : option (list Z) :=
  snd <$> head (List.filter (fun p => bool_decide (p.1 = variable)) context).

Definition native_request_header_template_variable (variable : list Z) (r : NativeHttp1Request)
    (context : option TemplateContext) : option (list Z) :=
  match context ≫= fun context => context_variable context variable with
  | Some value => Some value
  | None =>
      if bool_decide (variable = bs "host") then request_header_value r (bs "host")
      else if bool_decide (variable = bs "scheme") then
        Some (if rq_downstream_tls r then bs "https" else bs "http")
      else if bool_decide (variable = bs "uri") then Some (rq_target r)
      else if bool_decide (variable = bs "path") then
        Some (match split_once 63 (rq_target r) with Some (path, _) => path | None => rq_target r end)
      else if bool_decide (variable = bs "query") then snd <$> split_once 63 (rq_target r)
      else if bool_decide (variable = bs "request_id") then request_header_value r (bs "x-request-id")
      else if bool_decide (variable = bs "tls.client_cert_sha256") then rq_tls_identity r ≫= ti_cert_sha256
      else if bool_decide (variable = bs "tls.client_cert_serial") then rq_tls_identity r ≫= ti_serial_number
      else if bool_decide (variable = bs "tls.version") then rq_tls_identity r ≫= ti_version
      else if bool_decide (variable = bs "http.upgrade") then request_header_value r (bs "upgrade")
      else if bool_decide (variable = bs "remote_addr") then
        (fun a => show_ip (sa_ip a)) <$>
          match rq_effective_client_addr r with Some a => Some a | None => rq_peer_addr r end
      else None
  end.

(** The loop over the text; every turn consumes at least two bytes, so the
    length of the text is enough fuel. *)
Fixpoint render_loop (fuel : nat) (r : NativeHttp1Request) (context : option TemplateContext)
    (rendered rest : list Z) : list Z :=
  match split_once 123 rest with
  | None => rendered ++ rest
  | Some (before, after_open) =>
      match split_once 125 after_open with
      | None => rendered ++ rest
      | Some (variable, after_close) =>
          let value := match native_request_header_template_variable variable r context with
                       | Some value => drop_controls value
                       | None => []
                       end in
          match fuel with
          | O => rendered
          | S fuel => render_loop fuel r context (rendered ++ before ++ value) after_close
          end
      end
  end.
Definition render_native_request_header_template (value : list Z) (r : NativeHttp1Request)
    (context : option TemplateContext) : list Z :=
  render_loop (length value) r context [] value.

(** ** The policy *)

Inductive ForwardedClientIpHeaderMode : Type := ModeOff | ModeReplace | ModeAppend.

Record RequestHeaderPolicy : Type := mkPolicy {
  hp_enabled : bool;
  hp_strip_inbound : bool;
  hp_x_forwarded_for : ForwardedClientIpHeaderMode;
  hp_x_real_ip : bool;
  hp_x_forwarded_host : bool;
  hp_x_forwarded_proto : bool;
  hp_forwarded : bool;
  hp_trusted_sources : list ProxyProtocolTrustedSource;
  hp_unset : list (list Z);
  hp_set : list header;
  hp_append : list header;
}.

Definition trusted_source_contains (p : RequestHeaderPolicy) (address : IpAddr) : bool :=
  existsb (fun source => source_contains source address) (hp_trusted_sources p).

(** The address the request came from, as far as the policy can tell. *)
Definition client_ip_of (p : RequestHeaderPolicy) (r : NativeHttp1Request) : option IpAddr :=
  let direct := sa_ip <$> rq_peer_addr r in
  let trusted_direct := match direct with Some ip => trusted_source_contains p ip | None => false end in
  match rq_effective_client_addr r with
  | Some a => Some (sa_ip a)
  | None =>
      (fun ip => effective_client_ip ip trusted_direct (joined_header_value r (bs "x-forwarded-for"))
                   (Some (trusted_source_contains p))) <$> direct
  end.
(** The port that goes with it: the port of the address it is taken from, or zero. *)
Definition client_port (r : NativeHttp1Request) (ip : IpAddr) : Z :=
  match rq_effective_client_addr r with
  | Some a => if bool_decide (sa_ip a = ip) then sa_port a
              else match rq_peer_addr r with
                   | Some a => if bool_decide (sa_ip a = ip) then sa_port a else 0
                   | None => 0
                   end
  | None => match rq_peer_addr r with
            | Some a => if bool_decide (sa_ip a = ip) then sa_port a else 0
            | None => 0
            end
  end.

(** The value of [x-forwarded-for], when the mode writes one. *)
Definition x_forwarded_for_value (p : RequestHeaderPolicy) (trusted_direct : bool)
    (original : option (list Z)) (client_ip : option IpAddr) : option (list Z) :=
  match hp_x_forwarded_for p, client_ip with
  | ModeOff, _ => None
  | ModeReplace, Some ip => Some (show_ip ip)
  | ModeAppend, Some ip =>
      match (if trusted_direct then original else None) with
      | Some value => Some (if bool_decide (trim value = []) then show_ip ip else value ++ bs ", " ++ show_ip ip)
      | None => Some (show_ip ip)
      end
  | _, None => None
  end.

Definition apply_forwarded_headers (p : RequestHeaderPolicy) (r : NativeHttp1Request) : NativeHttp1Request :=
  let original_host := request_header_value r (bs "host") in
  let '(proto, forwarded_proto) :=
    if rq_downstream_tls r then (bs "https", ProtoHttps) else (bs "http", ProtoHttp) in
  let r := if hp_strip_inbound p then strip_spoofable_client_ip_headers r else r in
  let original := joined_header_value r (bs "x-forwarded-for") in
  let trusted_direct := match sa_ip <$> rq_peer_addr r with
                        | Some ip => trusted_source_contains p ip
                        | None => false
                        end in
  let client_ip := client_ip_of p r in
  let r := match client_ip with
           | Some ip => set_effective_client_addr (Some (socket_addr_new ip (client_port r ip))) r
           | None => r
           end in
  let r := put_header (bs "x-forwarded-for") (x_forwarded_for_value p trusted_direct original client_ip) r in
  let r := if hp_x_real_ip p then put_header (bs "x-real-ip") (show_ip <$> client_ip) r else r in
  let r := if hp_x_forwarded_host p then put_header (bs "x-forwarded-host") original_host r else r in
  let r := if hp_x_forwarded_proto p then replace_request_header (bs "x-forwarded-proto") proto r else r in
  if hp_forwarded p then
    put_header (bs "forwarded") (client_ip ≫= fun ip => build_forwarded_header ip original_host forwarded_proto) r
  else r.

Definition unset_headers (names : list (list Z)) (r : NativeHttp1Request) : NativeHttp1Request :=
  foldl (fun r name => remove_request_header name r) r names.
Definition push_rendered (context : option TemplateContext) (r : NativeHttp1Request) (h : header)
    : NativeHttp1Request :=
  let value := render_native_request_header_template h.2 r context in
  if bool_decide (value = []) then r else push_header (h.1, value) r.
Definition apply_set (context : option TemplateContext) (r : NativeHttp1Request) (h : header)
    : NativeHttp1Request := push_rendered context (remove_request_header h.1 r) h.

(** [NativeRouteRequestHeaderPolicy::apply] *)
Definition apply_policy (p : RequestHeaderPolicy) (context : option TemplateContext)
    (r : NativeHttp1Request) : NativeHttp1Request :=
  if negb (hp_enabled p) then r
  else
    let r := apply_forwarded_headers p r in
    let r := unset_headers (hp_unset p) r in
    let r := foldl (apply_set context) r (hp_set p) in
    foldl (push_rendered context) r (hp_append p).

(** [NativeHttp1RouteProxy::access_client_ip], on the headers as received *)
Definition access_client_ip (p : RequestHeaderPolicy) (r : NativeHttp1Request) : option IpAddr :=
  client_ip_of p r.

(** * What the request header policy guarantees

    Which forwarding headers leave the proxy, and that inbound headers that
    claim a client address cannot influence anything once they are stripped. *)
(** ** Headers by name *)

Definition headers_named (name : list Z) (r : NativeHttp1Request) : list header :=
  List.filter (named name) (rq_headers r).
(** The header a value gives, if there is one. *)
Definition one_header (name : list Z) (value : option (list Z)) : list header :=
  match value with Some value => [(name, value)] | None => [] end.
Definition same_name (n m : list Z) : Prop := to_ascii_lowercase n = to_ascii_lowercase m.
#[export] Instance same_name_dec n m : Decision (same_name n m).
Proof. unfold same_name. apply _. Defined.

Lemma named_true name h : named name h = true <-> same_name h.1 name.
Proof. apply eq_ignore_ascii_case_true. Qed.
Lemma named_refl name value : named name (name, value) = true.
Proof. apply eq_ignore_ascii_case_refl. Qed.
Lemma named_other n m h : (~ same_name n m) -> named n h = true -> named m h = false.
Proof.
  intros Hn H. apply not_true_iff_false. rewrite named_true in *. unfold same_name in *. congruence.
Qed.

Lemma list_filter_filter {A} (f g : A -> bool) l : List.filter f (List.filter g l) = List.filter (fun x => g x && f x) l.
Proof. induction l as [| x l IH]; [done |]. simpl. destruct (g x); simpl; [destruct (f x) |]; by rewrite IH. Qed.
Lemma list_filter_ext {A} (f g : A -> bool) l : (forall x, f x = g x) -> List.filter f l = List.filter g l.
Proof. intros H. induction l as [| x l IH]; [done |]. simpl. by rewrite H, IH. Qed.
Lemma list_filter_none {A} (f : A -> bool) l : (forall x, f x = false) -> List.filter f l = [].
Proof. intros H. induction l as [| x l IH]; [done |]. simpl. by rewrite H. Qed.

Lemma put_header_filter f name value r :
  List.filter f (rq_headers (put_header name value r))
  = List.filter (fun h => negb (named name h) && f h) (rq_headers r) ++ List.filter f (one_header name value).
Proof.
  destruct value as [v |]; simpl; rewrite ?List.filter_app, list_filter_filter; [done |]. by rewrite app_nil_r.
Qed.
Lemma put_header_named name value r : headers_named name (put_header name value r) = one_header name value.
Proof.
  unfold headers_named. rewrite put_header_filter, list_filter_none by by (intros h; destruct (named name h)).
  destruct value; simpl; [| done]. by rewrite named_refl.
Qed.
Lemma put_header_other f name value r :
  (forall h, named name h = true -> f h = false) ->
  List.filter f (rq_headers (put_header name value r)) = List.filter f (rq_headers r).
Proof.
  intros Hf. rewrite put_header_filter.
  replace (List.filter f (one_header name value)) with (@nil header)
    by (destruct value; simpl; [rewrite Hf by apply named_refl |]; done).
  rewrite app_nil_r. apply list_filter_ext. intros h. destruct (named name h) eqn:E; [| done]. by rewrite Hf.
Qed.
Lemma put_header_frame name value r :
  rq_peer_addr (put_header name value r) = rq_peer_addr r
  /\ rq_effective_client_addr (put_header name value r) = rq_effective_client_addr r.
Proof. by destruct value. Qed.

(** ** The forwarding headers *)

Definition stripped (p : RequestHeaderPolicy) (r : NativeHttp1Request) : NativeHttp1Request :=
  if hp_strip_inbound p then strip_spoofable_client_ip_headers r else r.
Definition FORWARDING_HEADERS : list (list Z) :=
  [bs "x-forwarded-for"; bs "x-real-ip"; bs "x-forwarded-host"; bs "x-forwarded-proto"; bs "forwarded"].
Definition forwarding (h : header) : bool := existsb (fun name => named name h) FORWARDING_HEADERS.
(** The conditional replacement of one of them. *)
Definition put_when (on : bool) (name : list Z) (value : option (list Z)) (r : NativeHttp1Request) : NativeHttp1Request :=
  if on then put_header name value r else r.

Lemma put_when_other on f name value r :
  (forall h, named name h = true -> f h = false) ->
  List.filter f (rq_headers (put_when on name value r)) = List.filter f (rq_headers r).
Proof. destruct on; [apply put_header_other | done]. Qed.
Lemma put_when_named on name value r :
  headers_named name (put_when on name value r) = if on then one_header name value else headers_named name r.
Proof. destruct on; [apply put_header_named | done]. Qed.
Lemma put_when_named_other on n name value r :
  (~ same_name name n) -> headers_named n (put_when on name value r) = headers_named n r.
Proof. intros Hn. apply put_when_other. intros h. by apply named_other. Qed.
Lemma put_when_addr on name value r :
  rq_effective_client_addr (put_when on name value r) = rq_effective_client_addr r.
Proof. destruct on; [by destruct value | done]. Qed.

(** The policy writes the five headers one after the other. *)
Definition proto_of (r : NativeHttp1Request) : list Z := if rq_downstream_tls r then bs "https" else bs "http".
Definition forwarded_proto_of (r : NativeHttp1Request) : ForwardedProto :=
  if rq_downstream_tls r then ProtoHttps else ProtoHttp.
Definition trusted_direct (p : RequestHeaderPolicy) (r : NativeHttp1Request) : bool :=
  match sa_ip <$> rq_peer_addr r with Some ip => trusted_source_contains p ip | None => false end.
Definition with_client (client : option IpAddr) (r : NativeHttp1Request) : NativeHttp1Request :=
  match client with
  | Some ip => set_effective_client_addr (Some (socket_addr_new ip (client_port r ip))) r
  | None => r
  end.
Definition client_of (p : RequestHeaderPolicy) (r : NativeHttp1Request) : option IpAddr := client_ip_of p (stripped p r).
Definition xff_of (p : RequestHeaderPolicy) (r : NativeHttp1Request) : option (list Z) :=
  x_forwarded_for_value p (trusted_direct p r) (joined_header_value (stripped p r) (bs "x-forwarded-for")) (client_of p r).
Definition forwarded_of (p : RequestHeaderPolicy) (r : NativeHttp1Request) : option (list Z) :=
  client_of p r ≫= fun ip => build_forwarded_header ip (request_header_value r (bs "host")) (forwarded_proto_of r).

Lemma apply_forwarded_headers_eq p r :
  apply_forwarded_headers p r
  = put_when (hp_forwarded p) (bs "forwarded") (forwarded_of p r)
    (put_when (hp_x_forwarded_proto p) (bs "x-forwarded-proto") (Some (proto_of r))
    (put_when (hp_x_forwarded_host p) (bs "x-forwarded-host") (request_header_value r (bs "host"))
    (put_when (hp_x_real_ip p) (bs "x-real-ip") (show_ip <$> client_of p r)
    (put_when true (bs "x-forwarded-for") (xff_of p r) (with_client (client_of p r) (stripped p r)))))).
Proof.
  unfold apply_forwarded_headers, forwarded_of, xff_of, client_of, proto_of, forwarded_proto_of, trusted_direct, stripped.
  destruct (rq_downstream_tls r), (hp_strip_inbound p); reflexivity.
Qed.

Lemma strip_removes name r :
  existsb (fun blocked => eq_ignore_ascii_case name blocked) SPOOFABLE_CLIENT_IP_HEADERS = true ->
  forall f, (forall h, f h = true -> named name h = true) ->
  List.filter f (rq_headers (strip_spoofable_client_ip_headers r)) = [].
Proof.
  intros Hn f Hf. simpl. rewrite list_filter_filter. apply list_filter_none. intros h.
  destruct (f h) eqn:E; [| by rewrite andb_false_r]. rewrite andb_true_r. apply negb_false_iff.
  apply Hf, named_true in E. apply existsb_exists in Hn as (blocked & Hin & Hb).
  apply existsb_exists. exists blocked. split; [done |]. apply named_true.
  apply eq_ignore_ascii_case_true in Hb. unfold same_name in *. congruence.
Qed.
Lemma strip_keeps f r :
  (forall h, f h = true -> spoofable h = false) ->
  List.filter f (rq_headers (strip_spoofable_client_ip_headers r)) = List.filter f (rq_headers r).
Proof.
  intros Hf. simpl. rewrite list_filter_filter. apply list_filter_ext. intros h.
  destruct (f h) eqn:E; [by rewrite Hf | by rewrite andb_false_r].
Qed.
Lemma stripped_client p r :
  hp_strip_inbound p = true ->
  client_of p r = match rq_effective_client_addr r with Some a => Some (sa_ip a) | None => sa_ip <$> rq_peer_addr r end.
Proof.
  intros Hs.
  assert (joined_header_value (strip_spoofable_client_ip_headers r) (bs "x-forwarded-for") = None) as Hj.
  { unfold joined_header_value. rewrite (strip_removes (bs "x-forwarded-for")); [done | reflexivity |].
    intros h H. by apply andb_true_iff in H as [? _]. }
  unfold client_of, client_ip_of, stripped. rewrite Hs, Hj.
  change (rq_effective_client_addr (strip_spoofable_client_ip_headers r)) with (rq_effective_client_addr r).
  change (rq_peer_addr (strip_spoofable_client_ip_headers r)) with (rq_peer_addr r).
  destruct (rq_effective_client_addr r), (rq_peer_addr r) as [a |]; try done. cbn [fmap option_fmap option_map].
  unfold effective_client_ip. by destruct (trusted_source_contains p (sa_ip a)).
Qed.
Lemma with_client_headers client r : rq_headers (with_client client r) = rq_headers r.
Proof. by destruct client. Qed.
Lemma with_client_addr p r :
  sa_ip <$> rq_effective_client_addr (with_client (client_of p r) (stripped p r)) = client_of p r.
Proof.
  destruct (client_of p r) as [ip |] eqn:E; [done |]. unfold with_client.
  unfold client_of, client_ip_of in E. by destruct (rq_effective_client_addr (stripped p r)).
Qed.

(** After the policy, each forwarding header it writes occurs once, with
    the value derived from the connection, or not at all; the others, and
    every other header, are as received after stripping.  The request's client
    address is the derived one, and with stripping on it is the listener's or
    the peer's, whatever headers the request had. *)
Theorem forwarding_headers_exact (p : RequestHeaderPolicy) (r : NativeHttp1Request) :
  let r' := apply_forwarded_headers p r in
  headers_named (bs "x-forwarded-for") r' = one_header (bs "x-forwarded-for") (xff_of p r)
  /\ headers_named (bs "x-real-ip") r'
     = (if hp_x_real_ip p then one_header (bs "x-real-ip") (show_ip <$> client_of p r)
        else headers_named (bs "x-real-ip") (stripped p r))
  /\ headers_named (bs "x-forwarded-host") r'
     = (if hp_x_forwarded_host p then one_header (bs "x-forwarded-host") (request_header_value r (bs "host"))
        else headers_named (bs "x-forwarded-host") (stripped p r))
  /\ headers_named (bs "x-forwarded-proto") r'
     = (if hp_x_forwarded_proto p then [(bs "x-forwarded-proto", proto_of r)]
        else headers_named (bs "x-forwarded-proto") (stripped p r))
  /\ headers_named (bs "forwarded") r'
     = (if hp_forwarded p then one_header (bs "forwarded") (forwarded_of p r)
        else headers_named (bs "forwarded") (stripped p r))
  /\ List.filter (fun h => negb (forwarding h)) (rq_headers r')
     = List.filter (fun h => negb (forwarding h)) (rq_headers (stripped p r))
  /\ sa_ip <$> rq_effective_client_addr r' = client_of p r
  /\ (hp_strip_inbound p = true ->
      client_of p r = match rq_effective_client_addr r with
                      | Some a => Some (sa_ip a)
                      | None => sa_ip <$> rq_peer_addr r
                      end).
Proof.
  cbv zeta. rewrite apply_forwarded_headers_eq.
  assert (forall n m : list Z, bool_decide (~ same_name n m) = true -> ~ same_name n m) as Hdiff
    by (intros n m; apply bool_decide_eq_true).
  assert (forall name, existsb (fun n => eq_ignore_ascii_case name n) FORWARDING_HEADERS = true ->
    forall h, named name h = true -> negb (forwarding h) = false) as Hfwd.
  { intros name Hn h Hh%named_true. apply negb_false_iff. apply existsb_exists in Hn as (m & Hin & Hm).
    apply existsb_exists. exists m. split; [done |]. apply named_true. apply eq_ignore_ascii_case_true in Hm.
    unfold same_name in *. congruence. }
  split_and!.
  1-5: repeat first [rewrite put_when_named | rewrite put_when_named_other by (apply Hdiff; reflexivity)];
    unfold headers_named; rewrite ?with_client_headers; reflexivity.
  - rewrite !put_when_other by (apply Hfwd; reflexivity). by rewrite with_client_headers.
  - rewrite !put_when_addr. apply with_client_addr.
  - apply stripped_client.
Qed.

Lemma host_value_stripped r :
  request_header_value (strip_spoofable_client_ip_headers r) (bs "host") = request_header_value r (bs "host").
Proof.
  unfold request_header_value. rewrite strip_keeps; [done |]. intros h [Hn _]%andb_true_iff.
  apply not_true_iff_false. intros (blocked & Hin & Hb)%existsb_exists.
  apply named_true in Hn, Hb. unfold same_name in *.
  assert (Forall (fun b => to_ascii_lowercase b <> bs "host") SPOOFABLE_CLIENT_IP_HEADERS) as Hall
    by by apply (bool_decide_unpack _).
  rewrite Forall_forall in Hall. apply list_elem_of_In in Hin. apply (Hall _ Hin). rewrite <- Hb, Hn. reflexivity.
Qed.
Lemma forwarded_headers_stripped p r1 r2 :
  hp_strip_inbound p = true ->
  strip_spoofable_client_ip_headers r1 = strip_spoofable_client_ip_headers r2 ->
  apply_forwarded_headers p r1 = apply_forwarded_headers p r2.
Proof.
  intros Hs E. rewrite !apply_forwarded_headers_eq.
  assert (stripped p r1 = stripped p r2) as Es by (unfold stripped; by rewrite Hs).
  assert (request_header_value r1 (bs "host") = request_header_value r2 (bs "host")) as Eh
    by by rewrite <- !(host_value_stripped r1), <- !(host_value_stripped r2), E.
  pose proof (f_equal rq_downstream_tls E) as Et. pose proof (f_equal rq_peer_addr E) as Ep. simpl in Et, Ep.
  unfold forwarded_of, xff_of, client_of, proto_of, forwarded_proto_of, trusted_direct. by rewrite Es, Eh, Et, Ep.
Qed.


(** ** A route with the default policy *)

Definition default_policy : RequestHeaderPolicy :=
  mkPolicy true true ModeReplace true true true false [] [] [(bs "x-client", bs "{remote_addr}")] [].
Definition sample_native_request (headers : list header) : NativeHttp1Request :=
  mkRequest (bs "GET") (Some (socket_addr_new (V4 198 51 100 9) 4711)) None None true None (bs "/") Http11 headers [].
