(* ===== verification/UpstreamRequest.v ===== *)
(** * Writing a request to an upstream ([native_http1_client/request.rs],
    [native_http1_forwarded.rs])

    The bytes the HTTP/1 client sends: the origin-form target, the headers the
    client owns, the headers of the request that may pass, [Via], and the body.
    A writer returns the bytes written and whether it finished; what it wrote
    before an error has left.  Failures of the connection are not modelled.
    The trace header of an attempt comes from the telemetry and is a parameter. *)
From Stdlib Require Import ZArith Lia.
From stdpp Require Import base list numbers strings sets gmap.
From S2P Require Import Prelude Text NetAddr Http1Target Http1Head Http1HeadProps Headers RequestHeaders.

(** ** Writers *)

Definition Writer := (list Z * result unit Http1ParseError)%type.
Definition write_all (bytes : list Z) : Writer := (bytes, Ok tt).
Definition write_error (e : Http1ParseError) : Writer := ([], Err e).
(** [w1?; w2] *)
Definition write_then (w1 : Writer) (w2 : Writer) : Writer :=
  match w1.2 with
  | Ok _ => (w1.1 ++ w2.1, w2.2)
  | Err e => w1
  end.
Infix "#>" := write_then (at level 60, right associativity).
Definition write_line (line : list Z) : Writer := write_all (line ++ crlf).

(** ** Which headers pass *)

Definition valid_upstream_header_value (value : list Z) : bool := negb (existsb value_byte_forbidden value).
Definition valid_upstream_request_header (name value : list Z) : bool :=
  http_token_valid name && valid_upstream_header_value value.

Definition is_name (name candidate : list Z) : bool := eq_ignore_ascii_case name candidate.
Definition upstream_owned_header (name : list Z) : bool :=
  is_name name (bs "host") || is_name name (bs "content-length")
  || is_name name (bs "transfer-encoding") || is_name name (bs "via").
Definition native_peer_fill_internal_header (name : list Z) : bool :=
  is_name name (bs "x-fluxheim-peer-fill") || is_name name (bs "x-fluxheim-peer-fill-nonce")
  || is_name name (bs "x-fluxheim-peer-fill-request-signature")
  || is_name name (bs "x-fluxheim-peer-fill-response-signature").
Definition native_client_request_is_peer_fill (r : NativeHttp1Request) : bool :=
  existsb (fun h => named (bs "x-fluxheim-peer-fill") h && bool_decide (trim h.2 = bs "1")) (rq_headers r).
Definition upstream_owned_header_for_request (name : list Z) (r : NativeHttp1Request) : bool :=
  upstream_owned_header name
  || (negb (native_client_request_is_peer_fill r) && native_peer_fill_internal_header name).
Definition upstream_websocket_owned_header (name : list Z) : bool :=
  upstream_owned_header name || is_name name (bs "connection") || is_name name (bs "upgrade")
  || is_name name (bs "proxy-connection").
Definition upstream_websocket_owned_header_for_request (name : list Z) (r : NativeHttp1Request) : bool :=
  upstream_websocket_owned_header name
  || (negb (native_client_request_is_peer_fill r) && native_peer_fill_internal_header name).

(** [connection_tokens]: the names the request's [Connection] headers list *)
Definition listed_tokens (r : NativeHttp1Request) : list (list Z) :=
  to_ascii_lowercase <$>
    List.filter (fun token => negb (bool_decide (token = [])))
      (trim <$> (((fun h : header => h.2) <$> List.filter (named (bs "connection")) (rq_headers r)) ≫= split_byte 44)).
Definition upstream_hop_by_hop_header (name : list Z) (tokens : list (list Z)) : bool :=
  existsb (fun blocked => eq_ignore_ascii_case name blocked) HOP_BY_HOP_REQUEST_HEADERS
  || existsb (fun token => eq_ignore_ascii_case token name) tokens.

(** ** The target and the host *)

Definition upstream_origin_target (r : NativeHttp1Request) : result (list Z) Http1ParseError :=
  let? target := http1_request_target (rq_method r) (rq_target r) in
  match target with
  | Origin _ _ _ => Ok (rq_target r)
  | AbsoluteUri _ _ _ path query =>
      match path with
      | None => Ok (bs "/")
      | Some path => Ok (match query with Some query => path ++ [63] ++ query | None => path end)
      end
  | Authority _ _ | Asterisk => Err InvalidRequestTarget
  end.

Definition request_host (r : NativeHttp1Request) : option (list Z) :=
  snd <$> head (List.filter (named (bs "host")) (rq_headers r)).
Definition valid_request_host (r : NativeHttp1Request) (authority : list Z) : result (list Z) Http1ParseError :=
  let host := default authority (request_host r) in
  if valid_upstream_header_value host then Ok host else Err InvalidHeaderValue.

(** ** Writing *)

(** [values.join(", ")] *)
Definition join_values (values : list (list Z)) : list Z :=
  match values with
  | [] => []
  | first :: rest => foldl (fun joined value => joined ++ bs ", " ++ value) first rest
  end.
Definition write_owned_proxy_headers (r : NativeHttp1Request) : Writer :=
  let via := join_values ((fun h : header => h.2) <$>
    List.filter (fun h => named (bs "via") h && valid_upstream_request_header h.1 h.2) (rq_headers r)) in
  write_line (bs "via: " ++ append_fluxheim_via_value via).

(** The loop over the request's headers; [skip] are those that do not pass. *)
Fixpoint write_passed_headers (traceparent : option (list Z)) (skip : list Z -> bool) (headers : list header)
    : Writer :=
  match headers with
  | [] => write_all []
  | (name, value) :: rest =>
      let value := if is_name name (bs "traceparent") then default value traceparent else value in
      if skip name then write_passed_headers traceparent skip rest
      else if negb (valid_upstream_request_header name value) then write_error InvalidHeaderValue
      else write_line (name ++ bs ": " ++ value) #> write_passed_headers traceparent skip rest
  end.

Definition write_request_line (r : NativeHttp1Request) (target : list Z) : Writer :=
  write_line (rq_method r ++ [SP] ++ target ++ bs " HTTP/1.1").
Definition write_host (r : NativeHttp1Request) (authority : list Z) : Writer :=
  match valid_request_host r authority with
  | Ok host => write_line (bs "host: " ++ host)
  | Err e => write_error e
  end.

Definition write_upstream_request (traceparent : option (list Z)) (authority : list Z)
    (r : NativeHttp1Request) (keep_alive : bool) : Writer :=
  match upstream_origin_target r with
  | Err e => write_error e
  | Ok target =>
      write_request_line r target
      #> write_host r authority
      #> write_line (if keep_alive then bs "connection: keep-alive" else bs "connection: close")
      #> (if bool_decide (rq_body r = []) then write_all []
          else write_line (bs "content-length: " ++ to_decimal (zlen (rq_body r))))
      #> write_passed_headers traceparent
           (fun name => upstream_hop_by_hop_header name (listed_tokens r) || upstream_owned_header_for_request name r)
           (rq_headers r)
      #> write_owned_proxy_headers r
      #> write_all crlf
      #> write_all (rq_body r)
  end.

(** The upgrade request of a WebSocket; a body is refused before anything is
    written. *)
Inductive UpgradeError : Type :=
| UpgradeBody
| UpgradeParse (e : Http1ParseError).
Definition write_websocket_upgrade_request (traceparent : option (list Z)) (authority : list Z)
    (r : NativeHttp1Request) : list Z * result unit UpgradeError :=
  if negb (bool_decide (rq_body r = [])) then ([], Err UpgradeBody)
  else
    let w :=
      match upstream_origin_target r with
      | Err e => write_error e
      | Ok target =>
          write_request_line r target
          #> write_host r authority
          #> write_line (bs "connection: Upgrade")
          #> write_line (bs "upgrade: websocket")
          #> write_passed_headers traceparent
               (fun name => upstream_hop_by_hop_header name (listed_tokens r)
                            || upstream_websocket_owned_header_for_request name r)
               (rq_headers r)
          #> write_owned_proxy_headers r
          #> write_all crlf
      end in
    (w.1, match w.2 with Ok _ => Ok tt | Err e => Err (UpgradeParse e) end).

(** ** Sample behaviour *)

Definition sample_upstream_request : NativeHttp1Request :=
  mkRequest (bs "POST") None None None true None (bs "http://a.example/x?y=1") Http11
    [(bs "Host", bs "a.example"); (bs "Transfer-Encoding", bs "chunked"); (bs "Connection", bs "close, X-Hop");
     (bs "X-Hop", bs "1"); (bs "Accept", bs "text/plain")] (bs "hello").
Example upstream_written :
  write_upstream_request None (bs "10.0.0.1:80") sample_upstream_request false
  = (bs "POST /x?y=1 HTTP/1.1" ++ crlf ++ bs "host: a.example" ++ crlf ++ bs "connection: close" ++ crlf
     ++ bs "content-length: 5" ++ crlf ++ bs "Accept: text/plain" ++ crlf ++ bs "via: 1.1 fluxheim" ++ crlf
     ++ crlf ++ bs "hello", Ok tt).
Proof. reflexivity. Qed.

(** * The request an upstream receives

    The bytes written for a request are read by an HTTP/1 parser as exactly one
    message: the intended method, target and headers, one host, a body of the
    length written, and nothing left over for a second message. *)
(** ** Reading written headers *)

Definition raw_line (h : header) : list Z := h.1 ++ [58; SP] ++ h.2.
Definition read_header (h : header) : Http1Header := mkHttp1Header h.1 (trim h.2).
(** A header a writer lets through, as bytes. *)
Definition header_ok (h : header) : Prop :=
  valid_upstream_request_header h.1 h.2 = true /\ Forall in_u8 h.2.

Lemma valid_value_bytes v :
  valid_upstream_header_value v = true -> Forall in_u8 v -> Forall (fun c => c = HT \/ 32 <= c <= 126) v.
Proof.
  unfold valid_upstream_header_value. rewrite negb_true_iff. intros Hv Hu.
  rewrite Forall_forall in Hu |- *. intros c Hc. specialize (Hu c Hc). unfold in_u8, U8_MAX in Hu.
  destruct (decide (c = HT \/ 32 <= c <= 126)) as [| Hn]; [done |].
  assert (existsb value_byte_forbidden v = true) as E; [| congruence].
  apply existsb_exists. exists c. split; [by apply list_elem_of_In |].
  unfold value_byte_forbidden, between. rewrite !orb_true_iff, !andb_true_iff, !Z.leb_le. lia.
Qed.
Lemma read_raw_line h :
  header_ok h -> parse_header_line (raw_line h) = Ok (read_header h) /\ line_ok (raw_line h)
  /\ starts_with [SP] (raw_line h) = false /\ starts_with [HT] (raw_line h) = false.
Proof.
  intros [[Hn Hv]%andb_true_iff Hu]. apply token_ascii in Hn as Hna. apply http_token_valid_spec in Hn as Hns.
  pose proof (valid_value_bytes _ Hv Hu) as Hva. unfold valid_upstream_header_value in Hv. apply negb_true_iff in Hv.
  split_and!.
  - unfold parse_header_line, raw_line. simpl app. rewrite split_once_app.
    + unfold http1_header_new. rewrite Hn. cbn [existsb]. rewrite Hv. reflexivity.
    + intros Hin. destruct Hns as [_ Hns]. rewrite Forall_forall in Hns. by apply Hns in Hin.
  - apply line_ok_intro; [unfold raw_line; by destruct Hns, (h.1) |]. unfold raw_line.
    rewrite !Forall_app. split_and!; [| by apply (bool_decide_unpack _) | done].
    eapply Forall_impl; [exact Hna |]. simpl. intros; lia.
  - unfold raw_line. destruct (h.1) as [| c n]; [by destruct Hns |]. apply Forall_cons in Hna as [Hc _].
    apply starts_with_head_ne. lia.
  - unfold raw_line. destruct (h.1) as [| c n]; [by destruct Hns |]. apply Forall_cons in Hna as [Hc _].
    apply starts_with_head_ne. lia.
Qed.
Lemma read_raw_lines limits headers done_ rest :
  Forall header_ok headers -> Forall (fun h => zlen (raw_line h) <= max_header_line_bytes limits) headers ->
  zlen done_ + zlen headers <= max_header_count limits ->
  parse_header_lines limits done_ ((raw_line <$> headers) ++ [] :: rest) = Ok (done_ ++ (read_header <$> headers)).
Proof.
  intros Hf. revert done_. induction Hf as [| h headers Hh Hf IH]; intros done_ Hm Hl.
  - simpl. by rewrite app_nil_r.
  - destruct (read_raw_line _ Hh) as (Hp & [Hne _] & Hsp & Hht). apply Forall_cons in Hm as [Hm1 Hm].
    rewrite fmap_cons. cbn [app parse_header_lines]. rewrite bool_decide_false by done.
    rewrite zlen_cons in Hl. zlen_facts.
    rewrite (proj2 (Z.ltb_ge _ _)) by done. rewrite Hsp, Hht. simpl orb. cbv iota.
    rewrite (proj2 (Z.leb_gt _ _)) by lia. rewrite Hp.
    rewrite IH; [by rewrite fmap_cons, <- app_assoc | done | rewrite zlen_app, zlen_cons, zlen_nil; lia].
Qed.

(** A message head with given headers, and the sizes a parser must allow. *)
Definition head_lines (method target : list Z) (headers : list header) : list (list Z) :=
  request_line method target Http11 :: (raw_line <$> headers).
Definition written_head (method target : list Z) (headers : list header) : list Z :=
  print_lines (head_lines method target headers) ++ crlf.
Record fits (limits : Http1HeadLimits) (method target : list Z) (headers : list header) : Prop := {
  fits_start : zlen (request_line method target Http11) <= max_start_line_bytes limits;
  fits_lines : Forall (fun h => zlen (raw_line h) <= max_header_line_bytes limits) headers;
  fits_count : zlen headers <= max_header_count limits;
  fits_head : zlen (written_head method target headers) <= max_head_bytes limits;
}.
Lemma read_written_head limits method target headers t following :
  head_limits_wf limits -> fits limits method target headers ->
  http_token_valid method = true -> http1_request_target method target = Ok t -> Forall (fun c => 0 <= c) target ->
  Forall header_ok headers ->
  parse_http1_request_head_raw (written_head method target headers ++ following) limits
  = Ok (Some (mkRawHttp1RequestHead method target Http11 (read_header <$> headers)
                (zlen (written_head method target headers)))).
Proof.
  intros [Hw Hu] [Hs Hm Hc Hh] Hv Ht Hp Hf.
  destruct (parse_request_line_print method target Http11 t Hv Ht Hp) as [Hr Hlr].
  assert (Forall line_ok (head_lines method target headers)) as Hl.
  { constructor; [done |]. apply Forall_fmap. eapply Forall_impl; [exact Hf |].
    intros h Hh'. by apply read_raw_line in Hh' as (_ & ? & _). }
  unfold parse_http1_request_head_raw. rewrite complete_head_len_spec by done. unfold written_head in *.
  rewrite <- (app_assoc _ crlf following), head_end_print by done. rewrite (proj2 (Z.ltb_ge _ _)) by done.
  rewrite (app_assoc _ crlf following), ztake_app_exact.
  rewrite utf8_valid_ascii by (apply Forall_app; split; [by apply print_lines_ascii | by apply (bool_decide_unpack _)]).
  simpl negb. cbv iota. rewrite split_crlf_print by done. change (split_crlf crlf) with [[]; @nil Z].
  unfold head_lines at 1. cbn [app]. rewrite (proj2 (Z.ltb_ge _ _)) by done. rewrite Hr.
  by rewrite read_raw_lines by (rewrite ?zlen_nil; done || lia).
Qed.

(** ** What is written *)

Lemma write_then_Ok w1 w2 bytes :
  w1 #> w2 = (bytes, Ok tt) ->
  exists b1 b2, w1 = (b1, Ok tt) /\ w2 = (b2, Ok tt) /\ bytes = b1 ++ b2.
Proof.
  unfold write_then. destruct w1 as [b1 [[] | e]], w2 as [b2 r2]; simpl; [| done].
  intros [= <- ->]. by exists b1, b2.
Qed.
Lemma write_all_Ok b bytes : write_all b = (bytes, Ok tt) -> bytes = b.
Proof. by intros [= <-]. Qed.

(** The headers that pass. *)
Definition attempt_value (traceparent : option (list Z)) (h : header) : header :=
  (h.1, if is_name h.1 (bs "traceparent") then default h.2 traceparent else h.2).
Definition passed (traceparent : option (list Z)) (skip : list Z -> bool) (headers : list header) : list header :=
  attempt_value traceparent <$> List.filter (fun h => negb (skip h.1)) headers.
Lemma write_passed_Ok traceparent skip headers bytes :
  write_passed_headers traceparent skip headers = (bytes, Ok tt) ->
  bytes = print_lines (raw_line <$> passed traceparent skip headers)
  /\ Forall (fun h => valid_upstream_request_header h.1 h.2 = true) (passed traceparent skip headers).
Proof.
  revert bytes. induction headers as [| [n v] headers IH]; intros bytes.
  { intros ->%write_all_Ok. by split. }
  cbn [write_passed_headers]. cbv zeta.
  set (v' := if is_name n (bs "traceparent") then default v traceparent else v).
  destruct (skip n) eqn:Es.
  { intros [-> Hf]%IH. unfold passed. cbn [List.filter fst]. by rewrite Es. }
  destruct (valid_upstream_request_header n v') eqn:Ev; [| done]. cbn [negb].
  intros (b1 & b2 & ->%write_all_Ok & [-> Hf]%IH & ->)%write_then_Ok.
  assert (passed traceparent skip ((n, v) :: headers) = (n, v') :: passed traceparent skip headers) as ->.
  { unfold passed. cbn [List.filter fst]. rewrite Es. reflexivity. }
  split; [done |]. by constructor.
Qed.

Definition upstream_skip (r : NativeHttp1Request) (name : list Z) : bool :=
  upstream_hop_by_hop_header name (listed_tokens r) || upstream_owned_header_for_request name r.
Definition upstream_via (r : NativeHttp1Request) : list Z :=
  append_fluxheim_via_value (join_values ((fun h : header => h.2) <$>
    List.filter (fun h => named (bs "via") h && valid_upstream_request_header h.1 h.2) (rq_headers r))).
Definition connection_value (keep_alive : bool) : list Z := if keep_alive then bs "keep-alive" else bs "close".
Definition length_header (r : NativeHttp1Request) : list header :=
  if bool_decide (rq_body r = []) then [] else [(bs "content-length", to_decimal (zlen (rq_body r)))].
(** The headers of the message written, in order. *)
Definition upstream_headers (traceparent : option (list Z)) (authority : list Z) (r : NativeHttp1Request)
    (keep_alive : bool) : list header :=
  [(bs "host", default authority (request_host r)); (bs "connection", connection_value keep_alive)]
  ++ length_header r ++ passed traceparent (upstream_skip r) (rq_headers r) ++ [(bs "via", upstream_via r)].

Lemma print_lines_app l k : print_lines (l ++ k) = print_lines l ++ print_lines k.
Proof. unfold print_lines. by rewrite fmap_app, concat_app. Qed.
Lemma print_lines_cons l k : print_lines (l :: k) = (l ++ crlf) ++ print_lines k.
Proof. done. Qed.

Lemma write_upstream_lines traceparent authority r keep_alive bytes :
  write_upstream_request traceparent authority r keep_alive = (bytes, Ok tt) ->
  exists target,
    upstream_origin_target r = Ok target
    /\ valid_upstream_header_value (default authority (request_host r)) = true
    /\ Forall (fun h => valid_upstream_request_header h.1 h.2 = true) (passed traceparent (upstream_skip r) (rq_headers r))
    /\ bytes = written_head (rq_method r) target (upstream_headers traceparent authority r keep_alive) ++ rq_body r.
Proof.
  unfold write_upstream_request. destruct (upstream_origin_target r) as [target | e]; [| done]. intros H.
  apply write_then_Ok in H as (b1 & w1 & E1 & H & ->). apply write_then_Ok in H as (b2 & w2 & E2 & H & ->).
  apply write_then_Ok in H as (b3 & w3 & E3 & H & ->). apply write_then_Ok in H as (b4 & w4 & E4 & H & ->).
  apply write_then_Ok in H as (b5 & w5 & E5 & H & ->). apply write_then_Ok in H as (b6 & w6 & E6 & H & ->).
  apply write_then_Ok in H as (b7 & w7 & E7 & E8 & ->).
  apply write_all_Ok in E1 as ->. apply write_all_Ok in E3 as ->. apply write_all_Ok in E7 as ->.
  apply write_all_Ok in E8 as ->. apply write_all_Ok in E6 as ->. apply write_passed_Ok in E5 as [-> Hf].
  unfold write_host, valid_request_host in E2.
  destruct (valid_upstream_header_value (default authority (request_host r))) eqn:Eh; [| done].
  apply write_all_Ok in E2 as ->. exists target. split_and!; [done | done | done |].
  assert (b4 = print_lines (raw_line <$> length_header r)) as ->.
  { unfold length_header. case_bool_decide; apply write_all_Ok in E4 as ->; [done |].
    cbn [fmap list_fmap]. by rewrite print_lines_cons, app_nil_r. }
  unfold written_head, head_lines, upstream_headers. rewrite !fmap_app, print_lines_cons, !print_lines_app.
  cbn [fmap list_fmap]. rewrite !print_lines_cons. unfold raw_line, request_line, connection_value. cbn [fst snd].
  change (print_lines []) with (@nil Z). rewrite !app_nil_r, <- !app_assoc. by destruct keep_alive.
Qed.

(** ** The written headers are valid *)

Lemma value_bytes_app s t :
  valid_upstream_header_value (s ++ t) = valid_upstream_header_value s && valid_upstream_header_value t.
Proof. unfold valid_upstream_header_value. by rewrite existsb_app, negb_orb. Qed.
Lemma value_bytes_sub s t :
  (forall c, c ∈ s -> c ∈ t) -> valid_upstream_header_value t = true -> valid_upstream_header_value s = true.
Proof.
  intros Hs Ht. unfold valid_upstream_header_value in *. apply negb_true_iff in Ht. apply negb_true_iff.
  apply not_true_iff_false. intros (c & Hin & Hc)%existsb_exists. apply not_true_iff_false in Ht. apply Ht.
  apply existsb_exists. exists c. rewrite <- list_elem_of_In in *. auto.
Qed.
Lemma join_values_valid values :
  Forall (fun v => valid_upstream_header_value v = true) values -> valid_upstream_header_value (join_values values) = true.
Proof.
  intros [| first rest Hf Hr]; [done |]. cbn [join_values]. revert first Hf.
  induction Hr as [| v rest Hv Hr IH]; intros first Hf; [done |]. cbn [foldl]. apply IH.
  by rewrite !value_bytes_app, Hf, Hv.
Qed.
Lemma upstream_via_valid r : valid_upstream_header_value (upstream_via r) = true.
Proof.
  unfold upstream_via. set (values := _ <$> _).
  assert (valid_upstream_header_value (join_values values) = true) as Hj.
  { apply join_values_valid. unfold values. rewrite Forall_fmap, Forall_forall. intros h Hh. apply list_elem_of_In in Hh.
    apply filter_In in Hh as (_ & Hh). apply andb_true_iff in Hh as [_ Hh]. by apply andb_true_iff in Hh as [_ ?]. }
  unfold append_fluxheim_via_value. case_bool_decide; [done |]. rewrite !value_bytes_app.
  by rewrite (value_bytes_sub _ _ (trim_sub (join_values values)) Hj).
Qed.

Lemma digits_valid n : 0 <= n -> valid_upstream_header_value (to_decimal n) = true.
Proof.
  intros Hn. pose proof (to_decimal_digits n Hn) as Hf. unfold valid_upstream_header_value. apply negb_true_iff.
  apply not_true_iff_false. intros (c & Hin & Hc)%existsb_exists. apply list_elem_of_In in Hin.
  rewrite Forall_forall in Hf. apply Hf in Hin. unfold is_ascii_digit, value_byte_forbidden, between in *. breflect.
  rewrite !orb_true_iff, !andb_true_iff, !Z.leb_le in Hc. lia.
Qed.

Lemma print_lines_values (P : Z -> Prop) headers :
  Forall P (print_lines (raw_line <$> headers)) -> Forall (fun h => Forall P h.2) headers.
Proof.
  induction headers as [| h headers IH]; [constructor |]. rewrite fmap_cons, print_lines_cons. unfold raw_line at 1.
  rewrite !Forall_app. intros [[(_ & _ & Hv) _] Hr]. constructor; [done | by apply IH].
Qed.
Lemma upstream_headers_ok traceparent authority r keep_alive target :
  Forall in_u8 (written_head (rq_method r) target (upstream_headers traceparent authority r keep_alive)) ->
  valid_upstream_header_value (default authority (request_host r)) = true ->
  Forall (fun h => valid_upstream_request_header h.1 h.2 = true) (passed traceparent (upstream_skip r) (rq_headers r)) ->
  Forall header_ok (upstream_headers traceparent authority r keep_alive).
Proof.
  intros Hu Hh Hp. unfold written_head, head_lines in Hu. rewrite print_lines_cons, !Forall_app in Hu.
  destruct Hu as [[_ Hu] _]. apply print_lines_values in Hu.
  assert (Forall (fun h => valid_upstream_request_header h.1 h.2 = true) (upstream_headers traceparent authority r keep_alive)) as Hv.
  { unfold upstream_headers. rewrite !Forall_app. split_and!; [| | done |].
    - repeat (constructor; [| try apply Forall_nil_2]); [exact Hh | by destruct keep_alive].
    - unfold length_header. case_bool_decide; [constructor |]. constructor; [| constructor].
      exact (digits_valid _ (zlen_nonneg _)).
    - constructor; [| constructor]. exact (upstream_via_valid r). }
  rewrite !Forall_forall in *. intros h Hin. split; [by apply Hv | by apply Hu].
Qed.

(** ** The written target *)

Lemma split_query_join s path query :
  split_query s = Ok (path, query) -> s = path ++ match query with Some q => 63 :: q | None => [] end.
Proof.
  unfold split_query. destruct (find_byte 63 s) as [i |] eqn:E.
  - destruct (validate_path (ztake i s)), (validate_query (zdrop (i + 1) s)); try done. intros [= <- <-].
    apply position_Some in E as (l & x & rest & -> & <- & Hx & _). breflect.
    rewrite ztake_app_exact, zdrop_app_ge by lia. replace (zlen l + 1 - zlen l) with 1 by lia. by subst x.
  - destruct (validate_path s); [| done]. intros [= <- <-]. by rewrite app_nil_r.
Qed.
Lemma absolute_path target colon raw scheme authority path query :
  parse_absolute_uri target colon = Ok (AbsoluteUri raw scheme authority (Some path) query) ->
  exists before rest, target = before ++ rest /\ starts_with [47] rest = true /\ split_query rest = Ok (path, query).
Proof.
  unfold parse_absolute_uri. case_match; [done |].
  destruct (strip_prefix (bs "//") (zdrop (colon + 1) target)) as [after |] eqn:Es; [| done]. cbn [ok_or].
  set (stop := default (zlen after) (find_path_or_query_start after)).
  destruct (validate_http1_authority (ztake stop after)); [| done].
  case_bool_decide as Hne; [done |].
  destruct (strip_prefix [63] (zdrop stop after)) as [q |] eqn:Eq; [by destruct (validate_query q) |].
  destruct (split_query (zdrop stop after)) as [[p q] |] eqn:Ep; [| done]. intros [= <- <- <- <- <-].
  apply strip_prefix_Some in Es.
  exists (ztake (colon + 1) target ++ bs "//" ++ ztake stop after), (zdrop stop after). split_and!; [| | done].
  - rewrite <- !app_assoc, ztake_drop, <- Es. by rewrite ztake_drop.
  - unfold stop in *. destruct (find_path_or_query_start after) as [i |] eqn:Ei; simpl default in *.
    + apply position_Some in Ei as (l & x & r & -> & <- & Hx & _). rewrite zdrop_app_exact in *.
      apply orb_true_iff in Hx as [Hx | Hx]; breflect; subst x; [done |].
      change (63 :: r) with ([63] ++ r) in Eq. by rewrite strip_prefix_app in Eq.
    + by rewrite zdrop_ge in Hne by lia.
Qed.
Lemma absolute_form target colon t :
  parse_absolute_uri target colon = Ok t -> exists raw scheme authority path query, t = AbsoluteUri raw scheme authority path query.
Proof.
  unfold parse_absolute_uri. case_match; [done |]. destruct (ok_or _ _); [| done].
  destruct (validate_http1_authority _); [| done]. intros Ha. branch Ha. branch Ha. eauto 10.
Qed.
Lemma forbidden_suffix before rest :
  target_has_forbidden_byte (before ++ rest) = false -> target_has_forbidden_byte rest = false.
Proof.
  unfold target_has_forbidden_byte, is_ascii. rewrite forallb_app, existsb_app, !orb_false_iff, !negb_false_iff, andb_true_iff.
  tauto.
Qed.
Lemma origin_target_accepted method target path query :
  eq_ignore_ascii_case method (bs "CONNECT") = false -> target_has_forbidden_byte target = false ->
  starts_with [47] target = true -> starts_with (bs "//") target = false -> split_query target = Ok (path, query) ->
  http1_request_target method target = Ok (Origin target path query).
Proof.
  intros Hm Hf Hs Hn Hq. unfold http1_request_target. apply starts_with_true in Hs as [r ->]. cbn [app] in *.
  rewrite Hf, bool_decide_false, Hm, Hn by done. cbn [orb]. rewrite bool_decide_false by done.
  assert (starts_with [47] (47 :: r) = true) as -> by done. by rewrite Hq.
Qed.
Lemma upstream_target_accepted r target :
  upstream_origin_target r = Ok target -> starts_with (bs "//") target = false ->
  exists path query, http1_request_target (rq_method r) target = Ok (Origin target path query).
Proof.
  unfold upstream_origin_target. intros H Hn.
  destruct (http1_request_target (rq_method r) (rq_target r)) as [t |] eqn:Et; [| done].
  pose proof Et as Et0. unfold http1_request_target in Et0.
  case_match; [done |]. case_match; [by case_match; simplify_eq |].
  destruct (eq_ignore_ascii_case (rq_method r) (bs "CONNECT")) eqn:Em.
  { case_match; [done |]. destruct (authority_form_port (rq_target r)); [| done].
    destruct (validate_http1_authority (rq_target r)); [| done]. by simplify_eq. }
  case_match; [done |]. case_match.
  { destruct (split_query (rq_target r)) as [[path query] |]; [| done]. simplify_eq. eauto. }
  destruct (find_byte 58 (rq_target r)) as [colon |]; [| done].
  destruct (absolute_form _ _ _ Et0) as (raw & scheme & authority & [path |] & query & ->).
  - apply absolute_path in Et0 as (before & rest & E & Hs & Hq). breflect.
    match goal with H : target_has_forbidden_byte _ = false |- _ => rewrite E in H; apply forbidden_suffix in H end.
    pose proof (split_query_join _ _ _ Hq) as Ej. exists path, query.
    assert (target = rest) as -> by (rewrite Ej; destruct query; injection H as <-; by rewrite ?app_nil_r).
    by apply origin_target_accepted.
  - injection H as <-. exists (bs "/"), None. by apply origin_target_accepted.
Qed.

(** ** The headers by name *)

Lemma header_values_read name headers :
  header_values name (read_header <$> headers) = (fun h => trim h.2) <$> List.filter (named name) headers.
Proof.
  induction headers as [| h headers IH]; [done |]. rewrite fmap_cons, header_values_cons. cbn [List.filter].
  unfold named at 1. cbn [h_name read_header]. destruct (eq_ignore_ascii_case h.1 name); rewrite IH; done.
Qed.
Lemma passed_named_skipped traceparent skip headers name :
  (forall m, same_name m name -> skip m = true) ->
  List.filter (named name) (passed traceparent skip headers) = [].
Proof.
  intros Hs. unfold passed. induction headers as [| h headers IH]; [done |]. cbn [List.filter].
  destruct (negb (skip h.1)) eqn:E; [| done]. rewrite fmap_cons. cbn [List.filter].
  assert (named name (attempt_value traceparent h) = false) as ->; [| done].
  apply not_true_iff_false. intros Hn%named_true. by rewrite Hs in E.
Qed.
Lemma passed_named traceparent skip headers name :
  (forall m, same_name m name -> skip m = false) -> (~ same_name name (bs "traceparent")) ->
  List.filter (named name) (passed traceparent skip headers) = List.filter (named name) headers.
Proof.
  intros Hs Ht. unfold passed. induction headers as [| [n v] headers IH]; [done |]. cbn [List.filter fst].
  destruct (named name (n, v)) eqn:E.
  - apply named_true in E as En. cbn [fst] in En. rewrite Hs by done. cbn [negb]. rewrite fmap_cons. cbn [List.filter].
    assert (attempt_value traceparent (n, v) = (n, v)) as ->.
    { unfold attempt_value. cbn [fst snd]. destruct (is_name n (bs "traceparent")) eqn:E'; [| done].
      apply eq_ignore_ascii_case_true in E'. destruct Ht. unfold same_name in *. congruence. }
    by rewrite E, IH.
  - destruct (skip n); cbn [negb]; [done |]. rewrite fmap_cons. cbn [List.filter].
    assert (named name (attempt_value traceparent (n, v)) = false) as -> by done. done.
Qed.
Lemma same_name_is n m k : same_name n m -> is_name n k = is_name m k.
Proof. unfold is_name, eq_ignore_ascii_case. by intros ->. Qed.

Lemma skip_owned r m name :
  same_name m name -> upstream_owned_header name = true -> upstream_skip r m = true.
Proof.
  intros Hm Ho. unfold upstream_skip, upstream_owned_header_for_request. apply orb_true_iff. right.
  apply orb_true_iff. left. unfold upstream_owned_header in *. by rewrite !(same_name_is m name).
Qed.
Lemma skip_hop r m name :
  same_name m name -> upstream_hop_by_hop_header name (listed_tokens r) = true -> upstream_skip r m = true.
Proof.
  intros Hm Ho. unfold upstream_skip. apply orb_true_iff. left. unfold upstream_hop_by_hop_header in *.
  apply orb_true_iff in Ho as [Ho | Ho]; apply orb_true_iff; [left | right]; apply existsb_exists in Ho as (x & Hx & Ex);
    apply existsb_exists; exists x; split; try done; rewrite eq_ignore_ascii_case_true in *; unfold same_name in Hm; congruence.
Qed.

Lemma skip_same r m name : same_name m name -> upstream_skip r m = upstream_skip r name.
Proof.
  unfold same_name. intros Hm. unfold upstream_skip, upstream_hop_by_hop_header, upstream_owned_header_for_request,
    upstream_owned_header, native_peer_fill_internal_header, is_name, eq_ignore_ascii_case. by rewrite Hm.
Qed.

(** The names of the headers the writer adds. *)
Definition WRITTEN_HEADERS : list (list Z) := [bs "host"; bs "connection"; bs "content-length"; bs "via"].
Definition written_name (name : list Z) : Prop := Exists (same_name name) WRITTEN_HEADERS.

Lemma written_skipped r name : written_name name -> upstream_skip r name = true.
Proof.
  unfold written_name, WRITTEN_HEADERS. rewrite !Exists_cons, Exists_nil. unfold upstream_skip.
  intros [H | [H | [H | [H | []]]]]; rewrite (skip_same r _ _ H : upstream_hop_by_hop_header _ _ || _ = _); unfold upstream_skip;
    [by rewrite orb_true_r | done | by rewrite orb_true_r | by rewrite orb_true_r].
Qed.
Lemma upstream_headers_other traceparent authority r keep_alive name :
  (~ written_name name) ->
  List.filter (named name) (upstream_headers traceparent authority r keep_alive)
  = List.filter (named name) (passed traceparent (upstream_skip r) (rq_headers r)).
Proof.
  intros Hn. unfold written_name, WRITTEN_HEADERS in Hn. rewrite !Exists_cons, Exists_nil in Hn.
  assert (forall n v, ~ same_name name n -> named name (n, v) = false) as Hx.
  { intros n v Hd. apply not_true_iff_false. intros H%named_true. by apply Hd. }
  unfold upstream_headers, length_header. rewrite !List.filter_app. cbn [List.filter].
  rewrite !Hx by tauto. rewrite app_nil_r. case_bool_decide; cbn [List.filter]; rewrite ?Hx by tauto; done.
Qed.

Lemma upstream_headers_owned traceparent authority r keep_alive :
  let headers := upstream_headers traceparent authority r keep_alive in
  List.filter (named HOST) headers = [(HOST, default authority (request_host r))]
  /\ List.filter (named (bs "connection")) headers = [(bs "connection", connection_value keep_alive)]
  /\ List.filter (named CL) headers = length_header r
  /\ List.filter (named TE) headers = [].
Proof.
  cbv zeta. unfold upstream_headers, length_header. split_and!; rewrite !List.filter_app;
    rewrite passed_named_skipped by (intros m Hm; first [by apply (skip_owned r m _ Hm) | by apply (skip_hop r m _ Hm)]);
    case_bool_decide; reflexivity.
Qed.
Lemma upstream_framing traceparent authority r keep_alive :
  zlen (rq_body r) <= U64_MAX ->
  http1_request_body_framing Http11 (read_header <$> upstream_headers traceparent authority r keep_alive)
  = Ok (if bool_decide (rq_body r = []) then NoBody else ContentLength (zlen (rq_body r))).
Proof.
  intros Hlen. apply body_framing_framed.
  destruct (upstream_headers_owned traceparent authority r keep_alive) as (_ & _ & Hcl & Hte).
  pose proof (header_values_read CL (upstream_headers traceparent authority r keep_alive)) as Ecl.
  pose proof (header_values_read TE (upstream_headers traceparent authority r keep_alive)) as Ete.
  rewrite Hcl in Ecl. rewrite Hte in Ete. unfold length_header in Ecl.
  case_bool_decide as Hb; [by apply framed_none |].
  assert (0 < zlen (rq_body r)) as Hpos by (destruct (rq_body r); [done |]; rewrite zlen_cons; zlen_facts; lia).
  pose proof (to_decimal_digits (zlen (rq_body r)) ltac:(lia)) as Hd.
  assert (trim (to_decimal (zlen (rq_body r))) = to_decimal (zlen (rq_body r))) as Et.
  { apply address_trim. split; [apply to_decimal_not_nil | apply digits_address]. }
  eapply framed_length; [exact Ecl | exact Ete | | lia]. cbn [snd]. unfold parse_content_length. rewrite !Et.
  rewrite bool_decide_false by apply to_decimal_not_nil.
  rewrite (proj2 (forallb_forall _ _)) by (intros c Hc; rewrite Forall_forall in Hd; apply Hd; by apply list_elem_of_In).
  cbn [orb negb]. by rewrite parse_uint_to_decimal by lia.
Qed.


Lemma sample_upstream_fits :
  fits sample_head_limits (bs "POST") (bs "/x?y=1") (upstream_headers None (bs "10.0.0.1:80") sample_upstream_request false).
Proof. split; [by vm_compute | by apply (bool_decide_unpack _) | by vm_compute | by vm_compute]. Qed.

(** ** Where the writer falls short *)

(** A client can take the forwarding headers off its own request: the writer
    drops every header the inbound [Connection] header lists, also the ones
    the policy has just written. *)
Definition stripping_request : NativeHttp1Request :=
  sample_native_request [(bs "Host", bs "a.example"); (bs "Connection", bs "close, x-real-ip, x-forwarded-for")].
Lemma connection_drops_forwarding :
  headers_named (bs "x-real-ip") (apply_policy default_policy None stripping_request) = [(bs "x-real-ip", bs "198.51.100.9")]
  /\ List.filter (named (bs "x-real-ip"))
       (upstream_headers None (bs "10.0.0.1:80") (apply_policy default_policy None stripping_request) true) = []
  /\ List.filter (named (bs "x-forwarded-for"))
       (upstream_headers None (bs "10.0.0.1:80") (apply_policy default_policy None stripping_request) true) = [].
Proof. split_and!; vm_compute; reflexivity. Qed.

(** An absolute target with a query and no path loses its query, and one whose
    path starts with two slashes is written as a target the parser itself
    refuses. *)
Lemma absolute_target_rewritten :
  let request target := mkRequest (bs "GET") None None None true None (bs target) Http11 [] [] in
  upstream_origin_target (request "http://a.example?x=1") = Ok (bs "/")
  /\ upstream_origin_target (request "http://a.example//evil/x") = Ok (bs "//evil/x")
  /\ http1_request_target (bs "GET") (bs "//evil/x") = Err InvalidRequestTarget.
Proof. split_and!; reflexivity. Qed.
