(* ===== verification/Transport.v ===== *)
(** * A byte stream that arrives in pieces

    What [tokio::io::AsyncRead] delivers: pieces of bytes of any size, and
    faults.  The end of the stream is a read of no bytes.  The reading loops of
    the server and of the upstream client run on this source. *)
From Stdlib Require Import ZArith Lia.
From stdpp Require Import base list numbers sets strings gmap.
From S2P Require Import Prelude Text NetAddr Http1Target Http1Head Http1Chunked Http1ChunkedSpec Http1ChunkedProps Http1HeadProps.

(** An I/O error, or the deadline of the current operation passing. *)
Inductive Fault : Type := TimedOut | IoFault.
Inductive Delivery : Type :=
| Bytes (l : list Z)
| Broken (f : Fault).
Inductive ReadOutcome : Type :=
| ReadBytes (l : list Z)
| ReadFault (f : Fault).
(** [stream.read(&mut buf[..capacity])] *)
Definition read_source (capacity : Z) (s : list Delivery) : ReadOutcome * list Delivery :=
  match s with
  | [] => (ReadBytes [], [])
  | Broken f :: rest => (ReadFault f, rest)
  | Bytes l :: rest =>
      if zlen l <=? capacity then (ReadBytes l, rest)
      else (ReadBytes (ztake capacity l), Bytes (zdrop capacity l) :: rest)
  end.
(** Reads the source can still answer with bytes. *)
Definition deliveries_size (s : list Delivery) : nat :=
  sum_list ((fun d => match d with Bytes l => S (length l) | Broken _ => 1%nat end) <$> s).

(** ** What arrives *)

(** The bytes up to the end of the stream or the first fault. *)
Fixpoint arrivals (source : list Delivery) : list Z :=
  match source with
  | Bytes (x :: l) :: rest => x :: l ++ arrivals rest
  | _ => []
  end.
(** No faults, and no end of the stream before its end. *)
Definition clean_delivery (d : Delivery) : Prop := match d with Bytes l => l <> [] | Broken _ => False end.
Definition whole (s : list Delivery) : Prop := Forall clean_delivery s.

(** From buffer [b] and source [s] to [b'] and [s'], using up [used]. *)
Record moved (used b : list Z) (s : list Delivery) (b' : list Z) (s' : list Delivery) : Prop := {
  mv_bytes : b ++ arrivals s = used ++ b' ++ arrivals s';
  mv_weight : (length used + length b' + deliveries_size s' <= length b + deliveries_size s)%nat;
  mv_whole : whole s -> whole s';
}.
Lemma moved_refl b s : moved [] b s b s.
Proof. by split. Qed.
Lemma moved_trans u1 u2 b s b1 s1 b2 s2 :
  moved u1 b s b1 s1 -> moved u2 b1 s1 b2 s2 -> moved (u1 ++ u2) b s b2 s2.
Proof.
  intros [H1 H2 H3] [H4 H5 H6]. split; [by rewrite H1, H4, <- app_assoc | rewrite length_app; lia | auto].
Qed.
Lemma moved_drop n b s : moved (ztake n b) b s (zdrop n b) s.
Proof.
  split; [by rewrite app_assoc, ztake_drop | | done].
  rewrite <- (ztake_drop n b) at 3. rewrite length_app. lia.
Qed.

Lemma deliveries_size_cons d rest :
  deliveries_size (d :: rest)
  = (match d with Bytes l => S (length l) | Broken _ => 1 end + deliveries_size rest)%nat.
Proof. done. Qed.
Lemma read_source_spec capacity s :
  0 < capacity ->
  match read_source capacity s with
  | (ReadBytes [], _) => arrivals s = []
  | (ReadBytes l, s') =>
      zlen l <= capacity /\ (deliveries_size s' < deliveries_size s)%nat /\ forall b, moved [] b s (b ++ l) s'
  | (ReadFault _, _) => ~ whole s
  end.
Proof.
  intros Hcap. unfold read_source. destruct s as [| [l | f] rest]; [done | | intros Hw; by apply Forall_cons in Hw as [[] _]].
  destruct (Z.leb_spec (zlen l) capacity) as [Hle | Hgt].
  - destruct l as [| x l]; [done |]. split_and!; [done | rewrite deliveries_size_cons; simpl; lia |].
    intros b. split; [by rewrite <- app_assoc | | intros Hw; by apply Forall_cons in Hw as [_ ?]].
    rewrite deliveries_size_cons, length_app. simpl. lia.
  - destruct (ztake capacity l) as [| x t] eqn:Et.
    { exfalso. apply (f_equal zlen) in Et. rewrite zlen_take in Et by lia. rewrite zlen_nil in Et. zlen_facts. lia. }
    assert (zlen (zdrop capacity l) = zlen l - capacity) as Hd by (rewrite zlen_drop by lia; zlen_facts; lia).
    assert (length l = (length (x :: t) + length (zdrop capacity l))%nat) as Hlen
      by by rewrite <- (ztake_drop capacity l) at 1; rewrite length_app, Et.
    destruct (zdrop capacity l) as [| y u] eqn:Eu; [rewrite zlen_nil in Hd; lia |].
    split_and!.
    + rewrite <- Et, zlen_take by lia. lia.
    + rewrite !deliveries_size_cons. simpl in *. lia.
    + intros b. split.
      * cbn [arrivals app]. rewrite <- app_assoc. f_equal.
        rewrite <- (ztake_drop capacity l), Et, Eu. cbn [app arrivals]. by rewrite <- app_assoc.
      * rewrite !deliveries_size_cons, length_app. simpl in *. lia.
      * intros Hw. apply Forall_cons in Hw as [_ Hr]. by constructor.
Qed.

(** * Heads at the start of a stream

    Request and response heads are found in the same way: the parser waits for
    the first empty line, gives up beyond the limit, and otherwise decides on
    the bytes of the head alone.  What a reading loop needs of such a parser is
    proved once, for both. *)
Class HeadParser {H : Type} (limits : Http1HeadLimits)
    (parse : list Z -> Http1HeadLimits -> result (option H) Http1ParseError) : Type := {
  hp_finish : Z -> list Z -> result H Http1ParseError;
  hp_parse input :
    parse input limits
    = let? found := complete_head_len input (max_head_bytes limits) in
      match found with
      | None => Ok None
      | Some n => let? h := hp_finish n (ztake n input) in Ok (Some h)
      end;
}.

Section Heads.
Context {H : Type} (limits : Http1HeadLimits) (parse : list Z -> Http1HeadLimits -> result (option H) Http1ParseError).
Context `{!HeadParser limits parse} (Hlim : head_limits_wf limits).

(** The answer to what has been read, by where its head ends. *)
Lemma parse_spec given :
  parse given limits
  = match head_end given with
    | Some n =>
        if max_head_bytes limits <? n then Err HeadTooLarge
        else let? h := hp_finish n (ztake n given) in Ok (Some h)
    | None => if max_head_bytes limits <? zlen given then Err HeadTooLarge else Ok None
    end.
Proof using HeadParser0 Hlim.
  destruct Hlim. rewrite hp_parse, complete_head_len_spec by done.
  destruct (head_end given); by destruct (_ <? _).
Qed.
Lemma parse_None given :
  parse given limits = Ok None -> head_end given = None /\ zlen given <= max_head_bytes limits.
Proof using HeadParser0 Hlim.
  rewrite parse_spec. destruct (head_end given) as [n |].
  - destruct (_ <? _); [done |]. by destruct (hp_finish n _).
  - by destruct (Z.ltb_spec (max_head_bytes limits) (zlen given)).
Qed.
(** An answer other than "more" does not depend on what follows. *)
Lemma parse_settled given more : parse given limits <> Ok None -> parse (given ++ more) limits = parse given limits.
Proof using HeadParser0 Hlim.
  rewrite !parse_spec. destruct (head_end given) as [n |] eqn:En.
  - rewrite (head_end_app _ more _ En). apply head_end_bound in En as [? _]. by rewrite ztake_app_le by lia.
  - destruct (Z.ltb_spec (max_head_bytes limits) (zlen given)) as [Hgt |]; [| done]. intros _.
    destruct (head_end (given ++ more)) as [n |] eqn:Em.
    + destruct (Z.le_gt_cases n (zlen given)) as [Hn' | Hn'].
      { by rewrite (head_end_prefix _ _ _ Em Hn') in En. }
      by zcond.
    + rewrite zlen_app. zlen_facts. by zcond.
Qed.

(** The answer for a whole stream: an incomplete head as large as the limit is
    too large. *)
Definition head_of (bytes : list Z) : result (option H) Http1ParseError :=
  match parse bytes limits with
  | Ok None => if max_head_bytes limits <=? zlen bytes then Err HeadTooLarge else Ok None
  | r => r
  end.
Lemma head_of_settled given more : parse given limits <> Ok None -> head_of (given ++ more) = parse given limits.
Proof using HeadParser0 Hlim.
  intros Hn. unfold head_of. rewrite parse_settled by done. by destruct (parse given limits) as [[] |].
Qed.
Lemma head_of_full given more :
  parse given limits = Ok None -> max_head_bytes limits <= zlen given -> head_of (given ++ more) = Err HeadTooLarge.
Proof using HeadParser0 Hlim.
  intros Hn Hm. destruct (parse_None given Hn) as [He Hl]. unfold head_of.
  destruct more as [| x more]; [rewrite app_nil_r, Hn; by zcond |].
  assert (0 < zlen (x :: more)) by (rewrite zlen_cons; zlen_facts; lia).
  rewrite parse_spec. destruct (head_end (given ++ x :: more)) as [n |] eqn:E.
  - destruct (Z.ltb_spec (max_head_bytes limits) n); [done |]. by rewrite (head_end_prefix _ _ _ E) in He by lia.
  - rewrite zlen_app. by zcond.
Qed.
End Heads.

(** ** The two parsers *)

#[export] Instance request_head_parser limits : HeadParser limits parse_http1_request_head.
Proof.
  unshelve refine {| hp_finish n head :=
    if negb (utf8_valid head) then Err InvalidUtf8
    else match split_crlf head with
    | [] => Err InvalidRequestLine
    | request_line :: lines =>
        if max_start_line_bytes limits <? zlen request_line then Err StartLineTooLong
        else
          let? (method, target, version) := parse_request_line request_line in
          let? headers := parse_header_lines limits [] lines in
          let h := mkRawHttp1RequestHead method target version headers n in
          let? v := validate_message h in Ok (mkValidated h v)
    end |}.
  intros input. unfold parse_http1_request_head, parse_http1_request_head_raw.
  destruct (complete_head_len _ _) as [[n |] |]; [| done..].
  destruct (negb _); [done |]. destruct (split_crlf _) as [| line lines]; [done |]. destruct (_ <? _); [done |].
  destruct (parse_request_line line) as [[[m t] v] |]; [| done].
  destruct (parse_header_lines _ _ _); [| done]. by destruct (validate_message _).
Defined.
#[export] Instance response_head_parser limits : HeadParser limits parse_http1_response_head.
Proof.
  unshelve refine {| hp_finish n head :=
    if negb (utf8_valid head) then Err InvalidUtf8
    else match split_crlf head with
    | [] => Err InvalidResponseLine
    | status_line :: lines =>
        if max_start_line_bytes limits <? zlen status_line then Err StartLineTooLong
        else
          let? (version, status, reason) := parse_status_line status_line in
          let? headers := parse_header_lines limits [] lines in
          Ok (mkHttp1ResponseHead version status reason headers n)
    end |}.
  intros input. unfold parse_http1_response_head.
  destruct (complete_head_len _ _) as [[n |] |]; [| done..].
  destruct (negb _); [done |]. destruct (split_crlf _) as [| line lines]; [done |]. destruct (_ <? _); [done |].
  destruct (parse_status_line line) as [[[v s] r] |]; [| done]. by destruct (parse_header_lines _ _ _).
Defined.

(** * Feeding a chunked decoder

    What a reading loop needs of the decoder: the state after some fragments, and
    the effect of one more of them on a stream that goes on. *)
Section Feed.
Context (lim : Http1ChunkLimits) (Hlim : chunk_limits_wf lim).

Lemma feed_snoc (d : Http1ChunkedDecoder) (out : list Z) given x :
  feed d out (given ++ [x])
  = match feed d out given with
    | Returned d out (Ok None) => push_to d out x
    | o => o
    end.
Proof using Type.
  revert d out. induction given as [| f given IH]; intros d out; simpl.
  - destruct (push_to d out x) as [d' out' [[] |] | |]; done.
  - destruct (push_to d out f) as [d' out' [[] |] | |]; [done | apply IH | done..].
Qed.
Lemma feed_stops (d : Http1ChunkedDecoder) (out : list Z) given x rest :
  (forall d' out', feed d out (given ++ [x]) <> Returned d' out' (Ok None)) ->
  feed d out (given ++ [x] ++ rest) = feed d out (given ++ [x]).
Proof using Type.
  revert d out. induction given as [| f given IH]; intros d out Hn; simpl in *.
  - destruct (push_to d out x) as [d' out' [[] |] | |]; try done. by destruct (Hn d' out').
  - destruct (push_to d out f) as [d' out' [[] |] | |]; try done. by apply IH.
Qed.

(** The decoder after some fragments, waiting for more. *)
Definition fed_with (given : list (list Z)) (d : Http1ChunkedDecoder) (body : list Z) : Prop :=
  feed (decoder_new lim) ([] : list Z) given = Returned d body (Ok None).
Lemma fed_spec given d body :
  fed_with given d body -> chunked_spec lim ([] : list Z) (concat given) = (body, Ok None).
Proof using Hlim.
  intros Hf. pose proof (feed_chunked_spec lim ([] : list Z) given Hlim eq_refl) as H. rewrite Hf in H. by injection H.
Qed.
Lemma spec_waiting_len (out out' : list Z) bytes :
  chunked_spec lim out bytes = (out', Ok None) -> zlen bytes <= max_encoded_bytes lim.
Proof using Hlim.
  intros Hs. destruct (chunked_spec_reads lim out bytes Hlim) as (v & _ & Hv). rewrite Hs in Hv.
  destruct v as [r o rest | |]; simpl in Hv; [| done | done].
  destruct (Z.ltb_spec (max_encoded_bytes lim) (zlen bytes)); [done | lia].
Qed.

Lemma reads_need_wf r (out : list Z) rest r' out' rest' :
  reads lim r out rest (VNeed r' out' rest') -> reader_wf lim r -> reader_wf lim r'.
Proof using Hlim.
  intros Hr. remember (VNeed r' out' rest') as v eqn:Ev.
  induction Hr as [| | | r out rest r1 out1 rest1 v Hs Hr IH]; simplify_eq/=; [done |].
  intros Hwf. apply IH; [done |]. by apply (read_step_more lim Hlim) in Hs as [? _].
Qed.
Lemma spec_body_len (out : list Z) bytes d :
  chunked_spec lim ([] : list Z) bytes = (out, Ok d) -> 0 <= zlen out <= max_body_bytes lim.
Proof using Hlim.
  intros Hs. split; [apply zlen_nonneg |]. destruct d as [d |].
  - destruct (chunked_spec_done_local lim Hlim _ _ _ _ Hs eq_refl) as (_ & _ & Hd & Hle & _). simpl in Hd. lia.
  - destruct (chunked_spec_reads lim ([] : list Z) bytes Hlim) as (v & Hv & Hc). rewrite Hs in Hc.
    destruct v as [r o rest | |]; simpl in Hc; [| done | done]. destruct (_ <? _); [done |]. injection Hc as <-.
    pose proof (reads_sink_len lim Hlim _ _ _ _ _ _ Hv (reader_new_wf lim Hlim) eq_refl) as Hl. simpl in Hl.
    apply reads_need_wf in Hv as (_ & _ & _ & ? & _); [lia | by apply reader_new_wf].
Qed.
(** One more fragment, in a stream that goes on with [rest]. *)
Lemma push_spec given d body chunk rest :
  fed_with given d body ->
  match push_to d body chunk with
  | Returned d' body' (Ok None) => fed_with (given ++ [chunk]) d' body'
  | Returned _ body' (Ok (Some decoded)) =>
      chunked_spec lim ([] : list Z) (concat given ++ chunk ++ rest) = (body', Ok (Some decoded))
      /\ zlen (concat given) <= d_consumed_len decoded <= zlen (concat given) + zlen chunk
  | Returned _ body' (Err e) => chunked_spec lim ([] : list Z) (concat given ++ chunk ++ rest) = (body', Err e)
  | Panicked | OutOfFuel => False
  end.
Proof using Hlim.
  intros Hf. pose proof (feed_snoc (decoder_new lim) [] given chunk) as Hs. rewrite Hf in Hs.
  pose proof (feed_chunked_spec lim ([] : list Z) (given ++ [chunk]) Hlim eq_refl) as Hone.
  pose proof (feed_chunked_spec lim ([] : list Z) (given ++ [chunk] ++ [rest]) Hlim eq_refl) as Hall.
  rewrite concat_app in Hone, Hall. cbn [concat app] in Hone. simpl concat in Hall. rewrite !app_nil_r in Hone, Hall.
  destruct (push_to d body chunk) as [d' body' [[decoded |] | e] | |].
  - rewrite feed_stops in Hall by (rewrite Hs; congruence). rewrite Hs in Hone, Hall. simpl in Hone, Hall.
    injection Hone as Hone. injection Hall as Hall. split; [by symmetry |].
    destruct (chunked_spec_done_local lim Hlim _ _ _ _ (eq_sym Hone) eq_refl) as (Hle & _ & _ & _ & Hloc).
    rewrite zlen_app in Hle. split; [| done].
    destruct (Z.le_gt_cases (zlen (concat given)) (d_consumed_len decoded)) as [| Hlt]; [done |].
    pose proof (fed_spec given d body Hf) as Hw. rewrite (Hloc (concat given)) in Hw; [done |].
    by rewrite ztake_app_le by lia.
  - exact Hs.
  - rewrite feed_stops in Hall by (rewrite Hs; congruence). rewrite Hs in Hall. simpl in Hall.
    injection Hall as Hall. by symmetry.
  - by rewrite Hs in Hone.
  - by rewrite Hs in Hone.
Qed.
End Feed.
