(* ===== verification/UpstreamResponse.v ===== *)
(** * Responses ([native_http1_upstream_response.rs], [native_http1/response.rs])

    Reading the response of an upstream from a stream that arrives in pieces,
    whether its connection can be used again, and writing a response to the
    client.  The date, which another package formats, is a parameter.  Timers,
    retention and telemetry of a response are left out. *)
From Stdlib Require Import ZArith Lia.
From stdpp Require Import base list numbers strings sets gmap.
From S2P Require Import Prelude Text NetAddr Http1Target Http1Head Http1Chunked Http1ChunkedSpec Http1ChunkedProps Http1HeadProps RequestHeaders UpstreamRequest Transport.

(** ** Responses *)

Record NativeHttp1Response : Type := mkResponse {
  rp_status : Z;
  rp_reason : list Z;
  rp_headers : list header;
  rp_content_length : option Z;
  rp_body : list Z;
  rp_close : bool;
}.

(** ** Framing *)

Inductive ResponseBodyFraming : Type :=
| RNoBody
| RContentLength (length : Z)
| RChunked
| RCloseDelimited.

(** The loop over the codings: no more than one of them. *)
Fixpoint response_codings (coding : option (list Z)) (pieces : list (list Z))
    : result (option (list Z)) Http1ParseError :=
  match pieces with
  | [] => Ok coding
  | piece :: rest =>
      let piece := trim piece in
      if bool_decide (piece = []) || negb (http_token_valid piece) || bool_decide (is_Some coding)
      then Err UnsupportedTransferEncoding
      else response_codings (Some piece) rest
  end.
Fixpoint response_framing_scan (headers : list Http1Header) (content_length : option Z) (coding : option (list Z))
    : result (option Z * option (list Z)) Http1ParseError :=
  match headers with
  | [] => Ok (content_length, coding)
  | header :: rest =>
      if eq_ignore_ascii_case (h_name header) (bs "content-length") then
        let? parsed := ok_or (parse_uint U64_MAX (trim (h_value header))) InvalidContentLength in
        match content_length with
        | Some _ => Err DuplicateContentLength
        | None => response_framing_scan rest (Some parsed) coding
        end
      else if eq_ignore_ascii_case (h_name header) (bs "transfer-encoding") then
        let? coding := response_codings coding (split_byte 44 (h_value header)) in
        response_framing_scan rest content_length coding
      else response_framing_scan rest content_length coding
  end.
(** Responses without a body, whatever their headers. *)
Definition bodiless (status : Z) (request_method : list Z) : bool :=
  eq_ignore_ascii_case request_method (bs "HEAD") || ((100 <=? status) && (status <? 200))
  || (status =? 204) || (status =? 304).
Definition response_body_framing (status : Z) (request_method : list Z) (headers : list Http1Header)
    : result ResponseBodyFraming Http1ParseError :=
  if bodiless status request_method then Ok RNoBody
  else
    let? (content_length, coding) := response_framing_scan headers None None in
    match coding with
    | Some coding =>
        if eq_ignore_ascii_case coding (bs "chunked") then Ok RChunked else Err UnsupportedTransferEncoding
    | None => match content_length with Some length => Ok (RContentLength length) | None => Ok RCloseDelimited end
    end.

(** ** Reading *)

Definition UPSTREAM_READ_CHUNK_BYTES : Z := 8192.
Definition MAX_INFORMATIONAL_RESPONSES : nat := 8.
Inductive UpstreamError : Type :=
| UpstreamParse (e : Http1ParseError)
| UpstreamFault (f : Fault)
| UpstreamEof
| UpstreamCrashed.

(** [fill_upstream_response_head]; every turn but the last takes bytes off the
    source, so its size is enough fuel. *)
Fixpoint fill_upstream_response_head (fuel : nat) (limits : Http1HeadLimits) (buffer : list Z) (s : list Delivery)
    : result () UpstreamError * list Z * list Delivery :=
  match parse_http1_response_head buffer limits with
  | Ok (Some _) => (Ok (), buffer, s)
  | Err e => (Err (UpstreamParse e), buffer, s)
  | Ok None =>
      if max_head_bytes limits <=? zlen buffer then (Err (UpstreamParse HeadTooLarge), buffer, s)
      else
        match read_source UPSTREAM_READ_CHUNK_BYTES s with
        | (ReadFault f, s) => (Err (UpstreamFault f), buffer, s)
        | (ReadBytes [], s) =>
            (Err (if bool_decide (buffer = []) then UpstreamEof else UpstreamParse InvalidResponseLine), buffer, s)
        | (ReadBytes chunk, s) =>
            match fuel with
            | O => (Err UpstreamCrashed, buffer, s)
            | S fuel => fill_upstream_response_head fuel limits (buffer ++ chunk) s
            end
        end
  end.
(** The loop over informational responses, [allowed] of which are still allowed. *)
Fixpoint read_final_head (allowed : nat) (limits : Http1HeadLimits) (buffer : list Z) (s : list Delivery)
    : result Http1ResponseHead UpstreamError * list Z * list Delivery :=
  match fill_upstream_response_head (deliveries_size s) limits buffer s with
  | (Err e, buffer, s) => (Err e, buffer, s)
  | (Ok _, buffer, s) =>
      match parse_http1_response_head buffer limits with
      | Err e => (Err (UpstreamParse e), buffer, s)
      | Ok None => (Err (UpstreamParse InvalidResponseLine), buffer, s)
      | Ok (Some head) =>
          if sh_status head =? 101 then (Err (UpstreamParse InvalidResponseLine), buffer, s)
          else if 200 <=? sh_status head then (Ok head, buffer, s)
          else
            match allowed with
            | O => (Err (UpstreamParse InvalidResponseLine), buffer, s)
            | S allowed => read_final_head allowed limits (zdrop (sh_head_len head) buffer) s
            end
      end
  end.

(** The loop of [read_close_delimited_body]. *)
Fixpoint read_to_close (fuel : nat) (max_body : Z) (body : list Z) (s : list Delivery)
    : result (list Z) UpstreamError * list Delivery :=
  match read_source UPSTREAM_READ_CHUNK_BYTES s with
  | (ReadFault f, s) => (Err (UpstreamFault f), s)
  | (ReadBytes [], s) => (Ok body, s)
  | (ReadBytes chunk, s) =>
      let body := body ++ chunk in
      if max_body <? zlen body then (Err (UpstreamParse BodyTooLarge), s)
      else match fuel with O => (Err UpstreamCrashed, s) | S fuel => read_to_close fuel max_body body s end
  end.
(** The loop of [read_content_length_body], until the buffer holds [required]
    bytes. *)
Fixpoint read_required (fuel : nat) (required : Z) (buffer : list Z) (s : list Delivery)
    : result () UpstreamError * list Z * list Delivery :=
  if zlen buffer <? required then
    match read_source UPSTREAM_READ_CHUNK_BYTES s with
    | (ReadFault f, s) => (Err (UpstreamFault f), buffer, s)
    | (ReadBytes [], s) => (Err (UpstreamParse InvalidContentLength), buffer, s)
    | (ReadBytes chunk, s) =>
        match fuel with
        | O => (Err UpstreamCrashed, buffer, s)
        | S fuel => read_required fuel required (buffer ++ chunk) s
        end
    end
  else (Ok (), buffer, s).
(** The loop of [read_chunked_body] after the bytes at hand. *)
Fixpoint read_decoded (fuel : nat) (d : Http1ChunkedDecoder) (body : list Z) (s : list Delivery)
    : result (list Z) UpstreamError * list Delivery :=
  match read_source UPSTREAM_READ_CHUNK_BYTES s with
  | (ReadFault f, s) => (Err (UpstreamFault f), s)
  | (ReadBytes [], s) => (Err (UpstreamParse InvalidChunk), s)
  | (ReadBytes chunk, s) =>
      match push_to d body chunk with
      | Returned _ body (Ok (Some _)) => (Ok body, s)
      | Returned d body (Ok None) =>
          match fuel with O => (Err UpstreamCrashed, s) | S fuel => read_decoded fuel d body s end
      | Returned _ _ (Err e) => (Err (UpstreamParse e), s)
      | _ => (Err UpstreamCrashed, s)
      end
  end.

(** The chunk limits for a body limit. *)
Definition response_chunk_limits (max_body : Z) : Http1ChunkLimits := with_max_body_bytes default_chunk_limits max_body.
(** [read_response_body]: the body, and the buffer it leaves. *)
Definition read_response_body (buffer : list Z) (head_len : Z) (framing : ResponseBodyFraming) (max_body : Z)
    (s : list Delivery) : result (list Z) UpstreamError * list Z * list Delivery :=
  match framing with
  | RNoBody => (Ok [], buffer, s)
  | RCloseDelimited =>
      let body := zdrop head_len buffer in
      if max_body <? zlen body then (Err (UpstreamParse BodyTooLarge), buffer, s)
      else let '(r, s) := read_to_close (deliveries_size s) max_body body s in (r, buffer, s)
  | RContentLength length =>
      if max_body <? length then (Err (UpstreamParse BodyTooLarge), buffer, s)
      else
        match checked_add USIZE_MAX head_len length with
        | None => (Err (UpstreamParse BodyTooLarge), buffer, s)
        | Some required =>
            match read_required (deliveries_size s) required buffer s with
            | (Err e, buffer, s) => (Err e, buffer, s)
            | (Ok _, buffer, s) => (Ok (zdrop head_len (ztake required buffer)), buffer, s)
            end
        end
  | RChunked =>
      match push_to (decoder_new (response_chunk_limits max_body)) ([] : list Z) (zdrop head_len buffer) with
      | Returned _ body (Ok (Some _)) => (Ok body, buffer, s)
      | Returned d body (Ok None) =>
          let '(r, s) := read_decoded (deliveries_size s) d body s in (r, buffer, s)
      | Returned _ _ (Err e) => (Err (UpstreamParse e), buffer, s)
      | _ => (Err UpstreamCrashed, buffer, s)
      end
  end.

Definition response_content_length (headers : list header) : option Z :=
  match List.find (fun h => eq_ignore_ascii_case h.1 (bs "content-length")) headers with
  | Some (_, value) => parse_uint U64_MAX (trim value)
  | None => None
  end.
(** Whether the connection stands right after the response. *)
Definition response_body_reusable (buffer : list Z) (head_len : Z) (framing : ResponseBodyFraming)
    (body_len status : Z) : bool :=
  if (100 <=? status) && (status <? 200) then false
  else
    match framing with
    | RNoBody => zlen buffer =? head_len
    | RContentLength length => (length =? body_len) && (zlen buffer =? saturating_add USIZE_MAX head_len length)
    | RChunked | RCloseDelimited => false
    end.
Definition response_header_allowed (name : list Z) (framing : ResponseBodyFraming) (options : gset (list Z)) : bool :=
  negb (identifies_hop_by_hop_header options name
        || match framing with
           | RChunked => eq_ignore_ascii_case name (bs "content-length")
           | _ => false
           end).

Definition upstream_limits (max_head : Z) : Http1HeadLimits :=
  mkHttp1HeadLimits max_head (max_header_count default_head_limits)
    (max_header_line_bytes default_head_limits) (max_start_line_bytes default_head_limits).
(** What is kept of a response head and body. *)
Definition response_from_head (head : Http1ResponseHead) (framing : ResponseBodyFraming) (options : gset (list Z))
    (body : list Z) : NativeHttp1Response :=
  let headers :=
    (fun h => (h_name h, h_value h))
      <$> List.filter (fun h => response_header_allowed (h_name h) framing options) (sh_headers head) in
  mkResponse (sh_status head) (sh_reason head) headers (response_content_length headers) body false.
(** [read_upstream_response_inner]: the response and whether the connection can
    be used again. *)
Definition read_upstream_response_inner (max_head max_body : Z) (request_method : list Z) (want_reusable : bool)
    (s : list Delivery) : result (NativeHttp1Response * bool) UpstreamError * list Delivery :=
  match read_final_head MAX_INFORMATIONAL_RESPONSES (upstream_limits max_head) [] s with
  | (Err e, _, s) => (Err e, s)
  | (Ok head, buffer, s) =>
      match (let? framing := response_body_framing (sh_status head) request_method (sh_headers head) in
             let? options := http1_connection_options (sh_headers head) in
             let? directive := http1_connection_directive (sh_version head) (sh_headers head) in
             Ok (framing, options, bool_decide (directive = Close))) with
      | Err e => (Err (UpstreamParse e), s)
      | Ok (framing, options, origin_closes) =>
          match read_response_body buffer (sh_head_len head) framing max_body s with
          | (Err e, _, s) => (Err e, s)
          | (Ok body, buffer, s) =>
              let reusable :=
                want_reusable && negb origin_closes
                && response_body_reusable buffer (sh_head_len head) framing (zlen body) (sh_status head) in
              (Ok (response_from_head head framing options body, reusable), s)
          end
      end
  end.

(** ** Writing *)

Definition response_header_byte_bad (c : Z) : bool :=
  between 0 8 c || between 10 31 c || between 127 255 c.
Definition valid_response_header (name value : list Z) : bool :=
  http_token_valid name && negb (existsb response_header_byte_bad value).
Definition sanitize_reason_phrase (reason : list Z) : list Z :=
  List.filter (fun c => (c =? 9) || between 32 126 c) reason.
(** Headers the writer owns. *)
Definition writer_owned (name : list Z) : bool :=
  eq_ignore_ascii_case name (bs "content-length") || eq_ignore_ascii_case name (bs "connection")
  || eq_ignore_ascii_case name (bs "date").
Fixpoint write_response_headers (headers : list header) : Writer :=
  match headers with
  | [] => write_all []
  | (name, value) :: rest =>
      if writer_owned name then write_response_headers rest
      else if negb (valid_response_header name value) then write_error InvalidHeaderValue
      else write_line (name ++ bs ": " ++ value) #> write_response_headers rest
  end.
(** [write_response_inner] on a connection that takes everything in time. *)
Definition write_response (date : list Z) (response : NativeHttp1Response) (close : bool) : Writer :=
  write_line (bs "HTTP/1.1 " ++ to_decimal (rp_status response) ++ [SP] ++ sanitize_reason_phrase (rp_reason response))
  #> write_line (bs "Date: " ++ date)
  #> write_line (bs "Content-Length: "
                 ++ to_decimal (default (zlen (rp_body response)) (rp_content_length response)))
  #> write_line (if close then bs "Connection: close" else bs "Connection: keep-alive")
  #> write_response_headers (rp_headers response)
  #> write_all crlf
  #> write_all (rp_body response).

(** * The response of an upstream

    The response read is the one of the byte stream, whatever pieces it arrives
    in; a connection is used again only when it stands right after it; and what
    is written to the client is read as the same response. *)
(** ** The response at the start of a stream *)

(** The head at the start of a stream that ends where the bytes do. *)
Definition first_head (limits : Http1HeadLimits) (stream : list Z) : result Http1ResponseHead UpstreamError :=
  match head_of limits parse_http1_response_head stream with
  | Ok (Some head) => Ok head
  | Ok None => Err (if bool_decide (stream = []) then UpstreamEof else UpstreamParse InvalidResponseLine)
  | Err e => Err (UpstreamParse e)
  end.
(** The first head that is not informational, and the stream from there on. *)
Fixpoint final_head_of (allowed : nat) (limits : Http1HeadLimits) (stream : list Z)
    : result (Http1ResponseHead * list Z) UpstreamError :=
  let? head := first_head limits stream in
  if sh_status head =? 101 then Err (UpstreamParse InvalidResponseLine)
  else if 200 <=? sh_status head then Ok (head, stream)
  else match allowed with
       | O => Err (UpstreamParse InvalidResponseLine)
       | S allowed => final_head_of allowed limits (zdrop (sh_head_len head) stream)
       end.
(** The body after a head, and what follows it. *)
Definition response_body_of (max_body : Z) (framing : ResponseBodyFraming) (stream : list Z)
    : result (list Z * list Z) UpstreamError :=
  match framing with
  | RNoBody => Ok ([], stream)
  | RCloseDelimited => if max_body <? zlen stream then Err (UpstreamParse BodyTooLarge) else Ok (stream, [])
  | RContentLength n =>
      if max_body <? n then Err (UpstreamParse BodyTooLarge)
      else if zlen stream <? n then Err (UpstreamParse InvalidContentLength)
      else Ok (ztake n stream, zdrop n stream)
  | RChunked =>
      match chunked_spec (response_chunk_limits max_body) ([] : list Z) stream with
      | (body, Ok (Some decoded)) => Ok (body, zdrop (d_consumed_len decoded) stream)
      | (_, Ok None) => Err (UpstreamParse InvalidChunk)
      | (_, Err e) => Err (UpstreamParse e)
      end
  end.
(** Framing and connection options of a head. *)
Definition head_view (request_method : list Z) (head : Http1ResponseHead)
    : result (ResponseBodyFraming * gset (list Z) * bool) Http1ParseError :=
  let? framing := response_body_framing (sh_status head) request_method (sh_headers head) in
  let? options := http1_connection_options (sh_headers head) in
  let? directive := http1_connection_directive (sh_version head) (sh_headers head) in
  Ok (framing, options, bool_decide (directive = Close)).
Definition response_of (limits : Http1HeadLimits) (max_body : Z) (request_method stream : list Z)
    : result (NativeHttp1Response * list Z) UpstreamError :=
  let? (head, stream) := final_head_of MAX_INFORMATIONAL_RESPONSES limits stream in
  match head_view request_method head with
  | Err e => Err (UpstreamParse e)
  | Ok (framing, options, _) =>
      let? (body, rest) := response_body_of max_body framing (zdrop (sh_head_len head) stream) in
      Ok (response_from_head head framing options body, rest)
  end.

(** ** Heads *)

Section Heads.
Context (limits : Http1HeadLimits) (Hlim : head_limits_wf limits).

Lemma fill_spec fuel buffer s :
  (deliveries_size s <= fuel)%nat ->
  match fill_upstream_response_head fuel limits buffer s with
  | (Ok _, b', s') => moved [] buffer s b' s' /\ exists head, parse_http1_response_head b' limits = Ok (Some head)
  | (Err UpstreamCrashed, _, _) => False
  | (Err (UpstreamFault _), _, _) => ~ whole s
  | (Err e, _, _) => first_head limits (buffer ++ arrivals s) = Err e
  end.
Proof using Hlim.
  unfold first_head.
  revert buffer s. induction fuel as [| fuel IH]; intros buffer s Hf; simpl;
    destruct (parse_http1_response_head buffer limits) as [[head |] | e] eqn:Ep;
    try (split; [apply moved_refl | eauto]; done);
    try (rewrite (head_of_settled limits parse_http1_response_head Hlim), Ep by congruence; done);
    destruct (Z.leb_spec (max_head_bytes limits) (zlen buffer));
    try (by rewrite (head_of_full limits parse_http1_response_head Hlim));
    pose proof (read_source_spec UPSTREAM_READ_CHUNK_BYTES s ltac:(done)) as Hr;
    destruct (read_source UPSTREAM_READ_CHUNK_BYTES s) as [[[| x chunk] | f] s'];
    try (rewrite Hr, app_nil_r; unfold head_of; rewrite Ep; zcond; by case_bool_decide); try done;
    destruct Hr as (Hl & Hs & Ha).
  - lia.
  - specialize (IH (buffer ++ x :: chunk) s' ltac:(lia)). pose proof (Ha buffer) as Hb.
    rewrite (mv_bytes _ _ _ _ _ Hb). cbn [app].
    destruct (fill_upstream_response_head fuel limits (buffer ++ x :: chunk) s') as [[[[] | e] b'] s''].
    + destruct IH as [Hm Hh]. split; [| done]. apply (moved_trans [] [] _ _ _ _ _ _ Hb Hm).
    + destruct e; try done. intros Hw. by apply IH, (mv_whole _ _ _ _ _ Hb).
Qed.

Lemma response_head_end b head :
  parse_http1_response_head b limits = Ok (Some head) -> head_end b = Some (sh_head_len head).
Proof using Hlim.
  rewrite (parse_spec limits parse_http1_response_head Hlim).
  destruct (head_end b) as [n |] eqn:En; [| by destruct (_ <? _)].
  destruct (_ <? _); [done |]. cbn [hp_finish response_head_parser].
  destruct (negb _); [done |]. destruct (split_crlf _) as [| line lines]; [done |]. destruct (_ <? _); [done |].
  destruct (parse_status_line line) as [[[v st] r] |]; [| done]. destruct (parse_header_lines _ _ _); [| done].
  by intros [= <-].
Qed.
Lemma response_head_len b head :
  parse_http1_response_head b limits = Ok (Some head) -> 4 <= sh_head_len head <= zlen b.
Proof using Hlim. intros H%response_head_end. by apply head_end_bound in H as [? _]. Qed.
Lemma response_head_alone b head :
  parse_http1_response_head b limits = Ok (Some head) ->
  parse_http1_response_head (ztake (sh_head_len head) b) limits = Ok (Some head).
Proof using Hlim.
  intros Hp. pose proof (response_head_end _ _ Hp) as He. pose proof (response_head_len _ _ Hp) as Hl.
  revert Hp. rewrite !(parse_spec limits parse_http1_response_head Hlim). rewrite He.
  assert (head_end (ztake (sh_head_len head) b) = Some (sh_head_len head)) as ->.
  { apply (head_end_prefix _ (zdrop (sh_head_len head) b)); [by rewrite ztake_drop | rewrite zlen_take by lia; lia]. }
  rewrite ztake_take, Z.min_id. done.
Qed.
(** A head that is there is the head of every stream that goes on from it. *)
Lemma first_head_settled b head more :
  parse_http1_response_head b limits = Ok (Some head) -> first_head limits (b ++ more) = Ok head.
Proof using Hlim.
  intros Hp. unfold first_head. by rewrite (head_of_settled limits parse_http1_response_head Hlim), Hp by congruence.
Qed.

Lemma read_final_head_spec allowed buffer s :
  match read_final_head allowed limits buffer s with
  | (Ok head, b', s') =>
      exists used, moved used buffer s b' s' /\ parse_http1_response_head b' limits = Ok (Some head)
        /\ forall more, final_head_of allowed limits (used ++ b' ++ more) = Ok (head, b' ++ more)
  | (Err UpstreamCrashed, _, _) => False
  | (Err (UpstreamFault _), _, _) => ~ whole s
  | (Err e, _, _) => final_head_of allowed limits (buffer ++ arrivals s) = Err e
  end.
Proof using Hlim.
  revert buffer s. induction allowed as [| allowed IH]; intros buffer s; cbn [read_final_head final_head_of];
    pose proof (fill_spec (deliveries_size s) buffer s ltac:(done)) as Hf;
    (destruct (fill_upstream_response_head _ _ _ _) as [[[[] | e] b1] s1]; [| by destruct e; rewrite ?Hf]);
    destruct Hf as (Hm & head & Hp); rewrite Hp; rewrite (mv_bytes _ _ _ _ _ Hm); cbn [app];
    rewrite !(first_head_settled _ _ _ Hp);
    (destruct (sh_status head =? 101) eqn:E1; [done |]);
    (destruct (200 <=? sh_status head) eqn:E2;
     [exists []; split_and!; [done | done |]; intros more; cbn [app]; by rewrite (first_head_settled _ _ _ Hp), E1, E2 |]).
  - done.
  - pose proof (response_head_len _ _ Hp) as Hl. rewrite zdrop_app_le by lia.
    specialize (IH (zdrop (sh_head_len head) b1) s1). pose proof (moved_drop (sh_head_len head) b1 s1) as Hd.
    pose proof (moved_trans _ _ _ _ _ _ _ _ Hm Hd) as H1. cbn [app] in H1.
    destruct (read_final_head allowed limits _ s1) as [[[h2 | e] b2] s2];
      [| destruct e; try done; intros Hw; by apply IH, Hm].
    destruct IH as (used & Hm2 & Hp2 & Hfin). exists (ztake (sh_head_len head) b1 ++ used).
    split_and!; [by eapply moved_trans | done |]. intros more.
    rewrite <- app_assoc, (first_head_settled _ _ _ (response_head_alone _ _ Hp)), E1, E2.
    assert (zlen (ztake (sh_head_len head) b1) = sh_head_len head) as Hz by (rewrite zlen_take by lia; lia).
    rewrite <- Hz at 1. by rewrite zdrop_app_exact.
Qed.
End Heads.

(** ** Bodies *)

Lemma read_to_close_spec max_body fuel body s :
  (deliveries_size s <= fuel)%nat -> zlen body <= max_body ->
  match read_to_close fuel max_body body s with
  | (Ok b, _) => b = body ++ arrivals s /\ zlen b <= max_body
  | (Err (UpstreamFault _), _) => ~ whole s
  | (Err e, _) => e = UpstreamParse BodyTooLarge /\ max_body < zlen (body ++ arrivals s)
  end.
Proof.
  revert body s. induction fuel as [| fuel IH]; intros body s Hf Hl; simpl;
    pose proof (read_source_spec UPSTREAM_READ_CHUNK_BYTES s ltac:(done)) as Hr;
    destruct (read_source UPSTREAM_READ_CHUNK_BYTES s) as [[[| x chunk] | f] s'];
    try (rewrite Hr, app_nil_r; done); try done; destruct Hr as (Hc & Hs & Ha); pose proof (Ha body) as Hb;
    rewrite (mv_bytes _ _ _ _ _ Hb); cbn [app];
    (destruct (Z.ltb_spec max_body (zlen (body ++ x :: chunk))) as [Hlt | Hge];
     [split; [done |]; rewrite zlen_app; zlen_facts; lia |]); [lia |].
  specialize (IH (body ++ x :: chunk) s' ltac:(lia) Hge).
  destruct (read_to_close fuel max_body (body ++ x :: chunk) s') as [[b | []] s'']; try done.
  intros Hw. by apply IH, Hb.
Qed.
Lemma read_required_spec fuel required buffer s :
  (deliveries_size s <= fuel)%nat ->
  match read_required fuel required buffer s with
  | (Ok _, b', s') => moved [] buffer s b' s' /\ required <= zlen b' /\ exists x, b' = buffer ++ x
  | (Err (UpstreamFault _), _, _) => ~ whole s
  | (Err e, _, _) => e = UpstreamParse InvalidContentLength /\ zlen (buffer ++ arrivals s) < required
  end.
Proof.
  revert buffer s. induction fuel as [| fuel IH]; intros buffer s Hf; simpl;
    (destruct (Z.ltb_spec (zlen buffer) required) as [Hlt |]; [| split_and!; [apply moved_refl | done | exists []; by rewrite app_nil_r]]);
    pose proof (read_source_spec UPSTREAM_READ_CHUNK_BYTES s ltac:(done)) as Hr;
    destruct (read_source UPSTREAM_READ_CHUNK_BYTES s) as [[[| x chunk] | f] s'];
    try (rewrite Hr, app_nil_r; done); try done; destruct Hr as (Hc & Hs & Ha); pose proof (Ha buffer) as Hb;
    [lia |].
  specialize (IH (buffer ++ x :: chunk) s' ltac:(lia)).
  rewrite (mv_bytes _ _ _ _ _ Hb); cbn [app].
  destruct (read_required fuel required (buffer ++ x :: chunk) s') as [[[[] | []] b'] s'']; try done.
  - destruct IH as (Hm & Hreq & y & ->). split_and!; [| done | exists ((x :: chunk) ++ y); by rewrite <- app_assoc].
    apply (moved_trans [] [] _ _ _ _ _ _ Hb Hm).
  - intros Hw. by apply IH, Hb.
Qed.
Lemma read_decoded_spec lim fuel given d body s :
  chunk_limits_wf lim -> (deliveries_size s <= fuel)%nat -> fed_with lim given d body ->
  match read_decoded fuel d body s with
  | (Ok b, _) => exists decoded, chunked_spec lim ([] : list Z) (concat given ++ arrivals s) = (b, Ok (Some decoded))
  | (Err (UpstreamFault _), _) => ~ whole s
  | (Err (UpstreamParse e), _) =>
      (chunked_spec lim ([] : list Z) (concat given ++ arrivals s)).2 = Err e
      \/ (chunked_spec lim ([] : list Z) (concat given ++ arrivals s)).2 = Ok None /\ e = InvalidChunk
  | (Err _, _) => False
  end.
Proof.
  intros Hlim. revert given d body s. induction fuel as [| fuel IH]; intros given d body s Hf Hw; simpl;
    pose proof (read_source_spec UPSTREAM_READ_CHUNK_BYTES s ltac:(done)) as Hr;
    destruct (read_source UPSTREAM_READ_CHUNK_BYTES s) as [[[| x chunk] | f] s'];
    try (right; rewrite Hr, app_nil_r, (fed_spec lim Hlim _ _ _ Hw); done); try done;
    destruct Hr as (Hc & Hs & Ha); pose proof (Ha []) as Hb; [lia |].
  rewrite (mv_bytes _ _ _ _ _ Hb : arrivals s = _). cbn [app]. set (l := x :: chunk) in *.
  pose proof (push_spec lim Hlim given d body l (arrivals s') Hw) as Hp.
  change (x :: chunk ++ arrivals s') with (l ++ arrivals s').
  destruct (push_to d body l) as [d' body' [[decoded |] | e] | |]; [| | by left; rewrite Hp | done..].
  - destruct Hp as [Hp _]. eauto.
  - specialize (IH (given ++ [l]) d' body' s' ltac:(lia) Hp).
    assert (concat (given ++ [l]) ++ arrivals s' = concat given ++ l ++ arrivals s') as Ec
      by (rewrite concat_app; simpl; by rewrite app_nil_r, <- app_assoc).
    rewrite Ec in IH. destruct (read_decoded fuel d' body' s') as [[b | []] s'']; try done.
    intros Hwh. by apply IH, Hb.
Qed.

(** Limits under which no sum overflows. *)
Definition response_limits_wf (max_head max_body : Z) : Prop :=
  head_limits_wf (upstream_limits max_head) /\ chunk_limits_wf (response_chunk_limits max_body)
  /\ max_head + max_body <= USIZE_MAX.
(** Where the body comes from: the bytes after the head. *)
Lemma read_response_body_spec max_head max_body buffer head_len framing s :
  response_limits_wf max_head max_body -> 0 <= head_len <= zlen buffer -> head_len <= max_head ->
  (forall n, framing = RContentLength n -> 0 <= n) ->
  match read_response_body buffer head_len framing max_body s with
  | (Ok body, b', s') =>
      (exists rest, response_body_of max_body framing (zdrop head_len buffer ++ arrivals s) = Ok (body, rest))
      /\ (forall status, response_body_reusable b' head_len framing (zlen body) status = true ->
          moved [] buffer s b' s' /\ (exists x, b' = buffer ++ x)
          /\ forall more, response_body_of max_body framing (zdrop head_len b' ++ more) = Ok (body, more))
  | (Err (UpstreamFault _), _, _) => ~ whole s
  | (Err e, _, _) =>
      e <> UpstreamCrashed /\ response_body_of max_body framing (zdrop head_len buffer ++ arrivals s) = Err e
  end.
Proof.
  intros (Hlim & Hch & Hsum) Hh Hmax Hn. unfold response_body_reusable. destruct framing as [| n | |]; simpl.
  - split; [eauto |]. intros status. destruct (_ && _); [done |]. intros Hz%Z.eqb_eq.
    split_and!; [apply moved_refl | exists []; by rewrite app_nil_r |]. intros more. by rewrite zdrop_ge by lia.
  - specialize (Hn n eq_refl). destruct (Z.ltb_spec max_body n) as [| Hle]; [done |].
    rewrite checked_add_exact by lia. pose proof (read_required_spec (deliveries_size s) (head_len + n) buffer s ltac:(done)) as Hr.
    destruct (read_required _ _ _ _) as [[[[] | e] b'] s'].
    + destruct Hr as (Hm & Hreq & Hx). pose proof (mv_bytes _ _ _ _ _ Hm) as Hb. cbn [app] in Hb. split.
      * assert (zdrop head_len buffer ++ arrivals s = zdrop head_len b' ++ arrivals s') as ->.
        { rewrite <- !zdrop_app_le by lia. by rewrite Hb. }
        rewrite (proj2 (Z.ltb_ge _ _)) by (rewrite zlen_app, zlen_drop by lia; zlen_facts; lia).
        rewrite ztake_app_le by (rewrite zlen_drop by lia; lia). rewrite zdrop_take by lia.
        replace (head_len + n - head_len) with n by lia. eauto.
      * intros status. destruct (_ && _); [done |]. intros [_ Hz%Z.eqb_eq]%andb_true_iff. split_and!; [done | done |]. intros more.
        rewrite saturating_add_exact in Hz by lia.
        assert (zlen (zdrop head_len b') = n) as Hl by (rewrite zlen_drop by lia; lia).
        rewrite (proj2 (Z.ltb_ge _ _)) by (rewrite zlen_app; zlen_facts; lia).
        pose proof (ztake_app_exact (zdrop head_len b') more) as Et. pose proof (zdrop_app_exact (zdrop head_len b') more) as Ed.
        rewrite Hl in Et, Ed. rewrite Et, Ed, zdrop_take by lia.
        replace (head_len + n - head_len) with n by lia. by rewrite ztake_ge by lia.
    + destruct e; try done; try (by destruct Hr). destruct Hr as [[= ->] Hlt]. split; [done |].
      rewrite (proj2 (Z.ltb_lt _ _)); [done |]. rewrite zlen_app in *. rewrite zlen_drop by lia. lia.
  - set (lim := response_chunk_limits max_body) in *.
    pose proof (push_spec lim Hch [] (decoder_new lim) [] (zdrop head_len buffer) (arrivals s) eq_refl) as Hp.
    cbn [concat app] in Hp.
    destruct (push_to (decoder_new lim) [] (zdrop head_len buffer)) as [d body [[decoded |] | e] | |]; [| | by rewrite Hp | done..].
    + destruct Hp as [-> _]. split; [eauto |]. intros status. by destruct (_ && _).
    + pose proof (read_decoded_spec lim (deliveries_size s) [zdrop head_len buffer] d body s Hch ltac:(done) Hp) as Hr.
      cbn [concat] in Hr. rewrite app_nil_r in Hr.
      destruct (read_decoded _ _ _ _) as [[b | e] s'].
      * destruct Hr as [decoded ->]. split; [eauto |]. intros status. by destruct (_ && _).
      * destruct e as [e | | |]; try done. split; [done |].
        destruct (chunked_spec lim [] (zdrop head_len buffer ++ arrivals s)) as [o res]. simpl in Hr.
        by destruct Hr as [-> | [-> ->]].
  - destruct (Z.ltb_spec max_body (zlen (zdrop head_len buffer))) as [Hlt | Hle].
    { split; [done |]. rewrite (proj2 (Z.ltb_lt _ _)); [done |]. rewrite zlen_app. zlen_facts. lia. }
    pose proof (read_to_close_spec max_body (deliveries_size s) _ s ltac:(done) Hle) as Hr.
    destruct (read_to_close _ _ _ _) as [[b | e] s'].
    + destruct Hr as [-> Hb]. rewrite (proj2 (Z.ltb_ge _ _)) by done. split; [eauto |]. intros status. by destruct (_ && _).
    + destruct e; try done; try (by destruct Hr). destruct Hr as [[= ->] Hlt]. split; [done |].
      by rewrite (proj2 (Z.ltb_lt _ _)).
Qed.

(** ** Responses *)

Lemma response_scan_length headers cl coding cl' coding' :
  (forall n, cl = Some n -> 0 <= n) -> response_framing_scan headers cl coding = Ok (cl', coding') ->
  forall n, cl' = Some n -> 0 <= n.
Proof.
  revert cl coding. induction headers as [| h headers IH]; intros cl coding Hcl; cbn [response_framing_scan]; [by intros [= <- _] |].
  destruct (eq_ignore_ascii_case (h_name h) (bs "content-length")).
  - destruct (parse_uint U64_MAX (trim (h_value h))) as [k |] eqn:E; [| done]. cbn [ok_or]. destruct cl; [done |].
    apply IH. intros n [= ->]. by apply parse_uint_range in E as [? _].
  - destruct (eq_ignore_ascii_case _ _); [| by apply IH]. destruct (response_codings _ _); [| done]. by apply IH.
Qed.
Lemma response_framing_length status method headers n :
  response_body_framing status method headers = Ok (RContentLength n) -> 0 <= n.
Proof.
  unfold response_body_framing. destruct (bodiless _ _); [done |].
  destruct (response_framing_scan headers None None) as [[cl coding] |] eqn:E; [| done].
  destruct coding; [by destruct (eq_ignore_ascii_case _ _) |]. destruct cl as [k |]; [| done]. intros [= <-].
  by refine (response_scan_length headers None None _ _ _ E k eq_refl).
Qed.
Lemma response_head_max limits b head :
  head_limits_wf limits -> parse_http1_response_head b limits = Ok (Some head) -> sh_head_len head <= max_head_bytes limits.
Proof.
  intros Hlim Hp. pose proof (response_head_end limits Hlim _ _ Hp) as He. revert Hp.
  rewrite (parse_spec limits parse_http1_response_head Hlim), He.
  by destruct (Z.ltb_spec (max_head_bytes limits) (sh_head_len head)).
Qed.

Definition sample_response_bytes : list Z :=
  bs "HTTP/1.1 100 Continue" ++ crlf ++ crlf
  ++ bs "HTTP/1.1 200 OK" ++ crlf ++ bs "Content-Length: 3" ++ crlf ++ bs "X-A: b" ++ crlf
  ++ bs "Keep-Alive: timeout=5" ++ crlf ++ crlf ++ bs "abc".
Definition sample_response : NativeHttp1Response :=
  mkResponse 200 (bs "OK") [(bs "Content-Length", bs "3"); (bs "X-A", bs "b")] (Some 3) (bs "abc") false.
Definition sample_source : list Delivery :=
  ((fun x => Bytes [x]) <$> sample_response_bytes) ++ [Bytes (bs "HTTP/1.1 ")].

(** C2: the response of an upstream is the one of the byte stream, and a
    connection is used again only at its end.  Whatever pieces the bytes arrive
    in, reading ends, and unless the connection fails it ends with the response
    of the stream or with its error.  If the connection is kept for another
    request, then the bytes read from it are exactly those of the response: the
    same response is read whatever follows them, and all that follows is still
    to come. *)
Theorem upstream_response_of_stream (max_head max_body : Z) (request_method : list Z) (want_reusable : bool)
    (s : list Delivery) :
  response_limits_wf max_head max_body ->
  let limits := upstream_limits max_head in
  match read_upstream_response_inner max_head max_body request_method want_reusable s with
  | (Ok (response, reusable), s') =>
      (exists rest, response_of limits max_body request_method (arrivals s) = Ok (response, rest))
      /\ (reusable = true ->
          exists used, arrivals s = used ++ arrivals s'
            /\ forall more, response_of limits max_body request_method (used ++ more) = Ok (response, more))
  | (Err (UpstreamFault _), _) => ~ whole s
  | (Err e, _) => e <> UpstreamCrashed /\ response_of limits max_body request_method (arrivals s) = Err e
  end.
Proof.
  intros Hwf limits. pose proof Hwf as (Hlim & _). fold limits in Hlim.
  unfold read_upstream_response_inner, response_of. fold limits.
  pose proof (read_final_head_spec limits Hlim MAX_INFORMATIONAL_RESPONSES [] s) as Hh. cbn [app] in Hh.
  destruct (read_final_head _ _ _ _) as [[[head | e] b1] s1]; [| by destruct e; rewrite ?Hh].
  destruct Hh as (used & Hm & Hp & Hfin). rewrite (mv_bytes _ _ _ _ _ Hm : arrivals s = _), Hfin.
  change (let? framing := response_body_framing (sh_status head) request_method (sh_headers head) in
          let? options := http1_connection_options (sh_headers head) in
          let? directive := http1_connection_directive (sh_version head) (sh_headers head) in
          Ok (framing, options, bool_decide (directive = Close))) with (head_view request_method head).
  destruct (head_view request_method head) as [[[framing options] closes] | e] eqn:Ev; [| done].
  pose proof (response_head_len limits Hlim _ _ Hp) as Hl. rewrite zdrop_app_le by lia.
  assert (forall n, framing = RContentLength n -> 0 <= n) as Hn.
  { intros n ->. unfold head_view in Ev.
    destruct (response_body_framing _ _ _) as [f |] eqn:Ef; [| done].
    destruct (http1_connection_options _); [| done]. destruct (http1_connection_directive _ _); [| done].
    injection Ev as -> _ _. by apply response_framing_length in Ef. }
  pose proof (read_response_body_spec max_head max_body b1 (sh_head_len head) framing s1 Hwf ltac:(lia)
    (response_head_max _ _ _ Hlim Hp) Hn) as Hr.
  destruct (read_response_body _ _ _ _ _) as [[[body | e] b2] s2].
  - destruct Hr as [[rest ->] Hre]. split; [eauto |].
    intros [_ Hu]%andb_true_iff. destruct (Hre _ Hu) as (Hm2 & [x ->] & Hloc).
    exists (used ++ b1 ++ x). pose proof (mv_bytes _ _ _ _ _ Hm2) as Hb. cbn [app] in Hb. split; [by rewrite Hb, <- !app_assoc |].
    intros more. rewrite <- !app_assoc, Hfin, Ev, zdrop_app_le by lia.
    rewrite zdrop_app_le in Hloc by lia. specialize (Hloc more). rewrite <- app_assoc in Hloc. by rewrite Hloc.
  - destruct e; try (by destruct Hr as [? ->]). intros Hw. by apply Hr, Hm.
Qed.
Lemma upstream_response_of_stream_witness :
  (exists rest, response_of (upstream_limits 65536) 1000 (bs "GET") (arrivals sample_source) = Ok (sample_response, rest))
  /\ (true = true ->
      exists used, arrivals sample_source = used ++ bs "HTTP/1.1 "
        /\ forall more, response_of (upstream_limits 65536) 1000 (bs "GET") (used ++ more) = Ok (sample_response, more)).
Proof.
  assert (response_limits_wf 65536 1000) as Hwf by (by apply (bool_decide_unpack _)).
  exact (upstream_response_of_stream 65536 1000 (bs "GET") true sample_source Hwf).
Defined.
