(* ===== verification/ResponseRelay.v ===== *)
(** * The response a client receives

    A response read from an upstream and written to the client is read by the
    client as exactly one message: the same status, reason and body, the same
    end-to-end headers, and nothing left over. *)
From Stdlib Require Import ZArith Lia.
From stdpp Require Import base list numbers strings sets gmap.
From S2P Require Import Prelude Text NetAddr Http1Target Http1Head Http1Chunked Http1ChunkedSpec Http1ChunkedProps Http1HeadProps Headers RequestHeaders UpstreamRequest Transport UpstreamResponse.

(** ** Reading written heads *)

Definition status_line (status : Z) (reason : list Z) : list Z :=
  bs "HTTP/1.1 " ++ to_decimal status ++ [SP] ++ reason.
Definition response_lines (status : Z) (reason : list Z) (headers : list header) : list (list Z) :=
  status_line status reason :: (raw_line <$> headers).
Definition written_response_head (status : Z) (reason : list Z) (headers : list header) : list Z :=
  print_lines (response_lines status reason headers) ++ crlf.
(** The sizes a reader must allow. *)
Record response_fits (limits : Http1HeadLimits) (status : Z) (reason : list Z) (headers : list header) : Prop := {
  rfits_start : zlen (status_line status reason) <= max_start_line_bytes limits;
  rfits_lines : Forall (fun h => zlen (raw_line h) <= max_header_line_bytes limits) headers;
  rfits_count : zlen headers <= max_header_count limits;
  rfits_head : zlen (written_response_head status reason headers) <= max_head_bytes limits;
}.

Lemma status_digits status : 100 <= status <= 599 -> zlen (to_decimal status) = 3.
Proof.
  intros Hs. assert (forallb (fun n => zlen (to_decimal n) =? 3) (seqZ 100 500) = true) as H by (vm_compute; done).
  rewrite forallb_forall in H. apply Z.eqb_eq, H, list_elem_of_In, elem_of_seqZ. lia.
Qed.
Lemma digits_no_space n : 0 <= n -> ~ 32 ∈ to_decimal n.
Proof.
  intros Hn Hin. pose proof (to_decimal_digits n Hn) as Hf. rewrite Forall_forall in Hf. by apply Hf in Hin.
Qed.
Lemma status_line_print status reason :
  100 <= status <= 599 -> Forall (fun c => c = HT \/ 32 <= c <= 126) reason ->
  parse_status_line (status_line status reason) = Ok (Http11, status, reason) /\ line_ok (status_line status reason).
Proof.
  intros Hs Hr. split.
  - unfold parse_status_line, status_line, splitn3.
    change (bs "HTTP/1.1 " ++ ?x) with (show_version Http11 ++ 32 :: x). rewrite split_once_app by (by apply (bool_decide_unpack _)).
    change ([SP] ++ reason) with (32 :: reason). rewrite split_once_app by (apply digits_no_space; lia).
    change (default [] (head [reason])) with reason. cbv zeta.
    rewrite parse_version_show. cbn [ok_or]. rewrite status_digits by done.
    assert (forallb is_ascii_digit (to_decimal status) = true) as ->.
    { apply forallb_forall. intros c Hin%list_elem_of_In. pose proof (to_decimal_digits status ltac:(lia)) as Hf.
      rewrite Forall_forall in Hf. by apply Hf. }
    cbn [negb orb Z.eqb Pos.eqb]. rewrite parse_uint_to_decimal by (unfold U16_MAX, U64_MAX; lia). cbn [ok_or].
    assert (between 100 599 status = true) as -> by (unfold between; apply andb_true_iff; rewrite !Z.leb_le; lia).
    cbn [negb]. assert (existsb value_byte_forbidden reason = false) as ->; [| done].
    apply not_true_iff_false. intros (c & Hin%list_elem_of_In & Hc)%existsb_exists.
    rewrite Forall_forall in Hr. apply Hr in Hin. unfold value_byte_forbidden, between in Hc.
    rewrite !orb_true_iff, !andb_true_iff, !Z.leb_le in Hc. lia.
  - apply line_ok_intro; [done |]. unfold status_line. rewrite !Forall_app.
    split_and!; [by apply (bool_decide_unpack _) | | by apply (bool_decide_unpack _) | done].
    eapply Forall_impl; [by apply to_decimal_digits; lia |]. cbn. intros c Hc. unfold is_ascii_digit, between in Hc. breflect. lia.
Qed.
Lemma read_written_response limits status reason headers following :
  head_limits_wf limits -> response_fits limits status reason headers ->
  100 <= status <= 599 -> Forall (fun c => c = HT \/ 32 <= c <= 126) reason -> Forall header_ok headers ->
  parse_http1_response_head (written_response_head status reason headers ++ following) limits
  = Ok (Some (mkHttp1ResponseHead Http11 status reason (read_header <$> headers)
                (zlen (written_response_head status reason headers)))).
Proof.
  intros [Hw Hu] [Hs Hm Hc Hh] Hst Hre Hf.
  destruct (status_line_print status reason Hst Hre) as [Hr Hlr].
  assert (Forall line_ok (response_lines status reason headers)) as Hl.
  { constructor; [done |]. apply Forall_fmap. eapply Forall_impl; [exact Hf |].
    intros h Hh'. by apply read_raw_line in Hh' as (_ & ? & _). }
  unfold parse_http1_response_head. rewrite complete_head_len_spec by done. unfold written_response_head in *.
  rewrite <- (app_assoc _ crlf following), head_end_print by done. rewrite (proj2 (Z.ltb_ge _ _)) by done.
  rewrite (app_assoc _ crlf following), ztake_app_exact.
  rewrite utf8_valid_ascii by (apply Forall_app; split; [by apply print_lines_ascii | by apply (bool_decide_unpack _)]).
  simpl negb. cbv iota. rewrite split_crlf_print by done. change (split_crlf crlf) with [[]; @nil Z].
  unfold response_lines at 1. cbn [app]. rewrite (proj2 (Z.ltb_ge _ _)) by done. rewrite Hr.
  by rewrite read_raw_lines by (rewrite ?zlen_nil; done || lia).
Qed.

(** ** What a response that was read holds *)

Definition stored_ok (h : Http1Header) : Prop := header_ok (h_name h, h_value h) /\ trim (h_value h) = h_value h.
Definition reason_ok (reason : list Z) : Prop := Forall (fun c => c = HT \/ 32 <= c <= 126) reason.

Lemma split_crlf_Forall (P : Z -> Prop) s : Forall P s -> Forall (Forall P) (split_crlf s).
Proof.
  remember (length s) as n eqn:Hn. revert s Hn. induction n as [n IH] using lt_wf_ind. intros s -> Hs.
  destruct s as [| x [| y s]]; [by repeat constructor | by cbn; repeat constructor; inversion Hs |]. apply Forall_cons in Hs as [Hx Hs]. 
  change (split_crlf (x :: y :: s))
    with (if (x =? CR) && (y =? LF) then [] :: split_crlf s
          else match split_crlf (y :: s) with p :: ps => (x :: p) :: ps | [] => [[x]] end).
  pose proof (IH (length (y :: s)) ltac:(simpl; lia) (y :: s) eq_refl Hs) as H1. apply Forall_cons in Hs as [Hy Hs].
  destruct (_ && _).
  - apply Forall_cons. split; [constructor |].
    by apply (IH (length s) ltac:(simpl; lia) s eq_refl).
  - destruct (split_crlf (y :: s)) as [| p ps]; [by apply Forall_singleton, Forall_singleton |].
    apply Forall_cons in H1 as [? ?]. by repeat constructor.
Qed.
Lemma allowed_value v :
  existsb value_byte_forbidden v = false -> Forall in_u8 v -> Forall (fun c => c = HT \/ 32 <= c <= 126) v.
Proof. intros Hv. apply valid_value_bytes. unfold valid_upstream_header_value. by rewrite Hv. Qed.
Lemma parse_header_line_stored l h : parse_header_line l = Ok h -> Forall in_u8 l -> stored_ok h.
Proof.
  unfold parse_header_line, http1_header_new. destruct (split_once 58 l) as [[name value] |] eqn:E; [| done].
  apply split_once_Some in E as [-> _]. rewrite Forall_app, Forall_cons. intros H (_ & _ & Hv).
  destruct (http_token_valid name) eqn:En; [| done]. destruct (existsb value_byte_forbidden value) eqn:Ev; [done |].
  injection H as <-. unfold stored_ok, header_ok. cbn [h_name h_value fst snd].
  pose proof (forbidden_trim _ Ev) as Ht. split_and!.
  - unfold valid_upstream_request_header, valid_upstream_header_value. by rewrite En, Ht.
  - rewrite Forall_forall in Hv |- *. intros c Hc. by apply Hv, trim_sub.
  - apply trim_trimmed, trimmed_trim. eapply Forall_impl; [by apply allowed_value |]. cbn. intros; lia.
Qed.
Lemma parse_header_lines_stored limits lines headers headers' :
  parse_header_lines limits headers lines = Ok headers' ->
  Forall (Forall in_u8) lines -> Forall stored_ok headers -> Forall stored_ok headers'.
Proof.
  revert headers. induction lines as [| l lines IH]; intros headers; cbn [parse_header_lines]; [by intros [= <-] |].
  case_bool_decide; [by intros [= <-] |]. case_match; [done |]. case_match; [done |]. destruct (_ <=? _); [done |].
  destruct (parse_header_line l) as [h |] eqn:Eh; [| done]. intros Hp [Hl Hls]%Forall_cons Hf.
  apply (IH _ Hp Hls), Forall_app. split; [done |]. constructor; [by eapply parse_header_line_stored | done].
Qed.
Lemma parse_status_line_Ok line version status reason :
  parse_status_line line = Ok (version, status, reason) -> Forall in_u8 line -> 100 <= status <= 599 /\ reason_ok reason.
Proof.
  unfold parse_status_line, splitn3. intros H Hl.
  destruct (split_once 32 line) as [[p1 r1] |] eqn:E1; [| done]. apply split_once_Some in E1 as [-> _].
  rewrite Forall_app, Forall_cons in Hl. destruct Hl as (_ & _ & Hr1).
  assert (exists st rest, (st ++ rest = r1 \/ st ++ 32 :: rest = r1)
          /\ (let? version := ok_or (parse_version p1) UnsupportedVersion in
              if negb (zlen st =? 3) || negb (forallb is_ascii_digit st) then Err InvalidStatusCode
              else
                let? status := ok_or (parse_uint U16_MAX st) InvalidStatusCode in
                if negb (between 100 599 status) then Err InvalidStatusCode
                else if existsb value_byte_forbidden rest then Err InvalidResponseLine
                else Ok (version, status, rest)) = Ok (version, status, reason)) as (st & rest & Hst & H').
  { destruct (split_once 32 r1) as [[p2 r2] |] eqn:E2.
    - apply split_once_Some in E2 as [-> _]. exists p2, r2. split; [by right | exact H].
    - exists r1, []. rewrite app_nil_r. split; [by left | exact H]. }
  clear H. assert (Forall in_u8 rest) as Hrest.
  { destruct Hst as [<- | <-]; [by apply Forall_app in Hr1 as [_ ?] |]. rewrite Forall_app, Forall_cons in Hr1. apply Hr1. }
  destruct (parse_version p1); [| done]. cbn [ok_or] in H'. destruct (_ || _); [done |].
  destruct (parse_uint U16_MAX st) as [n |]; [| done]. cbn [ok_or] in H'.
  destruct (between 100 599 n) eqn:Eb; [| done]. destruct (existsb value_byte_forbidden rest) eqn:Ef; [done |].
  injection H' as _ <- <-. split; [| by apply allowed_value]. unfold between in Eb.
  rewrite andb_true_iff, !Z.leb_le in Eb. lia.
Qed.
Lemma accepted_response_head limits b head :
  head_limits_wf limits -> parse_http1_response_head b limits = Ok (Some head) -> Forall in_u8 b ->
  100 <= sh_status head <= 599 /\ reason_ok (sh_reason head) /\ Forall stored_ok (sh_headers head).
Proof.
  intros Hlim Hp Hb. revert Hp. rewrite (parse_spec limits parse_http1_response_head Hlim).
  destruct (head_end b) as [n |]; [| by destruct (_ <? _)]. destruct (_ <? _); [done |].
  cbn [hp_finish response_head_parser]. destruct (negb _); [done |].
  pose proof (split_crlf_Forall in_u8 (ztake n b) ltac:(by apply Forall_take)) as Hl.
  destruct (split_crlf (ztake n b)) as [| line lines]; [done |]. destruct (_ <? _); [done |].
  apply Forall_cons in Hl as [Hline Hlines].
  destruct (parse_status_line line) as [[[v st] r] |] eqn:Es; [| done].
  destruct (parse_header_lines limits [] lines) as [hs |] eqn:Eh; [| done]. intros [= <-]. cbn.
  apply parse_status_line_Ok in Es as [? ?]; [| done]. split; [done |]. split; [done |].
  by apply (parse_header_lines_stored _ _ _ _ Eh).
Qed.

Definition is_length (name : list Z) : bool := eq_ignore_ascii_case name (bs "content-length").
(** The fixed hop-by-hop names. *)
Definition hop_by_hop (name : list Z) : bool := existsb (eq_ignore_ascii_case name) HOP_BY_HOP_HEADERS.
(** The length a response is written with. *)
Definition shown_length (r : NativeHttp1Response) : Z := default (zlen (rp_body r)) (rp_content_length r).
(** What reading guarantees of a response to a request with a given method. *)
Record response_wf (request_method : list Z) (r : NativeHttp1Response) : Prop := {
  rw_status : 200 <= rp_status r <= 599;
  rw_reason : reason_ok (rp_reason r);
  rw_headers : Forall (fun h => header_ok h /\ trim h.2 = h.2 /\ hop_by_hop h.1 = false) (rp_headers r);
  rw_length : forall n, rp_content_length r = Some n -> 0 <= n <= U64_MAX;
  rw_body : if bodiless (rp_status r) request_method then rp_body r = [] else shown_length r = zlen (rp_body r);
}.

Lemma scan_lengths headers cl coding cl' coding' :
  response_framing_scan headers cl coding = Ok (cl', coding') ->
  (is_Some cl -> cl' = cl)
  /\ Forall (fun h => is_length (h_name h) = true -> parse_uint U64_MAX (trim (h_value h)) = cl') headers.
Proof.
  revert cl coding. induction headers as [| h headers IH]; intros cl coding; cbn [response_framing_scan]; [by intros [= -> _] |].
  fold (is_length (h_name h)). rewrite Forall_cons. destruct (is_length (h_name h)).
  - destruct (parse_uint U64_MAX (trim (h_value h))) as [k |]; [| done]. cbn [ok_or]. destruct cl; [done |].
    intros [H1 H2]%IH. split; [by intros [] |]. split; [intros _; symmetry; by apply H1 | done].
  - destruct (eq_ignore_ascii_case (h_name h) _).
    + destruct (response_codings _ _); [| done]. by intros [H1 H2]%IH.
    + by intros [H1 H2]%IH.
Qed.
Lemma kept_length (keep : Http1Header -> bool) headers cl :
  Forall (fun h => keep h = true -> is_length (h_name h) = true -> parse_uint U64_MAX (trim (h_value h)) = cl) headers ->
  response_content_length ((fun h => (h_name h, h_value h)) <$> List.filter keep headers) ∈ [None; cl].
Proof.
  intros Hf. unfold response_content_length.
  destruct (List.find _ _) as [[n v] |] eqn:E; [| by apply list_elem_of_In; left].
  apply find_some in E as [(h & [= -> ->] & Hin)%list_elem_of_In%list_elem_of_fmap Hn].
  apply list_elem_of_In, filter_In in Hin as [Hin Hk]. rewrite Forall_forall in Hf.
  rewrite (Hf h (proj2 (list_elem_of_In _ _) Hin) Hk Hn). apply list_elem_of_In. right. by left.
Qed.
Lemma kept_length_range headers n : response_content_length headers = Some n -> 0 <= n <= U64_MAX.
Proof. unfold response_content_length. destruct (List.find _ _) as [[? v] |]; [| done]. by intros ?%parse_uint_range. Qed.
Lemma response_length status request_method headers framing options max_body stream body rest :
  response_body_framing status request_method headers = Ok framing ->
  response_body_of max_body framing stream = Ok (body, rest) -> (forall n, framing = RContentLength n -> 0 <= n) ->
  let kept := (fun h => (h_name h, h_value h))
                <$> List.filter (fun h => response_header_allowed (h_name h) framing options) headers in
  if bodiless status request_method then body = [] else default (zlen body) (response_content_length kept) = zlen body.
Proof.
  unfold response_body_framing. destruct (bodiless status request_method).
  { intros [= <-]. cbn. by intros [= <- _]. }
  destruct (response_framing_scan headers None None) as [[cl coding] |] eqn:E; [| done].
  apply scan_lengths in E as [_ Hf]. intros Hframing Hb Hn. cbv zeta. set (kept := fmap _ _).
  assert (response_content_length kept ∈ [None; match framing with RContentLength n => Some n | _ => None end]) as Hk.
  { apply kept_length. eapply Forall_impl; [exact Hf |]. cbn. intros h Hh Hkeep Hl. specialize (Hh Hl). rewrite Hh.
    destruct coding as [c |]; [| destruct cl; by injection Hframing as <-].
    destruct (eq_ignore_ascii_case c _); [| done]. injection Hframing as <-. unfold response_header_allowed in Hkeep.
    unfold is_length in Hl. by rewrite Hl, orb_true_r in Hkeep. }
  apply list_elem_of_In in Hk as [<- | [<- | []]]; [done |]. destruct framing as [| n | |]; try done. cbn in Hb |- *.
  destruct (_ <? _); [done |]. destruct (Z.ltb_spec (zlen stream) n); [done |]. injection Hb as <- _.
  specialize (Hn n eq_refl). rewrite zlen_take by lia. lia.
Qed.

Lemma final_head_parsed allowed limits stream head rest :
  final_head_of allowed limits stream = Ok (head, rest) -> Forall in_u8 stream ->
  parse_http1_response_head rest limits = Ok (Some head) /\ 200 <= sh_status head /\ Forall in_u8 rest.
Proof.
  revert stream. induction allowed as [| allowed IH]; intros stream; cbn [final_head_of];
    unfold first_head, head_of; destruct (parse_http1_response_head stream limits) as [[h |] |] eqn:Ep;
    try (by destruct (_ <=? _)); try done; (destruct (_ =? 101); [done |]);
    (destruct (Z.leb_spec 200 (sh_status h)); [by intros [= <- <-] |]); [done |].
  intros H' Hu. apply IH in H'; [done |]. by apply Forall_drop.
Qed.
Lemma response_of_wf limits max_body request_method stream response rest :
  head_limits_wf limits -> response_of limits max_body request_method stream = Ok (response, rest) ->
  Forall in_u8 stream -> response_wf request_method response.
Proof.
  intros Hlim H Hu. unfold response_of, head_view in H.
  destruct (final_head_of _ _ _) as [[head stream'] |] eqn:Eh; [| done].
  apply final_head_parsed in Eh as (Hp & Hs & Hu'); [| done].
  destruct (response_body_framing _ _ _) as [framing |] eqn:Ef; [| done].
  destruct (http1_connection_options _) as [options |]; [| done]. destruct (http1_connection_directive _ _); [| done].
  destruct (response_body_of _ _ _) as [[body rest'] |] eqn:Eb; [| done]. injection H as <- _.
  destruct (accepted_response_head _ _ _ Hlim Hp Hu') as (Hst & Hr & Hh). unfold response_from_head.
  split; cbn [rp_status rp_reason rp_headers rp_content_length rp_body]; [lia | done | | apply kept_length_range |].
  - apply Forall_fmap, Forall_forall. intros h [Hin Ha]%list_elem_of_In%filter_In.
    rewrite Forall_forall in Hh. apply list_elem_of_In, Hh in Hin as [Hok Ht]. split_and!; [apply Hok.. | done |].
    unfold response_header_allowed, identifies_hop_by_hop_header in Ha. cbn [fst].
    change (existsb (fun candidate => eq_ignore_ascii_case (h_name h) candidate) HOP_BY_HOP_HEADERS)
      with (hop_by_hop (h_name h)) in Ha.
    by destruct (hop_by_hop (h_name h)); rewrite ?orb_true_r in Ha.
  - unfold shown_length. cbn [rp_content_length rp_body]. eapply response_length; [exact Ef | exact Eb |].
    intros n ->. by apply response_framing_length in Ef.
Qed.

(** ** What is written *)

(** The headers the client is sent. *)
Definition relayed_headers (date : list Z) (response : NativeHttp1Response) (close : bool) : list header :=
  [(bs "Date", date); (bs "Content-Length", to_decimal (shown_length response));
   (bs "Connection", if close then bs "close" else bs "keep-alive")]
  ++ List.filter (fun h => negb (writer_owned h.1)) (rp_headers response).

Lemma write_then_all b w : write_all b #> w = (b ++ w.1, w.2).
Proof. done. Qed.
Lemma sanitized reason : reason_ok reason -> sanitize_reason_phrase reason = reason.
Proof.
  induction 1 as [| c reason Hc _ IH]; [done |]. cbn [sanitize_reason_phrase List.filter].
  fold (sanitize_reason_phrase reason). rewrite IH.
  assert ((c =? 9) || between 32 126 c = true) as ->; [| done].
  unfold between. rewrite orb_true_iff, andb_true_iff, Z.eqb_eq, !Z.leb_le. lia.
Qed.
Lemma response_headers_written headers :
  Forall header_ok headers ->
  write_response_headers headers
  = (print_lines (raw_line <$> List.filter (fun h => negb (writer_owned h.1)) headers), Ok tt).
Proof.
  induction 1 as [| [name value] headers [Hv _] _ IH]; [done |]. cbn [write_response_headers List.filter fst].
  destruct (writer_owned name); [done |]. cbn [negb]. cbn [fst snd] in Hv.
  change (valid_response_header name value) with (valid_upstream_request_header name value). rewrite Hv. cbn [negb].
  unfold write_line. rewrite write_then_all, IH, fmap_cons, print_lines_cons. done.
Qed.
Lemma response_written date response close request_method :
  response_wf request_method response ->
  write_response date response close
  = (written_response_head (rp_status response) (rp_reason response) (relayed_headers date response close)
     ++ rp_body response, Ok tt).
Proof.
  intros Hw. unfold write_response, write_line. rewrite sanitized by apply Hw.
  rewrite response_headers_written by (eapply Forall_impl; [apply Hw |]; cbn; tauto).
  rewrite !write_then_all. cbn [fst snd write_then write_all]. f_equal.
  unfold written_response_head, response_lines, relayed_headers. rewrite print_lines_cons, fmap_app, print_lines_app.
  cbn [fmap list_fmap]. rewrite !print_lines_cons. unfold raw_line, status_line. cbn [fst snd].
  change (print_lines []) with (@nil Z). rewrite app_nil_r.
  destruct close; rewrite <- ?app_assoc; done.
Qed.

(** ** What the client reads *)

Section Client.
Context (date : list Z) (response : NativeHttp1Response) (close : bool) (request_method : list Z).
Context (Hdate : header_ok (bs "Date", date) /\ trim date = date).
Context (Hlen : zlen (rp_body response) <= U64_MAX) (Hwf : response_wf request_method response).

(** What the client keeps: its own view of hop-by-hop headers drops the
    connection header, and a header called [close] when that header says so. *)
Definition client_headers : list header :=
  [(bs "Date", date); (bs "Content-Length", to_decimal (shown_length response))]
  ++ List.filter (fun h => negb (writer_owned h.1) && negb (close && eq_ignore_ascii_case h.1 (bs "close")))
       (rp_headers response).
Definition client_response : NativeHttp1Response :=
  mkResponse (rp_status response) (rp_reason response) client_headers (Some (shown_length response))
    (rp_body response) false.

Local Abbreviation passing := (List.filter (fun h => negb (writer_owned h.1)) (rp_headers response)).
Local Abbreviation parsed := (fun h : header => mkHttp1Header h.1 h.2).

Lemma shown_range : 0 <= shown_length response <= U64_MAX.
Proof using Hwf Hlen.
  unfold shown_length. destruct (rp_content_length response) as [n |] eqn:E; [by apply Hwf |].
  cbn. pose proof (zlen_nonneg (rp_body response)). lia.
Qed.
Lemma shown_trim : trim (to_decimal (shown_length response)) = to_decimal (shown_length response).
Proof using Hwf Hlen. apply address_trim. split; [apply to_decimal_not_nil | apply digits_address]. Qed.
Lemma passing_facts :
  Forall (fun h => header_ok h /\ trim h.2 = h.2 /\ hop_by_hop h.1 = false /\ writer_owned h.1 = false) passing.
Proof using Hwf.
  apply Forall_forall. intros h [Hin Ho]%list_elem_of_In%filter_In. apply negb_true_iff in Ho.
  pose proof (rw_headers _ _ Hwf) as Hf. rewrite Forall_forall in Hf. by apply list_elem_of_In, Hf in Hin as (? & ? & ?).
Qed.
Lemma relayed_ok : Forall header_ok (relayed_headers date response close).
Proof using Hdate Hwf Hlen.
  apply Forall_app. split; [| eapply Forall_impl; [exact passing_facts | by intros h [? _]]].
  apply Forall_cons. split; [apply Hdate |]. apply Forall_cons. split; [| apply Forall_singleton].
  - split; cbn [fst snd].
    + unfold valid_upstream_request_header. by rewrite digits_valid by apply shown_range.
    + eapply Forall_impl; [by apply to_decimal_digits, shown_range |]. cbv beta. intros c Hc.
      unfold is_ascii_digit, between in Hc. unfold in_u8, U8_MAX. breflect. lia.
  - clear. destruct close; (split; [reflexivity | by apply (bool_decide_unpack _)]).
Qed.
Lemma relayed_read :
  read_header <$> relayed_headers date response close = parsed <$> relayed_headers date response close.
Proof using Hdate Hwf Hlen.
  apply list_fmap_ext. intros i h Hh%list_elem_of_lookup_2. unfold read_header. f_equal. revert Hh.
  unfold relayed_headers. rewrite elem_of_app, !elem_of_cons. intros [[-> | [-> | [-> | Hn]]] | Hh]; cbn [snd].
  - apply Hdate.
  - apply shown_trim.
  - by destruct close.
  - by apply not_elem_of_nil in Hn.
  - pose proof passing_facts as Hf. rewrite Forall_forall in Hf. by apply Hf.
Qed.

Lemma scan_plain headers cl :
  Forall (fun h => is_length h.1 = false /\ eq_ignore_ascii_case h.1 (bs "transfer-encoding") = false) headers ->
  response_framing_scan (parsed <$> headers) cl None = Ok (cl, None).
Proof using Type.
  induction 1 as [| h headers [Hl Ht] _ IH]; [done |]. cbn [fmap list_fmap response_framing_scan h_name].
  unfold is_length in Hl. by rewrite Hl, Ht.
Qed.
Lemma connection_plain options headers :
  Forall (fun h => eq_ignore_ascii_case h.1 (bs "connection") = false) headers ->
  connection_scan options (parsed <$> headers) = Ok options.
Proof using Type.
  induction 1 as [| h headers Hc _ IH]; [done |]. cbn [fmap list_fmap connection_scan h_name]. by rewrite Hc.
Qed.
Lemma passing_names h : h ∈ passing ->
  is_length h.1 = false /\ eq_ignore_ascii_case h.1 (bs "transfer-encoding") = false
  /\ eq_ignore_ascii_case h.1 (bs "connection") = false.
Proof using Hwf.
  pose proof passing_facts as Hf. rewrite Forall_forall in Hf. intros (_ & _ & Hh & Ho)%Hf.
  unfold writer_owned in Ho. apply orb_false_iff in Ho as [[Hl Hc]%orb_false_iff _].
  split; [done |]. split; [| done]. apply not_true_iff_false. intros Ht.
  assert (hop_by_hop h.1 = true); [| congruence]. apply existsb_exists.
  exists (bs "transfer-encoding"). split; [| done]. by apply list_elem_of_In, (bool_decide_unpack _).
Qed.

Local Abbreviation connection_word := (if close then bs "close" else bs "keep-alive").
Local Abbreviation client_framing :=
  (if bodiless (rp_status response) request_method then RNoBody else RContentLength (shown_length response)).

Lemma client_view head_len :
  exists directive,
  head_view request_method
    (mkHttp1ResponseHead Http11 (rp_status response) (rp_reason response)
       (parsed <$> relayed_headers date response close) head_len)
  = Ok (client_framing, {[connection_word]} ∪ ∅, directive).
Proof using Hwf Hlen.
  assert (http1_connection_options (parsed <$> relayed_headers date response close) = Ok ({[connection_word]} ∪ ∅)) as Ec.
  { unfold http1_connection_options, relayed_headers. rewrite fmap_app. cbn [fmap list_fmap app connection_scan h_name].
    change (eq_ignore_ascii_case (bs "Date") (bs "connection")) with false.
    change (eq_ignore_ascii_case (bs "Content-Length") (bs "connection")) with false.
    change (eq_ignore_ascii_case (bs "Connection") (bs "connection")) with true. cbn [negb h_value fst snd].
    assert (connection_tokens ∅ (split_byte 44 connection_word) = Ok ({[connection_word]} ∪ ∅)) as ->
      by (clear; by destruct close).
    apply connection_plain, Forall_forall. intros h Hh. by apply passing_names. }
  unfold head_view. cbn [sh_status sh_headers sh_version].
  assert (response_body_framing (rp_status response) request_method (parsed <$> relayed_headers date response close)
          = Ok client_framing) as ->.
  { unfold response_body_framing. destruct (bodiless _ _); [done |]. unfold relayed_headers. rewrite fmap_app.
    cbn [fmap list_fmap app response_framing_scan h_name h_value fst snd].
    change (eq_ignore_ascii_case (bs "Date") (bs "content-length")) with false.
    change (eq_ignore_ascii_case (bs "Date") (bs "transfer-encoding")) with false.
    change (eq_ignore_ascii_case (bs "Content-Length") (bs "content-length")) with true.
    change (eq_ignore_ascii_case (bs "Connection") (bs "content-length")) with false.
    change (eq_ignore_ascii_case (bs "Connection") (bs "transfer-encoding")) with false. cbv iota.
    rewrite shown_trim, parse_uint_to_decimal by apply shown_range. cbn [ok_or].
    rewrite scan_plain; [done |]. apply Forall_forall. intros h Hh. split; by apply passing_names. }
  unfold http1_connection_directive. rewrite Ec. cbv iota beta.
  destruct (options_contains _ _); [eauto |]. destruct (_ || _); eauto.
Qed.

Lemma allowed_plain name : client_framing <> RChunked ->
  response_header_allowed name client_framing ({[connection_word]} ∪ ∅)
  = negb (eq_ignore_ascii_case name connection_word || hop_by_hop name).
Proof using Type.
  intros Hf. unfold response_header_allowed, identifies_hop_by_hop_header, options_contains.
  assert (match client_framing with RChunked => eq_ignore_ascii_case name (bs "content-length") | _ => false end = false)
    as -> by (by destruct (bodiless _ _)).
  rewrite orb_false_r. f_equal. f_equal. apply eq_true_iff_eq. rewrite bool_decide_eq_true, eq_ignore_ascii_case_true.
  assert (to_ascii_lowercase connection_word = connection_word) as -> by (by destruct close).
  clear Hwf Hlen Hdate. set_solver.
Qed.
Lemma client_kept :
  List.filter (fun h => response_header_allowed h.1 client_framing ({[connection_word]} ∪ ∅)) (relayed_headers date response close)
  = client_headers.
Proof using Hwf.
  assert (client_framing <> RChunked) as Hf by (by destruct (bodiless _ _)).
  rewrite (list_filter_ext _ (fun h => negb (eq_ignore_ascii_case h.1 connection_word || hop_by_hop h.1)))
    by (intros h; by apply allowed_plain).
  unfold relayed_headers, client_headers. rewrite List.filter_app. f_equal; [by destruct close |].
  rewrite <- list_filter_filter. apply List.filter_ext_in. intros h Hin%list_elem_of_In.
  pose proof passing_facts as Hp. rewrite Forall_forall in Hp. destruct (Hp h Hin) as (_ & _ & Hh & _).
  rewrite Hh, orb_false_r. destruct close; [done |].
  assert (eq_ignore_ascii_case h.1 (bs "keep-alive") = false) as ->; [| done]. apply not_true_iff_false. intros Hk.
  assert (hop_by_hop h.1 = true); [| congruence]. apply existsb_exists. exists (bs "keep-alive").
  split; [| done]. by apply list_elem_of_In, (bool_decide_unpack _).
Qed.
Lemma client_from_head head_len :
  response_from_head
    (mkHttp1ResponseHead Http11 (rp_status response) (rp_reason response)
       (parsed <$> relayed_headers date response close) head_len)
    client_framing ({[connection_word]} ∪ ∅) (rp_body response)
  = client_response.
Proof using Hwf Hlen.
  unfold response_from_head, client_response. cbn [sh_headers sh_status sh_reason].
  assert ((fun h => (h_name h, h_value h))
          <$> List.filter (fun h => response_header_allowed (h_name h) client_framing ({[connection_word]} ∪ ∅))
                (parsed <$> relayed_headers date response close) = client_headers) as ->.
  { rewrite <- client_kept. generalize (relayed_headers date response close). intros hs.
    induction hs as [| [n v] hs IH]; [done |]. cbn [fmap list_fmap List.filter h_name fst].
    destruct (response_header_allowed n _ _); [| done]. cbn [fmap list_fmap h_name h_value fst snd]. by rewrite <- IH. }
  f_equal. unfold response_content_length, client_headers. cbn [app List.find fst].
  change (eq_ignore_ascii_case (bs "Date") (bs "content-length")) with false.
  change (eq_ignore_ascii_case (bs "Content-Length") (bs "content-length")) with true. cbv iota.
  by rewrite shown_trim, parse_uint_to_decimal by apply shown_range.
Qed.
End Client.

Definition sample_client_limits : Http1HeadLimits := upstream_limits 65536.
Definition sample_date : list Z := bs "Sun, 06 Nov 1994 08:49:37 GMT".

(** A response that is written is read back as one message. *)
Lemma written_response_read (limits' : Http1HeadLimits) (max_body' : Z) (request_method date more : list Z)
    (response : NativeHttp1Response) (close : bool) :
  response_wf request_method response ->
  header_ok (bs "Date", date) /\ trim date = date ->
  head_limits_wf limits' ->
  response_fits limits' (rp_status response) (rp_reason response) (relayed_headers date response close) ->
  zlen (rp_body response) <= max_body' -> zlen (rp_body response) <= U64_MAX ->
  exists bytes,
    write_response date response close = (bytes, Ok tt)
    /\ response_of limits' max_body' request_method (bytes ++ more)
       = Ok (client_response date response close, more).
Proof.
  intros Hwf Hd Hlim' Hfit Hmax Hlen. pose proof (rw_status _ _ Hwf) as Hs.
  eexists. split; [by eapply response_written |].
  pose proof (read_written_response limits' _ _ _ [] Hlim' Hfit ltac:(lia) (rw_reason _ _ Hwf)
    (relayed_ok _ _ _ _ Hd Hlen Hwf)) as Hp.
  rewrite app_nil_r, (relayed_read _ _ _ _ Hd Hlen Hwf) in Hp.
  rewrite <- app_assoc. unfold response_of. change MAX_INFORMATIONAL_RESPONSES with 8%nat. cbn [final_head_of].
  rewrite (first_head_settled limits' Hlim' _ _ _ Hp). cbn [sh_status].
  rewrite (proj2 (Z.eqb_neq _ _)), (proj2 (Z.leb_le _ _)) by lia.
  destruct (client_view date response close request_method Hlen Hwf
    (zlen (written_response_head (rp_status response) (rp_reason response) (relayed_headers date response close))))
    as [directive ->].
  cbn [sh_head_len]. rewrite zdrop_app_exact.
  pose proof (rw_body _ _ Hwf) as Hb. pose proof (client_from_head date response close request_method Hlen Hwf) as Hc.
  destruct (bodiless (rp_status response) request_method).
  - cbn [response_body_of]. rewrite Hb in Hc |- *. by rewrite Hc.
  - cbn [response_body_of]. rewrite Hb in Hc |- *. rewrite (proj2 (Z.ltb_ge _ _)) by lia.
    rewrite (proj2 (Z.ltb_ge _ _)) by (pose proof (zlen_nonneg more); rewrite zlen_app; lia).
    rewrite ztake_app_exact, zdrop_app_exact. by rewrite Hc.
Qed.

(** C3: the client receives the upstream's response, and nothing else.  A
    response read from any bytes of an upstream is always written, and whatever
    follows on the connection, a client that asked with the same method reads
    it back as one message: the same status, reason and body, the same
    end-to-end headers in their order, the proxy's date and a length that is
    the body's wherever there is one; and it stops exactly where the next
    message starts. *)
Theorem response_relayed (limits limits' : Http1HeadLimits) (max_body max_body' : Z)
    (request_method stream rest date more : list Z) (response : NativeHttp1Response) (close : bool) :
  head_limits_wf limits -> Forall in_u8 stream ->
  response_of limits max_body request_method stream = Ok (response, rest) ->
  header_ok (bs "Date", date) /\ trim date = date ->
  head_limits_wf limits' ->
  response_fits limits' (rp_status response) (rp_reason response) (relayed_headers date response close) ->
  zlen (rp_body response) <= max_body' -> zlen (rp_body response) <= U64_MAX ->
  exists bytes,
    write_response date response close = (bytes, Ok tt)
    /\ response_of limits' max_body' request_method (bytes ++ more)
       = Ok (client_response date response close, more).
Proof.
  intros Hlim Hu Hr. eapply written_response_read, response_of_wf; eassumption.
Qed.

Lemma response_relayed_witness :
  exists bytes,
    write_response sample_date sample_response false = (bytes, Ok tt)
    /\ response_of sample_client_limits 1000 (bs "GET") (bytes ++ bs "HTTP/1.1 404")
       = Ok (mkResponse 200 (bs "OK") [(bs "Date", sample_date); (bs "Content-Length", bs "3"); (bs "X-A", bs "b")]
               (Some 3) (bs "abc") false, bs "HTTP/1.1 404").
Proof.
  apply (response_relayed (upstream_limits 65536) sample_client_limits 1000 1000 (bs "GET") sample_response_bytes []
    sample_date (bs "HTTP/1.1 404") sample_response false).
  - by apply (bool_decide_unpack _).
  - by apply (bool_decide_unpack _).
  - by vm_compute.
  - split; [split; [by vm_compute | by apply (bool_decide_unpack _)] | by vm_compute].
  - by apply (bool_decide_unpack _).
  - split; [by vm_compute | by apply (bool_decide_unpack _) | by vm_compute | by vm_compute].
  - by vm_compute.
  - by vm_compute.
Defined.

(** A length nobody stated: the answer to a HEAD request whose origin does not
    give the length, because the body would be sent in chunks, is written with
    length zero. *)
Lemma head_length_invented :
  let head := bs "HTTP/1.1 200 OK" ++ crlf ++ bs "Transfer-Encoding: chunked" ++ crlf ++ crlf in
  let response := mkResponse 200 (bs "OK") [] None [] false in
  response_of (upstream_limits 65536) 1000 (bs "HEAD") head = Ok (response, [])
  /\ relayed_headers sample_date response false
     = [(bs "Date", sample_date); (bs "Content-Length", bs "0"); (bs "Connection", bs "keep-alive")].
Proof. by vm_compute. Qed.
