(* ===== verification/BodyBudget.v ===== *)
(** * The budget of request-body memory ([request_body_budget.rs], [native_http1/body.rs])

    A counting semaphore in units of 64 KiB is shared by all connections.  A
    reservation takes units before a body buffer is allocated; while a buffer is
    exchanged for a larger one both exist, and the reservation takes the
    overlap for that time.  The semaphore itself is the environment: an
    acquisition may be refused at any time, because it waits only so long, and
    it is granted only when the units are there.  Allocation does not fail. *)
From Stdlib Require Import ZArith Lia.
From stdpp Require Import base list numbers.
From S2P Require Import Prelude Http1Target.

(** ** Reservations *)

Definition BODY_BUDGET_UNIT_BYTES : Z := 65536.
Definition div_ceil (a b : Z) : Z := a / b + (if a mod b =? 0 then 0 else 1).
(** [NativeRequestBodyBudget::new]: the permits of the semaphore. *)
Definition budget_units (max_bytes : Z) : Z :=
  Z.min (Z.max (div_ceil max_bytes BODY_BUDGET_UNIT_BYTES) 1) U32_MAX.

(** [NativeRequestBodyReservation] *)
Record Reservation : Type := mkReservation {
  rs_max_bytes : Z;
  rs_reserved_units : Z;
  rs_permits : list Z;
}.
Definition reservation (max_bytes : Z) : Reservation := mkReservation max_bytes 0 [].

Inductive BudgetError : Type := WouldBlock | BudgetOther.
(** The units a reservation lacks for a number of bytes. *)
Definition additional_units (r : Reservation) (bytes : Z) : result Z BudgetError :=
  if rs_max_bytes r <? bytes then Err WouldBlock
  else
    let required_units := div_ceil bytes BODY_BUDGET_UNIT_BYTES in
    if U32_MAX <? required_units then Err BudgetOther
    else Ok (saturating_sub required_units (rs_reserved_units r)).

(** What can go wrong with the memory of a body. *)
Inductive BodyError : Type :=
| BodyParse (e : Http1ParseError)
| BodyIo (e : BudgetError).

Definition READ_CHUNK_BYTES : Z := 8192.
(** [reserve_chunked_body_growth] up to the reservation: nothing when the
    buffer is large enough, otherwise the new capacity. *)
Definition growth_target (len possible_growth capacity max_body_bytes : Z) : result (option Z) BodyError :=
  match checked_add USIZE_MAX len possible_growth with
  | None => Err (BodyParse BodyTooLarge)
  | Some total =>
      let required := Z.min total max_body_bytes in
      if required <=? capacity then Ok None
      else
        let geometric := saturating_mul USIZE_MAX (Z.max capacity READ_CHUNK_BYTES) 2 in
        Ok (Some (Z.min (Z.max required geometric) max_body_bytes))
  end.

Section Budget.
Context {W : Type} (acquire : Z -> W -> bool * W).

Definition grow_to (r : Reservation) (bytes : Z) (w : W) : Reservation * result () BudgetError * W :=
  match additional_units r bytes with
  | Err e => (r, Err e, w)
  | Ok additional =>
      if additional =? 0 then (r, Ok (), w)
      else
        match acquire additional w with
        | (false, w) => (r, Err WouldBlock, w)
        | (true, w) =>
            (mkReservation (rs_max_bytes r) (div_ceil bytes BODY_BUDGET_UNIT_BYTES)
               (rs_permits r ++ [additional]), Ok (), w)
        end
  end.
Definition reserve (max_bytes bytes : Z) (w : W) : Reservation * result () BudgetError * W :=
  grow_to (reservation max_bytes) bytes w.
(** The permits of the overlap, none when the reservation covers it. *)
Definition reserve_overlap (r : Reservation) (total_bytes : Z) (w : W) : result (option Z) BudgetError * W :=
  match additional_units r total_bytes with
  | Err e => (Err e, w)
  | Ok additional =>
      if additional =? 0 then (Ok None, w)
      else
        match acquire additional w with
        | (false, w) => (Err WouldBlock, w)
        | (true, w) => (Ok (Some additional), w)
        end
  end.

(** Admission of a second buffer of [required] bytes beside one of [capacity]:
    for a body of known length, whose reservation has been made, ... *)
Definition admit_beside (r : Reservation) (required capacity : Z) (w : W) : result (option Z) BodyError * W :=
  match checked_add USIZE_MAX required capacity with
  | None => (Err (BodyParse BodyTooLarge), w)
  | Some overlap_bytes =>
      match reserve_overlap r overlap_bytes w with
      | (Err e, w) => (Err (BodyIo e), w)
      | (Ok overlap, w) => (Ok overlap, w)
      end
  end.
(** ... and for a chunked body, whose reservation grows first. *)
Definition admit_growth (r : Reservation) (admitted capacity : Z) (w : W)
    : Reservation * result (option Z) BodyError * W :=
  match grow_to r admitted w with
  | (r, Err e, w) => (r, Err (BodyIo e), w)
  | (r, Ok _, w) => let '(overlap, w) := admit_beside r admitted capacity w in (r, overlap, w)
  end.
End Budget.

(** ** All connections together *)

(** The memory of a body: one buffer, or two while they are exchanged. *)
Inductive Memory : Type :=
| Settled (capacity : Z)
| Exchanging (fresh old : Z) (overlap : option Z).
(** A request being read: the bytes it declared, its reservation and buffer. *)
Record Holder : Type := mkHolder {
  ho_declared : Z;
  ho_reservation : Reservation;
  ho_memory : Memory;
}.
Record BodyPool : Type := mkBodyPool { pl_available : Z; pl_holders : list Holder }.
Definition body_pool_new (max_bytes : Z) : BodyPool := mkBodyPool (budget_units max_bytes) [].

(** The shared semaphore: units are granted only if they are there, and only if
    they come in time.  With the answers of the coming waits. *)
Definition take_permits (n : Z) (w : Z * list bool) : bool * (Z * list bool) :=
  match w with
  | (available, in_time :: waits) =>
      if in_time && (n <=? available) then (true, (available - n, waits)) else (false, (available, waits))
  | (available, []) => (false, (available, []))
  end.

(** What the tasks of the connections do to the pool, in any order. *)
Inductive PoolEvent : Type :=
| PoolReserve (bytes : Z) (waits : list bool)
| PoolLength (i : nat) (capacity : Z) (waits : list bool)
| PoolGrow (i : nat) (len possible_growth : Z) (waits : list bool)
| PoolSettle (i : nat)
| PoolRelease (i : nat).

Definition zsum (l : list Z) : Z := foldr Z.add 0 l.
Definition overlap_units (overlap : option Z) : Z := default 0 overlap.
Definition body_pool_step (max_bytes max_body : Z) (ev : PoolEvent) (p : BodyPool) : option BodyPool :=
  match ev with
  | PoolReserve bytes waits =>
      match reserve take_permits max_bytes bytes (pl_available p, waits) with
      | (r, Ok _, (available, _)) => Some (mkBodyPool available (mkHolder bytes r (Settled 0) :: pl_holders p))
      | (_, Err _, (available, _)) => Some (mkBodyPool available (pl_holders p))
      end
  | PoolLength i capacity waits =>
      match pl_holders p !! i with
      | Some (mkHolder declared r (Settled 0)) =>
          match admit_beside take_permits r declared capacity (pl_available p, waits) with
          | (Ok overlap, (available, _)) =>
              Some (mkBodyPool available (<[i := mkHolder declared r (Exchanging declared capacity overlap)]> (pl_holders p)))
          | (Err _, (available, _)) => Some (mkBodyPool available (pl_holders p))
          end
      | _ => None
      end
  | PoolGrow i len possible_growth waits =>
      match pl_holders p !! i with
      | Some (mkHolder declared r (Settled capacity)) =>
          match growth_target len possible_growth capacity max_body with
          | Ok (Some admitted) =>
              match admit_growth take_permits r admitted capacity (pl_available p, waits) with
              | (r, Ok overlap, (available, _)) =>
                  Some (mkBodyPool available (<[i := mkHolder declared r (Exchanging admitted capacity overlap)]> (pl_holders p)))
              | (r, Err _, (available, _)) =>
                  Some (mkBodyPool available (<[i := mkHolder declared r (Settled capacity)]> (pl_holders p)))
              end
          | _ => Some p
          end
      | _ => None
      end
  | PoolSettle i =>
      match pl_holders p !! i with
      | Some (mkHolder declared r (Exchanging fresh _ overlap)) =>
          Some (mkBodyPool (pl_available p + overlap_units overlap)
                  (<[i := mkHolder declared r (Settled fresh)]> (pl_holders p)))
      | _ => None
      end
  | PoolRelease i =>
      match pl_holders p !! i with
      | Some (mkHolder _ r (Settled _)) =>
          Some (mkBodyPool (pl_available p + zsum (rs_permits r)) (delete i (pl_holders p)))
      | _ => None
      end
  end.
Fixpoint body_pool_run (max_bytes max_body : Z) (events : list PoolEvent) (p : BodyPool) : option BodyPool :=
  match events with
  | [] => Some p
  | ev :: events => p' ← body_pool_step max_bytes max_body ev p; body_pool_run max_bytes max_body events p'
  end.

(** ** Bounds *)

Lemma div_ceil_spec a b : 0 < b -> a <= b * div_ceil a b < a + b.
Proof.
  intros Hb. unfold div_ceil. pose proof (Z.div_mod a b ltac:(lia)). pose proof (Z.mod_pos_bound a b Hb).
  destruct (Z.eqb_spec (a mod b) 0); nia.
Qed.
Lemma additional_units_Ok r bytes n :
  additional_units r bytes = Ok n ->
  0 <= n /\ bytes <= BODY_BUDGET_UNIT_BYTES * (rs_reserved_units r + n)
  /\ (n = 0 \/ div_ceil bytes BODY_BUDGET_UNIT_BYTES = rs_reserved_units r + n).
Proof.
  unfold additional_units, saturating_sub. pose proof (div_ceil_spec bytes BODY_BUDGET_UNIT_BYTES ltac:(done)).
  destruct (_ <? _); [done |]. destruct (_ <? _); [done |]. intros [= <-]. unfold BODY_BUDGET_UNIT_BYTES in *. lia.
Qed.
Lemma take_permits_spec n w :
  match take_permits n w with
  | (true, w') => n <= w.1 /\ w'.1 = w.1 - n
  | (false, w') => w'.1 = w.1
  end.
Proof. destruct w as [av [| [] waits]]; try done. simpl. by destruct (Z.leb_spec n av). Qed.

(** A reservation whose units are those of its permits. *)
Definition reservation_wf (r : Reservation) : Prop :=
  0 <= rs_reserved_units r /\ zsum (rs_permits r) = rs_reserved_units r.
Definition covers (r : Reservation) (bytes : Z) : Prop := bytes <= BODY_BUDGET_UNIT_BYTES * rs_reserved_units r.
Lemma zsum_app l k : zsum (l ++ k) = zsum l + zsum k.
Proof. induction l as [| x l IH]; simpl; [done |]. rewrite IH. lia. Qed.
Lemma covers_0 r : reservation_wf r -> covers r 0.
Proof. unfold covers, BODY_BUDGET_UNIT_BYTES. intros [? _]. lia. Qed.

Lemma grow_to_spec r bytes w :
  reservation_wf r -> 0 <= w.1 ->
  let '(r', res, w') := grow_to take_permits r bytes w in
  reservation_wf r' /\ 0 <= w'.1 /\ zsum (rs_permits r') + w'.1 = zsum (rs_permits r) + w.1
  /\ (forall b, covers r b -> covers r' b)
  /\ match res with Ok _ => covers r' bytes | Err _ => r' = r end.
Proof.
  intros [Hu Hs] Hw. unfold grow_to, covers. destruct (additional_units r bytes) as [n |] eqn:E; [| done].
  apply additional_units_Ok in E as (Hn & Hc & Hor).
  destruct (Z.eqb_spec n 0) as [-> | Hne]; [rewrite Z.add_0_r in Hc; done |].
  pose proof (take_permits_spec n w) as Ht. destruct (take_permits n w) as [[] w']; [| by rewrite Ht].
  destruct Hor as [? | Hd]; [done |]. unfold reservation_wf. cbn [rs_reserved_units rs_permits rs_max_bytes].
  rewrite zsum_app, Hd. simpl. unfold BODY_BUDGET_UNIT_BYTES in *. split_and!; intros; lia.
Qed.
Lemma admit_beside_spec r required capacity w :
  0 <= w.1 ->
  let '(res, w') := admit_beside take_permits r required capacity w in
  0 <= w'.1
  /\ match res with
     | Ok overlap =>
         0 <= overlap_units overlap /\ w'.1 = w.1 - overlap_units overlap
         /\ required + capacity <= BODY_BUDGET_UNIT_BYTES * (rs_reserved_units r + overlap_units overlap)
     | Err _ => w'.1 = w.1
     end.
Proof.
  intros Hw. unfold admit_beside, reserve_overlap. destruct (checked_add _ _ _) as [total |] eqn:Ea; [| done].
  apply checked_add_Some in Ea as [_ ->]. destruct (additional_units r _) as [n |] eqn:E; [| done].
  apply additional_units_Ok in E as (Hn & Hc & _). destruct (Z.eqb_spec n 0) as [-> |]; [simpl; lia |].
  pose proof (take_permits_spec n w) as Ht. destruct (take_permits n w) as [[] w']; simpl in *; lia.
Qed.

Definition body_memory (h : Holder) : Z :=
  match ho_memory h with Settled capacity => capacity | Exchanging fresh old _ => fresh + old end.
Definition held_units (h : Holder) : Z :=
  zsum (rs_permits (ho_reservation h))
  + match ho_memory h with Settled _ => 0 | Exchanging _ _ overlap => overlap_units overlap end.
(** The reservation covers the declared bytes, the buffer kept, and with the
    overlap both buffers. *)
Record holder_wf (h : Holder) : Prop := {
  hw_reservation : reservation_wf (ho_reservation h);
  hw_declared : covers (ho_reservation h) (ho_declared h);
  hw_kept : covers (ho_reservation h) (match ho_memory h with Settled n | Exchanging n _ _ => n end);
  hw_memory : body_memory h <= BODY_BUDGET_UNIT_BYTES * held_units h;
  hw_overlap : match ho_memory h with Settled _ => True | Exchanging _ _ overlap => 0 <= overlap_units overlap end;
}.
Definition body_pool_wf (max_bytes : Z) (p : BodyPool) : Prop :=
  0 <= pl_available p /\ Forall holder_wf (pl_holders p)
  /\ pl_available p + zsum (held_units <$> pl_holders p) = budget_units max_bytes.

Lemma settled_wf declared r n :
  reservation_wf r -> covers r declared -> covers r n -> holder_wf (mkHolder declared r (Settled n)).
Proof.
  intros Hr Hd Hn. pose proof Hr as [? ?]. split; try done; unfold body_memory, held_units; simpl.
  unfold covers in Hn. lia.
Qed.
Lemma exchanging_wf declared r fresh old overlap :
  reservation_wf r -> covers r declared -> covers r fresh -> 0 <= overlap_units overlap ->
  fresh + old <= BODY_BUDGET_UNIT_BYTES * (rs_reserved_units r + overlap_units overlap) ->
  holder_wf (mkHolder declared r (Exchanging fresh old overlap)).
Proof.
  intros Hr Hd Hf Ho Hm. pose proof Hr as [? ?]. split; try done; unfold body_memory, held_units; simpl; lia.
Qed.
Lemma held_insert l i h h' :
  l !! i = Some h ->
  zsum (held_units <$> <[i:=h']> l) = zsum (held_units <$> l) - held_units h + held_units h'.
Proof.
  revert i. induction l as [| x l IH]; intros [| i] H; simplify_eq/=; [lia |]. rewrite (IH i H). lia.
Qed.
Lemma held_delete l i h :
  l !! i = Some h -> zsum (held_units <$> delete i l) = zsum (held_units <$> l) - held_units h.
Proof.
  revert i. induction l as [| x l IH]; intros [| i] H; simplify_eq/=; [lia |].
  change (held_units x + zsum (held_units <$> delete i l) = held_units x + zsum (held_units <$> l) - held_units h).
  rewrite (IH i H). lia.
Qed.
(** A holder is replaced, and the units it gained were available. *)
Lemma pool_wf_insert max_bytes p i h h' available :
  body_pool_wf max_bytes p -> pl_holders p !! i = Some h -> holder_wf h' -> 0 <= available ->
  available + held_units h' = pl_available p + held_units h ->
  body_pool_wf max_bytes (mkBodyPool available (<[i:=h']> (pl_holders p))).
Proof.
  intros (Ha & Hf & Hs) Hi Hh Hav Hu. split_and!; [done | by apply Forall_insert |]. simpl.
  rewrite (held_insert _ _ h) by done. lia.
Qed.
Lemma pool_wf_lookup max_bytes p i h : body_pool_wf max_bytes p -> pl_holders p !! i = Some h -> holder_wf h.
Proof. intros (_ & Hf & _) Hi. by apply (Forall_lookup_1 _ _ _ _ Hf Hi). Qed.

Lemma pool_reserve_wf max_bytes max_body bytes waits p p' :
  body_pool_wf max_bytes p -> body_pool_step max_bytes max_body (PoolReserve bytes waits) p = Some p' -> body_pool_wf max_bytes p'.
Proof.
  intros (Ha & Hf & Hs). simpl. unfold reserve.
  pose proof (grow_to_spec (reservation max_bytes) bytes (pl_available p, waits)) as Hg.
  destruct (grow_to _ _ _ _) as [[r res] [av ws]]. simpl in Hg.
  destruct Hg as (Hr & Hav & Hsum & _ & Hc); [done | done |]. destruct res as [[] |]; intros [= <-].
  - split_and!; [done | |]; cbn [pl_available pl_holders fmap list_fmap].
    + constructor; [by apply settled_wf; [| | apply covers_0] | done].
    + change (zsum (?x :: ?l)) with (x + zsum l). unfold held_units at 1. cbn [ho_memory ho_reservation]. lia.
  - subst r. by assert (av = pl_available p) as -> by (simpl in Hsum; lia).
Qed.
Lemma pool_length_wf max_bytes max_body i capacity waits p p' :
  body_pool_wf max_bytes p -> body_pool_step max_bytes max_body (PoolLength i capacity waits) p = Some p' -> body_pool_wf max_bytes p'.
Proof.
  intros Hp. simpl. destruct (pl_holders p !! i) as [[declared r [[| |] |]] |] eqn:Hi; try done.
  destruct (pool_wf_lookup _ _ _ _ Hp Hi) as [Hr Hd _ _ _]. cbn [ho_reservation ho_declared] in *.
  pose proof (admit_beside_spec r declared capacity (pl_available p, waits) (proj1 Hp)) as Hg.
  destruct (admit_beside _ _ _ _ _) as [[overlap | e] [av ws]]; intros [= <-]; cbn [fst] in Hg.
  - destruct Hg as (Hav & Ho & Hw & Hm). apply (pool_wf_insert _ _ _ _ _ _ Hp Hi); [by apply exchanging_wf | done |].
    unfold held_units. simpl. lia.
  - destruct Hg as [_ ->]. by destruct p.
Qed.
Lemma pool_grow_wf max_bytes max_body i len growth waits p p' :
  body_pool_wf max_bytes p -> body_pool_step max_bytes max_body (PoolGrow i len growth waits) p = Some p' -> body_pool_wf max_bytes p'.
Proof.
  intros Hp. simpl. destruct (pl_holders p !! i) as [[declared r [capacity |]] |] eqn:Hi; try done.
  destruct (growth_target _ _ _ _) as [[admitted |] |]; [| by intros [= <-]..].
  destruct (pool_wf_lookup _ _ _ _ Hp Hi) as [Hr Hd Hk _ _]. cbn [ho_reservation ho_declared ho_memory] in *.
  unfold admit_growth. pose proof (grow_to_spec r admitted (pl_available p, waits) Hr (proj1 Hp)) as Hg.
  destruct (grow_to _ _ _ _) as [[r' res] [av ws]]. cbn [fst] in Hg. destruct Hg as (Hr' & Hav & Hsum & Hc & Hres).
  destruct res as [[] |].
  - pose proof (admit_beside_spec r' admitted capacity (av, ws) Hav) as Hb.
    destruct (admit_beside _ _ _ _ _) as [[overlap | e] [av' ws']]; intros [= <-]; cbn [fst] in Hb.
    + destruct Hb as (Hav' & Ho & Hw & Hm).
      apply (pool_wf_insert _ _ _ _ _ _ Hp Hi); [apply exchanging_wf; auto | done | unfold held_units; simpl; lia].
    + destruct Hb as [Hav' ->].
      apply (pool_wf_insert _ _ _ _ _ _ Hp Hi); [apply settled_wf; auto | done | unfold held_units; simpl; lia].
  - intros [= <-]. subst r'.
    apply (pool_wf_insert _ _ _ _ _ _ Hp Hi); [apply settled_wf; auto | done | unfold held_units; simpl; lia].
Qed.
Lemma pool_step_wf max_bytes max_body ev p p' :
  body_pool_wf max_bytes p -> body_pool_step max_bytes max_body ev p = Some p' -> body_pool_wf max_bytes p'.
Proof.
  destruct ev as [| | | i | i]; [apply pool_reserve_wf | apply pool_length_wf | apply pool_grow_wf | |]; intros Hp; simpl.
  - destruct (pl_holders p !! i) as [[declared r [| fresh old overlap]] |] eqn:Hi; try done. intros [= <-].
    destruct (pool_wf_lookup _ _ _ _ Hp Hi) as [Hr Hd Hk _ Hh]. cbn [ho_reservation ho_declared ho_memory] in *.
    pose proof Hr as [Hu Hsum]. pose proof (proj1 Hp) as Ha.
    apply (pool_wf_insert _ _ _ _ _ _ Hp Hi); [by apply settled_wf | lia | unfold held_units; simpl; lia].
  - destruct (pl_holders p !! i) as [[declared r [capacity |]] |] eqn:Hi; try done. intros [= <-].
    destruct (pool_wf_lookup _ _ _ _ Hp Hi) as [[Hu Hsum] _ _ _ Hh]. cbn [ho_reservation ho_declared ho_memory] in *.
    destruct Hp as (Ha & Hf & Hs). split_and!; simpl; [lia | by apply Forall_delete |].
    rewrite (held_delete _ _ _ Hi). unfold held_units at 2. simpl. lia.
Qed.
Lemma pool_run_wf max_bytes max_body events p p' :
  body_pool_wf max_bytes p -> body_pool_run max_bytes max_body events p = Some p' -> body_pool_wf max_bytes p'.
Proof.
  revert p. induction events as [| ev events IH]; intros p Hp; simpl; [by intros [= <-] |].
  destruct (body_pool_step max_bytes max_body ev p) as [p1 |] eqn:E; [| done]. simpl. by apply IH, (pool_step_wf _ _ _ _ _ Hp E).
Qed.
Lemma pool_memory_held l :
  Forall holder_wf l -> zsum (body_memory <$> l) <= BODY_BUDGET_UNIT_BYTES * zsum (held_units <$> l).
Proof.
  unfold BODY_BUDGET_UNIT_BYTES. induction 1 as [| h l [_ _ _ Hm _] _ IH]; [done |].
  rewrite !fmap_cons. unfold zsum. cbn [foldr]. unfold zsum, BODY_BUDGET_UNIT_BYTES in *. lia.
Qed.
Lemma budget_units_bytes max_bytes :
  0 < max_bytes -> BODY_BUDGET_UNIT_BYTES * budget_units max_bytes < max_bytes + BODY_BUDGET_UNIT_BYTES.
Proof.
  intros H. pose proof (div_ceil_spec max_bytes BODY_BUDGET_UNIT_BYTES ltac:(done)).
  unfold budget_units, BODY_BUDGET_UNIT_BYTES in *. lia.
Qed.

Definition sample_events : list PoolEvent :=
  [PoolReserve 100000 [true]; PoolReserve 0 []; PoolGrow 0 0 5000 [true; true]; PoolSettle 0;
   PoolLength 1 8192 [true]; PoolGrow 0 16000 8192 [true; true]; PoolReserve 200000 [true]].
Definition sample_pool : BodyPool :=
  mkBodyPool 1
    [mkHolder 0 (mkReservation 262144 1 [1]) (Exchanging 32768 16384 None);
     mkHolder 100000 (mkReservation 262144 2 [2]) (Exchanging 100000 8192 None)].


(** A body of the size of the whole budget is never admitted, whoever else uses
    the budget: its buffer has to fit beside the one that held the head. *)
Lemma full_size_body_refused {W} (acquire : Z -> W -> bool * W) (r : Reservation) (capacity : Z) (w : W) :
  0 < capacity -> rs_max_bytes r + capacity <= USIZE_MAX ->
  admit_beside acquire r (rs_max_bytes r) capacity w = (Err (BodyIo WouldBlock), w).
Proof.
  intros Hc Hu. unfold admit_beside, reserve_overlap, additional_units. rewrite checked_add_exact by done.
  by rewrite (proj2 (Z.ltb_lt _ _)) by lia.
Qed.
