(* ===== verification/Http1Server.v ===== *)
(** * The HTTP/1 connection loop ([native_http1.rs], [native_http1/body.rs])

    Reading request heads and bodies off a connection and handing the requests
    to a handler, one after the other.  A connection is what the transport
    will deliver.  The budget of request-body
    memory is shared with other connections, so whether units are granted in
    time is part of the environment, and so are the capacities the allocator
    gives beyond what is asked.  Writing a response always succeeds. *)
From Stdlib Require Import ZArith Lia.
From stdpp Require Import base list numbers strings sets.
From S2P Require Import Prelude Text NetAddr Http1Target Http1Head Http1Chunked RequestHeaders Transport BodyBudget.

(** ** The transport *)

Record Conn : Type := mkConn {
  cn_source : list Delivery;
  cn_grants : list bool;
  cn_capacities : list Z;
}.

Definition read_from (capacity : Z) (c : Conn) : ReadOutcome * Conn :=
  let '(outcome, source) := read_source capacity (cn_source c) in
  (outcome, mkConn source (cn_grants c) (cn_capacities c)).
(** A wait for units of the budget: granted unless the environment refuses. *)
Definition ask_budget (units : Z) (c : Conn) : bool * Conn :=
  match cn_grants c with
  | [] => (true, c)
  | granted :: rest => (granted, mkConn (cn_source c) rest (cn_capacities c))
  end.
(** The capacity of a vector that has room for [least] bytes. *)
Definition ask_capacity (least : Z) (c : Conn) : Z * Conn :=
  match cn_capacities c with
  | [] => (least, c)
  | capacity :: rest => (Z.max least capacity, mkConn (cn_source c) (cn_grants c) rest)
  end.

Definition source_size (c : Conn) : nat := deliveries_size (cn_source c).

(** ** Reading a head *)

Inductive HeadRead : Type :=
| HeadFound (head_len : Z)
| HeadClosed
| HeadRejected (e : Http1ParseError)
| HeadBroken (f : Fault)
| HeadOutOfFuel.

(** The loop of [read_until_head]; every turn but the last takes bytes off the
    source, so its size is enough fuel. *)
Fixpoint read_until_head (fuel : nat) (limits : Http1HeadLimits) (buffer : list Z) (c : Conn)
    : HeadRead * list Z * Conn :=
  match parse_http1_request_head buffer limits with
  | Ok (Some head) => (HeadFound (rh_head_len (vh_head head)), buffer, c)
  | Err e => (HeadRejected e, buffer, c)
  | Ok None =>
      if max_head_bytes limits <=? zlen buffer then (HeadRejected HeadTooLarge, buffer, c)
      else
        match read_from READ_CHUNK_BYTES c with
        | (ReadFault f, c) => (HeadBroken f, buffer, c)
        | (ReadBytes [], c) => (HeadClosed, buffer, c)
        | (ReadBytes chunk, c) =>
            match fuel with
            | O => (HeadOutOfFuel, buffer, c)
            | S fuel => read_until_head fuel limits (buffer ++ chunk) c
            end
        end
  end.

(** ** Reading a body *)

(** The reservation of a body and the capacity of its buffer. *)
Record BodyMemory : Type := mkMemory { bm_reservation : Reservation; bm_capacity : Z }.
Inductive BodyRead : Type :=
| BodyOk (body : list Z) (m : BodyMemory)
| BodyRejected (e : Http1ParseError)
| BodyBroken (f : Fault)
| BodyRefused
| BodyCrashed.
Definition body_failure (e : BodyError) : BodyRead :=
  match e with
  | BodyParse e => BodyRejected e
  | BodyIo WouldBlock => BodyRefused
  | BodyIo BudgetOther => BodyBroken IoFault
  end.

(** The loop over a body of known length. *)
Fixpoint read_length (fuel : nat) (length : Z) (m : BodyMemory) (body : list Z) (c : Conn) : BodyRead * Conn :=
  if zlen body <? length then
    let remaining := length - zlen body in
    match read_from (Z.min remaining READ_CHUNK_BYTES) c with
    | (ReadFault f, c) => (BodyBroken f, c)
    | (ReadBytes [], c) => (BodyRejected InvalidContentLength, c)
    | (ReadBytes chunk, c) =>
        match fuel with
        | O => (BodyCrashed, c)
        | S fuel => read_length fuel length m (body ++ chunk) c
        end
    end
  else (BodyOk body m, c).

(** [reserve_chunked_body_growth]; the buffer is replaced by one of the admitted
    capacity. *)
Definition reserve_chunked_body_growth (m : BodyMemory) (len possible_growth max_body_bytes : Z) (c : Conn)
    : result BodyMemory BodyError * Conn :=
  match growth_target len possible_growth (bm_capacity m) max_body_bytes with
  | Err e => (Err e, c)
  | Ok None => (Ok m, c)
  | Ok (Some admitted_capacity) =>
      match admit_growth ask_budget (bm_reservation m) admitted_capacity (bm_capacity m) c with
      | (_, Err e, c) => (Err e, c)
      | (r, Ok _, c) =>
          if admitted_capacity <=? bm_capacity m then (Ok (mkMemory r (bm_capacity m)), c)
          else let '(capacity, c) := ask_capacity admitted_capacity c in (Ok (mkMemory r capacity), c)
      end
  end.
(** The buffer after the decoder has appended to it: [extend_from_slice]
    replaces a buffer that is too small. *)
Definition after_append (m : BodyMemory) (len : Z) (c : Conn) : BodyMemory * Conn :=
  if len <=? bm_capacity m then (m, c)
  else let '(capacity, c) := ask_capacity len c in (mkMemory (bm_reservation m) capacity, c).

(** The loop of [read_chunked_body] after the bytes at hand; [fed] bytes have
    been given to the decoder. *)
Fixpoint read_chunks (fuel : nat) (max_body : Z) (m : BodyMemory) (d : Http1ChunkedDecoder) (body : list Z) (fed : Z)
    (c : Conn) : BodyRead * list Z * Conn :=
  match read_from READ_CHUNK_BYTES c with
  | (ReadFault f, c) => (BodyBroken f, [], c)
  | (ReadBytes [], c) => (BodyRejected InvalidChunk, [], c)
  | (ReadBytes chunk, c) =>
      match checked_add USIZE_MAX fed (zlen chunk) with
      | None => (BodyRejected EncodedBodyTooLarge, [], c)
      | Some fed' =>
          match reserve_chunked_body_growth m (zlen body) (zlen chunk) max_body c with
          | (Err e, c) => (body_failure e, [], c)
          | (Ok m, c) =>
              match push_to d body chunk with
              | Returned d body (Ok (Some decoded)) =>
                  let '(m, c) := after_append m (zlen body) c in
                  let consumed := d_consumed_len decoded - fed in
                  if (consumed <? 0) || (zlen chunk <? consumed) then (BodyRejected InvalidChunk, [], c)
                  else (BodyOk body m, zdrop consumed chunk, c)
              | Returned d body (Ok None) =>
                  let '(m, c) := after_append m (zlen body) c in
                  match fuel with
                  | O => (BodyCrashed, [], c)
                  | S fuel => read_chunks fuel max_body m d body fed' c
                  end
              | Returned _ _ (Err e) => (BodyRejected e, [], c)
              | _ => (BodyCrashed, [], c)
              end
          end
      end
  end.
Definition chunk_limits (max_body : Z) : Http1ChunkLimits := with_max_body_bytes default_chunk_limits max_body.
Definition read_chunked_body (max_body : Z) (r : Reservation) (initial : list Z) (c : Conn) : BodyRead * list Z * Conn :=
  match reserve_chunked_body_growth (mkMemory r 0) 0 (zlen initial) max_body c with
  | (Err e, c) => (body_failure e, [], c)
  | (Ok m, c) =>
      match push_to (decoder_new (chunk_limits max_body)) ([] : list Z) initial with
      | Returned d body (Ok (Some decoded)) =>
          let '(m, c) := after_append m (zlen body) c in
          (BodyOk body m, zdrop (d_consumed_len decoded) initial, c)
      | Returned d body (Ok None) =>
          let '(m, c) := after_append m (zlen body) c in
          read_chunks (source_size c) max_body m d body (zlen initial) c
      | Returned _ _ (Err e) => (BodyRejected e, [], c)
      | _ => (BodyCrashed, [], c)
      end
  end.

(** [read_body_inner]: the body and what stays in the buffer. *)
Definition read_body (max_body head_len : Z) (framing : Http1BodyFraming) (r : Reservation) (buffer : list Z) (c : Conn)
    : BodyRead * list Z * Conn :=
  match framing with
  | NoBody => (BodyOk [] (mkMemory r 0), zdrop head_len buffer, c)
  | ContentLength length =>
      if max_body <? length then (BodyRejected BodyTooLarge, buffer, c)
      else
        let available := Z.min (saturating_sub (zlen buffer) head_len) length in
        let body_end := head_len + available in
        let initial := zdrop head_len (ztake body_end buffer) in
        let remainder := zdrop body_end buffer in
        let '(capacity, c) := ask_capacity (zlen buffer) c in
        match admit_beside ask_budget r length capacity c with
        | (Err e, c) => (body_failure e, remainder, c)
        | (Ok _, c) =>
            let '(capacity, c) := ask_capacity length c in
            let '(result, c) := read_length (source_size c) length (mkMemory r capacity) initial c in
            (result, remainder, c)
        end
  | Chunked => read_chunked_body max_body r (zdrop head_len buffer) c
  end.

(** ** Requests *)

(** [owned_headers]: the effective authority becomes the one host header. *)
Definition owned_headers (headers : list Http1Header) (authority : option (list Z)) : list header :=
  ((fun h => (h_name h, h_value h)) <$> List.filter (fun h => negb (eq_ignore_ascii_case (h_name h) (bs "host"))) headers)
  ++ match authority with Some authority => [(bs "host", authority)] | None => [] end.

(** What the listener knows about the connection. *)
Record RequestContext : Type := mkContext {
  cx_peer_addr : option SocketAddr;
  cx_local_addr : option SocketAddr;
  cx_effective_client_addr : option SocketAddr;
  cx_downstream_tls : bool;
  cx_tls_identity : option TlsClientIdentity;
}.
(** [owned_request_from_head], with the body attached later *)
Definition owned_request_from_head (head : ValidatedHttp1RequestHead) (cx : RequestContext) (body : list Z)
    : NativeHttp1Request :=
  let raw := vh_head head in
  mkRequest (rh_method raw) (cx_peer_addr cx) (cx_local_addr cx) (cx_effective_client_addr cx)
    (cx_downstream_tls cx) (cx_tls_identity cx) (rh_target raw) (rh_version raw)
    (owned_headers (rh_headers raw) (v_effective_authority (vh_validation head))) body.

(** ** The loop *)

(** How the connection ends: closed, after an error answer of some status, taken
    over by the handler with the bytes read ahead, or broken. *)
Inductive Ending : Type :=
| EndClosed
| EndAnswered (status : Z)
| EndTakenOver (r : NativeHttp1Request) (prebuffered : list Z) (c : Conn)
| EndBroken
| EndCrashed.

Definition head_error_status (e : Http1ParseError) : Z :=
  match e with
  | HeaderCountExceeded | HeaderLineTooLong | HeadTooLarge => 431
  | StartLineTooLong => 414
  | _ => 400
  end.
Definition body_ending (r : BodyRead) : Ending :=
  match r with
  | BodyRejected BodyTooLarge => EndAnswered 413
  | BodyRejected _ => EndAnswered 400
  | BodyBroken TimedOut => EndAnswered 408
  | BodyBroken IoFault => EndBroken
  | BodyRefused => EndAnswered 503
  | BodyOk _ _ | BodyCrashed => EndCrashed
  end.

(** The bytes reserved before the body is read. *)
Definition reservation_bytes (framing : Http1BodyFraming) : Z :=
  match framing with ContentLength length => length | NoBody | Chunked => 0 end.

(** One turn of the loop up to the request: the head, the body, and the rest. *)
Inductive NextTurn : Type :=
| TurnRequest (head : ValidatedHttp1RequestHead) (body buffer : list Z) (c : Conn)
| TurnEnds (e : Ending).
Definition next_request (limits : Http1HeadLimits) (max_body budget : Z) (buffer : list Z) (c : Conn) : NextTurn :=
  match read_until_head (source_size c) limits buffer c with
  | (HeadBroken _, _, _) => TurnEnds EndBroken
  | (HeadOutOfFuel, _, _) => TurnEnds EndCrashed
  | (HeadRejected e, _, _) => TurnEnds (EndAnswered (head_error_status e))
  | (HeadClosed, _, _) => TurnEnds EndClosed
  | (HeadFound head_len, buffer, c) =>
      match parse_http1_request_head buffer limits with
      | Ok (Some head) =>
          let framing := v_body_framing (vh_validation head) in
          match reserve ask_budget budget (reservation_bytes framing) c with
          | (_, Err _, _) => TurnEnds (EndAnswered 503)
          | (r, Ok _, c) =>
              match read_body max_body head_len framing r buffer c with
              | (BodyOk body _, buffer, c) => TurnRequest head body buffer c
              | (failure, _, _) => TurnEnds (body_ending failure)
              end
          end
      | Ok None => TurnEnds EndClosed
      | Err _ => TurnEnds EndBroken
      end
  end.

(** The handler: what it does to a request before handling it, whether it takes
    the connection over, its response, and whether that closes. *)
Record Handler (S R : Type) : Type := mkHandler {
  hd_prepare : NativeHttp1Request -> NativeHttp1Request;
  hd_takes_over : NativeHttp1Request -> bool;
  hd_handle : S -> NativeHttp1Request -> S * R;
  hd_closes : R -> bool;
}.
Arguments hd_prepare {S R} _ _.
Arguments hd_takes_over {S R} _ _.
Arguments hd_handle {S R} _ _ _.
Arguments hd_closes {S R} _ _.

Section Serve.
Context {S R : Type} (handler : Handler S R) (cx : RequestContext) (limits : Http1HeadLimits) (max_body budget : Z).

(** [serve_native_http1_connection_with_context]: the requests handled with
    their responses, the handler's state, and the ending.  Every turn consumes
    a head, so the bytes still to come are enough fuel. *)
Fixpoint serve (fuel : nat) (s : S) (buffer : list Z) (c : Conn) : list (NativeHttp1Request * R) * S * Ending :=
  match next_request limits max_body budget buffer c with
  | TurnEnds e => ([], s, e)
  | TurnRequest head body buffer c =>
      let request := hd_prepare handler (owned_request_from_head head cx body) in
      if hd_takes_over handler request then ([], s, EndTakenOver request buffer c)
      else
        let '(s, response) := hd_handle handler s request in
        if bool_decide (v_connection_directive (vh_validation head) = Close) || hd_closes handler response
        then ([(request, response)], s, EndClosed)
        else match fuel with
             | O => ([(request, response)], s, EndCrashed)
             | Datatypes.S fuel =>
                 let '(more, s, e) := serve fuel s buffer c in ((request, response) :: more, s, e)
             end
  end.
Definition serve_connection (s : S) (c : Conn) : list (NativeHttp1Request * R) * S * Ending :=
  serve (source_size c) s [] c.
End Serve.
