(* ===== verification/Http1ServerProps.v ===== *)
(** * The connection loop implements the message stream

    Whatever pieces the bytes of a connection arrive in, the requests handed to
    the handler are those of the byte stream read in one go; faults and refused
    reservations can only cut the sequence short. *)
From Stdlib Require Import ZArith Lia.
From stdpp Require Import base list numbers strings sets gmap.
From S2P Require Import Prelude Text NetAddr Http1Target Http1Head Http1Chunked Http1ChunkedSpec Http1ChunkedProps Http1HeadProps RequestHeaders Transport BodyBudget Http1Server.

(** ** What arrives *)

Definition arriving (c : Conn) : list Z := arrivals (cn_source c).

(** The bodies allowed and the budget for them. *)
Section Connections.
Context (max_body budget : Z).

(** Nothing goes wrong: no faults, no early end, every wait for the budget is
    granted, and no buffer is so large that a body does not fit beside it. *)
Definition clean (c : Conn) : Prop :=
  whole (cn_source c) /\ Forall (fun g => g = true) (cn_grants c)
  /\ Forall (fun n => n <= budget - max_body) (cn_capacities c).

(** From buffer [b] and connection [c] to [b'] and [c'], using up [used]. *)
Record advanced (used b : list Z) (c : Conn) (b' : list Z) (c' : Conn) : Prop := {
  ad_bytes : b ++ arriving c = used ++ b' ++ arriving c';
  ad_weight : (length used + length b' + source_size c' <= length b + source_size c)%nat;
  ad_clean : clean c -> clean c';
}.
Lemma advanced_refl b c : advanced [] b c b c.
Proof. by split. Qed.
Lemma advanced_trans u1 u2 b c b1 c1 b2 c2 :
  advanced u1 b c b1 c1 -> advanced u2 b1 c1 b2 c2 -> advanced (u1 ++ u2) b c b2 c2.
Proof.
  intros [H1 H2 H3] [H4 H5 H6]. split; [by rewrite H1, H4, <- app_assoc | rewrite length_app; lia | auto].
Qed.
Lemma advanced_drop n b c : advanced (ztake n b) b c (zdrop n b) c.
Proof.
  split; [by rewrite app_assoc, ztake_drop | | done].
  rewrite <- (ztake_drop n b) at 3. rewrite length_app. lia.
Qed.

Lemma read_from_spec capacity c :
  0 < capacity ->
  match read_from capacity c with
  | (ReadBytes [], c') => arriving c = []
  | (ReadBytes l, c') =>
      zlen l <= capacity /\ (source_size c' < source_size c)%nat /\ forall b, advanced [] b c (b ++ l) c'
  | (ReadFault _, _) => ~ clean c
  end.
Proof.
  intros Hcap. unfold read_from. pose proof (read_source_spec capacity (cn_source c) Hcap) as Hr.
  destruct (read_source capacity (cn_source c)) as [[[| x l] | f] s']; [done | | by intros [? _]].
  destruct Hr as (Hl & Hs & Hm). split_and!; [done | done |]. intros b. destruct (Hm b) as [H1 H2 H3].
  split; [done | done |]. intros (Hw & Hg & Hc). split_and!; auto.
Qed.

(** Asking the environment leaves the transport alone. *)
Definition waited (c c' : Conn) : Prop := cn_source c' = cn_source c /\ (clean c -> clean c').
Lemma waited_refl c : waited c c.
Proof. done. Qed.
Lemma waited_trans c1 c2 c3 : waited c1 c2 -> waited c2 c3 -> waited c1 c3.
Proof. intros [H1 H2] [H3 H4]. split; [congruence | auto]. Qed.
Lemma waited_advanced b c c' : waited c c' -> advanced [] b c b c'.
Proof. intros [H1 H2]. split; [unfold arriving; by rewrite H1 | unfold source_size; by rewrite H1 | done]. Qed.
Lemma waited_size c c' : waited c c' -> source_size c' = source_size c.
Proof. intros [H1 _]. unfold source_size. by rewrite H1. Qed.
Lemma ask_budget_spec n c :
  match ask_budget n c with
  | (true, c') => waited c c'
  | (false, _) => ~ clean c
  end.
Proof.
  destruct c as [source [| [] grants] capacities]; unfold ask_budget; simpl; [done | |].
  - split; [done |]. intros (Hs & [_ Hg]%Forall_cons & Hc). by split_and!.
  - by intros (_ & [? _]%Forall_cons & _).
Qed.
Lemma ask_capacity_spec n c :
  let '(k, c') := ask_capacity n c in
  waited c c' /\ (clean c -> n <= budget - max_body -> k <= budget - max_body).
Proof.
  destruct c as [source grants [| k capacities]]; unfold ask_capacity; simpl; [done |]. split.
  - split; [done |]. intros (Hs & Hg & [_ Hc]%Forall_cons). by split_and!.
  - intros (_ & _ & [Hk _]%Forall_cons) Hn. lia.
Qed.

(** ** The budget *)

Context (Hbudget : 0 <= max_body /\ 2 * max_body <= budget <= BODY_BUDGET_UNIT_BYTES * U32_MAX).
Lemma additional_units_fits r bytes :
  rs_max_bytes r = budget -> bytes <= budget -> exists n, additional_units r bytes = Ok n.
Proof using Hbudget.
  intros Hr Hb. unfold additional_units. rewrite Hr, (proj2 (Z.ltb_ge _ _)) by lia.
  pose proof (div_ceil_spec bytes BODY_BUDGET_UNIT_BYTES ltac:(done)) as Hd.
  destruct (Z.ltb_spec U32_MAX (div_ceil bytes BODY_BUDGET_UNIT_BYTES)) as [Hlt |]; [| eauto].
  unfold BODY_BUDGET_UNIT_BYTES, U32_MAX in *. lia.
Qed.
(** An admission within the budget is refused only by the environment. *)
Lemma grow_to_clean r bytes c :
  rs_max_bytes r = budget -> bytes <= budget ->
  match grow_to ask_budget r bytes c with
  | (r', Ok _, c') => waited c c' /\ rs_max_bytes r' = budget
  | (_, Err e, _) => e = WouldBlock /\ ~ clean c
  end.
Proof using Hbudget.
  intros Hr Hb. unfold grow_to. destruct (additional_units_fits r bytes Hr Hb) as [n ->].
  destruct (n =? 0); [done |]. pose proof (ask_budget_spec n c) as Ha. by destruct (ask_budget n c) as [[] c'].
Qed.
Lemma admit_beside_clean r required capacity c :
  rs_max_bytes r = budget ->
  match admit_beside ask_budget r required capacity c with
  | (Ok _, c') => waited c c'
  | (Err _, _) => clean c -> required + capacity <= budget -> False
  end.
Proof using Hbudget.
  intros Hr. unfold admit_beside, reserve_overlap. destruct (checked_add _ _ _) as [total |] eqn:Et.
  - apply checked_add_Some in Et as [_ ->].
    destruct (additional_units r (required + capacity)) as [n | e] eqn:En.
    + destruct (n =? 0); [done |]. pose proof (ask_budget_spec n c) as Ha. by destruct (ask_budget n c) as [[] c'].
    + intros _ Hb. destruct (additional_units_fits r _ Hr Hb) as [n E]. congruence.
  - intros _ Hb. rewrite checked_add_exact in Et; [done |]. unfold BODY_BUDGET_UNIT_BYTES, U32_MAX, USIZE_MAX, U64_MAX in *. lia.
Qed.

(** The memory of a body: its reservation is of the budget and, if nothing
    went wrong so far ([P]), another body fits beside it. *)
Definition memory_fits (P : Prop) (m : BodyMemory) : Prop :=
  rs_max_bytes (bm_reservation m) = budget /\ (P -> bm_capacity m <= budget - max_body).
Lemma growth_clean (P : Prop) m len growth c :
  (P -> clean c) -> memory_fits P m -> 0 <= len <= max_body -> max_body + growth <= USIZE_MAX ->
  match reserve_chunked_body_growth m len growth max_body c with
  | (Ok m', c') => waited c c' /\ memory_fits P m'
  | (Err _, _) => ~ P
  end.
Proof using Hbudget.
  intros HP [Hr Hcap] Hlen Hg. unfold reserve_chunked_body_growth, growth_target.
  rewrite checked_add_exact by lia. destruct (_ <=? _); [done |].
  set (admitted := Z.min _ max_body). assert (admitted <= max_body) as Had by (unfold admitted; lia).
  unfold admit_growth. pose proof (grow_to_clean (bm_reservation m) admitted c Hr ltac:(lia)) as Hgrow.
  destruct (grow_to _ _ _ _) as [[r res] c1]. destruct res as [[] |]; [| intros Hp; by apply Hgrow, HP].
  destruct Hgrow as [Hw Hr1]. pose proof (admit_beside_clean r admitted (bm_capacity m) c1 Hr1) as Hb.
  destruct (admit_beside _ _ _ _ _) as [[overlap |] c2].
  - pose proof (waited_trans _ _ _ Hw Hb) as Hw2. destruct (_ <=? _); [done |].
    pose proof (ask_capacity_spec admitted c2) as Hk. destruct (ask_capacity admitted c2) as [k c3]. destruct Hk as [Hw3 Hk].
    split; [by apply (waited_trans _ c2) |]. split; [done |]. intros Hp. apply Hk; [by apply Hw2, HP | lia].
  - intros Hp. apply Hb; [by apply Hw, HP |]. specialize (Hcap Hp). lia.
Qed.
Lemma after_append_clean (P : Prop) m len c :
  (P -> clean c) -> memory_fits P m -> len <= max_body ->
  let '(m', c') := after_append m len c in waited c c' /\ memory_fits P m'.
Proof using Hbudget.
  intros HP [Hr Hcap] Hlen. unfold after_append. destruct (_ <=? _); [done |].
  pose proof (ask_capacity_spec len c) as Hk. destruct (ask_capacity len c) as [k c']. destruct Hk as [Hw Hk].
  split; [done |]. split; [done |]. intros Hp. apply Hk; [auto | lia].
Qed.

Lemma read_room n : n <= READ_CHUNK_BYTES -> max_body + n <= USIZE_MAX.
Proof using Hbudget. unfold READ_CHUNK_BYTES, USIZE_MAX, U64_MAX, BODY_BUDGET_UNIT_BYTES, U32_MAX in *. lia. Qed.
(** A failure of the memory of a body, excluded when nothing went wrong. *)
Ltac memory_failed e := destruct e as [? | []]; simpl; tauto.

(** ** Heads *)

Section Heads.
Context (limits : Http1HeadLimits) (Hlim : head_limits_wf limits).

Lemma read_until_head_spec fuel buffer c :
  (source_size c <= fuel)%nat ->
  match read_until_head fuel limits buffer c with
  | (HeadFound n, b', c') =>
      exists head, parse_http1_request_head b' limits = Ok (Some head) /\ n = rh_head_len (vh_head head)
                   /\ head_of limits parse_http1_request_head (buffer ++ arriving c) = Ok (Some head) /\ advanced [] buffer c b' c'
                   /\ zlen b' <= Z.max (zlen buffer) (max_head_bytes limits + READ_CHUNK_BYTES)
  | (HeadRejected e, _, _) => head_of limits parse_http1_request_head (buffer ++ arriving c) = Err e
  | (HeadClosed, _, _) => head_of limits parse_http1_request_head (buffer ++ arriving c) = Ok None
  | (HeadBroken _, _, _) => ~ clean c
  | (HeadOutOfFuel, _, _) => False
  end.
Proof using Hlim.
  revert buffer c. induction fuel as [| fuel IH]; intros buffer c Hf; simpl;
    destruct (parse_http1_request_head buffer limits) as [[head |] | e] eqn:Ep;
    try (rewrite (head_of_settled limits parse_http1_request_head Hlim) by congruence; rewrite Ep; eauto 10 using advanced_refl, Z.le_max_l; done);
    destruct (Z.leb_spec (max_head_bytes limits) (zlen buffer));
    try (by apply (head_of_full limits parse_http1_request_head Hlim));
    pose proof (read_from_spec READ_CHUNK_BYTES c ltac:(done)) as Hr;
    destruct (read_from READ_CHUNK_BYTES c) as [[[| x chunk] | f] c'];
    try (rewrite Hr, app_nil_r; unfold head_of; rewrite Ep; by zcond); try done; destruct Hr as (Hl & Hs & Ha).
  - lia.
  - specialize (IH (buffer ++ x :: chunk) c' ltac:(lia)). pose proof (Ha buffer) as Hb.
    rewrite (ad_bytes _ _ _ _ _ Hb). cbn [app].
    destruct (read_until_head fuel limits (buffer ++ x :: chunk) c') as [[[n | | e | f |] b'] c''];
      [| done | done | intros Hc; by apply IH, (ad_clean _ _ _ _ _ Hb) | done].
    destruct IH as (head & Hp & Hn & Hh & Hadv & Hz). exists head. split_and!; try done.
    + apply (advanced_trans [] [] _ _ _ _ _ _ Hb Hadv).
    + rewrite zlen_app in Hz. lia.
Qed.
End Heads.

(** ** Bodies of known length *)

Lemma read_length_spec fuel len m body c :
  (source_size c <= fuel)%nat -> zlen body <= len ->
  match read_length fuel len m body c with
  | (BodyOk b _, c') => zlen b = len /\ exists more, b = body ++ more /\ advanced more [] c [] c'
  | (BodyRejected e, _) => e = InvalidContentLength /\ zlen (body ++ arriving c) < len
  | (BodyBroken _, _) => ~ clean c
  | (BodyRefused, _) | (BodyCrashed, _) => False
  end.
Proof.
  revert body c. induction fuel as [| fuel IH]; intros body c Hf Hl; simpl;
    destruct (Z.ltb_spec (zlen body) len) as [Hlt | Hge];
    try (split; [lia | exists []; rewrite app_nil_r; split; [done | apply advanced_refl]]);
    pose proof (read_from_spec (Z.min (len - zlen body) READ_CHUNK_BYTES) c ltac:(unfold READ_CHUNK_BYTES; lia)) as Hr;
    destruct (read_from (Z.min (len - zlen body) READ_CHUNK_BYTES) c) as [[[| x chunk] | f] c'];
    try (split; [done |]; rewrite Hr, app_nil_r; done); try done; destruct Hr as (Hc & Hs & Ha).
  - lia.
  - specialize (IH (body ++ x :: chunk) c' ltac:(lia) ltac:(rewrite zlen_app; lia)).
    pose proof (Ha []) as Hb. cbn [app] in Hb.
    assert (advanced (x :: chunk) [] c [] c') as Hu.
    { destruct Hb as [Hb1 Hb2 Hb3]. split; [done | | done]. simpl in *. lia. }
    destruct (read_length fuel len m (body ++ x :: chunk) c') as [[b m' | e | f | |] c'']; try done.
    + destruct IH as (Hlen & more & -> & Hm). split; [done |]. exists ((x :: chunk) ++ more).
      split; [by rewrite <- app_assoc |]. by eapply advanced_trans.
    + destruct IH as [-> Hlt']. split; [done |]. rewrite <- app_assoc in Hlt'.
      by rewrite (ad_bytes _ _ _ _ _ Hu : arriving c = _).
    + intros Hcl. by apply IH, (ad_clean _ _ _ _ _ Hu).
Qed.

(** ** Chunked bodies *)

Section Chunks.
Context (lim : Http1ChunkLimits) (Hlim : chunk_limits_wf lim) (Hmax : max_body_bytes lim = max_body).


Context (Hroom : max_encoded_bytes lim + READ_CHUNK_BYTES <= USIZE_MAX).

Definition chunks_rejected (full : list Z) (e : Http1ParseError) : Prop :=
  (chunked_spec lim ([] : list Z) full).2 = Err e
  \/ ((chunked_spec lim ([] : list Z) full).2 = Ok None /\ e = InvalidChunk).
Lemma read_chunks_spec (P : Prop) fuel m given d body c :
  (P -> clean c) -> memory_fits P m -> (source_size c <= fuel)%nat -> fed_with lim given d body ->
  let full := concat given ++ arriving c in
  match read_chunks fuel max_body m d body (zlen (concat given)) c with
  | (BodyOk b _, rest, c') =>
      exists decoded used, chunked_spec lim ([] : list Z) full = (b, Ok (Some decoded))
        /\ d_consumed_len decoded = zlen (concat given) + zlen used /\ advanced used [] c rest c'
        /\ zlen rest <= READ_CHUNK_BYTES
  | (BodyRejected e, _, _) => P -> chunks_rejected full e
  | (BodyBroken _, _, _) | (BodyRefused, _, _) => ~ P
  | (BodyCrashed, _, _) => False
  end.
Proof using Hlim Hroom Hmax Hbudget.
  cbv zeta. revert m given d body c. induction fuel as [| fuel IH]; intros m given d body c HP Hm Hf Hw; simpl;
    pose proof (read_from_spec READ_CHUNK_BYTES c ltac:(done)) as Hr;
    destruct (read_from READ_CHUNK_BYTES c) as [[[| x chunk] | f] c1];
    try (right; rewrite Hr, app_nil_r, (fed_spec lim Hlim _ _ _ Hw); done); try (intros Hp; by apply Hr, HP);
    destruct Hr as (Hc & Hs & Ha); [lia |].
  pose proof (Ha []) as Hb. cbn [app] in Hb. set (l := x :: chunk) in *.
  assert (zlen (concat given) + zlen l <= USIZE_MAX) as Hsum.
  { pose proof (spec_waiting_len lim Hlim _ _ _ (fed_spec lim Hlim _ _ _ Hw)). lia. }
  unfold checked_add. rewrite (proj2 (Z.leb_le _ _)) by done.
  pose proof (spec_body_len lim Hlim _ _ _ (fed_spec lim Hlim _ _ _ Hw)) as Hbody. rewrite Hmax in Hbody.
  assert (P -> clean c1) as HP1 by (intros Hp; by apply (ad_clean _ _ _ _ _ Hb), HP).
  pose proof (growth_clean P m (zlen body) (zlen l) c1 HP1 Hm Hbody ltac:(by apply read_room)) as Hg.
  destruct (reserve_chunked_body_growth m (zlen body) (zlen l) max_body c1) as [[m1 | e] c2];
    [| memory_failed e].
  destruct Hg as [Hg Hm1]. assert (P -> clean c2) as HP2 by (intros Hp; by apply Hg, HP1).
  pose proof (advanced_trans [] [] _ _ _ _ _ _ Hb (waited_advanced l _ _ Hg)) as Hadv. cbn [app] in Hadv.
  pose proof (push_spec lim Hlim given d body l (arriving c2) Hw) as Hp.
  pose proof (ad_bytes _ _ _ _ _ Hadv) as Hbytes. cbn [app] in Hbytes. rewrite Hbytes.
  destruct (push_to d body l) as [d' body' [[decoded |] | e] | |]; [| | by left; rewrite Hp | done..].
  - destruct Hp as [Hspec Hcons]. pose proof (spec_body_len lim Hlim _ _ _ Hspec) as Hlen. rewrite Hmax in Hlen.
    pose proof (after_append_clean P m1 (zlen body') c2 HP2 Hm1 ltac:(lia)) as Happ.
    destruct (after_append m1 (zlen body') c2) as [m2 c3]. destruct Happ as [Hw3 _].
    zlen_facts. rewrite (proj2 (Z.ltb_ge _ _)), (proj2 (Z.ltb_ge _ _)) by lia. cbn [orb].
    exists decoded, (ztake (d_consumed_len decoded - zlen (concat given)) l).
    rewrite (ad_bytes _ _ _ _ _ (waited_advanced [] _ _ Hw3) : arriving c2 = _) in Hspec |- *. cbn [app] in *.
    split_and!; [done | | |].
    + rewrite zlen_take by lia. lia.
    + apply (advanced_trans [] _ _ _ _ _ _ _ Hadv). apply (advanced_trans [] _ _ _ l c3); [by apply waited_advanced |].
      apply advanced_drop.
    + etrans; [apply zlen_drop_le | done].
  - pose proof (spec_body_len lim Hlim _ _ _ (fed_spec lim Hlim _ _ _ Hp)) as Hlen. rewrite Hmax in Hlen.
    pose proof (after_append_clean P m1 (zlen body') c2 HP2 Hm1 ltac:(lia)) as Happ.
    destruct (after_append m1 (zlen body') c2) as [m2 c3]. destruct Happ as [Hw3 Hm2].
    pose proof (advanced_trans [] [] _ _ _ _ _ _ Hadv (waited_advanced l _ _ Hw3)) as Hadv3. cbn [app] in Hadv3.
    rewrite (ad_bytes _ _ _ _ _ (waited_advanced [] _ _ Hw3) : arriving c2 = _). cbn [app].
    assert (zlen (concat (given ++ [l])) = zlen (concat given) + zlen l) as Ez
      by (rewrite concat_app; simpl; by rewrite app_nil_r, zlen_app).
    assert (concat (given ++ [l]) ++ arriving c3 = concat given ++ l ++ arriving c3) as Ec
      by (rewrite concat_app; simpl; by rewrite app_nil_r, <- app_assoc).
    pose proof (waited_size _ _ Hg) as Hs2. pose proof (waited_size _ _ Hw3) as Hs3.
    specialize (IH m2 (given ++ [l]) d' body' c3 ltac:(intros Hq; by apply Hw3, HP2) Hm2 ltac:(lia) Hp).
    rewrite Ez, Ec in IH.
    destruct (read_chunks fuel max_body m2 d' body' (zlen (concat given) + zlen l) c3) as [[[b m3 | e | f | |] rest] c']; try done.
    destruct IH as (decoded & used & Hspec & Hcons & Hused & Hrest). exists decoded, (l ++ used).
    split_and!; [done | rewrite zlen_app; lia | | done].
    eapply advanced_trans; [| exact Hused]. destruct Hadv3 as [H1 H2 H3]. split; [done | | done]. simpl in *. lia.
Qed.
End Chunks.

(** ** Bodies *)

(** The limits of a listener: the sizes do not overflow, and the budget has
    room for two bodies and for a body beside the buffer of a connection. *)
Definition policy_wf (limits : Http1HeadLimits) : Prop :=
  head_limits_wf limits /\ chunk_limits_wf (chunk_limits max_body)
  /\ max_encoded_bytes (chunk_limits max_body) + READ_CHUNK_BYTES <= USIZE_MAX
  /\ (0 <= max_body /\ 2 * max_body <= budget <= BODY_BUDGET_UNIT_BYTES * U32_MAX)
  /\ max_body + max_head_bytes limits + READ_CHUNK_BYTES <= budget.

(** The body at the start of a stream, and what follows it. *)
Definition body_of (framing : Http1BodyFraming) (stream : list Z)
    : result (list Z * list Z) Http1ParseError :=
  match framing with
  | NoBody => Ok ([], stream)
  | ContentLength n =>
      if max_body <? n then Err BodyTooLarge
      else if zlen stream <? n then Err InvalidContentLength
      else Ok (ztake n stream, zdrop n stream)
  | Chunked =>
      match chunked_spec (chunk_limits max_body) ([] : list Z) stream with
      | (body, Ok (Some decoded)) => Ok (body, zdrop (d_consumed_len decoded) stream)
      | (_, Ok None) => Err InvalidChunk
      | (_, Err e) => Err e
      end
  end.

End Connections.

Section Bodies.
Context (max_body budget : Z) (limits : Http1HeadLimits) (Hwf : policy_wf max_body budget limits).
Local Abbreviation advanced := (advanced max_body budget).
Local Abbreviation clean := (clean max_body budget).
Local Abbreviation waited_advanced := (waited_advanced max_body budget).
Local Abbreviation advanced_trans := (advanced_trans max_body budget).
Local Abbreviation advanced_drop := (advanced_drop max_body budget).

Lemma read_chunked_body_spec r initial c :
  rs_max_bytes r = budget -> zlen initial <= max_head_bytes limits + READ_CHUNK_BYTES ->
  match read_chunked_body max_body r initial c with
  | (BodyOk b _, b', c') =>
      exists used, body_of max_body Chunked (initial ++ arriving c) = Ok (b, b' ++ arriving c')
                   /\ advanced used initial c b' c' /\ zlen b' <= max_head_bytes limits + READ_CHUNK_BYTES
  | (BodyRejected e, _, _) => clean c -> body_of max_body Chunked (initial ++ arriving c) = Err e
  | (BodyBroken _, _, _) | (BodyRefused, _, _) => ~ clean c
  | (BodyCrashed, _, _) => False
  end.
Proof using Hwf.
  intros Hr Hi. destruct Hwf as ([Hmh _] & Hlim & Hroom & Hb & Hfit). unfold read_chunked_body, body_of.
  assert (memory_fits max_body budget (clean c) (mkMemory r 0)) as Hm0 by (split; simpl; [done | lia]).
  pose proof (growth_clean max_body budget Hb (clean c) _ 0 (zlen initial) c ltac:(done) Hm0 ltac:(lia)
    ltac:(unfold READ_CHUNK_BYTES, USIZE_MAX, U64_MAX, BODY_BUDGET_UNIT_BYTES, U32_MAX in *; lia)) as Hg.
  destruct (reserve_chunked_body_growth (mkMemory r 0) 0 (zlen initial) max_body c) as [[m1 | e] c1];
    [| destruct e as [? | []]; simpl; tauto].
  destruct Hg as [Hw Hm1]. assert (clean c -> clean c1) as Hc1 by apply Hw.
  pose proof (waited_advanced initial _ _ Hw) as Hadv.
  pose proof (ad_bytes _ _ _ _ _ _ _ Hadv) as Hbytes. cbn [app] in Hbytes. rewrite Hbytes.
  set (lim := chunk_limits max_body) in *.
  pose proof (push_spec lim Hlim [] (decoder_new lim) [] initial (arriving c1) eq_refl) as Hp. cbn [concat app] in Hp.
  destruct (push_to (decoder_new lim) [] initial) as [d body [[decoded |] | e] | |]; [| | by rewrite Hp | done..].
  - destruct Hp as [Hspec Hcons]. rewrite zlen_nil in Hcons. rewrite Hspec.
    pose proof (spec_body_len lim Hlim _ _ _ Hspec) as Hlen. change (max_body_bytes lim) with max_body in Hlen.
    pose proof (after_append_clean max_body budget Hb (clean c) m1 (zlen body) c1 Hc1 Hm1 ltac:(lia)) as Ha.
    destruct (after_append m1 (zlen body) c1) as [m2 c2]. destruct Ha as [Hw2 _].
    pose proof (waited_advanced initial _ _ Hw2) as Hadv2.
    rewrite (ad_bytes _ _ _ _ _ _ _ (waited_advanced [] _ _ Hw2) : arriving c1 = _). cbn [app].
    exists (ztake (d_consumed_len decoded) initial). split_and!; [by rewrite zdrop_app_le by lia | |].
    + apply (advanced_trans [] _ _ _ _ _ _ _ Hadv). apply (advanced_trans [] _ _ _ _ _ _ _ Hadv2). apply advanced_drop.
    + etrans; [apply zlen_drop_le | done].
  - assert (fed_with lim [initial] d body) as Hf by exact Hp.
    pose proof (spec_body_len lim Hlim _ _ _ (fed_spec lim Hlim _ _ _ Hf)) as Hlen. change (max_body_bytes lim) with max_body in Hlen.
    pose proof (after_append_clean max_body budget Hb (clean c) m1 (zlen body) c1 Hc1 Hm1 ltac:(lia)) as Ha.
    destruct (after_append m1 (zlen body) c1) as [m2 c2]. destruct Ha as [Hw2 Hm2].
    pose proof (waited_advanced initial _ _ Hw2) as Hadv2.
    rewrite (ad_bytes _ _ _ _ _ _ _ (waited_advanced [] _ _ Hw2) : arriving c1 = _). cbn [app].
    pose proof (read_chunks_spec max_body budget Hb lim Hlim eq_refl Hroom (clean c) (source_size c2) m2 [initial] d body c2
      ltac:(intros Hc; by apply Hw2, Hc1) Hm2 ltac:(done) Hf) as Hrd.
    cbn [concat] in Hrd. rewrite app_nil_r in Hrd. cbv zeta in Hrd.
    destruct (read_chunks (source_size c2) max_body m2 d body (zlen initial) c2) as [[[b m3 | e | f | |] rest] c']; try done.
    + destruct Hrd as (decoded & used & Hspec & Hcons & Hused & Hrest). rewrite Hspec. exists (initial ++ used).
      assert (advanced (initial ++ used) initial c2 rest c') as Hall.
      { destruct Hused as [H1 H2 H3]. split; [by rewrite <- app_assoc, <- H1 | rewrite length_app; simpl in *; lia | done]. }
      split_and!; [| apply (advanced_trans [] _ _ _ _ _ _ _ Hadv); by apply (advanced_trans [] _ _ _ _ _ _ _ Hadv2) | lia].
      rewrite (ad_bytes _ _ _ _ _ _ _ Hall), Hcons, <- zlen_app. by rewrite zdrop_app_exact.
    + intros Hc. destruct (chunked_spec lim [] (initial ++ arriving c2)) as [o res] eqn:E.
      specialize (Hrd Hc). unfold chunks_rejected in Hrd. rewrite E in Hrd.
      simpl in Hrd. destruct Hrd as [-> | [-> ->]]; done.
Qed.
Lemma read_length_body_spec r head_len n buffer c :
  rs_max_bytes r = budget -> zlen buffer <= max_head_bytes limits + READ_CHUNK_BYTES ->
  0 <= head_len <= zlen buffer -> 0 <= n <= max_body ->
  match read_body max_body head_len (ContentLength n) r buffer c with
  | (BodyOk b _, b', c') =>
      exists used, body_of max_body (ContentLength n) (zdrop head_len buffer ++ arriving c) = Ok (b, b' ++ arriving c')
                   /\ advanced (ztake head_len buffer ++ used) buffer c b' c'
                   /\ zlen b' <= max_head_bytes limits + READ_CHUNK_BYTES
  | (BodyRejected e, _, _) =>
      clean c -> body_of max_body (ContentLength n) (zdrop head_len buffer ++ arriving c) = Err e
  | (BodyBroken _, _, _) | (BodyRefused, _, _) => ~ clean c
  | (BodyCrashed, _, _) => False
  end.
Proof using Hwf.
  intros Hres Hbuf Hh Hn. destruct Hwf as ([Hmh _] & Hlim & Hroom & Hb & Hfit). unfold read_body, body_of.
  rewrite (proj2 (Z.ltb_ge _ _)) by lia.
  pose proof (advanced_drop head_len buffer c) as Hd.
  set (rest := zdrop head_len buffer) in *. set (k := Z.min (saturating_sub (zlen buffer) head_len) n).
  assert (zlen rest = zlen buffer - head_len) as Hlr by (unfold rest; rewrite zlen_drop by lia; zlen_facts; lia).
  assert (k = Z.min (zlen rest) n) as Hk by (unfold k, saturating_sub; lia).
  assert (zdrop head_len (ztake (head_len + k) buffer) = ztake k rest) as ->
    by (rewrite zdrop_take by lia; f_equal; lia).
  assert (zdrop (head_len + k) buffer = zdrop k rest) as -> by (unfold rest; rewrite zdrop_drop by lia; done).
  pose proof (ask_capacity_spec max_body budget (zlen buffer) c) as Hq.
  destruct (ask_capacity (zlen buffer) c) as [q c1]. destruct Hq as [Hw1 Hq].
  pose proof (admit_beside_clean max_body budget Hb r n q c1 Hres) as Hg.
  destruct (admit_beside ask_budget r n q c1) as [[overlap | e] c2].
  2: { assert (~ clean c) by (intros Hc; apply Hg; [by apply Hw1 | specialize (Hq Hc); lia]).
       destruct e as [? | []]; simpl; tauto. }
  pose proof (ask_capacity_spec max_body budget n c2) as Hq2.
  destruct (ask_capacity n c2) as [q2 c3]. destruct Hq2 as [Hw3 _].
  pose proof (waited_trans _ _ _ _ _ Hw1 (waited_trans _ _ _ _ _ Hg Hw3)) as Hw.
  assert (arriving c = arriving c3) as Ec by exact (ad_bytes _ _ _ _ _ _ _ (waited_advanced [] _ _ Hw)).
  pose proof (read_length_spec max_body budget (source_size c3) n (mkMemory r q2) (ztake k rest) c3 ltac:(done)) as Hr.
  assert (zlen (ztake k rest) = k) as Hlk by (rewrite zlen_take by lia; lia).
  specialize (Hr ltac:(lia)).
  destruct (read_length (source_size c3) n (mkMemory r q2) (ztake k rest) c3) as [[b m | e | f | |] c'].
  - destruct Hr as (Hlb & more & -> & Hm). rewrite zlen_app in Hlb.
    assert (rest ++ arriving c = (ztake k rest ++ more) ++ zdrop k rest ++ arriving c') as HS.
    { rewrite Ec, (ad_bytes _ _ _ _ _ _ _ Hm : arriving c3 = _). cbn [app].
      rewrite <- (ztake_drop k rest) at 1. rewrite <- !app_assoc. f_equal.
      destruct (decide (more = [])) as [-> | Hne]; [done |].
      rewrite (zdrop_ge k rest); [done |]. destruct more; [done |]. rewrite zlen_cons in Hlb. zlen_facts. lia. }
    exists (ztake k rest ++ more). split_and!.
    + rewrite HS. rewrite <- zlen_app in Hlb.
      rewrite (proj2 (Z.ltb_ge _ _)) by (rewrite zlen_app; zlen_facts; lia).
      by rewrite <- Hlb, ztake_app_exact, zdrop_app_exact.
    + apply (advanced_trans _ _ _ _ rest c _ _ Hd). destruct Hm as [_ Hwt Hc], (waited_advanced [] _ _ Hw) as [_ Hwt' Hc'].
      split; [done | | auto]. rewrite length_app. rewrite <- (ztake_drop k rest) at 3. rewrite length_app. simpl in *. lia.
    + etrans; [apply zlen_drop_le | lia].
  - destruct Hr as [-> Hlt]. rewrite (proj2 (Z.ltb_lt _ _)); [done |].
    rewrite Ec. rewrite zlen_app in *. zlen_facts. lia.
  - intros Hcl. by apply Hr, Hw.
  - done.
  - done.
Qed.
Lemma read_body_spec r head_len framing buffer c :
  rs_max_bytes r = budget -> zlen buffer <= max_head_bytes limits + READ_CHUNK_BYTES ->
  0 <= head_len <= zlen buffer -> (forall n, framing = ContentLength n -> 0 <= n) ->
  match read_body max_body head_len framing r buffer c with
  | (BodyOk b _, b', c') =>
      exists used, body_of max_body framing (zdrop head_len buffer ++ arriving c) = Ok (b, b' ++ arriving c')
                   /\ advanced (ztake head_len buffer ++ used) buffer c b' c'
                   /\ zlen b' <= max_head_bytes limits + READ_CHUNK_BYTES
  | (BodyRejected e, _, _) => clean c -> body_of max_body framing (zdrop head_len buffer ++ arriving c) = Err e
  | (BodyBroken _, _, _) | (BodyRefused, _, _) => ~ clean c
  | (BodyCrashed, _, _) => False
  end.
Proof using Hwf.
  intros Hres Hbuf Hh Hn. pose proof (advanced_drop head_len buffer c) as Hd.
  pose proof (zlen_drop_le head_len buffer) as Hz. destruct framing as [| n |].
  - exists []. rewrite app_nil_r. split_and!; [done | done | lia].
  - destruct (Z.le_gt_cases n max_body) as [Hle | Hgt]; [apply read_length_body_spec; auto |].
    unfold read_body, body_of. by rewrite (proj2 (Z.ltb_lt _ _)) by lia.
  - unfold read_body. pose proof (read_chunked_body_spec r (zdrop head_len buffer) c Hres ltac:(lia)) as Hr.
    destruct (read_chunked_body max_body r (zdrop head_len buffer) c) as [[[b m | e | f | |] b'] c']; try done.
    destruct Hr as (used & Hb & Hu & Hl). exists used. split_and!; [done | | done].
    by apply (advanced_trans _ _ _ _ (zdrop head_len buffer) c).
Qed.
End Bodies.
(** ** The message stream *)

(** How a stream of bytes ends for the server. *)
Inductive StreamEnd : Type :=
| StreamClosed
| StreamAnswered (status : Z)
| StreamTakenOver (r : NativeHttp1Request) (rest : list Z).
Definition stream_end (e : Ending) : option StreamEnd :=
  match e with
  | EndClosed => Some StreamClosed
  | EndAnswered status => Some (StreamAnswered status)
  | EndTakenOver r prebuffered c => Some (StreamTakenOver r (prebuffered ++ arriving c))
  | EndBroken | EndCrashed => None
  end.
(** The message at the start of a stream and what follows it. *)
Definition message_of (limits : Http1HeadLimits) (max_body budget : Z) (stream : list Z)
    : result (ValidatedHttp1RequestHead * list Z * list Z) StreamEnd :=
  match head_of limits parse_http1_request_head stream with
  | Err e => Err (StreamAnswered (head_error_status e))
  | Ok None => Err StreamClosed
  | Ok (Some head) =>
      let framing := v_body_framing (vh_validation head) in
      if budget <? reservation_bytes framing then Err (StreamAnswered 503)
      else match body_of max_body framing (zdrop (rh_head_len (vh_head head)) stream) with
      | Err BodyTooLarge => Err (StreamAnswered 413)
      | Err _ => Err (StreamAnswered 400)
      | Ok (body, rest) => Ok (head, body, rest)
      end
  end.

Section Turns.
Context (limits : Http1HeadLimits) (max_body budget : Z) (Hwf : policy_wf max_body budget limits).

Lemma head_facts b head :
  parse_http1_request_head b limits = Ok (Some head) ->
  4 <= rh_head_len (vh_head head) <= zlen b
  /\ (forall n, v_body_framing (vh_validation head) = ContentLength n -> 0 <= n).
Proof using Hwf.
  destruct Hwf as [Hlim _]. intros [Hraw Hval]%parse_head_Some.
  apply parse_raw_Some in Hraw as [He%head_end_bound _]; [| done]. split; [apply He |].
  apply validate_message_Ok in Hval as (_ & _ & Hf & _). intros n Hn. rewrite Hn in Hf.
  apply body_framing_framed in Hf. inversion Hf as [| | v m _ _ Hp |]; subst.
  revert Hp. unfold parse_content_length. destruct (_ || _); [done |].
  destruct (parse_uint U64_MAX (trim v)) as [k |] eqn:E; [| done]. intros [= <-].
  by apply parse_uint_range in E as [? _].
Qed.
Lemma next_request_spec buffer c :
  zlen buffer <= max_head_bytes limits + READ_CHUNK_BYTES ->
  match next_request limits max_body budget buffer c with
  | TurnRequest head body b' c' =>
      message_of limits max_body budget (buffer ++ arriving c) = Ok (head, body, b' ++ arriving c')
      /\ zlen b' <= max_head_bytes limits + READ_CHUNK_BYTES
      /\ exists used, used <> [] /\ advanced max_body budget used buffer c b' c'
  | TurnEnds e =>
      e <> EndCrashed
      /\ (clean max_body budget c -> exists e', stream_end e = Some e'
            /\ message_of limits max_body budget (buffer ++ arriving c) = Err e')
  end.
Proof using Hwf.
  intros Hbuf. pose proof Hwf as (Hlim & _ & _ & Hbud & _). unfold next_request, message_of.
  pose proof (read_until_head_spec max_body budget limits Hlim (source_size c) buffer c ltac:(done)) as Hh.
  destruct (read_until_head (source_size c) limits buffer c) as [[[n | | e | f |] b1] c1];
    [| rewrite Hh; eauto.. | done | done].
  destruct Hh as (head & Hp & -> & Hof & Ha & Hb1). rewrite Hp, Hof. destruct (head_facts b1 head Hp) as [Hlen Hn].
  rewrite Z.max_r in Hb1 by done. cbv zeta.
  set (framing := v_body_framing (vh_validation head)) in *. set (k := rh_head_len (vh_head head)) in *.
  destruct (Z.ltb_spec budget (reservation_bytes framing)) as [Hover | Hfits].
  { unfold reserve, grow_to, additional_units. rewrite (proj2 (Z.ltb_lt _ _)) by done. eauto. }
  unfold reserve. pose proof (grow_to_clean max_body budget Hbud (reservation budget) _ c1 eq_refl Hfits) as Hg.
  destruct (grow_to ask_budget (reservation budget) (reservation_bytes framing) c1) as [[r res] c2].
  destruct res as [[] |]; [| split; [done | intros Hc; by destruct Hg as [_ []]; apply Ha]]. destruct Hg as [Hg Hr].
  pose proof (advanced_trans _ _ _ _ _ _ _ _ _ _ Ha (waited_advanced _ _ b1 _ _ Hg)) as H2. cbn [app] in H2.
  rewrite (ad_bytes _ _ _ _ _ _ _ H2). cbn [app]. rewrite zdrop_app_le by lia.
  pose proof (read_body_spec max_body budget limits Hwf r k framing b1 c2 Hr Hb1 ltac:(lia) Hn) as Hb.
  destruct (read_body max_body k framing r b1 c2) as [[[body m | e | f | |] b3] c3].
  - destruct Hb as (used & -> & Hu & Hz). split_and!; [done | done |]. exists (ztake k b1 ++ used).
    split; [| by apply (advanced_trans _ _ [] _ _ _ _ _ _ _ H2)].
    intros [Hnil _]%app_eq_nil. apply (f_equal zlen) in Hnil. rewrite zlen_take in Hnil by lia. rewrite zlen_nil in Hnil. lia.
  - split; [by destruct e |]. intros Hc. rewrite Hb by (by apply H2). destruct e; eauto.
  - split; [by destruct f | intros Hc; by destruct Hb; apply H2].
  - split; [done | intros Hc; by destruct Hb; apply H2].
  - done.
Qed.
End Turns.

(** ** The exchange over a byte stream *)

Section Exchange.
Context {S R : Type} (handler : Handler S R) (cx : RequestContext) (limits : Http1HeadLimits) (max_body budget : Z).

Definition request_of (head : ValidatedHttp1RequestHead) (body : list Z) : NativeHttp1Request :=
  hd_prepare handler (owned_request_from_head head cx body).
(** Whether the connection stays open after a response. *)
Definition persists (head : ValidatedHttp1RequestHead) (response : R) : Prop :=
  v_connection_directive (vh_validation head) <> Close /\ hd_closes handler response = false.

(** The requests of a stream with the handler's responses, in order: each
    message starts where the one before it ends, and the exchange stops at the
    first request that closes or takes over the connection, or where the
    stream holds no further message. *)
Inductive exchange : S -> list Z -> list (NativeHttp1Request * R) -> S -> StreamEnd -> Prop :=
| exchange_end s stream e :
    message_of limits max_body budget stream = Err e -> exchange s stream [] s e
| exchange_takeover s stream head body rest :
    message_of limits max_body budget stream = Ok (head, body, rest) ->
    hd_takes_over handler (request_of head body) = true ->
    exchange s stream [] s (StreamTakenOver (request_of head body) rest)
| exchange_close s s' stream head body rest response :
    message_of limits max_body budget stream = Ok (head, body, rest) ->
    hd_takes_over handler (request_of head body) = false ->
    hd_handle handler s (request_of head body) = (s', response) ->
    ~ persists head response ->
    exchange s stream [(request_of head body, response)] s' StreamClosed
| exchange_next s s' s'' stream head body rest response more e :
    message_of limits max_body budget stream = Ok (head, body, rest) ->
    hd_takes_over handler (request_of head body) = false ->
    hd_handle handler s (request_of head body) = (s', response) ->
    persists head response ->
    exchange s' rest more s'' e ->
    exchange s stream ((request_of head body, response) :: more) s'' e.

Lemma exchange_functional s stream log s' e log2 s2 e2 :
  exchange s stream log s' e -> exchange s stream log2 s2 e2 -> log = log2 /\ s' = s2 /\ e = e2.
Proof.
  intros Hx. revert log2 s2 e2. induction Hx as [| | | ? ? ? ? ? ? ? ? ? ? ? ? ? ? ? IH];
    intros log2 s2 e2 Hy; inversion Hy; subst;
    repeat match goal with H1 : ?f = _, H2 : ?f = _ |- _ => rewrite H1 in H2; simplify_eq H2; intros; subst end; try done.
  match goal with H : exchange _ _ _ s2 e2 |- _ => by apply IH in H as (-> & -> & ->) end.
Qed.

Context (Hwf : policy_wf max_body budget limits).
Lemma closing_spec head response :
  bool_decide (v_connection_directive (vh_validation head) = Close) || hd_closes handler response = false
  <-> persists head response.
Proof using Type. unfold persists. rewrite orb_false_iff, bool_decide_eq_false. done. Qed.

Lemma buffer_room : zlen ([] : list Z) <= max_head_bytes limits + READ_CHUNK_BYTES.
Proof using Hwf. destruct Hwf as ([Hmh _] & _). unfold READ_CHUNK_BYTES. rewrite zlen_nil. lia. Qed.
(** The bytes of a message are used up. *)
Lemma message_of_shrinks stream head body rest :
  message_of limits max_body budget stream = Ok (head, body, rest) -> (length rest < length stream)%nat.
Proof using Hwf.
  intros H. set (c := mkConn (match stream with [] => [] | _ => [Bytes stream] end) [] []).
  assert (arriving c = stream) as Ec by (unfold arriving, c; destruct stream; simpl; [done | by rewrite app_nil_r]).
  assert (clean max_body budget c) as Hc by (unfold c; split_and!; simpl; destruct stream; by repeat constructor).
  pose proof (next_request_spec limits max_body budget Hwf [] c ltac:(by apply buffer_room)) as Hn.
  cbn [app] in Hn. rewrite Ec in Hn.
  destruct (next_request limits max_body budget [] c) as [h b b' c' | e].
  - destruct Hn as (H' & _ & used & Hu & [Hb _ _]). rewrite H in H'. injection H' as _ _ ->.
    cbn [app] in Hb. rewrite Ec in Hb. rewrite Hb at 1. destruct used; [done |]. rewrite !length_app. simpl. lia.
  - destruct Hn as [_ Hn]. destruct (Hn Hc) as (e' & _ & He). congruence.
Qed.
(** Every stream has its exchange. *)
Lemma exchange_total s stream : exists log s' e, exchange s stream log s' e.
Proof using Hwf.
  remember (length stream) as n eqn:Hn. revert s stream Hn.
  induction n as [n IH] using lt_wf_ind. intros s stream ->.
  destruct (message_of limits max_body budget stream) as [[[head body] rest] | e] eqn:E; [| eauto using exchange_end].
  destruct (hd_takes_over handler (request_of head body)) eqn:Et; [eauto using exchange_takeover |].
  destruct (hd_handle handler s (request_of head body)) as [s1 response] eqn:Eh.
  destruct (bool_decide (v_connection_directive (vh_validation head) = Close) || hd_closes handler response) eqn:Ec.
  - eexists _, _, _. eapply exchange_close; [done.. |]. rewrite <- closing_spec. congruence.
  - apply closing_spec in Ec. destruct (IH _ (message_of_shrinks _ _ _ _ E) s1 rest eq_refl) as (log & s' & e & Hx).
    eauto using exchange_next.
Qed.

Lemma serve_spec fuel s buffer c :
  zlen buffer <= max_head_bytes limits + READ_CHUNK_BYTES -> (length buffer + source_size c <= fuel)%nat ->
  let '(log, s', e) := serve handler cx limits max_body budget fuel s buffer c in
  e <> EndCrashed
  /\ (clean max_body budget c -> exists e', stream_end e = Some e' /\ exchange s (buffer ++ arriving c) log s' e')
  /\ exists more s'' e', exchange s (buffer ++ arriving c) (log ++ more) s'' e'.
Proof using Hwf.
  revert s buffer c. induction fuel as [| fuel IH]; intros s buffer c Hroom Hf; simpl;
    pose proof (next_request_spec limits max_body budget Hwf buffer c Hroom) as Hn;
    (destruct (next_request limits max_body budget buffer c) as [head body b' c' | e];
     [| destruct Hn as [Hc Hn]; split_and!; [done | intros Hcl; destruct (Hn Hcl) as (e' & ? & ?); eauto using exchange_end | apply exchange_total]]);
    destruct Hn as (Hm & Hroom' & used & Hu & Ha);
    fold (request_of head body);
    (destruct (hd_takes_over handler (request_of head body)) eqn:Et;
     [split_and!; [done | eauto using exchange_takeover | apply exchange_total] |]);
    destruct (hd_handle handler s (request_of head body)) as [s1 response] eqn:Eh;
    (destruct (bool_decide (v_connection_directive (vh_validation head) = Close) || hd_closes handler response) eqn:Ec;
     [assert (~ persists head response) as Hp by (rewrite <- closing_spec; congruence);
      split_and!; [done | eauto using exchange_close | exists [], s1, StreamClosed; eauto using exchange_close] |]);
    apply closing_spec in Ec; pose proof (ad_weight _ _ _ _ _ _ _ Ha) as Hw; destruct used as [| u used]; try done; simpl in Hw.
  - lia.
  - specialize (IH s1 b' c' Hroom' ltac:(lia)). destruct (serve handler cx limits max_body budget fuel s1 b' c') as [[log s2] e].
    destruct IH as (He & Hclean & more & s3 & e3 & Hmore). split_and!; [done | |].
    + intros Hc. destruct (Hclean (ad_clean _ _ _ _ _ _ _ Ha Hc)) as (e' & ? & ?). eauto using exchange_next.
    + exists more, s3, e3. cbn [app]. eauto using exchange_next.
Qed.
End Exchange.

(** ** The connection loop *)

(** A handler that counts requests and echoes bodies. *)
Definition echo_handler : Handler Z (list Z) :=
  mkHandler _ _ (fun r => r) (fun r => bool_decide (rq_method r = bs "CONNECT"))
    (fun n r => (n + 1, rq_body r)) (fun _ => false).
Definition no_context : RequestContext := mkContext None None None false None.
(** A chunked and a length-delimited request, pipelined. *)
Definition two_requests : list Z :=
  bs "POST /a HTTP/1.1" ++ crlf ++ bs "Host: x" ++ crlf ++ bs "Transfer-Encoding: chunked" ++ crlf ++ crlf
  ++ bs "3" ++ crlf ++ bs "abc" ++ crlf ++ bs "0" ++ crlf ++ crlf
  ++ bs "PUT /b HTTP/1.1" ++ crlf ++ bs "Host: x" ++ crlf ++ bs "Content-Length: 2" ++ crlf
  ++ bs "Connection: close" ++ crlf ++ crlf ++ bs "hi".
Definition in_one_piece : Conn := mkConn [Bytes two_requests] [true] [8192; 100].
Definition byte_by_byte : Conn := mkConn ((fun x => Bytes [x]) <$> two_requests) [] [].
Lemma samples_clean :
  policy_wf 1000 1000000 default_head_limits /\ clean 1000 1000000 in_one_piece /\ clean 1000 1000000 byte_by_byte.
Proof.
  split_and!.
  - unfold policy_wf. split_and!; by apply (bool_decide_unpack _).
  - split_and!; repeat constructor; done.
  - split_and!; [| constructor | constructor]. apply Forall_fmap, Forall_true. done.
Defined.

(** C1: the connection loop handles the byte stream's messages.  Whatever
    pieces the bytes arrive in, the loop never runs out of steps.  If no fault
    occurs, the budget of body memory is not exhausted and has room for two
    bodies, the requests it hands to the
    handler, their responses, the handler's state and the way the connection
    ends are those of the exchange over the bytes: each message starts where the
    one before it ended, and a handler that takes the connection over gets all
    the bytes after its request.  In every other case the requests handled are a
    prefix of that exchange. *)
Theorem connection_serves_stream {S R : Type} (handler : Handler S R) (cx : RequestContext)
    (limits : Http1HeadLimits) (max_body budget : Z) (s : S) (c : Conn) :
  policy_wf max_body budget limits ->
  let '(log, s', e) := serve_connection handler cx limits max_body budget s c in
  e <> EndCrashed
  /\ (clean max_body budget c -> exists e', stream_end e = Some e'
                            /\ exchange handler cx limits max_body budget s (arriving c) log s' e')
  /\ exists more s'' e', exchange handler cx limits max_body budget s (arriving c) (log ++ more) s'' e'.
Proof. intros Hwf. exact (serve_spec handler cx limits max_body budget Hwf _ s [] c (buffer_room _ _ _ Hwf) (le_n _)). Qed.
Lemma connection_serves_stream_witness :
  snd <$> (serve_connection echo_handler no_context default_head_limits 1000 1000000 0 byte_by_byte).1.1 = [bs "abc"; bs "hi"]
  /\ exists log, snd <$> log = [bs "abc"; bs "hi"]
     /\ exchange echo_handler no_context default_head_limits 1000 1000000 0 two_requests log 2 StreamClosed.
Proof.
  pose proof samples_clean as (Hwf & _ & Hc).
  assert ((serve_connection echo_handler no_context default_head_limits 1000 1000000 0 byte_by_byte).2 = EndClosed
          /\ (serve_connection echo_handler no_context default_head_limits 1000 1000000 0 byte_by_byte).1.2 = 2
          /\ snd <$> (serve_connection echo_handler no_context default_head_limits 1000 1000000 0 byte_by_byte).1.1
             = [bs "abc"; bs "hi"]) as (He & Hs & Hl) by (vm_compute; done).
  split; [exact Hl |].
  pose proof (connection_serves_stream echo_handler no_context default_head_limits 1000 1000000 0 byte_by_byte Hwf) as H.
  destruct (serve_connection echo_handler no_context default_head_limits 1000 1000000 0 byte_by_byte) as [[log s'] e].
  cbn [fst snd] in He, Hs, Hl. subst s' e. destruct H as (_ & H & _). destruct (H Hc) as (e' & He' & Hx).
  injection He' as <-. exists log. split; [exact Hl | exact Hx].
Defined.


(** ** The limits of the budget *)

Definition request_declaring (length : list Z) : Conn :=
  mkConn [Bytes (bs "PUT /b HTTP/1.1" ++ crlf ++ bs "Host: x" ++ crlf ++ bs "Content-Length: " ++ length ++ crlf ++ crlf)] [] [].
(** A body over the limit is too large, but one over the budget is answered as
    if the server were busy: the reservation comes before the limit. *)
Example oversized_length_unavailable :
  (serve_connection echo_handler no_context default_head_limits 1000 1000000 0 (request_declaring (bs "2000"))).2
  = EndAnswered 413
  /\ (serve_connection echo_handler no_context default_head_limits 1000 1000000 0 (request_declaring (bs "2000000"))).2
     = EndAnswered 503.
Proof. vm_compute. done. Qed.

(** A chunk of 70000 bytes, delivered in pieces. *)
Definition large_chunk : list Delivery :=
  Bytes (bs "11170" ++ crlf) :: repeat (Bytes (repeat 97 (Z.to_nat 7000))) 10 ++ [Bytes (crlf ++ bs "0" ++ crlf ++ crlf)].
(** The decoder holds a chunk back until it is complete, so the growth reserved
    for each piece does not add up: a body of 70000 bytes is held under a
    reservation of one unit of 65536 bytes. *)
Example chunk_exceeds_reservation :
  match read_chunked_body 1000000 (reservation 4000000) [] (mkConn large_chunk [] []) with
  | (BodyOk body m, [], _) =>
      zlen body = 70000 /\ bm_capacity m = 70000 /\ rs_reserved_units (bm_reservation m) = 1
  | _ => False
  end.
Proof. vm_compute. done. Qed.
