(* ===== verification/CacheKey.v ===== *)
(** * Cache keys ([fluxheim-cache/src/request.rs], [purge_index.rs], [headers_vary.rs])

    The primary key of a request, built from length-prefixed components, reading
    a component back from a key, and the key of a variant, which adds a digest of
    the request headers named by [Vary].  The digest and its text form come from
    other packages and are a parameter. *)
From Stdlib Require Import ZArith Lia.
From stdpp Require Import base list numbers strings sets gmap.
From S2P Require Import Prelude Text Http1Target Http1Head LbBackend LbCookie HostNames RequestHeaders.

(** ** The parts of the configuration the cache reads ([config_cache.rs]) *)

Inductive CacheKeyPart : Type := KeyMethod | KeyHost | KeyPath | KeyQuery.
#[export] Instance CacheKeyPart_eq_dec : EqDecision CacheKeyPart.
Proof. solve_decision. Defined.

Inductive CacheStaleErrorKind : Type :=
| StaleConnect | StaleTimeout | StaleRead | StaleWrite | StaleConnectionClosed | StaleHttpStatus | StaleProtocol
| StaleTls | StaleOther.
#[export] Instance CacheStaleErrorKind_eq_dec : EqDecision CacheStaleErrorKind.
Proof. solve_decision. Defined.

Record CacheConfig : Type := mkCacheConfig {
  cc_enabled : bool;
  cc_local_static : bool;
  cc_memory_enabled : bool;
  cc_disk_enabled : bool;
  cc_methods : list (list Z);
  cc_image_extensions : list (list Z);
  cc_key_namespace : option (list Z);
  cc_key_parts : list CacheKeyPart;
  cc_include_query : bool;
  cc_max_object_bytes : Z;
  cc_hide_response_headers : list (list Z);
  cc_tag_headers : list (list Z);
  cc_content_types : list (list Z);
  cc_status_ttls : gmap Z Z;
  cc_default_status_ttl_secs : option Z;
  cc_no_store_response_headers : list (list Z);
  cc_no_store_response_header_values : gmap (list Z) (list Z);
  cc_vary_request_headers : list (list Z);
  cc_stale_while_revalidate_secs : option Z;
  cc_stale_if_error_secs : option Z;
  cc_stale_if_error_on : list CacheStaleErrorKind;
  cc_stale_if_error_statuses : list Z;
}.
Definition has_enabled_tier (config : CacheConfig) : bool := cc_memory_enabled config || cc_disk_enabled config.

(** ** Requests as the cache sees them *)

Record CacheRequest : Type := mkCacheRequest {
  cr_method : list Z;
  cr_host : option (list Z);
  cr_path : list Z;
  cr_query : option (list Z);
}.
Definition cache_request_path (method target : list Z) : list Z :=
  match http1_request_target method target with
  | Ok (Origin _ path _) => path
  | Ok (AbsoluteUri _ _ _ path _) => default (bs "/") path
  | Ok (Authority _ _) | Ok Asterisk | Err _ => bs "/"
  end.
Definition cache_request_query (method target : list Z) : option (list Z) :=
  match http1_request_target method target with
  | Ok (Origin _ _ query) | Ok (AbsoluteUri _ _ _ _ query) => query
  | Ok (Authority _ _) | Ok Asterisk | Err _ => None
  end.
Definition native_request_header (r : NativeHttp1Request) (name : list Z) : option (list Z) :=
  snd <$> List.find (named name) (rq_headers r).
Definition cache_request (r : NativeHttp1Request) : CacheRequest :=
  mkCacheRequest (rq_method r) (native_request_header r (bs "host"))
    (cache_request_path (rq_method r) (rq_target r)) (cache_request_query (rq_method r) (rq_target r)).

(** ** Primary keys *)

Definition append_cache_key_component (key label value : list Z) : list Z :=
  key ++ label ++ [58] ++ to_decimal (zlen value) ++ [58] ++ value ++ [59].
Definition method_allowed (config : CacheConfig) (method : list Z) : bool :=
  existsb (fun candidate => bool_decide (candidate = method)) (cc_methods config).
Definition image_extension (path : list Z) : option (list Z) :=
  match last (split_byte 47 path) with
  | None => None
  | Some file_name =>
      if bool_decide (file_name = []) || bool_decide (file_name = bs ".") || bool_decide (file_name = bs "..") then None
      else match rsplit_once 46 file_name with
           | None => None
           | Some (stem, extension) =>
               if bool_decide (stem = []) || bool_decide (extension = []) then None else Some extension
           end
  end.
Definition extension_allowed (config : CacheConfig) (path : list Z) : bool :=
  match image_extension path with
  | Some extension => existsb (fun candidate => eq_ignore_ascii_case candidate extension) (cc_image_extensions config)
  | None => false
  end.
Definition eligible_image_request (config : CacheConfig) (request : CacheRequest) : bool :=
  cc_enabled config && has_enabled_tier config && method_allowed config (cr_method request)
  && extension_allowed config (cr_path request).
(** One turn of the loop over the configured parts. *)
Definition append_key_part (config : CacheConfig) (request : CacheRequest) (key : list Z) (part : CacheKeyPart) : list Z :=
  match part with
  | KeyMethod => append_cache_key_component key (bs "method") (cr_method request)
  | KeyHost => append_cache_key_component key (bs "host") (default [] (cr_host request ≫= normalize_host))
  | KeyPath => append_cache_key_component key (bs "path") (cr_path request)
  | KeyQuery =>
      if cc_include_query config then append_cache_key_component key (bs "query") (default [] (cr_query request))
      else key
  end.
Definition append_request_parts (config : CacheConfig) (request : CacheRequest) (key : list Z) : list Z :=
  fold_left (append_key_part config request) (cc_key_parts config)
    (match cc_key_namespace config with
     | Some namespace => append_cache_key_component key (bs "namespace") namespace
     | None => key
     end).
Definition image_cache_key (config : CacheConfig) (request : CacheRequest) : option (list Z) :=
  if negb (eligible_image_request config request) then None
  else Some (append_request_parts config request (bs "fluxheim-image-v1;")).
Definition eligible_static_request (config : CacheConfig) (request : CacheRequest) : bool :=
  cc_enabled config && cc_local_static config && has_enabled_tier config && bool_decide (cr_method request = bs "GET")
  && extension_allowed config (cr_path request).
Definition static_cache_key (config : CacheConfig) (request : CacheRequest) (file_identity : list Z) : option (list Z) :=
  if negb (eligible_static_request config request) then None
  else Some (append_cache_key_component (append_request_parts config request (bs "fluxheim-static-v1;"))
               (bs "file") file_identity).
(** [key_with_components] of the proxy's cache. *)
Definition key_with_components (config : CacheConfig) (r : NativeHttp1Request) (key_components : list (list Z * list Z))
    : option (list Z) :=
  (fun key => fold_left (fun key component => append_cache_key_component key component.1 component.2) key_components key)
    <$> image_cache_key config (cache_request r).
(** [cache_key_with_component]: the key of a byte range of an object. *)
Definition cache_key_with_component (primary label value : list Z) : list Z :=
  append_cache_key_component primary label value.

(** ** Reading a component back *)

(** Every turn takes at least the separators off, so the length is enough fuel. *)
Fixpoint primary_component_loop (fuel : nat) (rest name : list Z) : option (list Z) :=
  match fuel with
  | O => None
  | S fuel =>
      match rest with
      | [] => None
      | _ =>
          match split_once 58 rest with
          | None => None
          | Some (component, after_component) =>
              match split_once 58 after_component with
              | None => None
              | Some (len, after_len) =>
                  match parse_uint USIZE_MAX len with
                  | None => None
                  | Some len =>
                      if zlen after_len <? len then None
                      else if negb (utf8_valid (ztake len after_len)) then None
                      else match strip_prefix [59] (zdrop len after_len) with
                           | None => None
                           | Some rest =>
                               if bool_decide (component = name) then Some (ztake len after_len)
                               else primary_component_loop fuel rest name
                           end
                  end
              end
          end
      end
  end.
Definition cache_primary_component (primary_key name : list Z) : option (list Z) :=
  let rest := default primary_key (strip_prefix (bs "fluxheim-image-v1;") primary_key) in
  primary_component_loop (S (length rest)) rest name.

(** ** Variants *)

Definition append_vary_hash_component (material bytes : list Z) : list Z :=
  material ++ to_le_bytes 8 (zlen bytes) ++ bytes.
Definition append_vary_field (material : list Z) (field : list Z * list (list Z)) : list Z :=
  fold_left append_vary_hash_component field.2
    (append_vary_hash_component material field.1 ++ to_le_bytes 4 (zlen field.2)).
Definition vary_request_hash_material (fields : list (list Z * list (list Z))) : list Z :=
  fold_left append_vary_field fields (bs "fluxheim-vary-v2").
Definition vary_field_values (headers : list header) (field : list Z) : list Z * list (list Z) :=
  (field, snd <$> List.filter (fun h => eq_ignore_ascii_case h.1 field) headers).

Section Variants.
(** The SHA-256 digest in URL-safe base64. *)
Context (variance : list Z -> option (list Z)).

Definition native_vary_cache_key (base_key : list Z) (fields : list (list Z)) (r : NativeHttp1Request)
    : option (list Z) :=
  (fun digest => base_key ++ bs ";vary-sha256:" ++ digest)
    <$> variance (vary_request_hash_material (vary_field_values (rq_headers r) <$> fields)).
End Variants.

(** * Cache keys identify what they are built from

    Two requests share a primary key exactly when they agree on every configured
    part, a component is read back from a key, and two requests share a variant
    exactly when they agree on the headers named by [Vary], unless two different
    texts have the same digest. *)
(** ** Components *)

Definition key_component (c : list Z * list Z) : list Z :=
  c.1 ++ [58] ++ to_decimal (zlen c.2) ++ [58] ++ c.2 ++ [59].
Definition print_components (l : list (list Z * list Z)) : list Z := concat (key_component <$> l).
(** Labels have no separator, lengths are those of a machine. *)
Definition component_ok (c : list Z * list Z) : Prop := (58 ∉ c.1) /\ zlen c.2 <= U64_MAX.

Lemma digits_no_colon n : 0 <= n -> 58 ∉ to_decimal n.
Proof.
  intros Hn Hin. pose proof (to_decimal_digits n Hn) as Hf. rewrite Forall_forall in Hf. by apply Hf in Hin.
Qed.
Lemma to_decimal_inj m n : 0 <= m <= U64_MAX -> 0 <= n <= U64_MAX -> to_decimal m = to_decimal n -> m = n.
Proof.
  intros Hm Hn E. pose proof (parse_uint_to_decimal U64_MAX m ltac:(lia) ltac:(lia)) as H1.
  pose proof (parse_uint_to_decimal U64_MAX n ltac:(lia) ltac:(lia)) as H2. rewrite E in H1. congruence.
Qed.
Lemma split_at_colon a1 b1 a2 b2 : 58 ∉ a1 -> 58 ∉ a2 -> a1 ++ 58 :: b1 = a2 ++ 58 :: b2 -> a1 = a2 /\ b1 = b2.
Proof.
  intros H1 H2 E. pose proof (split_once_app 58 a1 b1 H1) as S1. rewrite E, split_once_app in S1 by done. by injection S1.
Qed.
Lemma key_component_inj c1 c2 s1 s2 :
  component_ok c1 -> component_ok c2 -> key_component c1 ++ s1 = key_component c2 ++ s2 -> c1 = c2 /\ s1 = s2.
Proof.
  intros [Hl1 Hn1] [Hl2 Hn2]. destruct c1 as [l1 v1], c2 as [l2 v2]. unfold key_component. cbn [fst snd] in *.
  rewrite <- !app_assoc. cbn [app]. intros [-> E]%split_at_colon; [| done..].
  pose proof (zlen_nonneg v1). pose proof (zlen_nonneg v2).
  apply split_at_colon in E as [Ed E]; [| by apply digits_no_colon..].
  apply to_decimal_inj in Ed; [| lia..]. apply app_inj_1 in E as [-> E]; [| unfold zlen in Ed; lia].
  by injection E as ->.
Qed.
Lemma print_components_inj l1 l2 :
  Forall component_ok l1 -> Forall component_ok l2 -> print_components l1 = print_components l2 -> l1 = l2.
Proof.
  revert l2. induction l1 as [| c1 l1 IH]; intros [| c2 l2] H1 H2 E; [done | | |].
  - unfold print_components, key_component in E. cbn in E. by destruct (c2.1).
  - unfold print_components, key_component in E. cbn in E. by destruct (c1.1).
  - apply Forall_cons in H1 as [Hc1 H1]. apply Forall_cons in H2 as [Hc2 H2].
    apply key_component_inj in E as [-> E]; [| done..]. by rewrite (IH l2).
Qed.

(** ** What a request contributes *)

Definition part_label (part : CacheKeyPart) : list Z :=
  match part with KeyMethod => bs "method" | KeyHost => bs "host" | KeyPath => bs "path" | KeyQuery => bs "query" end.
(** The value a part of the key stands for. *)
Definition part_value (config : CacheConfig) (request : CacheRequest) (part : CacheKeyPart) : list Z :=
  match part with
  | KeyMethod => cr_method request
  | KeyHost => default [] (cr_host request ≫= normalize_host)
  | KeyPath => cr_path request
  | KeyQuery => if cc_include_query config then default [] (cr_query request) else []
  end.
Definition part_used (config : CacheConfig) (part : CacheKeyPart) : bool :=
  match part with KeyQuery => cc_include_query config | _ => true end.
Definition request_components (config : CacheConfig) (request : CacheRequest) : list (list Z * list Z) :=
  match cc_key_namespace config with Some namespace => [(bs "namespace", namespace)] | None => [] end
  ++ ((fun part => (part_label part, part_value config request part))
        <$> List.filter (part_used config) (cc_key_parts config)).

Lemma append_components_eq l key :
  fold_left (fun key component => append_cache_key_component key component.1 component.2) l key
  = key ++ print_components l.
Proof.
  revert key. induction l as [| c l IH]; intros key; [by rewrite app_nil_r |]. cbn [fold_left]. rewrite IH.
  unfold append_cache_key_component, print_components, key_component. cbn [fmap list_fmap concat].
  by rewrite <- !app_assoc.
Qed.
Lemma print_components_app l k : print_components (l ++ k) = print_components l ++ print_components k.
Proof. unfold print_components. by rewrite fmap_app, concat_app. Qed.
Lemma print_components_cons c l : print_components (c :: l) = key_component c ++ print_components l.
Proof. done. Qed.
Lemma append_request_parts_eq config request key :
  append_request_parts config request key = key ++ print_components (request_components config request).
Proof.
  unfold append_request_parts, request_components. rewrite print_components_app.
  set (start := match cc_key_namespace config with Some n => append_cache_key_component key (bs "namespace") n | None => key end).
  assert (start = key ++ print_components
            match cc_key_namespace config with Some n => [(bs "namespace", n)] | None => [] end) as Hs.
  { unfold start. destruct (cc_key_namespace config) as [n |]; [| by rewrite app_nil_r].
    exact (append_components_eq [(bs "namespace", n)] key). }
  rewrite app_assoc, <- Hs. clearbody start. clear Hs. revert start.
  induction (cc_key_parts config) as [| part parts IH]; intros start; [by rewrite app_nil_r |].
  cbn [fold_left List.filter]. rewrite IH. destruct part; cbn [part_used append_key_part].
  all: try (destruct (cc_include_query config) eqn:Eq); cbn [fmap list_fmap]; try done.
  all: rewrite print_components_cons, app_assoc; f_equal; unfold append_cache_key_component, key_component;
    cbn [part_value part_label fst snd]; rewrite ?Eq; by rewrite <- ?app_assoc.
Qed.

Lemma request_components_ok config request :
  (forall part, zlen (part_value config request part) <= U64_MAX) ->
  (forall namespace, cc_key_namespace config = Some namespace -> zlen namespace <= U64_MAX) ->
  Forall component_ok (request_components config request).
Proof.
  intros Hv Hn. apply Forall_app. split.
  - destruct (cc_key_namespace config) as [n |]; [| constructor]. apply Forall_singleton.
    split; [by apply (bool_decide_unpack _) | by apply Hn].
  - apply Forall_fmap, Forall_forall. intros part _. split; [| apply Hv].
    destruct part; by apply (bool_decide_unpack _).
Qed.
Lemma key_with_components_eq config r components key :
  key_with_components config r components = Some key ->
  key = bs "fluxheim-image-v1;" ++ print_components (request_components config (cache_request r) ++ components).
Proof.
  unfold key_with_components, image_cache_key. destruct (negb _); [done |]. cbn [fmap option_fmap option_map].
  intros [= <-]. by rewrite append_components_eq, append_request_parts_eq, print_components_app, app_assoc.
Qed.
Lemma request_components_agree config r1 r2 :
  request_components config r1 = request_components config r2
  <-> forall part, part ∈ cc_key_parts config -> part_value config r1 part = part_value config r2 part.
Proof.
  unfold request_components. split.
  - intros E%app_inv_head part Hp. destruct (part_used config part) eqn:Eu.
    + induction (cc_key_parts config) as [| p parts IH]; [by apply not_elem_of_nil in Hp |]. cbn [List.filter] in E.
      apply elem_of_cons in Hp as [<- | Hp].
      * rewrite Eu in E. by injection E.
      * destruct (part_used config p); [injection E as _ E |]; by apply IH.
    + destruct part; try done. cbn in Eu |- *. by rewrite Eu.
  - intros Hv. f_equal. apply list_fmap_ext. intros i part [Hp _]%list_elem_of_lookup_2%list_elem_of_In%filter_In.
    cbv beta. rewrite Hv; [done | by apply list_elem_of_In].
Qed.

(** All lengths of a request fit a machine. *)
Definition key_sizes (config : CacheConfig) (request : CacheRequest) : Prop :=
  (forall part, zlen (part_value config request part) <= U64_MAX)
  /\ forall namespace, cc_key_namespace config = Some namespace -> zlen namespace <= U64_MAX.

Definition sample_cache_config : CacheConfig :=
  mkCacheConfig true false true false [bs "GET"] [bs "png"] (Some (bs "v1")) [KeyMethod; KeyHost; KeyPath; KeyQuery]
    true 1048576 [] [bs "cache-tag"] [bs "image/*"] ∅ None [] ∅ [] (Some 30) None [] [].
Definition sample_cache_request (target host language : list Z) : NativeHttp1Request :=
  mkRequest (bs "GET") None None None false None target Http11 [(bs "Host", host); (bs "Accept-Language", language)] [].

(** C12: cache keys identify requests.  Two requests get the same key exactly when
    they agree on every part of the request the configuration names, and on the
    further components: no method, host, path or query can be chosen so that one
    part is read as another. *)
Theorem cache_keys_exact (config : CacheConfig) (r1 r2 : NativeHttp1Request)
    (components1 components2 : list (list Z * list Z)) (key1 key2 : list Z) :
  key_with_components config r1 components1 = Some key1 -> key_with_components config r2 components2 = Some key2 ->
  key_sizes config (cache_request r1) -> key_sizes config (cache_request r2) ->
  Forall component_ok components1 -> Forall component_ok components2 ->
  key1 = key2
  <-> (forall part, part ∈ cc_key_parts config ->
        part_value config (cache_request r1) part = part_value config (cache_request r2) part)
      /\ components1 = components2.
Proof.
  intros ->%key_with_components_eq ->%key_with_components_eq [Hv1 Hn1] [Hv2 Hn2] H1 H2.
  rewrite <- request_components_agree. split; [| by intros [-> ->]].
  intros E%app_inv_head%print_components_inj; [| by apply Forall_app; split; [apply request_components_ok |]..].
  apply app_inj_1 in E; [done |]. unfold request_components. by rewrite !length_app, !length_fmap.
Qed.
Lemma cache_keys_exact_witness :
  (forall part, part ∈ cc_key_parts sample_cache_config ->
    part_value sample_cache_config (cache_request (sample_cache_request (bs "/a.png?x") (bs "Example.com:80") (bs "en"))) part
    = part_value sample_cache_config (cache_request (sample_cache_request (bs "/a.png?x") (bs "example.com") (bs "de"))) part)
  /\ @nil (list Z * list Z) = [].
Proof.
  apply (cache_keys_exact sample_cache_config (sample_cache_request (bs "/a.png?x") (bs "Example.com:80") (bs "en"))
    (sample_cache_request (bs "/a.png?x") (bs "example.com") (bs "de")) [] []
    (bs "fluxheim-image-v1;namespace:2:v1;method:3:GET;host:11:example.com;path:6:/a.png;query:1:x;")
    (bs "fluxheim-image-v1;namespace:2:v1;method:3:GET;host:11:example.com;path:6:/a.png;query:1:x;")).
  - by vm_compute.
  - by vm_compute.
  - split; [by intros []; vm_compute | by intros ? [= <-]; vm_compute].
  - split; [by intros []; vm_compute | by intros ? [= <-]; vm_compute].
  - constructor.
  - constructor.
  - reflexivity.
Defined.

(** ** Reading components back *)

Definition first_component (l : list (list Z * list Z)) (name : list Z) : option (list Z) :=
  snd <$> List.find (fun c => bool_decide (c.1 = name)) l.
Lemma component_loop_reads l name fuel :
  Forall component_ok l -> Forall (fun c => utf8_valid c.2 = true) l -> (length (print_components l) < fuel)%nat ->
  primary_component_loop fuel (print_components l) name = first_component l name.
Proof.
  revert fuel. induction l as [| c l IH]; intros fuel Hok Hu Hf; (destruct fuel as [| fuel]; [lia |]); [done |].
  apply Forall_cons in Hok as [[Hc Hn] Hok]. apply Forall_cons in Hu as [Hu1 Hu]. pose proof (zlen_nonneg c.2) as Hpos.
  assert (length (print_components l) < fuel)%nat as Hf'.
  { rewrite print_components_cons, length_app in Hf. unfold key_component in Hf. rewrite !length_app in Hf. simpl in Hf. lia. }
  rewrite print_components_cons. unfold key_component. rewrite <- !app_assoc. cbn [app].
  assert (exists x rest, c.1 ++ 58 :: to_decimal (zlen c.2) ++ 58 :: c.2 ++ 59 :: print_components l = x :: rest)
    as (x & rest & E) by (destruct (c.1); eauto).
  cbn [primary_component_loop]. rewrite E. cbv iota. rewrite <- E. clear x rest E.
  rewrite split_once_app by done. rewrite split_once_app by (by apply digits_no_colon).
  rewrite parse_uint_to_decimal by (unfold USIZE_MAX; lia). rewrite zlen_app, (proj2 (Z.ltb_ge _ _)) by (zlen_facts; lia).
  rewrite ztake_app_exact, zdrop_app_exact, Hu1. cbn [negb].
  change (59 :: print_components l) with ([59] ++ print_components l). rewrite strip_prefix_app.
  unfold first_component. cbn [List.find]. case_bool_decide; [done |]. by apply IH.
Qed.

(** Every component of a key is read back from it. *)
Theorem cache_key_components_read (config : CacheConfig) (r : NativeHttp1Request) (components : list (list Z * list Z))
    (key name : list Z) :
  key_with_components config r components = Some key -> key_sizes config (cache_request r) ->
  Forall component_ok components ->
  Forall (fun c => utf8_valid c.2 = true) (request_components config (cache_request r) ++ components) ->
  cache_primary_component key name = first_component (request_components config (cache_request r) ++ components) name.
Proof.
  intros ->%key_with_components_eq [Hv Hn] Hc Hu. unfold cache_primary_component. rewrite strip_prefix_app. cbn [from_option id].
  apply component_loop_reads; [| done | cbv zeta; lia]. apply Forall_app. split; [by apply request_components_ok | done].
Qed.

(** ** Variants *)

Definition hash_component (b : list Z) : list Z := to_le_bytes 8 (zlen b) ++ b.
Definition hash_field (f : list Z * list (list Z)) : list Z :=
  hash_component f.1 ++ to_le_bytes 4 (zlen f.2) ++ concat (hash_component <$> f.2).
Definition field_sizes (f : list Z * list (list Z)) : Prop :=
  zlen f.1 <= U64_MAX /\ zlen f.2 <= U32_MAX /\ Forall (fun v => zlen v <= U64_MAX) f.2.

Lemma vary_material_eq fields :
  vary_request_hash_material fields = bs "fluxheim-vary-v2" ++ concat (hash_field <$> fields).
Proof.
  unfold vary_request_hash_material. generalize (bs "fluxheim-vary-v2"). induction fields as [| f fields IH]; intros m.
  { by rewrite app_nil_r. }
  cbn [fold_left fmap list_fmap concat]. rewrite IH, app_assoc. f_equal. unfold append_vary_field, hash_field.
  assert (forall vs m, fold_left append_vary_hash_component vs m = m ++ concat (hash_component <$> vs)) as Hv.
  { induction vs as [| v vs IHv]; intros m'; [by rewrite app_nil_r |]. cbn [fold_left fmap list_fmap concat].
    rewrite IHv. unfold append_vary_hash_component, hash_component. by rewrite <- !app_assoc. }
  rewrite Hv. unfold append_vary_hash_component, hash_component. by rewrite <- !app_assoc.
Qed.
Lemma hash_component_inj b1 b2 s1 s2 :
  zlen b1 <= U64_MAX -> zlen b2 <= U64_MAX -> hash_component b1 ++ s1 = hash_component b2 ++ s2 -> b1 = b2 /\ s1 = s2.
Proof.
  intros H1 H2. unfold hash_component. rewrite <- !app_assoc. intros E.
  apply app_inj_1 in E as [El E]; [| by rewrite !to_le_bytes_length].
  apply to_le_bytes_inj in El; [| unfold U64_MAX in *; zlen_facts; simpl; lia ..].
  apply app_inj_1 in E; [done | unfold zlen in El; lia].
Qed.
Lemma hash_values_inj v1 v2 s1 s2 :
  Forall (fun v => zlen v <= U64_MAX) v1 -> Forall (fun v => zlen v <= U64_MAX) v2 -> length v1 = length v2 ->
  concat (hash_component <$> v1) ++ s1 = concat (hash_component <$> v2) ++ s2 -> v1 = v2 /\ s1 = s2.
Proof.
  revert v2. induction v1 as [| x v1 IH]; intros [| y v2] H1 H2 Hl E; try done.
  apply Forall_cons in H1 as [Hx H1]. apply Forall_cons in H2 as [Hy H2]. cbn [fmap list_fmap concat] in E.
  rewrite <- !app_assoc in E. apply hash_component_inj in E as [-> E]; [| done..].
  apply IH in E as [-> ->]; [done..| by injection Hl].
Qed.
Lemma hash_field_inj f1 f2 s1 s2 :
  field_sizes f1 -> field_sizes f2 -> hash_field f1 ++ s1 = hash_field f2 ++ s2 -> f1 = f2 /\ s1 = s2.
Proof.
  destruct f1 as [n1 v1], f2 as [n2 v2]. intros (Hn1 & Hc1 & Hv1) (Hn2 & Hc2 & Hv2). cbn [fst snd] in *.
  unfold hash_field. cbn [fst snd]. rewrite <- !app_assoc. intros [-> E]%hash_component_inj; [| done..].
  apply app_inj_1 in E as [El E]; [| by rewrite !to_le_bytes_length].
  apply to_le_bytes_inj in El; [| unfold U32_MAX in *; zlen_facts; simpl; lia ..].
  apply hash_values_inj in E as [-> ->]; [done | done | done | unfold zlen in El; lia].
Qed.
Lemma vary_material_inj f1 f2 :
  Forall field_sizes f1 -> Forall field_sizes f2 ->
  vary_request_hash_material f1 = vary_request_hash_material f2 -> f1 = f2.
Proof.
  rewrite !vary_material_eq. intros H1 H2 E%app_inv_head. revert f2 H2 E.
  induction H1 as [| x f1 Hx _ IH]; intros [| y f2] H2 E; [done | | |].
  - exfalso. cbn in E. unfold hash_field, hash_component in E. cbn in E. done.
  - exfalso. cbn in E. unfold hash_field, hash_component in E. cbn in E. done.
  - apply Forall_cons in H2 as [Hy H2]. cbn [fmap list_fmap concat] in E.
    apply hash_field_inj in E as [-> E]; [| done..]. by rewrite (IH f2).
Qed.

(** What the digest's text looks like: SHA-256 in URL-safe base64 without
    padding. *)
Definition base64url_byte (c : Z) : Prop := is_ascii_alphanumeric c = true \/ c = 45 \/ c = 95.
Class DigestText (variance : list Z -> option (list Z)) : Prop := {
  digest_width : forall m d, variance m = Some d -> zlen d = 43;
  digest_alphabet : forall m d, variance m = Some d -> Forall base64url_byte d;
}.
(** Two texts with one digest. *)
Definition collision (variance : list Z -> option (list Z)) : Prop :=
  exists m1 m2 d, m1 <> m2 /\ variance m1 = Some d /\ variance m2 = Some d.

Section Variant.
Context (variance : list Z -> option (list Z)) `{!DigestText variance}.

(** Variants share a key only for one primary key and equal header values. *)
Lemma vary_key_exact base1 base2 fields1 fields2 r1 r2 key :
  native_vary_cache_key variance base1 fields1 r1 = Some key ->
  native_vary_cache_key variance base2 fields2 r2 = Some key ->
  Forall field_sizes (vary_field_values (rq_headers r1) <$> fields1) ->
  Forall field_sizes (vary_field_values (rq_headers r2) <$> fields2) ->
  base1 = base2
  /\ (vary_field_values (rq_headers r1) <$> fields1 = vary_field_values (rq_headers r2) <$> fields2 \/ collision variance).
Proof using DigestText0.
  unfold native_vary_cache_key. intros H1 H2 Hs1 Hs2.
  destruct (variance (vary_request_hash_material (_ <$> fields1))) as [d1 |] eqn:E1; [| done].
  destruct (variance (vary_request_hash_material (_ <$> fields2))) as [d2 |] eqn:E2; [| done].
  cbn [fmap option_fmap option_map] in H1, H2. assert (base1 ++ bs ";vary-sha256:" ++ d1 = base2 ++ bs ";vary-sha256:" ++ d2) as E by congruence.
  pose proof (digest_width _ _ E1) as Hw1. pose proof (digest_width _ _ E2) as Hw2.
  rewrite !app_assoc in E. apply app_inj_2 in E as [E <-]; [| unfold zlen in *; lia]. apply app_inj_2 in E as [-> _]; [| done].
  split; [done |].
  destruct (decide (vary_request_hash_material (vary_field_values (rq_headers r1) <$> fields1)
                    = vary_request_hash_material (vary_field_values (rq_headers r2) <$> fields2))) as [Em | Hne].
  - left. by apply vary_material_inj.
  - right. by exists (vary_request_hash_material (vary_field_values (rq_headers r1) <$> fields1)),
      (vary_request_hash_material (vary_field_values (rq_headers r2) <$> fields2)), d1.
Qed.
(** The last byte tells primary keys from variants. *)
Lemma vary_key_last base fields r key :
  native_vary_cache_key variance base fields r = Some key -> last key <> Some 59.
Proof using DigestText0.
  unfold native_vary_cache_key. destruct (variance _) as [d |] eqn:E; [| done]. intros Hk.
  cbn [fmap option_fmap option_map] in Hk. assert (key = base ++ bs ";vary-sha256:" ++ d) as -> by congruence.
  pose proof (digest_width _ _ E) as Hw. pose proof (digest_alphabet _ _ E) as Ha.
  destruct (List.exists_last (l := d) ltac:(by intros ->)) as (d' & c & ->). rewrite !app_assoc, last_snoc. intros [= Ec].
  apply Forall_app in Ha as [_ Hc]. rewrite Forall_singleton in Hc. subst c. unfold base64url_byte in Hc. destruct Hc as [Hc | Hc]; [done | lia].
Qed.
End Variant.
Lemma primary_key_last config r components key :
  key_with_components config r components = Some key -> last key = Some 59.
Proof.
  intros ->%key_with_components_eq. destruct (request_components _ _ ++ components) as [| c l _] using rev_ind; [done |].
  rewrite print_components_app. unfold print_components at 2. cbn [fmap list_fmap concat]. unfold key_component.
  rewrite app_nil_r, !app_assoc, last_snoc. done.
Qed.
