(* ===== verification/CachePurge.v ===== *)
(** * The purge index ([fluxheim-cache/src/purge_index.rs])

    The index that finds the objects to purge by scope, tag, path, prefix or
    pattern.  Its lock is always taken, so an operation is one step. *)
From Stdlib Require Import ZArith Lia.
From stdpp Require Import base list numbers strings sets gmap.
From S2P Require Import Prelude Text Http1Target LbBackend HostNames RequestHeaders CacheKey.

(** ** The index *)

Record CachePurgeIndexEntry : Type := mkPurgeEntry {
  pe_combined_key : list Z;
  pe_primary_key : list Z;
  pe_user_tag : list Z;
  pe_path : option (list Z);
  pe_cache_tags : list (list Z);
}.
Record CachePurgeIndex : Type := mkPurgeIndex {
  pi_entries : gmap (list Z) CachePurgeIndexEntry;
  pi_order : list (list Z);
}.
Definition purge_index_new : CachePurgeIndex := mkPurgeIndex ∅ [].

Definition insert_with_path_and_tags (combined primary user_tag : list Z) (path : option (list Z)) (tags : list (list Z))
    (index : CachePurgeIndex) : CachePurgeIndex :=
  let entry := mkPurgeEntry combined primary user_tag path tags in
  match pi_entries index !! combined with
  | Some _ => mkPurgeIndex (<[combined := entry]> (pi_entries index)) (pi_order index)
  | None => mkPurgeIndex (<[combined := entry]> (pi_entries index)) (pi_order index ++ [combined])
  end.
(** [insert]: the path is read from the key. *)
Definition purge_insert (combined primary user_tag : list Z) (index : CachePurgeIndex) : CachePurgeIndex :=
  insert_with_path_and_tags combined primary user_tag (cache_primary_component primary (bs "path")) [] index.
Definition remove_combined (combined : list Z) (index : CachePurgeIndex) : CachePurgeIndex * bool :=
  match pi_entries index !! combined with
  | Some _ =>
      (mkPurgeIndex (delete combined (pi_entries index))
         (List.filter (fun candidate => negb (bool_decide (candidate = combined))) (pi_order index)), true)
  | None => (index, false)
  end.
Definition move_combined_keys_to_back (keys : list (list Z)) (index : CachePurgeIndex) : CachePurgeIndex :=
  let candidates := List.filter (fun key => bool_decide (is_Some (pi_entries index !! key))) keys in
  if bool_decide (candidates = []) then index
  else mkPurgeIndex (pi_entries index)
         (List.filter (fun key => negb (bool_decide (key ∈ candidates))) (pi_order index) ++ candidates).

Definition entries_matching (limit : Z) (matching : CachePurgeIndexEntry -> bool) (index : CachePurgeIndex)
    : list CachePurgeIndexEntry :=
  ztake limit (List.filter matching (omap (fun key => pi_entries index !! key) (pi_order index))).
(** The guard the queries share: no query with an empty argument. *)
Definition query (arguments : list (list Z)) (limit : Z) (matching : CachePurgeIndexEntry -> bool)
    (index : CachePurgeIndex) : list CachePurgeIndexEntry :=
  if existsb (fun argument => bool_decide (argument = [])) arguments || (limit =? 0) then []
  else entries_matching limit matching index.
Definition has_user_tag (user_tag : list Z) (e : CachePurgeIndexEntry) : bool := bool_decide (pe_user_tag e = user_tag).
Definition path_is (test : list Z -> bool) (e : CachePurgeIndexEntry) : bool :=
  match pe_path e with Some path => test path | None => false end.

(** ** Patterns *)

(** The loop of [cache_path_wildcard_matches]: the rest of the path after all parts. *)
Fixpoint wildcard_parts (first_part anchored_start : bool) (parts : list (list Z)) (rest : list Z) : option (list Z) :=
  match parts with
  | [] => Some rest
  | part :: parts =>
      if first_part && anchored_start then
        match strip_prefix part rest with
        | Some rest => wildcard_parts false anchored_start parts rest
        | None => None
        end
      else
        match find_sub part rest with
        | Some index => wildcard_parts false anchored_start parts (zdrop (index + zlen part) rest)
        | None => None
        end
  end.
Definition cache_path_wildcard_matches (pattern path : list Z) : bool :=
  if bool_decide (pattern = bs "*") then true
  else
    let anchored_start := negb (starts_with (bs "*") pattern) in
    let anchored_end := negb (ends_with (bs "*") pattern) in
    match wildcard_parts true anchored_start
            (List.filter (fun part => negb (bool_decide (part = []))) (split_byte 42 pattern)) path with
    | None => false
    | Some rest => negb anchored_end || ends_with (bs "*") pattern || bool_decide (rest = [])
    end.

(** ** Queries *)

Definition entries_with_prefix (prefix : list Z) (limit : Z) : CachePurgeIndex -> list CachePurgeIndexEntry :=
  query [prefix] limit (fun e => starts_with prefix (pe_combined_key e)).
Definition entries_for_user_tag (user_tag : list Z) (limit : Z) : CachePurgeIndex -> list CachePurgeIndexEntry :=
  query [user_tag] limit (has_user_tag user_tag).
Definition entries_for_user_tag_path_prefix (user_tag path_prefix : list Z) (limit : Z)
    : CachePurgeIndex -> list CachePurgeIndexEntry :=
  query [user_tag; path_prefix] limit (fun e => has_user_tag user_tag e && path_is (starts_with path_prefix) e).
Definition entries_for_user_tag_path_exact (user_tag path_exact : list Z) (limit : Z)
    : CachePurgeIndex -> list CachePurgeIndexEntry :=
  query [user_tag; path_exact] limit
    (fun e => has_user_tag user_tag e && path_is (fun path => bool_decide (path = path_exact)) e).
Definition entries_for_user_tag_path_pattern (user_tag path_pattern : list Z) (limit : Z)
    : CachePurgeIndex -> list CachePurgeIndexEntry :=
  query [user_tag; path_pattern] limit
    (fun e => has_user_tag user_tag e && path_is (cache_path_wildcard_matches path_pattern) e).
Definition entries_for_user_tag_cache_tag (user_tag cache_tag : list Z) (limit : Z)
    : CachePurgeIndex -> list CachePurgeIndexEntry :=
  query [user_tag; cache_tag] limit
    (fun e => has_user_tag user_tag e && existsb (fun tag => bool_decide (tag = cache_tag)) (pe_cache_tags e)).
Definition combined_keys_for_primary (primary : list Z) (index : CachePurgeIndex) : list (list Z) :=
  (fun e => pe_combined_key e)
    <$> List.filter (fun e => bool_decide (pe_primary_key e = primary)) ((map_to_list (pi_entries index)).*2).

(** * What a purge query finds

    The index lists every object once; a query finds exactly the objects that
    match.  A pattern only matches paths of its form, and all of them when it ends
    in a star; with a fixed ending it can miss some. *)
(** ** The index lists every object once *)

Record purge_wf (index : CachePurgeIndex) : Prop := {
  pw_once : NoDup (pi_order index);
  pw_listed : forall key, key ∈ pi_order index <-> is_Some (pi_entries index !! key);
  pw_key : forall key e, pi_entries index !! key = Some e -> pe_combined_key e = key;
}.

Lemma purge_wf_new : purge_wf purge_index_new.
Proof.
  split; [apply NoDup_nil_2 | | by intros key e; cbn; rewrite lookup_empty]. intros key. cbn. rewrite lookup_empty. split.
  - by intros ?%not_elem_of_nil.
  - by intros [].
Qed.
Lemma purge_wf_insert combined primary user_tag path tags index :
  purge_wf index -> purge_wf (insert_with_path_and_tags combined primary user_tag path tags index).
Proof.
  intros [Ho Hl Hk]. unfold insert_with_path_and_tags. destruct (pi_entries index !! combined) as [e0 |] eqn:E.
  - split; cbn [pi_entries pi_order]; [done | |].
    + intros key. rewrite lookup_insert_is_Some', Hl. split; [by right |]. intros [<- | ?]; [by rewrite E | done].
    + intros key e [[<- <-] | [_ ?]]%lookup_insert_Some; [done | by apply Hk].
  - split; cbn [pi_entries pi_order].
    + apply NoDup_app. split_and!; [done | | by apply NoDup_singleton].
      intros key Hin ->%list_elem_of_singleton. apply Hl in Hin as [? ?]. congruence.
    + intros key. rewrite lookup_insert_is_Some', elem_of_app, list_elem_of_singleton, Hl. intuition congruence.
    + intros key e [[<- <-] | [_ ?]]%lookup_insert_Some; [done | by apply Hk].
Qed.
Lemma elem_of_List_filter {A} (f : A -> bool) l x : x ∈ List.filter f l <-> x ∈ l /\ f x = true.
Proof. rewrite !list_elem_of_In. apply filter_In. Qed.
Lemma NoDup_List_filter {A} (f : A -> bool) l : NoDup l -> NoDup (List.filter f l).
Proof.
  induction 1 as [| x l Hx _ IH]; [constructor |]. cbn. destruct (f x); [| done]. constructor; [| done].
  by rewrite elem_of_List_filter; intros [? _].
Qed.
Lemma purge_wf_remove combined index : purge_wf index -> purge_wf (remove_combined combined index).1.
Proof.
  intros [Ho Hl Hk]. unfold remove_combined. destruct (pi_entries index !! combined) eqn:E; [| by split].
  split; cbn [fst pi_entries pi_order].
  - by apply NoDup_List_filter.
  - intros key. rewrite elem_of_List_filter, lookup_delete_is_Some, Hl, negb_true_iff, bool_decide_eq_false. naive_solver.
  - intros key e [_ ?]%lookup_delete_Some. by apply Hk.
Qed.
Lemma purge_wf_move keys index : NoDup keys -> purge_wf index -> purge_wf (move_combined_keys_to_back keys index).
Proof.
  intros Hn [Ho Hl Hk]. unfold move_combined_keys_to_back. case_bool_decide as Hc; [by split |].
  split; cbn [pi_entries pi_order]; [| | done].
  - apply NoDup_app. split_and!; [by apply NoDup_List_filter | | by apply NoDup_List_filter].
    intros key [_ Hb%negb_true_iff%bool_decide_eq_false]%elem_of_List_filter Hin. by apply Hb.
  - intros key. rewrite elem_of_app, elem_of_List_filter, negb_true_iff, bool_decide_eq_false, Hl.
    set (candidates := List.filter _ keys) in *.
    assert (key ∈ candidates -> is_Some (pi_entries index !! key)) as Hs
      by (by intros [_ ?%bool_decide_eq_true]%elem_of_List_filter).
    destruct (decide (key ∈ candidates)); tauto.
Qed.
(** Removing an object leaves the others alone. *)
Lemma remove_combined_lookup combined index key :
  pi_entries (remove_combined combined index).1 !! key = if decide (key = combined) then None else pi_entries index !! key.
Proof.
  unfold remove_combined. destruct (pi_entries index !! combined) eqn:E; cbn; case_decide; subst; try done.
  - by rewrite lookup_delete_eq.
  - by rewrite lookup_delete_ne.
Qed.

(** ** Queries *)

Section Matching.
Context (matching : CachePurgeIndexEntry -> bool) (index : CachePurgeIndex) (Hwf : purge_wf index).

Lemma in_order e : e ∈ omap (fun key => pi_entries index !! key) (pi_order index)
  <-> pi_entries index !! pe_combined_key e = Some e.
Proof using Hwf.
  rewrite list_elem_of_omap. split.
  - intros (key & _ & Hk). by rewrite (pw_key _ Hwf _ _ Hk).
  - intros He. exists (pe_combined_key e). split; [| done]. apply (pw_listed _ Hwf). eauto.
Qed.
(** A query returns objects that match, and all of them when it is not cut short. *)
Lemma entries_matching_sound limit e :
  e ∈ entries_matching limit matching index -> pi_entries index !! pe_combined_key e = Some e /\ matching e = true.
Proof using Hwf.
  unfold entries_matching, ztake. intros Hin. set (found := List.filter _ _) in *.
  assert (e ∈ found) as Hf by (rewrite <- (take_drop (Z.to_nat limit) found); apply elem_of_app; by left).
  apply elem_of_List_filter in Hf as [Hf Hm]. by apply in_order in Hf.
Qed.
Lemma entries_matching_complete limit e :
  zlen (entries_matching limit matching index) < limit ->
  pi_entries index !! pe_combined_key e = Some e -> matching e = true -> e ∈ entries_matching limit matching index.
Proof using Hwf.
  unfold entries_matching, ztake, zlen. rewrite length_take. intros Hl He Hm.
  rewrite take_ge by lia. apply elem_of_List_filter. split; [by apply in_order | done].
Qed.
End Matching.

(** ** Patterns *)

(** The text of a pattern after its first part: every part behind a star. *)
Inductive star_parts : list (list Z) -> list Z -> Prop :=
| star_nil : star_parts [] []
| star_cons part parts filler rest : star_parts parts rest -> star_parts (part :: parts) (filler ++ part ++ rest).
(** A path of the form of a pattern: a star stands for any text. *)
Definition glob (pattern path : list Z) : Prop :=
  exists first parts rest,
    split_byte 42 pattern = first :: parts /\ path = first ++ rest /\ star_parts parts rest.

Lemma find_sub_Some p s i :
  find_sub p s = Some i -> exists l r, s = l ++ p ++ r /\ zlen l = i.
Proof.
  revert i. induction s as [| c s IH]; intros i; cbn [find_sub]; destruct (starts_with p _) eqn:E.
  - intros [= <-]. apply starts_with_true in E as [r ->]. by exists [], r.
  - done.
  - intros [= <-]. apply starts_with_true in E as [r ->]. by exists [], r.
  - destruct (find_sub p s) as [j |]; [| done]. intros [= <-]. destruct (IH j eq_refl) as (l & r & -> & <-).
    exists (c :: l), r. split; [done | rewrite zlen_cons; lia].
Qed.
Lemma find_sub_first p l r : exists i, find_sub p (l ++ p ++ r) = Some i /\ 0 <= i <= zlen l.
Proof.
  induction l as [| c l IH]; cbn [app].
  - exists 0. split; [| done]. destruct (p ++ r) as [| x y] eqn:E; cbn [find_sub];
      (assert (starts_with p _ = true) as ->; [by apply starts_with_true; exists r |]); done.
  - destruct IH as (i & Hi & Hl). cbn [find_sub]. destruct (starts_with p _).
    + exists 0. rewrite zlen_cons. split; [done | pose proof (zlen_nonneg l); lia].
    + exists (i + 1). rewrite Hi, zlen_cons. split; [done | lia].
Qed.

Local Abbreviation nonempty := (fun part : list Z => negb (bool_decide (part = []))).

Lemma floating_parts_sound anchored parts rest rest' :
  wildcard_parts false anchored (List.filter nonempty parts) rest = Some rest' ->
  exists s, rest = s ++ rest' /\ star_parts parts s.
Proof.
  revert rest. induction parts as [| part parts IH]; intros rest; cbn [List.filter].
  - intros [= ->]. exists []. split; [done | constructor].
  - case_bool_decide as Hp; cbn [negb].
    + intros (s & -> & Hs)%IH. exists s. split; [done |]. subst part. exact (star_cons [] parts [] s Hs).
    + cbn [wildcard_parts andb]. destruct (find_sub part rest) as [i |] eqn:E; [| done].
      apply find_sub_Some in E as (l & r & -> & <-). rewrite app_assoc, <- zlen_app, zdrop_app_exact.
      intros (s & -> & Hs)%IH. exists (l ++ part ++ s). split; [by rewrite <- !app_assoc | by constructor].
Qed.
Lemma floating_parts_complete anchored parts front s :
  star_parts parts s -> wildcard_parts false anchored (List.filter nonempty parts) (front ++ s) <> None.
Proof.
  intros Hs. revert front. induction Hs as [| part parts filler s Hs IH]; intros front; [done |]. cbn [List.filter].
  case_bool_decide as Hp; cbn [negb]; [subst part; rewrite app_assoc; apply IH |].
  cbn [wildcard_parts andb]. destruct (find_sub_first part (front ++ filler) s) as (i & Hi & Hl).
  rewrite <- app_assoc in Hi. rewrite Hi.
  assert (zdrop (i + zlen part) (front ++ filler ++ part ++ s)
          = zdrop (i + zlen part) (front ++ filler ++ part) ++ s) as ->; [| apply IH].
  rewrite !app_assoc, zdrop_app_le; [done |]. rewrite !zlen_app in *. pose proof (zlen_nonneg part). lia.
Qed.
Lemma star_parts_open parts s t : last parts = Some [] -> star_parts parts s -> star_parts parts (s ++ t).
Proof.
  intros Hl Hs. induction Hs as [| part parts filler s Hs IH]; [done |]. destruct parts as [| q parts].
  - injection Hl as ->. inversion Hs. cbn. rewrite app_nil_r. rewrite <- (app_nil_r (filler ++ t)) at 1.
    exact (star_cons [] [] (filler ++ t) [] star_nil).
  - rewrite <- !app_assoc. constructor. by apply IH.
Qed.

Lemma split_byte_snoc c l : exists first parts, split_byte c (l ++ [c]) = first :: parts /\ last parts = Some [].
Proof.
  induction l as [| x l IH].
  - exists [], [[]]. cbn. by rewrite Z.eqb_refl.
  - destruct IH as (first & parts & E & Hl). cbn [app split_byte]. rewrite E. destruct (x =? c).
    + exists [], (first :: parts). split; [done |]. by destruct parts.
    + by exists (x :: first), parts.
Qed.
Lemma pattern_ends pattern first parts :
  split_byte 42 pattern = first :: parts -> ends_with (bs "*") pattern = true -> last parts = Some [].
Proof.
  intros E. unfold ends_with. destruct (strip_suffix (bs "*") pattern) as [l |] eqn:Es; [| done].
  apply strip_suffix_Some in Es as ->. destruct (split_byte_snoc 42 l) as (f & ps & E' & Hl).
  change (bs "*") with [42] in E. rewrite E in E'. by injection E' as -> ->.
Qed.
Lemma pattern_starts pattern first parts :
  split_byte 42 pattern = first :: parts ->
  if starts_with (bs "*") pattern then first = [] else first = [] -> parts = [].
Proof.
  intros E. destruct pattern as [| c pattern]; [by injection E as <- <- |].
  assert (starts_with (bs "*") (c :: pattern) = (c =? 42)) as ->.
  { change (bs "*") with [42]. unfold starts_with. cbn [strip_prefix]. rewrite (Z.eqb_sym 42 c). by destruct (c =? 42). }
  cbn [split_byte] in E. destruct (c =? 42); [by injection E as <- <- |].
  by destruct (split_byte 42 pattern); injection E as <- _.
Qed.

Section Pattern.
Context (pattern first : list Z) (parts : list (list Z)) (E : split_byte 42 pattern = first :: parts).
Local Abbreviation anchored := (negb (starts_with (bs "*") pattern)).

Lemma all_parts_sound path rest' :
  wildcard_parts true anchored (List.filter nonempty (first :: parts)) path = Some rest' ->
  exists s, path = first ++ s ++ rest' /\ star_parts parts s.
Proof using E.
  pose proof (pattern_starts _ _ _ E) as Hs. cbn [List.filter]. case_bool_decide as Hf; cbn [negb]; intros Ew.
  - subst first. destruct (starts_with (bs "*") pattern) eqn:Est; cbn [negb] in Ew.
    + apply (floating_parts_sound false). by destruct (List.filter nonempty parts).
    + rewrite (Hs eq_refl) in *. injection Ew as <-. exists []. split; [done | constructor].
  - destruct (starts_with (bs "*") pattern); [congruence |]. cbn [wildcard_parts negb andb] in Ew.
    destruct (strip_prefix first path) as [rest |] eqn:Ep; [| done]. apply strip_prefix_Some in Ep as ->.
    apply floating_parts_sound in Ew as (s & -> & Hp). by exists s.
Qed.
Lemma all_parts_complete s :
  last parts = Some [] -> star_parts parts s ->
  wildcard_parts true anchored (List.filter nonempty (first :: parts)) (first ++ s) <> None.
Proof using E.
  intros He Hp. pose proof (pattern_starts _ _ _ E) as Hs. cbn [List.filter]. case_bool_decide as Hf; cbn [negb].
  - subst first. destruct (starts_with (bs "*") pattern); cbn [negb]; [| by rewrite (Hs eq_refl) in He].
    pose proof (floating_parts_complete false parts [] s Hp) as Hc. by destruct (List.filter nonempty parts).
  - destruct (starts_with (bs "*") pattern); [congruence |]. cbn [wildcard_parts negb andb].
    rewrite strip_prefix_app. exact (floating_parts_complete true parts [] s Hp).
Qed.
End Pattern.

(** Purge patterns: a path that a pattern matches has the form of the
    pattern, a star standing for any text; and when the pattern ends in a star,
    every path of that form is matched. *)
Theorem wildcard_matches_form (pattern path : list Z) :
  (cache_path_wildcard_matches pattern path = true -> glob pattern path)
  /\ (ends_with (bs "*") pattern = true -> glob pattern path -> cache_path_wildcard_matches pattern path = true).
Proof.
  unfold cache_path_wildcard_matches. case_bool_decide as Hstar.
  { subst pattern. split; [intros _ | done]. exists [], [[]], path. split_and!; [done | done |].
    rewrite <- (app_nil_r path). exact (star_cons [] [] path [] star_nil). }
  destruct (split_byte_nonempty 42 pattern) as (first & parts & E). rewrite E. cbv zeta.
  pose proof (pattern_ends _ _ _ E) as He. split.
  - intros Hm. destruct (wildcard_parts _ _ _ _) as [rest' |] eqn:Ew; [| done].
    apply (all_parts_sound _ _ _ E) in Ew as (s & -> & Hp).
    destruct (ends_with (bs "*") pattern).
    + exists first, parts, (s ++ rest'). split_and!; [done | done |]. by apply star_parts_open; [apply He |].
    + cbn in Hm. apply bool_decide_eq_true in Hm as ->. rewrite app_nil_r. by exists first, parts, s.
  - intros Hopen (first' & parts' & s & E' & -> & Hp). rewrite E in E'. injection E' as <- <-.
    pose proof (all_parts_complete _ _ _ E s (He Hopen) Hp) as Hn. rewrite Hopen. by destruct (wildcard_parts _ _ _ _).
Qed.

(** With a fixed ending the search takes the first occurrence of the ending and
    can miss a path of the form of the pattern. *)
Lemma wildcard_misses :
  glob (bs "/assets/*.css") (bs "/assets/a.css/b.css")
  /\ cache_path_wildcard_matches (bs "/assets/*.css") (bs "/assets/a.css/b.css") = false.
Proof.
  split; [| by vm_compute]. exists (bs "/assets/"), [bs ".css"], (bs "a.css/b.css"). split_and!; [done | done |].
  exact (star_cons (bs ".css") [] (bs "a.css/b") [] star_nil).
Qed.
