(* ===== verification/CacheControl.v ===== *)
(** * What may be cached ([fluxheim-cache/src/headers_directives.rs],
    [headers_response.rs], [headers_vary.rs], [headers_stale.rs])

    The policy a response's headers state for a shared cache: its [Cache-Control]
    directives, its [Vary] fields and the configured rules.  [http::HeaderMap] is
    the list of its fields in the order they were appended; which names and
    values that package accepts are parameters. *)
From Stdlib Require Import ZArith Lia.
From stdpp Require Import base list numbers strings sets gmap sorting.
From S2P Require Import Prelude Text Http1Target LbBackend LbBackendProps HostNames RequestHeaders CacheKey CachePurge.

(** ** Header maps *)

Definition HeaderMap : Type := list (list Z * list Z).
Definition get_all (m : HeaderMap) (name : list Z) : list (list Z) :=
  snd <$> List.filter (fun h => eq_ignore_ascii_case h.1 name) m.
Definition contains_key (m : HeaderMap) (name : list Z) : bool :=
  existsb (fun h => eq_ignore_ascii_case h.1 name) m.

Class HttpPackage : Type := {
  (** [HeaderName::from_bytes] succeeds *)
  header_name_ok : list Z -> bool;
  (** [HeaderValue::from_str] succeeds *)
  header_value_ok : list Z -> bool;
  (** [HeaderValue::to_str] succeeds *)
  to_str_ok : list Z -> bool;
}.

(** ** Reasons *)

Inductive Rejection : Type :=
| CacheControlInvalid | CacheControlNoStore | CacheControlPrivate | CacheControlNoCache | CacheControlZeroFreshness
| StatusNotCacheable | ContentTypeNotCacheable | ContentTypeMissing | SetCookie
| ConfiguredNoStoreHeader | ConfiguredNoStoreHeaderValue
| VaryTooLarge | VaryInvalid | VaryStar | VarySensitiveField | VaryTooManyFields.

(** ** Directives *)

(** [visit_cache_control_directives]; [current] holds the bytes since [start]. *)
Fixpoint visit_directives {S} (visitor : S -> list Z -> option S) (quoted escaped : bool) (current rest : list Z) (state : S)
    : option S :=
  match rest with
  | [] =>
      if quoted || escaped then None
      else if bool_decide (trim current = []) then None
      else visitor state (trim current)
  | byte :: rest =>
      if escaped then visit_directives visitor quoted false (current ++ [byte]) rest state
      else if quoted && (byte =? 92) then visit_directives visitor quoted true (current ++ [byte]) rest state
      else if byte =? 34 then visit_directives visitor (negb quoted) false (current ++ [byte]) rest state
      else if (byte =? 44) && negb quoted then
        if bool_decide (trim current = []) then None
        else match visitor state (trim current) with
             | None => None
             | Some state => visit_directives visitor quoted false [] rest state
             end
      else visit_directives visitor quoted false (current ++ [byte]) rest state
  end.

(** The loop over the bytes inside quotes. *)
Fixpoint quoted_inner_valid (escaped : bool) (inner : list Z) : bool :=
  match inner with
  | [] => negb escaped
  | byte :: inner =>
      if escaped then quoted_inner_valid false inner
      else if byte =? 92 then quoted_inner_valid true inner
      else if (byte =? 34) || (byte =? CR) || (byte =? LF) then false
      else quoted_inner_valid false inner
  end.
(** [strip_prefix] and then [strip_suffix] of a quote *)
Definition strip_quotes (value : list Z) : option (list Z) := strip_prefix [34] value ≫= strip_suffix [34].
Definition cache_control_value_valid (value : list Z) : bool :=
  match strip_quotes value with
  | Some inner => quoted_inner_valid false inner
  | None => http_token_valid value
  end.
Definition parse_cache_control_directive (directive : list Z) : option (list Z * option (list Z)) :=
  let '(name, value) :=
    match split_once 61 directive with
    | Some (name, value) => (trim name, Some (trim value))
    | None => (trim directive, None)
    end in
  if negb (http_token_valid name) then None
  else match value with
       | Some value =>
           if bool_decide (value = []) || negb (cache_control_value_valid value) then None else Some (name, Some value)
       | None => Some (name, None)
       end.
Definition parse_cache_control_delta_seconds (value : option (list Z)) : option Z :=
  match value with
  | None => None
  | Some value =>
      let value := default value (strip_quotes value) in
      if bool_decide (value = []) || negb (forallb is_ascii_digit value) then None else parse_uint U32_MAX value
  end.

Record ResponseCacheControlPolicy : Type := mkCachePolicy {
  cp_freshness_secs : option Z;
  cp_stale_reuse_forbidden : bool;
  cp_shared_rejection : option Rejection;
}.
(** The variables of [parse_response_cache_control_values]. *)
Record DirectiveState : Type := mkDirectives {
  ds_stale_reuse_forbidden : bool;
  ds_shared_rejection : option Rejection;
  ds_max_age : option Z;
  ds_shared_max_age : option Z;
  ds_no_store : bool;
  ds_private : bool;
  ds_no_cache : bool;
  ds_must_revalidate : bool;
  ds_proxy_revalidate : bool;
  ds_count : Z;
}.
Definition directives_start : DirectiveState := mkDirectives false None None None false false false false false 0.
Definition MAX_RESPONSE_CACHE_CONTROL_BYTES : Z := 16384.
Definition MAX_RESPONSE_CACHE_CONTROL_DIRECTIVES : Z := 128.

(** [get_or_insert] *)
Definition get_or_insert {A} (o : option A) (a : A) : option A := Some (default a o).
(** The visitor: one directive. *)
Definition visit_response_directive (s : DirectiveState) (directive : list Z) : option DirectiveState :=
  let '(mkDirectives stale rejection max_age shared no_store private no_cache must proxy count) := s in
  match checked_add USIZE_MAX count 1 with
  | None => None
  | Some count =>
      if MAX_RESPONSE_CACHE_CONTROL_DIRECTIVES <? count then None
      else
        match parse_cache_control_directive directive with
        | None => None
        | Some (name, value) =>
            if eq_ignore_ascii_case name (bs "max-age") then
              match max_age, parse_cache_control_delta_seconds value with
              | None, Some secs =>
                  Some (mkDirectives stale rejection (Some secs) shared no_store private no_cache must proxy count)
              | _, _ => None
              end
            else if eq_ignore_ascii_case name (bs "s-maxage") then
              match shared, parse_cache_control_delta_seconds value with
              | None, Some secs =>
                  Some (mkDirectives true rejection max_age (Some secs) no_store private no_cache must proxy count)
              | _, _ => None
              end
            else if eq_ignore_ascii_case name (bs "no-store") then
              if bool_decide (is_Some value) || no_store then None
              else Some (mkDirectives stale (get_or_insert rejection CacheControlNoStore) max_age shared true private
                           no_cache must proxy count)
            else if eq_ignore_ascii_case name (bs "private") then
              if private then None
              else Some (mkDirectives stale (get_or_insert rejection CacheControlPrivate) max_age shared no_store true
                           no_cache must proxy count)
            else if eq_ignore_ascii_case name (bs "no-cache") then
              if no_cache then None
              else Some (mkDirectives stale (get_or_insert rejection CacheControlNoCache) max_age shared no_store private
                           true must proxy count)
            else if eq_ignore_ascii_case name (bs "must-revalidate") then
              if bool_decide (is_Some value) || must then None
              else Some (mkDirectives true rejection max_age shared no_store private no_cache true proxy count)
            else if eq_ignore_ascii_case name (bs "proxy-revalidate") then
              if bool_decide (is_Some value) || proxy then None
              else Some (mkDirectives true rejection max_age shared no_store private no_cache must true count)
            else Some (mkDirectives stale rejection max_age shared no_store private no_cache must proxy count)
        end
  end.
(** The loop over the values. *)
Fixpoint visit_values (total_bytes : Z) (s : DirectiveState) (values : list (list Z)) : option DirectiveState :=
  match values with
  | [] => Some s
  | value :: values =>
      match checked_add USIZE_MAX total_bytes (zlen value) with
      | None => None
      | Some total_bytes =>
          if MAX_RESPONSE_CACHE_CONTROL_BYTES <? total_bytes then None
          else match visit_directives visit_response_directive false false [] value s with
               | None => None
               | Some s => visit_values total_bytes s values
               end
      end
  end.
Definition parse_response_cache_control_values (values : list (list Z)) : option ResponseCacheControlPolicy :=
  match visit_values 0 directives_start values with
  | None => None
  | Some s =>
      let freshness := match ds_shared_max_age s with Some secs => Some secs | None => ds_max_age s end in
      Some (mkCachePolicy freshness (ds_stale_reuse_forbidden s)
              (if bool_decide (freshness = Some 0)
               then get_or_insert (ds_shared_rejection s) CacheControlZeroFreshness
               else ds_shared_rejection s))
  end.

(** ** Request directives *)

Definition cache_control_directive_parts (directive : list Z) : list Z * option (list Z) :=
  let directive := trim directive in
  match split_once 61 directive with
  | Some (name, value) => (trim name, Some (trim value))
  | None => (directive, None)
  end.
Definition is_pragma_no_cache (value : list Z) : bool := eq_ignore_ascii_case (trim value) (bs "no-cache").
Definition cache_control_forbids_store (value : list Z) : bool :=
  existsb (fun directive => eq_ignore_ascii_case (cache_control_directive_parts directive).1 (bs "no-store"))
    (split_byte 44 value).
Definition cache_control_forces_revalidation (value : list Z) : bool :=
  existsb
    (fun directive =>
       let '(name, value) := cache_control_directive_parts directive in
       eq_ignore_ascii_case name (bs "no-cache")
       || (eq_ignore_ascii_case name (bs "max-age") && bool_decide (value = Some (bs "0"))))
    (split_byte 44 value).

(** ** Vary *)

Inductive VaryCachePolicy : Type :=
| VaryNone
| VaryFields (fields : list (list Z))
| VaryUncacheable (reason : Rejection).
Definition MAX_VARY_FIELDS : Z := 16.
Definition MAX_VARY_HEADER_BYTES : Z := 2048.
Definition is_sensitive_vary_field (field : list Z) : bool :=
  bool_decide (field = bs "authorization") || bool_decide (field = bs "cookie")
  || bool_decide (field = bs "proxy-authorization").
(** [Vec<String>::sort] *)
Definition text_le (s t : list Z) : Prop := lex_cmp s t <> Gt.
#[export] Instance text_le_dec s t : Decision (text_le s t).
Proof. unfold text_le. apply _. Defined.
Definition sort_fields (fields : list (list Z)) : list (list Z) := merge_sort text_le fields.
Definition push_field (fields : list (list Z)) (field : list Z) : list (list Z) :=
  if bool_decide (field ∈ fields) then fields else fields ++ [field].

Section Http.
Context `{HttpPackage}.

(** The loop over the fields of one line. *)
Fixpoint vary_line (fields : list (list Z)) (raw_fields : list (list Z)) : result (list (list Z)) Rejection :=
  match raw_fields with
  | [] => Ok fields
  | raw_field :: raw_fields =>
      let field := trim raw_field in
      if bool_decide (field = []) then Err VaryInvalid
      else if bool_decide (field = bs "*") then Err VaryStar
      else if negb (header_name_ok field) then Err VaryInvalid
      else if is_sensitive_vary_field (to_ascii_lowercase field) then Err VarySensitiveField
      else
        let fields := push_field fields (to_ascii_lowercase field) in
        if MAX_VARY_FIELDS <? zlen fields then Err VaryTooManyFields else vary_line fields raw_fields
  end.
Fixpoint vary_lines (total_bytes : Z) (fields : list (list Z)) (values : list (list Z))
    : result (list (list Z)) Rejection :=
  match values with
  | [] => Ok fields
  | value :: values =>
      let total_bytes := saturating_add USIZE_MAX total_bytes (zlen value) in
      if MAX_VARY_HEADER_BYTES <? total_bytes then Err VaryTooLarge
      else if negb (to_str_ok value) then Err VaryInvalid
      else let? fields := vary_line fields (split_byte 44 value) in vary_lines total_bytes fields values
  end.
Definition fields_policy (fields : list (list Z)) : VaryCachePolicy :=
  if bool_decide (fields = []) then VaryNone else VaryFields (sort_fields fields).
Definition vary_cache_policy (headers : HeaderMap) : VaryCachePolicy :=
  match vary_lines 0 [] (get_all headers (bs "vary")) with
  | Err reason => VaryUncacheable reason
  | Ok fields => fields_policy fields
  end.
(** The loop over the configured headers. *)
Fixpoint vary_configured (fields : list (list Z)) (configured : list (list Z)) : result (list (list Z)) Rejection :=
  match configured with
  | [] => Ok fields
  | name :: configured =>
      let fields := push_field fields (to_ascii_lowercase name) in
      if MAX_VARY_FIELDS <? zlen fields then Err VaryTooManyFields else vary_configured fields configured
  end.
Definition cache_vary_policy (headers : HeaderMap) (cache : CacheConfig) : VaryCachePolicy :=
  match vary_cache_policy headers with
  | VaryUncacheable reason => VaryUncacheable reason
  | VaryNone =>
      match vary_configured [] (cc_vary_request_headers cache) with
      | Err reason => VaryUncacheable reason
      | Ok fields => fields_policy fields
      end
  | VaryFields fields =>
      match vary_configured fields (cc_vary_request_headers cache) with
      | Err reason => VaryUncacheable reason
      | Ok fields => fields_policy fields
      end
  end.

(** ** Responses *)

Inductive ResponseFreshness : Type := FreshAbsent | FreshSeconds (secs : Z) | FreshInvalid.

Definition response_values_forbid_shared_cache (values : list (list Z)) : option Rejection :=
  match parse_response_cache_control_values values with
  | Some policy => cp_shared_rejection policy
  | None => Some CacheControlInvalid
  end.
Definition response_cache_control_freshness (headers : HeaderMap) : ResponseFreshness :=
  if negb (contains_key headers (bs "cache-control")) then FreshAbsent
  else if negb (forallb to_str_ok (get_all headers (bs "cache-control"))) then FreshInvalid
  else match parse_response_cache_control_values (get_all headers (bs "cache-control")) with
       | Some policy => match cp_freshness_secs policy with Some secs => FreshSeconds secs | None => FreshAbsent end
       | None => FreshInvalid
       end.
Definition response_cache_control_stale_reuse_forbidden (headers : HeaderMap) : bool :=
  if negb (contains_key headers (bs "cache-control")) then false
  else if negb (forallb to_str_ok (get_all headers (bs "cache-control"))) then true
  else match parse_response_cache_control_values (get_all headers (bs "cache-control")) with
       | Some policy => cp_stale_reuse_forbidden policy
       | None => true
       end.
Definition remaining_fresh_ttl_secs (ttl_secs age_secs : Z) : option Z :=
  if ttl_secs <? age_secs then None else if 0 <? ttl_secs - age_secs then Some (ttl_secs - age_secs) else None.
Definition response_age_secs (headers : HeaderMap) : Z :=
  match get_all headers (bs "age") with
  | [] => 0
  | value :: _ =>
      if negb (to_str_ok value) then U64_MAX
      else match split_byte 44 value with
           | first :: _ => default U64_MAX (parse_uint U64_MAX (trim first))
           | [] => U64_MAX
           end
  end.
Definition content_type_pattern_matches (pattern media_type : list Z) : bool :=
  let pattern := trim pattern in
  let media_type := trim media_type in
  match strip_suffix (bs "/*") pattern with
  | Some prefix => match split_once 47 media_type with Some (kind, _) => eq_ignore_ascii_case kind prefix | None => false end
  | None => eq_ignore_ascii_case pattern media_type
  end.
Definition response_content_type_is_cacheable (headers : HeaderMap) (cache : CacheConfig) : bool :=
  match get_all headers (bs "content-type") with
  | [] => false
  | value :: _ =>
      if negb (to_str_ok value) then false
      else match split_byte 59 value with
           | first :: _ =>
               existsb (fun candidate => content_type_pattern_matches candidate (trim first)) (cc_content_types cache)
           | [] => false
           end
  end.
Definition response_headers_match_cache_no_store_value (headers : HeaderMap) (configured : gmap (list Z) (list Z)) : bool :=
  existsb (fun '(header, value) =>
             existsb (fun v => to_str_ok v && bool_decide (v = value)) (get_all headers header))
    (map_to_list configured).
Definition response_cache_header_policy_rejection (headers : HeaderMap) (cache : CacheConfig) : option Rejection :=
  if contains_key headers (bs "set-cookie") then Some SetCookie
  else if existsb (contains_key headers) (cc_no_store_response_headers cache) then Some ConfiguredNoStoreHeader
  else if response_headers_match_cache_no_store_value headers (cc_no_store_response_header_values cache)
  then Some ConfiguredNoStoreHeaderValue
  else if negb (forallb to_str_ok (get_all headers (bs "cache-control"))) then Some CacheControlInvalid
  else match response_values_forbid_shared_cache (get_all headers (bs "cache-control")) with
       | Some reason => Some reason
       | None => match cache_vary_policy headers cache with VaryUncacheable reason => Some reason | _ => None end
       end.
Definition content_type_rejection (headers : HeaderMap) : Rejection :=
  if contains_key headers (bs "content-type") then ContentTypeNotCacheable else ContentTypeMissing.
Definition response_cache_admission_rejection (status : Z) (headers : HeaderMap) (cache : CacheConfig) : option Rejection :=
  let status_has_ttl := bool_decide (is_Some (cc_status_ttls cache !! status))
                        || bool_decide (is_Some (cc_default_status_ttl_secs cache)) in
  if negb (status =? 200) && negb status_has_ttl then Some StatusNotCacheable
  else if (status =? 200) && negb (response_content_type_is_cacheable headers cache)
  then Some (content_type_rejection headers)
  else response_cache_header_policy_rejection headers cache.
Definition response_range_cache_admission_rejection (headers : HeaderMap) (cache : CacheConfig) : option Rejection :=
  if negb (response_content_type_is_cacheable headers cache) then Some (content_type_rejection headers)
  else response_cache_header_policy_rejection headers cache.
End Http.

(** ** Stale responses *)

Inductive CacheStaleEvent : Type :=
| StaleUpdating
| StaleUpstreamError (kind : CacheStaleErrorKind)
| StaleUpstreamHttpStatus (status : Z)
| StaleOtherError.
Definition cache_stale_status_allows (cache : CacheConfig) (status : Z) : bool :=
  between 500 599 status
  && (bool_decide (cc_stale_if_error_statuses cache = []) || bool_decide (status ∈ cc_stale_if_error_statuses cache)).
Definition cache_should_serve_stale (cache : CacheConfig) (event : CacheStaleEvent) (stale_reuse_forbidden : bool) : bool :=
  if stale_reuse_forbidden then false
  else match event with
       | StaleUpstreamError kind =>
           bool_decide (is_Some (cc_stale_if_error_secs cache)) && bool_decide (kind ∈ cc_stale_if_error_on cache)
       | StaleUpstreamHttpStatus status =>
           bool_decide (is_Some (cc_stale_if_error_secs cache))
           && bool_decide (StaleHttpStatus ∈ cc_stale_if_error_on cache)
           && cache_stale_status_allows cache status
       | StaleOtherError => false
       | StaleUpdating => bool_decide (is_Some (cc_stale_while_revalidate_secs cache))
       end.

(** * Only what may be shared is stored

    A response that is admitted to the cache sets no cookie, has no directive
    that forbids storing or sharing it, states no zero lifetime, and names in its
    [Vary] headers only fields that become part of the key. *)
(** ** Directives *)

(** The directives of a value: the texts between the commas outside quotes. *)
Definition directives (value : list Z) : option (list (list Z)) :=
  visit_directives (fun collected directive => Some (collected ++ [directive])) false false [] value [].
Definition directive_named (name directive : list Z) : bool :=
  match parse_cache_control_directive directive with
  | Some (n, _) => eq_ignore_ascii_case n name
  | None => false
  end.
(** Directives that forbid a shared cache to store a response. *)
Definition forbids_sharing (directive : list Z) : bool :=
  directive_named (bs "no-store") directive || directive_named (bs "private") directive
  || directive_named (bs "no-cache") directive.

Fixpoint visit_each {S} (visitor : S -> list Z -> option S) (s : S) (ds : list (list Z)) : option S :=
  match ds with
  | [] => Some s
  | d :: ds => match visitor s d with Some s => visit_each visitor s ds | None => None end
  end.
(** The loop visits exactly the directives. *)
Lemma visit_collect {S} (visitor : S -> list Z -> option S) quoted escaped current rest s s' collected :
  visit_directives visitor quoted escaped current rest s = Some s' ->
  exists ds,
    visit_directives (fun collected directive => Some (collected ++ [directive])) quoted escaped current rest collected
    = Some (collected ++ ds)
    /\ visit_each visitor s ds = Some s'.
Proof.
  revert quoted escaped current s collected.
  induction rest as [| byte rest IH]; intros quoted escaped current s collected; cbn [visit_directives].
  - destruct (quoted || escaped); [done |]. case_bool_decide; [done |]. intros Hv. exists [trim current].
    split; [done |]. cbn. by rewrite Hv.
  - destruct escaped; [apply IH |]. destruct (quoted && _); [apply IH |]. destruct (byte =? 34); [apply IH |].
    destruct (_ && _); [| apply IH]. case_bool_decide; [done |].
    destruct (visitor s (trim current)) as [s1 |] eqn:Ev; [| done].
    intros Hv. apply (IH _ _ _ _ (collected ++ [trim current])) in Hv as (ds & Hc & He).
    exists (trim current :: ds). rewrite Hc, <- app_assoc. split; [done |]. cbn. by rewrite Ev.
Qed.
Lemma visit_response_ok s d s' :
  visit_response_directive s d = Some s' -> ds_shared_rejection s' = None ->
  ds_shared_rejection s = None /\ forbids_sharing d = false.
Proof.
  destruct s as [stale rejection max_age shared no_store private no_cache must proxy count].
  unfold visit_response_directive, forbids_sharing, directive_named.
  destruct (checked_add _ _ _); [| done]. destruct (_ <? _); [done |].
  destruct (parse_cache_control_directive d) as [[name value] |]; [| done].
  destruct (eq_ignore_ascii_case name (bs "max-age")) eqn:E1.
  { intros Hv Hr. destruct max_age, (parse_cache_control_delta_seconds value);
      try done. injection Hv as <-. cbn in Hr. split; [done |].
    by rewrite !(eq_ignore_ascii_case_other name (bs "max-age")) by (done || by apply (bool_decide_unpack _)). }
  destruct (eq_ignore_ascii_case name (bs "s-maxage")) eqn:E2.
  { intros Hv Hr. destruct shared, (parse_cache_control_delta_seconds value);
      try done. injection Hv as <-. cbn in Hr. split; [done |].
    by rewrite !(eq_ignore_ascii_case_other name (bs "s-maxage")) by (done || by apply (bool_decide_unpack _)). }
  destruct (eq_ignore_ascii_case name (bs "no-store")) eqn:E3; [by destruct (_ || no_store); intros [= <-] |].
  destruct (eq_ignore_ascii_case name (bs "private")) eqn:E4; [by destruct private; intros [= <-] |].
  destruct (eq_ignore_ascii_case name (bs "no-cache")) eqn:E5; [by destruct no_cache; intros [= <-] |].
  destruct (eq_ignore_ascii_case name (bs "must-revalidate")); [by destruct (_ || must); intros [= <-] |].
  destruct (eq_ignore_ascii_case name (bs "proxy-revalidate")); [by destruct (_ || proxy); intros [= <-] |].
  by intros [= <-].
Qed.

Lemma visit_each_ok s ds s' :
  visit_each visit_response_directive s ds = Some s' -> ds_shared_rejection s' = None ->
  ds_shared_rejection s = None /\ Forall (fun d => forbids_sharing d = false) ds.
Proof.
  revert s. induction ds as [| d ds IH]; intros s; cbn [visit_each]; [by intros [= <-] |].
  destruct (visit_response_directive s d) as [s1 |] eqn:Ev; [| done]. intros Hv Hr.
  destruct (IH s1 Hv Hr) as [H1 Hf]. destruct (visit_response_ok _ _ _ Ev H1) as [H0 Hd]. by split; [| constructor].
Qed.
Lemma visit_values_ok total s values s' :
  visit_values total s values = Some s' -> ds_shared_rejection s' = None ->
  ds_shared_rejection s = None
  /\ Forall (fun value => exists ds, directives value = Some ds /\ Forall (fun d => forbids_sharing d = false) ds) values.
Proof.
  revert total s. induction values as [| value values IH]; intros total s; cbn [visit_values]; [by intros [= <-] |].
  destruct (checked_add _ _ _) as [total' |]; [| done]. destruct (_ <? _); [done |].
  destruct (visit_directives _ _ _ _ _ _) as [s1 |] eqn:Ev; [| done]. intros Hv Hr.
  destruct (IH _ _ Hv Hr) as [H1 Hf].
  apply (visit_collect _ _ _ _ _ _ _ []) in Ev as (ds & Hc & He). destruct (visit_each_ok _ _ _ He H1) as [H0 Hd].
  split; [done |]. constructor; [by exists ds | done].
Qed.
(** What a policy without rejection says of the values. *)
Lemma shareable_values values :
  response_values_forbid_shared_cache values = None ->
  Forall (fun value => exists ds, directives value = Some ds /\ Forall (fun d => forbids_sharing d = false) ds) values
  /\ exists policy, parse_response_cache_control_values values = Some policy /\ cp_freshness_secs policy <> Some 0.
Proof.
  unfold response_values_forbid_shared_cache, parse_response_cache_control_values.
  destruct (visit_values 0 directives_start values) as [s |] eqn:Ev; [| done]. cbn [cp_shared_rejection].
  case_bool_decide as Hf; [done |]. intros Hr. split; [by eapply visit_values_ok | eauto].
Qed.

(** ** Vary *)

Section Vary.
Context `{HttpPackage}.

Lemma push_field_elem fields field x : x ∈ push_field fields field <-> x ∈ fields \/ x = field.
Proof.
  unfold push_field. case_bool_decide; [| by rewrite elem_of_app, list_elem_of_singleton]. split; [by left |].
  by intros [? | ->].
Qed.
Lemma push_field_NoDup fields field : NoDup fields -> NoDup (push_field fields field).
Proof.
  unfold push_field. case_bool_decide; [done |]. intros Hn. apply NoDup_app. split_and!; [done | | apply NoDup_singleton].
  by intros x Hx ->%list_elem_of_singleton.
Qed.
(** A field that may be part of a key. *)
Definition field_ok (field : list Z) : Prop :=
  field <> [] /\ field <> bs "*" /\ is_sensitive_vary_field (to_ascii_lowercase field) = false.

Lemma vary_line_spec fields raws fields' :
  vary_line fields raws = Ok fields' ->
  Forall (fun raw => field_ok (trim raw)) raws
  /\ (forall x, x ∈ fields' <-> x ∈ fields \/ exists raw, raw ∈ raws /\ x = to_ascii_lowercase (trim raw))
  /\ (NoDup fields -> NoDup fields').
Proof.
  revert fields. induction raws as [| raw raws IH]; intros fields; cbn [vary_line].
  - intros [= <-]. split_and!; [constructor | | done]. intros x. split; [by left |].
    by intros [? | (? & ?%not_elem_of_nil & _)].
  - cbv zeta. case_bool_decide; [done |]. case_bool_decide; [done |]. destruct (negb _); [done |].
    destruct (is_sensitive_vary_field _) eqn:Es; [done |]. destruct (_ <? _); [done |].
    intros (Hf & Hx & Hn)%IH. split_and!.
    + by constructor.
    + intros x. rewrite Hx, push_field_elem. setoid_rewrite elem_of_cons. naive_solver.
    + intros ?. by apply Hn, push_field_NoDup.
Qed.
Lemma vary_lines_spec total fields values fields' :
  vary_lines total fields values = Ok fields' ->
  Forall (fun value => Forall (fun raw => field_ok (trim raw)) (split_byte 44 value)) values
  /\ (forall x, x ∈ fields' <->
        x ∈ fields \/ exists value raw, value ∈ values /\ raw ∈ split_byte 44 value /\ x = to_ascii_lowercase (trim raw))
  /\ (NoDup fields -> NoDup fields').
Proof.
  revert total fields. induction values as [| value values IH]; intros total fields; cbn [vary_lines].
  - intros [= <-]. split_and!; [constructor | | done]. intros x. split; [by left |].
    by intros [? | (? & ? & ?%not_elem_of_nil & _)].
  - cbv zeta. destruct (_ <? _); [done |]. destruct (negb _); [done |].
    destruct (vary_line fields (split_byte 44 value)) as [fields1 |] eqn:El; [| done].
    apply vary_line_spec in El as (Hf1 & Hx1 & Hn1). intros (Hf & Hx & Hn)%IH. split_and!.
    + by constructor.
    + intros x. rewrite Hx, Hx1. setoid_rewrite elem_of_cons. naive_solver.
    + auto.
Qed.
Lemma vary_configured_spec fields configured fields' :
  vary_configured fields configured = Ok fields' ->
  (forall x, x ∈ fields' <-> x ∈ fields \/ exists name, name ∈ configured /\ x = to_ascii_lowercase name)
  /\ (NoDup fields -> NoDup fields').
Proof.
  revert fields. induction configured as [| name configured IH]; intros fields; cbn [vary_configured].
  - intros [= <-]. split; [| done]. intros x. split; [by left |]. by intros [? | (? & ?%not_elem_of_nil & _)].
  - cbv zeta. destruct (_ <? _); [done |]. intros (Hx & Hn)%IH. split.
    + intros x. rewrite Hx, push_field_elem. setoid_rewrite elem_of_cons. naive_solver.
    + intros ?. by apply Hn, push_field_NoDup.
Qed.
Lemma sort_fields_elem fields x : x ∈ sort_fields fields <-> x ∈ fields.
Proof. unfold sort_fields. by rewrite (merge_sort_Permutation text_le fields). Qed.

(** The names a response's key depends on: those of its [Vary] headers and the
    configured ones. *)
Definition varies_on (headers : HeaderMap) (cache : CacheConfig) (x : list Z) : Prop :=
  (exists value raw, value ∈ get_all headers (bs "vary") /\ raw ∈ split_byte 44 value /\ x = to_ascii_lowercase (trim raw))
  \/ exists name, name ∈ cc_vary_request_headers cache /\ x = to_ascii_lowercase name.
Definition policy_fields (policy : VaryCachePolicy) : list (list Z) :=
  match policy with VaryFields fields => fields | _ => [] end.

Lemma fields_policy_spec fields : (forall x, x ∈ policy_fields (fields_policy fields) <-> x ∈ fields)
  /\ forall reason, fields_policy fields <> VaryUncacheable reason.
Proof.
  unfold fields_policy. case_bool_decide as Hf; [by subst |]. split; [apply sort_fields_elem | done].
Qed.
Lemma vary_policy_spec headers cache :
  (forall reason, cache_vary_policy headers cache <> VaryUncacheable reason) ->
  Forall (fun value => Forall (fun raw => field_ok (trim raw)) (split_byte 44 value)) (get_all headers (bs "vary"))
  /\ forall x, x ∈ policy_fields (cache_vary_policy headers cache) <-> varies_on headers cache x.
Proof.
  unfold cache_vary_policy, vary_cache_policy. intros Hu.
  destruct (vary_lines 0 [] (get_all headers (bs "vary"))) as [fields |] eqn:El; [| by destruct (Hu e)].
  apply vary_lines_spec in El as (Hf & Hx & _). split; [done |]. destruct (fields_policy_spec fields) as [Hp Hn].
  assert (forall fields1, (forall x, x ∈ fields1 <-> x ∈ fields) ->
    (forall reason, match vary_configured fields1 (cc_vary_request_headers cache) with
                    | Err reason => VaryUncacheable reason | Ok fs => fields_policy fs end <> VaryUncacheable reason) ->
    forall x, x ∈ policy_fields match vary_configured fields1 (cc_vary_request_headers cache) with
                                | Err reason => VaryUncacheable reason | Ok fs => fields_policy fs end
    <-> varies_on headers cache x) as Hgen.
  { intros fields1 H1 Hu' x. destruct (vary_configured fields1 _) as [fs |] eqn:Ec; [| by destruct (Hu' e)].
    apply vary_configured_spec in Ec as [Hc _]. rewrite (proj1 (fields_policy_spec fs) x), Hc, H1, Hx.
    unfold varies_on. split; [| by intros [? | ?]; [left; right |]; eauto].
    intros [[?%not_elem_of_nil | ?] | ?]; [done | by left | by right]. }
  destruct (fields_policy fields) as [| fs | reason] eqn:Ep; [| | by destruct (Hn reason)].
  - apply Hgen; [exact Hp | exact Hu].
  - apply Hgen; [exact Hp | exact Hu].
Qed.

(** ** Admission *)

(** C23: only shareable responses are cached.  A response that is admitted has a
    status that may be stored, no cookie, directives of which none forbids
    storing or sharing it and that give it no zero lifetime; its [Vary] headers
    name neither every header nor one that identifies the user, and the fields
    of its key are exactly those it names and the configured ones. *)
Theorem admitted_response_shareable (status : Z) (headers : HeaderMap) (cache : CacheConfig) :
  response_cache_admission_rejection status headers cache = None ->
  (status = 200 \/ is_Some (cc_status_ttls cache !! status) \/ is_Some (cc_default_status_ttl_secs cache))
  /\ contains_key headers (bs "set-cookie") = false
  /\ Forall (fun value => exists ds, directives value = Some ds /\ Forall (fun d => forbids_sharing d = false) ds)
      (get_all headers (bs "cache-control"))
  /\ response_cache_control_freshness headers <> FreshSeconds 0
  /\ Forall (fun value => Forall (fun raw => field_ok (trim raw)) (split_byte 44 value)) (get_all headers (bs "vary"))
  /\ forall x, x ∈ policy_fields (cache_vary_policy headers cache) <-> varies_on headers cache x.
Proof.
  unfold response_cache_admission_rejection, response_cache_header_policy_rejection. cbv zeta.
  destruct (negb (status =? 200) && _) eqn:E1; [done |]. destruct (_ && negb (response_content_type_is_cacheable _ _)); [done |].
  destruct (contains_key headers (bs "set-cookie")); [done |]. destruct (existsb _ _); [done |].
  destruct (response_headers_match_cache_no_store_value _ _); [done |].
  destruct (negb (forallb to_str_ok _)) eqn:Et; [done |].
  destruct (response_values_forbid_shared_cache _) eqn:Ec; [done |]. apply shareable_values in Ec as (Hd & policy & Hp & Hz).
  intros Hv. split_and!.
  - destruct (Z.eqb_spec status 200); [by left | right]. cbn [negb andb] in E1. apply negb_false_iff, orb_true_iff in E1.
    by rewrite !bool_decide_eq_true in E1.
  - done.
  - done.
  - unfold response_cache_control_freshness. destruct (negb (contains_key _ _)); [done |]. rewrite Et, Hp.
    destruct (cp_freshness_secs policy); congruence.
  - apply (vary_policy_spec headers cache). intros reason E. by rewrite E in Hv.
  - apply (vary_policy_spec headers cache). intros reason E. by rewrite E in Hv.
Qed.
End Vary.

Definition sample_cacheable_headers : HeaderMap :=
  [(bs "content-type", bs "image/png"); (bs "cache-control", bs "public, max-age=60"); (bs "vary", bs "Accept-Language")].
Definition sample_http_package : HttpPackage :=
  Build_HttpPackage http_token_valid (forallb (fun c => (c =? HT) || between 32 126 c))
    (forallb (fun c => (c =? HT) || between 32 126 c)).
Definition sample_admission_config : CacheConfig :=
  mkCacheConfig true false true false [bs "GET"] [bs "png"] None [KeyMethod; KeyHost; KeyPath; KeyQuery] true 1048576 []
    [bs "cache-tag"] [bs "image/*"] ∅ None [] ∅ [bs "Accept-Encoding"] (Some 30) None [] [].
Lemma admitted_response_shareable_witness :
  contains_key sample_cacheable_headers (bs "set-cookie") = false
  /\ bs "accept-language" ∈ policy_fields (@cache_vary_policy sample_http_package sample_cacheable_headers sample_admission_config).
Proof.
  destruct (@admitted_response_shareable sample_http_package 200 sample_cacheable_headers sample_admission_config)
    as (_ & Hc & _ & _ & _ & Hv); [by vm_compute |].
  split; [exact Hc |]. apply Hv. left. exists (bs "Accept-Language"), (bs "Accept-Language").
  split; [by apply (bool_decide_unpack _) | split; [by apply (bool_decide_unpack _) | by vm_compute]].
Defined.
