(* ===== verification/CacheObject.v ===== *)
(** * Cached objects on disk ([fluxheim-cache/src/object.rs], [tags.rs],
    [fluxheim-server/src/native_http1_cache_meta.rs])

    Cache tags, the file format of a cached object, and the encodings of its
    metadata and of its response headers inside that format.  Writing to memory
    does not fail; encryption of the bytes is left out. *)
From Stdlib Require Import ZArith Lia.
From stdpp Require Import base list numbers strings sets gmap.
From S2P Require Import Prelude Text LbBackend.

(** ** Tags *)

Definition MAX_CACHE_TAGS_PER_OBJECT : Z := 64.
Definition MAX_CACHE_TAG_LEN : Z := 128.
Definition MAX_CACHE_TAG_BYTES_PER_OBJECT : Z := 4096.
Definition tag_byte (c : Z) : bool :=
  is_ascii_alphanumeric c || (c =? 95) || (c =? 45) || (c =? 46) || (c =? 58) || (c =? 47) || (c =? 61).
Definition is_valid_cache_tag (tag : list Z) : bool :=
  negb (bool_decide (tag = [])) && (zlen tag <=? MAX_CACHE_TAG_LEN) && forallb tag_byte tag.
(** The loop of [collect_cache_tags]: the tags so far and their bytes. *)
Fixpoint collect_candidates (candidates : list (list Z)) (tags : list (list Z)) (total_bytes : Z)
    : list (list Z) * Z :=
  match candidates with
  | [] => (tags, total_bytes)
  | candidate :: candidates =>
      if (MAX_CACHE_TAGS_PER_OBJECT <=? zlen tags) || (MAX_CACHE_TAG_BYTES_PER_OBJECT <=? total_bytes)
      then (tags, total_bytes)
      else
        let candidate := trim candidate in
        if negb (is_valid_cache_tag candidate) || existsb (fun tag => bool_decide (tag = candidate)) tags
        then collect_candidates candidates tags total_bytes
        else
          let next_bytes := saturating_add USIZE_MAX total_bytes (zlen candidate) in
          if MAX_CACHE_TAG_BYTES_PER_OBJECT <? next_bytes then (tags, total_bytes)
          else collect_candidates candidates (tags ++ [candidate]) next_bytes
  end.
(** [value.split(|c| c == ',' || c.is_whitespace())] without the empty pieces,
    which are no tags. *)
Definition tag_candidates (value : list Z) : list (list Z) := concat (split_whitespace <$> split_byte 44 value).
Definition collect_cache_tags (value : list Z) (tags : list (list Z)) (total_bytes : Z) : list (list Z) * Z :=
  collect_candidates (tag_candidates value) tags total_bytes.
(** [tags.join("\n")] *)
Definition encode_cache_tags (tags : list (list Z)) : list Z := join_byte LF tags.

(** ** The file format *)

Inductive DiskError : Type :=
| InvalidMagic | MissingNewline | LengthNotUtf8 | LengthInvalid | ObjectTooLarge | SizeOverflow | LengthMismatch
| WeightTooLarge | FieldNotUtf8.

Definition decode_cache_tags (bytes : list Z) : result (list (list Z)) DiskError :=
  if bool_decide (bytes = []) then Ok []
  else if negb (utf8_valid bytes) then Err FieldNotUtf8
  else Ok (collect_cache_tags bytes [] 0).1.

Definition disk_magic (version : Z) : list Z := bs "FLUXHEIM-CACHE-v" ++ to_decimal version ++ [LF].
Record DiskCacheObjectKey : Type := mkDiskKey {
  dk_combined : list Z;
  dk_primary : list Z;
  dk_user_tag : list Z;
  dk_index_path : option (list Z);
  dk_cache_tags : list (list Z);
}.
Record SerializedCacheObject : Type := mkSerialized {
  so_combined_key : option (list Z);
  so_primary_key : option (list Z);
  so_user_tag : option (list Z);
  so_index_path : option (list Z);
  so_cache_tags : list (list Z);
  so_internal_meta : list Z;
  so_response_header : list Z;
  so_body : list Z;
  so_weight : Z;
}.
(** [writeln!(writer, "{}", n)] *)
Definition number_line (n : Z) : list Z := to_decimal n ++ [LF].
Definition write_disk_cache_object_plaintext_prefix (key : DiskCacheObjectKey) (internal_meta response_header : list Z)
    (body_len : Z) : list Z :=
  let encoded_cache_tags := encode_cache_tags (dk_cache_tags key) in
  let index_path := default [] (dk_index_path key) in
  disk_magic 5
  ++ number_line (zlen (dk_combined key)) ++ number_line (zlen (dk_primary key)) ++ number_line (zlen (dk_user_tag key))
  ++ number_line (zlen encoded_cache_tags) ++ number_line (zlen index_path) ++ number_line (zlen internal_meta)
  ++ number_line (zlen response_header) ++ number_line body_len
  ++ dk_combined key ++ dk_primary key ++ dk_user_tag key ++ encoded_cache_tags ++ index_path
  ++ internal_meta ++ response_header.
Definition encode_disk_cache_object (key : DiskCacheObjectKey) (internal_meta response_header body : list Z) : list Z :=
  write_disk_cache_object_plaintext_prefix key internal_meta response_header (zlen body) ++ body.

(** [parse_disk_cache_len]: the number on the next line and where the line ends. *)
Definition parse_disk_cache_len (bytes : list Z) (offset : Z) : result (Z * Z) DiskError :=
  match find_byte LF (zdrop offset bytes) with
  | None => Err MissingNewline
  | Some relative_newline =>
      let line := ztake relative_newline (zdrop offset bytes) in
      if negb (utf8_valid line) then Err LengthNotUtf8
      else match parse_uint USIZE_MAX line with
           | None => Err LengthInvalid
           | Some len => Ok (len, offset + relative_newline + 1)
           end
  end.
(** A length that the format version has. *)
Definition optional_len (present : bool) (bytes : list Z) (offset : Z) : result (Z * Z) DiskError :=
  if present then parse_disk_cache_len bytes offset else Ok (0, offset).
Definition cache_object_utf8 (bytes : list Z) : result (list Z) DiskError :=
  if utf8_valid bytes then Ok bytes else Err FieldNotUtf8.
Definition optional_text (present : bool) (bytes : list Z) : result (option (list Z)) DiskError :=
  if present then let? text := cache_object_utf8 bytes in Ok (Some text) else Ok None.
Definition format_version (bytes : list Z) : option Z :=
  List.find (fun version => starts_with (disk_magic version) bytes) [5; 4; 3; 2; 1].
(** [bytes[a..b]] *)
Definition piece (bytes : list Z) (a b : Z) : list Z := ztake (b - a) (zdrop a bytes).

Definition parse_disk_cache_object (bytes : list Z) (max_object_bytes : Z) : result SerializedCacheObject DiskError :=
  match format_version bytes with
  | None => Err InvalidMagic
  | Some version =>
      let? (combined_key_len, offset) := optional_len (3 <=? version) bytes (zlen (disk_magic version)) in
      let? (primary_key_len, offset) := optional_len (2 <=? version) bytes offset in
      let? (user_tag_len, offset) := optional_len (3 <=? version) bytes offset in
      let? (cache_tags_len, offset) := optional_len (4 <=? version) bytes offset in
      let? (index_path_len, offset) := optional_len (5 <=? version) bytes offset in
      let? (internal_meta_len, offset) := parse_disk_cache_len bytes offset in
      let? (response_header_len, offset) := parse_disk_cache_len bytes offset in
      let? (body_len, offset) := parse_disk_cache_len bytes offset in
      let object_bytes :=
        saturating_add U64_MAX (saturating_add U64_MAX internal_meta_len response_header_len) body_len in
      if max_object_bytes <? object_bytes then Err ObjectTooLarge
      else
        match foldl (fun total len => total ≫= fun total => checked_add USIZE_MAX total len) (Some offset)
                [combined_key_len; primary_key_len; user_tag_len; cache_tags_len; index_path_len; internal_meta_len;
                 response_header_len; body_len] with
        | None => Err SizeOverflow
        | Some total_len =>
            if negb (total_len =? zlen bytes) then Err LengthMismatch
            else if U32_MAX <? object_bytes then Err WeightTooLarge
            else
              let combined_key_end := offset + combined_key_len in
              let primary_key_end := combined_key_end + primary_key_len in
              let user_tag_end := primary_key_end + user_tag_len in
              let cache_tags_end := user_tag_end + cache_tags_len in
              let index_path_end := cache_tags_end + index_path_len in
              let internal_meta_end := index_path_end + internal_meta_len in
              let response_header_end := internal_meta_end + response_header_len in
              let? combined_key := optional_text (3 <=? version) (piece bytes offset combined_key_end) in
              let? primary_key := optional_text (2 <=? version) (piece bytes combined_key_end primary_key_end) in
              let? user_tag := optional_text (3 <=? version) (piece bytes primary_key_end user_tag_end) in
              let? cache_tags :=
                if 4 <=? version then decode_cache_tags (piece bytes user_tag_end cache_tags_end) else Ok [] in
              let? index_path := optional_text (5 <=? version) (piece bytes cache_tags_end index_path_end) in
              Ok (mkSerialized combined_key primary_key user_tag
                    (match index_path with
                     | Some value => if bool_decide (value = []) then None else Some value
                     | None => None
                     end)
                    cache_tags
                    (piece bytes index_path_end internal_meta_end)
                    (piece bytes internal_meta_end response_header_end)
                    (zdrop response_header_end bytes) object_bytes)
        end
  end.

(** ** Metadata *)

Definition MAX_NATIVE_DISK_CACHE_META_BYTES : Z := 1048576.
Definition MAX_NATIVE_DISK_CACHE_VARY_FIELDS : Z := 64.
Definition MAX_NATIVE_DISK_CACHE_RESPONSE_HEADERS : Z := 256.
Definition MAX_NATIVE_DISK_CACHE_REASON_BYTES : Z := 1024.

Record NativeDiskCacheMeta : Type := mkMeta {
  dm_status : Z;
  dm_reason : list Z;
  dm_content_length : option Z;
  dm_expires_at_unix_secs : Z;
  dm_stale_while_revalidate_until_unix_secs : option Z;
  dm_stale_if_error_until_unix_secs : option Z;
  dm_stored_at_unix_secs : Z;
  dm_body_sha256 : option (list Z);
  dm_stale_reuse_forbidden : option bool;
  dm_vary_fields : list (list Z);
}.
Definition hex_digit (n : Z) : Z := if n <? 10 then 48 + n else 87 + n.
Definition native_sha256_hex (digest : list Z) : list Z :=
  concat ((fun byte => [hex_digit (Z.shiftr byte 4); hex_digit (Z.land byte 15)]) <$> digest).
(** An optional value on a line. *)
Definition optional_line {A} (show : A -> list Z) (value : option A) : list Z :=
  match value with Some value => show value | None => bs "-" end ++ [LF].
Definition meta_magic (version : Z) : list Z := bs "FLUXHEIM-NATIVE-PROXY-CACHE-v" ++ to_decimal version.
Definition meta_encode (m : NativeDiskCacheMeta) : list Z :=
  (meta_magic 3 ++ [LF])
  ++ number_line (dm_status m) ++ number_line (zlen (dm_reason m))
  ++ optional_line to_decimal (dm_content_length m)
  ++ number_line (dm_expires_at_unix_secs m)
  ++ optional_line to_decimal (dm_stale_while_revalidate_until_unix_secs m)
  ++ optional_line to_decimal (dm_stale_if_error_until_unix_secs m)
  ++ number_line (dm_stored_at_unix_secs m)
  ++ optional_line native_sha256_hex (dm_body_sha256 m)
  ++ optional_line (fun value : bool => if value then bs "1" else bs "0") (dm_stale_reuse_forbidden m)
  ++ number_line (zlen (dm_vary_fields m))
  ++ concat ((fun field => number_line (zlen field)) <$> dm_vary_fields m)
  ++ dm_reason m ++ concat (dm_vary_fields m).

(** [native_disk_meta_line]: the next line and the rest; an offset into the bytes
    is the rest behind it. *)
Definition meta_line (rest : list Z) : option (list Z * list Z) :=
  match split_once LF rest with
  | Some (line, rest) => if utf8_valid line then Some (line, rest) else None
  | None => None
  end.
Definition meta_number (max : Z) (rest : list Z) : option (Z * list Z) :=
  match meta_line rest with
  | Some (line, rest) => match parse_uint max line with Some n => Some (n, rest) | None => None end
  | None => None
  end.
Definition native_disk_meta_optional_u64 (value : list Z) : option (option Z) :=
  if bool_decide (value = bs "-") then Some None else Some <$> parse_uint U64_MAX value.
Definition native_hex_nibble (value : Z) : option Z :=
  if between 48 57 value then Some (value - 48)
  else if between 97 102 value then Some (value - 97 + 10)
  else if between 65 70 value then Some (value - 65 + 10)
  else None.
Fixpoint hex_pairs (value : list Z) : option (list Z) :=
  match value with
  | high :: low :: value =>
      match native_hex_nibble high, native_hex_nibble low, hex_pairs value with
      | Some high, Some low, Some rest => Some (Z.lor (Z.shiftl high 4) low :: rest)
      | _, _, _ => None
      end
  | _ => Some []
  end.
Definition native_disk_meta_optional_sha256 (value : list Z) : option (option (list Z)) :=
  if bool_decide (value = bs "-") then Some None
  else if negb (zlen value =? 64) then None
  else Some <$> hex_pairs value.
Definition meta_optional {A} (read : list Z -> option (option A)) (rest : list Z) : option (option A * list Z) :=
  match meta_line rest with
  | Some (line, rest) => match read line with Some value => Some (value, rest) | None => None end
  | None => None
  end.
Definition meta_flag (line : list Z) : option (option bool) :=
  if bool_decide (line = bs "1") then Some (Some true)
  else if bool_decide (line = bs "0") then Some (Some false)
  else if bool_decide (line = bs "-") then Some None
  else None.
(** The loop over the lengths of the fields. *)
Fixpoint meta_lengths (count : nat) (rest : list Z) : option (list Z * list Z) :=
  match count with
  | O => Some ([], rest)
  | S count =>
      match meta_number USIZE_MAX rest with
      | Some (len, rest) => match meta_lengths count rest with Some (lens, rest) => Some (len :: lens, rest) | None => None end
      | None => None
      end
  end.
(** [bytes.get(offset..offset + len)?] as text, and the rest behind it. *)
Definition meta_text (len : Z) (rest : list Z) : option (list Z * list Z) :=
  if zlen rest <? len then None
  else if utf8_valid (ztake len rest) then Some (ztake len rest, zdrop len rest) else None.
Fixpoint meta_texts (lens : list Z) (rest : list Z) : option (list (list Z) * list Z) :=
  match lens with
  | [] => Some ([], rest)
  | len :: lens =>
      match meta_text len rest with
      | Some (text, rest) =>
          match meta_texts lens rest with Some (texts, rest) => Some (text :: texts, rest) | None => None end
      | None => None
      end
  end.
Definition meta_version (magic : list Z) : option Z :=
  List.find (fun version => bool_decide (magic = meta_magic version)) [1; 2; 3].

Definition meta_decode (bytes : list Z) : option NativeDiskCacheMeta :=
  if MAX_NATIVE_DISK_CACHE_META_BYTES <? zlen bytes then None
  else
    let* (magic, rest) := meta_line bytes in
    let* version := meta_version magic in
    let* (status, rest) := meta_number U16_MAX rest in
    let* (reason_len, rest) := meta_number USIZE_MAX rest in
    if MAX_NATIVE_DISK_CACHE_REASON_BYTES <? reason_len then None
    else
      let* (content_length, rest) := meta_optional native_disk_meta_optional_u64 rest in
      let* (expires_at, rest) := meta_number U64_MAX rest in
      let* (stale_while_revalidate_until, rest) := meta_optional native_disk_meta_optional_u64 rest in
      let* (stale_if_error_until, rest) := meta_optional native_disk_meta_optional_u64 rest in
      let* (stored_at, rest) := meta_number U64_MAX rest in
      let* (body_sha256, rest) :=
        if 2 <=? version then meta_optional native_disk_meta_optional_sha256 rest else Some (None, rest) in
      let* (stale_reuse_forbidden, rest) :=
        if 3 <=? version then meta_optional meta_flag rest else Some (None, rest) in
      let* (vary_count, rest) := meta_number USIZE_MAX rest in
      if (MAX_NATIVE_DISK_CACHE_VARY_FIELDS <? vary_count) || (zlen rest <? vary_count) then None
      else
        let* (vary_lens, rest) := meta_lengths (Z.to_nat vary_count) rest in
        let* (reason, rest) := meta_text reason_len rest in
        let* (vary_fields, rest) := meta_texts vary_lens rest in
        if bool_decide (rest = [])
        then Some (mkMeta status reason content_length expires_at stale_while_revalidate_until stale_if_error_until
                     stored_at body_sha256 stale_reuse_forbidden vary_fields)
        else None.

(** ** Response headers *)

Definition native_disk_response_header_bytes (headers : list (list Z * list Z)) : list Z :=
  number_line (zlen headers)
  ++ concat ((fun h => number_line (zlen h.1) ++ number_line (zlen h.2)) <$> headers)
  ++ concat ((fun h => h.1 ++ h.2) <$> headers).
Fixpoint header_lengths (count : nat) (rest : list Z) : option (list (Z * Z) * list Z) :=
  match count with
  | O => Some ([], rest)
  | S count =>
      let* (name_len, rest) := meta_number USIZE_MAX rest in
      let* (value_len, rest) := meta_number USIZE_MAX rest in
      let* (lens, rest) := header_lengths count rest in
      Some ((name_len, value_len) :: lens, rest)
  end.
Fixpoint header_texts (lens : list (Z * Z)) (rest : list Z) : option (list (list Z * list Z) * list Z) :=
  match lens with
  | [] => Some ([], rest)
  | (name_len, value_len) :: lens =>
      let* (name, rest) := meta_text name_len rest in
      let* (value, rest) := meta_text value_len rest in
      let* (headers, rest) := header_texts lens rest in
      Some ((name, value) :: headers, rest)
  end.
Definition native_disk_response_headers (bytes : list Z) : option (list (list Z * list Z)) :=
  if MAX_NATIVE_DISK_CACHE_META_BYTES <? zlen bytes then None
  else
    let* (count, rest) := meta_number USIZE_MAX bytes in
    if (MAX_NATIVE_DISK_CACHE_RESPONSE_HEADERS <? count) || (zlen rest <? count) then None
    else
      let* (lengths, rest) := header_lengths (Z.to_nat count) rest in
      let* (headers, rest) := header_texts lengths rest in
      if bool_decide (rest = []) then Some headers else None.
