(* ===== verification/CacheObjectProps.v ===== *)
(** * A cached object is read back as it was stored

    Round trips of the tags, of the file format, of the metadata and of the
    response headers, and of all of them together. *)
From Stdlib Require Import ZArith Lia.
From stdpp Require Import base list numbers strings sets gmap.
From S2P Require Import Prelude Text LbBackend CacheObject.

(** ** Tags *)

Definition tags_total (tags : list (list Z)) : Z := foldr (fun tag total => zlen tag + total) 0 tags.
(** What [collect_cache_tags] produces. *)
Record tags_normal (tags : list (list Z)) : Prop := {
  tn_once : NoDup tags;
  tn_valid : Forall (fun tag => is_valid_cache_tag tag = true) tags;
  tn_count : zlen tags <= MAX_CACHE_TAGS_PER_OBJECT;
  tn_total : tags_total tags <= MAX_CACHE_TAG_BYTES_PER_OBJECT;
}.
Lemma tags_total_app l k : tags_total (l ++ k) = tags_total l + tags_total k.
Proof. unfold tags_total. induction l as [| t l IH]; [done |]. cbn [app foldr]. rewrite IH. lia. Qed.
Lemma tags_total_one t : tags_total [t] = zlen t.
Proof. unfold tags_total. cbn [foldr]. lia. Qed.
Lemma tags_total_nonneg l : 0 <= tags_total l.
Proof. unfold tags_total. induction l as [| t l IH]; [done |]. cbn [foldr]. pose proof (zlen_nonneg t). lia. Qed.

Lemma collect_candidates_cons c candidates tags total :
  collect_candidates (c :: candidates) tags total
  = if (MAX_CACHE_TAGS_PER_OBJECT <=? zlen tags) || (MAX_CACHE_TAG_BYTES_PER_OBJECT <=? total) then (tags, total)
    else if negb (is_valid_cache_tag (trim c)) || existsb (fun tag => bool_decide (tag = trim c)) tags
    then collect_candidates candidates tags total
    else if MAX_CACHE_TAG_BYTES_PER_OBJECT <? saturating_add USIZE_MAX total (zlen (trim c)) then (tags, total)
    else collect_candidates candidates (tags ++ [trim c]) (saturating_add USIZE_MAX total (zlen (trim c))).
Proof. reflexivity. Qed.
Lemma small_saturating_add a b :
  saturating_add USIZE_MAX a b <= MAX_CACHE_TAG_BYTES_PER_OBJECT -> saturating_add USIZE_MAX a b = a + b.
Proof. unfold saturating_add, MAX_CACHE_TAG_BYTES_PER_OBJECT, USIZE_MAX, U64_MAX. lia. Qed.
Lemma collect_normal candidates tags total :
  tags_normal tags -> total = tags_total tags ->
  let '(tags', total') := collect_candidates candidates tags total in
  tags_normal tags' /\ total' = tags_total tags'.
Proof.
  revert tags total. induction candidates as [| c candidates IH]; intros tags total Hn Ht; [done |].
  rewrite collect_candidates_cons. generalize (trim c). clear c. intros tag.
  destruct (_ || _) eqn:E1; [done |]. apply orb_false_iff in E1 as [Ec%Z.leb_gt _].
  destruct (_ || _) eqn:E2; [by apply IH |]. apply orb_false_iff in E2 as [Ev%negb_false_iff Ed].
  destruct (Z.ltb_spec MAX_CACHE_TAG_BYTES_PER_OBJECT (saturating_add USIZE_MAX total (zlen tag))) as [| Hle]; [done |].
  rewrite small_saturating_add in Hle |- * by done. destruct Hn as [Ho Hv Hc Hb].
  apply IH; [split |]; rewrite ?tags_total_app, ?tags_total_one; try lia.
  - apply NoDup_app. split_and!; [done | | apply NoDup_singleton]. intros x Hin ->%list_elem_of_singleton.
    assert (existsb (fun t => bool_decide (t = tag)) tags = true); [| congruence].
    apply existsb_exists. exists tag. split; [by apply list_elem_of_In | by apply bool_decide_eq_true].
  - apply Forall_app. split; [done | by apply Forall_singleton].
  - rewrite zlen_app, zlen_cons, zlen_nil. lia.
Qed.

Lemma tag_byte_graphic c : tag_byte c = true -> ascii_graphic c /\ c <> 44 /\ 0 <= c.
Proof.
  intros H. assert (45 <= c <= 122) as Hc.
  { unfold tag_byte, is_ascii_alphanumeric, is_ascii_digit, is_ascii_upper, is_ascii_lower, between in H.
    rewrite !orb_true_iff, !andb_true_iff, !Z.leb_le, !Z.eqb_eq in H. lia. }
  unfold ascii_graphic. split; [split; [lia |] | lia]. unfold ws1, between.
  by rewrite (proj2 (Z.leb_gt c 13)), (proj2 (Z.eqb_neq c 32)), andb_false_r by lia.
Qed.
Lemma valid_tag_bytes tag : is_valid_cache_tag tag = true -> tag <> [] /\ Forall (fun c => ascii_graphic c /\ c <> 44 /\ 0 <= c) tag.
Proof.
  unfold is_valid_cache_tag. intros H. breflect. split; [done |]. apply Forall_forall. intros c Hc.
  match goal with H : forallb _ _ = true |- _ => rewrite forallb_forall in H; apply tag_byte_graphic, H end.
  by apply list_elem_of_In.
Qed.
Lemma words_go_word cur w s : Forall ascii_graphic w -> words_go cur (w ++ s) = words_go (rev w ++ cur) s.
Proof.
  intros Hw. revert cur. induction Hw as [| c w [Hc Hg] _ IH]; intros cur; [done |]. cbn [app rev].
  rewrite <- app_assoc. cbn [app]. rewrite <- IH. cbn [words_go]. rewrite Hg. destruct (w ++ s) as [| c1 s1] eqn:E; [done |].
  assert (ws2 c c1 = false) as -> by (apply not_true_iff_false; intros [? _]%ws2_not_ascii; lia).
  destruct s1 as [| c2 s2]; [done |].
  by assert (ws3 c c1 c2 = false) as -> by (apply not_true_iff_false; intros (? & _)%ws3_not_ascii; lia).
Qed.
Lemma split_whitespace_lines tags :
  Forall (fun tag => tag <> [] /\ Forall ascii_graphic tag) tags -> split_whitespace (join_byte LF tags) = tags.
Proof.
  unfold split_whitespace. induction 1 as [| tag tags [Hne Hg] Hf IH]; [done |].
  assert (forall r, flush (rev tag ++ []) r = tag :: r) as Hflush.
  { intros r. rewrite app_nil_r. unfold flush. destruct (rev tag) as [| x l] eqn:E.
    - apply (f_equal (@rev Z)) in E. by rewrite rev_involutive in E.
    - by rewrite <- E, rev_involutive. }
  destruct tags as [| tag2 tags].
  - cbn [join_byte]. rewrite <- (app_nil_r tag) at 1. rewrite words_go_word by done. cbn [words_go]. apply Hflush.
  - change (join_byte LF (tag :: tag2 :: tags)) with (tag ++ LF :: join_byte LF (tag2 :: tags)).
    rewrite words_go_word by done. change (words_go (rev tag ++ []) (LF :: join_byte LF (tag2 :: tags)))
      with (flush (rev tag ++ []) (words_go [] (join_byte LF (tag2 :: tags)))). by rewrite IH, Hflush.
Qed.

Lemma split_byte_lines tags :
  Forall (fun tag => Forall (fun c => c <> 44) tag) tags -> split_byte 44 (join_byte LF tags) = [join_byte LF tags].
Proof.
  intros Hf. apply split_byte_notin. intros Hin. induction Hf as [| tag tags Ht Hf IH]; [by apply not_elem_of_nil in Hin |].
  rewrite Forall_forall in Ht. destruct tags as [| tag2 tags]; cbn [join_byte] in Hin; [by apply (Ht _ Hin) |].
  apply elem_of_app in Hin as [Hin | [? | Hin]%elem_of_cons]; [by apply (Ht _ Hin) | done | by apply IH].
Qed.
Lemma trim_graphic s : Forall ascii_graphic s -> trim s = s.
Proof.
  intros Hg. apply trim_trimmed. unfold trimmed. destruct s as [| c s]; [done |].
  destruct (last (c :: s)) as [d |] eqn:E; [| done]. apply last_Some_elem_of in E. rewrite Forall_forall in Hg.
  split; apply Hg; [by left | done].
Qed.
Lemma tags_total_cons tag tags : tags_total (tag :: tags) = zlen tag + tags_total tags.
Proof. done. Qed.
Lemma collect_all tags done_ :
  tags_normal (done_ ++ tags) ->
  collect_candidates tags done_ (tags_total done_) = (done_ ++ tags, tags_total (done_ ++ tags)).
Proof.
  revert done_. induction tags as [| tag tags IH]; intros done_ Hn; [by rewrite app_nil_r |].
  rewrite collect_candidates_cons. pose proof Hn as [Ho Hv Hc Hb].
  apply Forall_app in Hv as [_ [Hvalid _]%Forall_cons]. destruct (valid_tag_bytes _ Hvalid) as [Hne Hg].
  rewrite trim_graphic by (eapply Forall_impl; [exact Hg |]; cbv beta; tauto).
  rewrite zlen_app, zlen_cons in Hc. rewrite tags_total_app, tags_total_cons in Hb.
  pose proof (tags_total_nonneg tags). pose proof (zlen_nonneg tags). pose proof (tags_total_nonneg done_).
  assert (0 < zlen tag) by (destruct tag; [done | rewrite zlen_cons; zlen_facts; lia]).
  rewrite (proj2 (Z.leb_gt _ _)), (proj2 (Z.leb_gt _ _)) by lia. rewrite Hvalid. cbn [orb negb].
  assert (existsb (fun t => bool_decide (t = tag)) done_ = false) as ->.
  { apply not_true_iff_false. intros (t & Hin%list_elem_of_In & ->%bool_decide_eq_true)%existsb_exists.
    apply NoDup_app in Ho as (_ & Hd & _). apply (Hd tag Hin). by left. }
  rewrite saturating_add_exact by (unfold MAX_CACHE_TAG_BYTES_PER_OBJECT, USIZE_MAX, U64_MAX in *; lia).
  rewrite (proj2 (Z.ltb_ge _ _)) by lia.
  rewrite <- (tags_total_one tag), <- tags_total_app, IH; by rewrite <- app_assoc.
Qed.
(** Tags are read back. *)
Lemma tags_round_trip tags : tags_normal tags -> decode_cache_tags (encode_cache_tags tags) = Ok tags.
Proof.
  intros Hn. unfold decode_cache_tags, encode_cache_tags. pose proof (tn_valid _ Hn) as Hv.
  assert (Forall (fun tag => tag <> [] /\ Forall (fun c => ascii_graphic c /\ c <> 44 /\ 0 <= c) tag) tags) as Hb
    by (eapply Forall_impl; [exact Hv | exact valid_tag_bytes]).
  case_bool_decide as He.
  { destruct Hb as [| tag tags [Hne _] _]; [done |]. by destruct tags, tag. }
  assert (utf8_valid (join_byte LF tags) = true) as ->.
  { apply utf8_valid_ascii. clear -Hb. induction Hb as [| tag tags [_ Ht] Hb IH]; [constructor |].
    assert (Forall (fun c => 0 <= c < 128) tag) as H
      by (eapply Forall_impl; [exact Ht |]; intros c ([? _] & _ & ?); lia).
    destruct tags; [done |]. apply Forall_app. split; [done |]. by constructor. }
  cbn [negb]. unfold collect_cache_tags, tag_candidates. rewrite split_byte_lines.
  - cbn [fmap list_fmap concat]. rewrite app_nil_r, split_whitespace_lines.
    + pose proof (collect_all tags [] Hn) as Hc. change (tags_total []) with 0 in Hc. by rewrite Hc.
    + eapply Forall_impl; [exact Hb |]. intros tag [? Ht]. split; [done |]. eapply Forall_impl; [exact Ht |]. cbv beta. tauto.
  - eapply Forall_impl; [exact Hb |]. intros tag [? Ht]. eapply Forall_impl; [exact Ht |]. cbv beta. tauto.
Qed.

(** ** The file format *)

Lemma digits_bytes n : 0 <= n -> Forall (fun c => 48 <= c <= 57) (to_decimal n).
Proof.
  intros Hn. eapply Forall_impl; [by apply to_decimal_digits |]. cbv beta. intros c Hc.
  unfold is_ascii_digit, between in Hc. breflect. lia.
Qed.
Lemma digits_no_newline n : 0 <= n -> LF ∉ to_decimal n.
Proof. intros Hn Hin. pose proof (digits_bytes n Hn) as Hf. rewrite Forall_forall in Hf. apply Hf in Hin. lia. Qed.
Lemma digits_utf8 n : 0 <= n -> utf8_valid (to_decimal n) = true.
Proof. intros Hn. apply utf8_valid_ascii. eapply Forall_impl; [by apply digits_bytes |]. cbv beta. lia. Qed.

Section At.
Context (bytes : list Z).

(** [rest] is what the bytes hold from [offset] on. *)
Definition at_offset (offset : Z) (rest : list Z) : Prop := 0 <= offset /\ zdrop offset bytes = rest.

Lemma at_start a rest : bytes = a ++ rest -> at_offset (zlen a) rest.
Proof. intros E. split; [apply zlen_nonneg | rewrite E; apply zdrop_app_exact]. Qed.
Lemma at_move offset x rest : at_offset offset (x ++ rest) -> at_offset (offset + zlen x) rest.
Proof.
  intros [Ho E]. pose proof (zlen_nonneg x). split; [lia |]. by rewrite <- zdrop_drop, E, zdrop_app_exact by lia.
Qed.
Lemma at_piece offset x rest : at_offset offset (x ++ rest) -> piece bytes offset (offset + zlen x) = x.
Proof. intros [_ E]. unfold piece. rewrite E. replace (offset + zlen x - offset) with (zlen x) by lia. apply ztake_app_exact. Qed.
Lemma at_len offset n rest :
  at_offset offset (number_line n ++ rest) -> 0 <= n <= U64_MAX ->
  parse_disk_cache_len bytes offset = Ok (n, offset + zlen (number_line n)).
Proof.
  intros [_ E] Hn. unfold parse_disk_cache_len, number_line in *. rewrite E, <- app_assoc. cbn [app].
  unfold find_byte. rewrite position_app.
  - cbv iota beta zeta. rewrite ztake_app_exact, digits_utf8 by lia. cbn [negb].
    rewrite parse_uint_to_decimal by (unfold USIZE_MAX; lia). do 2 f_equal. rewrite zlen_app, zlen_cons, zlen_nil. lia.
  - eapply Forall_impl; [by apply digits_bytes; lia |]. cbv beta. intros c Hc. apply Z.eqb_neq. lia.
  - done.
Qed.
End At.

(** What can be stored: text is UTF-8, the tags are normal, sizes are within the
    limits. *)
Record storable (key : DiskCacheObjectKey) (meta header body : list Z) (max_object_bytes : Z) : Prop := {
  st_combined : utf8_valid (dk_combined key) = true;
  st_primary : utf8_valid (dk_primary key) = true;
  st_user_tag : utf8_valid (dk_user_tag key) = true;
  st_index_path : forall path, dk_index_path key = Some path -> utf8_valid path = true /\ path <> [];
  st_tags : tags_normal (dk_cache_tags key);
  st_object : zlen meta + zlen header + zlen body <= Z.min max_object_bytes U32_MAX;
  st_total : zlen (encode_disk_cache_object key meta header body) <= USIZE_MAX;
}.
Lemma magic_version rest : format_version (disk_magic 5 ++ rest) = Some 5.
Proof.
  unfold format_version. cbn [List.find]. assert (starts_with (disk_magic 5) (disk_magic 5 ++ rest) = true) as ->; [| done].
  apply starts_with_true. eauto.
Qed.
(** A stored object is read back. *)
Lemma disk_object_round_trip key meta header body max_object_bytes :
  storable key meta header body max_object_bytes ->
  parse_disk_cache_object (encode_disk_cache_object key meta header body) max_object_bytes
  = Ok (mkSerialized (Some (dk_combined key)) (Some (dk_primary key)) (Some (dk_user_tag key)) (dk_index_path key)
          (dk_cache_tags key) meta header body (zlen meta + zlen header + zlen body)).
Proof.
  intros [Hc Hp Hu Hi Ht Ho Hb].
  set (tags := encode_cache_tags (dk_cache_tags key)). set (path := default [] (dk_index_path key)).
  set (bytes := encode_disk_cache_object key meta header body) in *.
  assert (bytes = disk_magic 5 ++ number_line (zlen (dk_combined key)) ++ number_line (zlen (dk_primary key))
    ++ number_line (zlen (dk_user_tag key)) ++ number_line (zlen tags) ++ number_line (zlen path)
    ++ number_line (zlen meta) ++ number_line (zlen header) ++ number_line (zlen body)
    ++ dk_combined key ++ dk_primary key ++ dk_user_tag key ++ tags ++ path ++ meta ++ header ++ body) as Eb.
  { unfold bytes, encode_disk_cache_object, write_disk_cache_object_plaintext_prefix. cbv zeta. fold tags path.
    by rewrite <- !app_assoc. }
  assert (zlen (dk_combined key) + zlen (dk_primary key) + zlen (dk_user_tag key) + zlen tags + zlen path + zlen meta
          + zlen header + zlen body <= U64_MAX) as Hsizes.
  { rewrite Eb in Hb. rewrite !zlen_app in Hb. unfold USIZE_MAX in Hb. zlen_facts. lia. }
  zlen_facts.
  assert (format_version bytes = Some 5) as Hv by (rewrite Eb; apply magic_version).
  pose proof (at_start bytes _ _ Eb) as A0.
  pose proof (at_move _ _ _ _ A0) as A1. pose proof (at_move _ _ _ _ A1) as A2. pose proof (at_move _ _ _ _ A2) as A3.
  pose proof (at_move _ _ _ _ A3) as A4. pose proof (at_move _ _ _ _ A4) as A5. pose proof (at_move _ _ _ _ A5) as A6.
  pose proof (at_move _ _ _ _ A6) as A7. pose proof (at_move _ _ _ _ A7) as A8. pose proof (at_move _ _ _ _ A8) as A9.
  pose proof (at_move _ _ _ _ A9) as A10. pose proof (at_move _ _ _ _ A10) as A11. pose proof (at_move _ _ _ _ A11) as A12.
  pose proof (at_move _ _ _ _ A12) as A13. pose proof (at_move _ _ _ _ A13) as A14. pose proof (at_move _ _ _ _ A14) as A15.
  unfold parse_disk_cache_object. rewrite Hv. cbn [optional_len Z.leb Z.compare Pos.compare Pos.compare_cont].
  rewrite (at_len _ _ _ _ A0), (at_len _ _ _ _ A1), (at_len _ _ _ _ A2), (at_len _ _ _ _ A3), (at_len _ _ _ _ A4),
    (at_len _ _ _ _ A5), (at_len _ _ _ _ A6), (at_len _ _ _ _ A7) by lia.
  rewrite (saturating_add_exact _ (zlen meta)), saturating_add_exact by lia. rewrite (proj2 (Z.ltb_ge _ _)) by lia.
  match type of A8 with at_offset _ ?x _ => set (o := x) in * end.
  assert (zlen bytes = o + zlen (dk_combined key) + zlen (dk_primary key) + zlen (dk_user_tag key) + zlen tags + zlen path
          + zlen meta + zlen header + zlen body) as Hlen by (rewrite Eb, !zlen_app; unfold o; lia).
  assert (0 <= o) as Hpos by apply A8. clearbody o. cbn [foldl mbind option_bind].
  do 8 (rewrite checked_add_exact by lia; cbn [mbind option_bind]).
  rewrite Hlen, Z.eqb_refl. cbn [negb]. rewrite (proj2 (Z.ltb_ge _ _)) by lia. cbn [optional_text].
  rewrite (at_piece _ _ _ _ A8), (at_piece _ _ _ _ A9), (at_piece _ _ _ _ A10), (at_piece _ _ _ _ A11),
    (at_piece _ _ _ _ A12), (at_piece _ _ _ _ A13), (at_piece _ _ _ _ A14).
  unfold cache_object_utf8. rewrite Hc, Hp, Hu. unfold tags at 1. rewrite tags_round_trip by done.
  rewrite (proj2 A15). assert (utf8_valid path = true) as ->.
  { unfold path. destruct (dk_index_path key) as [p |]; [by apply Hi | done]. }
  do 2 f_equal. unfold path. destruct (dk_index_path key) as [p |]; cbn; [| done].
  by rewrite bool_decide_false by (by apply Hi).
Qed.

(** ** Metadata *)

Lemma meta_line_reads line rest :
  LF ∉ line -> utf8_valid line = true -> meta_line (line ++ LF :: rest) = Some (line, rest).
Proof. intros Hl Hu. unfold meta_line. by rewrite split_once_app, Hu by done. Qed.
Lemma meta_number_reads max n rest :
  0 <= n <= max -> max <= U64_MAX -> meta_number max (number_line n ++ rest) = Some (n, rest).
Proof.
  intros Hn Hm. unfold meta_number, number_line. rewrite <- app_assoc. cbn [app].
  rewrite meta_line_reads by (apply digits_no_newline || apply digits_utf8; lia). by rewrite parse_uint_to_decimal by lia.
Qed.
Definition u64_option (o : option Z) : Prop := forall n, o = Some n -> 0 <= n <= U64_MAX.
Lemma digits_not_dash n : 0 <= n -> to_decimal n <> bs "-".
Proof. intros Hn E. pose proof (digits_bytes n Hn) as Hf. rewrite E in Hf. apply Forall_cons in Hf as [Hf _]. vm_compute in Hf. by destruct Hf. Qed.
Lemma meta_optional_u64_reads o rest :
  u64_option o -> meta_optional native_disk_meta_optional_u64 (optional_line to_decimal o ++ rest) = Some (o, rest).
Proof.
  intros Ho. unfold meta_optional, optional_line. rewrite <- app_assoc. cbn [app]. destruct o as [n |].
  - specialize (Ho n eq_refl). rewrite meta_line_reads by (apply digits_no_newline || apply digits_utf8; lia).
    unfold native_disk_meta_optional_u64. rewrite bool_decide_false by (apply digits_not_dash; lia).
    by rewrite parse_uint_to_decimal by lia.
  - rewrite meta_line_reads; [done | by apply (bool_decide_unpack _) | done].
Qed.
Definition digest_ok (o : option (list Z)) : Prop := forall d, o = Some d -> length d = 32%nat /\ Forall in_u8 d.
Lemma hex_pair byte : in_u8 byte ->
  exists h l, native_hex_nibble (hex_digit (Z.shiftr byte 4)) = Some h /\ native_hex_nibble (hex_digit (Z.land byte 15)) = Some l
    /\ Z.lor (Z.shiftl h 4) l = byte
    /\ (48 <= hex_digit (Z.shiftr byte 4) <= 102) /\ (48 <= hex_digit (Z.land byte 15) <= 102).
Proof.
  intros Hb. assert (forallb (fun b =>
    match native_hex_nibble (hex_digit (Z.shiftr b 4)), native_hex_nibble (hex_digit (Z.land b 15)) with
    | Some h, Some l => (Z.lor (Z.shiftl h 4) l =? b) && between 48 102 (hex_digit (Z.shiftr b 4))
                        && between 48 102 (hex_digit (Z.land b 15))
    | _, _ => false
    end) (seqZ 0 256) = true) as H by (by vm_compute).
  rewrite forallb_forall in H. specialize (H byte). unfold in_u8, U8_MAX in Hb.
  specialize (H ltac:(apply list_elem_of_In, elem_of_seqZ; lia)).
  destruct (native_hex_nibble (hex_digit (Z.shiftr byte 4))) as [h |]; [| done].
  destruct (native_hex_nibble (hex_digit (Z.land byte 15))) as [l |]; [| done].
  exists h, l. unfold between in H. breflect. by split_and!.
Qed.
Lemma hex_round_trip d : Forall in_u8 d ->
  hex_pairs (native_sha256_hex d) = Some d /\ Forall (fun c => 48 <= c <= 102) (native_sha256_hex d)
  /\ length (native_sha256_hex d) = (2 * length d)%nat.
Proof.
  induction 1 as [| byte d Hb _ IH]; [by split_and!; [| constructor |] |]. destruct IH as (IH & Hf & Hl).
  destruct (hex_pair byte Hb) as (h & l & Hh & Hl' & Hv & Hr1 & Hr2).
  unfold native_sha256_hex. cbn [fmap list_fmap concat app hex_pairs]. fold (native_sha256_hex d).
  rewrite Hh, Hl', IH, Hv. split; [done |]. split; [by rewrite !Forall_cons | simpl; lia].
Qed.
Lemma meta_digest_reads o rest :
  digest_ok o ->
  meta_optional native_disk_meta_optional_sha256 (optional_line native_sha256_hex o ++ rest) = Some (o, rest).
Proof.
  intros Ho. unfold meta_optional, optional_line. rewrite <- app_assoc. cbn [app]. destruct o as [d |].
  - destruct (Ho d eq_refl) as [Hl Hd]. destruct (hex_round_trip d Hd) as (Hr & Hf & Hn). rewrite meta_line_reads.
    + unfold native_disk_meta_optional_sha256. rewrite bool_decide_false.
      * assert (zlen (native_sha256_hex d) = 64) as -> by (unfold zlen; lia). cbn [negb Z.eqb Pos.eqb]. by rewrite Hr.
      * intros E. rewrite E in Hn. rewrite Hl in Hn. done.
    + intros Hin. rewrite Forall_forall in Hf. apply Hf in Hin. lia.
    + apply utf8_valid_ascii. eapply Forall_impl; [exact Hf |]. cbv beta. lia.
  - rewrite meta_line_reads; [done | by apply (bool_decide_unpack _) | done].
Qed.
Lemma meta_flag_reads o rest :
  meta_optional meta_flag (optional_line (fun value : bool => if value then bs "1" else bs "0") o ++ rest) = Some (o, rest).
Proof.
  unfold meta_optional, optional_line. rewrite <- app_assoc. cbn [app].
  destruct o as [[] |]; (rewrite meta_line_reads; [done | by apply (bool_decide_unpack _) | done]).
Qed.
Lemma meta_lengths_reads fields rest :
  Forall (fun field => zlen field <= U64_MAX) fields ->
  meta_lengths (length fields) (concat ((fun field => number_line (zlen field)) <$> fields) ++ rest)
  = Some ((zlen (A:=Z)) <$> fields, rest).
Proof.
  induction 1 as [| field fields Hf _ IH]; [done |]. cbn [length meta_lengths fmap list_fmap concat].
  rewrite <- app_assoc, meta_number_reads by (unfold USIZE_MAX; pose proof (zlen_nonneg field); lia). by rewrite IH.
Qed.
Lemma meta_text_reads text rest : utf8_valid text = true -> meta_text (zlen text) (text ++ rest) = Some (text, rest).
Proof.
  intros Hu. unfold meta_text. rewrite (proj2 (Z.ltb_ge _ _)) by (rewrite zlen_app; zlen_facts; lia).
  by rewrite ztake_app_exact, Hu, zdrop_app_exact.
Qed.
Lemma meta_texts_reads fields rest :
  Forall (fun field => utf8_valid field = true) fields ->
  meta_texts (zlen (A:=Z) <$> fields) (concat fields ++ rest) = Some (fields, rest).
Proof.
  induction 1 as [| field fields Hf _ IH]; [done |]. cbn [fmap list_fmap meta_texts concat].
  rewrite <- app_assoc, meta_text_reads by done. by rewrite IH.
Qed.

(** Metadata that can be read back. *)
Record meta_ok (m : NativeDiskCacheMeta) : Prop := {
  mo_status : 0 <= dm_status m <= U16_MAX;
  mo_reason : zlen (dm_reason m) <= MAX_NATIVE_DISK_CACHE_REASON_BYTES /\ utf8_valid (dm_reason m) = true;
  mo_content_length : u64_option (dm_content_length m);
  mo_expires_at : 0 <= dm_expires_at_unix_secs m <= U64_MAX;
  mo_stale_while_revalidate : u64_option (dm_stale_while_revalidate_until_unix_secs m);
  mo_stale_if_error : u64_option (dm_stale_if_error_until_unix_secs m);
  mo_stored_at : 0 <= dm_stored_at_unix_secs m <= U64_MAX;
  mo_digest : digest_ok (dm_body_sha256 m);
  mo_vary_count : zlen (dm_vary_fields m) <= MAX_NATIVE_DISK_CACHE_VARY_FIELDS;
  mo_vary : Forall (fun field => utf8_valid field = true) (dm_vary_fields m);
  mo_size : zlen (meta_encode m) <= MAX_NATIVE_DISK_CACHE_META_BYTES;
}.
Lemma concat_piece {A} (x : list A) l : x ∈ l -> zlen x <= zlen (concat l).
Proof.
  induction l as [| y l IH]; [by intros ?%not_elem_of_nil |]. cbn [concat]. rewrite zlen_app. pose proof (zlen_nonneg y).
  pose proof (zlen_nonneg (concat l)). intros [-> | ?%IH]%elem_of_cons; lia.
Qed.
Lemma concat_count {A} (f : A -> list Z) l : (forall x, 1 <= zlen (f x)) -> zlen l <= zlen (concat (f <$> l)).
Proof.
  intros Hf. induction l as [| y l IH]; [done |]. cbn [fmap list_fmap concat]. rewrite zlen_app, zlen_cons.
  specialize (Hf y). lia.
Qed.
Lemma number_line_pos n : 1 <= zlen (number_line n).
Proof. unfold number_line. rewrite zlen_app, zlen_cons, zlen_nil. zlen_facts. lia. Qed.

(** Metadata is read back. *)
Lemma meta_round_trip m : meta_ok m -> meta_decode (meta_encode m) = Some m.
Proof.
  intros [Hs [Hr Hru] Hc He Hw Hi Hst Hd Hvc Hv Hsz]. unfold meta_decode. rewrite (proj2 (Z.ltb_ge _ _)) by done.
  assert (zlen (concat (dm_vary_fields m)) <= MAX_NATIVE_DISK_CACHE_META_BYTES) as Hfs.
  { unfold meta_encode in Hsz. rewrite !zlen_app in Hsz. zlen_facts. lia. }
  unfold MAX_NATIVE_DISK_CACHE_META_BYTES, MAX_NATIVE_DISK_CACHE_REASON_BYTES, MAX_NATIVE_DISK_CACHE_VARY_FIELDS in *.
  assert (Forall (fun field => zlen field <= U64_MAX) (dm_vary_fields m)) as Hfl.
  { apply Forall_forall. intros field Hin%concat_piece. unfold U64_MAX. lia. }
  unfold meta_encode. rewrite <- app_assoc. cbn [app].
  rewrite meta_line_reads by (done || by apply (bool_decide_unpack _)).
  change (meta_version (meta_magic 3)) with (Some 3). cbv iota beta.
  rewrite meta_number_reads by (done || unfold U16_MAX, U64_MAX in *; lia).
  pose proof (zlen_nonneg (dm_reason m)). rewrite meta_number_reads by (unfold USIZE_MAX, U64_MAX in *; lia).
  rewrite (proj2 (Z.ltb_ge _ _)) by lia.
  rewrite meta_optional_u64_reads by done. rewrite meta_number_reads by (done || lia).
  rewrite !meta_optional_u64_reads by done. rewrite meta_number_reads by (done || lia).
  change (2 <=? 3) with true. change (3 <=? 3) with true. cbv iota.
  rewrite meta_digest_reads by done. rewrite meta_flag_reads.
  pose proof (zlen_nonneg (dm_vary_fields m)). rewrite meta_number_reads by (unfold USIZE_MAX, U64_MAX in *; lia).
  rewrite (proj2 (Z.ltb_ge _ _)) by lia. cbn [orb].
  rewrite (proj2 (Z.ltb_ge _ _)).
  2: { rewrite !zlen_app. pose proof (concat_count (fun field => number_line (zlen field)) (dm_vary_fields m)
         ltac:(intros; apply number_line_pos)). zlen_facts. lia. }
  unfold zlen at 1. rewrite Nat2Z.id, meta_lengths_reads by done. rewrite meta_text_reads by done.
  rewrite <- (app_nil_r (concat (dm_vary_fields m))), meta_texts_reads by done.
  rewrite bool_decide_true by done. by destruct m.
Qed.
