(* ===== verification/CacheEntry.v ===== *)
(** * Cache entries and their form on disk ([fluxheim-server/src/native_http1_cache.rs],
    [native_http1_cache_memory.rs], [native_http1_cache_meta.rs])

    An entry of the cache, the conversion of its times, the bytes the disk cache
    writes for it when encryption is off and the entry it makes of bytes it reads
    back.  Instants and system times are counted in nanoseconds, system times from
    the Unix epoch; both hold [i64] seconds. *)
From Stdlib Require Import ZArith Lia.
From stdpp Require Import base list numbers strings sets gmap.
From S2P Require Import Prelude Text LbBackend CacheKey CacheControl CacheObject CacheObjectProps.

Record NativeMemoryCacheEntry : Type := mkCacheEntry {
  me_status : Z;
  me_reason : list Z;
  me_headers : list (list Z * list Z);
  me_content_length : option Z;
  me_body : list Z;
  me_body_sha256 : list Z;
  me_expires_at : Z;
  me_stale_while_revalidate_until : option Z;
  me_stale_if_error_until : option Z;
  me_stale_reuse_forbidden : bool;
  me_stored_at : Z;
  me_weight : Z;
}.

(** ** Times *)

Definition NANOS : Z := 1000000000.
Definition TIME_MAX : Z := 9223372036854775807 * NANOS + (NANOS - 1).
Definition TIME_MIN : Z := -9223372036854775808 * NANOS.
Definition time_checked_add (t d : Z) : option Z := if t + d <=? TIME_MAX then Some (t + d) else None.
Definition time_checked_sub (t d : Z) : option Z := if TIME_MIN <=? t - d then Some (t - d) else None.
(** A reading of both clocks. *)
Record Clock : Type := mkClock { now_instant : Z; now_system : Z }.

Definition native_instant_to_unix_secs (clock : Clock) (instant : Z) : Z :=
  let system :=
    if now_instant clock <=? instant
    then default (now_system clock) (time_checked_add (now_system clock) (instant - now_instant clock))
    else default 0 (time_checked_sub (now_system clock) (now_instant clock - instant)) in
  if system <? 0 then 0 else system / NANOS.
Definition native_unix_secs_to_instant (secs : Z) (clock : Clock) : Z :=
  let target := default 0 (time_checked_add 0 (secs * NANOS)) in
  if now_system clock <=? target
  then default (now_instant clock) (time_checked_add (now_instant clock) (target - now_system clock))
  else default (now_instant clock) (time_checked_sub (now_instant clock) (now_system clock - target)).

(** ** Writing *)

(** The readings [NativeDiskCacheMeta::from_entry] takes, one for each time. *)
Record StoreClocks : Type := mkStoreClocks {
  at_expires : Clock; at_while_revalidate : Clock; at_if_error : Clock; at_stored : Clock }.
Definition meta_from_entry (clocks : StoreClocks) (entry : NativeMemoryCacheEntry) (vary_fields : list (list Z))
    : NativeDiskCacheMeta :=
  mkMeta (me_status entry) (me_reason entry) (me_content_length entry)
    (native_instant_to_unix_secs (at_expires clocks) (me_expires_at entry))
    (native_instant_to_unix_secs (at_while_revalidate clocks) <$> me_stale_while_revalidate_until entry)
    (native_instant_to_unix_secs (at_if_error clocks) <$> me_stale_if_error_until entry)
    (native_instant_to_unix_secs (at_stored clocks) (me_stored_at entry))
    (Some (me_body_sha256 entry)) (Some (me_stale_reuse_forbidden entry)) vary_fields.
(** What [NativeDiskCache::store_inner] encodes. *)
Definition disk_entry_bytes (clocks : StoreClocks) (key : DiskCacheObjectKey) (vary_fields : list (list Z))
    (entry : NativeMemoryCacheEntry) : list Z :=
  encode_disk_cache_object key (meta_encode (meta_from_entry clocks entry vary_fields))
    (native_disk_response_header_bytes (me_headers entry)) (me_body entry).

(** ** Reading *)

Definition native_cache_entry_has_stale_window (entry : NativeMemoryCacheEntry) (now : Z) : bool :=
  negb (me_stale_reuse_forbidden entry)
  && (match me_stale_while_revalidate_until entry with Some until => now <? until | None => false end
      || match me_stale_if_error_until entry with Some until => now <? until | None => false end).

Section Read.
Context `{HttpPackage}.
(** The SHA-256 digest of a body. *)
Context (native_body_sha256 : list Z -> list Z).

(** The policy of an object stored without one. *)
Definition stored_headers_forbid_stale (headers : list (list Z * list Z)) : bool :=
  if forallb (fun h => header_name_ok h.1 && header_value_ok h.2) headers
  then response_cache_control_stale_reuse_forbidden headers else true.
(** [clock] is read before the entry is made and [now] after it. *)
Definition native_memory_entry_from_disk_object (clock : Clock) (now : Z) (object : SerializedCacheObject)
    : option NativeMemoryCacheEntry :=
  let* meta := meta_decode (so_internal_meta object) in
  let body_sha256 := default (native_body_sha256 (so_body object)) (dm_body_sha256 meta) in
  let* headers := native_disk_response_headers (so_response_header object) in
  let entry :=
    mkCacheEntry (dm_status meta) (dm_reason meta) headers (dm_content_length meta) (so_body object) body_sha256
      (native_unix_secs_to_instant (dm_expires_at_unix_secs meta) clock)
      ((fun secs => native_unix_secs_to_instant secs clock) <$> dm_stale_while_revalidate_until_unix_secs meta)
      ((fun secs => native_unix_secs_to_instant secs clock) <$> dm_stale_if_error_until_unix_secs meta)
      (default (stored_headers_forbid_stale headers) (dm_stale_reuse_forbidden meta))
      (native_unix_secs_to_instant (dm_stored_at_unix_secs meta) clock) (so_weight object) in
  if (me_expires_at entry <=? now) && negb (native_cache_entry_has_stale_window entry now)
  then None else Some entry.

(** [decrypt_if_needed] when encryption is off *)
Definition NATIVE_DISK_CACHE_ENCRYPTED_MAGIC_V1 : list Z := bs "FLUXHEIM-CACHE-ENC-v1" ++ [LF].
Definition NATIVE_DISK_CACHE_ENCRYPTED_MAGIC_V2 : list Z := bs "FLUXHEIM-CACHE-ENC-v2" ++ [LF].
Definition decrypt_if_needed (bytes : list Z) : option (list Z) :=
  if starts_with NATIVE_DISK_CACHE_ENCRYPTED_MAGIC_V1 bytes || starts_with NATIVE_DISK_CACHE_ENCRYPTED_MAGIC_V2 bytes
  then None else Some bytes.
(** The entry [get_combined] makes of the bytes of a record; taking a record it
    cannot use out of the index and marking one it has used are left out. *)
Definition entry_of_bytes (clock : Clock) (now max_object_bytes : Z) (combined_key bytes : list Z)
    : option NativeMemoryCacheEntry :=
  let* bytes := decrypt_if_needed bytes in
  match parse_disk_cache_object bytes max_object_bytes with
  | Err _ => None
  | Ok object =>
      if bool_decide (so_combined_key object = Some combined_key)
      then native_memory_entry_from_disk_object clock now object else None
  end.
End Read.

(** * Cache entries survive the disk

    An entry written to disk is read back under its own key with the same
    response; its times come back on the reader's clock, never later than they
    were and less than a second earlier. *)
(** ** Response headers *)

Definition header_text (h : list Z * list Z) : Prop := utf8_valid h.1 = true /\ utf8_valid h.2 = true.
Definition header_lens (h : list Z * list Z) : Z * Z := (zlen h.1, zlen h.2).

Lemma header_lengths_reads headers rest :
  Forall (fun h => zlen h.1 <= U64_MAX /\ zlen h.2 <= U64_MAX) headers ->
  header_lengths (length headers) (concat ((fun h => number_line (zlen h.1) ++ number_line (zlen h.2)) <$> headers) ++ rest)
  = Some (header_lens <$> headers, rest).
Proof.
  induction 1 as [| h headers [Hn Hv] _ IH]; [done |]. cbn [length header_lengths fmap list_fmap concat].
  pose proof (zlen_nonneg h.1). pose proof (zlen_nonneg h.2).
  rewrite <- !app_assoc, !meta_number_reads by (unfold USIZE_MAX; lia). by rewrite IH.
Qed.
Lemma header_texts_reads headers rest :
  Forall header_text headers ->
  header_texts (header_lens <$> headers) (concat ((fun h => h.1 ++ h.2) <$> headers) ++ rest) = Some (headers, rest).
Proof.
  induction 1 as [| h headers [Hn Hv] _ IH]; [done |]. cbn [fmap list_fmap header_texts concat header_lens].
  rewrite <- !app_assoc, !meta_text_reads by done. rewrite IH. by destruct h.
Qed.
Record headers_ok (headers : list (list Z * list Z)) : Prop := {
  ho_text : Forall header_text headers;
  ho_count : zlen headers <= MAX_NATIVE_DISK_CACHE_RESPONSE_HEADERS;
  ho_size : zlen (native_disk_response_header_bytes headers) <= MAX_NATIVE_DISK_CACHE_META_BYTES;
}.
(** Response headers are read back. *)
Lemma headers_round_trip headers :
  headers_ok headers -> native_disk_response_headers (native_disk_response_header_bytes headers) = Some headers.
Proof.
  intros [Ht Hc Hs]. unfold native_disk_response_headers. rewrite (proj2 (Z.ltb_ge _ _)) by done.
  unfold native_disk_response_header_bytes in *. rewrite !zlen_app in Hs.
  unfold MAX_NATIVE_DISK_CACHE_META_BYTES, MAX_NATIVE_DISK_CACHE_RESPONSE_HEADERS in *.
  pose proof (zlen_nonneg headers). rewrite meta_number_reads by (unfold USIZE_MAX, U64_MAX; lia).
  pose proof (concat_count (fun h : list Z * list Z => number_line (zlen h.1) ++ number_line (zlen h.2)) headers) as Hn.
  rewrite (proj2 (Z.ltb_ge _ _)), (proj2 (Z.ltb_ge _ _)); [cbn [orb] | | lia].
  2: { rewrite zlen_app. specialize (Hn ltac:(intros h; cbv beta; rewrite zlen_app; pose proof (number_line_pos (zlen h.1));
         zlen_facts; lia)). zlen_facts. lia. }
  unfold zlen at 1. rewrite Nat2Z.id, header_lengths_reads.
  2: { apply Forall_forall. intros h Hin. assert (zlen (h.1 ++ h.2) <= zlen (concat ((fun h => h.1 ++ h.2) <$> headers))) as Hh
         by (apply concat_piece, list_elem_of_fmap; eauto).
       rewrite zlen_app in Hh. unfold U64_MAX. zlen_facts. lia. }
  rewrite <- (app_nil_r (concat ((fun h => h.1 ++ h.2) <$> headers))), header_texts_reads by done.
  by rewrite bool_decide_true.
Qed.

(** ** Times *)

(** The system time of an instant, by a reading of both clocks. *)
Definition wall (clock : Clock) (instant : Z) : Z := now_system clock + (instant - now_instant clock).
(** The time can be stored, and read back on the second clock. *)
Definition time_fits (stored read : Clock) (instant : Z) : Prop :=
  0 <= wall stored instant <= TIME_MAX
  /\ TIME_MIN + NANOS <= wall stored instant - now_system read + now_instant read <= TIME_MAX.
(** Not later than it was, and less than a second earlier. *)
Definition same_time (stored read : Clock) (instant back : Z) : Prop :=
  wall read back <= wall stored instant < wall read back + NANOS.

Lemma stored_secs clock instant :
  0 <= wall clock instant <= TIME_MAX -> native_instant_to_unix_secs clock instant = wall clock instant / NANOS.
Proof.
  unfold wall, native_instant_to_unix_secs, time_checked_add, time_checked_sub. intros Hw.
  assert (TIME_MIN <= 0) by done.
  case (Z.leb_spec (now_instant clock) instant) as [Hl | Hl].
  - rewrite (proj2 (Z.leb_le _ _)) by lia. cbn [default from_option id]. by rewrite (proj2 (Z.ltb_ge _ _)) by lia.
  - rewrite (proj2 (Z.leb_le _ _)) by lia. cbn [default from_option id].
    replace (now_system clock - (now_instant clock - instant)) with (now_system clock + (instant - now_instant clock)) by lia.
    by rewrite (proj2 (Z.ltb_ge _ _)) by lia.
Qed.
(** A time read back is that time, cut to a second. *)
Lemma time_round_trip stored read instant :
  time_fits stored read instant ->
  same_time stored read instant (native_unix_secs_to_instant (native_instant_to_unix_secs stored instant) read).
Proof.
  intros [Hw Hr]. rewrite (stored_secs _ _ Hw). unfold same_time. revert Hw Hr. generalize (wall stored instant) as w.
  intros w Hw Hr. unfold wall, native_unix_secs_to_instant, time_checked_add, time_checked_sub.
  assert (w / NANOS * NANOS <= w < w / NANOS * NANOS + NANOS) as Hd.
  { pose proof (Z.div_mod w NANOS ltac:(done)). pose proof (Z.mod_pos_bound w NANOS ltac:(done)). lia. }
  revert Hd. generalize (w / NANOS * NANOS) as target. intros target Hd.
  rewrite (proj2 (Z.leb_le (0 + target) _)) by lia. cbn [default from_option id].
  case (Z.leb_spec (now_system read) (0 + target)) as [Hl | Hl];
    rewrite (proj2 (Z.leb_le _ _)) by lia; cbn [default from_option id]; lia.
Qed.
Definition same_times (stored read : Clock) (o back : option Z) : Prop :=
  match o, back with
  | Some t, Some b => same_time stored read t b
  | None, None => True
  | _, _ => False
  end.
Lemma times_round_trip stored read o :
  (forall t, o = Some t -> time_fits stored read t) ->
  same_times stored read o
    ((fun secs => native_unix_secs_to_instant secs read) <$> (native_instant_to_unix_secs stored <$> o)).
Proof. destruct o as [t |]; cbn; [| done]. intros Ht. by apply time_round_trip, Ht. Qed.

(** ** Entries *)

Section RoundTrip.
Context `{HttpPackage} (native_body_sha256 : list Z -> list Z).

(** The entry can be stored under [key] and its times fit both clocks. *)
Record disk_storable (clocks : StoreClocks) (clock : Clock) (key : DiskCacheObjectKey) (vary_fields : list (list Z))
    (entry : NativeMemoryCacheEntry) (max_object_bytes : Z) : Prop := {
  ds_meta : meta_ok (meta_from_entry clocks entry vary_fields);
  ds_headers : headers_ok (me_headers entry);
  ds_object : storable key (meta_encode (meta_from_entry clocks entry vary_fields))
                (native_disk_response_header_bytes (me_headers entry)) (me_body entry) max_object_bytes;
  ds_expires : time_fits (at_expires clocks) clock (me_expires_at entry);
  ds_stored : time_fits (at_stored clocks) clock (me_stored_at entry);
  ds_while_revalidate : forall t,
    me_stale_while_revalidate_until entry = Some t -> time_fits (at_while_revalidate clocks) clock t;
  ds_if_error : forall t, me_stale_if_error_until entry = Some t -> time_fits (at_if_error clocks) clock t;
}.
(** [back] is the response of [entry], with its times on the reader's clock. *)
Record same_entry (clocks : StoreClocks) (clock : Clock) (entry back : NativeMemoryCacheEntry) : Prop := {
  se_status : me_status back = me_status entry;
  se_reason : me_reason back = me_reason entry;
  se_headers : me_headers back = me_headers entry;
  se_content_length : me_content_length back = me_content_length entry;
  se_body : me_body back = me_body entry;
  se_body_sha256 : me_body_sha256 back = me_body_sha256 entry;
  se_stale_reuse_forbidden : me_stale_reuse_forbidden back = me_stale_reuse_forbidden entry;
  se_expires : same_time (at_expires clocks) clock (me_expires_at entry) (me_expires_at back);
  se_stored : same_time (at_stored clocks) clock (me_stored_at entry) (me_stored_at back);
  se_while_revalidate : same_times (at_while_revalidate clocks) clock
    (me_stale_while_revalidate_until entry) (me_stale_while_revalidate_until back);
  se_if_error : same_times (at_if_error clocks) clock
    (me_stale_if_error_until entry) (me_stale_if_error_until back);
}.
(** A file of the cache is not taken for an encrypted one. *)
Lemma plain_bytes key meta header body :
  decrypt_if_needed (encode_disk_cache_object key meta header body) = Some (encode_disk_cache_object key meta header body).
Proof.
  unfold decrypt_if_needed, encode_disk_cache_object, write_disk_cache_object_plaintext_prefix.
  cbv zeta. rewrite <- !app_assoc.
  match goal with |- context [disk_magic 5 ++ ?r] => generalize r as rest end. intros rest. by cbn.
Qed.
End RoundTrip.

Definition sample_disk_key : DiskCacheObjectKey :=
  mkDiskKey (bs "k-gzip") (bs "k") (bs "site") (Some (bs "/a.css")) [bs "css"; bs "page:1"].
Definition sample_entry : NativeMemoryCacheEntry :=
  mkCacheEntry 200 (bs "OK") [(bs "content-type", bs "text/css"); (bs "vary", bs "accept-encoding")] (Some 3) (bs "a{}")
    (replicate 32 7) (70 * NANOS + 5) (Some (80 * NANOS)) None false (10 * NANOS) 300.
Definition sample_store_clock : Clock := mkClock (10 * NANOS) (1000 * NANOS + 1).
Definition sample_store_clocks : StoreClocks :=
  mkStoreClocks sample_store_clock sample_store_clock sample_store_clock sample_store_clock.
(** Another process, twenty seconds later. *)
Definition sample_read_clock : Clock := mkClock (3 * NANOS) (1020 * NANOS).

Local Ltac le := lazymatch goal with |- (_ <= _)%Z => apply (proj1 (Z.leb_le _ _)); vm_compute; reflexivity end.
Lemma sample_meta_ok : meta_ok (meta_from_entry sample_store_clocks sample_entry [bs "accept-encoding"]).
Proof.
  split; try (le || (split; le)).
  - split; [le | vm_compute; reflexivity].
  - intros n Hn. assert (n = 3) as -> by (cbn in Hn; congruence). split; le.
  - intros n Hn. assert (n = 1070) as ->.
    { cbn [dm_stale_while_revalidate_until_unix_secs meta_from_entry] in Hn. vm_compute in Hn. congruence. }
    split; le.
  - intros n Hn. cbn in Hn. discriminate.
  - intros d Hd. assert (d = replicate 32 7) as -> by (cbn in Hd; cbn; congruence).
    split; [reflexivity |]. apply Forall_replicate. by split.
  - apply Forall_singleton. vm_compute. reflexivity.
Qed.
Lemma sample_headers_ok : headers_ok (me_headers sample_entry).
Proof.
  split; [| le | le]. constructor; [split; vm_compute; reflexivity |].
  constructor; [split; vm_compute; reflexivity | constructor].
Qed.
Lemma sample_tags_normal : tags_normal [bs "css"; bs "page:1"].
Proof.
  split; [by apply (bool_decide_unpack _); vm_compute | | le | le].
  constructor; [vm_compute; reflexivity |]. constructor; [vm_compute; reflexivity | constructor].
Qed.
Lemma sample_storable :
  storable sample_disk_key (meta_encode (meta_from_entry sample_store_clocks sample_entry [bs "accept-encoding"]))
    (native_disk_response_header_bytes (me_headers sample_entry)) (me_body sample_entry) 100000.
Proof.
  split; try (lazymatch goal with |- _ = true => vm_compute; reflexivity end).
  - intros path Hp. assert (path = bs "/a.css") as -> by (cbn [dk_index_path sample_disk_key] in Hp; congruence).
    split; [vm_compute; reflexivity | vm_compute; discriminate].
  - apply sample_tags_normal.
  - le.
  - le.
Qed.
Lemma sample_disk_storable :
  disk_storable sample_store_clocks sample_read_clock sample_disk_key [bs "accept-encoding"] sample_entry 100000.
Proof.
  split; [apply sample_meta_ok | apply sample_headers_ok | apply sample_storable | | | |].
  - split; split; le.
  - split; split; le.
  - intros t Ht. assert (t = 80 * NANOS) as -> by (cbn [me_stale_while_revalidate_until sample_entry] in Ht; congruence).
    split; split; le.
  - intros t Ht. cbn in Ht. discriminate.
Qed.

(** The limit on a body is, when the object is read, a limit on the body with its
    metadata and headers: a body as large as the limit is stored and never read. *)
Lemma full_size_object_unreadable :
  let max_object_bytes := zlen (me_body sample_entry) in
  entry_of_bytes (H := Build_HttpPackage (fun _ => true) (fun _ => true) (fun _ => true)) (fun _ => replicate 32 0)
    sample_store_clock (10 * NANOS) max_object_bytes (dk_combined sample_disk_key)
    (disk_entry_bytes sample_store_clocks sample_disk_key [bs "accept-encoding"] sample_entry) = None.
Proof. vm_compute. reflexivity. Qed.
