(* ===== verification/CacheRange.v ===== *)
(** * Byte ranges of cached objects ([fluxheim-cache/src/request.rs],
    [headers_request.rs], [headers_response.rs])

    The ranges a client asks for, the ranges a response states, and the slices of
    an object that cover the ranges asked for. *)
From Stdlib Require Import ZArith Lia.
From stdpp Require Import base list numbers strings sets gmap sorting.
From S2P Require Import Prelude Text Http1Target LbBackend HostNames RequestHeaders CacheKey CacheControl.

(** ** Configuration ([config_cache_range.rs]) *)

Record CacheRangeSliceConfig : Type := mkSliceConfig {
  sc_enabled : bool;
  sc_size_bytes : Z;
  sc_max_slices : Z;
  sc_fill_missing : bool;
}.
Record CacheRangeConfig : Type := mkRangeConfig {
  rc_enabled : bool;
  rc_max_bytes : Z;
  rc_slice : CacheRangeSliceConfig;
}.

(** ** Ranges *)

Record CacheRangeRequest : Type := mkRange { rg_start : Z; rg_end : Z }.
#[export] Instance CacheRangeRequest_eq_dec : EqDecision CacheRangeRequest.
Proof. solve_decision. Defined.
(** [len] of [CacheRangeRequest] and of [CacheSliceBounds] *)
Definition range_len (r : CacheRangeRequest) : Z :=
  saturating_add U64_MAX (saturating_sub (rg_end r) (rg_start r)) 1.
Definition range_component (r : CacheRangeRequest) : list Z :=
  bs "bytes=" ++ to_decimal (rg_start r) ++ [45] ++ to_decimal (rg_end r).
Record CacheContentRange : Type := mkContentRange { ct_start : Z; ct_end : Z; ct_total : option Z }.
Inductive CacheClientRange : Type :=
| Bounded (start end_ : Z)
| OpenEnded (start : Z)
| Suffix (len : Z).
(** [CacheSliceBounds], which has the same fields as [CacheRangeRequest] *)
Definition CacheSliceBounds : Type := CacheRangeRequest.
Record CacheSliceRangeRequest : Type := mkSliceRequest {
  sr_ranges : list CacheClientRange;
  sr_if_range : option (list Z);
}.
Definition MAX_CACHE_CLIENT_RANGES : Z := 128.
Definition MULTIPART_SLICE_OVERHEAD_BYTES_PER_RANGE : Z := 256.
Definition MULTIPART_SLICE_CLOSING_OVERHEAD_BYTES : Z := 128.

Definition parse_bounded_single_range (range : list Z) : option CacheRangeRequest :=
  let* range := strip_prefix (bs "bytes=") (trim range) in
  if bool_decide (44 ∈ range) then None
  else
    let* (start, end_) := split_once 45 range in
    if bool_decide (start = []) || bool_decide (end_ = []) then None
    else
      let* start := parse_uint U64_MAX start in
      let* end_ := parse_uint U64_MAX end_ in
      if end_ <? start then None else Some (mkRange start end_).
Definition parse_cache_content_range (value : list Z) : option CacheContentRange :=
  let* rest := strip_prefix (bs "bytes ") (trim value) in
  if starts_with (bs "*/") rest then None
  else
    let* (range, complete_len) := split_once 47 rest in
    let* (start, end_) := split_once 45 range in
    let* start := parse_uint U64_MAX start in
    let* end_ := parse_uint U64_MAX end_ in
    if end_ <? start then None
    else
      let* total :=
        if bool_decide (complete_len = bs "*") then Some None
        else let* total := parse_uint U64_MAX complete_len in Some (Some total) in
      if match total with Some total => total <=? end_ | None => false end then None
      else Some (mkContentRange start end_ total).
(** One turn of the loop of [parse_cache_client_ranges]. *)
Definition parse_client_range (part : list Z) : option CacheClientRange :=
  let part := trim part in
  if bool_decide (part = []) then None
  else
    let* (start, end_) := split_once 45 part in
    if bool_decide (start = []) then
      let* len := parse_uint U64_MAX end_ in
      if len =? 0 then None else Some (Suffix len)
    else if bool_decide (end_ = []) then
      let* start := parse_uint U64_MAX start in Some (OpenEnded start)
    else
      let* start := parse_uint U64_MAX start in
      let* end_ := parse_uint U64_MAX end_ in
      if end_ <? start then None else Some (Bounded start end_).
Fixpoint parse_client_ranges (ranges : list CacheClientRange) (parts : list (list Z)) : option (list CacheClientRange) :=
  match parts with
  | [] => Some ranges
  | part :: parts =>
      if MAX_CACHE_CLIENT_RANGES <=? zlen ranges then None
      else let* range := parse_client_range part in parse_client_ranges (ranges ++ [range]) parts
  end.
Definition parse_cache_client_ranges (value : list Z) : option (list CacheClientRange) :=
  let* value := strip_prefix (bs "bytes=") (trim value) in
  let* ranges := parse_client_ranges [] (split_byte 44 value) in
  if bool_decide (zlen ranges = 0) then None else Some ranges.

(** ** The range of a request *)

Definition request_values (r : NativeHttp1Request) (name : list Z) : list (list Z) :=
  snd <$> List.filter (named name) (rq_headers r).
Definition selected_cache_range_request (r : NativeHttp1Request) (range : CacheRangeConfig) : option CacheRangeRequest :=
  if negb (rc_enabled range) || negb (bool_decide (rq_method r = bs "GET")) then None
  else match request_values r (bs "range") with
       | [value] =>
           if bool_decide (request_values r (bs "if-range") = []) then
             let* parsed := parse_bounded_single_range value in
             if range_len parsed <=? rc_max_bytes range then Some parsed else None
           else None
       | _ => None
       end.
(** [request_header_values_joined] *)
Definition request_header_values_joined (r : NativeHttp1Request) (name : list Z) : option (list Z) :=
  match request_values r name with
  | [] => None
  | value :: values => Some (fold_left (fun joined value => joined ++ bs ", " ++ value) values value)
  end.
Definition selected_cache_slice_range_request (r : NativeHttp1Request) (range : CacheRangeConfig)
    : option CacheSliceRangeRequest :=
  if negb (rc_enabled range) || negb (sc_enabled (rc_slice range)) || negb (bool_decide (rq_method r = bs "GET")) then None
  else match request_values r (bs "range") with
       | [value] =>
           let* ranges := parse_cache_client_ranges value in
           Some (mkSliceRequest ranges (request_header_values_joined r (bs "if-range")))
       | _ => None
       end.

(** ** The range of a response *)

Inductive RangeRejection : Type :=
| RangeCacheNonPartial | RangeCacheContentRange | RangeCacheContentLength | RangeResponse.

Section Response.
Context `{HttpPackage}.

Definition response_content_range_matches (headers : HeaderMap) (expected : CacheRangeRequest) : bool :=
  match get_all headers (bs "content-range") with
  | [value] =>
      to_str_ok value
      && match parse_cache_content_range value with
         | Some range => (ct_start range =? rg_start expected) && (ct_end range =? rg_end expected)
         | None => false
         end
  | _ => false
  end.
Definition response_content_length_matches_range (headers : HeaderMap) (expected : CacheRangeRequest) : bool :=
  match get_all headers (bs "content-length") with
  | [value] => to_str_ok value && bool_decide (parse_uint U64_MAX (trim value) = Some (range_len expected))
  | _ => false
  end.
Definition range_response_cache_admission_rejection (status : Z) (headers : HeaderMap) (range : option CacheRangeRequest)
    : option RangeRejection :=
  match range with
  | Some range =>
      if negb (status =? 206) then Some RangeCacheNonPartial
      else if negb (response_content_range_matches headers range) then Some RangeCacheContentRange
      else if negb (response_content_length_matches_range headers range) then Some RangeCacheContentLength
      else None
  | None => if status =? 206 then Some RangeResponse else None
  end.
End Response.

(** ** Slices *)

Definition resolve_client_range (total : Z) (range : CacheClientRange) : option CacheSliceBounds :=
  let last := saturating_sub total 1 in
  match range with
  | Bounded start end_ => if last <? start then None else Some (mkRange start (Z.min end_ last))
  | OpenEnded start => if last <? start then None else Some (mkRange start last)
  | Suffix len => if len =? 0 then None else Some (mkRange (saturating_sub total len) last)
  end.
Definition resolve_client_slice_ranges (ranges : list CacheClientRange) (total : Z) : list CacheSliceBounds :=
  if total =? 0 then [] else omap (resolve_client_range total) ranges.

(** The [while] loop over the slices of one range; [fuel] bounds its turns. *)
Fixpoint slice_loop (fuel : nat) (slice_size last range_end start : Z) (slices : list CacheSliceBounds)
    : list CacheSliceBounds :=
  match fuel with
  | O => slices
  | S fuel =>
      if (start <=? range_end) && (start <=? last) then
        let end_ := Z.min (saturating_add U64_MAX start (saturating_sub slice_size 1)) last in
        let slice := mkRange start end_ in
        let slices := if bool_decide (slice ∈ slices) then slices else slices ++ [slice] in
        match checked_add U64_MAX start slice_size with
        | None => slices
        | Some next => slice_loop fuel slice_size last range_end next slices
        end
      else slices
  end.
(** The slices of a range end by the one that holds its last byte. *)
Definition slice_fuel (slice_size range_end : Z) : nat := S (Z.to_nat (range_end / slice_size)).
Definition range_slices (slice_size total : Z) (slices : list CacheSliceBounds) (range : CacheSliceBounds)
    : list CacheSliceBounds :=
  slice_loop (slice_fuel slice_size (rg_end range)) slice_size (saturating_sub total 1) (rg_end range)
    (saturating_mul U64_MAX (rg_start range / slice_size) slice_size) slices.
Definition start_le (s t : CacheSliceBounds) : Prop := rg_start s <= rg_start t.
#[export] Instance start_le_dec s t : Decision (start_le s t).
Proof. unfold start_le. apply _. Defined.
Definition required_slice_bounds (ranges : list CacheSliceBounds) (slice_size total : Z) : list CacheSliceBounds :=
  if (slice_size =? 0) || (total =? 0) then []
  else merge_sort start_le (fold_left (range_slices slice_size total) ranges []).
Definition requested_bytes (ranges : list CacheSliceBounds) : option Z :=
  foldl (fun sum range => sum ≫= fun sum => checked_add U64_MAX sum (range_len range)) (Some 0) ranges.
Definition slice_request_within_policy (ranges : list CacheSliceBounds) (max_bytes max_slices slice_size : Z) : bool :=
  match requested_bytes ranges with
  | None => false
  | Some requested_bytes =>
      let slices := required_slice_bounds ranges slice_size U64_MAX in
      let slices_ok := negb (bool_decide (zlen slices = 0)) && (zlen slices <=? max_slices) in
      if max_bytes <? requested_bytes then false
      else if 1 <? zlen ranges then
        match checked_add U64_MAX requested_bytes
                (saturating_mul U64_MAX (zlen ranges) MULTIPART_SLICE_OVERHEAD_BYTES_PER_RANGE)
              ≫= fun bytes => checked_add U64_MAX bytes MULTIPART_SLICE_CLOSING_OVERHEAD_BYTES with
        | None => false
        | Some multipart_bytes => if max_bytes <? multipart_bytes then false else slices_ok
        end
      else slices_ok
  end.
(** The server's own version, which it uses. *)
Definition native_slice_request_within_policy (ranges : list CacheSliceBounds) (max_bytes max_slices slice_size : Z) : bool :=
  match requested_bytes ranges with
  | None => false
  | Some requested_bytes =>
      (requested_bytes <=? max_bytes) && negb (bool_decide (zlen ranges = 0))
      && (zlen (required_slice_bounds ranges slice_size U64_MAX) <=? max_slices)
  end.

(** * Slices cover what was asked for

    The slices fetched for a range request: exactly those that hold a byte asked
    for, each once and in order, and no more of them than the configuration
    allows. *)
(** A range holds a byte. *)
Definition holds (r : CacheSliceBounds) (byte : Z) : Prop := rg_start r <= byte <= rg_end r.
Definition slice_at (slice_size last k : Z) : CacheSliceBounds :=
  mkRange (k * slice_size) (Z.min (k * slice_size + (slice_size - 1)) last).

Section Loop.
Context (slice_size last : Z) (Hsize : 0 < slice_size <= U64_MAX) (Hlast : 0 <= last <= U64_MAX).

Lemma slice_loop_spec fuel range_end k slices :
  0 <= k -> k <= range_end / slice_size + 1 -> range_end / slice_size - k < Z.of_nat fuel ->
  NoDup slices ->
  NoDup (slice_loop fuel slice_size last range_end (k * slice_size) slices)
  /\ forall s, s ∈ slice_loop fuel slice_size last range_end (k * slice_size) slices
       <-> s ∈ slices \/ exists j, k <= j /\ j * slice_size <= range_end /\ j * slice_size <= last
                                    /\ s = slice_at slice_size last j.
Proof using Hsize Hlast.
  revert k slices. induction fuel as [| fuel IH]; intros k slices Hk Hk' Hf Hn; cbn [slice_loop].
  { split; [done |]. intros s. split; [by left |]. intros [? | (j & Hj & He & _)]; [done |].
    pose proof (Z.div_le_lower_bound range_end slice_size j ltac:(lia) ltac:(lia)). lia. }
  destruct (Z.leb_spec (k * slice_size) range_end) as [He | He]; cycle 1.
  { cbn [andb]. split; [done |]. intros s. split; [by left |]. intros [? | (j & Hj & Hj' & _)]; [done | nia]. }
  destruct (Z.leb_spec (k * slice_size) last) as [Hl | Hl]; cycle 1.
  { cbn [andb]. split; [done |]. intros s. split; [by left |]. intros [? | (j & Hj & _ & Hj' & _)]; [done | nia]. }
  cbn [andb]. rewrite saturating_sub_exact by lia.
  replace (Z.min (saturating_add U64_MAX (k * slice_size) (slice_size - 1)) last)
    with (Z.min (k * slice_size + (slice_size - 1)) last) by (unfold saturating_add; lia).
  change (mkRange (k * slice_size) _) with (slice_at slice_size last k).
  set (slices' := if bool_decide _ then slices else _).
  assert (NoDup slices') as Hn'.
  { unfold slices'. case_bool_decide; [done |]. apply NoDup_app. split_and!; [done | | apply NoDup_singleton].
    intros x Hx ->%list_elem_of_singleton. done. }
  assert (forall s, s ∈ slices' <-> s ∈ slices \/ s = slice_at slice_size last k) as Hs'.
  { intros s. unfold slices'. case_bool_decide.
    - split; [by left | intros [? | ->]; done].
    - by rewrite elem_of_app, list_elem_of_singleton. }
  clearbody slices'. pose proof (Z.div_le_lower_bound range_end slice_size k ltac:(lia) ltac:(lia)) as Hke.
  unfold checked_add. destruct (Z.leb_spec (k * slice_size + slice_size) U64_MAX) as [Ho | Ho].
  - replace (k * slice_size + slice_size) with ((k + 1) * slice_size) in * by lia.
    destruct (IH (k + 1) slices' ltac:(lia) ltac:(lia) ltac:(lia) Hn') as [IHn IHs]. split; [done |].
    intros s. rewrite IHs, Hs'. split.
    + intros [[? | ->] | (j & Hj & ?)]; [by left | right; exists k; split_and!; lia || done | right; exists j; split; [lia | done]].
    + intros [? | (j & Hj & Hj1 & Hj2 & ->)]; [by left; left |].
      destruct (decide (j = k)) as [-> |]; [by left; right |]. right. exists j. split_and!; lia || done.
  - split; [done |]. intros s. rewrite Hs'. split.
    + intros [? | ->]; [by left |]. right. exists k. split_and!; lia || done.
    + intros [? | (j & Hj & Hj1 & Hj2 & ->)]; [by left |]. right. f_equal. nia.
Qed.
End Loop.

Definition range_ok (r : CacheSliceBounds) : Prop := 0 <= rg_start r <= rg_end r /\ rg_end r <= U64_MAX.

Section Slices.
Context (slice_size total : Z) (Hsize : 0 < slice_size <= U64_MAX) (Htotal : 0 < total <= U64_MAX).

Lemma range_slices_spec slices r :
  range_ok r -> NoDup slices ->
  NoDup (range_slices slice_size total slices r)
  /\ forall s, s ∈ range_slices slice_size total slices r
       <-> s ∈ slices \/ exists j, rg_start r / slice_size <= j /\ j * slice_size <= rg_end r /\ j * slice_size <= total - 1
                                    /\ s = slice_at slice_size (total - 1) j.
Proof using Hsize Htotal.
  intros [Hr Hm] Hn. unfold range_slices. rewrite saturating_sub_exact by lia.
  pose proof (Z.div_pos (rg_start r) slice_size ltac:(lia) ltac:(lia)).
  pose proof (Z.div_pos (rg_end r) slice_size ltac:(lia) ltac:(lia)).
  pose proof (Z.div_le_mono (rg_start r) (rg_end r) slice_size ltac:(lia) ltac:(lia)).
  pose proof (Z.mul_div_le (rg_start r) slice_size ltac:(lia)).
  rewrite saturating_mul_exact by lia. apply slice_loop_spec; try done; unfold slice_fuel; lia.
Qed.
Lemma all_slices_spec ranges slices :
  Forall range_ok ranges -> NoDup slices ->
  NoDup (fold_left (range_slices slice_size total) ranges slices)
  /\ forall s, s ∈ fold_left (range_slices slice_size total) ranges slices
       <-> s ∈ slices \/ exists r j, r ∈ ranges /\ rg_start r / slice_size <= j /\ j * slice_size <= rg_end r
                                      /\ j * slice_size <= total - 1 /\ s = slice_at slice_size (total - 1) j.
Proof using Hsize Htotal.
  revert slices. induction ranges as [| r ranges IH]; intros slices Hr Hn; cbn [fold_left].
  { split; [done |]. intros s. split; [by left |]. intros [? | (r & j & []%not_elem_of_nil & _)]. done. }
  apply Forall_cons in Hr as [Hr Hrs]. destruct (range_slices_spec slices r Hr Hn) as [Hn' Hs'].
  destruct (IH _ Hrs Hn') as [Hn'' Hs'']. split; [done |]. intros s. rewrite Hs'', Hs'. split.
  - intros [[? | (j & ?)] | (r' & j & Hin & ?)]; [by left | right; exists r, j | right; exists r', j];
      (split; [set_solver | done]).
  - intros [? | (r' & j & [-> | Hin]%elem_of_cons & ?)]; [by left; left | left; right; by exists j | right; by exists r', j].
Qed.
Lemma required_slices_elem ranges s :
  Forall range_ok ranges ->
  s ∈ required_slice_bounds ranges slice_size total
  <-> exists r j, r ∈ ranges /\ rg_start r / slice_size <= j /\ j * slice_size <= rg_end r
                  /\ j * slice_size <= total - 1 /\ s = slice_at slice_size (total - 1) j.
Proof using Hsize Htotal.
  intros Hr. unfold required_slice_bounds.
  rewrite (proj2 (Z.eqb_neq slice_size 0)), (proj2 (Z.eqb_neq total 0)) by lia. cbn [orb].
  rewrite (merge_sort_Permutation start_le). destruct (all_slices_spec ranges [] Hr ltac:(constructor)) as [_ ->].
  split; [| by right]. intros [[]%not_elem_of_nil | ?]; done.
Qed.
(** The slices are in order and apart. *)
Lemma required_slices_sorted ranges :
  Forall range_ok ranges ->
  StronglySorted (fun s t => rg_end s < rg_start t) (required_slice_bounds ranges slice_size total).
Proof using Hsize Htotal.
  intros Hr. assert (NoDup (required_slice_bounds ranges slice_size total)
                     /\ StronglySorted start_le (required_slice_bounds ranges slice_size total)) as [Hn Hs].
  { unfold required_slice_bounds.
    rewrite (proj2 (Z.eqb_neq slice_size 0)), (proj2 (Z.eqb_neq total 0)) by lia. cbn [orb].
    destruct (all_slices_spec ranges [] Hr ltac:(constructor)) as [? _].
    split; [by rewrite (merge_sort_Permutation start_le) |]. apply StronglySorted_merge_sort; unfold start_le; intros x; [intros y z | intros y]; lia. }
  assert (forall s, s ∈ required_slice_bounds ranges slice_size total -> exists j, s = slice_at slice_size (total - 1) j) as Hat.
  { intros s (r & j & _ & _ & _ & _ & ->)%(required_slices_elem _ _ Hr). by exists j. }
  revert Hn Hs Hat. generalize (required_slice_bounds ranges slice_size total). intros l Hn Hs Hat.
  induction Hs as [| s l Hs IH Hle]; constructor.
  - apply IH; [by apply NoDup_cons in Hn as [_ ?] |]. intros t Ht. apply Hat. set_solver.
  - apply NoDup_cons in Hn as [Hn _]. apply Forall_forall. intros t Ht. rewrite Forall_forall in Hle. specialize (Hle t Ht).
    destruct (Hat s ltac:(set_solver)) as [j ->], (Hat t ltac:(set_solver)) as [k ->].
    assert (j <> k) by (intros ->; done). unfold start_le, slice_at in *. cbn [rg_start rg_end] in *. nia.
Qed.
End Slices.

(** ** From the header to the slices *)

(** The byte ranges a [Range] header asks for, of an object of [total] bytes. *)
Definition asks_for (total : Z) (r : CacheClientRange) (byte : Z) : Prop :=
  0 <= byte < total
  /\ match r with
     | Bounded start end_ => start <= byte <= end_
     | OpenEnded start => start <= byte
     | Suffix len => total - len <= byte
     end.
Definition client_range_ok (r : CacheClientRange) : Prop :=
  match r with
  | Bounded start end_ => 0 <= start <= end_
  | OpenEnded start => 0 <= start
  | Suffix len => 0 < len
  end.
Lemma parse_client_range_ok part r : parse_client_range part = Some r -> client_range_ok r.
Proof.
  unfold parse_client_range. generalize (trim part). clear part. intros part.
  case_bool_decide; [done |]. destruct (split_once 45 part) as [[start end_] |]; [| done].
  assert (forall s n, parse_uint U64_MAX s = Some n -> 0 <= n) as Hu by (intros s n ?%parse_uint_range; [lia | done]).
  case_bool_decide; [| case_bool_decide].
  - destruct (parse_uint U64_MAX end_) as [len |] eqn:E; [| done]. destruct (Z.eqb_spec len 0); [done |]. intros [= <-].
    cbn. apply Hu in E. lia.
  - destruct (parse_uint U64_MAX start) as [n |] eqn:E; [| done]. intros [= <-]. by apply Hu in E.
  - destruct (parse_uint U64_MAX start) as [n |] eqn:E1; [| done]. destruct (parse_uint U64_MAX end_) as [m |] eqn:E2; [| done].
    destruct (Z.ltb_spec m n); [done |]. intros [= <-]. apply Hu in E1. cbn. lia.
Qed.
Lemma parse_client_ranges_ok ranges parts result :
  Forall client_range_ok ranges -> parse_client_ranges ranges parts = Some result -> Forall client_range_ok result.
Proof.
  revert ranges. induction parts as [| part parts IH]; intros ranges Hr; cbn [parse_client_ranges]; [congruence |].
  destruct (_ <=? _); [done |]. destruct (parse_client_range part) as [r |] eqn:E; [| done]. apply IH.
  apply Forall_app. split; [done |]. apply Forall_singleton. by eapply parse_client_range_ok.
Qed.
Lemma parsed_ranges_ok value ranges : parse_cache_client_ranges value = Some ranges -> Forall client_range_ok ranges.
Proof.
  unfold parse_cache_client_ranges. destruct (strip_prefix _ _) as [v |]; [| done].
  destruct (parse_client_ranges [] _) as [rs |] eqn:E; [| done]. case_bool_decide; [done |]. intros [= <-].
  by apply parse_client_ranges_ok in E.
Qed.
Lemma resolved_range total r :
  0 < total <= U64_MAX -> client_range_ok r ->
  match resolve_client_range total r with
  | Some b => range_ok b /\ rg_end b < total /\ forall byte, holds b byte <-> asks_for total r byte
  | None => forall byte, ~ asks_for total r byte
  end.
Proof.
  intros Ht Hr. unfold resolve_client_range, asks_for, range_ok, holds, client_range_ok in *.
  rewrite saturating_sub_exact by lia. destruct r as [a b | a | n].
  - destruct (Z.ltb_spec (total - 1) a); cbn [rg_start rg_end]; [lia |]. split_and!; lia.
  - destruct (Z.ltb_spec (total - 1) a); cbn [rg_start rg_end]; [lia |]. split_and!; lia.
  - rewrite (proj2 (Z.eqb_neq n 0)) by lia. unfold saturating_sub. cbn [rg_start rg_end]. split_and!; lia.
Qed.
Lemma resolved_ranges total ranges :
  0 < total <= U64_MAX -> Forall client_range_ok ranges ->
  Forall (fun b => range_ok b /\ rg_end b < total) (resolve_client_slice_ranges ranges total)
  /\ forall byte, (exists r, r ∈ ranges /\ asks_for total r byte)
                  <-> exists b, b ∈ resolve_client_slice_ranges ranges total /\ holds b byte.
Proof.
  intros Ht Hr. unfold resolve_client_slice_ranges. rewrite (proj2 (Z.eqb_neq total 0)) by lia.
  rewrite Forall_forall in Hr. split.
  - apply Forall_forall. intros b (r & Hin & E)%list_elem_of_omap. pose proof (resolved_range total r Ht (Hr r Hin)) as Hb.
    rewrite E in Hb. by destruct Hb as (? & ? & _).
  - intros byte. split.
    + intros (r & Hin & Ha). pose proof (resolved_range total r Ht (Hr r Hin)) as Hb.
      destruct (resolve_client_range total r) as [b |] eqn:E; [| by destruct (Hb byte)].
      exists b. split; [apply list_elem_of_omap; eauto | by apply Hb].
    + intros (b & (r & Hin & E)%list_elem_of_omap & Hh). pose proof (resolved_range total r Ht (Hr r Hin)) as Hb.
      rewrite E in Hb. exists r. split; [done | by apply Hb].
Qed.
(** A slice of the list holds a byte of a range. *)
Lemma slice_meets slice_size total r j :
  0 < slice_size -> 0 <= rg_start r <= rg_end r -> rg_end r < total -> rg_start r / slice_size <= j ->
  j * slice_size <= rg_end r ->
  holds (slice_at slice_size (total - 1) j) (Z.max (rg_start r) (j * slice_size))
  /\ holds r (Z.max (rg_start r) (j * slice_size)).
Proof.
  intros Hs Hr Hl Hj He. unfold holds, slice_at. cbn [rg_start rg_end].
  pose proof (Z.mul_succ_div_gt (rg_start r) slice_size Hs). nia.
Qed.
Lemma byte_in_slice slice_size total r byte :
  0 < slice_size -> rg_end r < total -> 0 <= rg_start r -> holds r byte ->
  let j := byte / slice_size in
  holds (slice_at slice_size (total - 1) j) byte /\ rg_start r / slice_size <= j /\ j * slice_size <= rg_end r
  /\ j * slice_size <= total - 1.
Proof.
  intros Hs Hl Hr [Hb1 Hb2] j. unfold holds, slice_at. cbn [rg_start rg_end].
  pose proof (Z.mul_succ_div_gt byte slice_size Hs). pose proof (Z.mul_div_le byte slice_size Hs).
  pose proof (Z.div_le_mono (rg_start r) byte slice_size Hs Hb1). subst j. split_and!; nia.
Qed.
(** With the size cut off at the object's end there are no more slices. *)
Lemma fewer_slices slice_size total ranges :
  0 < slice_size <= U64_MAX -> 0 < total <= U64_MAX -> Forall range_ok ranges ->
  zlen (required_slice_bounds ranges slice_size total) <= zlen (required_slice_bounds ranges slice_size U64_MAX).
Proof.
  intros Hs Ht Hr. assert (forall l : list CacheSliceBounds, zlen l = zlen (rg_start <$> l)) as Hz
    by (intros l; unfold zlen; by rewrite length_fmap).
  rewrite (Hz (required_slice_bounds _ _ total)), (Hz (required_slice_bounds _ _ U64_MAX)).
  apply inj_le, submseteq_length, NoDup_submseteq.
  - pose proof (required_slices_sorted slice_size total Hs Ht ranges Hr) as Hsort.
    assert (forall s, s ∈ required_slice_bounds ranges slice_size total -> rg_start s <= rg_end s) as Hne.
    { intros s (r & j & _ & _ & _ & ? & ->)%(required_slices_elem _ _ Hs Ht _ _ Hr). unfold slice_at. cbn. lia. }
    revert Hsort Hne. generalize (required_slice_bounds ranges slice_size total). intros l Hsort Hne.
    induction Hsort as [| s l Hl IH Hlt]; [constructor |]. cbn [fmap list_fmap]. constructor; [| apply IH; set_solver].
    intros (t & E & Hin)%list_elem_of_fmap. rewrite Forall_forall in Hlt. specialize (Hlt t Hin).
    pose proof (Hne s ltac:(set_solver)). lia.
  - intros x (s & -> & (r & j & Hin & H1 & H2 & H3 & ->)%(required_slices_elem _ _ Hs Ht _ _ Hr))%list_elem_of_fmap.
    apply list_elem_of_fmap. exists (slice_at slice_size (U64_MAX - 1) j). split; [done |].
    apply (required_slices_elem slice_size U64_MAX Hs ltac:(done) _ _ Hr). exists r, j. split_and!; try done. lia.
Qed.

(** The version of the policy in [fluxheim-cache] counts what the parts of a
    multipart answer add; the one the server uses does not. *)
Lemma multipart_overhead_not_counted :
  native_slice_request_within_policy [mkRange 0 9; mkRange 20 29] 100 8 10 = true
  /\ slice_request_within_policy [mkRange 0 9; mkRange 20 29] 100 8 10 = false.
Proof. by vm_compute. Qed.
