(* ===== verification/MemoryCache.v ===== *)
(** * The memory cache ([fluxheim-server/src/native_http1_cache_memory.rs],
    [native_http1_proxy_memory_cache.rs] and its [store.rs], [lookup.rs],
    [disk.rs], [native_http1_proxy_cache_policy.rs],
    [native_http1_proxy_cache_headers.rs], [native_http1_proxy_runtime.rs])

    Storing responses in the memory tier of a cache, finding them, pruning and
    purging them.  An operation is one critical section of the state's lock, and
    its time is an argument.  Keys being revalidated, waiting for a fill, metrics
    and the metadata a response carries beside its head and body are left out. *)
From Stdlib Require Import ZArith Lia.
From stdpp Require Import base list numbers strings sets gmap sorting.
From S2P Require Import Prelude Text Http1Target LbBackend HostNames RequestHeaders UpstreamResponse CacheKey CachePurge CacheControl CacheObject CacheEntry CacheRange.

(** ** State *)

Record NativeMemoryCacheCounter : Type := mkCounter { ctr_uses : Z; ctr_seen_at : Z }.
Record NativeMemoryCacheVariant : Type := mkVariant { va_fields : list (list Z); va_key : list Z }.
Record NativeMemoryCacheState : Type := mkMemory {
  ms_objects : gmap (list Z) NativeMemoryCacheEntry;
  ms_variants : gmap (list Z) (list NativeMemoryCacheVariant);
  ms_purge_index : CachePurgeIndex;
  ms_min_uses : gmap (list Z) NativeMemoryCacheCounter;
  ms_cache_pass : gmap (list Z) NativeMemoryCacheCounter;
  (** the keys of [filling] *)
  ms_filling : gset (list Z);
  ms_bytes : Z;
}.
Definition memory_new : NativeMemoryCacheState := mkMemory ∅ ∅ purge_index_new ∅ ∅ ∅ 0.

Definition with_objects (objects : gmap (list Z) NativeMemoryCacheEntry) (s : NativeMemoryCacheState) : NativeMemoryCacheState :=
  mkMemory objects (ms_variants s) (ms_purge_index s) (ms_min_uses s) (ms_cache_pass s) (ms_filling s) (ms_bytes s).
Definition with_variants (variants : gmap (list Z) (list NativeMemoryCacheVariant)) (s : NativeMemoryCacheState)
    : NativeMemoryCacheState :=
  mkMemory (ms_objects s) variants (ms_purge_index s) (ms_min_uses s) (ms_cache_pass s) (ms_filling s) (ms_bytes s).
Definition with_purge_index (index : CachePurgeIndex) (s : NativeMemoryCacheState) : NativeMemoryCacheState :=
  mkMemory (ms_objects s) (ms_variants s) index (ms_min_uses s) (ms_cache_pass s) (ms_filling s) (ms_bytes s).
Definition with_bytes (bytes : Z) (s : NativeMemoryCacheState) : NativeMemoryCacheState :=
  mkMemory (ms_objects s) (ms_variants s) (ms_purge_index s) (ms_min_uses s) (ms_cache_pass s) (ms_filling s) bytes.
Definition with_min_uses (counters : gmap (list Z) NativeMemoryCacheCounter) (s : NativeMemoryCacheState)
    : NativeMemoryCacheState :=
  mkMemory (ms_objects s) (ms_variants s) (ms_purge_index s) counters (ms_cache_pass s) (ms_filling s) (ms_bytes s).
Definition with_cache_pass (counters : gmap (list Z) NativeMemoryCacheCounter) (s : NativeMemoryCacheState)
    : NativeMemoryCacheState :=
  mkMemory (ms_objects s) (ms_variants s) (ms_purge_index s) (ms_min_uses s) counters (ms_filling s) (ms_bytes s).
Definition with_filling (filling : gset (list Z)) (s : NativeMemoryCacheState) : NativeMemoryCacheState :=
  mkMemory (ms_objects s) (ms_variants s) (ms_purge_index s) (ms_min_uses s) (ms_cache_pass s) filling (ms_bytes s).

(** ** Removing *)

Definition keep_variants (key : list Z) (variants : list NativeMemoryCacheVariant) : list NativeMemoryCacheVariant :=
  List.filter (fun variant => negb (bool_decide (va_key variant = key))) variants.
Definition prune_native_memory_cache_variants_for_key (key : list Z) (s : NativeMemoryCacheState) : NativeMemoryCacheState :=
  with_variants
    (omap (fun variants => let kept := keep_variants key variants in
                           if bool_decide (zlen kept = 0) then None else Some kept) (ms_variants s)) s.
Definition remove_native_memory_cache_entry (key : list Z) (s : NativeMemoryCacheState)
    : NativeMemoryCacheState * option NativeMemoryCacheEntry :=
  match ms_objects s !! key with
  | Some entry =>
      let s := with_objects (delete key (ms_objects s)) s in
      let s := with_purge_index (remove_combined key (ms_purge_index s)).1 s in
      (prune_native_memory_cache_variants_for_key key s, Some entry)
  | None => (s, None)
  end.
(** Removing an entry and taking its weight off, as the callers do. *)
Definition drop_entry (key : list Z) (s : NativeMemoryCacheState) : NativeMemoryCacheState :=
  match remove_native_memory_cache_entry key s with
  | (s, Some entry) => with_bytes (saturating_sub (ms_bytes s) (me_weight entry)) s
  | (s, None) => s
  end.
(** One turn of the fold of [remove_native_memory_cache_variants]. *)
Definition remove_variant (acc : NativeMemoryCacheState * Z) (variant : NativeMemoryCacheVariant)
    : NativeMemoryCacheState * Z :=
  let '(s, removed_bytes) := acc in
  match ms_objects s !! va_key variant with
  | None => (s, removed_bytes)
  | Some entry =>
      let s := with_objects (delete (va_key variant) (ms_objects s)) s in
      (with_purge_index (remove_combined (va_key variant) (ms_purge_index s)).1 s,
       saturating_add U64_MAX removed_bytes (me_weight entry))
  end.
Definition remove_native_memory_cache_variants (base_key : list Z) (s : NativeMemoryCacheState)
    : NativeMemoryCacheState * Z :=
  match ms_variants s !! base_key with
  | None => (s, 0)
  | Some variants => fold_left remove_variant variants (with_variants (delete base_key (ms_variants s)) s, 0)
  end.

(** ** Pruning *)

(** [sort_unstable_by_key] on the age of entries that come in the order of a hash
    map: some order by age. *)
Class AgeOrder (by_age : list (Z * list Z) -> list (Z * list Z)) : Prop := {
  age_permutation l : by_age l ≡ₚ l;
  age_sorted l : StronglySorted (fun a b => a.1 <= b.1) (by_age l);
}.
Definition option_max (a b : option Z) : option Z :=
  match a, b with
  | Some a, Some b => Some (Z.max a b)
  | Some a, None => Some a
  | None, b => b
  end.
Definition stale_until (entry : NativeMemoryCacheEntry) : Z :=
  default (me_expires_at entry) (option_max (me_stale_while_revalidate_until entry) (me_stale_if_error_until entry)).
Definition expired_keys (now : Z) (s : NativeMemoryCacheState) : list (list Z) :=
  omap (fun '(key, entry) => if stale_until entry <=? now then Some key else None) (map_to_list (ms_objects s)).
(** Removing the expired keys, and the weight of what was removed. *)
Definition remove_expired (acc : NativeMemoryCacheState * Z) (key : list Z) : NativeMemoryCacheState * Z :=
  match remove_native_memory_cache_entry key acc.1 with
  | (s, Some entry) => (s, saturating_add U64_MAX acc.2 (me_weight entry))
  | (s, None) => (s, acc.2)
  end.
(** The loop over the entries by age. *)
Fixpoint evict_by_age (max_bytes : Z) (aged : list (Z * list Z)) (s : NativeMemoryCacheState) : NativeMemoryCacheState :=
  match aged with
  | [] => s
  | (_, key) :: aged => if ms_bytes s <=? max_bytes then s else evict_by_age max_bytes aged (drop_entry key s)
  end.
Definition actual_bytes (objects : gmap (list Z) NativeMemoryCacheEntry) : Z :=
  foldr (fun entry total => saturating_add U64_MAX total (me_weight entry)) 0 ((map_to_list objects).*2).

Section Prune.
Context (by_age : list (Z * list Z) -> list (Z * list Z)).

Definition prune_native_memory_cache (now max_bytes : Z) (s : NativeMemoryCacheState) : NativeMemoryCacheState :=
  let '(s, expired_bytes) := fold_left remove_expired (expired_keys now s) (s, 0) in
  let s := with_bytes (saturating_sub (ms_bytes s) expired_bytes) s in
  if ms_bytes s <=? max_bytes then s
  else
    let aged := by_age ((fun '(key, entry) => (me_stored_at entry, key)) <$> map_to_list (ms_objects s)) in
    let s := evict_by_age max_bytes aged s in
    if bool_decide (ms_objects s = ∅) && (max_bytes <? ms_bytes s) then with_bytes 0 s
    else with_bytes (Z.min (ms_bytes s) (actual_bytes (ms_objects s))) s.
End Prune.

(** ** Responses and entries *)

Definition to_response (entry : NativeMemoryCacheEntry) : NativeHttp1Response :=
  mkResponse (me_status entry) (me_reason entry) (me_headers entry) (me_content_length entry) (me_body entry) false.
Definition remove_response_header (name : list Z) (response : NativeHttp1Response) : NativeHttp1Response :=
  mkResponse (rp_status response) (rp_reason response)
    (List.filter (fun h => negb (eq_ignore_ascii_case h.1 name)) (rp_headers response))
    (rp_content_length response) (rp_body response) (rp_close response).
Definition push_response_header (name value : list Z) (response : NativeHttp1Response) : NativeHttp1Response :=
  mkResponse (rp_status response) (rp_reason response) (rp_headers response ++ [(name, value)])
    (rp_content_length response) (rp_body response) (rp_close response).
Definition cached_proxy_headers (response : NativeHttp1Response) (cache : CacheConfig) : list header :=
  List.filter
    (fun h => negb (eq_ignore_ascii_case h.1 (bs "age"))
              && negb (existsb (fun hidden => eq_ignore_ascii_case hidden h.1) (cc_hide_response_headers cache)))
    (rp_headers response).
Definition ENTRY_OVERHEAD : Z := 256.
Definition native_cache_entry_weight (key : list Z) (response : NativeHttp1Response) (body_len : Z) : Z :=
  fold_left
    (fun weight h => saturating_add U64_MAX (saturating_add U64_MAX (saturating_add U64_MAX weight (zlen h.1)) (zlen h.2)) 4)
    (rp_headers response)
    (saturating_add U64_MAX (saturating_add U64_MAX (saturating_add U64_MAX body_len ENTRY_OVERHEAD) (zlen key))
       (zlen (rp_reason response))).
Definition native_response_cache_tags (response : NativeHttp1Response) (cache : CacheConfig) : list (list Z) :=
  (fold_left (fun acc value => collect_cache_tags value acc.1 acc.2)
     (concat ((fun tag_header => snd <$> List.filter (fun h => eq_ignore_ascii_case h.1 tag_header) (rp_headers response))
              <$> cc_tag_headers cache))
     ([], 0)).1.
Definition native_cache_expiry_times (now ttl : Z) (stale_while_revalidate_secs stale_if_error_secs : option Z)
    : option (Z * option Z * option Z) :=
  let* expires_at := time_checked_add now ttl in
  let window (secs : option Z) : option (option Z) :=
    match secs with
    | Some secs => let* until := time_checked_add expires_at (secs * NANOS) in Some (Some until)
    | None => Some None
    end in
  let* stale_while_revalidate_until := window stale_while_revalidate_secs in
  let* stale_if_error_until := window stale_if_error_secs in
  Some (expires_at, stale_while_revalidate_until, stale_if_error_until).

Section Http.
Context `{HttpPackage}.

Definition native_response_header_map (response : NativeHttp1Response) : HeaderMap :=
  let headers := List.filter (fun h => header_name_ok h.1 && header_value_ok h.2) (rp_headers response) in
  match rp_content_length response with
  | Some content_length =>
      if header_value_ok (to_decimal content_length) then
        List.filter (fun h => negb (eq_ignore_ascii_case h.1 (bs "content-length"))) headers
        ++ [(bs "content-length", to_decimal content_length)]
      else headers
  | None => headers
  end.
Definition configured_ttl (status : Z) (cache : CacheConfig) : option Z :=
  match cc_status_ttls cache !! status with Some ttl => Some ttl | None => cc_default_status_ttl_secs cache end.
Definition response_ttl_secs (status : Z) (headers : HeaderMap) (cache : CacheConfig) : option Z :=
  match response_cache_control_freshness headers with
  | FreshInvalid => None
  | FreshSeconds seconds =>
      match configured_ttl status cache with Some ttl => Some ttl | None => Some seconds end
  | FreshAbsent => configured_ttl status cache
  end.
(** [native_cache_ttl] and [native_peer_fill_cache_ttl], in nanoseconds *)
Definition native_cache_ttl (status : Z) (headers : HeaderMap) (cache : CacheConfig) : option Z :=
  (fun secs => secs * NANOS) <$> response_ttl_secs status headers cache.
Definition native_peer_fill_cache_ttl (status : Z) (headers : HeaderMap) (cache : CacheConfig) : option Z :=
  let* ttl_secs := response_ttl_secs status headers cache in
  (fun secs => secs * NANOS) <$> remaining_fresh_ttl_secs ttl_secs (response_age_secs headers).
End Http.

(** ** Use counters *)

Record CachePredictorConfig : Type := mkPredictor {
  pd_enabled : bool;
  pd_capacity : Z;
  pd_pass_uncacheable_after : Z;
  pd_min_uses : Z;
}.
Definition NATIVE_CACHE_PREDICTOR_COUNTER_TTL : Z := 600 * NANOS.

Section Counters.
(** The first key in the order of a hash map. *)
Context (first_key : gmap (list Z) NativeMemoryCacheCounter -> option (list Z)).

(** Every turn removes one counter, so their number is enough fuel. *)
Fixpoint prune_counters (fuel : nat) (capacity : Z) (counters : gmap (list Z) NativeMemoryCacheCounter)
    : gmap (list Z) NativeMemoryCacheCounter :=
  match fuel with
  | O => counters
  | S fuel =>
      if Z.of_nat (size counters) <? capacity then counters
      else match first_key counters with
           | None => counters
           | Some key => prune_counters fuel capacity (delete key counters)
           end
  end.
Definition prune_native_predictor_counters (capacity : Z) (counters : gmap (list Z) NativeMemoryCacheCounter)
    : gmap (list Z) NativeMemoryCacheCounter :=
  prune_counters (size counters) (Z.max capacity 1) counters.
Definition native_predictor_counter_uses (now : Z) (key : list Z) (counters : gmap (list Z) NativeMemoryCacheCounter)
    : gmap (list Z) NativeMemoryCacheCounter * option Z :=
  match counters !! key with
  | None => (counters, None)
  | Some counter =>
      if NATIVE_CACHE_PREDICTOR_COUNTER_TTL <=? saturating_sub now (ctr_seen_at counter) then (delete key counters, None)
      else (counters, Some (ctr_uses counter))
  end.
Definition cache_pass_should_bypass (predictor : CachePredictorConfig) (now : Z) (key : list Z) (s : NativeMemoryCacheState)
    : NativeMemoryCacheState * bool :=
  if pd_enabled predictor || (0 <? pd_pass_uncacheable_after predictor) then
    let counters := prune_native_predictor_counters (pd_capacity predictor) (ms_cache_pass s) in
    let '(counters, uses) := native_predictor_counter_uses now key counters in
    (with_cache_pass counters s,
     match uses with
     | Some uses => pd_enabled predictor || (Z.max (pd_pass_uncacheable_after predictor) 1 <=? uses)
     | None => false
     end)
  else (s, false).
Definition record_cacheable (key : list Z) (s : NativeMemoryCacheState) : NativeMemoryCacheState :=
  with_cache_pass (delete key (ms_cache_pass s)) s.
Definition record_uncacheable (predictor : CachePredictorConfig) (now : Z) (key : list Z) (s : NativeMemoryCacheState)
    : NativeMemoryCacheState :=
  if negb (pd_enabled predictor) && (pd_pass_uncacheable_after predictor =? 0) then s
  else
    let counters := prune_native_predictor_counters (pd_capacity predictor) (ms_cache_pass s) in
    let threshold := Z.max (pd_pass_uncacheable_after predictor) 1 in
    let '(counters, uses) := native_predictor_counter_uses now key counters in
    let uses := Z.min (saturating_add U32_MAX (default 0 uses) 1) threshold in
    with_cache_pass (<[key := mkCounter uses now]> counters) s.
Definition min_uses_allows_store (predictor : CachePredictorConfig) (now : Z) (key : list Z) (s : NativeMemoryCacheState)
    : NativeMemoryCacheState * bool :=
  if pd_min_uses predictor <=? 1 then (s, true)
  else
    let counters := prune_native_predictor_counters (pd_capacity predictor) (ms_min_uses s) in
    let '(counters, uses) := native_predictor_counter_uses now key counters in
    let uses := saturating_add U32_MAX (default 0 uses) 1 in
    if pd_min_uses predictor <=? uses then (with_min_uses (delete key counters) s, true)
    else (with_min_uses (<[key := mkCounter uses now]> counters) s, false).
End Counters.

(** ** The cache of a route *)

Record NativeProxyMemoryCache : Type := mkMemoryCache {
  pm_config : CacheConfig;
  pm_range : CacheRangeConfig;
  pm_predictor : CachePredictorConfig;
  pm_max_bytes : Z;
  pm_metrics_vhost : list Z;
  pm_metrics_route : option (list Z);
}.
Definition memory_enabled (cache : NativeProxyMemoryCache) : bool := cc_memory_enabled (pm_config cache).
Definition user_tag (cache : NativeProxyMemoryCache) : list Z :=
  match pm_metrics_route cache with
  | Some route => pm_metrics_vhost cache ++ bs ":route:" ++ route
  | None => pm_metrics_vhost cache
  end.
Inductive NativeCacheStoreMode : Type := ModeOrigin | ModeRevalidated | ModePeerFill.
#[export] Instance NativeCacheStoreMode_eq_dec : EqDecision NativeCacheStoreMode.
Proof. solve_decision. Defined.
Record NativeProxyCacheStoreMetadata : Type := mkStoreMetadata {
  sm_ttl_override : option Z;
  sm_cache_tags : list (list Z);
  sm_response_headers : list header;
}.
Definition metadata_default : NativeProxyCacheStoreMetadata := mkStoreMetadata None [] [].
Inductive StoreError : Type :=
| StoreObjectTooLarge
| StoreRejected (reason : Rejection)
| StoreRangeRejected (reason : RangeRejection)
| StoreTtlMissing | StoreEmptyBody | StoreTtlZero | StoreCacheMinUses | StoreVaryInvalid | StoreTtlOverflow
| StoreNotModifiedStatus.
#[export] Instance Rejection_eq_dec : EqDecision Rejection.
Proof. solve_decision. Defined.
#[export] Instance RangeRejection_eq_dec : EqDecision RangeRejection.
Proof. solve_decision. Defined.
#[export] Instance StoreError_eq_dec : EqDecision StoreError.
Proof. solve_decision. Defined.

(** ** Storing *)

(** What a store puts into the state. *)
Record StorePlan : Type := mkPlan {
  sp_store_key : list Z;
  sp_vary_fields : option (list (list Z));
  sp_entry : NativeMemoryCacheEntry;
  sp_path : list Z;
  sp_cache_tags : list (list Z);
}.
(** The times a store reads. *)
Record StoreTimes : Type := mkStoreTimes { tm_uses : Z; tm_now : Z; tm_prune : Z }.

Definition native_cache_store_response_with_metadata (response : NativeHttp1Response)
    (metadata : NativeProxyCacheStoreMetadata) : NativeHttp1Response :=
  fold_left (fun response h => push_response_header h.1 h.2 (remove_response_header h.1 response)) (sm_response_headers metadata) response.

(** The critical section of a store. *)
Definition store_insert (tag key : list Z) (plan : StorePlan) (s : NativeMemoryCacheState) : NativeMemoryCacheState :=
  let store_key := sp_store_key plan in
  let s :=
    match sp_vary_fields plan with
    | Some fields =>
        let s := drop_entry key s in
        let s := drop_entry store_key s in
        let variants := keep_variants store_key (default [] (ms_variants s !! key)) in
        with_variants (<[key := variants ++ [mkVariant fields store_key]]> (ms_variants s)) s
    | None =>
        let '(s, removed_bytes) := remove_native_memory_cache_variants key s in
        let s := with_bytes (saturating_sub (ms_bytes s) removed_bytes) s in
        drop_entry store_key s
    end in
  let s := with_purge_index
             (insert_with_path_and_tags store_key key tag (Some (sp_path plan)) (sp_cache_tags plan) (ms_purge_index s)) s in
  let s :=
    match ms_objects s !! store_key with
    | Some previous => with_bytes (saturating_sub (ms_bytes s) (me_weight previous)) s
    | None => s
    end in
  let s := with_objects (<[store_key := sp_entry plan]> (ms_objects s)) s in
  with_bytes (saturating_add U64_MAX (ms_bytes s) (me_weight (sp_entry plan))) s.

Section Store.
Context `{HttpPackage}.
Context (variance : list Z -> option (list Z)) (native_body_sha256 : list Z -> list Z).
Context (first_key : gmap (list Z) NativeMemoryCacheCounter -> option (list Z)).
Context (by_age : list (Z * list Z) -> list (Z * list Z)).
Context (cache : NativeProxyMemoryCache).

(** The response to store, its header map, the fields it varies on and its time
    to live, or why it is not stored. *)
Definition store_checks (r : NativeHttp1Request) (response : NativeHttp1Response) (mode : NativeCacheStoreMode)
    (metadata : NativeProxyCacheStoreMetadata)
    : result (NativeHttp1Response * HeaderMap * option (list (list Z)) * Z) StoreError :=
  let config := pm_config cache in
  let body_len := zlen (rp_body response) in
  if cc_max_object_bytes config <? body_len then Err StoreObjectTooLarge
  else
    let response :=
      if bool_decide (sm_response_headers metadata = []) then response
      else native_cache_store_response_with_metadata response metadata in
    let headers := native_response_header_map response in
    let? vary_fields :=
      match cache_vary_policy headers config with
      | VaryNone => Ok None
      | VaryFields fields => Ok (Some fields)
      | VaryUncacheable reason => Err (StoreRejected reason)
      end in
    let range := selected_cache_range_request r (pm_range cache) in
    let? _ :=
      if rp_status response =? 206 then
        match range_response_cache_admission_rejection (rp_status response) headers range with
        | Some reason => Err (StoreRangeRejected reason)
        | None =>
            match response_range_cache_admission_rejection headers config with
            | Some reason => Err (StoreRejected reason)
            | None => Ok tt
            end
        end
      else
        match range_response_cache_admission_rejection (rp_status response) headers None with
        | Some reason => Err (StoreRangeRejected reason)
        | None =>
            match response_cache_admission_rejection (rp_status response) headers config with
            | Some reason => Err (StoreRejected reason)
            | None => Ok tt
            end
        end in
    let ttl :=
      match mode with
      | ModeOrigin | ModeRevalidated =>
          match sm_ttl_override metadata with
          | Some ttl => Some ttl
          | None => native_cache_ttl (rp_status response) headers config
          end
      | ModePeerFill => native_peer_fill_cache_ttl (rp_status response) headers config
      end in
    let? ttl := ok_or ttl StoreTtlMissing in
    if (body_len =? 0) && negb (bool_decide (is_Some (cc_status_ttls config !! rp_status response))) then Err StoreEmptyBody
    else if ttl =? 0 then Err StoreTtlZero
    else Ok (response, headers, vary_fields, ttl).

Definition store_plan (now : Z) (key : list Z) (r : NativeHttp1Request) (mode : NativeCacheStoreMode)
    (metadata : NativeProxyCacheStoreMetadata) (response : NativeHttp1Response) (headers : HeaderMap)
    (vary_fields : option (list (list Z))) (ttl : Z) : result StorePlan StoreError :=
  let config := pm_config cache in
  let? store_key :=
    match vary_fields with
    | Some fields => ok_or (native_vary_cache_key variance key fields r) StoreVaryInvalid
    | None => Ok key
    end in
  let stored_at :=
    match mode with
    | ModePeerFill => default now (time_checked_sub now (response_age_secs headers * NANOS))
    | _ => now
    end in
  let stale_reuse_forbidden := response_cache_control_stale_reuse_forbidden headers in
  let window (secs : option Z) : option Z := if stale_reuse_forbidden then None else secs in
  let? (expires_at, stale_while_revalidate_until, stale_if_error_until) :=
    ok_or (native_cache_expiry_times now ttl (window (cc_stale_while_revalidate_secs config))
             (window (cc_stale_if_error_secs config))) StoreTtlOverflow in
  let weight := native_cache_entry_weight store_key response (zlen (rp_body response)) in
  if memory_enabled cache && (pm_max_bytes cache <? weight) then Err StoreObjectTooLarge
  else
    let entry :=
      mkCacheEntry (rp_status response) (rp_reason response) (cached_proxy_headers response config)
        (rp_content_length response) (rp_body response) (native_body_sha256 (rp_body response)) expires_at
        stale_while_revalidate_until stale_if_error_until stale_reuse_forbidden stored_at weight in
    let tags := native_response_cache_tags response config in
    let tag_bytes := foldr (fun tag total => zlen tag + total) 0 tags in
    let tags := (fold_left (fun acc tag => collect_cache_tags tag acc.1 acc.2) (sm_cache_tags metadata) (tags, tag_bytes)).1 in
    Ok (mkPlan store_key vary_fields entry (cache_request_path (rq_method r) (rq_target r)) tags).
(** Pruning when a change asks for it. *)
Definition prune_if_needed (now : Z) (s : NativeMemoryCacheState) : NativeMemoryCacheState :=
  if pm_max_bytes cache <? ms_bytes s then prune_native_memory_cache by_age now (pm_max_bytes cache) s else s.
Definition store_inner (times : StoreTimes) (key : list Z) (r : NativeHttp1Request) (response : NativeHttp1Response)
    (mode : NativeCacheStoreMode) (metadata : NativeProxyCacheStoreMetadata) (s : NativeMemoryCacheState)
    : NativeMemoryCacheState * result unit StoreError :=
  match store_checks r response mode metadata with
  | Err error => (s, Err error)
  | Ok (response, headers, vary_fields, ttl) =>
      let s := record_cacheable key s in
      let '(s, allowed) :=
        match mode with
        | ModeOrigin => min_uses_allows_store first_key (pm_predictor cache) (tm_uses times) key s
        | _ => (s, true)
        end in
      if negb allowed then (s, Err StoreCacheMinUses)
      else
        match store_plan (tm_now times) key r mode metadata response headers vary_fields ttl with
        | Err error => (s, Err error)
        | Ok plan =>
            if memory_enabled cache
            then (prune_if_needed (tm_prune times) (store_insert (user_tag cache) key plan s), Ok tt)
            else (s, Ok tt)
        end
  end.
(** [store_with_metadata], [store_revalidated_with_metadata] and
    [store_peer_fill], by mode *)
Definition store_with_metadata (times : StoreTimes) (key : list Z) (r : NativeHttp1Request) (response : NativeHttp1Response)
    (mode : NativeCacheStoreMode) (metadata : NativeProxyCacheStoreMetadata) (s : NativeMemoryCacheState)
    : NativeMemoryCacheState * result unit StoreError :=
  match store_inner times key r response mode metadata s with
  | (s, Err error) =>
      (if bool_decide (error = StoreCacheMinUses) then s
       else record_uncacheable first_key (pm_predictor cache) (tm_prune times) key s, Err error)
  | stored => stored
  end.

Definition native_not_modified_refresh_header_skipped (name : list Z) : bool :=
  eq_ignore_ascii_case name (bs "content-length") || eq_ignore_ascii_case name (bs "content-range")
  || eq_ignore_ascii_case name (bs "transfer-encoding").
(** The cached response with the headers of a [304]. *)
Definition refreshed_response (entry : NativeMemoryCacheEntry) (response : NativeHttp1Response) : NativeHttp1Response :=
  fold_left
    (fun refreshed h =>
       if native_not_modified_refresh_header_skipped h.1 then refreshed
       else push_response_header h.1 h.2 (remove_response_header h.1 refreshed))
    (cached_proxy_headers response (pm_config cache)) (to_response entry).
Definition store_not_modified_revalidated (times : StoreTimes) (key : list Z) (r : NativeHttp1Request)
    (entry : NativeMemoryCacheEntry) (response : NativeHttp1Response) (s : NativeMemoryCacheState)
    : NativeMemoryCacheState * result NativeMemoryCacheEntry StoreError :=
  let config := pm_config cache in
  if negb (rp_status response =? 304) then (s, Err StoreNotModifiedStatus)
  else
    let refreshed := refreshed_response entry response in
    let headers := native_response_header_map refreshed in
    match response_cache_admission_rejection (me_status entry) headers config with
    | Some reason => (s, Err (StoreRejected reason))
    | None =>
        match native_cache_ttl (me_status entry) headers config with
        | None => (s, Err StoreTtlMissing)
        | Some ttl =>
            if ttl =? 0 then (s, Err StoreTtlZero)
            else
              let stale_reuse_forbidden := response_cache_control_stale_reuse_forbidden headers in
              let window (secs : option Z) : option Z := if stale_reuse_forbidden then None else secs in
              match native_cache_expiry_times (tm_now times) ttl (window (cc_stale_while_revalidate_secs config))
                      (window (cc_stale_if_error_secs config)) with
              | None => (s, Err StoreTtlOverflow)
              | Some (expires_at, stale_while_revalidate_until, stale_if_error_until) =>
                  let refreshed_entry :=
                    mkCacheEntry (me_status entry) (me_reason entry) (cached_proxy_headers refreshed config)
                      (rp_content_length refreshed) (me_body entry) (me_body_sha256 entry) expires_at
                      stale_while_revalidate_until stale_if_error_until stale_reuse_forbidden (tm_now times)
                      (native_cache_entry_weight key refreshed (zlen (me_body entry))) in
                  match store_inner times key r (to_response refreshed_entry) ModeRevalidated metadata_default s with
                  | (s, Err error) => (s, Err error)
                  | (s, Ok _) => (s, Ok refreshed_entry)
                  end
              end
        end
    end.

(** ** Entries from disk *)

Definition promote_disk_entry (now : Z) (key : list Z) (r : NativeHttp1Request) (entry : NativeMemoryCacheEntry)
    (s : NativeMemoryCacheState) : NativeMemoryCacheState :=
  if negb (memory_enabled cache) || (pm_max_bytes cache <? me_weight entry) then s
  else
    let insert (fields : option (list (list Z))) (store_key : list Z) :=
      let s :=
        match fields with
        | Some fields =>
            let variants := keep_variants store_key (default [] (ms_variants s !! key)) in
            with_variants (<[key := variants ++ [mkVariant fields store_key]]> (ms_variants s)) s
        | None => s
        end in
      let s :=
        match ms_objects s !! store_key with
        | Some previous => with_bytes (saturating_sub (ms_bytes s) (me_weight previous)) s
        | None => s
        end in
      let s := with_objects (<[store_key := entry]> (ms_objects s)) s in
      prune_if_needed now (with_bytes (saturating_add U64_MAX (ms_bytes s) (me_weight entry)) s) in
    match cache_vary_policy (native_response_header_map (to_response entry)) (pm_config cache) with
    | VaryNone => insert None key
    | VaryFields fields =>
        match native_vary_cache_key variance key fields r with
        | Some store_key => insert (Some fields) store_key
        | None => s
        end
    | VaryUncacheable _ => s
    end.
End Store.

(** ** Finding *)

Definition is_after (now : Z) (until : option Z) : bool :=
  match until with Some until => now <? until | None => false end.
Definition native_cache_entry_serve_stale_while_revalidate (entry : NativeMemoryCacheEntry) (now : Z) : bool :=
  negb (me_stale_reuse_forbidden entry) && (me_expires_at entry <=? now)
  && is_after now (me_stale_while_revalidate_until entry).
Definition native_entry_first_header (entry : NativeMemoryCacheEntry) (name : list Z) : option (list Z) :=
  snd <$> List.find (fun h => eq_ignore_ascii_case h.1 name) (me_headers entry).
Definition native_cache_entry_revalidatable (entry : NativeMemoryCacheEntry) (now : Z) : bool :=
  (me_expires_at entry <=? now)
  && (bool_decide (is_Some (native_entry_first_header entry (bs "etag")))
      || bool_decide (is_Some (native_entry_first_header entry (bs "last-modified")))).

(** What a lookup does with an entry it finds. *)
Inductive Found : Type :=
| Serve
(** remove the entry and leave the loop *)
| Discard
(** leave the loop *)
| Stop
| Next.

Section Lookup.
Context (variance : list Z -> option (list Z)).
Context (verdict : NativeMemoryCacheEntry -> Found).

(** The loop over the variants of a key. *)
Fixpoint find_variant (key : list Z) (r : NativeHttp1Request) (variants : list NativeMemoryCacheVariant)
    (s : NativeMemoryCacheState) : NativeMemoryCacheState * option NativeMemoryCacheEntry :=
  match variants with
  | [] => (s, None)
  | variant :: variants =>
      if bool_decide (native_vary_cache_key variance key (va_fields variant) r = Some (va_key variant)) then
        match ms_objects s !! va_key variant with
        | Some entry =>
            match verdict entry with
            | Serve => (s, Some entry)
            | Discard => (drop_entry (va_key variant) s, None)
            | Stop => (s, None)
            | Next => find_variant key r variants s
            end
        | None => find_variant key r variants s
        end
      else find_variant key r variants s
  end.
(** The shape the lookups share: the variants, and the key itself when it has none. *)
Definition find_entry (key : list Z) (r : NativeHttp1Request) (s : NativeMemoryCacheState)
    : NativeMemoryCacheState * option NativeMemoryCacheEntry :=
  let '(s, found) :=
    match ms_variants s !! key with
    | Some variants => find_variant key r variants s
    | None => (s, None)
    end in
  match found with
  | Some entry => (s, Some entry)
  | None =>
      match ms_variants s !! key with
      | Some _ => (s, None)
      | None =>
          match ms_objects s !! key with
          | Some entry =>
              match verdict entry with
              | Serve => (s, Some entry)
              | Discard => (drop_entry key s, None)
              | Stop | Next => (s, None)
              end
          | None => (s, None)
          end
      end
  end.
End Lookup.

Definition fresh_verdict (now : Z) (entry : NativeMemoryCacheEntry) : Found :=
  if now <? me_expires_at entry then Serve
  else if native_cache_entry_has_stale_window entry now then Stop else Discard.
Definition serve_if (test : bool) : Found := if test then Serve else Next.
Definition stale_verdict (config : CacheConfig) (event : CacheStaleEvent) (now : Z) (entry : NativeMemoryCacheEntry) : Found :=
  if cache_should_serve_stale config event (me_stale_reuse_forbidden entry) && (me_expires_at entry <=? now)
     && is_after now (me_stale_if_error_until entry)
  then Serve
  else match me_stale_if_error_until entry with
       | Some until => if until <=? now then Discard else Next
       | None => Next
       end.

Section Get.
Context (variance : list Z -> option (list Z)) (cache : NativeProxyMemoryCache).

(** The memory part of [get], [get_stale_while_revalidate], [get_revalidatable]
    and [get_stale]. *)
Definition memory_get (now : Z) (key : list Z) (r : NativeHttp1Request) (s : NativeMemoryCacheState)
    : NativeMemoryCacheState * option NativeMemoryCacheEntry :=
  if memory_enabled cache then find_entry variance (fresh_verdict now) key r s else (s, None).
Definition get_stale_while_revalidate (now : Z) (key : list Z) (r : NativeHttp1Request) (s : NativeMemoryCacheState)
    : NativeMemoryCacheState * option NativeMemoryCacheEntry :=
  if memory_enabled cache
  then find_entry variance (fun entry => serve_if (native_cache_entry_serve_stale_while_revalidate entry now)) key r s
  else (s, None).
Definition get_revalidatable (now : Z) (key : list Z) (r : NativeHttp1Request) (s : NativeMemoryCacheState)
    : NativeMemoryCacheState * option NativeMemoryCacheEntry :=
  if memory_enabled cache
  then find_entry variance (fun entry => serve_if (native_cache_entry_revalidatable entry now)) key r s
  else (s, None).
Definition get_stale (event : CacheStaleEvent) (now : Z) (key : list Z) (r : NativeHttp1Request) (s : NativeMemoryCacheState)
    : NativeMemoryCacheState * option NativeMemoryCacheEntry :=
  if negb (cache_should_serve_stale (pm_config cache) event false) then (s, None)
  else if memory_enabled cache then find_entry variance (stale_verdict (pm_config cache) event now) key r s
  else (s, None).
End Get.

(** ** Purging *)

Definition soft_purge_entry (now : Z) (entry : NativeMemoryCacheEntry) : NativeMemoryCacheEntry :=
  mkCacheEntry (me_status entry) (me_reason entry) (me_headers entry) (me_content_length entry) (me_body entry)
    (me_body_sha256 entry) now (me_stale_while_revalidate_until entry) (me_stale_if_error_until entry)
    (me_stale_reuse_forbidden entry) (me_stored_at entry) (me_weight entry).
Definition forget_index (key : list Z) (s : NativeMemoryCacheState) : NativeMemoryCacheState :=
  with_purge_index (remove_combined key (ms_purge_index s)).1 s.
(** One turn of the loop of [purge_native_memory_indexed_entries]. *)
Definition purge_indexed (now : Z) (soft : bool) (acc : NativeMemoryCacheState * Z) (e : CachePurgeIndexEntry)
    : NativeMemoryCacheState * Z :=
  let '(s, purged) := acc in
  match ms_objects s !! pe_combined_key e with
  | None => (forget_index (pe_combined_key e) s, purged)
  | Some object =>
      (if soft then with_objects (<[pe_combined_key e := soft_purge_entry now object]> (ms_objects s)) s
       else drop_entry (pe_combined_key e) s,
       saturating_add USIZE_MAX purged 1)
  end.
Definition purge_native_memory_indexed_entries (now : Z) (entries : list CachePurgeIndexEntry) (soft : bool)
    (s : NativeMemoryCacheState) : NativeMemoryCacheState * (Z * Z) :=
  let '(s, purged) := fold_left (purge_indexed now soft) entries (s, 0) in (s, (zlen entries, purged)).
Record CacheStalePurgeResult : Type := mkStalePurge { stp_scanned : Z; stp_stale : Z; stp_purged : Z }.
(** One turn of the loop of [purge_native_memory_stale_entries]. *)
Definition purge_stale (now : Z) (dry_run : bool) (acc : NativeMemoryCacheState * CacheStalePurgeResult)
    (e : CachePurgeIndexEntry) : NativeMemoryCacheState * CacheStalePurgeResult :=
  let '(s, count) := acc in
  match ms_objects s !! pe_combined_key e with
  | None => (forget_index (pe_combined_key e) s, count)
  | Some object =>
      let scanned := saturating_add USIZE_MAX (stp_scanned count) 1 in
      if now <? me_expires_at object then (s, mkStalePurge scanned (stp_stale count) (stp_purged count))
      else
        let stale := saturating_add USIZE_MAX (stp_stale count) 1 in
        if dry_run then (s, mkStalePurge scanned stale (stp_purged count))
        else (drop_entry (pe_combined_key e) s, mkStalePurge scanned stale (saturating_add USIZE_MAX (stp_purged count) 1))
  end.
Definition purge_native_memory_stale_entries (now : Z) (entries : list CachePurgeIndexEntry) (dry_run : bool)
    (s : NativeMemoryCacheState) : NativeMemoryCacheState * CacheStalePurgeResult :=
  fold_left (purge_stale now dry_run) entries (s, mkStalePurge 0 0 0).
Definition purge_native_memory_state_primary (primary_key combined_key : list Z) (s : NativeMemoryCacheState)
    : NativeMemoryCacheState * bool :=
  let purged := bool_decide (is_Some (ms_objects s !! combined_key)) in
  let s := drop_entry combined_key s in
  let other := negb (bool_decide (primary_key = combined_key)) in
  let purged := purged || (other && bool_decide (is_Some (ms_objects s !! primary_key))) in
  let s := if other then drop_entry primary_key s else s in
  let '(s, removed_variant_bytes) := remove_native_memory_cache_variants primary_key s in
  let s := with_bytes (saturating_sub (ms_bytes s) removed_variant_bytes) s in
  (with_filling (ms_filling s ∖ {[primary_key; combined_key]}) s, purged || (0 <? removed_variant_bytes)).
(** The purges by scope, by tag and by path. *)
Definition purge_selected (select : CachePurgeIndex -> list CachePurgeIndexEntry) (now : Z) (soft : bool)
    (s : NativeMemoryCacheState) : NativeMemoryCacheState * (Z * Z) :=
  purge_native_memory_indexed_entries now (select (ms_purge_index s)) soft s.
