(* ===== verification/MemoryCacheProps.v ===== *)
(** * Operations of the memory cache

    Most operations only take entries out.  [shrinks] is what they all keep: the
    entries that stay, their variants and their index entries are as they were,
    and the byte count stays exact. *)
From Stdlib Require Import ZArith Lia.
From stdpp Require Import base list numbers strings sets gmap sorting fin_maps.
From S2P Require Import Prelude Text RequestHeaders UpstreamResponse CacheKey CachePurge CacheControl CacheObject CacheEntry CacheRange MemoryCache.

(** ** Weights *)

Definition sum_weights (l : list NativeMemoryCacheEntry) : Z := foldr (fun entry total => me_weight entry + total) 0 l.
Definition weights (objects : gmap (list Z) NativeMemoryCacheEntry) : Z := sum_weights (map_to_list objects).*2.
#[export] Instance sum_weights_perm : Proper ((≡ₚ) ==> eq) sum_weights.
Proof. intros l k Hp. unfold sum_weights. induction Hp; cbn [foldr]; lia. Qed.
Lemma weights_insert key entry objects :
  objects !! key = None -> weights (<[key := entry]> objects) = me_weight entry + weights objects.
Proof. intros Hn. unfold weights. by rewrite (map_to_list_insert _ _ _ Hn). Qed.
Lemma weights_delete key entry objects :
  objects !! key = Some entry -> weights (delete key objects) = weights objects - me_weight entry.
Proof.
  intros He. rewrite <- (insert_delete_id objects key entry He) at 2. rewrite weights_insert by apply lookup_delete_eq. lia.
Qed.
Lemma weights_replace key entry entry' objects :
  objects !! key = Some entry -> weights (<[key := entry']> objects) = weights objects - me_weight entry + me_weight entry'.
Proof.
  intros He. rewrite <- insert_delete_eq, weights_insert by apply lookup_delete_eq. rewrite (weights_delete _ _ _ He). lia.
Qed.

(** The count of bytes is the weight of the entries. *)
Record exact (s : NativeMemoryCacheState) : Prop := {
  ex_bytes : ms_bytes s = weights (ms_objects s);
  ex_nonneg : map_Forall (fun _ entry => 0 <= me_weight entry) (ms_objects s);
  ex_fits : weights (ms_objects s) <= U64_MAX;
}.
Lemma sum_weights_nonneg l : Forall (fun entry => 0 <= me_weight entry) l -> 0 <= sum_weights l.
Proof. induction 1; cbn; [lia |]. fold (sum_weights l). lia. Qed.
Lemma weights_nonneg objects : map_Forall (fun _ entry => 0 <= me_weight entry) objects -> 0 <= weights objects.
Proof.
  intros Hn. apply sum_weights_nonneg, Forall_forall. intros e ([k e'] & -> & Hin)%list_elem_of_fmap.
  apply elem_of_map_to_list in Hin. by apply (Hn k).
Qed.
Lemma weight_le key entry objects :
  map_Forall (fun _ e => 0 <= me_weight e) objects -> objects !! key = Some entry -> me_weight entry <= weights objects.
Proof.
  intros Hn He. pose proof (weights_nonneg (delete key objects)) as Hd. rewrite (weights_delete _ _ _ He) in Hd.
  assert (map_Forall (fun _ e => 0 <= me_weight e) (delete key objects)) as Hf by (by apply map_Forall_delete).
  specialize (Hd Hf). lia.
Qed.
(** The sum the code computes is the weight when it fits. *)
Lemma actual_bytes_exact objects :
  map_Forall (fun _ e => 0 <= me_weight e) objects -> weights objects <= U64_MAX -> actual_bytes objects = weights objects.
Proof.
  intros Hn Hf. unfold actual_bytes, weights in *.
  assert (Forall (fun entry => 0 <= me_weight entry) (map_to_list objects).*2) as Hl.
  { apply Forall_forall. intros e ([k e'] & -> & Hin)%list_elem_of_fmap. apply elem_of_map_to_list in Hin. by apply (Hn k). }
  revert Hf Hl. generalize ((map_to_list objects).*2). clear. intros l Hf Hl. induction Hl as [| e l He Hl IH]; [done |].
  cbn [foldr]. cbn [sum_weights foldr] in Hf. fold (sum_weights l) in Hf. rewrite IH by lia. unfold saturating_add.
  cbn [sum_weights foldr]. fold (sum_weights l). lia.
Qed.

(** ** Taking entries out *)

Record shrinks (s s' : NativeMemoryCacheState) : Prop := {
  sh_objects : ms_objects s' ⊆ ms_objects s;
  sh_variants : forall key variants', ms_variants s' !! key = Some variants' ->
    exists variants, ms_variants s !! key = Some variants /\ variants' ⊆ variants;
  sh_index : forall key, is_Some (ms_objects s' !! key) ->
    pi_entries (ms_purge_index s') !! key = pi_entries (ms_purge_index s) !! key;
  sh_wf : purge_wf (ms_purge_index s) -> purge_wf (ms_purge_index s');
  sh_exact : exact s -> exact s';
}.
#[export] Instance shrinks_preorder : PreOrder shrinks.
Proof.
  split.
  - intros s. split; try done. intros key variants' E. by exists variants'.
  - intros s1 s2 s3 [Ho Hv Hi Hw He] [Ho' Hv' Hi' Hw' He']. split; auto.
    + by trans (ms_objects s2).
    + intros key v3 (v2 & E2 & Hs2)%Hv'. apply Hv in E2 as (v1 & E1 & Hs1). exists v1. split; [done | by trans v2].
    + intros key Hk. rewrite Hi' by done. apply Hi. destruct Hk as [e Hk]. exists e. by eapply lookup_weaken.
Qed.
(** Counters and the keys being filled are not part of it. *)
Lemma shrinks_same s s' :
  ms_objects s' = ms_objects s -> ms_variants s' = ms_variants s -> ms_purge_index s' = ms_purge_index s ->
  ms_bytes s' = ms_bytes s -> shrinks s s'.
Proof.
  destruct s, s'; cbn. intros -> -> -> ->. split; cbn; try done.
  - intros key variants' E. by exists variants'.
  - intros [? ? ?]. by split.
Qed.
Lemma drop_entry_objects key s : ms_objects (drop_entry key s) = delete key (ms_objects s).
Proof.
  unfold drop_entry, remove_native_memory_cache_entry. destruct (ms_objects s !! key) eqn:E; [done |].
  by rewrite delete_id.
Qed.
Lemma drop_entry_index key s other :
  is_Some (ms_objects s !! key) \/ pi_entries (ms_purge_index s) !! key = None ->
  pi_entries (ms_purge_index (drop_entry key s)) !! other
  = if decide (other = key) then None else pi_entries (ms_purge_index s) !! other.
Proof.
  unfold drop_entry, remove_native_memory_cache_entry. destruct (ms_objects s !! key) eqn:E; cbn.
  - intros _. apply remove_combined_lookup.
  - intros [[? [=]] | Hn]. case_decide; [by subst | done].
Qed.
Lemma shrinks_drop key s : shrinks s (drop_entry key s).
Proof.
  unfold drop_entry, remove_native_memory_cache_entry. destruct (ms_objects s !! key) as [e |] eqn:E; [| done].
  split; cbn.
  - apply delete_subseteq.
  - intros k variants'. rewrite lookup_omap. destruct (ms_variants s !! k) as [variants |] eqn:Ev; [| done]. cbn.
    case_bool_decide; [done |]. intros [= <-]. exists variants. split; [done |].
    intros v Hv%elem_of_List_filter. by destruct Hv.
  - intros k Hk. rewrite remove_combined_lookup. case_decide; [| done]. subst. rewrite lookup_delete_eq in Hk. by destruct Hk.
  - apply purge_wf_remove.
  - intros [Hb Hn Hf]. pose proof (weight_le _ _ _ Hn E). pose proof (Hn _ _ E). cbn in *. split; cbn.
    + rewrite (weights_delete _ _ _ E), Hb. unfold saturating_sub. lia.
    + by apply map_Forall_delete.
    + rewrite (weights_delete _ _ _ E). lia.
Qed.

Definition weighed (objects : gmap (list Z) NativeMemoryCacheEntry) : Prop := map_Forall (fun _ entry => 0 <= me_weight entry) objects.
Lemma weighed_subseteq (objects objects' : gmap (list Z) NativeMemoryCacheEntry) :
  objects' ⊆ objects -> weighed objects -> weighed objects'.
Proof. intros Hs Hn key e He. apply (Hn key). by eapply lookup_weaken. Qed.

(** Entries are taken out and their weight is reported, to be taken off later. *)
Record removes (s s' : NativeMemoryCacheState) (removed removed' : Z) : Prop := {
  rm_objects : ms_objects s' ⊆ ms_objects s;
  rm_variants : forall key variants', ms_variants s' !! key = Some variants' ->
    exists variants, ms_variants s !! key = Some variants /\ variants' ⊆ variants;
  rm_index : forall key, is_Some (ms_objects s' !! key) ->
    pi_entries (ms_purge_index s') !! key = pi_entries (ms_purge_index s) !! key;
  rm_wf : purge_wf (ms_purge_index s) -> purge_wf (ms_purge_index s');
  rm_bytes : ms_bytes s' = ms_bytes s;
  rm_weight : weighed (ms_objects s) -> removed + weights (ms_objects s) <= U64_MAX ->
    removed <= removed' /\ removed' + weights (ms_objects s') = removed + weights (ms_objects s);
}.
Lemma removes_refl s removed : removes s s removed removed.
Proof. split; try done. intros key variants' E. by exists variants'. Qed.
Lemma removes_trans s1 s2 s3 n1 n2 n3 : removes s1 s2 n1 n2 -> removes s2 s3 n2 n3 -> removes s1 s3 n1 n3.
Proof.
  intros [Ho Hv Hi Hw Hb He] [Ho' Hv' Hi' Hw' Hb' He']. split; auto.
  - by trans (ms_objects s2).
  - intros key v3 (v2 & E2 & Hs2)%Hv'. apply Hv in E2 as (v1 & E1 & Hs1). exists v1. split; [done | by trans v2].
  - intros key Hk. rewrite Hi' by done. apply Hi. destruct Hk as [e Hk]. exists e. by eapply lookup_weaken.
  - congruence.
  - intros Hn Hf. specialize (He Hn Hf). specialize (He' (weighed_subseteq _ _ Ho Hn)). lia.
Qed.
(** Taking the reported weight off makes the count exact again. *)
Lemma removes_shrinks s s' removed :
  removes s s' 0 removed -> shrinks s (with_bytes (saturating_sub (ms_bytes s') removed) s').
Proof.
  intros [Ho Hv Hi Hw Hb He]. split; try done. intros [Eb Hn Hf]. specialize (He Hn ltac:(lia)).
  pose proof (weighed_subseteq _ _ Ho Hn) as Hn'. pose proof (weights_nonneg _ Hn').
  split; cbn; [| done | lia]. rewrite Hb, Eb. unfold saturating_sub. lia.
Qed.
Lemma removes_fold {A} (step : NativeMemoryCacheState * Z -> A -> NativeMemoryCacheState * Z) l s n :
  (forall s n x, removes s (step (s, n) x).1 n (step (s, n) x).2) ->
  removes s (fold_left step l (s, n)).1 n (fold_left step l (s, n)).2.
Proof.
  intros Hs. revert s n. induction l as [| x l IH]; intros s n; [apply removes_refl |]. cbn [fold_left].
  specialize (Hs s n x). destruct (step (s, n) x) as [s1 n1]. by eapply removes_trans; [exact Hs | apply IH].
Qed.
Lemma remove_variant_removes s n variant : removes s (remove_variant (s, n) variant).1 n (remove_variant (s, n) variant).2.
Proof.
  unfold remove_variant. destruct (ms_objects s !! va_key variant) as [e |] eqn:E; [| apply removes_refl]. split; cbn.
  - apply delete_subseteq.
  - intros key variants' Ev. by exists variants'.
  - intros k Hk. rewrite remove_combined_lookup. case_decide; [| done]. subst. rewrite lookup_delete_eq in Hk. by destruct Hk.
  - apply purge_wf_remove.
  - done.
  - intros Hn Hf. rewrite (weights_delete _ _ _ E). pose proof (weight_le _ _ _ Hn E). pose proof (Hn _ _ E). cbn in *.
    unfold saturating_add. lia.
Qed.
Lemma remove_variants_removes base_key s :
  removes s (remove_native_memory_cache_variants base_key s).1 0 (remove_native_memory_cache_variants base_key s).2.
Proof.
  unfold remove_native_memory_cache_variants. destruct (ms_variants s !! base_key) as [variants |] eqn:E; [| apply removes_refl].
  eapply removes_trans; [| apply removes_fold, remove_variant_removes]. split; cbn; try done.
  intros key variants' [_ Ev]%lookup_delete_Some. by exists variants'.
Qed.
Lemma remove_expired_removes s n key : removes s (remove_expired (s, n) key).1 n (remove_expired (s, n) key).2.
Proof.
  unfold remove_expired, remove_native_memory_cache_entry. cbn [fst snd].
  destruct (ms_objects s !! key) as [e |] eqn:E; [| apply removes_refl]. pose proof (shrinks_drop key s) as [Ho Hv Hi Hw _].
  unfold drop_entry, remove_native_memory_cache_entry in Ho, Hv, Hi, Hw. rewrite E in Ho, Hv, Hi, Hw. split; try done.
  intros Hn Hf. cbn. rewrite (weights_delete _ _ _ E). pose proof (weight_le _ _ _ Hn E). pose proof (Hn _ _ E). cbn in *.
  unfold saturating_add. lia.
Qed.

(** ** Pruning, looking up and purging take entries out *)

Lemma shrinks_drop_variants base_key s :
  let '(s', removed) := remove_native_memory_cache_variants base_key s in
  shrinks s (with_bytes (saturating_sub (ms_bytes s') removed) s').
Proof.
  pose proof (remove_variants_removes base_key s) as Hr.
  destruct (remove_native_memory_cache_variants base_key s) as [s' removed]. by apply removes_shrinks.
Qed.
Lemma shrinks_evict max_bytes aged s : shrinks s (evict_by_age max_bytes aged s).
Proof.
  revert s. induction aged as [| [age key] aged IH]; intros s; cbn [evict_by_age]; [done |]. destruct (_ <=? _); [done |].
  trans (drop_entry key s); [apply shrinks_drop | apply IH].
Qed.
(** Setting the count to what it is changes nothing. *)
Lemma shrinks_recount s : shrinks s (with_bytes (Z.min (ms_bytes s) (actual_bytes (ms_objects s))) s).
Proof.
  split; try done.
  - intros key variants' E. by exists variants'.
  - intros [Hb Hn Hf]. split; cbn; try done. rewrite (actual_bytes_exact _ Hn Hf). lia.
Qed.
Lemma shrinks_cleared s : ms_objects s = ∅ -> shrinks s (with_bytes 0 s).
Proof.
  intros He. split; try done.
  - intros key variants' E. by exists variants'.
  - intros [Hb Hn Hf]. split; cbn; try done. by rewrite He.
Qed.
Lemma shrinks_prune by_age now max_bytes s : shrinks s (prune_native_memory_cache by_age now max_bytes s).
Proof.
  unfold prune_native_memory_cache.
  pose proof (removes_fold remove_expired (expired_keys now s) s 0 remove_expired_removes) as Hr.
  destruct (fold_left remove_expired _ _) as [s1 n]. apply removes_shrinks in Hr. cbn [fst snd] in Hr.
  set (s2 := with_bytes _ s1) in *. clearbody s2. destruct (_ <=? _); [done |]. etrans; [exact Hr |].
  set (aged := by_age _). etrans; [apply (shrinks_evict max_bytes aged) |].
  destruct (bool_decide _ && _) eqn:Ec; [| apply shrinks_recount]. apply andb_true_iff in Ec as [Ee%bool_decide_eq_true _].
  by apply shrinks_cleared.
Qed.
(** Evicting stops at the limit or with nothing left. *)
Lemma evict_bounded max_bytes aged s :
  (forall key, is_Some (ms_objects s !! key) -> key ∈ aged.*2) ->
  ms_bytes (evict_by_age max_bytes aged s) <= max_bytes \/ ms_objects (evict_by_age max_bytes aged s) = ∅.
Proof.
  revert s. induction aged as [| [age key] aged IH]; intros s Hk; cbn [evict_by_age].
  - right. apply map_empty. intros k. destruct (ms_objects s !! k) eqn:E; [| done].
    by destruct (not_elem_of_nil k (Hk k ltac:(by rewrite E))).
  - destruct (Z.leb_spec (ms_bytes s) max_bytes); [by left |]. apply IH. intros k. rewrite drop_entry_objects.
    intros [e [Hne He]%lookup_delete_Some]. specialize (Hk k ltac:(by rewrite He)). cbn in Hk. set_solver.
Qed.
Lemma prune_bounded by_age `{!AgeOrder by_age} now max_bytes s :
  0 <= max_bytes -> exact s -> ms_bytes (prune_native_memory_cache by_age now max_bytes s) <= max_bytes.
Proof.
  intros Hm He. unfold prune_native_memory_cache.
  pose proof (removes_fold remove_expired (expired_keys now s) s 0 remove_expired_removes) as Hr.
  destruct (fold_left remove_expired _ _) as [s1 n]. apply removes_shrinks in Hr. cbn [fst snd] in Hr.
  set (s2 := with_bytes _ s1) in *. clearbody s2. destruct (Z.leb_spec (ms_bytes s2) max_bytes); [done |].
  set (aged := by_age _). destruct (evict_bounded max_bytes aged s2) as [Hb | Hb].
  { intros key [e Hk]. unfold aged. rewrite age_permutation. apply list_elem_of_fmap. exists (me_stored_at e, key).
    split; [done |]. apply list_elem_of_fmap. exists (key, e). split; [done | by apply elem_of_map_to_list]. }
  - destruct (_ && _); cbn; lia.
  - pose proof (sh_exact _ _ (shrinks_evict max_bytes aged s2) (sh_exact _ _ Hr He)) as [Eb _ _]. rewrite Hb in Eb.
    change (weights ∅) with 0 in Eb. destruct (_ && _); cbn; lia.
Qed.

Section Lookups.
Context (variance : list Z -> option (list Z)) (verdict : NativeMemoryCacheEntry -> Found).

Lemma shrinks_find_variant key r variants s : shrinks s (find_variant variance verdict key r variants s).1.
Proof.
  induction variants as [| v variants IH]; cbn [find_variant]; [done |]. case_bool_decide; [| done].
  destruct (ms_objects s !! va_key v) as [e |]; [| done]. destruct (verdict e); try done. apply shrinks_drop.
Qed.
Lemma shrinks_find key r s : shrinks s (find_entry variance verdict key r s).1.
Proof.
  unfold find_entry.
  assert (shrinks s (match ms_variants s !! key with
                     | Some variants => find_variant variance verdict key r variants s
                     | None => (s, None) end).1) as Hs by (destruct (ms_variants s !! key); [apply shrinks_find_variant | done]).
  destruct (match ms_variants s !! key with Some _ => _ | None => _ end) as [s1 found]. cbn [fst] in Hs.
  destruct found; [done |]. destruct (ms_variants s1 !! key); [done |]. destruct (ms_objects s1 !! key) as [e |]; [| done].
  destruct (verdict e); try done. etrans; [exact Hs | apply shrinks_drop].
Qed.
(** What a lookup serves: an entry the verdict accepts, of the key itself or of a
    variant the request selects. *)
Lemma find_variant_serves key r variants s s' entry :
  find_variant variance verdict key r variants s = (s', Some entry) ->
  verdict entry = Serve
  /\ exists v, v ∈ variants /\ native_vary_cache_key variance key (va_fields v) r = Some (va_key v)
               /\ ms_objects s !! va_key v = Some entry.
Proof.
  induction variants as [| v variants IH]; cbn [find_variant]; [done |].
  assert (find_variant variance verdict key r variants s = (s', Some entry) ->
    verdict entry = Serve
    /\ exists w, w ∈ v :: variants /\ native_vary_cache_key variance key (va_fields w) r = Some (va_key w)
                 /\ ms_objects s !! va_key w = Some entry) as IH'.
  { intros (Hv & w & Hw & ?)%IH. split; [done |]. exists w. split; [by right | done]. }
  case_bool_decide as Hk; [| done]. destruct (ms_objects s !! va_key v) as [e |] eqn:E; [| done].
  destruct (verdict e) eqn:Ev; try done. intros [= <- <-]. split; [done |]. exists v. split; [by left | done].
Qed.
Lemma find_serves key r s s' entry :
  find_entry variance verdict key r s = (s', Some entry) ->
  verdict entry = Serve
  /\ (ms_objects s !! key = Some entry
      \/ exists variants v, ms_variants s !! key = Some variants /\ v ∈ variants
           /\ native_vary_cache_key variance key (va_fields v) r = Some (va_key v)
           /\ ms_objects s !! va_key v = Some entry).
Proof.
  unfold find_entry. destruct (ms_variants s !! key) as [variants |] eqn:Ev.
  - pose proof (shrinks_find_variant key r variants s) as Hs.
    destruct (find_variant variance verdict key r variants s) as [s1 [e |]] eqn:Ef; cbn [fst] in Hs.
    + intros [= <- <-]. apply find_variant_serves in Ef as (Hv & v & Hin & Hk & He). split; [done |]. right. by exists variants, v.
    + destruct (ms_variants s1 !! key); [done |]. destruct (ms_objects s1 !! key) as [e |] eqn:E; [| done].
      destruct (verdict e) eqn:Ee; try done. intros [= <- <-]. split; [done |]. left. eapply lookup_weaken; [done | apply Hs].
  - rewrite Ev. destruct (ms_objects s !! key) as [e |] eqn:E; [| done]. destruct (verdict e) eqn:Ee; try done.
    intros [= <- <-]. split; [done | by left].
Qed.
End Lookups.

(** ** Purging *)

(** Entries are taken out or made to expire at [now]. *)
Definition faded (now : Z) (entry entry' : NativeMemoryCacheEntry) : Prop :=
  entry' = entry \/ entry' = soft_purge_entry now entry.
Record fades (now : Z) (s s' : NativeMemoryCacheState) : Prop := {
  fa_objects : forall key entry', ms_objects s' !! key = Some entry' ->
    exists entry, ms_objects s !! key = Some entry /\ faded now entry entry';
  fa_variants : forall key variants', ms_variants s' !! key = Some variants' ->
    exists variants, ms_variants s !! key = Some variants /\ variants' ⊆ variants;
  fa_index : forall key, is_Some (ms_objects s' !! key) ->
    pi_entries (ms_purge_index s') !! key = pi_entries (ms_purge_index s) !! key;
  fa_wf : purge_wf (ms_purge_index s) -> purge_wf (ms_purge_index s');
  fa_exact : exact s -> exact s';
}.
Lemma shrinks_fades now s s' : shrinks s s' -> fades now s s'.
Proof.
  intros [Ho Hv Hi Hw He]. split; try done. intros key e' Hk. exists e'. split; [by eapply lookup_weaken | by left].
Qed.
Lemma soft_purge_twice now now' entry : soft_purge_entry now (soft_purge_entry now' entry) = soft_purge_entry now entry.
Proof. done. Qed.
#[export] Instance fades_preorder now : PreOrder (fades now).
Proof.
  split; [intros s; by apply shrinks_fades |].
  intros s1 s2 s3 [Ho Hv Hi Hw He] [Ho' Hv' Hi' Hw' He']. split; auto.
  - intros key e3 (e2 & E2 & F2)%Ho'. apply Ho in E2 as (e1 & E1 & F1). exists e1. split; [done |].
    destruct F1 as [-> | ->], F2 as [-> | ->]; rewrite ?soft_purge_twice; unfold faded; tauto.
  - intros key v3 (v2 & E2 & Hs2)%Hv'. apply Hv in E2 as (v1 & E1 & Hs1). exists v1. split; [done | by trans v2].
  - intros key Hk. rewrite Hi' by done. apply Hi. destruct Hk as [e Hk]. apply Ho' in Hk as (e2 & E2 & _). by exists e2.
Qed.
Lemma shrinks_forget_index key s : ms_objects s !! key = None -> shrinks s (forget_index key s).
Proof.
  intros Hn. split; cbn; try done.
  - intros k variants' E. by exists variants'.
  - intros k Hk. rewrite remove_combined_lookup. case_decide; [| done]. subst. rewrite Hn in Hk. by destruct Hk.
  - apply purge_wf_remove.
  - intros [? ? ?]. by split.
Qed.
Lemma fades_soft now key entry s :
  ms_objects s !! key = Some entry -> fades now s (with_objects (<[key := soft_purge_entry now entry]> (ms_objects s)) s).
Proof.
  intros E. split; cbn; try done.
  - intros k e'. rewrite lookup_insert_Some. intros [[<- <-] | [_ Hk]]; [exists entry; by split; [| right] |].
    exists e'. by split; [| left].
  - intros k variants' Ev. by exists variants'.
  - intros [Hb Hn Hf]. pose proof (weights_replace key entry (soft_purge_entry now entry) (ms_objects s) E) as Hw. cbn in Hw.
    split; cbn; [lia | | lia]. intros k e'. rewrite lookup_insert_Some. intros [[<- <-] | [_ Hk]]; [exact (Hn key entry E) | exact (Hn k e' Hk)].
Qed.
Lemma fades_purge_indexed now soft s n e : fades now s (purge_indexed now soft (s, n) e).1.
Proof.
  unfold purge_indexed. destruct (ms_objects s !! pe_combined_key e) as [object |] eqn:E; cbn [fst].
  - destruct soft; [by apply fades_soft | apply shrinks_fades, shrinks_drop].
  - by apply shrinks_fades, shrinks_forget_index.
Qed.
Lemma fades_purge_all now entries soft s : fades now s (purge_native_memory_indexed_entries now entries soft s).1.
Proof.
  unfold purge_native_memory_indexed_entries. assert (forall n, fades now s (fold_left (purge_indexed now soft) entries (s, n)).1) as Hf.
  { revert s. induction entries as [| e entries IH]; intros s n; [done |]. cbn [fold_left].
    pose proof (fades_purge_indexed now soft s n e) as H1. destruct (purge_indexed now soft (s, n) e) as [s1 n1].
    etrans; [exact H1 | apply IH]. }
  specialize (Hf 0). by destruct (fold_left (purge_indexed now soft) entries (s, 0)).
Qed.
Lemma shrinks_purge_stale now entries dry_run s : shrinks s (purge_native_memory_stale_entries now entries dry_run s).1.
Proof.
  unfold purge_native_memory_stale_entries. generalize (mkStalePurge 0 0 0) as count. revert s.
  induction entries as [| e entries IH]; intros s count; [done |]. cbn [fold_left].
  assert (shrinks s (purge_stale now dry_run (s, count) e).1) as H1.
  { unfold purge_stale. destruct (ms_objects s !! pe_combined_key e) eqn:E; [| by apply shrinks_forget_index].
    destruct (_ <? _); [done |]. destruct dry_run; [done | apply shrinks_drop]. }
  destruct (purge_stale now dry_run (s, count) e) as [s1 c1]. etrans; [exact H1 | apply IH].
Qed.
Lemma shrinks_purge_primary primary combined s : shrinks s (purge_native_memory_state_primary primary combined s).1.
Proof.
  unfold purge_native_memory_state_primary. cbv zeta.
  assert (shrinks s (if negb (bool_decide (primary = combined)) then drop_entry primary (drop_entry combined s)
                     else drop_entry combined s)) as H1.
  { destruct (negb _); [etrans; [apply shrinks_drop | apply shrinks_drop] | apply shrinks_drop]. }
  set (s1 := if negb _ then _ else _) in *. clearbody s1. pose proof (shrinks_drop_variants primary s1) as H2.
  destruct (remove_native_memory_cache_variants primary s1) as [s2 removed]. cbn [fst].
  etrans; [exact H1 |]. etrans; [exact H2 |]. by apply shrinks_same.
Qed.

(** ** Storing *)

(** What a store changes, once it has taken out what it replaces. *)
Record inserted (tag key : list Z) (plan : StorePlan) (s s' : NativeMemoryCacheState) : Prop := {
  in_objects : ms_objects s' = <[sp_store_key plan := sp_entry plan]> (ms_objects s);
  in_new : ms_objects s !! sp_store_key plan = None;
  in_variants : forall k variants', ms_variants s' !! k = Some variants' ->
    forall v, v ∈ variants' -> (exists variants, ms_variants s !! k = Some variants /\ v ∈ variants)
      \/ k = key /\ va_key v = sp_store_key plan /\ sp_vary_fields plan = Some (va_fields v);
  in_index : ms_purge_index s'
    = insert_with_path_and_tags (sp_store_key plan) key tag (Some (sp_path plan)) (sp_cache_tags plan) (ms_purge_index s);
  in_bytes : ms_bytes s' = saturating_add U64_MAX (ms_bytes s) (me_weight (sp_entry plan));
}.
Lemma store_inserts tag key plan s : exists mid, shrinks s mid /\ inserted tag key plan mid (store_insert tag key plan s).
Proof.
  unfold store_insert. cbv zeta. destruct (sp_vary_fields plan) as [fields |] eqn:Ef.
  - set (mid := drop_entry (sp_store_key plan) (drop_entry key s)).
    assert (ms_objects mid !! sp_store_key plan = None) as Hn by (unfold mid; rewrite drop_entry_objects; apply lookup_delete_eq).
    exists mid. split; [etrans; [apply shrinks_drop | apply shrinks_drop] |]. clearbody mid. cbn. rewrite Hn. split; cbn; try done.
    intros k variants'. rewrite lookup_insert_Some. intros [[<- <-] | [_ Hk]] v Hv; [| left; by exists variants'].
    apply elem_of_app in Hv as [Hv | ->%list_elem_of_singleton]; [| by right].
    apply elem_of_List_filter in Hv as [Hv _]. destruct (ms_variants mid !! key) as [variants |]; cbn in Hv.
    + left. by exists variants.
    + by apply not_elem_of_nil in Hv.
  - pose proof (shrinks_drop_variants key s) as Hs. destruct (remove_native_memory_cache_variants key s) as [s1 removed].
    set (mid := drop_entry (sp_store_key plan) _).
    assert (ms_objects mid !! sp_store_key plan = None) as Hn by (unfold mid; rewrite drop_entry_objects; apply lookup_delete_eq).
    exists mid. split; [etrans; [exact Hs | apply shrinks_drop] |]. clearbody mid. cbn. rewrite Hn. split; cbn; try done.
    intros k variants' Hk v Hv. left. by exists variants'.
Qed.
Lemma inserted_exact tag key plan s s' :
  inserted tag key plan s s' -> exact s -> 0 <= me_weight (sp_entry plan) ->
  weights (ms_objects s) + me_weight (sp_entry plan) <= U64_MAX -> exact s'.
Proof.
  intros [Ho Hn Hv Hi Hb] [Eb Hw Hf] Hp Hfit. split; rewrite ?Ho, ?Hb.
  - rewrite weights_insert by done. unfold saturating_add. lia.
  - by apply map_Forall_insert_2.
  - rewrite weights_insert by done. lia.
Qed.
