(* ===== verification/MemoryHistory.v ===== *)
(** * What the memory cache serves and purges

    Any interleaving of the critical sections of concurrent requests and purges
    is a list of operations run from the empty cache.  Whatever ran before, a hit
    is a response stored for the same key by a request that agrees on the headers
    the response varies on, and a purge removes all it names. *)
From Stdlib Require Import ZArith Lia.
From stdpp Require Import base list numbers strings sets gmap sorting.
From S2P Require Import Prelude Text LbBackend RequestHeaders UpstreamResponse CacheKey CachePurge CacheControl CacheObject CacheEntry CacheRange MemoryCache MemoryCacheProps.

Inductive CacheOp : Type :=
| OpRecordCacheable (key : list Z)
| OpRecordUncacheable (now : Z) (key : list Z)
| OpMinUses (now : Z) (key : list Z)
| OpPass (now : Z) (key : list Z)
| OpInsert (now : Z) (key : list Z) (r : NativeHttp1Request) (response : NativeHttp1Response)
    (mode : NativeCacheStoreMode) (metadata : NativeProxyCacheStoreMetadata)
| OpPrune (now : Z)
| OpGet (now : Z) (key : list Z) (r : NativeHttp1Request)
| OpGetStale (event : CacheStaleEvent) (now : Z) (key : list Z) (r : NativeHttp1Request)
| OpPurge (select : CachePurgeIndex -> list CachePurgeIndexEntry) (now : Z) (soft : bool)
| OpPurgeStale (select : CachePurgeIndex -> list CachePurgeIndexEntry) (now : Z) (dry_run : bool)
| OpPurgePrimary (primary combined : list Z).

Section History.
Context `{HttpPackage}.
Context (variance : list Z -> option (list Z)) (native_body_sha256 : list Z -> list Z).
Context (first_key : gmap (list Z) NativeMemoryCacheCounter -> option (list Z)).
Context (by_age : list (Z * list Z) -> list (Z * list Z)).
Context (cache : NativeProxyMemoryCache).

(** What a response that passes all checks is stored as. *)
Definition planned (now : Z) (key : list Z) (r : NativeHttp1Request) (response : NativeHttp1Response)
    (mode : NativeCacheStoreMode) (metadata : NativeProxyCacheStoreMetadata) : result StorePlan StoreError :=
  let? (response, headers, vary_fields, ttl) := store_checks cache r response mode metadata in
  store_plan variance native_body_sha256 cache now key r mode metadata response headers vary_fields ttl.
Definition run_op (s : NativeMemoryCacheState) (op : CacheOp) : NativeMemoryCacheState :=
  match op with
  | OpRecordCacheable key => record_cacheable key s
  | OpRecordUncacheable now key => record_uncacheable first_key (pm_predictor cache) now key s
  | OpMinUses now key => (min_uses_allows_store first_key (pm_predictor cache) now key s).1
  | OpPass now key => (cache_pass_should_bypass first_key (pm_predictor cache) now key s).1
  | OpInsert now key r response mode metadata =>
      match planned now key r response mode metadata with
      | Ok plan => if memory_enabled cache then store_insert (user_tag cache) key plan s else s
      | Err _ => s
      end
  | OpPrune now => prune_native_memory_cache by_age now (pm_max_bytes cache) s
  | OpGet now key r => (memory_get variance cache now key r s).1
  | OpGetStale event now key r => (get_stale variance cache event now key r s).1
  | OpPurge select now soft => (purge_selected select now soft s).1
  | OpPurgeStale select now dry_run => (purge_native_memory_stale_entries now (select (ms_purge_index s)) dry_run s).1
  | OpPurgePrimary primary combined => (purge_native_memory_state_primary primary combined s).1
  end.
Definition run (ops : list CacheOp) : NativeMemoryCacheState := fold_left run_op ops memory_new.

(** A store is such operations. *)
Lemma store_is_ops times key r response mode metadata s :
  exists ops, (store_inner variance native_body_sha256 first_key by_age cache times key r response mode metadata s).1
              = fold_left run_op ops s
    /\ Forall (fun op => match op with
                         | OpRecordCacheable k | OpMinUses _ k => k = key
                         | OpPrune _ => True
                         | op => op = OpInsert (tm_now times) key r response mode metadata
                         end) ops.
Proof.
  unfold store_inner. destruct (store_checks cache r response mode metadata) as [[[[resp headers] vary] ttl] | e] eqn:Ec.
  2: { exists []. by split. }
  assert (exists ops, (match mode with
      | ModeOrigin => min_uses_allows_store first_key (pm_predictor cache) (tm_uses times) key (record_cacheable key s)
      | _ => (record_cacheable key s, true) end).1 = fold_left run_op ops s
    /\ Forall (fun op => match op with OpRecordCacheable k | OpMinUses _ k => k = key | _ => False end) ops) as (ops & Eo & Ho).
  { destruct mode; [exists [OpRecordCacheable key; OpMinUses (tm_uses times) key] | exists [OpRecordCacheable key] ..];
      (split; [done | by repeat constructor]). }
  set (pair := match mode with ModeOrigin => _ | _ => _ end) in *. clearbody pair. destruct pair as [s1 allowed]. cbn [fst] in Eo.
  assert (Forall (fun op => match op with
                            | OpRecordCacheable k | OpMinUses _ k => k = key
                            | OpPrune _ => True
                            | op => op = OpInsert (tm_now times) key r response mode metadata end) ops) as Ho'.
  { eapply Forall_impl; [exact Ho |]. by intros []. }
  destruct allowed; cbn [negb]; [| by exists ops].
  destruct (store_plan _ _ _ _ _ _ _ _ _ _ _ _) as [plan | e] eqn:Ep; [| by exists ops].
  assert (planned (tm_now times) key r response mode metadata = Ok plan) as Hp by (unfold planned; by rewrite Ec).
  destruct (memory_enabled cache) eqn:Em; [| by exists ops]. cbn [fst]. unfold prune_if_needed.
  exists (ops ++ OpInsert (tm_now times) key r response mode metadata
            :: (if pm_max_bytes cache <? ms_bytes (store_insert (user_tag cache) key plan s1) then [OpPrune (tm_prune times)] else [])).
  split.
  - rewrite fold_left_app, <- Eo. cbn [fold_left run_op]. rewrite Hp, Em. by destruct (_ <? _).
  - apply Forall_app. split; [done |]. constructor; [done |]. destruct (_ <? _); by repeat constructor.
Qed.

(** ** What the entries are *)

(** The response an entry holds, and how long it may be served stale. *)
Definition content (entry : NativeMemoryCacheEntry) :=
  (to_response entry, me_stale_reuse_forbidden entry, me_stale_while_revalidate_until entry, me_stale_if_error_until entry).
(** What is kept of a response. *)
Definition kept_response (stored : NativeHttp1Response) : NativeHttp1Response :=
  mkResponse (rp_status stored) (rp_reason stored) (cached_proxy_headers stored (pm_config cache))
    (rp_content_length stored) (rp_body stored) false.
(** The end of a stale window of an entry that expires at [expires_at]. *)
Definition stale_window (headers : HeaderMap) (expires_at : Z) (secs : option Z) : option Z :=
  if response_cache_control_stale_reuse_forbidden headers then None else (fun secs => expires_at + secs * NANOS) <$> secs.
Definition kept_as (headers : HeaderMap) (stored : NativeHttp1Response) (expires_at : Z) :=
  (kept_response stored, response_cache_control_stale_reuse_forbidden headers,
   stale_window headers expires_at (cc_stale_while_revalidate_secs (pm_config cache)),
   stale_window headers expires_at (cc_stale_if_error_secs (pm_config cache))).
(** One of the operations stored [plan] under [key]. *)
Definition stored_by (ops : list CacheOp) (key : list Z) (r : NativeHttp1Request) (plan : StorePlan) : Prop :=
  exists now response mode metadata,
    OpInsert now key r response mode metadata ∈ ops /\ planned now key r response mode metadata = Ok plan.
Definition purge_entry_of (key : list Z) (plan : StorePlan) : CachePurgeIndexEntry :=
  mkPurgeEntry (sp_store_key plan) key (user_tag cache) (Some (sp_path plan)) (sp_cache_tags plan).
(** Every entry was stored by one of the operations, and is indexed as it was
    stored; its expiry is its own or not after [time]. *)
Record sound (time : Z) (ops : list CacheOp) (s : NativeMemoryCacheState) : Prop := {
  so_entry : forall k entry, ms_objects s !! k = Some entry ->
    exists key r plan, stored_by ops key r plan /\ sp_store_key plan = k /\ content entry = content (sp_entry plan)
      /\ (me_expires_at entry = me_expires_at (sp_entry plan) \/ me_expires_at entry <= time)
      /\ pi_entries (ms_purge_index s) !! k = Some (purge_entry_of key plan);
  so_variant : forall key variants v, ms_variants s !! key = Some variants -> v ∈ variants ->
    exists r plan, stored_by ops key r plan /\ sp_store_key plan = va_key v /\ sp_vary_fields plan = Some (va_fields v);
  so_wf : purge_wf (ms_purge_index s);
}.
Lemma stored_by_app ops ops' key r plan : stored_by ops key r plan -> stored_by (ops ++ ops') key r plan.
Proof. intros (now & response & mode & metadata & Hin & Hp). exists now, response, mode, metadata. set_solver. Qed.
Lemma sound_more time ops ops' s : sound time ops s -> sound time (ops ++ ops') s.
Proof.
  intros [He Hv Hw]. split; [| | done].
  - intros k entry (key & r & plan & Hs & ?)%He. exists key, r, plan. split; [by apply stored_by_app | done].
  - intros key variants v Hk Hin. destruct (Hv key variants v Hk Hin) as (r & plan & Hs & ?). exists r, plan.
    split; [by apply stored_by_app | done].
Qed.
Lemma sound_fades time now ops s s' : now <= time -> fades now s s' -> sound time ops s -> sound time ops s'.
Proof.
  intros Hnow [Fo Fv Fi Fw _] [He Hv Hw]. split; [| | by apply Fw].
  - intros k e' Hk. rewrite Fi by (by rewrite Hk). apply Fo in Hk as (e & Ek & Hf).
    destruct (He k e Ek) as (key & r & plan & Hs & Hkey & Hc & Ht & Hi). exists key, r, plan.
    destruct Hf as [-> | ->]; split_and!; try done. right. done.
  - intros key variants' v Hk Hin. apply Fv in Hk as (variants & Ek & Hsub). by apply (Hv key variants); [| apply Hsub].
Qed.
Lemma sound_shrinks time ops s s' : shrinks s s' -> sound time ops s -> sound time ops s'.
Proof. intros Hs. by eapply (sound_fades time time), shrinks_fades. Qed.
Lemma sound_inserted time ops now key r response mode metadata plan s s' :
  OpInsert now key r response mode metadata ∈ ops -> planned now key r response mode metadata = Ok plan ->
  inserted (user_tag cache) key plan s s' -> sound time ops s -> sound time ops s'.
Proof.
  intros Hin Hp [Ho Hn Iv Hi _] [He Hv Hw]. assert (stored_by ops key r plan) as Hby by (by exists now, response, mode, metadata).
  split.
  - intros k e. rewrite Ho, Hi. intros [[<- <-] | [Hne Hk]]%lookup_insert_Some.
    + exists key, r, plan. split_and!; try done; [by left |]. unfold insert_with_path_and_tags.
      destruct (pi_entries (ms_purge_index s) !! sp_store_key plan); cbn; apply lookup_insert_eq.
    + destruct (He k e Hk) as (key0 & r0 & plan0 & Hs & Hkey & Hc & Ht & Hx). exists key0, r0, plan0. split_and!; try done.
      unfold insert_with_path_and_tags. destruct (pi_entries (ms_purge_index s) !! sp_store_key plan); cbn;
        by rewrite lookup_insert_ne.
  - intros k variants' v Hk Hin'. destruct (Iv k variants' Hk v Hin') as [(variants & E & Hv') | (-> & E & Ef)].
    + by apply (Hv k variants).
    + exists r, plan. by split_and!.
  - rewrite Hi. by apply purge_wf_insert.
Qed.
(** No purge happened after [time]. *)
Definition op_before (time : Z) (op : CacheOp) : Prop := match op with OpPurge _ now _ => now <= time | _ => True end.
Lemma run_op_sound time ops s op : op ∈ ops -> op_before time op -> sound time ops s -> sound time ops (run_op s op).
Proof using Type.
  intros Hin Hb Hs. destruct op as [key | now key | now key | now key | now key r response mode metadata | now | now key r
    | event now key r | select now soft | select now dry_run | primary combined]; cbn [run_op].
  - eapply sound_shrinks; [| done]. by apply shrinks_same.
  - eapply sound_shrinks; [| done]. unfold record_uncacheable. destruct (_ && _); [done |].
    destruct (native_predictor_counter_uses _ _ _). by apply shrinks_same.
  - eapply sound_shrinks; [| done]. unfold min_uses_allows_store. destruct (_ <=? _); [done |].
    destruct (native_predictor_counter_uses _ _ _). destruct (_ <=? _); by apply shrinks_same.
  - eapply sound_shrinks; [| done]. unfold cache_pass_should_bypass. destruct (_ || _); [| done].
    destruct (native_predictor_counter_uses _ _ _). by apply shrinks_same.
  - destruct (planned now key r response mode metadata) as [plan |] eqn:Ep; [| done]. destruct (memory_enabled cache); [| done].
    destruct (store_inserts (user_tag cache) key plan s) as (mid & Hsh & Hi).
    eapply sound_inserted; [done | done | done |]. by eapply sound_shrinks.
  - eapply sound_shrinks; [apply shrinks_prune | done].
  - eapply sound_shrinks; [| done]. unfold memory_get. destruct (memory_enabled cache); [apply shrinks_find | done].
  - eapply sound_shrinks; [| done]. unfold get_stale. destruct (negb _); [done |].
    destruct (memory_enabled cache); [apply shrinks_find | done].
  - eapply sound_fades; [exact Hb | apply fades_purge_all | done].
  - eapply sound_shrinks; [apply shrinks_purge_stale | done].
  - eapply sound_shrinks; [apply shrinks_purge_primary | done].
Qed.
Lemma run_sound time ops : Forall (op_before time) ops -> sound time ops (run ops).
Proof using Type.
  intros Hb. unfold run. induction ops as [| op ops IH] using rev_ind.
  - split; [by intros k e; cbn; rewrite lookup_empty | by intros k vs v; cbn; rewrite lookup_empty | apply purge_wf_new].
  - apply Forall_app in Hb as [Hb Hop]. rewrite fold_left_app. cbn [fold_left]. apply run_op_sound; [set_solver | |].
    + by rewrite Forall_singleton in Hop.
    + by apply sound_more, IH.
Qed.

(** ** What a plan is *)

Lemma checks_admitted r response mode metadata stored headers vary ttl :
  store_checks cache r response mode metadata = Ok (stored, headers, vary, ttl) ->
  response_cache_header_policy_rejection headers (pm_config cache) = None.
Proof.
  unfold store_checks. cbv zeta. destruct (_ <? _); [done |]. set (response' := if bool_decide _ then _ else _). clearbody response'.
  set (hs := native_response_header_map response'). destruct (match cache_vary_policy hs (pm_config cache) with
    | VaryNone => _ | VaryFields _ => _ | VaryUncacheable _ => _ end) as [fields |]; [| done].
  destruct (rp_status response' =? 206).
  - destruct (range_response_cache_admission_rejection _ _ _); [done |]. unfold response_range_cache_admission_rejection.
    destruct (negb _); [done |]. destruct (response_cache_header_policy_rejection hs (pm_config cache)) eqn:Er; [done |].
    destruct (ok_or _ _) as [t |]; [| done]. destruct (_ && _); [done |]. destruct (t =? 0); [done |]. by intros [= <- <- <- <-].
  - destruct (range_response_cache_admission_rejection _ _ _); [done |]. unfold response_cache_admission_rejection.
    destruct (_ && _); [done |]. destruct (_ && _); [done |].
    destruct (response_cache_header_policy_rejection hs (pm_config cache)) eqn:Er; [done |].
    destruct (ok_or _ _) as [t |]; [| done]. destruct (_ && _); [done |]. destruct (t =? 0); [done |]. by intros [= <- <- <- <-].
Qed.
Lemma expires_after now ttl swr sie expires_at swr_until sie_until :
  native_cache_expiry_times now ttl swr sie = Some (expires_at, swr_until, sie_until) ->
  expires_at = now + ttl /\ swr_until = (fun secs => expires_at + secs * NANOS) <$> swr
  /\ sie_until = (fun secs => expires_at + secs * NANOS) <$> sie.
Proof.
  unfold native_cache_expiry_times, time_checked_add. destruct (now + ttl <=? TIME_MAX); [| done].
  destruct swr; [destruct (_ <=? _); [| done] |]; (destruct sie; [destruct (_ <=? _); [| done] |]);
    intros [= <- <- <-]; done.
Qed.
Lemma planned_spec now key r response mode metadata plan :
  planned now key r response mode metadata = Ok plan ->
  exists stored headers ttl,
    store_checks cache r response mode metadata = Ok (stored, headers, sp_vary_fields plan, ttl)
    /\ me_expires_at (sp_entry plan) = now + ttl
    /\ content (sp_entry plan) = kept_as headers stored (now + ttl)
    /\ match sp_vary_fields plan with
       | Some fields => native_vary_cache_key variance key fields r = Some (sp_store_key plan)
       | None => sp_store_key plan = key
       end.
Proof.
  unfold planned. destruct (store_checks cache r response mode metadata) as [[[[stored headers] vary] ttl] |] eqn:Ec; [| done].
  unfold store_plan. cbv zeta.
  assert (forall store_key, match vary with
      | Some fields => ok_or (native_vary_cache_key variance key fields r) StoreVaryInvalid
      | None => Ok key end = Ok store_key ->
    match vary with
    | Some fields => native_vary_cache_key variance key fields r = Some store_key
    | None => store_key = key end) as Hk.
  { intros store_key. destruct vary as [fields |]; [| congruence].
    destruct (native_vary_cache_key variance key fields r); cbn; congruence. }
  destruct (match vary with Some _ => _ | None => _ end) as [store_key |]; [| done]. specialize (Hk store_key eq_refl).
  destruct (native_cache_expiry_times now ttl _ _) as [[[expires_at swr] sie] |] eqn:Ee; [| done].
  apply expires_after in Ee as (-> & -> & ->).
  cbn [ok_or]. destruct (_ && _); [done |]. intros [= <-]. exists stored, headers, ttl. split_and!; try done.
  unfold content, kept_as, stale_window. cbn. by destruct (response_cache_control_stale_reuse_forbidden headers).
Qed.

(** ** Hits *)

(** Fewer headers than [2^32], none as long as [2^64]. *)
Definition small_request (r : NativeHttp1Request) : Prop :=
  zlen (rq_headers r) <= U32_MAX /\ Forall (fun h : header => zlen h.2 <= U64_MAX) (rq_headers r).
Definition op_small (op : CacheOp) : Prop :=
  match op with
  | OpInsert now key r response mode metadata =>
      last key = Some 59 /\ small_request r
      /\ forall stored headers fields ttl,
           store_checks cache r response mode metadata = Ok (stored, headers, Some fields, ttl) ->
           Forall (fun field : list Z => zlen field <= U64_MAX) fields
  | _ => True
  end.
Lemma small_fields r fields :
  small_request r -> Forall (fun field : list Z => zlen field <= U64_MAX) fields ->
  Forall field_sizes (vary_field_values (rq_headers r) <$> fields).
Proof.
  intros [Hc Hv] Hf. apply Forall_fmap. eapply Forall_impl; [exact Hf |]. intros field Hz. unfold field_sizes, vary_field_values. cbn.
  assert (forall f : header -> bool, zlen (snd <$> List.filter f (rq_headers r)) <= U32_MAX
    /\ Forall (fun v : list Z => zlen v <= U64_MAX) (snd <$> List.filter f (rq_headers r))) as Hg; [| by split_and!; [| apply Hg ..]].
  intros f. split.
  - unfold zlen in *. rewrite length_fmap. pose proof (List.filter_length_le f (rq_headers r)). lia.
  - apply Forall_fmap, Forall_forall. intros h [Hin _]%elem_of_List_filter. rewrite Forall_forall in Hv. by apply Hv.
Qed.

Section Hits.
Context `{!DigestText variance}.

(** A plan for the entry a request selects was made for the same key, by a request
    with the same values of the headers it varies on. *)
Lemma selected_plan ops time key r k r0 key0 plan :
  Forall op_small ops -> sound time ops (run ops) -> small_request r -> last key = Some 59 ->
  (k = key \/ exists variants v, ms_variants (run ops) !! key = Some variants /\ v ∈ variants
     /\ native_vary_cache_key variance key (va_fields v) r = Some (va_key v) /\ va_key v = k) ->
  stored_by ops key0 r0 plan -> sp_store_key plan = k ->
  key0 = key
  /\ (collision variance \/ forall field, field ∈ default [] (sp_vary_fields plan) ->
        vary_field_values (rq_headers r0) field = vary_field_values (rq_headers r) field).
Proof using DigestText0.
  intros Hsmall Hsound Hr Hl Hsel (now & response & mode & metadata & Hin & Hp) Hk.
  rewrite Forall_forall in Hsmall. destruct (Hsmall _ Hin) as (Hl0 & Hr0 & Hf0).
  destruct (planned_spec _ _ _ _ _ _ _ Hp) as (stored & headers & ttl & Hc & _ & _ & Hkey). rewrite Hk in Hkey.
  destruct Hsel as [-> | (variants & v & Hv & Hvin & Hvk & <-)].
  - destruct (sp_vary_fields plan) as [fields |]; [by apply (vary_key_last variance) in Hkey |]. split; [done |]. right.
    by intros field ?%not_elem_of_nil.
  - destruct (sp_vary_fields plan) as [fields |]; [| by apply (vary_key_last variance) in Hvk; rewrite Hkey in Hvk].
    destruct (so_variant _ _ _ Hsound key variants v Hv Hvin) as (r1 & plan1 & (now1 & resp1 & mode1 & meta1 & Hin1 & Hp1) & _ & Hf1).
    destruct (Hsmall _ Hin1) as (_ & _ & Hs1). destruct (planned_spec _ _ _ _ _ _ _ Hp1) as (st1 & hd1 & ttl1 & Hc1 & _).
    rewrite Hf1 in Hc1. apply Hs1 in Hc1. apply Hf0 in Hc.
    destruct (vary_key_exact variance key0 key fields (va_fields v) r0 r (va_key v) Hkey Hvk) as [-> He];
      [by apply small_fields | by apply small_fields |]. split; [done |]. destruct He as [He | ?]; [right | by left].
    intros field Hfield. cbn in Hfield. apply list_elem_of_lookup in Hfield as [i Hi].
    assert (Some (vary_field_values (rq_headers r0) field) = vary_field_values (rq_headers r) <$> (va_fields v !! i)) as Ei.
    { rewrite <- list_lookup_fmap, <- He, list_lookup_fmap, Hi. done. }
    destruct (va_fields v !! i) as [field' |]; [| done]. cbn in Ei. injection Ei as Ei1 Ei2.
    unfold vary_field_values. rewrite Ei2, Ei1. done.
Qed.
(** One of the operations stored what the entry holds, under this key, for a request
    with the same values of all the headers it varies on. *)
Definition served (time : Z) (ops : list CacheOp) (key : list Z) (r : NativeHttp1Request) (entry : NativeMemoryCacheEntry)
    : Prop :=
  exists now r0 response mode metadata stored headers vary ttl,
    OpInsert now key r0 response mode metadata ∈ ops
    /\ store_checks cache r0 response mode metadata = Ok (stored, headers, vary, ttl)
    /\ response_cache_header_policy_rejection headers (pm_config cache) = None
    /\ (me_expires_at entry = now + ttl \/ me_expires_at entry <= time)
    /\ content entry = kept_as headers stored (now + ttl)
    /\ (collision variance \/ forall field, field ∈ default [] vary ->
          vary_field_values (rq_headers r0) field = vary_field_values (rq_headers r) field).
Lemma find_served verdict time ops key r s' entry :
  Forall (op_before time) ops -> Forall op_small ops -> last key = Some 59 -> small_request r ->
  find_entry variance verdict key r (run ops) = (s', Some entry) -> verdict entry = Serve /\ served time ops key r entry.
Proof using DigestText0.
  intros Hb Hsmall Hl Hr. pose proof (run_sound time ops Hb) as Hsound. intros [Hserve Hsel]%find_serves. split; [done |].
  assert (exists k, ms_objects (run ops) !! k = Some entry
    /\ (k = key \/ exists variants v, ms_variants (run ops) !! key = Some variants /\ v ∈ variants
          /\ native_vary_cache_key variance key (va_fields v) r = Some (va_key v) /\ va_key v = k)) as (k & He & Hk).
  { destruct Hsel as [He | (variants & v & Hv & Hin & Hvk & He)]; [exists key; auto |]. exists (va_key v).
    split; [done |]. right. by exists variants, v. }
  destruct (so_entry _ _ _ Hsound k entry He) as (key0 & r0 & plan & Hby & Hstore & Hcontent & Ht & _).
  destruct (selected_plan ops time key r k r0 key0 plan Hsmall Hsound Hr Hl Hk Hby Hstore) as [-> Hvary].
  destruct Hby as (now0 & response & mode & metadata & Hin & Hp).
  destruct (planned_spec _ _ _ _ _ _ _ Hp) as (stored & headers & ttl & Hc & Hexp & Hplan & _).
  exists now0, r0, response, mode, metadata, stored, headers, (sp_vary_fields plan), ttl. split_and!; try done.
  - by eapply checks_admitted.
  - by rewrite <- Hexp.
  - by rewrite Hcontent.
Qed.
End Hits.

(** ** Purges *)

Lemma purge_hard_objects now entries n s k :
  ms_objects (fold_left (purge_indexed now false) entries (s, n)).1 !! k
  = if bool_decide (k ∈ pe_combined_key <$> entries) then None else ms_objects s !! k.
Proof.
  revert s n. induction entries as [| e entries IH]; intros s n; [done |]. cbn [fold_left].
  assert (forall k, ms_objects (purge_indexed now false (s, n) e).1 !! k
                    = if decide (k = pe_combined_key e) then None else ms_objects s !! k) as H1.
  { intros k'. unfold purge_indexed. destruct (ms_objects s !! pe_combined_key e) eqn:E; cbn [fst].
    - rewrite drop_entry_objects. destruct (decide (k' = pe_combined_key e)) as [-> |];
        [apply lookup_delete_eq | by rewrite lookup_delete_ne].
    - destruct (decide (k' = pe_combined_key e)) as [-> |]; done. }
  destruct (purge_indexed now false (s, n) e) as [s1 n1]. cbn [fst] in H1. rewrite IH, H1. cbn [fmap list_fmap].
  destruct (decide (k = pe_combined_key e)) as [-> | Hne].
  - rewrite (bool_decide_true (_ ∈ _ :: _)) by (apply elem_of_cons; by left). by case_bool_decide.
  - rewrite (bool_decide_ext (k ∈ pe_combined_key e :: _) (k ∈ pe_combined_key <$> entries)); [done |].
    rewrite elem_of_cons. split; [by intros [? | ?] | by right].
Qed.
End History.
