(* ===== verification/MemoryBounds.v ===== *)
(** * The memory cache keeps within its size

    After every operation of the cache, storing and promoting included, the count
    of bytes is the weight of the entries and within the configured size; what is
    evicted for space is what was stored first. *)
From Stdlib Require Import ZArith Lia.
From stdpp Require Import base list numbers strings sets gmap sorting.
From S2P Require Import Prelude Text RequestHeaders UpstreamResponse CacheKey CachePurge CacheControl CacheObject CacheEntry CacheRange MemoryCache MemoryCacheProps.

Section Bounds.
Context `{HttpPackage}.
Context (variance : list Z -> option (list Z)) (native_body_sha256 : list Z -> list Z).
Context (first_key : gmap (list Z) NativeMemoryCacheCounter -> option (list Z)).
Context (by_age : list (Z * list Z) -> list (Z * list Z)) `{!AgeOrder by_age}.
Context (cache : NativeProxyMemoryCache).

(** The states of a cache whose operations run one after the other. *)
Inductive reachable : NativeMemoryCacheState -> Prop :=
| reach_new : reachable memory_new
| reach_store s times key r response mode metadata :
    reachable s ->
    reachable (store_with_metadata variance native_body_sha256 first_key by_age cache times key r response mode metadata s).1
| reach_not_modified s times key r entry response :
    reachable s ->
    reachable (store_not_modified_revalidated variance native_body_sha256 first_key by_age cache times key r entry response s).1
| reach_promote s now key r entry :
    reachable s -> 0 <= me_weight entry -> reachable (promote_disk_entry variance by_age cache now key r entry s)
| reach_pass s now key : reachable s -> reachable (cache_pass_should_bypass first_key (pm_predictor cache) now key s).1
| reach_get s now key r : reachable s -> reachable (memory_get variance cache now key r s).1
| reach_get_stale s event now key r : reachable s -> reachable (get_stale variance cache event now key r s).1
| reach_purge s select now soft : reachable s -> reachable (purge_selected select now soft s).1
| reach_purge_stale s entries now dry_run :
    reachable s -> reachable (purge_native_memory_stale_entries now entries dry_run s).1
| reach_purge_primary s primary combined :
    reachable s -> reachable (purge_native_memory_state_primary primary combined s).1.

Definition accounted (s : NativeMemoryCacheState) : Prop := exact s /\ ms_bytes s <= pm_max_bytes cache.

Lemma weights_mono (objects objects' : gmap (list Z) NativeMemoryCacheEntry) :
  objects' ⊆ objects -> weighed objects -> weights objects' <= weights objects.
Proof.
  revert objects. induction objects' as [| k e objects' Hk IH] using map_ind; intros objects Hs Hn.
  { by apply weights_nonneg. }
  assert (objects !! k = Some e) as He by (eapply lookup_weaken; [apply lookup_insert_eq | done]).
  rewrite weights_insert by done. pose proof (weights_delete k e objects He).
  assert (weights objects' <= weights (delete k objects)); [| lia]. apply IH; [| by apply map_Forall_delete].
  apply map_subseteq_spec. intros k' e' Hk'. assert (k' <> k) by congruence. rewrite lookup_delete_ne by done.
  eapply lookup_weaken; [| done]. by rewrite lookup_insert_ne.
Qed.
Lemma accounted_shrinks s s' : shrinks s s' -> accounted s -> accounted s'.
Proof.
  intros Hs [He Hb]. pose proof (sh_exact _ _ Hs He) as He'. split; [done |].
  pose proof (weights_mono _ _ (sh_objects _ _ Hs) (ex_nonneg _ He)). rewrite (ex_bytes _ He'). rewrite (ex_bytes _ He) in Hb. lia.
Qed.
Lemma accounted_same s s' :
  ms_objects s' = ms_objects s -> ms_variants s' = ms_variants s -> ms_purge_index s' = ms_purge_index s ->
  ms_bytes s' = ms_bytes s -> accounted s -> accounted s'.
Proof. intros. eapply accounted_shrinks; [by apply shrinks_same | done]. Qed.
Lemma accounted_purge_indexed now soft acc e : accounted acc.1 -> accounted (purge_indexed now soft acc e).1.
Proof.
  destruct acc as [s n]. cbn [fst]. intros Ha. pose proof (fades_purge_indexed now soft s n e) as Hf. unfold purge_indexed in *.
  destruct (ms_objects s !! pe_combined_key e) eqn:E; cbn [fst] in *.
  - destruct soft; [| eapply accounted_shrinks; [apply shrinks_drop | done]].
    split; [apply (fa_exact _ _ _ Hf), Ha | apply Ha].
  - eapply accounted_shrinks; [by apply shrinks_forget_index | done].
Qed.
Lemma accounted_purge select now soft s :
  accounted s -> accounted (purge_selected select now soft s).1.
Proof.
  intros Ha. unfold purge_selected, purge_native_memory_indexed_entries.
  assert (forall entries acc, accounted acc.1 -> accounted (fold_left (purge_indexed now soft) entries acc).1) as Hf.
  { intros entries. induction entries as [| e entries IH]; intros acc Hacc; [done |]. apply IH. by apply accounted_purge_indexed. }
  specialize (Hf (select (ms_purge_index s)) (s, 0) Ha). by destruct (fold_left _ _ _).
Qed.
Lemma accounted_uses_counter now key s :
  accounted s -> accounted (min_uses_allows_store first_key (pm_predictor cache) now key s).1.
Proof.
  unfold min_uses_allows_store. destruct (_ <=? _); [done |]. destruct (native_predictor_counter_uses _ _ _).
  destruct (_ <=? _); by apply accounted_same.
Qed.
Lemma accounted_uncacheable now key s :
  accounted s -> accounted (record_uncacheable first_key (pm_predictor cache) now key s).
Proof.
  unfold record_uncacheable. destruct (_ && _); [done |]. destruct (native_predictor_counter_uses _ _ _). by apply accounted_same.
Qed.

(** ** Storing *)

Context (Hmax : 0 <= pm_max_bytes cache) (Hfits : 2 * pm_max_bytes cache <= U64_MAX).

Lemma prune_accounts now s : exact s -> accounted (prune_if_needed by_age cache now s).
Proof using AgeOrder0 Hmax.
  intros He. unfold prune_if_needed. destruct (Z.ltb_spec (pm_max_bytes cache) (ms_bytes s)); [| done].
  split; [by apply (sh_exact _ _ (shrinks_prune _ _ _ _)) | by apply prune_bounded].
Qed.
Lemma fold_weight_nonneg (headers : list header) (weight : Z) :
  0 <= weight ->
  0 <= fold_left (fun weight (h : header) => saturating_add U64_MAX
         (saturating_add U64_MAX (saturating_add U64_MAX weight (zlen h.1)) (zlen h.2)) 4) headers weight.
Proof.
  revert weight. induction headers as [| h headers IH]; intros weight Hw; [done |]. cbn [fold_left]. apply IH.
  unfold saturating_add, U64_MAX. zlen_facts. lia.
Qed.
Lemma plan_weight now key r mode metadata response headers vary ttl plan :
  memory_enabled cache = true ->
  store_plan variance native_body_sha256 cache now key r mode metadata response headers vary ttl = Ok plan ->
  0 <= me_weight (sp_entry plan) <= pm_max_bytes cache.
Proof.
  intros Hm. unfold store_plan. cbv zeta. destruct (match vary with Some _ => _ | None => _ end) as [store_key |]; [| done].
  destruct (ok_or _ _) as [[[expires_at swr] sie] |]; [| done]. rewrite Hm. cbn [andb].
  destruct (Z.ltb_spec (pm_max_bytes cache) (native_cache_entry_weight store_key response (zlen (rp_body response)))); [done |].
  intros [= <-]. cbn. split; [| done]. unfold native_cache_entry_weight. apply fold_weight_nonneg.
  unfold saturating_add, U64_MAX, ENTRY_OVERHEAD. zlen_facts. lia.
Qed.
Lemma store_inner_accounts times key r response mode metadata s :
  accounted s ->
  accounted (store_inner variance native_body_sha256 first_key by_age cache times key r response mode metadata s).1.
Proof using AgeOrder0 Hmax Hfits.
  intros Ha. unfold store_inner. destruct (store_checks _ _ _ _ _) as [[[[stored headers] vary] ttl] |]; [| done].
  assert (accounted (match mode with
      | ModeOrigin => min_uses_allows_store first_key (pm_predictor cache) (tm_uses times) key (record_cacheable key s)
      | _ => (record_cacheable key s, true) end).1) as H1.
  { assert (accounted (record_cacheable key s)) by (by apply (accounted_same s)). destruct mode; try done.
    by apply accounted_uses_counter. }
  set (pair := match mode with ModeOrigin => _ | _ => _ end) in *. clearbody pair. destruct pair as [s1 allowed]. cbn [fst] in H1.
  destruct allowed; [| done]. cbn [negb]. destruct (store_plan _ _ _ _ _ _ _ _ _ _ _ _) as [plan |] eqn:Ep; [| done].
  destruct (memory_enabled cache) eqn:Em; [| done]. cbn [fst]. apply prune_accounts.
  destruct (plan_weight _ _ _ _ _ _ _ _ _ _ Em Ep) as [Hw1 Hw2].
  destruct (store_inserts (user_tag cache) key plan s1) as (mid & Hsh & Hi). destruct (accounted_shrinks _ _ Hsh H1) as [He Hb].
  eapply inserted_exact; [done | done | done |]. rewrite (ex_bytes _ He) in Hb. lia.
Qed.
Lemma promote_accounts now key r entry s :
  accounted s -> 0 <= me_weight entry -> accounted (promote_disk_entry variance by_age cache now key r entry s).
Proof using AgeOrder0 Hmax Hfits.
  intros [[Hb Hn Hf] Hle] Hw. unfold promote_disk_entry. destruct (negb _ || _) eqn:Eg; [by split; [split |] |].
  apply orb_false_iff in Eg as [_ Hsmall%Z.ltb_ge]. cbv zeta.
  assert (forall s1 store_key, ms_objects s1 = ms_objects s -> ms_bytes s1 = ms_bytes s ->
    accounted (prune_if_needed by_age cache now
      (let s2 := match ms_objects s1 !! store_key with
                 | Some previous => with_bytes (saturating_sub (ms_bytes s1) (me_weight previous)) s1 | None => s1 end in
       let s3 := with_objects (<[store_key := entry]> (ms_objects s2)) s2 in
       with_bytes (saturating_add U64_MAX (ms_bytes s3) (me_weight entry)) s3))) as Hins.
  { intros s1 store_key Eo Eb. apply prune_accounts. rewrite Eo. destruct (ms_objects s !! store_key) as [previous |] eqn:E; cbn.
    - pose proof (weight_le _ _ _ Hn E). pose proof (Hn _ _ E) as Hp. cbn in Hp.
      assert (weights (<[store_key := entry]> (ms_objects s)) = weights (ms_objects s) - me_weight previous + me_weight entry)
        as Hr by (by apply weights_replace).
      split; cbn; rewrite Eo, ?Eb, ?Hr; [unfold saturating_add, saturating_sub; lia | by apply map_Forall_insert_2 | lia].
    - split; cbn; rewrite Eo, ?Eb, ?weights_insert by done;
        [unfold saturating_add; lia | by apply map_Forall_insert_2 | lia]. }
  destruct (cache_vary_policy _ _) as [| fields |]; [by apply Hins | | by split; [split |]].
  destruct (native_vary_cache_key variance key fields r) as [store_key |]; [by apply Hins | by split; [split |]].
Qed.
End Bounds.

(** ** What is evicted *)

Lemma expired_objects keys s n k :
  ms_objects (fold_left remove_expired keys (s, n)).1 !! k = if bool_decide (k ∈ keys) then None else ms_objects s !! k.
Proof.
  revert s n. induction keys as [| key keys IH]; intros s n; [done |]. cbn [fold_left].
  assert (forall k, ms_objects (remove_expired (s, n) key).1 !! k = if decide (k = key) then None else ms_objects s !! k) as H1.
  { intros k'. unfold remove_expired, remove_native_memory_cache_entry. cbn [fst snd].
    destruct (ms_objects s !! key) eqn:E; cbn; destruct (decide (k' = key)) as [-> |]; try done;
      [apply lookup_delete_eq | by rewrite lookup_delete_ne]. }
  destruct (remove_expired (s, n) key) as [s1 n1]. cbn [fst] in H1. rewrite IH, H1.
  destruct (decide (k = key)) as [-> | Hne].
  - rewrite (bool_decide_true (_ ∈ _ :: _)) by (apply elem_of_cons; by left). by case_bool_decide.
  - rewrite (bool_decide_ext (k ∈ key :: keys) (k ∈ keys)); [done |]. rewrite elem_of_cons. split; [by intros [? | ?] | by right].
Qed.
Lemma evict_prefix max_bytes aged s :
  exists n, forall k, ms_objects (evict_by_age max_bytes aged s) !! k
                      = if bool_decide (k ∈ (take n aged).*2) then None else ms_objects s !! k.
Proof.
  revert s. induction aged as [| [age key] aged IH]; intros s; cbn [evict_by_age]; [by exists 0%nat |].
  destruct (_ <=? _); [by exists 0%nat |]. destruct (IH (drop_entry key s)) as [n Hn]. exists (S n). intros k. rewrite Hn.
  rewrite drop_entry_objects. cbn [take fmap list_fmap snd]. destruct (decide (k = key)) as [-> | Hne].
  - rewrite (bool_decide_true (_ ∈ _ :: _)) by (apply elem_of_cons; by left). rewrite lookup_delete_eq. by case_bool_decide.
  - rewrite lookup_delete_ne by done. rewrite (bool_decide_ext (k ∈ key :: (take n aged).*2) (k ∈ (take n aged).*2)); [done |].
    rewrite elem_of_cons. split; [by intros [? | ?] | by right].
Qed.
(** Space is made by age: of the entries that have not expired, pruning keeps none
    that was stored before one it removes. *)
Theorem prune_evicts_oldest (by_age : list (Z * list Z) -> list (Z * list Z)) `{!AgeOrder by_age} (now max_bytes : Z)
    (s : NativeMemoryCacheState) (k k' : list Z) (removed kept : NativeMemoryCacheEntry) :
  ms_objects s !! k = Some removed -> now < stale_until removed ->
  ms_objects (prune_native_memory_cache by_age now max_bytes s) !! k = None ->
  ms_objects (prune_native_memory_cache by_age now max_bytes s) !! k' = Some kept ->
  me_stored_at removed <= me_stored_at kept.
Proof.
  intros Hk Hlive. unfold prune_native_memory_cache. pose proof (expired_objects (expired_keys now s) s 0) as He.
  destruct (fold_left remove_expired (expired_keys now s) (s, 0)) as [s1 n]. cbn [fst] in He.
  assert (ms_objects s1 !! k = Some removed) as Hk1.
  { rewrite He, bool_decide_false; [done |]. intros ([k0 e0] & Hin & E)%list_elem_of_omap.
    destruct (Z.leb_spec (stale_until e0) now); [| done]. injection E as ->. apply elem_of_map_to_list in Hin.
    assert (e0 = removed) as -> by congruence. lia. }
  set (s2 := with_bytes _ s1). assert (ms_objects s2 = ms_objects s1) as E2 by done. clearbody s2.
  destruct (_ <=? _); [congruence |].
  set (aged := by_age _). destruct (evict_prefix max_bytes aged s2) as [m Hm].
  assert (forall s3, ms_objects (if bool_decide (ms_objects s3 = ∅) && (max_bytes <? ms_bytes s3) then with_bytes 0 s3
            else with_bytes (Z.min (ms_bytes s3) (actual_bytes (ms_objects s3))) s3) = ms_objects s3) as Hsame
    by (intros s3; by destruct (_ && _)).
  rewrite !Hsame, !Hm, E2. case_bool_decide as Hin; [| congruence]. intros _. case_bool_decide as Hin'; [done |]. intros Hk'.
  assert (forall x e, ms_objects s1 !! x = Some e -> (me_stored_at e, x) ∈ aged) as Haged.
  { intros x e Hx. unfold aged. rewrite age_permutation. apply list_elem_of_fmap. exists (x, e). split; [done |].
    apply elem_of_map_to_list. by rewrite E2. }
  apply list_elem_of_fmap in Hin as ([age k0] & -> & Hin). cbn [snd] in *.
  assert (age = me_stored_at removed) as ->.
  { assert ((age, k0) ∈ aged) as Ha by (rewrite <- (take_drop m aged); apply elem_of_app; by left). unfold aged in Ha.
    rewrite age_permutation in Ha. apply list_elem_of_fmap in Ha as ([x e] & [= -> ->] & Hx%elem_of_map_to_list).
    rewrite E2 in Hx. congruence. }
  specialize (Haged k' kept Hk'). rewrite <- (take_drop m aged), elem_of_app in Haged. destruct Haged as [Hbad | Hlater].
  { exfalso. apply Hin', list_elem_of_fmap. by exists (me_stored_at kept, k'). }
  pose proof (age_sorted (by_age := by_age) ((fun '(key, entry) => (me_stored_at entry, key)) <$> map_to_list (ms_objects s2))) as Hs.
  fold aged in Hs. rewrite <- (take_drop m aged) in Hs. apply StronglySorted_app in Hs as (Hs & _).
  exact (Hs _ _ Hin Hlater).
Qed.
