(* ===== verification/CacheLookup.v ===== *)
(** * Looking a request up ([fluxheim-cache/src/headers_request.rs],
    [fluxheim-server/src/native_http1_proxy_memory_cache/lookup.rs])

    The rules by which a request bypasses the cache, and the lookup of a request
    in a cache without a disk tier. *)
From Stdlib Require Import ZArith Lia.
From stdpp Require Import base list numbers strings sets gmap sorting.
From S2P Require Import Prelude Text Http1Target LbBackend HostNames RequestHeaders UpstreamResponse CacheKey CachePurge CacheControl CacheObject CacheEntry CacheRange MemoryCache MemoryCacheProps MemoryHistory.

(** ** Bypassing the cache *)

(** The fields of [CacheConfig] about requests. *)
Record CacheBypassConfig : Type := mkBypass {
  by_path_prefixes : list (list Z);
  by_path_exact : list (list Z);
  by_request_headers : list (list Z);
  by_request_header_values : gmap (list Z) (list Z);
  by_cookie_names : list (list Z);
  by_cookie_name_prefixes : list (list Z);
  by_cookie_values : gmap (list Z) (list Z);
  by_query_params : list (list Z);
  by_query_values : gmap (list Z) (list Z);
  by_query : bool;
  by_allow_client_cache_refresh : bool;
}.
Inductive BypassReason : Type :=
| RequestAuthorization | RequestProxyAuthorization | RequestPath | RequestHeader | RequestHeaderValue | RequestCookie
| RequestQuery | RequestNoStore | MethodHead | ProxyIneligible | CachePass | RangeUnsupported | RangeMiss.

Definition contains_header (r : NativeHttp1Request) (name : list Z) : bool := existsb (named name) (rq_headers r).
Definition request_values_match (r : NativeHttp1Request) (name : list Z) (predicate : list Z -> bool) : bool :=
  existsb predicate (request_values r name).

Definition cookie_header_pairs (cookies : list Z) : list (list Z * list Z) :=
  omap (fun part => let* (name, value) := split_once 61 (trim_start part) in
                    if bool_decide (name = []) then None else Some (name, value))
    (split_byte 59 cookies).
Definition is_empty_map (m : gmap (list Z) (list Z)) : bool := bool_decide (m = ∅).
(** [cookie_headers_match_cache_bypass] for one header *)
Definition cookies_match (config : CacheBypassConfig) (cookies : list Z) : bool :=
  existsb
    (fun '(name, value) =>
       existsb (fun configured => bool_decide (configured = name)) (by_cookie_names config)
       || existsb (fun configured => starts_with configured name) (by_cookie_name_prefixes config)
       || bool_decide (by_cookie_values config !! name = Some value))
    (cookie_header_pairs cookies).
Definition request_cookie_headers_match_cache_bypass (r : NativeHttp1Request) (config : CacheBypassConfig) : bool :=
  if bool_decide (by_cookie_names config = []) && bool_decide (by_cookie_name_prefixes config = [])
     && is_empty_map (by_cookie_values config)
  then false else request_values_match r (bs "cookie") (cookies_match config).

(** The loop of [percent_decode_query_component]. *)
Fixpoint percent_decode (bytes : list Z) : option (list Z) :=
  match bytes with
  | [] => Some []
  | byte :: rest =>
      if byte =? 37 then
        match rest with
        | h :: l :: rest =>
            let* high := native_hex_nibble h in
            let* low := native_hex_nibble l in
            let* decoded := percent_decode rest in
            Some (Z.lor (Z.shiftl high 4) low :: decoded)
        | _ => None
        end
      else let* decoded := percent_decode rest in Some (byte :: decoded)
  end.
Definition percent_decode_query_component (component : list Z) : option (list Z) :=
  if negb (contains_byte 37 component) then None
  else let* decoded := percent_decode component in if utf8_valid decoded then Some decoded else None.
Definition query_component_matches_cache_bypass (config : CacheBypassConfig) (name value : list Z) : bool :=
  existsb (fun configured => bool_decide (configured = name)) (by_query_params config)
  || bool_decide (by_query_values config !! name = Some value).
Definition query_part_matches (config : CacheBypassConfig) (part : list Z) : bool :=
  let '(name, value) := default (part, []) (split_once 61 part) in
  let matches_ := query_component_matches_cache_bypass config in
  if bool_decide (name = []) then false
  else
    matches_ name value
    || match percent_decode_query_component name with
       | Some decoded_name =>
           matches_ decoded_name value
           || match percent_decode_query_component value with
              | Some decoded_value => matches_ decoded_name decoded_value
              | None => false
              end
       | None => false
       end
    || match percent_decode_query_component value with
       | Some decoded_value => matches_ name decoded_value
       | None => false
       end.
Definition query_matches_cache_bypass (config : CacheBypassConfig) (query : list Z) : bool :=
  if bool_decide (by_query_params config = []) && is_empty_map (by_query_values config) then false
  else existsb (query_part_matches config) (split_byte 38 query).

Definition request_cache_bypass_reason (r : NativeHttp1Request) (config : CacheBypassConfig) : option BypassReason :=
  let path := cache_request_path (rq_method r) (rq_target r) in
  if contains_header r (bs "authorization") then Some RequestAuthorization
  else if contains_header r (bs "proxy-authorization") then Some RequestProxyAuthorization
  else if existsb (fun configured => bool_decide (configured = path)) (by_path_exact config)
          || existsb (fun configured => starts_with configured path) (by_path_prefixes config) then Some RequestPath
  else if existsb (contains_header r) (by_request_headers config) then Some RequestHeader
  else if existsb (fun '(header, configured) =>
                     request_values_match r header (fun value => bool_decide (value = configured)))
            (map_to_list (by_request_header_values config)) then Some RequestHeaderValue
  else if request_cookie_headers_match_cache_bypass r config then Some RequestCookie
  else if match cache_request_query (rq_method r) (rq_target r) with
          | Some query => by_query config || query_matches_cache_bypass config query
          | None => false
          end then Some RequestQuery
  else if request_values_match r (bs "cache-control") cache_control_forbids_store then Some RequestNoStore
  else None.
Definition request_cache_revalidation_requested (r : NativeHttp1Request) (config : CacheBypassConfig) : bool :=
  by_allow_client_cache_refresh config
  && (request_values_match r (bs "pragma") is_pragma_no_cache
      || request_values_match r (bs "cache-control") cache_control_forces_revalidation).

(** ** Lookup *)

Inductive MissStatus : Type := StatusMiss | StatusRevalidated.
Inductive MissReason : Type := MissRange | MissRequestRefresh.
Inductive NativeProxyCacheLookup : Type :=
| LookupBypass (reason : BypassReason)
| LookupMiss (key : list Z) (status : MissStatus) (reason : option MissReason)
| LookupHit (entry : NativeMemoryCacheEntry) (range : option CacheRangeRequest)
| LookupStaleWhileRevalidate (key : list Z) (entry : NativeMemoryCacheEntry)
| LookupRevalidate (key : list Z) (entry : NativeMemoryCacheEntry).
(** The times a lookup reads. *)
Record LookupTimes : Type := mkLookupTimes { lt_pass : Z; lt_get : Z; lt_range : Z; lt_stale : Z; lt_revalidate : Z }.

Section Lookup.
Context (variance : list Z -> option (list Z)).
Context (first_key : gmap (list Z) NativeMemoryCacheCounter -> option (list Z)).
Context (cache : NativeProxyMemoryCache) (bypass : CacheBypassConfig).

(** What follows when nothing fresh was found. *)
Definition lookup_not_fresh (times : LookupTimes) (key : list Z) (range_key : option (list Z)) (revalidation range_requested : bool)
    (r : NativeHttp1Request) (s : NativeMemoryCacheState) : NativeProxyCacheLookup :=
  let usable := negb revalidation && negb range_requested in
  match if usable then (get_stale_while_revalidate variance cache (lt_stale times) key r s).2 else None with
  | Some stale => LookupStaleWhileRevalidate key stale
  | None =>
      match if usable then (get_revalidatable variance cache (lt_revalidate times) key r s).2 else None with
      | Some entry => LookupRevalidate key entry
      | None =>
          match range_key with
          | Some range_key =>
              if sc_enabled (rc_slice (pm_range cache)) then LookupMiss range_key StatusMiss (Some MissRange)
              else LookupBypass RangeMiss
          | None =>
              LookupMiss key (if revalidation then StatusRevalidated else StatusMiss)
                (if revalidation then Some MissRequestRefresh else None)
          end
      end
  end.
Definition lookup_with_key_components (times : LookupTimes) (r : NativeHttp1Request) (key_components : list (list Z * list Z))
    (s : NativeMemoryCacheState) : NativeMemoryCacheState * NativeProxyCacheLookup :=
  if bool_decide (rq_method r = bs "HEAD") then (s, LookupBypass MethodHead)
  else match request_cache_bypass_reason r bypass with
  | Some reason => (s, LookupBypass reason)
  | None =>
      match key_with_components (pm_config cache) r key_components with
      | None => (s, LookupBypass ProxyIneligible)
      | Some key =>
          let '(s, pass) := cache_pass_should_bypass first_key (pm_predictor cache) (lt_pass times) key s in
          if pass then (s, LookupBypass CachePass)
          else
            let range := selected_cache_range_request r (pm_range cache) in
            let range_requested := rc_enabled (pm_range cache) && contains_header r (bs "range") in
            if range_requested && negb (bool_decide (is_Some range)) then (s, LookupBypass RangeUnsupported)
            else
              let revalidation := request_cache_revalidation_requested r bypass in
              let range_key := (fun range => cache_key_with_component key (bs "range") (range_component range)) <$> range in
              let '(s, hit) := if revalidation then (s, None) else memory_get variance cache (lt_get times) key r s in
              match hit with
              | Some entry => (s, LookupHit entry range)
              | None =>
                  let '(s, hit) :=
                    match range_key with
                    | Some range_key =>
                        if revalidation then (s, None) else memory_get variance cache (lt_range times) range_key r s
                    | None => (s, None)
                    end in
                  match hit with
                  | Some entry => (s, LookupHit entry None)
                  | None => (s, lookup_not_fresh times key range_key revalidation range_requested r s)
                  end
              end
      end
  end.
End Lookup.

(** * What a lookup serves

    The answer a request gets from the cache: never to a request with credentials
    or one that a rule keeps from the cache, and always a response that was stored
    for the same key and the same values of the headers it varies on. *)
Section Lookup.
Context `{HttpPackage}.
Context (variance : list Z -> option (list Z)) `{!DigestText variance} (native_body_sha256 : list Z -> list Z).
Context (first_key : gmap (list Z) NativeMemoryCacheCounter -> option (list Z)).
Context (by_age : list (Z * list Z) -> list (Z * list Z)).
Context (cache : NativeProxyMemoryCache) (bypass : CacheBypassConfig).

Local Abbreviation run := (run variance native_body_sha256 first_key by_age cache).
Local Abbreviation served := (served variance cache).

Lemma range_key_last key value : last (cache_key_with_component key (bs "range") value) = Some 59.
Proof. unfold cache_key_with_component, append_cache_key_component. by rewrite !app_assoc, last_snoc. Qed.
Lemma run_snoc ops op : run (ops ++ [op]) = run_op variance native_body_sha256 first_key by_age cache (run ops) op.
Proof. unfold MemoryHistory.run. by rewrite fold_left_app. Qed.
Lemma pass_runs now key ops :
  (cache_pass_should_bypass first_key (pm_predictor cache) now key (run ops)).1 = run (ops ++ [OpPass now key]).
Proof. by rewrite run_snoc. Qed.
Lemma get_runs now key r ops : (memory_get variance cache now key r (run ops)).1 = run (ops ++ [OpGet now key r]).
Proof. by rewrite run_snoc. Qed.

(** The operations of a lookup, which store and purge nothing. *)
Definition quiet (op : CacheOp) : Prop := match op with OpPass _ _ | OpGet _ _ _ => True | _ => False end.
Lemma quiet_before time time' ops extra :
  time <= time' -> Forall quiet extra -> Forall (op_before time) ops -> Forall (op_before time') (ops ++ extra).
Proof using Type.
  intros Ht Hq Hb. apply Forall_app. split; [eapply Forall_impl; [exact Hb |] | eapply Forall_impl; [exact Hq |]];
    intros []; cbn; lia || done.
Qed.
Lemma quiet_small ops extra : Forall quiet extra -> Forall (op_small cache) ops -> Forall (op_small cache) (ops ++ extra).
Proof using Type. intros Hq Hs. apply Forall_app. split; [done |]. eapply Forall_impl; [exact Hq |]. by intros []. Qed.
Lemma quiet_served time ops extra key r entry :
  Forall quiet extra -> served time (ops ++ extra) key r entry -> served time ops key r entry.
Proof using Type.
  intros Hq (now & r0 & response & mode & metadata & stored & headers & vary & ttl & Hin & Hrest).
  exists now, r0, response, mode, metadata, stored, headers, vary, ttl. split; [| done].
  apply elem_of_app in Hin as [Hin | Hin]; [done |]. rewrite Forall_forall in Hq. by apply Hq in Hin.
Qed.
Lemma get_served now ops key r s' entry :
  Forall (op_before now) ops -> Forall (op_small cache) ops -> last key = Some 59 -> small_request r ->
  memory_get variance cache now key r (run ops) = (s', Some entry) ->
  now < me_expires_at entry /\ served now ops key r entry.
Proof using DigestText0.
  intros Hb Hs Hl Hr. unfold memory_get. destruct (memory_enabled cache); [| done]. intros Hf.
  apply (find_served variance native_body_sha256 first_key by_age cache _ now) in Hf as [Hv Hserved]; try done.
  split; [| done]. unfold fresh_verdict in Hv. destruct (Z.ltb_spec now (me_expires_at entry)); [done |].
  by destruct (native_cache_entry_has_stale_window entry now).
Qed.
Lemma stale_served now ops key r entry :
  Forall (op_before now) ops -> Forall (op_small cache) ops -> last key = Some 59 -> small_request r ->
  (get_stale_while_revalidate variance cache now key r (run ops)).2 = Some entry ->
  native_cache_entry_serve_stale_while_revalidate entry now = true /\ served now ops key r entry.
Proof using DigestText0.
  intros Hb Hs Hl Hr. unfold get_stale_while_revalidate. destruct (memory_enabled cache); [| done].
  destruct (find_entry _ _ _ _ _) as [s' found] eqn:Hf. cbn [snd]. intros ->.
  apply (find_served variance native_body_sha256 first_key by_age cache _ now) in Hf as [Hv Hserved]; try done.
  split; [| done]. unfold serve_if in Hv. by destruct (native_cache_entry_serve_stale_while_revalidate entry now).
Qed.
(** What the checks before a lookup establish. *)
Lemma not_bypassed r :
  request_cache_bypass_reason r bypass = None ->
  contains_header r (bs "authorization") = false /\ contains_header r (bs "proxy-authorization") = false
  /\ request_values_match r (bs "cache-control") cache_control_forbids_store = false.
Proof.
  unfold request_cache_bypass_reason. cbv zeta. destruct (contains_header r (bs "authorization")); [done |].
  destruct (contains_header r (bs "proxy-authorization")); [done |]. destruct (_ || _); [done |].
  destruct (existsb _ _); [done |]. destruct (existsb _ _); [done |].
  destruct (request_cookie_headers_match_cache_bypass _ _); [done |].
  destruct (match cache_request_query _ _ with Some _ => _ | None => _ end); [done |]. by destruct (request_values_match _ _ _).
Qed.

(** ** The lookup *)

(** The entry is a response that was stored for this key, had passed the rules of a
    shared cache, is in time, and was stored for a request with the same values of
    the headers it varies on. *)
Definition right_answer (ops : list CacheOp) (key : list Z) (r : NativeHttp1Request) (entry : NativeMemoryCacheEntry)
    (in_time : HeaderMap -> Z -> Prop) : Prop :=
  exists now r0 response mode metadata stored headers vary ttl,
    OpInsert now key r0 response mode metadata ∈ ops
    /\ store_checks cache r0 response mode metadata = Ok (stored, headers, vary, ttl)
    /\ response_cache_header_policy_rejection headers (pm_config cache) = None
    /\ in_time headers (now + ttl)
    /\ to_response entry = kept_response cache stored
    /\ (collision variance \/ forall field, field ∈ default [] vary ->
          vary_field_values (rq_headers r0) field = vary_field_values (rq_headers r) field).
Definition fresh_at (now : Z) (headers : HeaderMap) (expires_at : Z) : Prop := now < expires_at.
Definition stale_at (now : Z) (headers : HeaderMap) (expires_at : Z) : Prop :=
  response_cache_control_stale_reuse_forbidden headers = false
  /\ exists secs, cc_stale_while_revalidate_secs (pm_config cache) = Some secs /\ now < expires_at + secs * NANOS.
Lemma served_fresh now ops key r entry :
  now < me_expires_at entry -> served now ops key r entry -> right_answer ops key r entry (fresh_at now).
Proof using Type.
  intros Hf (now0 & r0 & response & mode & metadata & stored & headers & vary & ttl & Hin & Hc & Hp & Ht & Hcontent & Hv).
  exists now0, r0, response, mode, metadata, stored, headers, vary, ttl. split_and!; try done.
  - unfold fresh_at. lia.
  - unfold content, kept_as in Hcontent. congruence.
Qed.
Lemma served_stale now ops key r entry :
  native_cache_entry_serve_stale_while_revalidate entry now = true -> served now ops key r entry ->
  right_answer ops key r entry (stale_at now).
Proof using Type.
  intros Hs (now0 & r0 & response & mode & metadata & stored & headers & vary & ttl & Hin & Hc & Hp & _ & Hcontent & Hv).
  exists now0, r0, response, mode, metadata, stored, headers, vary, ttl. unfold content, kept_as in Hcontent.
  assert (to_response entry = kept_response cache stored) as Hresp by congruence.
  assert (me_stale_reuse_forbidden entry = response_cache_control_stale_reuse_forbidden headers) as Hforbid by congruence.
  assert (me_stale_while_revalidate_until entry
          = stale_window headers (now0 + ttl) (cc_stale_while_revalidate_secs (pm_config cache))) as Hwindow by congruence.
  split_and!; try done.
  unfold native_cache_entry_serve_stale_while_revalidate in Hs. apply andb_true_iff in Hs as [[Hn%negb_true_iff _]%andb_true_iff Ha].
  rewrite Hwindow in Ha. rewrite Hforbid in Hn. unfold stale_window in Ha. rewrite Hn in Ha. split; [done |].
  destruct (cc_stale_while_revalidate_secs (pm_config cache)) as [secs |]; [| done]. exists secs. split; [done |].
  cbn in Ha. by apply Z.ltb_lt in Ha.
Qed.
(** Both lookups, some operations of a lookup after [ops]. *)
Lemma get_right time now ops extra key r s' entry :
  time <= now -> Forall quiet extra -> Forall (op_before time) ops -> Forall (op_small cache) ops -> last key = Some 59 ->
  small_request r -> memory_get variance cache now key r (run (ops ++ extra)) = (s', Some entry) ->
  right_answer ops key r entry (fresh_at now).
Proof using DigestText0.
  intros Ht Hq Hb Hs Hl Hr [Hf Hserved]%get_served; try done.
  - apply served_fresh; [done |]. by eapply quiet_served.
  - by eapply quiet_before.
  - by apply quiet_small.
Qed.
Lemma not_fresh_right time ops extra times key range_key revalidation range_requested r :
  time <= lt_stale times -> Forall quiet extra -> Forall (op_before time) ops -> Forall (op_small cache) ops ->
  last key = Some 59 -> small_request r ->
  match lookup_not_fresh variance cache times key range_key revalidation range_requested r (run (ops ++ extra)) with
  | LookupHit _ _ => False
  | LookupStaleWhileRevalidate k entry =>
      revalidation = false /\ k = key /\ right_answer ops key r entry (stale_at (lt_stale times))
  | _ => True
  end.
Proof using DigestText0.
  intros Ht Hq Hb Hs Hl Hr. unfold lookup_not_fresh.
  destruct revalidation; [| destruct range_requested]; cbn [negb andb].
  1, 2: by destruct range_key; [destruct (sc_enabled _) |].
  destruct (get_stale_while_revalidate _ _ _ _ _ _).2 as [stale |] eqn:Es.
  - apply stale_served in Es as [Hv Hserved]; try done; [| by eapply quiet_before | by apply quiet_small].
    split_and!; try done. apply served_stale; [done |]. by eapply quiet_served.
  - destruct (get_revalidatable _ _ _ _ _ _).2; [done |]. by destruct range_key; [destruct (sc_enabled _) |].
Qed.
(** The keys a request is looked up under. *)
Definition lookup_key (r : NativeHttp1Request) (key_components : list (list Z * list Z)) (key : list Z) : Prop :=
  exists primary, key_with_components (pm_config cache) r key_components = Some primary
    /\ (key = primary \/ exists range, selected_cache_range_request r (pm_range cache) = Some range
                                      /\ key = cache_key_with_component primary (bs "range") (range_component range)).
Lemma range_key_right r key_components primary k :
  key_with_components (pm_config cache) r key_components = Some primary ->
  (fun range => cache_key_with_component primary (bs "range") (range_component range))
    <$> selected_cache_range_request r (pm_range cache) = Some k ->
  last k = Some 59 /\ lookup_key r key_components k.
Proof using Type.
  intros Hkey. destruct (selected_cache_range_request r (pm_range cache)) as [range |] eqn:Er; [| done].
  cbn [fmap option_fmap option_map]. intros Ek.
  assert (k = cache_key_with_component primary (bs "range") (range_component range)) as -> by congruence.
  split; [apply range_key_last |]. exists primary. split; [done |]. right. by exists range.
Qed.
Definition may_be_answered (r : NativeHttp1Request) : Prop :=
  rq_method r <> bs "HEAD" /\ contains_header r (bs "authorization") = false
  /\ contains_header r (bs "proxy-authorization") = false
  /\ request_values_match r (bs "cache-control") cache_control_forbids_store = false
  /\ request_cache_bypass_reason r bypass = None /\ request_cache_revalidation_requested r bypass = false.

(** An answer, fresh at a time of the lookup or in a stale window, is right. *)
Definition right_outcome (ops : list CacheOp) (times : LookupTimes) (r : NativeHttp1Request)
    (key_components : list (list Z * list Z)) (outcome : NativeProxyCacheLookup) : Prop :=
  match outcome with
  | LookupHit entry _ =>
      may_be_answered r
      /\ exists now key, lookup_key r key_components key /\ lt_get times <= now /\ right_answer ops key r entry (fresh_at now)
  | LookupStaleWhileRevalidate key entry =>
      may_be_answered r /\ lookup_key r key_components key /\ right_answer ops key r entry (stale_at (lt_stale times))
  | _ => True
  end.
Lemma not_fresh_outcome ops extra times key range_key revalidation range_requested r key_components :
  lt_get times <= lt_stale times -> Forall quiet extra -> Forall (op_before (lt_get times)) ops ->
  Forall (op_small cache) ops -> last key = Some 59 -> small_request r ->
  (revalidation = false -> may_be_answered r) -> lookup_key r key_components key ->
  right_outcome ops times r key_components
    (lookup_not_fresh variance cache times key range_key revalidation range_requested r (run (ops ++ extra))).
Proof using DigestText0.
  intros Ht Hq Hb Hs Hl Hr Hmay Hkey.
  pose proof (not_fresh_right _ ops extra times key range_key revalidation range_requested r Ht Hq Hb Hs Hl Hr) as Htail.
  destruct (lookup_not_fresh _ _ _ _ _ _ _ _ _); try done. destruct Htail as (Hrv & -> & Hright). split_and!; auto.
Qed.

(** C5: what the cache answers is right whatever ran before in a memory tier
    into which nothing is promoted from disk.  When a request is answered, fresh or stale, it is not a [HEAD] request, has
    no credentials, and no rule and no directive of its own keeps it from the
    cache; the answer is a response that one of the stores put there under the key
    of this request, that had passed the rules of a shared cache, that is within
    its time to live, or within the stale window its directives allow, and that
    was stored for a request with the same values of all the headers it varies on,
    unless two texts have the same SHA-256 digest. *)
Theorem lookup_sound (ops : list CacheOp) (times : LookupTimes) (r : NativeHttp1Request)
    (key_components : list (list Z * list Z)) (s' : NativeMemoryCacheState) (outcome : NativeProxyCacheLookup) :
  Forall (op_before (lt_get times)) ops -> lt_get times <= lt_range times -> lt_get times <= lt_stale times ->
  Forall (op_small cache) ops -> small_request r ->
  lookup_with_key_components variance first_key cache bypass times r key_components (run ops) = (s', outcome) ->
  right_outcome ops times r key_components outcome.
Proof using DigestText0.
  intros Hb Hlr Hls Hs Hr. unfold lookup_with_key_components. case_bool_decide as Hhead; [by intros [= <- <-] |].
  destruct (request_cache_bypass_reason r bypass) eqn:Hby; [by intros [= <- <-] |].
  destruct (key_with_components (pm_config cache) r key_components) as [key |] eqn:Hkey; [| by intros [= <- <-]].
  pose proof (primary_key_last _ _ _ _ Hkey) as Hlast. pose proof (pass_runs (lt_pass times) key ops) as Hpass.
  assert (lookup_key r key_components key) as Hprimary by (exists key; by split; [| left]).
  destruct (cache_pass_should_bypass _ _ _ _ _) as [s1 pass]. cbn [fst] in Hpass. subst s1.
  destruct pass; [by intros [= <- <-] |]. destruct (_ && _); [by intros [= <- <-] |].
  pose proof (fun k => range_key_right r key_components key k Hkey) as Hrange.
  set (range_key := (fun range => cache_key_with_component key (bs "range") (range_component range)) <$> _) in *.
  set (extra := [OpPass (lt_pass times) key]).
  assert (request_cache_revalidation_requested r bypass = false -> may_be_answered r) as Hmay.
  { intros Hrv. destruct (not_bypassed r Hby) as (? & ? & ?). by split_and!. }
  clearbody range_key. destruct (request_cache_revalidation_requested r bypass).
  { destruct range_key; intros [= <- <-]; (apply not_fresh_outcome; try done; by repeat constructor). }
  pose proof (get_runs (lt_get times) key r (ops ++ extra)) as Hget.
  destruct (memory_get variance cache (lt_get times) key r (run (ops ++ extra))) as [s2 [entry |]] eqn:Eg; cbn [fst] in Hget; subst s2.
  { intros [= <- <-]. split; [by apply Hmay |]. exists (lt_get times), key. split_and!; try done.
    apply (get_right (lt_get times) (lt_get times) ops extra _ _ _ _ (Z.le_refl _) ltac:(by repeat constructor) Hb Hs Hlast Hr Eg). }
  rewrite <- app_assoc. set (extra2 := extra ++ [OpGet (lt_get times) key r]).
  assert (Forall quiet extra2) as Hq2 by (by repeat constructor). clearbody extra2.
  destruct range_key as [k |]; [| by intros [= <- <-]; apply not_fresh_outcome].
  destruct (Hrange k eq_refl) as [Hlk Hk]. pose proof (get_runs (lt_range times) k r (ops ++ extra2)) as Hget.
  destruct (memory_get variance cache (lt_range times) k r (run (ops ++ extra2))) as [s3 [entry |]] eqn:Eg2; cbn [fst] in Hget; subst s3.
  { intros [= <- <-]. split; [by apply Hmay |]. exists (lt_range times), k. split_and!; try done.
    apply (get_right (lt_get times) _ _ extra2 _ _ _ _ Hlr Hq2 Hb Hs Hlk Hr Eg2). }
  intros [= <- <-]. rewrite <- app_assoc. apply not_fresh_outcome; try done. apply Forall_app. split; [done | by repeat constructor].
Qed.
End Lookup.
