(* ===== verification/MemorySample.v ===== *)
(** * The memory cache on an example

    A cache, a request and a response for it, on which the theorems about the
    memory cache are applied, and what some configurations and answers do. *)
From Stdlib Require Import ZArith Lia.
From stdpp Require Import base list numbers strings sets gmap sorting.
From S2P Require Import Prelude Text LbBackend RequestHeaders UpstreamResponse CacheKey CachePurge CacheControl CacheObject CacheEntry CacheRange MemoryCache MemoryCacheProps MemoryHistory MemoryBounds CacheLookup.

(** ** Parameters *)

(** A text of the width and alphabet of a digest. *)
Definition sample_variance (m : list Z) : option (list Z) := Some (replicate 42 65 ++ [65 + foldr Z.add 0 m mod 26]).
#[export] Instance sample_variance_text : DigestText sample_variance.
Proof.
  split; intros m d Hd; assert (d = replicate 42 65 ++ [65 + foldr Z.add 0 m mod 26]) as -> by (unfold sample_variance in Hd; congruence).
  - done.
  - apply Forall_app. split; [apply Forall_replicate; by left |]. apply Forall_singleton.
    pose proof (Z.mod_pos_bound (foldr Z.add 0 m) 26 ltac:(done)). left.
    unfold is_ascii_alphanumeric, is_ascii_upper, between.
    rewrite (proj2 (Z.leb_le 65 _)), (proj2 (Z.leb_le _ 90)) by lia. by rewrite orb_true_r.
Qed.
Definition age_le (a b : Z * list Z) : Prop := a.1 <= b.1.
#[export] Instance age_le_dec a b : Decision (age_le a b).
Proof. unfold age_le. apply _. Defined.
#[export] Instance age_le_trans : Transitive age_le.
Proof. intros a b c. unfold age_le. lia. Qed.
#[export] Instance age_le_total : Total age_le.
Proof. intros a b. unfold age_le. lia. Qed.
Definition sample_by_age (l : list (Z * list Z)) : list (Z * list Z) := merge_sort age_le l.
#[export] Instance sample_age_order : AgeOrder sample_by_age.
Proof.
  split; intros l; [apply merge_sort_Permutation |].
  apply (StronglySorted_merge_sort age_le).
Qed.
Definition sample_first_key (counters : gmap (list Z) NativeMemoryCacheCounter) : option (list Z) :=
  head (map_to_list counters).*1.
Definition sample_sha256 (body : list Z) : list Z := replicate 32 0.

(** ** A cache *)

Definition sample_memory_cache (config : CacheConfig) (capacity : Z) : NativeProxyMemoryCache :=
  mkMemoryCache config (mkRangeConfig false 0 (mkSliceConfig false 0 0 false)) (mkPredictor true capacity 0 1) 100000
    (bs "site") None.
Definition sample_cache : NativeProxyMemoryCache := sample_memory_cache sample_admission_config 16.
Definition sample_image (headers : list header) : NativeHttp1Response :=
  mkResponse 200 (bs "OK") ([(bs "Content-Type", bs "image/png"); (bs "Cache-Tag", bs "logo")] ++ headers) (Some 3) (bs "png")
    false.
Definition english : NativeHttp1Request := sample_cache_request (bs "/a.png") (bs "example.com") (bs "en").
Definition german : NativeHttp1Request := sample_cache_request (bs "/a.png") (bs "example.com") (bs "de").
Definition sample_key : list Z := default [] (key_with_components sample_admission_config english []).
Definition sample_store : CacheOp :=
  OpInsert 0 sample_key english (sample_image [(bs "Cache-Control", bs "max-age=60"); (bs "Vary", bs "Accept-Language")])
    ModeOrigin metadata_default.
Definition sample_run (ops : list CacheOp) : NativeMemoryCacheState :=
  @run sample_http_package sample_variance sample_sha256 sample_first_key sample_by_age sample_cache ops.
(** The entry is served to a request with the same language and to no other. *)
Lemma sample_hits :
  (exists entry, (memory_get sample_variance sample_cache (5 * NANOS) sample_key english (sample_run [sample_store])).2 = Some entry
                 /\ me_body entry = bs "png")
  /\ (memory_get sample_variance sample_cache (5 * NANOS) sample_key german (sample_run [sample_store])).2 = None.
Proof. split; [eexists; split; vm_compute; reflexivity | vm_compute; reflexivity]. Qed.

(** ** The theorems apply *)

Lemma english_small : small_request english.
Proof. split; [by vm_compute |]. repeat (constructor; [by vm_compute |]). constructor. Qed.
Lemma sample_store_small : Forall (op_small (H := sample_http_package) sample_cache) [sample_store].
Proof.
  apply Forall_singleton. split; [by vm_compute | split; [apply english_small |]].
  intros stored headers fields ttl E. assert (fields = [bs "accept-encoding"; bs "accept-language"]) as ->.
  { vm_compute in E. vm_compute. congruence. }
  repeat (constructor; [by vm_compute |]). constructor.
Qed.
Definition sample_bypass : CacheBypassConfig := mkBypass [] [] [] ∅ [bs "session"] [] ∅ [bs "preview"] ∅ false true.
Definition sample_lookup_times : LookupTimes :=
  mkLookupTimes (5 * NANOS) (5 * NANOS) (5 * NANOS) (5 * NANOS) (5 * NANOS).
Lemma lookup_sound_witness :
  exists s' entry,
    lookup_with_key_components sample_variance sample_first_key sample_cache sample_bypass sample_lookup_times english []
      (sample_run [sample_store]) = (s', LookupHit entry None)
    /\ may_be_answered sample_bypass english
    /\ exists now key, lookup_key sample_cache english [] key /\ 5 * NANOS <= now
         /\ @right_answer sample_http_package sample_variance sample_cache [sample_store] key english entry (fresh_at now).
Proof.
  destruct (lookup_with_key_components sample_variance sample_first_key sample_cache sample_bypass sample_lookup_times english []
              (sample_run [sample_store])) as [s' outcome] eqn:E.
  assert (match outcome with LookupHit _ None => true | _ => false end = true) as Hhit.
  { change outcome with ((s', outcome).2). rewrite <- E. vm_compute. reflexivity. }
  destruct outcome as [| | entry [range |] | |]; try discriminate Hhit. exists s', entry. split; [reflexivity |].
  apply (lookup_sound (H := sample_http_package) sample_variance sample_sha256 sample_first_key sample_by_age sample_cache
           sample_bypass [sample_store] sample_lookup_times english [] s' (LookupHit entry None)).
  - by apply Forall_singleton.
  - apply Z.le_refl.
  - apply Z.le_refl.
  - apply sample_store_small.
  - apply english_small.
  - exact E.
Defined.
Definition sample_stored : NativeMemoryCacheState :=
  (store_with_metadata (H := sample_http_package) sample_variance sample_sha256 sample_first_key sample_by_age sample_cache
     (mkStoreTimes 0 0 0) sample_key english
     (sample_image [(bs "Cache-Control", bs "max-age=60"); (bs "Vary", bs "Accept-Language")]) ModeOrigin metadata_default
     memory_new).1.

(** ** What the code does that its documentation does not say *)

Section Behaviour.
Local Existing Instance sample_http_package.

(** An entry promoted from disk is not indexed in memory: a purge by tag leaves it
    there, and it is still served. *)
Definition sample_disk_entry : NativeMemoryCacheEntry :=
  mkCacheEntry 200 (bs "OK") [(bs "Content-Type", bs "image/png"); (bs "Cache-Tag", bs "logo")] (Some 3) (bs "png")
    (replicate 32 0) (60 * NANOS) None None false 0 300.
Definition sample_plain_config : CacheConfig :=
  mkCacheConfig true false true true [bs "GET"] [bs "png"] None [KeyMethod; KeyHost; KeyPath; KeyQuery] true 1048576 []
    [bs "cache-tag"] [bs "image/*"] ∅ None [] ∅ [] None None [] [].
Definition sample_plain_cache : NativeProxyMemoryCache := sample_memory_cache sample_plain_config 16.
Definition sample_promoted : NativeMemoryCacheState :=
  promote_disk_entry sample_variance sample_by_age sample_plain_cache 0 sample_key english sample_disk_entry memory_new.
Lemma promoted_entry_not_purged :
  let purged := purge_selected (entries_for_user_tag_cache_tag (bs "site") (bs "logo") 10) 0 false
                  sample_promoted in
  purged.2 = (0, 0)
  /\ (memory_get sample_variance sample_plain_cache 1 sample_key english purged.1).2 = Some sample_disk_entry.
Proof. by vm_compute. Qed.

(** With [Vary] among the headers to hide, an entry that is revalidated is stored
    for all requests: the answer to one language is then served to another. *)
Definition sample_hiding_config : CacheConfig :=
  mkCacheConfig true false true false [bs "GET"] [bs "png"] None [KeyMethod; KeyHost; KeyPath; KeyQuery] true 1048576
    [bs "Vary"] [] [bs "image/*"] ∅ None [] ∅ [] (Some 30) None [] [].
Definition sample_hiding_cache : NativeProxyMemoryCache := sample_memory_cache sample_hiding_config 16.
Definition sample_times (now : Z) : StoreTimes := mkStoreTimes now now now.
Definition sample_english_stored : NativeMemoryCacheState :=
  (store_with_metadata sample_variance sample_sha256 sample_first_key sample_by_age sample_hiding_cache (sample_times 0)
     sample_key english
     (sample_image [(bs "Cache-Control", bs "max-age=60"); (bs "ETag", bs "x"); (bs "Vary", bs "Accept-Language")])
     ModeOrigin metadata_default memory_new).1.
Definition sample_not_modified (headers : list header) : NativeHttp1Response :=
  mkResponse 304 (bs "Not Modified") headers None [] false.
(** The answer to a revalidation of the entry found for a request. *)
Definition sample_revalidated (headers : list header) (s : NativeMemoryCacheState) : NativeMemoryCacheState :=
  match get_revalidatable sample_variance sample_hiding_cache (61 * NANOS) sample_key english s with
  | (s, Some entry) =>
      (store_not_modified_revalidated sample_variance sample_sha256 sample_first_key sample_by_age sample_hiding_cache
         (sample_times (61 * NANOS)) sample_key english entry (sample_not_modified headers) s).1
  | (s, None) => s
  end.
Lemma hidden_vary_mixes_variants :
  let s := sample_revalidated [(bs "Cache-Control", bs "max-age=60"); (bs "Vary", bs "Accept-Language")]
             sample_english_stored in
  (memory_get sample_variance sample_hiding_cache 1 sample_key german sample_english_stored).2 = None
  /\ me_body <$> (memory_get sample_variance sample_hiding_cache (62 * NANOS) sample_key german s).2 = Some (bs "png").
Proof. by vm_compute. Qed.

(** Of a header that a [304] has twice only the last line is kept: an answer that
    is [private] in its first line is stored for all. *)
Lemma not_modified_keeps_last_line :
  let headers := [(bs "Cache-Control", bs "private"); (bs "Cache-Control", bs "max-age=60")] in
  response_cache_header_policy_rejection (native_response_header_map (sample_not_modified headers)) sample_hiding_config
    = Some CacheControlPrivate
  /\ me_body <$> (memory_get sample_variance sample_hiding_cache (62 * NANOS) sample_key english
                    (sample_revalidated headers sample_english_stored)).2 = Some (bs "png").
Proof. by vm_compute. Qed.

(** With a capacity of one the counter of a key is pruned before it is read, so an
    enabled predictor never bypasses. *)
Lemma predictor_capacity_one_forgets :
  let bypassed capacity :=
    let predictor := mkPredictor true capacity 0 1 in
    (cache_pass_should_bypass sample_first_key predictor 2 sample_key
       (record_uncacheable sample_first_key predictor 1 sample_key memory_new)).2 in
  bypassed 1 = false /\ bypassed 2 = true.
Proof. by vm_compute. Qed.

(** Headers to hide are left out of an entry, but a response is judged with them. *)
Definition sample_cookie_config : CacheConfig :=
  mkCacheConfig true false true false [bs "GET"] [bs "png"] None [KeyMethod; KeyHost; KeyPath; KeyQuery] true 1048576
    [bs "set-cookie"] [] [bs "image/*"] ∅ None [] ∅ [] None None [] [].
Lemma hidden_cookie_not_admitted :
  store_checks (sample_memory_cache sample_cookie_config 16) english
    (sample_image [(bs "Cache-Control", bs "max-age=60"); (bs "Set-Cookie", bs "a=b")]) ModeOrigin metadata_default
  = Err (StoreRejected SetCookie).
Proof. by vm_compute. Qed.

(** A rule against queries also keeps a request with an empty one from the cache. *)
Lemma empty_query_bypasses :
  let reason target :=
    request_cache_bypass_reason (sample_cache_request target (bs "example.com") (bs "en")) (mkBypass [] [] [] ∅ [] [] ∅ [] ∅ true false) in
  reason (bs "/a.png?") = Some RequestQuery /\ reason (bs "/a.png") = None.
Proof. by vm_compute. Qed.
End Behaviour.
