(* ===== verification/Choice.v ===== *)
(** * Choosing from a list

    The first of the greatest elements a predicate accepts, as a relation
    between a list and what is chosen, and how it changes when the list grows:
    the contract of the loops that look for the best route or host. *)
From Stdlib Require Import ZArith Lia.
From stdpp Require Import base list numbers.
From S2P Require Import Prelude.

Section FirstMax.
Context {A : Type} (P : A -> Prop) (key : A -> Z).

(** [r] is accepted, greater than every accepted element before it and at least
    as great as those after it. *)
Definition first_max (l : list A) (chosen : option A) : Prop :=
  match chosen with
  | Some r =>
      exists before after, l = before ++ r :: after /\ P r
        /\ (forall x, x ∈ before -> P x -> key x < key r) /\ (forall x, x ∈ after -> P x -> key x <= key r)
  | None => forall x, x ∈ l -> ~ P x
  end.

Lemma first_max_nil : first_max [] None.
Proof. intros x Hx. by apply not_elem_of_nil in Hx. Qed.
Lemma first_max_skip l chosen x : ~ P x -> first_max l chosen -> first_max (l ++ [x]) chosen.
Proof.
  intros Hx. destruct chosen as [r |]; cbn.
  - intros (b & a & -> & Hr & Hb & Ha). exists b, (a ++ [x]). split_and!; [by rewrite <- app_assoc | done | done |].
    intros y [Hy | Hy]%elem_of_app HP; [by apply Ha |]. apply list_elem_of_singleton in Hy as ->. done.
  - intros Hn y [Hy | Hy]%elem_of_app; [by apply Hn |]. by apply list_elem_of_singleton in Hy as ->.
Qed.
Lemma first_max_keep l r x : key x <= key r -> first_max l (Some r) -> first_max (l ++ [x]) (Some r).
Proof.
  intros Hx (b & a & -> & Hr & Hb & Ha). exists b, (a ++ [x]). split_and!; [by rewrite <- app_assoc | done | done |].
  intros y [Hy | Hy]%elem_of_app HP; [by apply Ha |]. by apply list_elem_of_singleton in Hy as ->.
Qed.
Lemma first_max_take l chosen x :
  P x -> match chosen with Some r => key r < key x | None => True end -> first_max l chosen -> first_max (l ++ [x]) (Some x).
Proof.
  intros Hx Hlt Hl. exists l, []. split_and!; [done | done | | by intros y Hy%not_elem_of_nil].
  intros y Hy HP. destruct chosen as [r |]; [| by destruct (Hl y Hy)].
  destruct Hl as (b & a & -> & Hr & Hb & Ha).
  apply elem_of_app in Hy as [Hy | [-> | Hy]%elem_of_cons]; [specialize (Hb y Hy HP); lia | done |].
  specialize (Ha y Hy HP). lia.
Qed.
Lemma first_max_cons_skip l chosen x : ~ P x -> first_max l chosen -> first_max (x :: l) chosen.
Proof.
  intros Hx. destruct chosen as [r |]; cbn.
  - intros (b & a & -> & Hr & Hb & Ha). exists (x :: b), a. split_and!; [done | done | | done].
    intros y [-> | Hy]%elem_of_cons HP; [done | by apply Hb].
  - intros Hn y [-> | Hy]%elem_of_cons; [done | by apply Hn].
Qed.
Lemma first_max_cons l chosen x :
  P x -> first_max l chosen ->
  first_max (x :: l) (match chosen with Some r => if key r <=? key x then Some x else Some r | None => Some x end).
Proof.
  intros Hx. destruct chosen as [r |]; cbn.
  - intros (b & a & -> & Hr & Hb & Ha). destruct (Z.leb_spec (key r) (key x)).
    + exists [], (b ++ r :: a). split_and!; [done | done | by intros y Hy%not_elem_of_nil |]. intros y Hy HP.
      apply elem_of_app in Hy as [Hy | [-> | Hy]%elem_of_cons]; [specialize (Hb y Hy HP); lia | done |].
      specialize (Ha y Hy HP). lia.
    + exists (x :: b), a. split_and!; [done | done | | done]. intros y [-> | Hy]%elem_of_cons HP; [done | by apply Hb].
  - intros Hn. exists [], l. split_and!; [done | done | by intros y Hy%not_elem_of_nil |].
    intros y Hy HP. by destruct (Hn y Hy).
Qed.
End FirstMax.

Section FirstLast.
Context {A : Type} (P : A -> Prop).

Definition first_of (l : list A) (r : A) : Prop :=
  exists before after, l = before ++ r :: after /\ P r /\ forall x, x ∈ before -> ~ P x.
Definition last_of (l : list A) (chosen : option A) : Prop :=
  match chosen with
  | Some r => exists before after, l = before ++ r :: after /\ P r /\ forall x, x ∈ after -> ~ P x
  | None => forall x, x ∈ l -> ~ P x
  end.

Lemma first_max_first k l r : first_max P (fun _ => k) l (Some r) -> first_of l r.
Proof. intros (b & a & -> & Hr & Hb & _). exists b, a. split_and!; [done.. |]. intros x Hx HP. specialize (Hb x Hx HP). lia. Qed.
Lemma first_of_app l r k : first_of l r -> first_of (l ++ k) r.
Proof. intros (b & a & -> & Hr & Hb). exists b, (a ++ k). split_and!; [by rewrite <- app_assoc | done | done]. Qed.
Lemma last_of_nil : last_of [] None.
Proof. intros x Hx. by apply not_elem_of_nil in Hx. Qed.
Lemma last_of_skip l chosen x : ~ P x -> last_of l chosen -> last_of (l ++ [x]) chosen.
Proof.
  intros Hx. destruct chosen as [r |]; cbn.
  - intros (b & a & -> & Hr & Ha). exists b, (a ++ [x]). split_and!; [by rewrite <- app_assoc | done |].
    intros y [Hy | ->%list_elem_of_singleton]%elem_of_app; [by apply Ha | done].
  - intros Hn y [Hy | ->%list_elem_of_singleton]%elem_of_app; [by apply Hn | done].
Qed.
Lemma last_of_take l x : P x -> last_of (l ++ [x]) (Some x).
Proof. intros Hx. exists l, []. split_and!; [done | done |]. by intros y Hy%not_elem_of_nil. Qed.
End FirstLast.
