(* ===== verification/PathSafety.v ===== *)
(** * Paths that may be forwarded ([fluxheim-common/src/path_safety.rs])

    A path is forwarded only if no way of decoding it makes it leave the place
    it names: the check itself, the decoder it uses, and that a path it accepts
    stays harmless however often an upstream decodes its escapes. *)
From Stdlib Require Import ZArith Lia.
From stdpp Require Import base list numbers strings sets.
From S2P Require Import Prelude Text Http1Target Http1Chunked HostNames.

(** [s.chars().any(char::is_control)] *)
Fixpoint any_control (s : list Z) : bool :=
  match s with
  | [] => false
  | c0 :: s0 => control1 c0 || match s0 with c1 :: _ => control2 c0 c1 | [] => false end || any_control s0
  end.

(** ** The check *)

Definition PERCENT : Z := 37.
Definition SLASH : Z := 47.
Definition BACKSLASH : Z := 92.

Fixpoint percent_decode_path_segment (bytes : list Z) : option (list Z) :=
  match bytes with
  | [] => Some []
  | byte :: rest =>
      if byte =? PERCENT then
        match rest with
        | high :: low :: rest =>
            let* high := hex_value high in
            let* low := hex_value low in
            let* decoded := percent_decode_path_segment rest in
            Some (Z.lor (Z.shiftl high 4) low :: decoded)
        | _ => None
        end
      else let* decoded := percent_decode_path_segment rest in Some (byte :: decoded)
  end.

Definition dot_segment (segment : list Z) : bool := bool_decide (segment = [46] \/ segment = [46; 46]).
Definition unsafe_decoded_forward_path_segment (segment : list Z) : bool :=
  dot_segment segment
  || existsb (fun byte => control1 byte || (byte =? SLASH) || (byte =? BACKSLASH)) segment.

(** The rounds of [safe_forward_path_segment]; what is left after the last one
    still has an escape. *)
Fixpoint safe_segment_rounds (rounds : nat) (current : list Z) : bool :=
  match rounds with
  | O => negb (contains_byte PERCENT current)
  | S rounds =>
      match percent_decode_path_segment current with
      | None => false
      | Some decoded =>
          if unsafe_decoded_forward_path_segment decoded then false
          else if negb (utf8_valid decoded) then false
          else if any_control decoded then false
          else if negb (contains_byte PERCENT decoded) then true
          else safe_segment_rounds rounds decoded
      end
  end.
Definition safe_forward_path_segment (segment : list Z) : bool :=
  if dot_segment segment then false else safe_segment_rounds 3 segment.

Definition safe_forward_path (path : list Z) : bool :=
  if negb (starts_with [SLASH] path) || any_control path || contains_byte BACKSLASH path then false
  else if (1 <? zlen path) && bool_decide (is_Some (find_sub (bs "//") path)) then false
  else forallb safe_forward_path_segment (split_byte SLASH path).

Definition safe_forward_path_and_query (path_and_query : list Z) : bool :=
  safe_forward_path (match split_once 63 path_and_query with Some (path, _) => path | None => path_and_query end).

(** ** Decoders *)

(** What is relied on of a percent decoder ([percent_encoding::percent_decode_str]
    is one): an escape becomes its byte, everything else stays. *)
Class PercentDecoding (decode : list Z -> list Z) : Prop := {
  decode_nil : decode [] = [];
  decode_plain c s : c <> PERCENT -> decode (c :: s) = (c :: decode s);
  decode_escape h l s high low :
    hex_value h = Some high -> hex_value l = Some low ->
    decode (PERCENT :: h :: l :: s) = (Z.lor (Z.shiftl high 4) low :: decode s);
  decode_not_escape s :
    match s with
    | h :: l :: _ => hex_value h = None \/ hex_value l = None
    | _ => True
    end -> decode (PERCENT :: s) = (PERCENT :: decode s);
}.

(** A segment that means nothing but itself. *)
Definition harmless_segment (segment : list Z) : Prop :=
  segment <> [46] /\ segment <> [46; 46] /\ ~ SLASH ∈ segment /\ ~ BACKSLASH ∈ segment /\ any_control segment = false.

Section Decoding.
Context (decode : list Z -> list Z) `{!PercentDecoding decode}.

(** Where the decoder of the check succeeds, every decoder agrees with it. *)
Lemma decode_strict s d : percent_decode_path_segment s = Some d -> decode s = d.
Proof using Type*.
  remember (length s) as n eqn:Hn. revert s d Hn. induction n as [n IH] using lt_wf_ind. intros s d Hn.
  destruct s as [| c s]; cbn [percent_decode_path_segment]; [intros [= <-]; apply decode_nil |].
  destruct (Z.eqb_spec c PERCENT) as [-> | Hc].
  - destruct s as [| h [| l s]]; [done | done |].
    destruct (hex_value h) as [high |] eqn:Hh; [| done]. destruct (hex_value l) as [low |] eqn:Hl; [| done].
    destruct (percent_decode_path_segment s) as [rest |] eqn:Hr; [| done]. intros [= <-].
    rewrite (decode_escape h l s high low Hh Hl). f_equal. refine (IH (length s) _ s rest eq_refl Hr).
    subst n. cbn. lia.
  - destruct (percent_decode_path_segment s) as [rest |] eqn:Hr; [| done]. intros [= <-].
    rewrite decode_plain by done. f_equal. refine (IH (length s) _ s rest eq_refl Hr). subst n. cbn. lia.
Qed.
Lemma decode_fixed s : PERCENT ∉ s -> decode s = s.
Proof using Type*.
  induction s as [| c s IH]; intros Hs; [apply decode_nil |].
  rewrite decode_plain by set_solver. f_equal. apply IH. set_solver.
Qed.
End Decoding.

(** ** What the check ensures *)

Lemma contains_byte_false c s : contains_byte c s = false <-> c ∉ s.
Proof.
  unfold contains_byte. induction s as [| x s IH]; cbn [existsb]; [set_solver |].
  rewrite orb_false_iff, Z.eqb_neq, IH. set_solver.
Qed.
Lemma contains_byte_true c s : contains_byte c s = true <-> c ∈ s.
Proof. rewrite <- not_false_iff_true, contains_byte_false. destruct (decide (c ∈ s)); tauto. Qed.

Lemma split_byte_infix c s p : p ∈ split_byte c s -> exists l r, s = l ++ p ++ r.
Proof.
  intros Hin. rewrite <- (split_byte_join c s _ eq_refl). induction (split_byte c s) as [| q ps IH]; [set_solver |].
  apply elem_of_cons in Hin as [<- | Hin].
  - exists []. destruct ps; [exists []; by rewrite app_nil_r | by eexists].
  - destruct (IH Hin) as (l & r & E). destruct ps as [| q' ps]; [set_solver |].
    exists (q ++ c :: l), r. change (join_byte c (q :: q' :: ps)) with (q ++ c :: join_byte c (q' :: ps)).
    rewrite E, <- !app_assoc. done.
Qed.

Lemma decoded_harmless d :
  unsafe_decoded_forward_path_segment d = false -> any_control d = false -> harmless_segment d.
Proof.
  unfold unsafe_decoded_forward_path_segment, dot_segment. intros [Hdot Hbytes]%orb_false_iff Hc.
  apply bool_decide_eq_false in Hdot.
  assert (forall c, c ∈ d -> c <> SLASH /\ c <> BACKSLASH) as Hno.
  { intros c Hin. rewrite <- not_true_iff_false, existsb_exists in Hbytes.
    split; intros ->; apply Hbytes; eexists; (split; [by apply list_elem_of_In | done]). }
  split_and!; [tauto | tauto | | | done]; intros Hin; destruct (Hno _ Hin); congruence.
Qed.

(** Every text that decoding a checked segment gives is harmless. *)
Lemma iter_fixed {A} (f : A -> A) x n : f x = x -> Nat.iter n f x = x.
Proof. intros Hf. induction n as [| n IH]; [done |]. rewrite Nat.iter_succ, IH. done. Qed.
Lemma rounds_harmless decode `{!PercentDecoding decode} rounds s n :
  safe_segment_rounds rounds s = true -> harmless_segment s -> harmless_segment (Nat.iter n decode s).
Proof.
  revert s n. induction rounds as [| rounds IH]; intros s n Hok Hs; cbn [safe_segment_rounds] in Hok.
  - apply negb_true_iff, contains_byte_false in Hok. by rewrite iter_fixed by (by apply decode_fixed).
  - destruct n as [| n]; [done |]. rewrite Nat.iter_succ_r.
    destruct (percent_decode_path_segment s) as [d |] eqn:Hd; [| done]. rewrite (decode_strict decode s d Hd).
    destruct (unsafe_decoded_forward_path_segment d) eqn:Hu; [done |].
    destruct (utf8_valid d); cbn [negb] in Hok; [| done].
    destruct (any_control d) eqn:Hc; [done |]. pose proof (decoded_harmless d Hu Hc) as Hh.
    destruct (contains_byte PERCENT d) eqn:Hp; cbn [negb] in Hok; [by apply IH |].
    apply contains_byte_false in Hp. by rewrite iter_fixed by (by apply decode_fixed).
Qed.

Lemma any_control_suffix l s : any_control (l ++ s) = false -> any_control s = false.
Proof. induction l as [| c l IH]; cbn [app any_control]; [done |]. intros [_ H]%orb_false_iff. auto. Qed.
Lemma any_control_prefix s r : any_control (s ++ r) = false -> any_control s = false.
Proof.
  induction s as [| c s IH]; cbn [app any_control]; [done |]. intros [[-> H]%orb_false_iff Hs]%orb_false_iff.
  rewrite (IH Hs). destruct s; [done |]. cbn [app] in H. by rewrite H.
Qed.
Lemma any_control_split c s p : any_control s = false -> p ∈ split_byte c s -> any_control p = false.
Proof.
  intros Hs (l & r & ->)%split_byte_infix. eapply any_control_prefix, any_control_suffix, Hs.
Qed.

(** A path the check accepts stays where it is: it is absolute, and however
    often its segments are decoded, none of them becomes a step to the same or
    the parent directory, and none gets a separator or a control character. *)
Lemma safe_segments (decode : list Z -> list Z) `{!PercentDecoding decode} (path segment : list Z) (n : nat) :
  safe_forward_path path = true -> segment ∈ split_byte SLASH path ->
  head path = Some SLASH /\ harmless_segment (Nat.iter n decode segment).
Proof.
  unfold safe_forward_path. intros Hok Hin.
  destruct (negb _ || _ || _) eqn:Hbad; [done |]. apply orb_false_iff in Hbad as [[Hslash Hctl]%orb_false_iff Hback].
  apply negb_false_iff, starts_with_true in Hslash as [rest ->]. split; [done |].
  destruct (_ && _); [done |]. rewrite forallb_forall in Hok.
  specialize (Hok segment ltac:(by apply list_elem_of_In)). unfold safe_forward_path_segment in Hok.
  destruct (dot_segment segment) eqn:Hdot; [done |]. apply (rounds_harmless decode 3); [done |].
  unfold dot_segment in Hdot. apply bool_decide_eq_false in Hdot. apply contains_byte_false in Hback.
  split_and!; [tauto | tauto | | | by eapply any_control_split].
  - apply (proj1 (Forall_forall _ _) (split_byte_pieces SLASH _) _ Hin).
  - intros Hb. apply split_byte_infix in Hin as (l & r & E). apply Hback. rewrite E. set_solver.
Qed.
