(* ===== verification/HostRouter.v ===== *)
(** * Choosing the virtual host ([fluxheim-server/src/native_http1_host_router.rs])

    The table of host names built from the configuration and the choice of the
    virtual host that answers a request, with the contract of that choice: the
    host itself where it is declared, else the closest wildcard above it. *)
From Stdlib Require Import ZArith Lia Sorting.Sorted.
From stdpp Require Import base list numbers strings sets gmap.
From S2P Require Import Prelude Text NetAddr Http1Target Http1Head HostNames Headers RequestHeaders Choice.

Section Router.
(** The handler of a virtual host and what it is built from. *)
Context {Proxy Rest : Type}.

Record VhostConfig : Type := mkVhost {
  vh_name : list Z;
  vh_hosts : list (list Z);
  vh_rest : Rest;
}.
Record RouterConfig : Type := mkRouterConfig {
  rc_vhosts : list VhostConfig;
  rc_default_vhost : option (list Z);
  rc_strict : bool;
}.
Record NativeHttp1WildcardHost : Type := mkWildcard {
  wc_suffix : list Z;
  wc_proxy : Proxy;
}.
Record NativeHttp1HostRouter : Type := mkRouter {
  hr_exact_hosts : gmap (list Z) Proxy;
  hr_wildcard_hosts : list NativeHttp1WildcardHost;
  hr_default_proxy : Proxy;
  hr_strict : bool;
}.
Inductive NativeHostRouteError : Type := HostMissing | HostInvalid | HostUnknown.
Inductive RouteProxyError : Type := MissingRouteAction | OtherRouteError.
Inductive NativeHttp1HostRouterConfigError : Type :=
| InvalidHostPattern (vhost host : list Z)
| MissingDefaultVhost (name : list Z)
| MissingVhost
| RouteProxyFailed (error : RouteProxyError).

(** ** Building the table *)

(** [route_proxy_from_config] and the proxy of the top-level configuration *)
Context (route_proxy_from_config : VhostConfig -> result Proxy RouteProxyError).
Context (root_proxy : result Proxy RouteProxyError).

Fixpoint add_hosts (vhost : VhostConfig) (proxy : Proxy) (hosts : list (list Z))
    (exact_hosts : gmap (list Z) Proxy) (wildcard_hosts : list NativeHttp1WildcardHost)
    : result (gmap (list Z) Proxy * list NativeHttp1WildcardHost) NativeHttp1HostRouterConfigError :=
  match hosts with
  | [] => Ok (exact_hosts, wildcard_hosts)
  | host :: hosts =>
      match normalize_host_pattern host with
      | None => Err (InvalidHostPattern (vh_name vhost) host)
      | Some normalized =>
          match strip_prefix (bs "*.") normalized with
          | Some suffix => add_hosts vhost proxy hosts exact_hosts (wildcard_hosts ++ [mkWildcard suffix proxy])
          | None => add_hosts vhost proxy hosts (<[normalized := proxy]> exact_hosts) wildcard_hosts
          end
      end
  end.
Fixpoint add_vhosts (vhosts : list VhostConfig) (proxies : list (list Z * Proxy))
    (exact_hosts : gmap (list Z) Proxy) (wildcard_hosts : list NativeHttp1WildcardHost)
    : result (list (list Z * Proxy) * gmap (list Z) Proxy * list NativeHttp1WildcardHost) NativeHttp1HostRouterConfigError :=
  match vhosts with
  | [] => Ok (proxies, exact_hosts, wildcard_hosts)
  | vhost :: vhosts =>
      match route_proxy_from_config vhost with
      | Err error => Err (RouteProxyFailed error)
      | Ok proxy =>
          let? (exact_hosts, wildcard_hosts) := add_hosts vhost proxy (vh_hosts vhost) exact_hosts wildcard_hosts in
          add_vhosts vhosts (proxies ++ [(vh_name vhost, proxy)]) exact_hosts wildcard_hosts
      end
  end.

(** [sort_by_key(|wildcard| Reverse(wildcard.suffix.len()))]: a stable sort. *)
Fixpoint insert_by_len (w : NativeHttp1WildcardHost) (sorted : list NativeHttp1WildcardHost) : list NativeHttp1WildcardHost :=
  match sorted with
  | [] => [w]
  | x :: sorted' => if zlen (wc_suffix x) <=? zlen (wc_suffix w) then w :: sorted else x :: insert_by_len w sorted'
  end.
Definition sort_wildcards (l : list NativeHttp1WildcardHost) : list NativeHttp1WildcardHost := foldr insert_by_len [] l.

Definition default_proxy (config : RouterConfig) (proxies : list (list Z * Proxy))
    : result Proxy NativeHttp1HostRouterConfigError :=
  match rc_default_vhost config with
  | None => ok_or (snd <$> head proxies) MissingVhost
  | Some name => ok_or (snd <$> head (List.filter (fun p => bool_decide (p.1 = name)) proxies)) (MissingDefaultVhost name)
  end.

Definition from_root_config : result NativeHttp1HostRouter NativeHttp1HostRouterConfigError :=
  match root_proxy with
  | Ok proxy => Ok (mkRouter ∅ [] proxy false)
  | Err MissingRouteAction => Err MissingVhost
  | Err error => Err (RouteProxyFailed error)
  end.
Definition router_from_config (config : RouterConfig) : result NativeHttp1HostRouter NativeHttp1HostRouterConfigError :=
  if bool_decide (rc_vhosts config = []) then from_root_config
  else
    let? (added, wildcard_hosts) := add_vhosts (rc_vhosts config) [] ∅ [] in
    let '(proxies, exact_hosts) := added in
    let wildcard_hosts := sort_wildcards wildcard_hosts in
    let? proxy := default_proxy config proxies in
    Ok (mkRouter exact_hosts wildcard_hosts proxy (rc_strict config)).

(** ** Choosing *)

Definition wildcard_matches (host suffix : list Z) : bool :=
  (zlen suffix + 1 <? zlen host) && ends_with suffix host
  && bool_decide (zget host (zlen host - zlen suffix - 1) = Some 46).

Definition router_select (router : NativeHttp1HostRouter) (host : option (list Z)) : result Proxy NativeHostRouteError :=
  match host with
  | None => if hr_strict router then Err HostMissing else Ok (hr_default_proxy router)
  | Some host =>
      match normalize_host host with
      | None => if hr_strict router then Err HostInvalid else Ok (hr_default_proxy router)
      | Some host =>
          match hr_exact_hosts router !! host with
          | Some proxy => Ok proxy
          | None =>
              match head (List.filter (fun w => wildcard_matches host (wc_suffix w)) (hr_wildcard_hosts router)) with
              | Some w => Ok (wc_proxy w)
              | None => if hr_strict router then Err HostUnknown else Ok (hr_default_proxy router)
              end
          end
      end
  end.

Definition request_host (r : NativeHttp1Request) : option (list Z) :=
  (fun h => trim h.2) <$> head (List.filter (fun h => named (bs "host") h && negb (bool_decide (trim h.2 = []))) (rq_headers r)).
Definition select_request (router : NativeHttp1HostRouter) (r : NativeHttp1Request) : result Proxy NativeHostRouteError :=
  router_select router (request_host r).

(** ** The contract *)

(** What the configuration declares, in order: a host or a wildcard, with the
    handler of its virtual host. *)
Inductive Declared : Type := Host (name : list Z) | Below (suffix : list Z).
Definition declared_pattern (pattern : list Z) : option Declared :=
  let* normalized := normalize_host_pattern pattern in
  Some (match strip_prefix (bs "*.") normalized with Some suffix => Below suffix | None => Host normalized end).
Definition declared_vhost (vhost : VhostConfig) : list (Declared * Proxy) :=
  match route_proxy_from_config vhost with
  | Ok proxy => (fun d => (d, proxy)) <$> omap declared_pattern (vh_hosts vhost)
  | Err _ => []
  end.
Definition declared (config : RouterConfig) : list (Declared * Proxy) := vh ← rc_vhosts config; declared_vhost vh.

(** A name below a suffix has at least one more label. *)
Definition below (name suffix : list Z) : Prop := exists label, label <> [] /\ name = label ++ [46] ++ suffix.

(** The handler a declaration list gives a name to: the last declaration of the
    name itself, else the first of the longest suffixes it is below. *)
Inductive owner (decls : list (Declared * Proxy)) (name : list Z) : option Proxy -> Prop :=
| OwnExact proxy before after :
    decls = before ++ (Host name, proxy) :: after -> (forall p, (Host name, p) ∉ after) -> owner decls name (Some proxy)
| OwnWildcard suffix proxy before after :
    decls = before ++ (Below suffix, proxy) :: after -> (forall p, (Host name, p) ∉ decls) -> below name suffix ->
    (forall s p, (Below s, p) ∈ before -> below name s -> zlen s < zlen suffix) ->
    (forall s p, (Below s, p) ∈ after -> below name s -> zlen s <= zlen suffix) -> owner decls name (Some proxy)
| OwnNone :
    (forall p, (Host name, p) ∉ decls) -> (forall s p, (Below s, p) ∈ decls -> ~ below name s) -> owner decls name None.
End Router.

(** * The virtual host of a request

    The table built from a configuration gives every name to the handler the
    contract of [HostRouter] names. *)
Section RouterProps.
Context {Proxy Rest : Type}.
Local Abbreviation wildcard := (@NativeHttp1WildcardHost Proxy).
Context (route_proxy_from_config : @VhostConfig Rest -> result Proxy RouteProxyError).
Context (root_proxy : result Proxy RouteProxyError).

(** ** The tables are the declarations *)

Definition add_declared (exact_hosts : gmap (list Z) Proxy) (d : Declared * Proxy) : gmap (list Z) Proxy :=
  match d with (Host name, proxy) => <[name := proxy]> exact_hosts | (Below _, _) => exact_hosts end.
Definition declared_wildcard (d : Declared * Proxy) : option wildcard :=
  match d with (Host _, _) => None | (Below suffix, proxy) => Some (mkWildcard suffix proxy) end.
Lemma add_hosts_declared (vhost : @VhostConfig Rest) (proxy : Proxy) hosts e w e' w' :
  add_hosts vhost proxy hosts e w = Ok (e', w') ->
  let decls := (fun d => (d, proxy)) <$> omap declared_pattern hosts in
  e' = foldl add_declared e decls /\ w' = w ++ omap declared_wildcard decls.
Proof.
  revert e w. induction hosts as [| host hosts IH]; intros e w; cbn [add_hosts].
  { intros [= <- <-]. cbn. by rewrite app_nil_r. }
  cbn [omap list_omap]. change (declared_pattern host) with
    (let* normalized := normalize_host_pattern host in
     Some (match strip_prefix (bs "*.") normalized with Some suffix => Below suffix | None => Host normalized end)).
  destruct (normalize_host_pattern host) as [n |]; [| done].
  destruct (strip_prefix (bs "*.") n) as [suffix |]; intros [He Hw]%IH; subst e' w'; (split; [done |]).
  - cbn [fmap list_fmap omap list_omap declared_wildcard]. by rewrite <- app_assoc.
  - done.
Qed.
Lemma add_vhosts_declared vhosts proxies e w proxies' e' w' :
  add_vhosts route_proxy_from_config vhosts proxies e w = Ok (proxies', e', w') ->
  let decls := vh ← vhosts; declared_vhost route_proxy_from_config vh in
  e' = foldl add_declared e decls /\ w' = w ++ omap declared_wildcard decls.
Proof.
  revert proxies e w. induction vhosts as [| vhost vhosts IH]; intros proxies e w; cbn [add_vhosts].
  { intros [= <- <- <-]. cbn. by rewrite app_nil_r. }
  destruct (route_proxy_from_config vhost) as [proxy |] eqn:Hp; [| done].
  destruct (add_hosts vhost proxy (vh_hosts vhost) e w) as [[e1 w1] |] eqn:Hadd; [| done].
  apply add_hosts_declared in Hadd as [-> ->]. intros [He Hw]%IH. subst e' w'.
  cbn [mbind list_bind]. rewrite foldl_app, omap_app, app_assoc.
  replace (declared_vhost route_proxy_from_config vhost) with ((fun d => (d, proxy)) <$> omap declared_pattern (vh_hosts vhost))
    by (unfold declared_vhost; by rewrite Hp).
  done.
Qed.

(** ** Looking a name up *)

Lemma exact_none decls name e :
  foldl add_declared e decls !! name = None <-> e !! name = None /\ forall p, (Host name, p) ∉ decls.
Proof.
  revert e. induction decls as [| [[n | s] p] decls IH]; intros e; cbn [foldl add_declared]; [set_solver | |].
  - rewrite IH, lookup_insert_None. set_solver.
  - rewrite IH. set_solver.
Qed.
Lemma exact_some decls name proxy :
  foldl add_declared ∅ decls !! name = Some proxy ->
  exists before after, decls = before ++ (Host name, proxy) :: after /\ forall p, (Host name, p) ∉ after.
Proof.
  induction decls as [| d decls IH] using rev_ind; [done |]. rewrite foldl_app. cbn [foldl].
  destruct d as [[n | s] p]; cbn [add_declared].
  - destruct (decide (n = name)) as [-> | Hne].
    + rewrite lookup_insert_eq. intros [= ->]. exists decls, []. split; [done | set_solver].
    + rewrite lookup_insert_ne by done. intros (l & r & -> & Hr)%IH. exists l, (r ++ [(Host n, p)]).
      split; [by rewrite <- app_assoc | set_solver].
  - intros (l & r & -> & Hr)%IH. exists l, (r ++ [(Below s, p)]). split; [by rewrite <- app_assoc | set_solver].
Qed.

Lemma wildcard_matches_below host suffix : wildcard_matches host suffix = true <-> below host suffix.
Proof.
  unfold wildcard_matches, below, ends_with. rewrite !andb_true_iff, Z.ltb_lt, bool_decide_eq_true. split.
  - intros [[Hlen Hend] Hdot]. destruct (strip_suffix suffix host) as [front |] eqn:Hs; [| done].
    apply strip_suffix_Some in Hs as ->. rewrite zlen_app in *.
    destruct front as [| x label _] using rev_ind; [rewrite zlen_nil in Hlen; lia |]. exists label.
    rewrite <- app_assoc, zlen_app, zlen_cons, zlen_nil in *.
    replace (zlen label + (1 + 0) + zlen suffix - zlen suffix - 1) with (zlen label) in Hdot by lia.
    rewrite zget_app_ge in Hdot by lia. rewrite Z.sub_diag in Hdot. cbn in Hdot. injection Hdot as ->.
    split; [intros ->; rewrite zlen_nil in Hlen; lia | done].
  - intros (label & Hl & ->). assert (0 < zlen label) by (destruct label; [done | rewrite zlen_cons; zl]).
    rewrite !zlen_app, zlen_cons, zlen_nil. split_and!; [lia | |].
    + rewrite app_assoc, strip_suffix_app. done.
    + rewrite zget_app_ge by lia. replace (_ - zlen label) with 0 by lia. done.
Qed.

(** ** The longest suffix comes first *)

Definition longer_first (x y : wildcard) : Prop := zlen (wc_suffix y) <= zlen (wc_suffix x).
Lemma insert_elem (w : wildcard) l x : x ∈ insert_by_len w l <-> x = w \/ x ∈ l.
Proof. induction l as [| y l IH]; cbn [insert_by_len]; [set_solver |]. destruct (_ <=? _); set_solver. Qed.
Lemma insert_sorted (w : wildcard) l : StronglySorted longer_first l -> StronglySorted longer_first (insert_by_len w l).
Proof.
  induction 1 as [| x l Hs IH Hx]; cbn [insert_by_len]; [repeat constructor |].
  destruct (Z.leb_spec (zlen (wc_suffix x)) (zlen (wc_suffix w))) as [Hle | Hlt].
  - constructor; [by constructor |]. constructor; [done |]. eapply Forall_impl; [exact Hx |].
    unfold longer_first. intros y ?. lia.
  - constructor; [done |]. apply Forall_forall. intros y [-> | Hy]%insert_elem; [unfold longer_first; lia |].
    by eapply (proj1 (Forall_forall _ _)).
Qed.
Lemma sort_wildcards_sorted l : StronglySorted longer_first (sort_wildcards l).
Proof. induction l as [| w l IH]; [constructor | by apply insert_sorted]. Qed.

Section First.
Context (matching : wildcard -> bool).
Lemma insert_skips w l : matching w = false -> List.filter matching (insert_by_len w l) = List.filter matching l.
Proof.
  intros Hw. induction l as [| x l IH]; cbn [insert_by_len List.filter]; [by rewrite Hw |].
  destruct (_ <=? _); cbn [List.filter]; [by rewrite Hw |]. by rewrite IH.
Qed.
Lemma insert_first w l :
  matching w = true -> StronglySorted longer_first l ->
  head (List.filter matching (insert_by_len w l)) =
  match head (List.filter matching l) with
  | Some y => if zlen (wc_suffix y) <=? zlen (wc_suffix w) then Some w else Some y
  | None => Some w
  end.
Proof.
  intros Hw. induction 1 as [| x l Hs IH Hx]; cbn [insert_by_len]; [cbn [List.filter]; by rewrite Hw |].
  destruct (Z.leb_spec (zlen (wc_suffix x)) (zlen (wc_suffix w))) as [Hle | Hlt].
  - destruct (head (List.filter matching (x :: l))) as [y |] eqn:Hy;
      change (List.filter matching (w :: x :: l)) with (if matching w then w :: List.filter matching (x :: l) else List.filter matching (x :: l));
      rewrite Hw; [| done].
    enough (zlen (wc_suffix y) <= zlen (wc_suffix w)) as ->%Z.leb_le by done.
    assert (y ∈ x :: l) as [-> | Hin]%elem_of_cons.
    { apply list_elem_of_In. apply (proj1 (filter_In matching y (x :: l))). apply list_elem_of_In.
      by apply head_Some_elem_of. }
    + done.
    + rewrite Forall_forall in Hx. specialize (Hx y Hin). unfold longer_first in Hx. lia.
  - cbn [List.filter]. destruct (matching x); [| exact IH]. cbn. by rewrite (proj2 (Z.leb_gt _ _)).
Qed.

(** The first match in the sorted table, among the declarations. *)
Lemma first_is_best l :
  first_max (fun w => matching w = true) (fun w => zlen (wc_suffix w)) l (head (List.filter matching (sort_wildcards l))).
Proof.
  induction l as [| w l IH]; [apply first_max_nil |]. cbn [sort_wildcards foldr].
  fold (sort_wildcards l). destruct (matching w) eqn:Hw.
  - rewrite (insert_first w _ Hw (sort_wildcards_sorted l)). 
    by apply (first_max_cons (fun w => matching w = true) (fun w => zlen (wc_suffix w))).
  - rewrite (insert_skips w _ Hw). apply first_max_cons_skip; [by rewrite Hw | done].
Qed.
End First.

Lemma declared_split decls before w after :
  omap declared_wildcard decls = before ++ w :: after ->
  exists before' after', decls = before' ++ (Below (wc_suffix w), wc_proxy w) :: after'
    /\ omap declared_wildcard before' = before /\ omap declared_wildcard after' = after.
Proof.
  revert before. induction decls as [| [[n | s] p] decls IH]; intros before; cbn [omap list_omap declared_wildcard].
  - intros E. by destruct before.
  - intros (b & a & -> & Hb & Ha)%IH. exists ((Host n, p) :: b), a. done.
  - destruct before as [| x before]; cbn [app]; intros E.
    + injection E as <- <-. exists [], decls. done.
    + assert (x = mkWildcard s p) as -> by congruence. assert (omap declared_wildcard decls = before ++ w :: after) as E' by congruence.
      apply IH in E' as (b & a & -> & Hb & Ha). exists ((Below s, p) :: b), a. split_and!; [done | | done].
      cbn [omap list_omap declared_wildcard]. by rewrite Hb.
Qed.
Lemma elem_of_wildcards (decls : list (Declared * Proxy)) s p : (Below s, p) ∈ decls -> mkWildcard s p ∈ omap declared_wildcard decls.
Proof. intros Hin. apply list_elem_of_omap. by exists (Below s, p). Qed.

(** The choice in the tables is the owner of the name. *)
Definition looked_up (exact_hosts : gmap (list Z) Proxy) (wildcards : list wildcard) (name : list Z) : option Proxy :=
  match exact_hosts !! name with
  | Some proxy => Some proxy
  | None => wc_proxy <$> head (List.filter (fun w => wildcard_matches name (wc_suffix w)) wildcards)
  end.
Lemma looked_up_owner decls name :
  owner decls name (looked_up (foldl add_declared ∅ decls) (sort_wildcards (omap declared_wildcard decls)) name).
Proof.
  unfold looked_up. destruct (foldl add_declared ∅ decls !! name) as [proxy |] eqn:He.
  { apply exact_some in He as (b & a & -> & Ha). by eapply OwnExact. }
  apply exact_none in He as [_ Hno].
  pose proof (first_is_best (fun w => wildcard_matches name (wc_suffix w)) (omap declared_wildcard decls)) as Hbest.
  destruct (head _) as [w |]; cbn [fmap option_fmap option_map].
  - destruct Hbest as (b & a & (b' & a' & E & Hb' & Ha')%declared_split & Hm & Hb & Ha).
    apply wildcard_matches_below in Hm. eapply OwnWildcard; [exact E | done | done | |].
    + intros s p Hin%elem_of_wildcards Hbe. rewrite Hb' in Hin. apply (Hb _ Hin). by apply wildcard_matches_below.
    + intros s p Hin%elem_of_wildcards Hbe. rewrite Ha' in Hin. apply (Ha _ Hin). by apply wildcard_matches_below.
  - apply OwnNone; [done |]. intros s p Hin%elem_of_wildcards Hbe%wildcard_matches_below.
    by apply (Hbest _ Hin).
Qed.

(** C10: host routing is exact.  For a router built from a configuration with
    virtual hosts, a request for a well-formed host goes to the virtual host
    that declares it last; if none does, to the first that declares the longest
    wildcard suffix the host is below; and if there is none either, to the
    default virtual host, or to nobody when routing is strict. *)
Theorem host_routing_exact (config : RouterConfig) (router : NativeHttp1HostRouter) (host name : list Z) :
  rc_vhosts config <> [] -> router_from_config route_proxy_from_config root_proxy config = Ok router ->
  normalize_host host = Some name ->
  exists o, owner (declared route_proxy_from_config config) name o
    /\ router_select router (Some host)
       = match o with
         | Some proxy => Ok proxy
         | None => if rc_strict config then Err HostUnknown else Ok (hr_default_proxy router)
         end.
Proof.
  intros Hv Hr Hn. unfold router_from_config in Hr. rewrite bool_decide_false in Hr by done.
  destruct (add_vhosts _ _ _ _ _) as [[[proxies e] w] |] eqn:Hadd; [| done].
  apply add_vhosts_declared in Hadd as [-> ->].
  destruct (default_proxy config proxies) as [proxy |] eqn:Hd; [| done]. injection Hr as <-.
  eexists. split; [apply looked_up_owner |]. unfold router_select, looked_up, declared.
  rewrite Hn. cbn [hr_exact_hosts hr_wildcard_hosts hr_strict hr_default_proxy app].
  destruct (_ !! name); [done |]. destruct (head _); [done |]. by destruct (rc_strict config).
Qed.
End RouterProps.
