(* ===== verification/AccessPolicy.v ===== *)
(** * Access policies ([fluxheim-server/src/native_http1_route_limits/access.rs])

    Who may reach a virtual host or a route: by client address, by client
    certificate and by where the address is, and the path a policy is also
    looked up for when a request spells its path with escapes. *)
From Stdlib Require Import ZArith Lia.
From stdpp Require Import base list numbers strings sets.
From S2P Require Import Prelude Text NetAddr ProxyProtocol Http1Target Http1Head HostNames Headers RequestHeaders.

Record AccessPolicyConfig : Type := mkAccessConfig {
  ac_enabled : bool;
  ac_allow : list (list Z);
  ac_deny : list (list Z);
  ac_require_client_cert : bool;
  ac_allow_client_cert_sha256 : list (list Z);
  ac_deny_client_cert_sha256 : list (list Z);
  ac_allow_countries : list (list Z);
  ac_deny_countries : list (list Z);
  ac_allow_asns : list Z;
  ac_deny_asns : list Z;
}.
Record NativeIpAccessPolicy : Type := mkAccess {
  ap_enabled : bool;
  ap_allow : list ProxyProtocolTrustedSource;
  ap_deny : list ProxyProtocolTrustedSource;
  ap_require_client_cert : bool;
  ap_allow_client_cert_sha256 : list (list Z);
  ap_deny_client_cert_sha256 : list (list Z);
  ap_allow_countries : list (list Z);
  ap_deny_countries : list (list Z);
  ap_allow_asns : list Z;
  ap_deny_asns : list Z;
}.
Record NativeHttp1GeoContext : Type := mkGeo {
  geo_country_iso : option (list Z);
  geo_asn : option Z;
}.
Definition access_default : NativeIpAccessPolicy := mkAccess false [] [] false [] [] [] [] [] [].

Fixpoint parse_native_access_sources (values : list (list Z)) : option (list ProxyProtocolTrustedSource) :=
  match values with
  | [] => Some []
  | value :: values =>
      let* source := result_ok (parse_proxy_protocol_trusted_source value) in
      let* sources := parse_native_access_sources values in
      Some (source :: sources)
  end.
(** [NativeIpAccessPolicy::from_config]; an unreadable source is the only error. *)
Definition access_from_config (access : AccessPolicyConfig) : option NativeIpAccessPolicy :=
  if negb (ac_enabled access) then Some access_default
  else
    let* allow := parse_native_access_sources (ac_allow access) in
    let* deny := parse_native_access_sources (ac_deny access) in
    Some (mkAccess true allow deny (ac_require_client_cert access)
            (to_ascii_lowercase <$> ac_allow_client_cert_sha256 access)
            (to_ascii_lowercase <$> ac_deny_client_cert_sha256 access)
            (to_ascii_lowercase <$> ac_allow_countries access)
            (to_ascii_lowercase <$> ac_deny_countries access)
            (ac_allow_asns access) (ac_deny_asns access)).

Definition listed {A} `{EqDecision A} (x : A) (l : list A) : bool := bool_decide (x ∈ l).
Definition allows_client_certificate (p : NativeIpAccessPolicy) (tls_identity : option TlsClientIdentity) : bool :=
  let cert_sha256 := to_ascii_lowercase <$> (tls_identity ≫= ti_cert_sha256) in
  if ap_require_client_cert p && negb (bool_decide (is_Some cert_sha256)) then false
  else
    match cert_sha256 with
    | None => bool_decide (ap_allow_client_cert_sha256 p = [])
    | Some cert =>
        if listed cert (ap_deny_client_cert_sha256 p) then false
        else bool_decide (ap_allow_client_cert_sha256 p = []) || listed cert (ap_allow_client_cert_sha256 p)
    end.
Definition is_listed {A} `{EqDecision A} (x : option A) (l : list A) : bool :=
  match x with Some x => listed x l | None => false end.
Definition allows_geo (p : NativeIpAccessPolicy) (geo_context : option NativeHttp1GeoContext) : bool :=
  let has_allow := negb (bool_decide (ap_allow_countries p = [])) || negb (bool_decide (ap_allow_asns p = [])) in
  let has_deny := negb (bool_decide (ap_deny_countries p = [])) || negb (bool_decide (ap_deny_asns p = [])) in
  if negb has_allow && negb has_deny then true
  else
    match geo_context with
    | None => negb has_allow
    | Some geo =>
        let country := to_ascii_lowercase <$> geo_country_iso geo in
        if is_listed country (ap_deny_countries p) then false
        else if negb (bool_decide (ap_allow_countries p = [])) && negb (is_listed country (ap_allow_countries p)) then false
        else if is_listed (geo_asn geo) (ap_deny_asns p) then false
        else bool_decide (ap_allow_asns p = []) || is_listed (geo_asn geo) (ap_allow_asns p)
    end.

Definition access_allows (p : NativeIpAccessPolicy) (client_ip : option IpAddr) (tls_identity : option TlsClientIdentity)
    (geo_context : option NativeHttp1GeoContext) : bool :=
  if negb (ap_enabled p) then true
  else
    let ip_restrictive := negb (bool_decide (ap_allow p = [])) || negb (bool_decide (ap_deny p = [])) in
    match client_ip with
    | Some ip =>
        if existsb (fun source => source_contains source ip) (ap_deny p) then false
        else if negb (bool_decide (ap_allow p = []))
                && negb (existsb (fun source => source_contains source ip) (ap_allow p)) then false
        else allows_client_certificate p tls_identity && allows_geo p geo_context
    | None =>
        if ip_restrictive then false
        else allows_client_certificate p tls_identity && allows_geo p geo_context
    end.

(** ** What an allowed request has *)

(** A list that restricts asks for a member; a list that forbids has none. *)
Definition passes {A} (allow deny : A -> Prop) (restricting : Prop) (x : option A) : Prop :=
  (restricting -> exists a, x = Some a /\ allow a) /\ (forall a, x = Some a -> ~ deny a).

Definition ip_ok (p : NativeIpAccessPolicy) (client_ip : option IpAddr) : Prop :=
  passes (fun ip => exists s, s ∈ ap_allow p /\ source_contains s ip = true)
         (fun ip => exists s, s ∈ ap_deny p /\ source_contains s ip = true) (ap_allow p <> []) client_ip
  /\ (ap_deny p <> [] -> client_ip <> None).
Definition cert_ok (p : NativeIpAccessPolicy) (cert : option (list Z)) : Prop :=
  passes (fun c => c ∈ ap_allow_client_cert_sha256 p) (fun c => c ∈ ap_deny_client_cert_sha256 p)
         (ap_allow_client_cert_sha256 p <> []) cert
  /\ (ap_require_client_cert p = true -> cert <> None).
Definition geo_ok (p : NativeIpAccessPolicy) (country : option (list Z)) (asn : option Z) : Prop :=
  passes (fun c => c ∈ ap_allow_countries p) (fun c => c ∈ ap_deny_countries p) (ap_allow_countries p <> []) country
  /\ passes (fun a => a ∈ ap_allow_asns p) (fun a => a ∈ ap_deny_asns p) (ap_allow_asns p <> []) asn.

Definition certificate_of (tls_identity : option TlsClientIdentity) : option (list Z) :=
  to_ascii_lowercase <$> (tls_identity ≫= ti_cert_sha256).
Definition country_of (geo_context : option NativeHttp1GeoContext) : option (list Z) :=
  to_ascii_lowercase <$> (geo_context ≫= geo_country_iso).

Lemma passes_listed {A} `{EqDecision A} (allow deny : list A) x :
  passes (fun a => a ∈ allow) (fun a => a ∈ deny) (allow <> []) x
  <-> is_listed x deny = false /\ (bool_decide (allow = []) || is_listed x allow) = true.
Proof.
  unfold passes, is_listed, listed. destruct x as [x |].
  - rewrite bool_decide_eq_false, orb_true_iff, !bool_decide_eq_true. destruct (decide (allow = [])); naive_solver.
  - rewrite orb_false_r, bool_decide_eq_true. destruct (decide (allow = [])); naive_solver.
Qed.
Lemma is_listed_nil {A} `{EqDecision A} (x : option A) : is_listed x [] = false.
Proof. by destruct x. Qed.
Lemma allows_client_certificate_ok p tls_identity :
  allows_client_certificate p tls_identity = true <-> cert_ok p (certificate_of tls_identity).
Proof.
  unfold allows_client_certificate, cert_ok. fold (certificate_of tls_identity). rewrite passes_listed.
  destruct (certificate_of tls_identity) as [cert |]; cbn [is_listed].
  - rewrite bool_decide_true by eauto. rewrite andb_false_r. destruct (listed cert _); naive_solver.
  - rewrite bool_decide_false by (by intros [? ?]). rewrite andb_true_r, orb_false_r.
    destruct (ap_require_client_cert p); naive_solver.
Qed.
Lemma allows_geo_ok p geo_context :
  allows_geo p geo_context = true <-> geo_ok p (country_of geo_context) (geo_context ≫= geo_asn).
Proof.
  unfold allows_geo, geo_ok, country_of. rewrite !passes_listed.
  destruct (_ && _) eqn:He.
  { rewrite !andb_true_iff, !negb_true_iff, !orb_false_iff, !negb_false_iff, !bool_decide_eq_true in He.
    destruct He as [[-> ->] [-> ->]]. rewrite !is_listed_nil. tauto. }
  clear He. destruct geo_context as [[country asn] |]; cbn [geo_country_iso geo_asn mbind option_bind].
  - destruct (is_listed _ (ap_deny_countries p)), (is_listed _ (ap_allow_countries p)), (is_listed asn (ap_deny_asns p)),
      (bool_decide (ap_allow_countries p = [])); cbn [andb orb negb]; intuition congruence.
  - cbn [is_listed fmap option_fmap option_map]. rewrite !orb_false_r.
    destruct (bool_decide (ap_allow_countries p = [])), (bool_decide (ap_allow_asns p = [])); cbn; intuition congruence.
Qed.

(** An enabled policy lets a request through exactly when its address, its
    certificate and its place all pass. *)
Lemma any_source sources ip :
  existsb (fun source => source_contains source ip) sources = true
  <-> exists s, s ∈ sources /\ source_contains s ip = true.
Proof. rewrite existsb_exists. by setoid_rewrite list_elem_of_In. Qed.
Lemma access_allows_ok p client_ip tls_identity geo_context :
  access_allows p client_ip tls_identity geo_context = true
  <-> ap_enabled p = false
      \/ ip_ok p client_ip /\ cert_ok p (certificate_of tls_identity)
         /\ geo_ok p (country_of geo_context) (geo_context ≫= geo_asn).
Proof.
  rewrite <- allows_client_certificate_ok, <- allows_geo_ok. unfold access_allows, ip_ok, passes.
  destruct (ap_enabled p); cbn [negb]; [| tauto]. destruct client_ip as [ip |].
  - destruct (existsb _ (ap_deny p)) eqn:Hd.
    { apply any_source in Hd. split; [done |]. intros [? | [[[_ Hno] _] _]]; [done |]. by destruct (Hno ip eq_refl). }
    rewrite <- not_true_iff_false, any_source in Hd.
    destruct (existsb _ (ap_allow p)) eqn:Ha.
    + apply any_source in Ha. rewrite andb_false_r, andb_true_iff. split; [| by intros [? | [_ ?]]].
      intros ?. right. split; [| done]. split; [split; [eauto |] | done]. by intros ? [= <-].
    + rewrite <- not_true_iff_false, any_source in Ha. rewrite andb_true_r. case_bool_decide as He; cbn [negb].
      * rewrite andb_true_iff. split; [| by intros [? | [_ ?]]]. intros ?. right. split; [| done].
        split; [split; [done |] | done]. by intros ? [= <-].
      * split; [done |]. intros [? | [[[Hex _] _] _]]; [done |]. destruct (Hex He) as (? & [= <-] & ?). done.
  - do 2 case_bool_decide; cbn [negb orb]; rewrite ?andb_true_iff; split; intros Hx; try done.
    + right. done.
    + destruct Hx as [? | [_ ?]]; done.
    + destruct Hx as [? | [[_ Hx] _]]; [done |]. by destruct Hx.
    + destruct Hx as [? | [[[Hx _] _] _]]; [done |]. by destruct Hx as (? & ? & ?).
    + destruct Hx as [? | [[[Hx _] _] _]]; [done |]. by destruct Hx as (? & ? & ?).
Qed.
