(* ===== verification/RouteMatch.v ===== *)
(** * Routes of a virtual host ([native_http1_route_matcher.rs],
    [native_http1_route_proxy_policy.rs], [native_http1_route_rewrite.rs],
    [native_http1_route_redirect.rs])

    Which route a request takes, which further route its access is judged by,
    how the path is rewritten and where a redirect leads. *)
From Stdlib Require Import ZArith Lia.
From stdpp Require Import base list numbers strings sets.
From S2P Require Import Prelude Text NetAddr ProxyProtocol Http1Target Http1Head Http1Chunked HostNames Headers RequestHeaders UpstreamRequest Choice PathSafety AccessPolicy.

(** ** Regular expressions *)

(** What is used of a compiled expression: whether it matches, the groups of a
    match, the whole match first, and the names of the groups. *)
Class RegexEngine (Regex : Type) : Type := {
  regex_is_match : Regex -> list Z -> bool;
  regex_captures : Regex -> list Z -> option (list (option (list Z)));
  regex_capture_names : Regex -> list (option (list Z));
}.

(** ** Matchers *)

Definition MAX_ROUTE_REGEX_CAPTURE_VALUES : Z := 16.
Definition MAX_ROUTE_REGEX_CAPTURE_VALUE_BYTES : Z := 256.

Section Matchers.
Context {Regex : Type} `{!RegexEngine Regex}.

Inductive NativeHttp1RouteMatcher : Type :=
| MExact (path : list Z)
| MPrefix (prefix : list Z)
| MRegex (regex : Regex)
| MFallback.

Definition matcher_is_match (m : NativeHttp1RouteMatcher) (path : list Z) : bool :=
  match m with
  | MRegex regex => regex_is_match regex path
  | MExact exact => bool_decide (path = exact)
  | MPrefix prefix => route_prefix_matches_path prefix path
  | MFallback => true
  end.
Definition matcher_prefix_len (m : NativeHttp1RouteMatcher) : Z :=
  match m with MPrefix prefix => zlen prefix | _ => 0 end.

(** [captures.get(index)] and the first of the groups with a name *)
Definition capture_get (captures : list (option (list Z))) (index : Z) : option (list Z) :=
  match zget captures index with Some group => group | None => None end.
Fixpoint name_index (names : list (option (list Z))) (key : list Z) (index : Z) : option Z :=
  match names with
  | [] => None
  | name :: names => if bool_decide (name = Some key) then Some index else name_index names key (index + 1)
  end.
Definition regex_capture_value (regex : Regex) (path variable : list Z) : option (list Z) :=
  let* key := strip_prefix (bs "route.regex.") variable in
  let* captures := regex_captures regex path in
  let* value :=
    (if forallb is_ascii_digit key then
       let* index := parse_uint USIZE_MAX key in
       if MAX_ROUTE_REGEX_CAPTURE_VALUES <=? index then None else capture_get captures index
     else
       let* index := name_index (ztake MAX_ROUTE_REGEX_CAPTURE_VALUES (regex_capture_names regex)) key 0 in
       capture_get captures index) in
  if zlen value <=? MAX_ROUTE_REGEX_CAPTURE_VALUE_BYTES then Some value else None.
Definition matcher_capture_value (m : NativeHttp1RouteMatcher) (path capture : list Z) : option (list Z) :=
  match m with MRegex regex => regex_capture_value regex path capture | _ => None end.

Fixpoint numbered_captures (captures : list (option (list Z))) (index : Z) : list (list Z * list Z) :=
  match captures with
  | [] => []
  | Some value :: captures => (bs "route.regex." ++ to_decimal index, value) :: numbered_captures captures (index + 1)
  | None :: captures => numbered_captures captures (index + 1)
  end.
(** [captures.name(name)]: the group of that name *)
Definition captures_name (regex : Regex) (captures : list (option (list Z))) (name : list Z) : option (list Z) :=
  let* index := name_index (regex_capture_names regex) name 0 in capture_get captures index.
Definition named_captures (regex : Regex) (captures : list (option (list Z))) : list (list Z * list Z) :=
  omap (fun name => let* name := name in
                    let* value := captures_name regex captures name in Some (bs "route.regex." ++ name, value))
       (regex_capture_names regex).
Definition header_captures (m : NativeHttp1RouteMatcher) (path : list Z) : list (list Z * list Z) :=
  match m with
  | MRegex regex =>
      match regex_captures regex path with
      | None => []
      | Some captures => numbered_captures (drop 1 captures) 1 ++ named_captures regex captures
      end
  | _ => []
  end.

(** ** Choosing a route *)

Section Select.
(** A route, of which only the methods and the matcher matter here. *)
Context {Route : Type} (rt_methods : Route -> list (list Z)) (rt_matcher : Route -> NativeHttp1RouteMatcher).

Fixpoint select_loop (method path : list Z) (include_fallback : bool) (routes : list Route)
    (fallback best_prefix first_regex : option Route) : option Route :=
  match routes with
  | [] => match best_prefix with Some r => Some r | None => match first_regex with Some r => Some r | None => fallback end end
  | route :: routes =>
      let continue_ := select_loop method path include_fallback routes in
      if negb (route_method_matches (rt_methods route) method) then continue_ fallback best_prefix first_regex
      else
        match rt_matcher route with
        | MExact exact =>
            if bool_decide (path = exact) then Some route else continue_ fallback best_prefix first_regex
        | MPrefix _ =>
            if matcher_is_match (rt_matcher route) path
               && match best_prefix with
                  | Some best => matcher_prefix_len (rt_matcher best) <? matcher_prefix_len (rt_matcher route)
                  | None => true
                  end
            then continue_ fallback (Some route) first_regex
            else continue_ fallback best_prefix first_regex
        | MRegex _ =>
            if bool_decide (first_regex = None) && matcher_is_match (rt_matcher route) path
            then continue_ fallback best_prefix (Some route)
            else continue_ fallback best_prefix first_regex
        | MFallback =>
            continue_ (if include_fallback then Some route else fallback) best_prefix first_regex
        end
  end.
Definition select_route_with_fallback (routes : list Route) (method path : list Z) (include_fallback : bool) : option Route :=
  select_loop method path include_fallback routes None None None.
Definition select_route (routes : list Route) (method path : list Z) : option Route :=
  select_route_with_fallback routes method path true.

(** The route of the path with its escapes undone, for its policies only; the
    decoder is that of the [percent_encoding] crate. *)
Context (percent_decode_str : list Z -> list Z).
Definition decoded_route_policy_path (path : list Z) : option (list Z) :=
  if negb (contains_byte PERCENT path) then None
  else
    let decoded := percent_decode_str path in
    if negb (utf8_valid decoded) then None
    else if bool_decide (decoded = path) || contains_byte 0 decoded || negb (starts_with [SLASH] decoded) then None
    else Some decoded.
Definition select_decoded_policy_route (routes : list Route) (method path : list Z) : option Route :=
  let* decoded_path := decoded_route_policy_path path in
  select_route_with_fallback routes method decoded_path false.
End Select.

(** ** Rewriting *)

Definition request_path_and_query (r : NativeHttp1Request) : option (list Z * option (list Z)) :=
  match http1_request_target (rq_method r) (rq_target r) with
  | Ok (Origin _ path query) => Some (path, query)
  | Ok (AbsoluteUri _ _ _ path query) => Some (default [SLASH] path, query)
  | Ok (Authority _ _) | Ok Asterisk => None
  | Err _ => None
  end.
Definition set_target (target : list Z) (r : NativeHttp1Request) : NativeHttp1Request :=
  mkRequest (rq_method r) (rq_peer_addr r) (rq_local_addr r) (rq_effective_client_addr r)
    (rq_downstream_tls r) (rq_tls_identity r) target (rq_version r) (rq_headers r) (rq_body r).

Record NativeRouteRewritePolicy : Type := mkRewrite {
  rw_matcher : NativeHttp1RouteMatcher;
  rw_strip_prefix : option (list Z);
  rw_rewrite_prefix : option (list Z);
  rw_rewrite_template : option (list Z);
}.

Definition upper_hex (n : Z) : Z := if n <? 10 then 48 + n else 55 + n.
Definition unreserved (byte : Z) : bool :=
  is_ascii_alphanumeric byte || (byte =? 45) || (byte =? 46) || (byte =? 95) || (byte =? 126).
(** [append_route_regex_capture_value], what it appends *)
Definition route_regex_capture_text (value : list Z) : list Z :=
  concat ((fun byte => if unreserved byte then [byte]
                       else [PERCENT; upper_hex (Z.shiftr byte 4); upper_hex (Z.land byte 15)]) <$> value).

(** The loop of [route_rewrite_template_path]; every round takes a brace off. *)
Fixpoint rewrite_template_loop (fuel : nat) (path : list Z) (m : NativeHttp1RouteMatcher) (rewritten rest : list Z)
    : option (list Z) :=
  match fuel with
  | O => None
  | S fuel =>
      match split_once 123 rest with
      | None => Some (rewritten ++ rest)
      | Some (before, after_open) =>
          let* (variable, rest) := split_once 125 after_open in
          let value := match matcher_capture_value m path variable with
                       | Some value => route_regex_capture_text value
                       | None => []
                       end in
          rewrite_template_loop fuel path m (rewritten ++ before ++ value) rest
      end
  end.
Definition route_rewrite_template_path (path : list Z) (m : NativeHttp1RouteMatcher) (template : list Z) : option (list Z) :=
  let* rewritten := rewrite_template_loop (S (length template)) path m [] template in
  if contains_byte 123 rewritten || contains_byte 125 rewritten then None else Some rewritten.

Definition rooted (suffix : list Z) : list Z :=
  if bool_decide (suffix = []) then [SLASH] else if starts_with [SLASH] suffix then suffix else SLASH :: suffix.
Definition join_route_rewrite_prefix (rewrite_prefix suffix : list Z) : option (list Z) :=
  if bool_decide (rewrite_prefix = [SLASH]) then Some (rooted suffix)
  else
    let rewritten_path :=
      if bool_decide (suffix = []) then rewrite_prefix
      else if ends_with [SLASH] rewrite_prefix && starts_with [SLASH] suffix then rewrite_prefix ++ drop 1 suffix
      else if ends_with [SLASH] rewrite_prefix || starts_with [SLASH] suffix then rewrite_prefix ++ suffix
      else rewrite_prefix ++ [SLASH] ++ suffix in
    if safe_forward_path rewritten_path then Some rewritten_path else None.

Definition with_query (path : list Z) (query : option (list Z)) : list Z :=
  match query with Some query => path ++ [63] ++ query | None => path end.
Definition rewrite_route_request (r : NativeHttp1Request) (policy : NativeRouteRewritePolicy) (path : list Z)
    (query : option (list Z)) : option NativeHttp1Request :=
  match rw_rewrite_template policy with
  | Some template =>
      let* rewritten_path := route_rewrite_template_path path (rw_matcher policy) template in
      if negb (safe_forward_path rewritten_path) then None
      else Some (set_target (with_query rewritten_path query) r)
  | None =>
      match rw_strip_prefix policy with
      | None => Some r
      | Some strip_prefix =>
          let* suffix := route_strip_prefix_suffix strip_prefix path in
          let* rewritten_path :=
            match rw_rewrite_prefix policy with
            | Some rewrite_prefix => join_route_rewrite_prefix rewrite_prefix suffix
            | None => Some (rooted suffix)
            end in
          if negb (safe_forward_path rewritten_path) then None
          else Some (set_target (with_query rewritten_path query) r)
      end
  end.
End Matchers.

(** ** Redirects *)

Record NativeHttp1RouteRedirect : Type := mkRedirect {
  rd_to : list Z;
  rd_status : Z;
}.
(** [s.replace(pattern, by)] for a pattern that is not empty *)
Fixpoint replace_go (skip : nat) (pattern by_ s : list Z) : list Z :=
  match s with
  | [] => []
  | c :: s' =>
      match skip with
      | S skip => replace_go skip pattern by_ s'
      | O => if starts_with pattern s then by_ ++ replace_go (length pattern - 1) pattern by_ s'
             else c :: replace_go 0 pattern by_ s'
      end
  end.
Definition replace_text (pattern by_ s : list Z) : list Z := replace_go 0 pattern by_ s.

Definition find_query_or_fragment (s : list Z) : option Z := position (fun c => (c =? 63) || (c =? 35)) s.
Definition redirect_template_substitutes_query_into_path (template : list Z) : bool :=
  match find_sub (bs "{query}") template with
  | None => false
  | Some query_token => query_token <? default (zlen template) (find_query_or_fragment template)
  end.
Definition redirect_query_path_expansion_safe (query : list Z) : bool :=
  if bool_decide (query = []) || any_control query then bool_decide (query = [])
  else safe_forward_path (SLASH :: query).

Definition strip_http_scheme (location : list Z) : option (list Z) :=
  match strip_prefix (bs "https://") location with
  | Some rest => Some rest
  | None => strip_prefix (bs "http://") location
  end.
Definition location_path (rest : list Z) : list Z :=
  let path_and_tail := match find_byte SLASH rest with Some path_start => zdrop path_start rest | None => [] end in
  ztake (default (zlen path_and_tail) (find_query_or_fragment path_and_tail)) path_and_tail.
Definition redirect_location_path_safe (location : list Z) : bool :=
  match strip_http_scheme location with
  | None => false
  | Some rest => bool_decide (location_path rest = []) || safe_forward_path (location_path rest)
  end.
Definition valid_redirect_location (location : list Z) : bool :=
  if negb (starts_with (bs "https://") location || starts_with (bs "http://") location)
     || negb (redirect_location_path_safe location) then false
  else negb (contains_byte 123 location) && negb (contains_byte 125 location)
       && negb (contains_byte BACKSLASH location) && negb (any_space_or_control location).
Definition route_redirect_location (r : NativeHttp1Request) (redirect : NativeHttp1RouteRedirect) : option (list Z) :=
  let* (path, query) := request_path_and_query r in
  let uri := with_query path query in
  if negb (safe_forward_path path) || any_control uri then None
  else if redirect_template_substitutes_query_into_path (rd_to redirect)
          && negb (redirect_query_path_expansion_safe (default [] query)) then None
  else
    let location := replace_text (bs "{query}") (default [] query)
                      (replace_text (bs "{path}") path (replace_text (bs "{uri}") uri (rd_to redirect))) in
    if valid_redirect_location location then Some location else None.

Record HttpsRedirectConfig : Type := mkHttpsRedirect {
  hs_enabled : bool;
  hs_status : Z;
  hs_target_port : option Z;
}.
Definition redirect_authority (host : list Z) (target_port : option Z) : option (list Z) :=
  let host := match parse_ipv6 host with Some _ => [91] ++ host ++ [93] | None => host end in
  match target_port with
  | None => Some host
  | Some port => if port =? 443 then Some host else if port =? 0 then None else Some (host ++ [58] ++ to_decimal port)
  end.
Definition https_redirect_location (r : NativeHttp1Request) (config : HttpsRedirectConfig) : option (list Z) :=
  let* host := request_header_value r (bs "host") in
  let* normalized_host := normalize_host host in
  let* authority := redirect_authority normalized_host (hs_target_port config) in
  if negb (starts_with [SLASH] (rq_target r)) || any_control (rq_target r) then None
  else Some (bs "https://" ++ authority ++ rq_target r).

(** * Choosing, rewriting and redirecting

    The route a request takes is the one the priorities name, a rewritten path
    and a redirect lead nowhere unexpected. *)
(** ** The chosen route *)

Section Chosen.
Context {Regex : Type} `{!RegexEngine Regex}.
Local Abbreviation matcher := (@NativeHttp1RouteMatcher Regex).
Context {Route : Type} (rt_methods : Route -> list (list Z)) (rt_matcher : Route -> matcher).
Context (method path : list Z).

(** A route of a kind that is for the method and matches the path. *)
Definition takes (kind : matcher -> Prop) (r : Route) : Prop :=
  route_method_matches (rt_methods r) method = true /\ kind (rt_matcher r) /\ matcher_is_match (rt_matcher r) path = true.
Definition is_exact (m : matcher) : Prop := match m with MExact _ => True | _ => False end.
Definition is_prefix (m : matcher) : Prop := match m with MPrefix _ => True | _ => False end.
Definition is_regex (m : matcher) : Prop := match m with MRegex _ => True | _ => False end.
Definition is_fallback (m : matcher) : Prop := match m with MFallback => True | _ => False end.
Definition none_takes (routes : list Route) (kind : matcher -> Prop) : Prop := forall x, x ∈ routes -> ~ takes kind x.

(** The first exact route, else the first of the longest prefixes, else the first
    expression that matches, else the last fallback, of those for the method. *)
Inductive chosen_route (routes : list Route) (include_fallback : bool) : option Route -> Prop :=
| ChosenExact r : first_of (takes is_exact) routes r -> chosen_route routes include_fallback (Some r)
| ChosenPrefix r :
    none_takes routes is_exact ->
    first_max (takes is_prefix) (fun x => matcher_prefix_len (rt_matcher x)) routes (Some r) ->
    chosen_route routes include_fallback (Some r)
| ChosenRegex r :
    none_takes routes is_exact -> none_takes routes is_prefix ->
    first_of (takes is_regex) routes r -> chosen_route routes include_fallback (Some r)
| ChosenFallback o :
    none_takes routes is_exact -> none_takes routes is_prefix -> none_takes routes is_regex ->
    (if include_fallback then last_of (takes is_fallback) routes o else o = None) ->
    chosen_route routes include_fallback o.

(** What the loop knows of the routes it has passed. *)
Record passed (routes : list Route) (include_fallback : bool) (fallback best_prefix first_regex : option Route) : Prop := {
  ps_exact : none_takes routes is_exact;
  ps_prefix : first_max (takes is_prefix) (fun x => matcher_prefix_len (rt_matcher x)) routes best_prefix;
  ps_regex : first_max (takes is_regex) (fun _ => 0) routes first_regex;
  ps_fallback : if include_fallback then last_of (takes is_fallback) routes fallback else fallback = None;
}.
Lemma none_takes_snoc routes kind x : none_takes routes kind -> ~ takes kind x -> none_takes (routes ++ [x]) kind.
Proof. intros Hr Hx y [Hy | ->%list_elem_of_singleton]%elem_of_app; [by apply Hr | done]. Qed.

(** One step of the loop, by what the route is. *)
Definition after_route (include_fallback : bool) (r : Route) (fallback best_prefix first_regex : option Route)
    : option Route * option Route * option Route :=
  if negb (route_method_matches (rt_methods r) method) then (fallback, best_prefix, first_regex)
  else
    match rt_matcher r with
    | MExact _ => (fallback, best_prefix, first_regex)
    | MPrefix _ =>
        if matcher_is_match (rt_matcher r) path
           && match best_prefix with
              | Some best => matcher_prefix_len (rt_matcher best) <? matcher_prefix_len (rt_matcher r)
              | None => true
              end
        then (fallback, Some r, first_regex) else (fallback, best_prefix, first_regex)
    | MRegex _ =>
        if bool_decide (first_regex = None) && matcher_is_match (rt_matcher r) path
        then (fallback, best_prefix, Some r) else (fallback, best_prefix, first_regex)
    | MFallback => (if include_fallback then Some r else fallback, best_prefix, first_regex)
    end.
Lemma select_loop_step include_fallback r rest fb bp fr :
  select_loop rt_methods rt_matcher method path include_fallback (r :: rest) fb bp fr =
  if route_method_matches (rt_methods r) method && match rt_matcher r with MExact exact => bool_decide (path = exact) | _ => false end
  then Some r
  else let '(fb, bp, fr) := after_route include_fallback r fb bp fr in
       select_loop rt_methods rt_matcher method path include_fallback rest fb bp fr.
Proof.
  unfold after_route. cbn [select_loop]. destruct (route_method_matches _ _); cbn [negb andb]; [| done].
  destruct (rt_matcher r); try done; by destruct (_ && _).
Qed.
Lemma exact_takes r :
  route_method_matches (rt_methods r) method && match rt_matcher r with MExact exact => bool_decide (path = exact) | _ => false end = true
  <-> takes is_exact r.
Proof.
  unfold takes, is_exact, matcher_is_match. rewrite andb_true_iff.
  destruct (rt_matcher r); [tauto | | |]; split; intros [_ ?]; tauto || done.
Qed.
Lemma passed_step include_fallback seen r fb bp fr :
  passed seen include_fallback fb bp fr -> ~ takes is_exact r ->
  let '(fb, bp, fr) := after_route include_fallback r fb bp fr in passed (seen ++ [r]) include_fallback fb bp fr.
Proof.
  intros [He Hp Hr Hf] Hx. pose proof (none_takes_snoc _ _ _ He Hx) as He'. unfold after_route.
  assert (forall kind, ~ kind (rt_matcher r) -> ~ takes kind r) as Hkind by (intros kind Hk (_ & ? & _); done).
  destruct (route_method_matches (rt_methods r) method) eqn:Hm; cbn [negb].
  2: { assert (forall kind, ~ takes kind r) as Hno by (intros kind (? & _); congruence).
       split; [done | by apply first_max_skip | by apply first_max_skip |].
       destruct include_fallback; [by apply last_of_skip | done]. }
  assert (forall kind, kind (rt_matcher r) -> matcher_is_match (rt_matcher r) path = true -> takes kind r) as Htakes
    by (intros kind ? ?; by repeat split).
  assert (forall kind, matcher_is_match (rt_matcher r) path = false -> ~ takes kind r) as Hmiss
    by (intros kind ? (_ & _ & ?); congruence).
  destruct (rt_matcher r) as [p | p | p |] eqn:Em.
  - split; [done | apply first_max_skip; auto | apply first_max_skip; auto |].
    destruct include_fallback; [apply last_of_skip; auto | done].
  - assert (if include_fallback then last_of (takes is_fallback) (seen ++ [r]) fb else fb = None) as Hf'
      by (destruct include_fallback; [apply last_of_skip; auto | done]).
    assert (first_max (takes is_regex) (fun _ => 0) (seen ++ [r]) fr) as Hr' by (apply first_max_skip; auto).
    destruct (matcher_is_match (MPrefix p) path) eqn:Hmatch; cbn [andb]; [| split; auto using first_max_skip].
    destruct bp as [best |]; [| split; [done | apply (first_max_take _ _ seen None); [by apply Htakes | done | done] | done | done]].
    destruct (Z.ltb_spec (matcher_prefix_len (rt_matcher best)) (matcher_prefix_len (@MPrefix Regex p))) as [Hlt | Hge].
    + split; [done | | done | done]. apply (first_max_take _ _ seen (Some best)); [by apply Htakes | by rewrite Em | done].
    + split; [done | | done | done]. apply first_max_keep; [by rewrite Em | done].
  - assert (if include_fallback then last_of (takes is_fallback) (seen ++ [r]) fb else fb = None) as Hf'
      by (destruct include_fallback; [apply last_of_skip; auto | done]).
    assert (first_max (takes is_prefix) (fun x => matcher_prefix_len (rt_matcher x)) (seen ++ [r]) bp) as Hp'
      by (apply first_max_skip; auto).
    destruct fr as [first |]; cbn [bool_decide andb].
    + rewrite bool_decide_false by done. split; [done | done | | done]. by apply first_max_keep.
    + rewrite bool_decide_true by done. cbn [andb].
      destruct (matcher_is_match (MRegex p) path) eqn:Hmatch; split; auto using first_max_skip.
      apply (first_max_take _ _ seen None); [by apply Htakes | done | done].
  - split; [done | apply first_max_skip; auto | apply first_max_skip; auto |].
    destruct include_fallback; [| done]. apply last_of_take. by apply Htakes.
Qed.
Lemma loop_chosen include_fallback rest seen fb bp fr :
  passed seen include_fallback fb bp fr ->
  chosen_route (seen ++ rest) include_fallback (select_loop rt_methods rt_matcher method path include_fallback rest fb bp fr).
Proof.
  revert seen fb bp fr. induction rest as [| r rest IH]; intros seen fb bp fr Hp.
  - rewrite app_nil_r. destruct Hp as [He Hp Hr Hf]. cbn [select_loop].
    destruct bp; [by apply ChosenPrefix |]. destruct fr; [by eapply ChosenRegex, first_max_first |].
    by apply ChosenFallback.
  - rewrite select_loop_step. destruct (_ && _) eqn:Hx.
    + apply exact_takes in Hx. apply ChosenExact. exists seen, rest. split_and!; [done | done | by apply Hp].
    + rewrite <- not_true_iff_false, exact_takes in Hx. pose proof (passed_step include_fallback seen r fb bp fr Hp Hx) as Hs.
      destruct (after_route include_fallback r fb bp fr) as [[fb' bp'] fr'].
      rewrite (app_assoc seen [r] rest : seen ++ r :: rest = (seen ++ [r]) ++ rest). by apply IH.
Qed.

Lemma select_chosen routes include_fallback :
  chosen_route routes include_fallback (select_route_with_fallback rt_methods rt_matcher routes method path include_fallback).
Proof.
  apply (loop_chosen include_fallback routes []). split; [by intros x Hx%not_elem_of_nil | apply first_max_nil | apply first_max_nil |].
  destruct include_fallback; [apply last_of_nil | done].
Qed.
Lemma chosen_elem routes include_fallback r : chosen_route routes include_fallback (Some r) -> r ∈ routes.
Proof.
  assert (forall before after, r ∈ before ++ r :: after) as Hmid
    by (intros b a; apply elem_of_app; right; apply elem_of_cons; by left).
  intros H. inversion H as [? (b & a & -> & _) | ? _ (b & a & -> & _) | ? _ _ (b & a & -> & _) | ? _ _ _ Hf]; subst; [done.. |].
  destruct include_fallback; [| done]. destruct Hf as (b & a & -> & _). done.
Qed.

(** C26: the route of a request is the one the documented priorities name: among
    the routes for its method, the first exact one, else the first of those with
    the longest prefix, else the first whose expression matches, else the
    fallback, and none only if no route matches at all. *)
Theorem route_selection_exact (routes : list Route) (include_fallback : bool) :
  chosen_route routes include_fallback (select_route_with_fallback rt_methods rt_matcher routes method path include_fallback).
Proof. apply select_chosen. Qed.
End Chosen.

(** ** Rewritten paths *)

Section Rewritten.
Context {Regex : Type} `{!RegexEngine Regex}.
Context (decode : list Z -> list Z) `{!PercentDecoding decode}.

Lemma escaped_byte c : 0 <= c < 256 ->
  let h := upper_hex (Z.shiftr c 4) in
  let l := upper_hex (Z.land c 15) in
  exists high low, hex_value h = Some high /\ hex_value l = Some low /\ Z.lor (Z.shiftl high 4) low = c
    /\ h <> SLASH /\ l <> SLASH.
Proof.
  intros Hc. assert (forallb (fun c =>
    match hex_value (upper_hex (Z.shiftr c 4)), hex_value (upper_hex (Z.land c 15)) with
    | Some high, Some low => (Z.lor (Z.shiftl high 4) low =? c)
        && negb (upper_hex (Z.shiftr c 4) =? SLASH) && negb (upper_hex (Z.land c 15) =? SLASH)
    | _, _ => false
    end) (seqZ 0 256) = true) as H by (by vm_compute).
  rewrite forallb_forall in H. specialize (H c ltac:(apply list_elem_of_In, elem_of_seqZ; lia)). cbn zeta.
  destruct (hex_value (upper_hex (Z.shiftr c 4))) as [high |]; [| done].
  destruct (hex_value (upper_hex (Z.land c 15))) as [low |]; [| done].
  exists high, low. breflect. by split_and!.
Qed.
(** What a capture contributes to a path is one segment, and stands for the text
    that was captured. *)
Lemma capture_text_round_trip value :
  Forall (fun c => 0 <= c < 256) value ->
  decode (route_regex_capture_text value) = value /\ ~ SLASH ∈ route_regex_capture_text value.
Proof using Type*.
  unfold route_regex_capture_text. induction 1 as [| c value Hc _ [IH IHs]]; cbn [fmap list_fmap concat].
  { split; [apply decode_nil | by apply not_elem_of_nil]. }
  destruct (unreserved c) eqn:Hu; cbn [app].
  - assert (c <> PERCENT /\ c <> SLASH) as [? ?] by (split; intros ->; discriminate).
    rewrite decode_plain, IH by done. split; [done |]. intros [? | ?]%elem_of_cons; [congruence | done].
  - destruct (escaped_byte c Hc) as (high & low & Hh & Hl & Hv & ? & ?).
    rewrite (decode_escape _ _ _ high low Hh Hl), IH, Hv. split; [done |]. rewrite !not_elem_of_cons. by split_and!.
Qed.

(** A path that is joined to a prefix starts with it. *)
Lemma join_starts rewrite_prefix suffix p :
  join_route_rewrite_prefix rewrite_prefix suffix = Some p -> starts_with rewrite_prefix p = true.
Proof.
  unfold join_route_rewrite_prefix. intros H. apply starts_with_true. case_bool_decide as Hp.
  - injection H as <-. subst. unfold rooted. case_bool_decide; [by exists [] |].
    destruct (starts_with [SLASH] suffix) eqn:Hs; [by apply starts_with_true in Hs | by exists suffix].
  - destruct (safe_forward_path _); [| done]. injection H as <-.
    case_bool_decide; [exists []; by rewrite app_nil_r |]. destruct (_ && _); [by eexists |]. destruct (_ || _); by eexists.
Qed.

End Rewritten.

(** ** Redirects *)

Lemma starts_with_other c pattern x s : c <> x -> starts_with (c :: pattern) (x :: s) = false.
Proof. intros Hc. unfold starts_with. by rewrite strip_prefix_head_ne. Qed.
Lemma replace_absent c pattern by_ s : c ∉ s -> replace_text (c :: pattern) by_ s = s.
Proof.
  unfold replace_text. induction s as [| x s IH]; intros Hs; cbn [replace_go]; [done |].
  rewrite starts_with_other by set_solver. f_equal. apply IH. set_solver.
Qed.
Lemma replace_skip pattern by_ s n : length s = n -> replace_go n pattern by_ s = [].
Proof. intros <-. induction s as [| x s IH]; [done | exact IH]. Qed.
Lemma replace_last c pattern by_ base : c ∉ base -> replace_text (c :: pattern) by_ (base ++ c :: pattern) = base ++ by_.
Proof.
  unfold replace_text. induction base as [| x base IH]; intros Hs; cbn [app replace_go].
  - rewrite (proj2 (starts_with_true (c :: pattern) (c :: pattern))) by (exists []; by rewrite app_nil_r).
    rewrite replace_skip by (cbn; lia). by rewrite app_nil_r.
  - rewrite starts_with_other by set_solver. f_equal. apply IH. set_solver.
Qed.

(** The bytes of a valid path or query *)
Lemma uri_component_bytes value query :
  validate_uri_component value query = Ok tt -> 123 ∉ value.
Proof.
  remember (length value) as n eqn:Hn. revert value Hn. induction n as [n IH] using lt_wf_ind. intros value Hn.
  destruct value as [| c rest]; cbn [validate_uri_component]; [intros _; by apply not_elem_of_nil |].
  destruct (Z.eqb_spec c 37) as [-> | Hc].
  - destruct rest as [| h1 [| h2 rest]]; try done. destruct (is_ascii_hexdigit h1 && is_ascii_hexdigit h2) eqn:Hh; [| done].
    intros Hv%(IH (length rest)); [| cbn in Hn; lia | done]. apply andb_true_iff in Hh as [H1 H2].
    rewrite !not_elem_of_cons. split_and!; [done | | | done]; intros <-; discriminate.
  - destruct (uri_component_byte_allowed c query) eqn:Ha; [| done].
    intros Hv%(IH (length rest)); [| cbn in Hn; lia | done]. rewrite not_elem_of_cons. split; [| done].
    intros <-. by destruct query.
Qed.
Lemma request_path_no_brace r path query :
  request_path_and_query r = Some (path, query) -> 123 ∉ with_query path query.
Proof.
  assert (forall s p q, split_query s = Ok (p, q) -> 123 ∉ with_query p q) as Hsplit.
  { intros s p q. unfold split_query, validate_path, validate_query. destruct (find_byte 63 s) as [i |].
    - case_bool_decide; [done |]. destruct (validate_uri_component (ztake i s) false) as [[] |] eqn:Hp; [| done].
      destruct (validate_uri_component (zdrop (i + 1) s) true) as [[] |] eqn:Hq; [| done]. intros [= <- <-].
      apply uri_component_bytes in Hp, Hq. cbn [with_query]. rewrite !not_elem_of_app, list_elem_of_singleton. by split_and!.
    - case_bool_decide; [done |]. destruct (validate_uri_component s false) as [[] |] eqn:Hp; [| done].
      intros [= <- <-]. by apply uri_component_bytes in Hp. }
  unfold request_path_and_query, http1_request_target.
  destruct (_ || _); [done |]. case_bool_decide; [by destruct (eq_ignore_ascii_case _ _) |].
  destruct (eq_ignore_ascii_case _ _).
  { destruct (_ || _); [done |]. destruct (authority_form_port _); [| done]. by destruct (validate_http1_authority _). }
  destruct (starts_with (bs "//") _); [done |]. destruct (starts_with [47] _).
  { destruct (split_query (rq_target r)) as [[p q] |] eqn:Es; [| done]. intros [= <- <-]. by eapply Hsplit. }
  destruct (find_byte 58 _) as [colon |]; [| done]. unfold parse_absolute_uri. destruct (_ && _); [done |].
  destruct (strip_prefix (bs "//") _) as [after |]; cbn [ok_or]; [| done]. destruct (validate_http1_authority _); [| done].
  case_bool_decide; [intros [= <- <-]; by apply (bool_decide_unpack _) |].
  destruct (strip_prefix [63] _) as [q |].
  - unfold validate_query. destruct (validate_uri_component q true) as [[] |] eqn:Hq; [| done]. intros [= <- <-].
    apply uri_component_bytes in Hq. cbn. rewrite !not_elem_of_cons. by split_and!.
  - destruct (split_query _) as [[p q] |] eqn:Es; [| done]. intros [= <- <-]. by eapply Hsplit.
Qed.

(** a redirect leads where its template says.  If the template is a base
    followed by the URI of the request, a redirect goes to that base followed by
    the path and query of the request; it has a web scheme, no white space or
    control character that could end its header line, and a path that cannot
    leave its place. *)
Theorem redirect_location_exact (r : NativeHttp1Request) (redirect : NativeHttp1RouteRedirect) (base path location : list Z)
    (query : option (list Z)) :
  rd_to redirect = base ++ bs "{uri}" -> 123 ∉ base -> request_path_and_query r = Some (path, query) ->
  route_redirect_location r redirect = Some location ->
  location = base ++ with_query path query
  /\ (exists rest, location = bs "https://" ++ rest \/ location = bs "http://" ++ rest)
  /\ safe_forward_path path = true /\ redirect_location_path_safe location = true
  /\ any_space_or_control location = false.
Proof.
  intros Hto Hbase Hpath. unfold route_redirect_location. rewrite Hpath. cbn beta iota.
  destruct (safe_forward_path path) eqn:Hsafe; cbn [negb orb]; [| done].
  destruct (any_control _); [done |]. destruct (_ && _); [done |].
  pose proof (request_path_no_brace r path query Hpath) as Hno.
  assert (123 ∉ base ++ with_query path query) as Hno' by (rewrite not_elem_of_app; done).
  rewrite Hto. change (bs "{uri}") with (123 :: bs "uri}"). rewrite (replace_last 123 (bs "uri}") _ base Hbase).
  change (bs "{path}") with (123 :: bs "path}"). rewrite (replace_absent 123 (bs "path}") _ _ Hno').
  change (bs "{query}") with (123 :: bs "query}"). rewrite (replace_absent 123 (bs "query}") _ _ Hno').
  destruct (valid_redirect_location _) eqn:Hv; [| done]. intros E. assert (location = base ++ with_query path query) as -> by congruence.
  clear E. unfold valid_redirect_location in Hv. destruct (negb _ || negb _) eqn:Hs; [done |].
  apply orb_false_iff in Hs as [Hs Hp]. apply negb_false_iff in Hs, Hp.
  apply andb_true_iff in Hv as [_ Hv]. apply negb_true_iff in Hv. split_and!; [done | | done | done | done].
  apply orb_true_iff in Hs as [[rest ->]%starts_with_true | [rest ->]%starts_with_true]; exists rest; auto.
Qed.
