(* ===== verification/Cors.v ===== *)
(** * Response header policy and cross-origin requests
    ([native_http1_route_response_headers.rs], [native_http1_cors.rs],
    [config_header_cors.rs] and [config_http.rs] of the configuration)

    What a route does to the headers of its responses, the answers to preflight
    requests, and that no one but the configured policy grants other origins
    access. *)
From Stdlib Require Import ZArith Lia.
From stdpp Require Import base list numbers strings sets gmap.
From S2P Require Import Prelude Text NetAddr ProxyProtocol Http1Target Http1Head LbBackend HostNames Headers RequestHeaders UpstreamResponse CacheKey CachePurge CacheControl CacheObject CacheEntry CacheRange MemoryCache.

(** ** Origins *)

Definition http_rest (endpoint : list Z) : option (list Z) :=
  match strip_prefix (bs "http://") endpoint with
  | Some rest => Some rest
  | None => strip_prefix (bs "https://") endpoint
  end.
Definition invalid_http_endpoint_rest_without_len_limit (rest : list Z) : bool :=
  contains_byte 64 rest || contains_byte 63 rest || contains_byte 35 rest
  || existsb (fun byte => control1 byte || (byte =? SP)) rest.
Definition invalid_http_endpoint_rest (rest : list Z) : bool :=
  bool_decide (rest = []) || (2048 <? zlen rest) || invalid_http_endpoint_rest_without_len_limit rest.
Definition valid_http_base_url (endpoint : list Z) : bool :=
  match http_rest endpoint with
  | None => false
  | Some rest =>
      if invalid_http_endpoint_rest rest then false
      else
        let authority := default [] (head (split_byte 47 rest)) in
        negb (bool_decide (authority = [])) && valid_http_authority authority
  end.
Definition valid_cors_origin (origin : list Z) : bool :=
  (zlen origin <=? 2048) && negb (ends_with [47] origin) && negb (contains_byte 63 origin || contains_byte 35 origin)
  && match http_rest origin with Some authority => negb (contains_byte 47 authority) | None => false end
  && valid_http_base_url origin.

(** ** The policy *)

Record NativeCorsPolicy : Type := mkCors {
  co_enabled : bool;
  co_allow_origins : list (list Z);
  co_allow_methods : list (list Z);
  co_allow_headers : list (list Z);
  co_expose_headers : list (list Z);
  co_allow_credentials : bool;
  co_max_age_secs : option Z;
}.

Definition single_request_header (r : NativeHttp1Request) (name : list Z) : option (list Z) :=
  match List.filter (fun h => named name h && has_value h) (rq_headers r) with
  | [h] => Some (trim h.2)
  | _ => None
  end.
Definition cors_preflight_requested_method (r : NativeHttp1Request) : option (list Z) :=
  if eq_ignore_ascii_case (rq_method r) (bs "OPTIONS")
  then single_request_header r (bs "access-control-request-method") else None.

Definition listed_ci (name : list Z) (names : list (list Z)) : bool :=
  existsb (fun existing => eq_ignore_ascii_case existing name) names.
(** The loop of [requested_header_names] over the names of all the lines. *)
Fixpoint collect_header_names (names headers : list (list Z)) : option (list (list Z)) :=
  match names with
  | [] => Some headers
  | name :: names =>
      if bool_decide (name = []) || negb (http_token_valid name) then None
      else collect_header_names names (if listed_ci name headers then headers else headers ++ [name])
  end.
Definition requested_header_names (r : NativeHttp1Request) : option (list (list Z)) :=
  collect_header_names
    (concat ((fun h : header => trim <$> split_byte 44 h.2)
               <$> List.filter (named (bs "access-control-request-headers")) (rq_headers r))) [].

Definition allowed_origin (p : NativeCorsPolicy) (r : NativeHttp1Request) : option (list Z) :=
  let* origin := single_request_header r (bs "origin") in
  if negb (valid_cors_origin origin) then None
  else if bool_decide (bs "*" ∈ co_allow_origins p) then Some (bs "*")
  else if listed_ci origin (co_allow_origins p) then Some origin else None.

(** ** Headers of a response *)

Definition set_response_header (name value : list Z) (response : NativeHttp1Response) : NativeHttp1Response :=
  push_response_header name value (remove_response_header name response).
Definition CORS_HEADERS : list (list Z) :=
  [bs "access-control-allow-origin"; bs "access-control-allow-credentials"; bs "access-control-expose-headers";
   bs "access-control-allow-methods"; bs "access-control-allow-headers"; bs "access-control-max-age";
   bs "access-control-allow-private-network"].
Definition remove_headers (names : list (list Z)) (response : NativeHttp1Response) : NativeHttp1Response :=
  foldl (fun response name => remove_response_header name response) response names.
(** [names.join(", ")] *)
Definition join_comma (names : list (list Z)) : list Z :=
  match names with [] => [] | first :: rest => foldl (fun joined name => joined ++ bs ", " ++ name) first rest end.

Definition apply_owned_headers (p : NativeCorsPolicy) (origin : option (list Z)) (response : NativeHttp1Response)
    : NativeHttp1Response :=
  let response := remove_headers CORS_HEADERS response in
  match origin with
  | None => response
  | Some origin =>
      let response := set_response_header (bs "access-control-allow-origin") origin response in
      let response := if co_allow_credentials p
                      then set_response_header (bs "access-control-allow-credentials") (bs "true") response else response in
      if bool_decide (co_expose_headers p = []) then response
      else set_response_header (bs "access-control-expose-headers") (join_comma (co_expose_headers p)) response
  end.
Fixpoint add_vary_tokens (required values : list (list Z)) : list (list Z) :=
  match required with
  | [] => values
  | token :: required => add_vary_tokens required (if listed_ci token values then values else values ++ [token])
  end.
Definition ensure_vary_tokens (required : list (list Z)) (response : NativeHttp1Response) : NativeHttp1Response :=
  let values := List.filter (fun value => negb (bool_decide (value = [])))
                  (concat ((fun h : header => trim <$> split_byte 44 h.2)
                             <$> List.filter (fun h => eq_ignore_ascii_case h.1 (bs "vary")) (rp_headers response))) in
  if bool_decide (bs "*" ∈ values) then response
  else set_response_header (bs "vary") (join_comma (add_vary_tokens required values)) response.

Definition apply_preflight_headers (p : NativeCorsPolicy) (origin : list Z) (response : NativeHttp1Response)
    : NativeHttp1Response :=
  let response := remove_headers [bs "access-control-allow-methods"; bs "access-control-allow-headers";
                                  bs "access-control-max-age"] response in
  let response := apply_owned_headers p (Some origin) response in
  let response := set_response_header (bs "access-control-allow-methods") (join_comma (co_allow_methods p)) response in
  let response := if bool_decide (co_allow_headers p = []) then response
                  else set_response_header (bs "access-control-allow-headers") (join_comma (co_allow_headers p)) response in
  let response := match co_max_age_secs p with
                  | Some secs => set_response_header (bs "access-control-max-age") (to_decimal secs) response
                  | None => response
                  end in
  ensure_vary_tokens [bs "Origin"; bs "Access-Control-Request-Method"; bs "Access-Control-Request-Headers"] response.

Definition new_response (status : Z) (reason body : list Z) : NativeHttp1Response := mkResponse status reason [] None body false.
Definition close_connection (r : NativeHttp1Response) : NativeHttp1Response :=
  mkResponse (rp_status r) (rp_reason r) (rp_headers r) (rp_content_length r) (rp_body r) true.
Definition cors_rejection : NativeHttp1Response :=
  close_connection (new_response 403 (bs "Forbidden") (bs "CORS request denied" ++ [LF])).

Definition preflight_response (p : NativeCorsPolicy) (r : NativeHttp1Request) : option NativeHttp1Response :=
  if negb (co_enabled p) || negb (eq_ignore_ascii_case (rq_method r) (bs "OPTIONS")) then None
  else
    let* requested_method := single_request_header r (bs "access-control-request-method") in
    match allowed_origin p r with
    | None => Some cors_rejection
    | Some origin =>
        if negb (listed_ci requested_method (co_allow_methods p)) then Some cors_rejection
        else match requested_header_names r with
             | None => Some cors_rejection
             | Some requested_headers =>
                 if existsb (fun requested => negb (listed_ci requested (co_allow_headers p))) requested_headers
                 then Some cors_rejection
                 else Some (apply_preflight_headers p origin (new_response 204 (bs "No Content") []))
             end
    end.

Definition response_origin (p : NativeCorsPolicy) (r : NativeHttp1Request) : option (list Z) :=
  if negb (co_enabled p) || negb (listed_ci (rq_method r) (co_allow_methods p)) then None else allowed_origin p r.
Definition apply_response_origin (p : NativeCorsPolicy) (origin : option (list Z)) (response : NativeHttp1Response)
    : NativeHttp1Response :=
  if negb (co_enabled p) then response
  else
    let response := apply_owned_headers p origin response in
    if bool_decide (bs "*" ∈ co_allow_origins p) then response else ensure_vary_tokens [bs "Origin"] response.

(** ** The response header policy *)

Record ResponseMetadataConfig : Type := mkMetadata {
  md_identifier : option (list Z);
  md_cache_status : bool;
  md_proxy_status : bool;
  md_content_digest : bool;
  md_repr_digest : bool;
}.
Record NativeRouteResponseHeaderPolicy : Type := mkResponsePolicy {
  rh_enabled : bool;
  rh_unset : list (list Z);
  rh_set : list header;
  rh_append : list header;
  rh_location : list RewriteRule;
  rh_refresh : list RewriteRule;
  rh_cookie : CookieRewrite;
  rh_metadata : ResponseMetadataConfig;
  rh_cors : NativeCorsPolicy;
}.
Definition set_response_headers (headers : list header) (response : NativeHttp1Response) : NativeHttp1Response :=
  mkResponse (rp_status response) (rp_reason response) headers (rp_content_length response) (rp_body response) (rp_close response).
(** [rewrite_response_header_values]: when a value changes, all the headers are
    removed and the rewritten ones put back, in order. *)
Definition rewrite_response_header_values (name : list Z) (rewrite_value : list Z -> option (list Z))
    (response : NativeHttp1Response) : NativeHttp1Response :=
  set_response_headers
    ((fun h : header => if eq_ignore_ascii_case h.1 name
                        then (h.1, default h.2 (rewrite_value h.2)) else h) <$> rp_headers response) response.
Definition apply_response_rewrites (p : NativeRouteResponseHeaderPolicy) (response : NativeHttp1Response) : NativeHttp1Response :=
  let response := if bool_decide (rh_location p = []) then response
                  else rewrite_response_header_values (bs "location") (fun v => rewrite_header_prefix v (rh_location p)) response in
  let response := if bool_decide (rh_refresh p = []) then response
                  else rewrite_response_header_values (bs "refresh") (fun v => rewrite_refresh_url v (rh_refresh p)) response in
  if bool_decide (cookie_domain (rh_cookie p) = []) && bool_decide (cookie_path (rh_cookie p) = []) then response
  else rewrite_response_header_values (bs "set-cookie") (fun v => rewrite_set_cookie_value v (rh_cookie p)) response.

Section ResponsePolicy.
(** [apply_native_status_metadata]: the status headers of the proxy, which
    depend on what the cache and the upstream did *)
Context (status_metadata : ResponseMetadataConfig -> NativeHttp1Response -> NativeHttp1Response).
(** [Sha256::digest] and [base64_ng::STANDARD] *)
Context (sha256 base64 : list Z -> list Z).

Definition response_has_complete_selected_representation (request_method : list Z) (response : NativeHttp1Response) : bool :=
  bool_decide (request_method = bs "GET") && (rp_status response =? 200)
  && negb (existsb (named (bs "content-range")) (rp_headers response))
  && match rp_content_length response with None => true | Some length => length =? zlen (rp_body response) end.
Definition digest_field_value (digest : list Z) : list Z := bs "sha-256=:" ++ base64 digest ++ bs ":".
(** The digest that a response carries along is that of its body. *)
Definition apply_native_digest_metadata (metadata : ResponseMetadataConfig) (request_method : list Z)
    (response : NativeHttp1Response) : NativeHttp1Response :=
  let complete := md_repr_digest metadata && response_has_complete_selected_representation request_method response in
  if negb (md_content_digest metadata) && negb complete
  then (if md_repr_digest metadata then remove_response_header (bs "repr-digest") response else response)
  else
    let value := digest_field_value (sha256 (rp_body response)) in
    let response := if md_content_digest metadata then set_response_header (bs "content-digest") value response else response in
    if md_repr_digest metadata then
      let response := remove_response_header (bs "repr-digest") response in
      if complete then push_response_header (bs "repr-digest") value response else response
    else response.
Definition apply_digests_for_method (p : NativeRouteResponseHeaderPolicy) (request_method : list Z)
    (response : NativeHttp1Response) : NativeHttp1Response :=
  if rh_enabled p then apply_native_digest_metadata (rh_metadata p) request_method response else response.

Definition apply_response_policy (p : NativeRouteResponseHeaderPolicy) (response : NativeHttp1Response) : NativeHttp1Response :=
  if negb (rh_enabled p) then response
  else
    let response := apply_response_rewrites p response in
    let response := remove_headers (rh_unset p) response in
    let response := foldl (fun response h => set_response_header h.1 h.2 response) response (rh_set p) in
    let response := foldl (fun response h => push_response_header h.1 h.2 response) response (rh_append p) in
    status_metadata (rh_metadata p) response.
Definition apply_with_cors_origin (p : NativeRouteResponseHeaderPolicy) (origin : option (list Z))
    (response : NativeHttp1Response) : NativeHttp1Response :=
  apply_response_origin (rh_cors p) origin (apply_response_policy p response).
Definition cors_preflight_response (p : NativeRouteResponseHeaderPolicy) (r : NativeHttp1Request) : option NativeHttp1Response :=
  let* response := preflight_response (rh_cors p) r in
  let response := apply_response_policy p response in
  match allowed_origin (rh_cors p) r with
  | None => Some cors_rejection
  | Some origin => Some (apply_digests_for_method p (rq_method r) (apply_preflight_headers (rh_cors p) origin response))
  end.

(** ** What is granted *)

Definition header_values (name : list Z) (headers : list header) : list (list Z) :=
  snd <$> List.filter (fun h => eq_ignore_ascii_case h.1 name) headers.
Lemma values_removed name other response :
  header_values name (rp_headers (remove_response_header other response))
  = if eq_ignore_ascii_case other name then [] else header_values name (rp_headers response).
Proof.
  unfold header_values, remove_response_header. cbn [rp_headers].
  induction (rp_headers response) as [| h l IH]; cbn [List.filter]; [by destruct (eq_ignore_ascii_case other name) |].
  destruct (eq_ignore_ascii_case h.1 other) eqn:E1; cbn [negb]; [rewrite IH |].
  - destruct (eq_ignore_ascii_case other name) eqn:E2; [done |].
    destruct (eq_ignore_ascii_case h.1 name) eqn:E3; [| done].
    rewrite eq_ignore_ascii_case_true in E1, E3. rewrite <- not_true_iff_false, eq_ignore_ascii_case_true in E2. congruence.
  - cbn [List.filter]. destruct (eq_ignore_ascii_case h.1 name) eqn:E3; [| exact IH].
    destruct (eq_ignore_ascii_case other name) eqn:E2.
    + rewrite eq_ignore_ascii_case_true in E2, E3. rewrite <- not_true_iff_false, eq_ignore_ascii_case_true in E1. congruence.
    + cbn [fmap list_fmap]. by rewrite IH.
Qed.
Lemma values_set name other value response :
  header_values name (rp_headers (set_response_header other value response))
  = if eq_ignore_ascii_case other name then [value] else header_values name (rp_headers response).
Proof.
  unfold set_response_header, push_response_header. cbn [rp_headers]. unfold header_values at 1.
  rewrite List.filter_app, fmap_app. fold (header_values name (rp_headers (remove_response_header other response))).
  rewrite values_removed. cbn [List.filter fst]. destruct (eq_ignore_ascii_case other name); cbn; [done | by rewrite app_nil_r].
Qed.
Lemma values_removed_all names name response :
  listed_ci name names = true -> header_values name (rp_headers (remove_headers names response)) = [].
Proof.
  unfold remove_headers. revert response. induction names as [| n names IH]; intros response; cbn [listed_ci existsb foldl]; [done |].
  intros [Hn | Hn]%orb_true_iff; [| by apply IH].
  assert (header_values name (rp_headers (remove_response_header n response)) = []) as Hnone by (by rewrite values_removed, Hn).
  clear IH Hn. revert Hnone. generalize (remove_response_header n response). induction names as [| m names IH]; intros resp Hr; [done |].
  cbn [foldl]. apply IH. rewrite values_removed. by destruct (eq_ignore_ascii_case m name).
Qed.
Lemma values_vary name required response :
  eq_ignore_ascii_case (bs "vary") name = false ->
  header_values name (rp_headers (ensure_vary_tokens required response)) = header_values name (rp_headers response).
Proof. intros Hn. unfold ensure_vary_tokens. case_bool_decide; [done |]. by rewrite values_set, Hn. Qed.

(** What a policy grants an origin, header by header. *)
Definition granted (p : NativeCorsPolicy) (origin name : list Z) : list (list Z) :=
  if eq_ignore_ascii_case (bs "access-control-allow-origin") name then [origin]
  else if eq_ignore_ascii_case (bs "access-control-allow-credentials") name
  then (if co_allow_credentials p then [bs "true"] else [])
  else if eq_ignore_ascii_case (bs "access-control-expose-headers") name
  then (if bool_decide (co_expose_headers p = []) then [] else [join_comma (co_expose_headers p)])
  else [].
Lemma owned_values p origin response name :
  name ∈ CORS_HEADERS ->
  header_values name (rp_headers (apply_owned_headers p origin response))
  = match origin with Some origin => granted p origin name | None => [] end.
Proof.
  intros Hn. assert (listed_ci name CORS_HEADERS = true) as Hl.
  { apply existsb_exists. exists name. split; [by apply list_elem_of_In | apply eq_ignore_ascii_case_refl]. }
  unfold apply_owned_headers. destruct origin as [o |]; [| by apply values_removed_all].
  unfold granted. assert (header_values name (rp_headers (remove_headers CORS_HEADERS response)) = []) as Hnone by (by apply values_removed_all).
  repeat (apply elem_of_cons in Hn as [-> | Hn]); [.. | by apply not_elem_of_nil in Hn];
    destruct (co_allow_credentials p), (bool_decide (co_expose_headers p = []));
    rewrite ?values_set, ?Hnone; reflexivity.
Qed.

(** C27: a route with a cross-origin policy grants exactly what the policy says.
    Whatever the upstream, the response policy or the status headers put into a
    response, its cross-origin headers are those granted to the origin of the
    request when its method and its one valid origin are listed, and otherwise
    there are none. *)
Theorem cors_grants_exact (p : NativeRouteResponseHeaderPolicy) (r : NativeHttp1Request) (response : NativeHttp1Response)
    (name : list Z) :
  co_enabled (rh_cors p) = true -> name ∈ CORS_HEADERS ->
  header_values name (rp_headers (apply_with_cors_origin p (response_origin (rh_cors p) r) response))
  = match response_origin (rh_cors p) r with Some origin => granted (rh_cors p) origin name | None => [] end
  /\ forall origin, response_origin (rh_cors p) r = Some origin ->
       listed_ci (rq_method r) (co_allow_methods (rh_cors p)) = true
       /\ exists o, single_request_header r (bs "origin") = Some o /\ valid_cors_origin o = true
            /\ (origin = bs "*" /\ bs "*" ∈ co_allow_origins (rh_cors p)
                \/ origin = o /\ listed_ci o (co_allow_origins (rh_cors p)) = true).
Proof.
  intros He Hn. unfold apply_with_cors_origin, apply_response_origin. rewrite He. cbn [negb]. split.
  - assert (eq_ignore_ascii_case (bs "vary") name = false) as Hv.
    { repeat (apply elem_of_cons in Hn as [-> | Hn]); [reflexivity.. | by apply not_elem_of_nil in Hn]. }
    case_bool_decide; rewrite ?values_vary by done; by apply owned_values.
  - unfold response_origin, allowed_origin. rewrite He. cbn [negb orb]. intros origin.
    destruct (listed_ci (rq_method r) _); cbn [negb]; [| done]. destruct (single_request_header r (bs "origin")) as [o |]; [| done].
    destruct (valid_cors_origin o) eqn:Hv; cbn [negb]; [| done]. intros Ho. split; [done |]. exists o. split_and!; [done | done |].
    case_bool_decide as Hstar; [left; split; [congruence | done] |].
    destruct (listed_ci o _); [| done]. right. split; [congruence | done].
Qed.
End ResponsePolicy.
