(* ===== verification/RouteProxy.v ===== *)
(** * Handling a request in a virtual host ([native_http1_route_proxy_handler.rs],
    [native_http1_route_proxy_policy.rs], [native_http1_route_grpc.rs],
    [native_http1_route_action.rs])

    From a request to the action that answers it: choosing the route, the access
    policies, the limits, the redirect to HTTPS, preflight requests, rewriting
    and the size of the body, in the order of the code.  This is the build
    without the optional extensions (WASM, PHP, ACME, compression, tracing). *)
From Stdlib Require Import ZArith Lia.
From stdpp Require Import base list numbers strings sets gmap.
From S2P Require Import Prelude Text NetAddr ProxyProtocol Http1Target Http1Head LbBackend HostNames Headers RequestHeaders UpstreamResponse CacheKey CachePurge CacheControl CacheObject CacheEntry CacheRange MemoryCache PathSafety HostRouter AccessPolicy RouteMatch Cors.

Inductive NativeRateLimitDecision : Type := RateAllow | RateDelay (delay : Z) | RateReject (status : Z).
Record GrpcRouteConfig : Type := mkGrpc {
  gr_enabled : bool;
  gr_require_content_type : bool;
}.

(** ** gRPC routes *)

Definition with_header (name value : list Z) (r : NativeHttp1Response) : NativeHttp1Response := push_response_header name value r.
Definition native_grpc_content_type (value : list Z) : bool :=
  let media_type := trim (match split_once 59 value with Some (media_type, _) => media_type | None => value end) in
  eq_ignore_ascii_case media_type (bs "application/grpc")
  || ((zlen (bs "application/grpc+") <=? zlen media_type)
      && eq_ignore_ascii_case (ztake (zlen (bs "application/grpc+")) media_type) (bs "application/grpc+")).
Definition native_grpc_unsupported_media_type_response : NativeHttp1Response :=
  close_connection
    (with_header (bs "grpc-message") (bs "content-type must be application/grpc")
       (with_header (bs "grpc-status") (bs "3")
          (new_response 415 (bs "Unsupported Media Type") (bs "unsupported media type" ++ [LF])))).
Definition native_grpc_rejection_response (grpc : GrpcRouteConfig) (r : NativeHttp1Request) : option NativeHttp1Response :=
  if negb (gr_enabled grpc) then None
  else if negb (bool_decide (rq_method r = bs "POST")) then
    Some (close_connection
            (with_header (bs "grpc-message") (bs "method not allowed; gRPC requires POST")
               (with_header (bs "grpc-status") (bs "12")
                  (with_header (bs "Allow") (bs "POST")
                     (new_response 405 (bs "Method Not Allowed") (bs "method not allowed" ++ [LF]))))))
  else if gr_require_content_type grpc then
    match List.filter (named (bs "content-type")) (rq_headers r) with
    | [h] => if native_grpc_content_type h.2 then None else Some native_grpc_unsupported_media_type_response
    | _ => Some native_grpc_unsupported_media_type_response
    end
  else None.

(** ** Routes and virtual hosts *)

Section Handler.
Context {Regex : Type} `{!RegexEngine Regex} (percent_decode_str : list Z -> list Z).
(** The limiters of a scope, and the handlers of actions *)
Context {RateLimit Concurrency Proxy Web : Type}.

Inductive NativeHttp1RouteAction : Type :=
| ActProxy (proxy : Proxy)
| ActRedirect (redirect : NativeHttp1RouteRedirect)
| ActStaticWeb (web : Web).

(** [rt_id] is the address of a route, which [std::ptr::eq] compares. *)
Record NativeHttp1RouteProxyRoute : Type := mkRoute {
  rt_id : Z;
  rt_methods : list (list Z);
  rt_matcher : @NativeHttp1RouteMatcher Regex;
  rt_strip_prefix : option (list Z);
  rt_rewrite_prefix : option (list Z);
  rt_rewrite_template : option (list Z);
  rt_max_request_body_bytes : option Z;
  rt_https_redirect_exempt : bool;
  rt_request_headers : RequestHeaderPolicy;
  rt_response_headers : NativeRouteResponseHeaderPolicy;
  rt_access : NativeIpAccessPolicy;
  rt_rate_limit : RateLimit;
  rt_concurrency : Concurrency;
  rt_grpc : GrpcRouteConfig;
  rt_action : NativeHttp1RouteAction;
}.
Record NativeHttp1RouteProxy : Type := mkRouteProxy {
  vp_routes : list NativeHttp1RouteProxyRoute;
  vp_fallback : option Proxy;
  vp_fallback_web : option Web;
  vp_fallback_response_headers : NativeRouteResponseHeaderPolicy;
  vp_access : NativeIpAccessPolicy;
  vp_rate_limit : RateLimit;
  vp_concurrency : Concurrency;
  vp_max_request_body_bytes : option Z;
  vp_https_redirect : HttpsRedirectConfig;
  vp_trusted_sources : list ProxyProtocolTrustedSource;
}.
Definition is_redirect (action : NativeHttp1RouteAction) : bool := match action with ActRedirect _ => true | _ => false end.
Definition https_redirect_exempt_or_redirect (route : NativeHttp1RouteProxyRoute) : bool :=
  rt_https_redirect_exempt route || is_redirect (rt_action route).

(** [NativeHttp1RouteProxy::access_client_ip] *)
Definition vhost_client_ip (v : NativeHttp1RouteProxy) (r : NativeHttp1Request) : option IpAddr :=
  match rq_effective_client_addr r with
  | Some addr => Some (sa_ip addr)
  | None =>
      let trusted ip := existsb (fun source => source_contains source ip) (vp_trusted_sources v) in
      (fun ip => effective_client_ip ip (trusted ip) (joined_header_value r (bs "x-forwarded-for")) (Some trusted))
        <$> (sa_ip <$> rq_peer_addr r)
  end.

(** ** Limits *)

(** What the limiters answer to this request: a permit or a status, and the
    decision of a rate limiter for a client. *)
Context (acquire : Concurrency -> result unit Z) (check : RateLimit -> option IpAddr -> NativeRateLimitDecision).

Definition unique_route_pair (first second : option NativeHttp1RouteProxyRoute) : list NativeHttp1RouteProxyRoute :=
  option_list first
  ++ List.filter (fun route => match first with Some first => negb (rt_id first =? rt_id route) | None => true end)
       (option_list second).
Fixpoint acquire_all (routes : list NativeHttp1RouteProxyRoute) : result unit Z :=
  match routes with
  | [] => Ok tt
  | route :: routes => let? _ := acquire (rt_concurrency route) in acquire_all routes
  end.
Definition acquire_route_concurrency_permits (first second : option NativeHttp1RouteProxyRoute) : result unit Z :=
  acquire_all (unique_route_pair first second).
Fixpoint check_all (client_ip : option IpAddr) (delay : option Z) (routes : list NativeHttp1RouteProxyRoute)
    : NativeRateLimitDecision :=
  match routes with
  | [] => match delay with Some delay => RateDelay delay | None => RateAllow end
  | route :: routes =>
      match check (rt_rate_limit route) client_ip with
      | RateAllow => check_all client_ip delay routes
      | RateDelay route_delay =>
          check_all client_ip (Some (match delay with Some current => Z.max current route_delay | None => route_delay end)) routes
      | RateReject status => RateReject status
      end
  end.
Definition check_route_rate_limits (first second : option NativeHttp1RouteProxyRoute) (client_ip : option IpAddr)
    : NativeRateLimitDecision :=
  check_all client_ip None (unique_route_pair first second).

(** ** Admission *)

Definition bad_request : NativeHttp1Response := close_connection (new_response 400 (bs "Bad Request") (bs "bad request" ++ [LF])).
Definition not_found : NativeHttp1Response := close_connection (new_response 404 (bs "Not Found") (bs "not found" ++ [LF])).
Definition forbidden : NativeHttp1Response := close_connection (new_response 403 (bs "Forbidden") (bs "forbidden" ++ [LF])).
Definition too_many (status : Z) (body : list Z) : NativeHttp1Response :=
  close_connection (with_header (bs "retry-after") (bs "1") (new_response status (bs "Too Many Requests") body)).
Definition payload_too_large : NativeHttp1Response :=
  close_connection (new_response 413 (bs "Payload Too Large") (bs "payload too large" ++ [LF])).

(** The parameters of the response header policies *)
Context (status_metadata : ResponseMetadataConfig -> NativeHttp1Response -> NativeHttp1Response) (sha256 base64 : list Z -> list Z).
Local Abbreviation digests := (apply_digests_for_method sha256 base64).

Definition redirect_reason (status : Z) : list Z :=
  if status =? 301 then bs "Moved Permanently"
  else if status =? 302 then bs "Found"
  else if status =? 307 then bs "Temporary Redirect"
  else if status =? 308 then bs "Permanent Redirect"
  else bs "Redirect".
Definition https_redirect_response (r : NativeHttp1Request) (config : HttpsRedirectConfig)
    (response_headers : NativeRouteResponseHeaderPolicy) : option NativeHttp1Response :=
  if negb (hs_enabled config) || rq_downstream_tls r then None
  else
    match https_redirect_location r config with
    | None => Some (close_connection (new_response 400 (bs "Bad Request") (bs "missing or invalid host" ++ [LF])))
    | Some location =>
        let response := with_header (bs "content-length") (bs "0")
                          (with_header (bs "location") location
                             (new_response (hs_status config) (redirect_reason (hs_status config)) [])) in
        let response := apply_with_cors_origin status_metadata response_headers
                          (response_origin (rh_cors response_headers) r) response in
        Some (digests response_headers (rq_method r) response)
    end.

(** What a request comes to: an answer, the action of a route, or the handlers
    of the virtual host itself. *)
Inductive Admission : Type :=
| Answered (response : NativeHttp1Response)
| Routed (route : NativeHttp1RouteProxyRoute) (request : NativeHttp1Request)
| Fallback (request : NativeHttp1Request).

Definition preflight_route (select : list Z -> option NativeHttp1RouteProxyRoute) (r : NativeHttp1Request)
    : option NativeHttp1RouteProxyRoute :=
  match cors_preflight_requested_method r ≫= select with
  | Some route => if co_enabled (rh_cors (rt_response_headers route)) then Some route else select (rq_method r)
  | None => select (rq_method r)
  end.
Definition selected_route (v : NativeHttp1RouteProxy) (r : NativeHttp1Request) (path : list Z) : option NativeHttp1RouteProxyRoute :=
  preflight_route (fun method => select_route rt_methods rt_matcher (vp_routes v) method path) r.
Definition decoded_policy_route (v : NativeHttp1RouteProxy) (r : NativeHttp1Request) (path : list Z)
    : option NativeHttp1RouteProxyRoute :=
  preflight_route
    (fun method => select_decoded_policy_route rt_methods rt_matcher percent_decode_str (vp_routes v) method path) r.

Definition rewrite_policy (route : NativeHttp1RouteProxyRoute) : NativeRouteRewritePolicy :=
  mkRewrite (rt_matcher route) (rt_strip_prefix route) (rt_rewrite_prefix route) (rt_rewrite_template route).
Definition body_limit (v : NativeHttp1RouteProxy) (route : NativeHttp1RouteProxyRoute) : option Z :=
  match rt_max_request_body_bytes route with Some limit => Some limit | None => vp_max_request_body_bytes v end.
(** From the chosen route on: gRPC, rewriting, the body, the request headers. *)
Definition enter_route (v : NativeHttp1RouteProxy) (route : NativeHttp1RouteProxyRoute) (r : NativeHttp1Request)
    (path : list Z) (query : option (list Z)) : Admission :=
  match native_grpc_rejection_response (rt_grpc route) r with
  | Some response => Answered response
  | None =>
      match rewrite_route_request r (rewrite_policy route) path query with
      | None => Answered bad_request
      | Some request =>
          if match body_limit v route with Some limit => limit <? zlen (rq_body request) | None => false end
          then Answered payload_too_large
          else Routed route (apply_policy (rt_request_headers route) (Some (header_captures (rt_matcher route) path)) request)
      end
  end.
Definition first_some {A} (a b : option A) : option A := match a with Some _ => a | None => b end.
(** From the limits of the routes on. *)
Definition after_vhost_limits (v : NativeHttp1RouteProxy) (selected decoded : option NativeHttp1RouteProxyRoute)
    (client_ip : option IpAddr) (r : NativeHttp1Request) (path : list Z) (query : option (list Z)) : Admission :=
  match acquire_route_concurrency_permits decoded selected with
  | Err status => Answered (too_many status (bs "too many requests" ++ [LF]))
  | Ok _ =>
      match check_route_rate_limits decoded selected client_ip with
      | RateReject status => Answered (too_many status (bs "rate limited" ++ [LF]))
      | RateAllow | RateDelay _ =>
          match (if match selected with Some route => https_redirect_exempt_or_redirect route | None => false end then None
                 else https_redirect_response r (vp_https_redirect v) (vp_fallback_response_headers v)) with
          | Some response => Answered response
          | None =>
              match first_some (selected ≫= fun route => cors_preflight_response status_metadata sha256 base64 (rt_response_headers route) r)
                      (cors_preflight_response status_metadata sha256 base64 (vp_fallback_response_headers v) r) with
              | Some response => Answered response
              | None => match selected with Some route => enter_route v route r path query | None => Fallback r end
              end
          end
      end
  end.
Definition admit_request (v : NativeHttp1RouteProxy) (geo_context : option NativeHttp1GeoContext) (r : NativeHttp1Request) : Admission :=
  match request_path_and_query r with
  | None => Answered bad_request
  | Some (path, query) =>
      let selected := selected_route v r path in
      let decoded := decoded_policy_route v r path in
      if bool_decide (selected = None) && bool_decide (vp_fallback_web v = None) && bool_decide (vp_fallback v = None)
      then Answered not_found
      else
        let client_ip := vhost_client_ip v r in
        let allows p := access_allows p client_ip (rq_tls_identity r) geo_context in
        let denies route := match route with Some route => negb (allows (rt_access route)) | None => false end in
        if negb (allows (vp_access v)) || denies selected || denies decoded then Answered forbidden
        else
          match acquire (vp_concurrency v) with
          | Err status => Answered (too_many status (bs "too many requests" ++ [LF]))
          | Ok _ =>
              match check (vp_rate_limit v) client_ip with
              | RateReject status => Answered (too_many status (bs "rate limited" ++ [LF]))
              | RateAllow | RateDelay _ => after_vhost_limits v selected decoded client_ip r path query
              end
          end
  end.

(** ** Answering *)

Context (proxy_handle : Proxy -> NativeHttp1Request -> NativeHttp1Response).
(** [handle_async] and [handle_optional_async] of a static site *)
Context (web_handle : Web -> NativeHttp1Request -> list Z -> NativeHttp1Response).
Context (web_handle_optional : Web -> NativeHttp1Request -> list Z -> option NativeHttp1Response).

Definition redirect_response (r : NativeHttp1Request) (redirect : NativeHttp1RouteRedirect) : NativeHttp1Response :=
  match route_redirect_location r redirect with
  | None => close_connection (new_response 400 (bs "Bad Request") (bs "invalid redirect target" ++ [LF]))
  | Some location =>
      with_header (bs "location") location (new_response (rd_status redirect) (redirect_reason (rd_status redirect)) [])
  end.
Definition action_handle (action : NativeHttp1RouteAction) (r : NativeHttp1Request) : NativeHttp1Response :=
  match action with
  | ActProxy proxy => proxy_handle proxy r
  | ActRedirect redirect => redirect_response r redirect
  | ActStaticWeb web =>
      match request_path_and_query r with
      | None => bad_request
      | Some (path, _) => web_handle web r path
      end
  end.
Definition route_handle (route : NativeHttp1RouteProxyRoute) (r : NativeHttp1Request) : NativeHttp1Response :=
  let cors_origin := response_origin (rh_cors (rt_response_headers route)) r in
  apply_with_cors_origin status_metadata (rt_response_headers route) cors_origin (action_handle (rt_action route) r).
Definition fallback_web_response (v : NativeHttp1RouteProxy) (r : NativeHttp1Request) (path : list Z) : option NativeHttp1Response :=
  let* web := vp_fallback_web v in
  let* response := web_handle_optional web r path in
  Some (apply_with_cors_origin status_metadata (vp_fallback_response_headers v)
          (response_origin (rh_cors (vp_fallback_response_headers v)) r) response).
Definition fallback_handle (v : NativeHttp1RouteProxy) (r : NativeHttp1Request) (path : list Z) : NativeHttp1Response :=
  match fallback_web_response v r path with
  | Some response => digests (vp_fallback_response_headers v) (rq_method r) response
  | None =>
      match vp_fallback v with
      | Some proxy => digests (vp_fallback_response_headers v) (rq_method r) (proxy_handle proxy r)
      | None => not_found
      end
  end.
(** [NativeHttp1RouteProxy::handle] *)
Definition vhost_handle (v : NativeHttp1RouteProxy) (geo_context : option NativeHttp1GeoContext) (r : NativeHttp1Request)
    : NativeHttp1Response :=
  match admit_request v geo_context r with
  | Answered response => response
  | Routed route request => digests (rt_response_headers route) (rq_method request) (route_handle route request)
  | Fallback request =>
      match request_path_and_query request with
      | Some (path, _) => fallback_handle v request path
      | None => bad_request
      end
  end.

(** [NativeHttp1HostRouter::handle]: the virtual host of a request answers it. *)
Definition route_error_response (error : NativeHostRouteError) : NativeHttp1Response :=
  close_connection
    match error with
    | HostMissing | HostInvalid => new_response 400 (bs "Bad Request") (bs "missing or invalid host identity" ++ [LF])
    | HostUnknown => new_response 421 (bs "Misdirected Request") (bs "unknown host identity" ++ [LF])
    end.
Definition router_handle (router : @NativeHttp1HostRouter NativeHttp1RouteProxy) (geo_context : option NativeHttp1GeoContext)
    (r : NativeHttp1Request) : NativeHttp1Response :=
  match select_request router r with
  | Ok vhost => vhost_handle vhost geo_context r
  | Err error => route_error_response error
  end.
End Handler.
