(* ===== verification/RouteProxyProps.v ===== *)
(** * What reaches an action

    A request reaches the action of a route or the handlers of a virtual host
    only after every policy that concerns it has let it through. *)
From Stdlib Require Import ZArith Lia.
From stdpp Require Import base list numbers strings sets gmap.
From S2P Require Import Prelude Text NetAddr ProxyProtocol Http1Target Http1Head LbBackend HostNames Headers RequestHeaders UpstreamResponse CacheKey CachePurge CacheControl CacheObject CacheEntry CacheRange MemoryCache Choice PathSafety HostRouter AccessPolicy RouteMatch Cors RouteProxy.

Section HandlerProps.
Context {Regex : Type} `{!RegexEngine Regex} (percent_decode_str : list Z -> list Z).
Context {RateLimit Concurrency Proxy Web : Type}.
Context (acquire : Concurrency -> result unit Z) (check : RateLimit -> option IpAddr -> NativeRateLimitDecision).
Context (status_metadata : ResponseMetadataConfig -> NativeHttp1Response -> NativeHttp1Response) (sha256 base64 : list Z -> list Z).
Local Abbreviation route := (@NativeHttp1RouteProxyRoute Regex RateLimit Concurrency Proxy Web).
Local Abbreviation vhost := (@NativeHttp1RouteProxy Regex RateLimit Concurrency Proxy Web).
Local Abbreviation admit_request := (admit_request percent_decode_str acquire check status_metadata sha256 base64).

(** ** Limits of several routes *)

Lemma acquire_all_ok (routes : list route) :
  acquire_all acquire routes = Ok tt <-> Forall (fun r => acquire (rt_concurrency r) = Ok tt) routes.
Proof.
  induction routes as [| r routes IH]; cbn [acquire_all]; [split; [by constructor | done] |].
  rewrite Forall_cons. destruct (acquire (rt_concurrency r)) as [[] |] eqn:E; [tauto |]. split; [done | by intros [? _]].
Qed.
Definition not_rejected (d : NativeRateLimitDecision) : Prop := match d with RateReject _ => False | _ => True end.
Lemma check_all_ok client_ip delay (routes : list route) :
  not_rejected (check_all check client_ip delay routes) <->
  Forall (fun r => not_rejected (check (rt_rate_limit r) client_ip)) routes.
Proof.
  revert delay. induction routes as [| r routes IH]; intros delay; cbn [check_all].
  - split; [by constructor |]. by destruct delay.
  - rewrite Forall_cons. destruct (check (rt_rate_limit r) client_ip) eqn:E; rewrite ?IH; cbn; tauto.
Qed.
(** Routes that have one address have one set of limits. *)
Definition same_address (routes : list route) : Prop :=
  forall a b, a ∈ routes -> b ∈ routes -> rt_id a = rt_id b -> a = b.
Lemma unique_pair_covers (routes : list route) first second r :
  same_address routes -> (forall a, first = Some a -> a ∈ routes) -> (forall a, second = Some a -> a ∈ routes) ->
  first = Some r \/ second = Some r -> r ∈ unique_route_pair first second.
Proof.
  intros Hs H1 H2 Hr. unfold unique_route_pair. apply elem_of_app.
  destruct Hr as [-> | ->]; [left; by apply list_elem_of_singleton |].
  destruct first as [a |]; [| right; by apply list_elem_of_singleton]. change (option_list (Some r)) with [r]. cbn [List.filter].
  destruct (decide (rt_id a = rt_id r)) as [E | E].
  2: { right. rewrite (proj2 (Z.eqb_neq _ _) E). by apply list_elem_of_singleton. }
  left.
  rewrite (Hs a r); [by apply list_elem_of_singleton | auto | auto | done].
Qed.
Lemma unique_pair_in (first second : option route) r :
  r ∈ unique_route_pair first second -> first = Some r \/ second = Some r.
Proof.
  unfold unique_route_pair. intros [H | H]%elem_of_app.
  - destruct first; [apply list_elem_of_singleton in H; subst; by left | by apply elem_of_nil in H].
  - right. destruct second as [b |]; [| by destruct first; apply elem_of_nil in H].
    change (option_list (Some b)) with [b] in H. f_equal. symmetry. apply list_elem_of_singleton.
    destruct first; [| done]. cbn [List.filter] in H. destruct (negb _); [done | by apply elem_of_nil in H].
Qed.

(** ** Guards *)

(** The limits and policies of a route, or of the virtual host. *)
Definition route_lets (v : vhost) (geo : option NativeHttp1GeoContext) (r : NativeHttp1Request) (rt : route) : Prop :=
  access_allows (rt_access rt) (vhost_client_ip v r) (rq_tls_identity r) geo = true
  /\ acquire (rt_concurrency rt) = Ok tt /\ not_rejected (check (rt_rate_limit rt) (vhost_client_ip v r)).
Definition vhost_lets (v : vhost) (geo : option NativeHttp1GeoContext) (r : NativeHttp1Request) : Prop :=
  access_allows (vp_access v) (vhost_client_ip v r) (rq_tls_identity r) geo = true
  /\ acquire (vp_concurrency v) = Ok tt /\ not_rejected (check (vp_rate_limit v) (vhost_client_ip v r)).

Lemma select_elem (routes : list route) method path include_fallback r :
  select_route_with_fallback rt_methods rt_matcher routes method path include_fallback = Some r -> r ∈ routes.
Proof. intros E. eapply chosen_elem. rewrite <- E. apply select_chosen. Qed.
Lemma preflight_route_elem (routes : list route) select r x :
  (forall m a, select m = Some a -> a ∈ routes) -> preflight_route select r = Some x -> x ∈ routes.
Proof.
  intros Hs. unfold preflight_route. destruct (cors_preflight_requested_method r) as [m |]; cbn [mbind option_bind]; [| apply Hs].
  destruct (select m) as [a |] eqn:Em; [| apply Hs]. destruct (co_enabled _); [| apply Hs]. intros [= <-]. by eapply Hs.
Qed.
Lemma selected_elem (v : vhost) r path x : selected_route v r path = Some x -> x ∈ vp_routes v.
Proof. apply preflight_route_elem. intros m a. apply select_elem. Qed.
Lemma decoded_elem (v : vhost) r path x : decoded_policy_route percent_decode_str v r path = Some x -> x ∈ vp_routes v.
Proof.
  apply preflight_route_elem. intros m a. unfold select_decoded_policy_route.
  destruct (decoded_route_policy_path _ _) as [d |]; [| done]. apply select_elem.
Qed.

(** What a request that is not answered on the way has passed: the policies of
    the virtual host, of its route and of the route its decoded path names,
    and the redirection to HTTPS; it is no CORS preflight a policy answers. *)
Definition passed_guards (v : vhost) (geo : option NativeHttp1GeoContext) (r : NativeHttp1Request) (path : list Z)
    (selected : option route) : Prop :=
  vhost_lets v geo r
  /\ (forall rt, selected = Some rt \/ decoded_policy_route percent_decode_str v r path = Some rt -> route_lets v geo r rt)
  /\ (hs_enabled (vp_https_redirect v) = true -> rq_downstream_tls r = true
       \/ exists rt, selected = Some rt /\ https_redirect_exempt_or_redirect rt = true)
  /\ cors_preflight_response status_metadata sha256 base64 (vp_fallback_response_headers v) r = None
  /\ (forall rt, selected = Some rt -> cors_preflight_response status_metadata sha256 base64 (rt_response_headers rt) r = None).
Definition proceeds (v : vhost) (r : NativeHttp1Request) (path : list Z) (query : option (list Z)) (selected : option route) : Admission :=
  match selected with Some rt => enter_route v rt r path query | None => Fallback r end.

Lemma limits_pass (routes : list route) first second client_ip :
  same_address routes -> (forall a, first = Some a -> a ∈ routes) -> (forall a, second = Some a -> a ∈ routes) ->
  acquire_route_concurrency_permits acquire first second = Ok tt
    /\ not_rejected (check_route_rate_limits check first second client_ip)
  <-> forall rt, first = Some rt \/ second = Some rt ->
        acquire (rt_concurrency rt) = Ok tt /\ not_rejected (check (rt_rate_limit rt) client_ip).
Proof.
  intros Hs H1 H2. unfold acquire_route_concurrency_permits, check_route_rate_limits.
  rewrite acquire_all_ok, check_all_ok, !Forall_forall. split.
  - intros [Ha Hc] rt Hrt. pose proof (unique_pair_covers routes first second rt Hs H1 H2 Hrt). auto.
  - intros H. split; intros rt Hin; apply H; by apply unique_pair_in.
Qed.
Lemma https_redirect_none r config policy :
  https_redirect_response status_metadata sha256 base64 r config policy = None
  <-> (hs_enabled config = true -> rq_downstream_tls r = true).
Proof.
  unfold https_redirect_response. destruct (hs_enabled config), (rq_downstream_tls r); cbn; try tauto.
  split; [by destruct (https_redirect_location r config) | intros H; by specialize (H eq_refl)].
Qed.
Lemma first_some_none {A} (a b : option A) : first_some a b = None <-> a = None /\ b = None.
Proof. destruct a; cbn; intuition congruence. Qed.
Lemma bind_none {A B} (a : option A) (f : A -> option B) : a ≫= f = None <-> forall x, a = Some x -> f x = None.
Proof. destruct a; cbn; split; intros H; try done; [intros ? [= <-]; done | by apply H]. Qed.
(** Either every guard lets the request go on, or it is answered. *)
Definition goes_on_or_answered (guards : Prop) (a next : Admission) : Prop :=
  (guards /\ a = next) \/ (~ guards /\ exists response, a = @Answered Regex RateLimit Concurrency Proxy Web response).
Lemma answered_when (guards : Prop) response next : ~ guards -> goes_on_or_answered guards (Answered response) next.
Proof. intros H. right. split; [done | by eexists]. Qed.

(** The guards after the limits. *)
Lemma redirect_then_preflight (v : vhost) geo r path query (selected : option route) :
  vhost_lets v geo r ->
  (forall rt, selected = Some rt \/ decoded_policy_route percent_decode_str v r path = Some rt -> route_lets v geo r rt) ->
  goes_on_or_answered (passed_guards v geo r path selected)
    (match (if match selected with Some route => https_redirect_exempt_or_redirect route | None => false end then None
            else https_redirect_response status_metadata sha256 base64 r (vp_https_redirect v) (vp_fallback_response_headers v)) with
     | Some response => Answered response
     | None =>
         match first_some (selected ≫= fun route => cors_preflight_response status_metadata sha256 base64 (rt_response_headers route) r)
                 (cors_preflight_response status_metadata sha256 base64 (vp_fallback_response_headers v) r) with
         | Some response => Answered response
         | None => proceeds v r path query selected
         end
     end)
    (proceeds v r path query selected).
Proof.
  intros Hv Hr.
  match goal with |- goes_on_or_answered _ (match ?o with Some _ => _ | None => _ end) _ => set (redirect := o) end.
  assert (redirect = None <-> (hs_enabled (vp_https_redirect v) = true -> rq_downstream_tls r = true
       \/ exists rt, selected = Some rt /\ https_redirect_exempt_or_redirect rt = true)) as Hredirect.
  { subst redirect. destruct selected as [rt |]; [destruct (https_redirect_exempt_or_redirect rt) eqn:E |].
    - split; [| done]. intros _ _. right. by exists rt.
    - rewrite https_redirect_none. split; [by intros H ?; left; apply H |]. intros H He.
      destruct (H He) as [? | (x & [= <-] & Hx)]; [done | congruence].
    - rewrite https_redirect_none. split; [by intros H ?; left; apply H |]. intros H He.
      by destruct (H He) as [? | (x & ? & Hx)]. }
  destruct redirect as [response |].
  { apply answered_when. intros (_ & _ & H & _). by apply Hredirect in H. }
  set (preflight := first_some _ _).
  assert (preflight = None <-> cors_preflight_response status_metadata sha256 base64 (vp_fallback_response_headers v) r = None
    /\ forall rt, selected = Some rt -> cors_preflight_response status_metadata sha256 base64 (rt_response_headers rt) r = None) as Hpre.
  { subst preflight. rewrite first_some_none, bind_none. tauto. }
  destruct preflight as [response |].
  { apply answered_when. intros (_ & _ & _ & H). by apply Hpre in H. }
  left. split; [| done]. split; [done | split; [done |]]. split; [by apply Hredirect | by apply Hpre].
Qed.
Lemma after_vhost_limits_exact (v : vhost) geo r path query :
  same_address (vp_routes v) -> vhost_lets v geo r ->
  (forall rt, selected_route v r path = Some rt \/ decoded_policy_route percent_decode_str v r path = Some rt ->
     access_allows (rt_access rt) (vhost_client_ip v r) (rq_tls_identity r) geo = true) ->
  goes_on_or_answered (passed_guards v geo r path (selected_route v r path))
    (after_vhost_limits acquire check status_metadata sha256 base64 v (selected_route v r path)
       (decoded_policy_route percent_decode_str v r path) (vhost_client_ip v r) r path query)
    (proceeds v r path query (selected_route v r path)).
Proof.
  intros Hsame Hv Hacc. unfold after_vhost_limits.
  pose proof (limits_pass (vp_routes v) _ _ (vhost_client_ip v r) Hsame (decoded_elem v r path) (selected_elem v r path)) as Hlim.
  assert (forall P : Prop, (P <-> forall rt, decoded_policy_route percent_decode_str v r path = Some rt \/ selected_route v r path = Some rt ->
     acquire (rt_concurrency rt) = Ok tt /\ not_rejected (check (rt_rate_limit rt) (vhost_client_ip v r))) ->
     P <-> forall rt, selected_route v r path = Some rt \/ decoded_policy_route percent_decode_str v r path = Some rt -> route_lets v geo r rt) as Hroutes.
  { intros P ->. split; intros H rt Hrt; [split; [by apply Hacc | apply H; tauto] |]. by apply H; tauto. }
  apply Hroutes in Hlim. clear Hroutes Hacc.
  destruct (acquire_route_concurrency_permits _ _ _) as [[] |] eqn:Ha; [| apply answered_when; intros (_ & H & _); apply Hlim in H as [H _]; done].
  assert (not_rejected (check_route_rate_limits check (decoded_policy_route percent_decode_str v r path)
            (selected_route v r path) (vhost_client_ip v r)) -> forall rt,
    selected_route v r path = Some rt \/ decoded_policy_route percent_decode_str v r path = Some rt -> route_lets v geo r rt) as Hroutes
    by (intros; by apply Hlim).
  destruct (check_route_rate_limits _ _ _ _); [| | apply answered_when; intros (_ & H & _); apply Hlim in H as [_ H]; done];
    (clear Hlim; apply redirect_then_preflight; [done | by apply Hroutes]).
Qed.
Lemma admit_exact (v : vhost) geo r path query :
  same_address (vp_routes v) -> request_path_and_query r = Some (path, query) ->
  goes_on_or_answered
    (passed_guards v geo r path (selected_route v r path)
     /\ (selected_route v r path = None -> vp_fallback_web v <> None \/ vp_fallback v <> None))
    (admit_request v geo r) (proceeds v r path query (selected_route v r path)).
Proof.
  intros Hsame Hpath. unfold RouteProxy.admit_request. rewrite Hpath. cbn zeta.
  assert (bool_decide (selected_route v r path = None) && bool_decide (vp_fallback_web v = None) && bool_decide (vp_fallback v = None) = false
    <-> (selected_route v r path = None -> vp_fallback_web v <> None \/ vp_fallback v <> None)) as Hnone.
  { rewrite !andb_false_iff, !bool_decide_eq_false. destruct (selected_route v r path), (vp_fallback_web v), (vp_fallback v); naive_solver. }
  destruct (bool_decide _ && _ && _); [apply answered_when; intros [_ H]; by apply Hnone in H |].
  destruct (negb _ || _ || _) eqn:Hacc.
  { apply answered_when. intros [(Hv & Hr & _) _]. destruct Hv as [Hv _]. rewrite Hv in Hacc. cbn [negb orb] in Hacc.
    apply orb_true_iff in Hacc as [Hd | Hd].
    - destruct (selected_route v r path) as [rt |]; [| done]. destruct (Hr rt) as [E _]; [by left |]. by rewrite E in Hd.
    - destruct (decoded_policy_route _ v r path) as [rt |]; [| done]. destruct (Hr rt) as [E _]; [by right |]. by rewrite E in Hd. }
  apply orb_false_iff in Hacc as [[Hv%negb_false_iff Hsel]%orb_false_iff Hdec].
  destruct (acquire (vp_concurrency v)) as [[] |] eqn:Hac; [| apply answered_when; intros [((_ & H & _) & _) _]; congruence].
  destruct (check (vp_rate_limit v) (vhost_client_ip v r)) eqn:Hc;
    [| | apply answered_when; intros [((_ & _ & H) & _) _]; by rewrite Hc in H].
  all: destruct (after_vhost_limits_exact v geo r path query) as [[? ->] | [Hn [? ->]]];
    [done | by repeat split; [.. | rewrite Hc] | | left; split; [split; [done | by apply Hnone] | done] | apply answered_when; by intros [? _]].
  all: intros rt [E | E]; rewrite E in *; by apply negb_false_iff.
Qed.
Lemma enter_route_exact (v : vhost) rt r path query :
  (exists r1, native_grpc_rejection_response (rt_grpc rt) r = None
     /\ rewrite_route_request r (rewrite_policy rt) path query = Some r1
     /\ (forall limit, body_limit v rt = Some limit -> zlen (rq_body r1) <= limit)
     /\ enter_route v rt r path query
        = Routed rt (apply_policy (rt_request_headers rt) (Some (header_captures (rt_matcher rt) path)) r1))
  \/ (~ (native_grpc_rejection_response (rt_grpc rt) r = None
         /\ exists r1, rewrite_route_request r (rewrite_policy rt) path query = Some r1
             /\ forall limit, body_limit v rt = Some limit -> zlen (rq_body r1) <= limit)
      /\ exists response, enter_route v rt r path query = Answered response).
Proof.
  unfold enter_route. destruct (native_grpc_rejection_response _ _); [right; split; [by intros [? _] | by eexists] |].
  destruct (rewrite_route_request _ _ _ _) as [r1 |]; [| right; split; [by intros (_ & ? & ? & _) | by eexists]].
  destruct (match body_limit v rt with Some _ => _ | None => _ end) eqn:Hb.
  - right. split; [| by eexists]. intros (_ & x & [= <-] & Hl). destruct (body_limit v rt) as [limit |]; [| done].
    specialize (Hl limit eq_refl). lia.
  - left. exists r1. split; [done | split; [done | split; [| done]]]. intros limit E. rewrite E in Hb. lia.
Qed.

(** C4: A request reaches the action of a route exactly when its target is a
    path, the route is the one selected for it, every policy that concerns it
    lets it through (the access rules, the concurrency and the rate limits of
    the virtual host, of the route and of the route its percent-decoded path
    names, the redirection to HTTPS, the CORS preflight, the gRPC checks), its
    target can be rewritten and its body is within the limit; it then carries
    the rewritten target and the headers of the route's policy. It is left to
    the virtual host's own handlers exactly when no route is selected, there is
    such a handler, and the policies of the virtual host and of the decoded
    alias let it through. *)
Theorem admitted_request_guarded (v : vhost) (geo : option NativeHttp1GeoContext) (r : NativeHttp1Request) :
  same_address (vp_routes v) ->
  (forall rt r', admit_request v geo r = Routed rt r' <->
     exists path query r1,
       request_path_and_query r = Some (path, query) /\ selected_route v r path = Some rt
       /\ passed_guards v geo r path (Some rt) /\ native_grpc_rejection_response (rt_grpc rt) r = None
       /\ rewrite_route_request r (rewrite_policy rt) path query = Some r1
       /\ (forall limit, body_limit v rt = Some limit -> zlen (rq_body r1) <= limit)
       /\ r' = apply_policy (rt_request_headers rt) (Some (header_captures (rt_matcher rt) path)) r1)
  /\ (forall r', admit_request v geo r = Fallback r' <->
     exists path query,
       request_path_and_query r = Some (path, query) /\ selected_route v r path = None
       /\ (vp_fallback_web v <> None \/ vp_fallback v <> None)
       /\ passed_guards v geo r path None /\ r' = r).
Proof.
  intros Hsame. destruct (request_path_and_query r) as [[path query] |] eqn:Hpath.
  2: { unfold RouteProxy.admit_request. rewrite Hpath. split; intros; split; [done | naive_solver | done | naive_solver]. }
  destruct (admit_exact v geo r path query Hsame Hpath) as [[[Hg Hh] ->] | [Hn [x ->]]].
  - unfold proceeds. destruct (selected_route v r path) as [rt |] eqn:Hs.
    + destruct (enter_route_exact v rt r path query) as [(r1 & ? & Hrw & ? & ->) | (Hno & x & ->)]; split; intros.
      * split; [intros [= <- <-]; by exists path, query, r1 |]. intros (? & ? & x & [= <- <-] & E & _ & _ & Hx & _ & ->).
        rewrite Hs in E. injection E as <-. by rewrite Hrw in Hx; injection Hx as <-.
      * split; [done |]. intros (? & ? & [= <- <-] & E & _). congruence.
      * split; [done |]. intros (? & ? & r1 & [= <- <-] & E & ? & ? & ? & ? & _). rewrite Hs in E. injection E as <-.
        destruct Hno. split; [done | by exists r1].
      * split; [done |]. intros (? & ? & [= <- <-] & E & _). congruence.
    + split; intros; split; [done | intros (? & ? & ? & [= <- <-] & E & _); congruence | |].
      * intros [= <-]. exists path, query. by split_and!; [| | apply Hh | |].
      * by intros (? & ? & [= <- <-] & _ & _ & _ & ->).
  - split; intros; split; [done | | done |].
    + intros (? & ? & ? & [= <- <-] & E & Hp & _). destruct Hn. rewrite E. by split.
    + intros (? & ? & [= <- <-] & E & Hw & Hp & _). destruct Hn. rewrite E. by split.
Qed.
End HandlerProps.
