(* ===== verification/RoutingSample.v ===== *)
(** * A sample virtual host

    A percent decoder, a router with two virtual hosts and requests to them, on
    which the routing theorems are applied; and what routing leaves undone. *)
From Stdlib Require Import ZArith Lia.
From stdpp Require Import base list numbers strings sets gmap.
From S2P Require Import Prelude Text NetAddr ProxyProtocol Http1Target Http1Head Http1Chunked LbBackend HostNames Headers RequestHeaders UpstreamResponse CacheKey CachePurge CacheControl CacheObject CacheEntry CacheRange MemoryCache Choice PathSafety HostRouter AccessPolicy RouteMatch Cors RouteProxy RouteProxyProps.

(** ** A percent decoder *)

Fixpoint percent_decode (s : list Z) : list Z :=
  match s with
  | [] => []
  | c :: rest =>
      if c =? PERCENT then
        match rest with
        | h :: l :: s' =>
            match hex_value h, hex_value l with
            | Some high, Some low => Z.lor (Z.shiftl high 4) low :: percent_decode s'
            | _, _ => PERCENT :: percent_decode rest
            end
        | _ => PERCENT :: percent_decode rest
        end
      else c :: percent_decode rest
  end.
#[export] Instance percent_decode_decoding : PercentDecoding percent_decode.
Proof.
  split.
  - done.
  - intros c s Hc. cbn [percent_decode]. by rewrite (proj2 (Z.eqb_neq c PERCENT) Hc).
  - intros h l s high low Hh Hl. cbn [percent_decode]. rewrite Z.eqb_refl. by rewrite Hh, Hl.
  - intros s Hs. cbn [percent_decode]. rewrite Z.eqb_refl. destruct s as [| h [| l s]]; [done | done |].
    destruct (hex_value h), (hex_value l); try done. by destruct Hs.
Qed.

(** Patterns that are literals: enough for a route without variables. *)
#[export] Instance literal_regex : RegexEngine (list Z) := {
  regex_is_match literal path := bool_decide (literal = path);
  regex_captures literal path := if bool_decide (literal = path) then Some [Some path] else None;
  regex_capture_names _ := [None];
}.

(** ** Routes *)

Definition no_cors : NativeCorsPolicy := mkCors false [] [] [] [] false None.
Definition plain_responses : NativeRouteResponseHeaderPolicy := mkResponsePolicy true [] [] [] [] [] (mkCookieRewrite [] []) (mkMetadata None false false true true) no_cors.
Definition office_only : NativeIpAccessPolicy :=
  mkAccess true [TrustedCidr (V4 10 0 0 0) 8] [] false [] [] [] [] [] [].
Definition sample_route (id : Z) (m : @NativeHttp1RouteMatcher (list Z)) (strip rewrite : option (list Z)) (access : NativeIpAccessPolicy)
    : @NativeHttp1RouteProxyRoute (list Z) unit unit (list Z) unit :=
  mkRoute id [] m strip rewrite None None false default_policy plain_responses access tt tt (mkGrpc false false) (ActProxy (bs "backend")).
Definition api_route := sample_route 1 (MPrefix (bs "/api/")) (Some (bs "/api/")) (Some (bs "/v1/")) access_default.
Definition admin_route := sample_route 2 (MPrefix (bs "/admin/")) None None office_only.
Definition open_route := sample_route 3 (MPrefix (bs "/open/")) None None access_default.
Definition sample_vhost : @NativeHttp1RouteProxy (list Z) unit unit (list Z) unit :=
  mkRouteProxy [api_route; admin_route; open_route] (Some (bs "site")) None plain_responses access_default tt tt (Some 4)
    (mkHttpsRedirect true 308 None) [].
Definition sample_to (target body : list Z) : NativeHttp1Request :=
  mkRequest (bs "GET") (Some (socket_addr_new (V4 198 51 100 9) 4711)) None None true None target Http11
    [(bs "Host", bs "shop.example")] body.
Definition sample_admit (target body : list Z) : @Admission (list Z) unit unit (list Z) unit :=
  admit_request percent_decode (fun _ => Ok tt) (fun _ _ => RateAllow) (fun _ response => response) (fun body => body) (fun digest => digest)
    sample_vhost None (sample_to target body).

(** A request for the API goes to its route, with the rewritten target; the
    administration is closed to the client, also behind an escape. *)
Example api_request_rewritten :
  match sample_admit (bs "/api/users?x=1") [] with
  | Routed rt r => rt_id rt = 1 /\ rq_target r = bs "/v1/users?x=1"
  | _ => False
  end.
Proof. vm_compute. by split. Qed.
Example escaped_admin_forbidden :
  sample_admit (bs "/admin/x") [] = Answered forbidden /\ sample_admit (bs "/%61dmin/x") [] = Answered forbidden.
Proof. by vm_compute. Qed.

(** The limit of the virtual host's bodies is not applied to a request that no
    route is selected for: the body of five bytes is over the limit of four. *)
Lemma vhost_body_limit_skipped :
  vp_max_request_body_bytes sample_vhost = Some 4
  /\ sample_admit (bs "/api/users") (bs "12345") = Answered payload_too_large
  /\ sample_admit (bs "/upload") (bs "12345") = Fallback (sample_to (bs "/upload") (bs "12345")).
Proof. by vm_compute. Qed.
(** A route that does not rewrite forwards a target with a parent segment as it
    came: the policy of the administration's route is not asked. *)
Lemma traversal_forwarded :
  match sample_admit (bs "/open/../admin/x") [] with
  | Routed rt r => rt_id rt = 3 /\ rq_target r = bs "/open/../admin/x"
  | _ => False
  end.
Proof. vm_compute. by split. Qed.

(** ** The theorems at the sample *)

Lemma same_address_sample : same_address (vp_routes sample_vhost).
Proof.
  intros a b Ha Hb. change (vp_routes sample_vhost) with [api_route; admin_route; open_route] in *.
  repeat match goal with H : _ ∈ _ :: _ |- _ => apply elem_of_cons in H as [-> | H] | H : _ ∈ [] |- _ => by apply elem_of_nil in H end; by intros [=].
Qed.
Lemma admitted_request_guarded_witness :
  exists r, sample_admit (bs "/api/users?x=1") [] = Routed api_route r
    /\ passed_guards percent_decode (fun _ => Ok tt) (fun _ _ => RateAllow) (fun _ response => response) (fun body => body) (fun digest => digest)
         sample_vhost None (sample_to (bs "/api/users?x=1") []) (bs "/api/users") (Some api_route).
Proof.
  pose proof (admitted_request_guarded percent_decode (fun _ : unit => Ok tt) (fun (_ : unit) _ => RateAllow) (fun _ response => response)
    (fun body => body) (fun digest => digest) sample_vhost None (sample_to (bs "/api/users?x=1") []) same_address_sample) as [H _].
  eexists. assert (sample_admit (bs "/api/users?x=1") [] = Routed api_route _) as E by (vm_compute; reflexivity).
  split; [exact E |]. apply H in E as (path & query & r1 & Ep & _ & Hp & _).
  assert (path = bs "/api/users") as <-; [| exact Hp].
  enough (Some (path, query) = Some (bs "/api/users", Some (bs "x=1"))) by congruence. rewrite <- Ep. vm_compute. reflexivity.
Defined.
Lemma no_brace_of (s : list Z) : forallb (fun c => negb (c =? 123)) s = true -> 123 ∉ s.
Proof. intros H Hin. rewrite forallb_forall in H. apply list_elem_of_In, H in Hin. lia. Qed.
Lemma redirect_location_exact_witness :
  route_redirect_location (sample_to (bs "/a/b?x=1") []) (mkRedirect (bs "https://www.shop.example{uri}") 308)
  = Some (bs "https://www.shop.example" ++ with_query (bs "/a/b") (Some (bs "x=1")))
  /\ safe_forward_path (bs "/a/b") = true.
Proof.
  assert (route_redirect_location (sample_to (bs "/a/b?x=1") []) (mkRedirect (bs "https://www.shop.example{uri}") 308)
    = Some (bs "https://www.shop.example/a/b?x=1")) as E by (vm_compute; reflexivity).
  pose proof (redirect_location_exact (sample_to (bs "/a/b?x=1") []) (mkRedirect (bs "https://www.shop.example{uri}") 308)
    (bs "https://www.shop.example") (bs "/a/b") _ (Some (bs "x=1")) eq_refl
    (no_brace_of (bs "https://www.shop.example") ltac:(vm_compute; reflexivity)) ltac:(vm_compute; reflexivity) E) as (Hl & _ & Hs & _).
  split; [| exact Hs]. rewrite E. apply f_equal. exact Hl.
Defined.

Definition shop_cors : NativeCorsPolicy :=
  mkCors true [bs "https://app.example"] [bs "GET"] [] [] true (Some 600).
Definition shop_responses : NativeRouteResponseHeaderPolicy := mkResponsePolicy true [] [] [] [] [] (mkCookieRewrite [] []) (mkMetadata None false false false false) shop_cors.
Definition cross_origin_request : NativeHttp1Request :=
  set_headers [(bs "Host", bs "shop.example"); (bs "Origin", bs "https://app.example")] (sample_to (bs "/api/users") []).
Lemma cors_grants_exact_witness :
  header_values (bs "access-control-allow-origin")
    (rp_headers (apply_with_cors_origin (fun _ response => response) shop_responses (response_origin shop_cors cross_origin_request)
       (new_response 200 (bs "OK") [])))
  = [bs "https://app.example"].
Proof.
  assert (bs "access-control-allow-origin" ∈ CORS_HEADERS) as Hin by apply list_elem_of_here.
  destruct (cors_grants_exact (fun _ response => response) shop_responses cross_origin_request (new_response 200 (bs "OK") []) _ eq_refl Hin) as [E _].
  change (rh_cors shop_responses) with shop_cors in E. rewrite E. vm_compute. reflexivity.
Defined.

(** ** Virtual hosts *)

Definition shop_config : @RouterConfig unit :=
  mkRouterConfig [mkVhost (bs "shop") [bs "shop.example"; bs "*.shop.example"] tt; mkVhost (bs "blog") [bs "Blog.shop.example"] tt] None true.
Definition by_name (vhost : @VhostConfig unit) : result (list Z) RouteProxyError := Ok (vh_name vhost).
Lemma host_routing_exact_witness :
  exists router o, router_from_config by_name (Err MissingRouteAction) shop_config = Ok router
    /\ owner (declared by_name shop_config) (bs "blog.shop.example") o
    /\ router_select router (Some (bs "BLOG.shop.example:443")) = match o with Some proxy => Ok proxy | None => Err HostUnknown end
    /\ router_select router (Some (bs "BLOG.shop.example:443")) = Ok (bs "blog").
Proof.
  eexists. assert (router_from_config by_name (Err MissingRouteAction) shop_config = Ok _) as E by (vm_compute; reflexivity).
  assert (rc_vhosts shop_config <> []) as Hne by discriminate.
  assert (normalize_host (bs "BLOG.shop.example:443") = Some (bs "blog.shop.example")) as Hn by (vm_compute; reflexivity).
  destruct (host_routing_exact by_name (Err MissingRouteAction) shop_config _ (bs "BLOG.shop.example:443") _ Hne E Hn) as (o & Ho & Hs).
  exists o. split; [exact E | split; [exact Ho | split; [exact Hs |]]]. vm_compute. reflexivity.
Defined.
