(* ===== verification/FileSystem.v ===== *)
(** * Paths and the file system ([std::path] and [std::fs] on Unix)

    Paths as the components that [Path] compares, a store of inodes, the calls
    the static file handler makes on it, and programs that make calls one after
    another while the store changes between them. *)
From Stdlib Require Import ZArith Lia.
From stdpp Require Import base list numbers strings sets gmap.
From S2P Require Import Prelude Text PathSafety.

(** ** Paths *)

Inductive Component : Type := RootDir | CurDir | ParentDir | Normal (name : list Z).
#[export] Instance component_eq_dec : EqDecision Component.
Proof. solve_decision. Defined.
(** A [Path]: equality, [starts_with] and [strip_prefix] go by component. *)
Abbreviation Path := (list Component).

(** A piece between slashes; [first] for the first piece of a relative path,
    where alone a dot counts. *)
Definition component_of (first : bool) (piece : list Z) : list Component :=
  if bool_decide (piece = []) then []
  else if bool_decide (piece = [46]) then (if first then [CurDir] else [])
  else if bool_decide (piece = [46; 46]) then [ParentDir]
  else [Normal piece].
(** [Path::new(s).components()] *)
Definition components (s : list Z) : Path :=
  match split_byte SLASH s with
  | [] => []
  | [] :: pieces =>
      match pieces with
      | [] => []
      | _ => RootDir :: concat (component_of false <$> pieces)
      end
  | piece :: pieces => component_of true piece ++ concat (component_of false <$> pieces)
  end.
Definition is_absolute (p : Path) : bool := match p with RootDir :: _ => true | _ => false end.
Definition is_cur_dir (c : Component) : bool := match c with CurDir => true | _ => false end.
(** [a.join(b)] *)
Definition path_join (a b : Path) : Path :=
  if is_absolute b then b else a ++ List.filter (fun c => negb (is_cur_dir c)) b.
Definition path_starts_with (p prefix : Path) : bool := bool_decide (take (length prefix) p = prefix).
(** [p.strip_prefix(prefix)] *)
Definition path_strip_prefix (prefix p : Path) : option Path :=
  if path_starts_with p prefix then Some (drop (length prefix) p) else None.
Definition absolute_path (names : list (list Z)) : Path := RootDir :: (Normal <$> names).

(** ** The store *)

(** A device and an inode number *)
Abbreviation InodeId := (Z * Z)%type.
(** What an inode is, and when it was modified (nanoseconds since the epoch). *)
Inductive Inode : Type :=
| IDir (modified : option Z) (entries : gmap (list Z) InodeId)
| IFile (modified : option Z) (data : list Z)
| ISymlink (target : list Z)
| ISpecial.
Record Fs : Type := mkFs {
  fs_root : InodeId;
  fs_inodes : gmap InodeId Inode;
}.
Inductive IoError : Type :=
| NotFound | NotADirectory | FilesystemLoop | InvalidInput | InvalidData | UnexpectedEof | OtherIo.
#[export] Instance io_error_eq_dec : EqDecision IoError.
Proof. solve_decision. Defined.

Record Metadata : Type := mkMetadataOf {
  mt_id : InodeId;
  mt_inode : Inode;
}.
Definition is_dir (i : Inode) : bool := match i with IDir _ _ => true | _ => false end.
Definition is_file (i : Inode) : bool := match i with IFile _ _ => true | _ => false end.
Definition is_symlink (i : Inode) : bool := match i with ISymlink _ => true | _ => false end.
Definition inode_len (i : Inode) : Z := match i with IFile _ data => zlen data | _ => 0 end.
Definition inode_modified (i : Inode) : option Z :=
  match i with IDir modified _ | IFile modified _ => modified | _ => None end.

(** ** Calls *)

Section Calls.
Context (f : Fs).

(** The entry of a directory, and what it is. *)
Definition entry_of (dir : InodeId) (name : list Z) : result Metadata IoError :=
  match fs_inodes f !! dir with
  | Some (IDir _ entries) =>
      match entries !! name with
      | Some id => match fs_inodes f !! id with Some inode => Ok (mkMetadataOf id inode) | None => Err NotFound end
      | None => Err NotFound
      end
  | _ => Err NotADirectory
  end.
(** The directories walked through, the last one first. *)
Definition Walk : Type := list (list Z * InodeId).
Definition walk_id (w : Walk) : InodeId := match w with [] => fs_root f | (_, id) :: _ => id end.
Definition walk_is_dir (w : Walk) : bool :=
  match fs_inodes f !! walk_id w with Some inode => is_dir inode | None => false end.

(** Walking along a path, through at most [links] symbolic links. *)
Fixpoint realpath (links : nat) : Walk -> Path -> result Walk IoError :=
  fix go (w : Walk) (p : Path) : result Walk IoError :=
    match p with
    | [] => Ok w
    | RootDir :: p => go [] p
    | CurDir :: p => if walk_is_dir w then go w p else Err NotADirectory
    | ParentDir :: p => if walk_is_dir w then go (tail w) p else Err NotADirectory
    | Normal name :: p =>
        match entry_of (walk_id w) name with
        | Err error => Err error
        | Ok m =>
            match mt_inode m with
            | ISymlink target =>
                match links with
                | O => Err FilesystemLoop
                | S links => realpath links w (components target ++ p)
                end
            | _ => go ((name, mt_id m) :: w) p
            end
        end
    end.
Definition MAXSYMLINKS : nat := 40.
Definition walk (p : Path) : result Walk IoError := realpath MAXSYMLINKS [] p.
Definition canonicalize (p : Path) : result Path IoError :=
  let? w := walk p in Ok (absolute_path (rev (fst <$> w))).
(** [std::fs::metadata]: of what the path leads to *)
Definition metadata (p : Path) : result Metadata IoError :=
  let? w := walk p in
  match fs_inodes f !! walk_id w with Some inode => Ok (mkMetadataOf (walk_id w) inode) | None => Err NotFound end.
(** [std::fs::symlink_metadata]: the last component is not followed *)
Definition symlink_metadata (p : Path) : result Metadata IoError :=
  match last p with
  | Some (Normal name) => let? w := walk (removelast p) in entry_of (walk_id w) name
  | _ => metadata p
  end.

(** [open] and [openat] with [O_NOFOLLOW], for a directory or for any file *)
Definition open_nofollow (directory : bool) (m : Metadata) : result InodeId IoError :=
  match mt_inode m with
  | ISymlink _ => Err FilesystemLoop
  | inode => if directory && negb (is_dir inode) then Err NotADirectory else Ok (mt_id m)
  end.
Definition open_directory (p : Path) : result InodeId IoError := let? m := symlink_metadata p in open_nofollow true m.
Definition openat (dir : InodeId) (name : list Z) (directory : bool) : result InodeId IoError :=
  let? m := entry_of dir name in open_nofollow directory m.
(** What is read from an open file *)
Definition fstat (id : InodeId) : result Inode IoError :=
  match fs_inodes f !! id with Some inode => Ok inode | None => Err NotFound end.
Definition file_data (id : InodeId) : result (list Z) IoError :=
  match fs_inodes f !! id with Some (IFile _ data) => Ok data | _ => Err OtherIo end.
End Calls.

(** ** Programs *)

(** A program makes its calls at moments that follow one another; what others do
    to the store in between is the sequence of stores. *)
Definition Io (A : Type) : Type := (nat -> Fs) -> nat -> result A IoError * nat.
Definition call {A} (op : Fs -> result A IoError) : Io A := fun fs t => (op (fs t), S t).
Definition io_ret {A} (a : A) : Io A := fun _ t => (Ok a, t).
Definition io_err {A} (e : IoError) : Io A := fun _ t => (Err e, t).
Definition io_bind {A B} (m : Io A) (k : A -> Io B) : Io B :=
  fun fs t => match m fs t with (Ok a, t) => k a fs t | (Err e, t) => (Err e, t) end.
Notation "'do' x := m 'in' k" := (io_bind m (fun x => k)) (at level 200, x pattern, m at level 100, k at level 200, right associativity).
(** The outcome itself, for a program that looks at the error. *)
Definition io_try {A} (m : Io A) : Io (result A IoError) := fun fs t => let '(r, t) := m fs t in (Ok r, t).

Lemma io_bind_ok {A B} (m : Io A) (k : A -> Io B) fs t b t' :
  io_bind m k fs t = (Ok b, t') <-> exists a t1, m fs t = (Ok a, t1) /\ k a fs t1 = (Ok b, t').
Proof. unfold io_bind. destruct (m fs t) as [[a | e] t1]; split; naive_solver. Qed.
Lemma io_try_ok {A} (m : Io A) fs t r t' : io_try m fs t = (Ok r, t') <-> m fs t = (r, t').
Proof. unfold io_try. destruct (m fs t). naive_solver. Qed.
Lemma call_ok {A} (op : Fs -> result A IoError) fs t r t' : call op fs t = (r, t') <-> op (fs t) = r /\ t' = S t.
Proof. unfold call. naive_solver. Qed.

(** * Walking without symbolic links

    What a canonical path says of the store, what walking along plain names
    does, and what can be opened from a directory by handles alone. *)
#[export] Instance normal_inj : Inj (=) (=) Normal.
Proof. by intros a b [=]. Qed.
Lemma normals_inj (a b : list (list Z)) : Normal <$> a = Normal <$> b -> a = b.
Proof. apply (inj (fmap (M := list) Normal)). Qed.

(** ** One moment *)

Section Moment.
Context (f : Fs).

(** The walk went through entries that are no symbolic links. *)
Inductive plain_to : Walk -> Prop :=
| plain_root : plain_to []
| plain_step w name m :
    plain_to w -> entry_of f (walk_id f w) name = Ok m -> is_symlink (mt_inode m) = false ->
    plain_to ((name, mt_id m) :: w).

Lemma realpath_eq links w p :
  realpath f links w p
  = match p with
    | [] => Ok w
    | RootDir :: p => realpath f links [] p
    | CurDir :: p => if walk_is_dir f w then realpath f links w p else Err NotADirectory
    | ParentDir :: p => if walk_is_dir f w then realpath f links (tail w) p else Err NotADirectory
    | Normal name :: p =>
        match entry_of f (walk_id f w) name with
        | Err error => Err error
        | Ok m =>
            match mt_inode m with
            | ISymlink target =>
                match links with
                | O => Err FilesystemLoop
                | S links => realpath f links w (components target ++ p)
                end
            | _ => realpath f links ((name, mt_id m) :: w) p
            end
        end
    end.
Proof. by destruct links, p as [| [] p]. Qed.

Lemma plain_tail w : plain_to w -> plain_to (tail w).
Proof. by destruct 1; [constructor |]. Qed.
(** A path that is walked leads along entries that are no links. *)
Lemma realpath_plain links : forall w p w', plain_to w -> realpath f links w p = Ok w' -> plain_to w'.
Proof.
  induction links as [links IHl] using (well_founded_induction lt_wf). intros w p. revert w.
  induction p as [| c p IHp]; intros w w' Hw; rewrite realpath_eq; [by intros [= <-] |].
  destruct c as [| | | name].
  - apply IHp. constructor.
  - destruct (walk_is_dir f w); [by apply IHp | done].
  - destruct (walk_is_dir f w); [by apply IHp, plain_tail | done].
  - destruct (entry_of f (walk_id f w) name) as [m |] eqn:He; [| done].
    destruct (mt_inode m) eqn:Em; [| | destruct links; [done | by apply IHl; [lia |]] |];
      (apply IHp; apply plain_step; [done | done | by rewrite Em]).
Qed.
Lemma canonicalize_plain p names :
  canonicalize f p = Ok (absolute_path names) -> exists w, plain_to w /\ names = rev (fst <$> w).
Proof.
  unfold canonicalize, walk. destruct (realpath f MAXSYMLINKS [] p) as [w |] eqn:E; [| done]. cbn. intros [= Hn].
  exists w. split; [eapply realpath_plain; [constructor | done] |]. by apply normals_inj in Hn.
Qed.

(** Plain names are walked along as they are. *)
Lemma realpath_along links w w' p :
  plain_to (w' ++ w) -> realpath f links w ((Normal <$> rev (fst <$> w')) ++ p) = realpath f links (w' ++ w) p.
Proof.
  revert p. induction w' as [| [name id] w' IH]; intros p Hp; [done |]. cbn [app] in Hp. inversion Hp as [| ? ? m Hp' He Hs]; subst.
  cbn [fmap list_fmap rev fst]. rewrite fmap_app, <- app_assoc, IH by done. cbn [fmap list_fmap app]. rewrite realpath_eq, He.
  destruct (mt_inode m); done.
Qed.
Lemma walk_along w p : plain_to w -> walk f (absolute_path (rev (fst <$> w)) ++ p) = realpath f MAXSYMLINKS w p.
Proof.
  intros Hw. unfold walk, absolute_path. cbn [app]. rewrite realpath_eq, realpath_along by (by rewrite app_nil_r).
  by rewrite app_nil_r.
Qed.
Lemma canonicalize_along w : plain_to w -> canonicalize f (absolute_path (rev (fst <$> w))) = Ok (absolute_path (rev (fst <$> w))).
Proof.
  intros Hw. unfold canonicalize. rewrite <- (app_nil_r (absolute_path _)) at 1. by rewrite (walk_along w []), realpath_eq.
Qed.
Lemma metadata_along w inode :
  plain_to w -> fs_inodes f !! walk_id f w = Some inode ->
  metadata f (absolute_path (rev (fst <$> w))) = Ok (mkMetadataOf (walk_id f w) inode).
Proof.
  intros Hw Hi. unfold metadata. rewrite <- (app_nil_r (absolute_path _)). rewrite (walk_along w []), realpath_eq by done.
  cbn. by rewrite Hi.
Qed.
Lemma entry_of_inode dir name m : entry_of f dir name = Ok m -> fs_inodes f !! mt_id m = Some (mt_inode m).
Proof.
  unfold entry_of. destruct (fs_inodes f !! dir) as [[| | |] |]; try done. destruct (entries !! name) as [id |]; [| done].
  destruct (fs_inodes f !! id) eqn:E; [| done]. by intros [= <-].
Qed.
Lemma symlink_metadata_along w name m :
  plain_to w -> entry_of f (walk_id f w) name = Ok m ->
  symlink_metadata f (absolute_path (rev (fst <$> w) ++ [name])) = Ok m.
Proof.
  intros Hw He. unfold symlink_metadata, absolute_path. rewrite fmap_app. cbn [fmap list_fmap].
  rewrite app_comm_cons, last_snoc, removelast_last. fold (absolute_path (rev (fst <$> w))).
  rewrite <- (app_nil_r (absolute_path _)), (walk_along w []), realpath_eq by done. done.
Qed.
End Moment.

(** ** A sequence of moments *)

Section Moments.
Context (fs : nat -> Fs).

(** From a directory along names, each looked up at its own moment, to an inode;
    no lookup finds a symbolic link. *)
Inductive descends : nat -> InodeId -> list (list Z) -> nat -> InodeId -> Prop :=
| descends_here t id : descends t id [] t id
| descends_step t dir name names m t' id :
    entry_of (fs t) dir name = Ok m -> is_symlink (mt_inode m) = false ->
    descends (S t) (mt_id m) names t' id -> descends t dir (name :: names) t' id.

Lemma open_nofollow_ok directory m id :
  open_nofollow directory m = Ok id -> id = mt_id m /\ is_symlink (mt_inode m) = false /\ (directory = true -> is_dir (mt_inode m) = true).
Proof. unfold open_nofollow. destruct (mt_inode m), directory; cbn; by intros [= <-]. Qed.
Lemma openat_ok f dir name directory id :
  openat f dir name directory = Ok id ->
  exists m, entry_of f dir name = Ok m /\ id = mt_id m /\ is_symlink (mt_inode m) = false /\ (directory = true -> is_dir (mt_inode m) = true).
Proof.
  unfold openat. destruct (entry_of f dir name) as [m |]; [| done]. cbn. intros H. exists m. split; [done |]. by apply open_nofollow_ok in H.
Qed.
End Moments.
