(* ===== verification/StaticPlan.v ===== *)
(** * Planning static responses ([fluxheim-web/src/lib.rs])

    Relative paths that stay below a root, entity tags, the conditions and the
    range of a request, and the answer they call for. *)
From Stdlib Require Import ZArith Lia.
From stdpp Require Import base list numbers strings sets gmap.
From S2P Require Import Prelude Text NetAddr CacheEntry PathSafety FileSystem.

(** ** Relative paths *)

(** The names of the components *)
Definition SafeRelativePath : Type := list (list Z).
Definition try_push (component : list Z) (p : SafeRelativePath) : option SafeRelativePath :=
  if contains_byte 0 component then None
  else
    match components component with
    | [Normal value] => if bool_decide (value = component) then Some (p ++ [value]) else None
    | _ => None
    end.
Definition as_path (p : SafeRelativePath) : Path := Normal <$> p.
Fixpoint from_path (p : Path) : option SafeRelativePath :=
  match p with
  | [] => Some []
  | Normal name :: p => (fun rest => name :: rest) <$> from_path p
  | _ => None
  end.
Definition from_rooted (root candidate : Path) : option SafeRelativePath :=
  let* relative := path_strip_prefix root candidate in from_path relative.

(** ** Files and plans *)

(** A time of modification is in nanoseconds since the epoch. *)
Record StaticResponseFile : Type := mkStaticFile {
  sf_len : Z;
  sf_modified : option Z;
}.
Inductive StaticResponseBody : Type := BodyNone | BodyFull | BodyRange (start len : Z).
Record StaticResponsePlan : Type := mkStaticPlan {
  spl_status : Z;
  spl_body : StaticResponseBody;
  spl_content_length : option Z;
  spl_content_range : option (list Z);
  spl_etag : list Z;
  spl_response_body_bytes : Z;
}.
Record StaticResponseConditions : Type := mkConditions {
  sc_if_match : option (list Z);
  sc_if_unmodified_since : option (list Z);
  sc_if_none_match : option (list Z);
  sc_if_modified_since : option (list Z);
  sc_cache_refresh_forced : bool;
  sc_range : option (list Z);
  sc_if_range : option (list Z);
}.
Definition no_conditions : StaticResponseConditions := mkConditions None None None None false None None.
Inductive ByteRangeParse : Type := RangeSingle (start len : Z) | RangeUnsatisfiable | RangeIgnore.

(** ** Entity tags *)

(** [{:x}] of a [u64] *)
Definition to_hex64 (n : Z) : list Z := rev (hex_rev 16 n).
(** The seconds and the rest of a time after the epoch *)
Definition epoch_parts (modified : option Z) : Z * Z :=
  match modified with
  | Some time => if 0 <=? time then (time / NANOS, time mod NANOS) else (0, 0)
  | None => (0, 0)
  end.
Definition QUOTE : Z := 34.
Definition static_etag (file : StaticResponseFile) : list Z :=
  let '(seconds, nanos) := epoch_parts (sf_modified file) in
  bs "W/" ++ [QUOTE] ++ to_hex64 (sf_len file) ++ [45] ++ to_hex64 seconds ++ [45] ++ to_hex64 nanos ++ [QUOTE].
Definition weak_etag_value (value : list Z) : list Z := default value (strip_prefix (bs "W/") value).
Definition list_items (value : list Z) : list (list Z) := trim <$> split_byte 44 value.
Definition etag_not_modified (if_none_match : option (list Z)) (etag : list Z) : bool :=
  match if_none_match with
  | None => false
  | Some value =>
      existsb (fun candidate => bool_decide (candidate = [42]) || bool_decide (weak_etag_value candidate = weak_etag_value etag))
        (list_items value)
  end.
Definition if_match_fails (if_match : option (list Z)) (etag : list Z) : bool :=
  match if_match with
  | None => false
  | Some value =>
      negb (existsb (fun candidate => bool_decide (candidate = [42])
                       || (negb (starts_with (bs "W/") candidate) && negb (starts_with (bs "W/") etag) && bool_decide (candidate = etag)))
              (list_items value))
  end.

(** ** Ranges *)

Definition parse_single_byte_range (range : list Z) (file_len : Z) : ByteRangeParse :=
  match strip_prefix (bs "bytes=") (trim range) with
  | None => RangeUnsatisfiable
  | Some range =>
      if contains_byte 44 range then RangeIgnore
      else if file_len =? 0 then RangeUnsatisfiable
      else
        match split_once 45 range with
        | None => RangeUnsatisfiable
        | Some ([], suffix) =>
            match parse_uint U64_MAX suffix with
            | None => RangeUnsatisfiable
            | Some suffix_len =>
                if suffix_len =? 0 then RangeUnsatisfiable
                else let len := Z.min suffix_len file_len in RangeSingle (file_len - len) len
            end
        | Some (start, last) =>
            match parse_uint U64_MAX start with
            | None => RangeUnsatisfiable
            | Some start =>
                if file_len <=? start then RangeUnsatisfiable
                else
                  match (if bool_decide (last = []) then Some (file_len - 1)
                         else (fun last => Z.min last (file_len - 1)) <$> parse_uint U64_MAX last) with
                  | None => RangeUnsatisfiable
                  | Some last => if last <? start then RangeUnsatisfiable else RangeSingle start (last - start + 1)
                  end
            end
        end
  end.

(** ** Plans *)

Definition response_body (method : list Z) (body : StaticResponseBody) : StaticResponseBody :=
  if bool_decide (method = bs "HEAD") then BodyNone else body.
Definition response_bytes (method : list Z) (bytes : Z) : Z := if bool_decide (method = bs "HEAD") then 0 else bytes.
Definition full_static_response_plan (file : StaticResponseFile) (method etag : list Z) : StaticResponsePlan :=
  mkStaticPlan 200 (response_body method BodyFull) (Some (sf_len file)) None etag (response_bytes method (sf_len file)).

Section Plan.
(** [httpdate::parse_http_date] *)
Context (parse_http_date : list Z -> option Z).

Definition modified_since_not_modified (modified : option Z) (if_modified_since : option (list Z)) : bool :=
  match modified, if_modified_since ≫= parse_http_date with
  | Some modified, Some since => (epoch_parts (Some modified)).1 <=? (epoch_parts (Some since)).1
  | _, _ => false
  end.
Definition unmodified_since_fails (modified : option Z) (if_unmodified_since : option (list Z)) : bool :=
  match modified, if_unmodified_since ≫= parse_http_date with
  | Some modified, Some since => (epoch_parts (Some since)).1 <? (epoch_parts (Some modified)).1
  | _, _ => false
  end.
Definition if_range_allows_range (modified : option Z) (etag : list Z) (if_range : option (list Z)) : bool :=
  match trim <$> if_range with
  | None | Some [] => true
  | Some value =>
      if starts_with [QUOTE] value then negb (starts_with (bs "W/") etag) && bool_decide (value = etag)
      else modified_since_not_modified modified (Some value)
  end.
Definition plan_static_response (file : StaticResponseFile) (method : list Z) (conditions : StaticResponseConditions)
    : StaticResponsePlan :=
  let etag := static_etag file in
  if if_match_fails (sc_if_match conditions) etag
     || (bool_decide (sc_if_match conditions = None)
         && unmodified_since_fails (sf_modified file) (sc_if_unmodified_since conditions))
  then mkStaticPlan 412 BodyNone (Some 0) None etag 0
  else if negb (sc_cache_refresh_forced conditions)
          && (etag_not_modified (sc_if_none_match conditions) etag
              || (bool_decide (sc_if_none_match conditions = None)
                  && modified_since_not_modified (sf_modified file) (sc_if_modified_since conditions)))
  then mkStaticPlan 304 BodyNone None None etag 0
  else
    match (if if_range_allows_range (sf_modified file) etag (sc_if_range conditions) then sc_range conditions else None) with
    | Some range =>
        match parse_single_byte_range range (sf_len file) with
        | RangeSingle start len =>
            mkStaticPlan 206 (response_body method (BodyRange start len)) (Some len)
              (Some (bs "bytes " ++ to_decimal start ++ [45]
                     ++ to_decimal (saturating_sub (saturating_add U64_MAX start len) 1) ++ [47] ++ to_decimal (sf_len file)))
              etag (response_bytes method len)
        | RangeUnsatisfiable =>
            mkStaticPlan 416 BodyNone (Some 0) (Some (bs "bytes */" ++ to_decimal (sf_len file))) etag 0
        | RangeIgnore => full_static_response_plan file method etag
        end
    | None => full_static_response_plan file method etag
    end.
End Plan.

(** [static_cache_identity], with the device and the inode of the file; [path]
    is the displayed text of its path. *)
Definition static_cache_identity (path : list Z) (id : InodeId) (len : Z) (modified : option Z) : list Z :=
  let '(seconds, nanos) := epoch_parts modified in
  path ++ [58] ++ to_decimal id.1 ++ [58] ++ to_decimal id.2 ++ [58] ++ to_decimal len ++ [58]
  ++ to_decimal seconds ++ [58] ++ to_decimal nanos.
