(* ===== verification/StaticWeb.v ===== *)
(** * Static files ([fluxheim-server/src/native_http1_static_web.rs] and its
    modules [resolve] and [response])

    From the path of a request to a file below the root, the answer made from
    it, the cache in memory in front of it, and the directory listing. *)
From Stdlib Require Import ZArith Lia.
From stdpp Require Import base list numbers strings sets gmap.
From S2P Require Import Prelude Text NetAddr ProxyProtocol Http1Target Http1Head LbBackend HostNames Headers RequestHeaders UpstreamResponse CacheKey CachePurge CacheControl CacheObject CacheEntry CacheRange MemoryCache CacheLookup PathSafety RouteMatch Cors RouteProxy FileSystem StaticPlan.

Definition MAX_DIRECTORY_LISTING_ENTRIES : Z := 4096.
Definition MAX_NATIVE_STATIC_BODY_BYTES : Z := 64 * 1024 * 1024.

Record DirectoryListingConfig : Type := mkListingConfig {
  dl_enabled : bool;
  dl_exact_size : bool;
  dl_local_time : bool;
}.
(** With the parts of the cache configuration the static cache reads. *)
Record NativeStaticMemoryCache : Type := mkStaticCache {
  st_config : CacheConfig;
  st_bypass : CacheBypassConfig;
  st_status_header : option (list Z);
  st_status_reason_header : option (list Z);
  st_max_bytes : Z;
}.
Record NativeHttp1StaticWeb : Type := mkWeb {
  sw_root : Path;
  sw_index_files : list (list Z);
  sw_deny_dotfiles : bool;
  sw_directory_listing : DirectoryListingConfig;
  sw_cache_control : list Z;
  sw_expires : option (list Z);
  sw_cache : option NativeStaticMemoryCache;
}.
Record NativeStaticFile : Type := mkNativeFile {
  nf_root : Path;
  nf_path : Path;
  nf_mime : list Z;
  nf_len : Z;
  nf_modified : option Z;
  nf_id : InodeId;
}.
Record DirectoryEntry : Type := mkEntry {
  de_name : list Z;
  de_is_dir : bool;
  de_size : option Z;
  de_modified : option Z;
}.
Record DirectoryListing : Type := mkListing {
  li_path : list Z;
  li_entries : list DirectoryEntry;
  li_local_time : bool;
}.
Inductive NativeStaticResolve : Type :=
| Found (file : NativeStaticFile)
| Listed (listing : DirectoryListing)
| StaticNotFound
| StaticForbidden.

(** ** Types of content *)

(** [path.extension()] of the last component: what follows its last dot, unless
    the name starts with that dot *)
Definition extension (p : Path) : option (list Z) :=
  match last p with
  | Some (Normal name) =>
      match rsplit_once 46 name with
      | Some (before, after) => if bool_decide (before = []) then None else Some after
      | None => None
      end
  | _ => None
  end.
Definition content_type_for_path (p : Path) : list Z :=
  let ext := match extension p with Some e => if utf8_valid e then to_ascii_lowercase e else [] | None => [] end in
  let has name := bool_decide (ext = bs name) in
  if has "css"%string then bs "text/css; charset=utf-8"
  else if has "gif"%string then bs "image/gif"
  else if has "html"%string || has "htm"%string then bs "text/html; charset=utf-8"
  else if has "ico"%string then bs "image/x-icon"
  else if has "jpg"%string || has "jpeg"%string then bs "image/jpeg"
  else if has "js"%string then bs "application/javascript; charset=utf-8"
  else if has "json"%string then bs "application/json"
  else if has "png"%string then bs "image/png"
  else if has "svg"%string then bs "image/svg+xml"
  else if has "txt"%string then bs "text/plain; charset=utf-8"
  else if has "wasm"%string then bs "application/wasm"
  else if has "webp"%string then bs "image/webp"
  else bs "application/octet-stream".

(** ** From a path to a file *)

Section Resolve.
(** [percent_encoding::percent_decode_str] and the order [read_dir] gives *)
Context (percent_decode_str : list Z -> list Z).
Context (dir_order : list (list Z) -> list (list Z)).
Context (web : NativeHttp1StaticWeb).

Fixpoint push_segments (segments : list (list Z)) (relative : SafeRelativePath) : option SafeRelativePath :=
  match segments with
  | [] => Some relative
  | segment :: segments =>
      if bool_decide (segment = []) || bool_decide (segment = [46]) then push_segments segments relative
      else if bool_decide (segment = [46; 46]) || contains_byte PERCENT segment || contains_byte BACKSLASH segment
              || (sw_deny_dotfiles web && starts_with [46] segment)
      then None
      else let* relative := try_push segment relative in push_segments segments relative
  end.
Definition relative_request_path (request_path : list Z) : result (option SafeRelativePath) IoError :=
  if negb (starts_with [SLASH] request_path) then Ok None
  else
    let decoded := percent_decode_str request_path in
    if negb (utf8_valid decoded) then Err InvalidInput
    else if contains_byte 0 decoded then Ok None
    else Ok (push_segments (split_byte SLASH decoded) []).

Definition static_file (candidate : Path) : Io (option NativeStaticFile) :=
  match from_rooted (sw_root web) candidate with
  | None => io_ret None
  | Some relative =>
      let expected := path_join (sw_root web) (as_path relative) in
      do canonical := io_try (call (fun f => canonicalize f candidate)) in
      match canonical with
      | Err NotFound => io_ret None
      | Err error => io_err error
      | Ok canonical =>
          if negb (path_starts_with canonical (sw_root web)) || negb (bool_decide (canonical = expected)) then io_ret None
          else
            do m := call (fun f => symlink_metadata f canonical) in
            if is_symlink (mt_inode m) || negb (is_file (mt_inode m)) then io_ret None
            else io_ret (Some (mkNativeFile (sw_root web) canonical (content_type_for_path canonical)
                                 (inode_len (mt_inode m)) (inode_modified (mt_inode m)) (mt_id m)))
      end
  end.

(** *** Listings *)

Fixpoint bytes_ltb (a b : list Z) : bool :=
  match a, b with
  | [], [] => false
  | [], _ :: _ => true
  | _ :: _, [] => false
  | x :: a, y :: b => if x <? y then true else if y <? x then false else bytes_ltb a b
  end.
(** Directories first, then by name *)
Definition entry_before (a b : DirectoryEntry) : bool :=
  if Bool.eqb (de_is_dir a) (de_is_dir b) then bytes_ltb (de_name a) (de_name b) else de_is_dir a.
Fixpoint insert_entry (e : DirectoryEntry) (sorted : list DirectoryEntry) : list DirectoryEntry :=
  match sorted with
  | [] => [e]
  | x :: sorted' => if entry_before x e then x :: insert_entry e sorted' else e :: sorted
  end.
Definition sort_entries (entries : list DirectoryEntry) : list DirectoryEntry := foldr insert_entry [] entries.

Definition read_dir (f : Fs) (p : Path) : result (list (list Z)) IoError :=
  let? m := metadata f p in
  match mt_inode m with
  | IDir _ entries => Ok (dir_order (fst <$> map_to_list entries))
  | _ => Err NotADirectory
  end.
Fixpoint list_entries (directory : Path) (names : list (list Z)) (entries : list DirectoryEntry) : Io (list DirectoryEntry) :=
  match names with
  | [] => io_ret entries
  | name :: names =>
      if MAX_DIRECTORY_LISTING_ENTRIES <=? zlen entries then io_err InvalidData
      else if negb (utf8_valid name) then list_entries directory names entries
      else if sw_deny_dotfiles web && starts_with [46] name then list_entries directory names entries
      else
        do file_type := call (fun f => symlink_metadata f (directory ++ [Normal name])) in
        let typed := mt_inode file_type in
        if is_symlink typed || (negb (is_file typed) && negb (is_dir typed)) then list_entries directory names entries
        else
          do m := call (fun f => symlink_metadata f (directory ++ [Normal name])) in
          let inode := mt_inode m in
          let size := if is_file typed && dl_exact_size (sw_directory_listing web) then Some (inode_len inode) else None in
          list_entries directory names (entries ++ [mkEntry name (is_dir typed) size (inode_modified inode)])
  end.
Definition directory_listing_path (relative : list (list Z)) : list Z :=
  let path := foldl (fun path segment => path ++ (if 1 <? zlen path then [SLASH] else []) ++ segment) [SLASH] relative in
  if ends_with [SLASH] path then path else path ++ [SLASH].
Definition directory_listing (directory : Path) : Io NativeStaticResolve :=
  match from_rooted (sw_root web) directory with
  | None => io_ret StaticNotFound
  | Some relative =>
      if negb (bool_decide (directory = path_join (sw_root web) (as_path relative))) then io_ret StaticNotFound
      else
        do names := call (fun f => read_dir f directory) in
        do entries := list_entries directory (ztake (MAX_DIRECTORY_LISTING_ENTRIES + 1) names) [] in
        io_ret (Listed (mkListing (directory_listing_path relative) (sort_entries entries)
                          (dl_local_time (sw_directory_listing web))))
  end.

(** *** The candidate *)

Fixpoint find_index (canonical : Path) (index_files : list (list Z)) : Io (option NativeStaticFile) :=
  match index_files with
  | [] => io_ret None
  | index :: index_files =>
      do file := static_file (path_join canonical (components index)) in
      match file with
      | Some file => io_ret (Some file)
      | None => find_index canonical index_files
      end
  end.
Definition resolve_relative_candidate (relative : SafeRelativePath) : Io NativeStaticResolve :=
  let candidate := path_join (sw_root web) (as_path relative) in
  do canonical := io_try (call (fun f => canonicalize f candidate)) in
  match canonical with
  | Err NotFound => io_ret StaticNotFound
  | Err error => io_err error
  | Ok canonical =>
      if negb (path_starts_with canonical (sw_root web)) || negb (bool_decide (canonical = candidate))
      then io_ret StaticNotFound
      else
        do m := io_try (call (fun f => metadata f canonical)) in
        match m with
        | Err NotFound => io_ret StaticNotFound
        | Err error => io_err error
        | Ok m =>
            if is_dir (mt_inode m) then
              do index := find_index canonical (sw_index_files web) in
              match index with
              | Some file => io_ret (Found file)
              | None => if dl_enabled (sw_directory_listing web) then directory_listing canonical else io_ret StaticNotFound
              end
            else
              do file := static_file candidate in
              io_ret (match file with Some file => Found file | None => StaticNotFound end)
        end
  end.
Definition resolve (request_path : list Z) : Io NativeStaticResolve :=
  match relative_request_path request_path with
  | Err error => io_err error
  | Ok None => io_ret StaticForbidden
  | Ok (Some relative) => resolve_relative_candidate relative
  end.
End Resolve.

(** * Directory listings ([fluxheim-web/src/directory_listing.rs])

    The page that lists a directory, and that the names on it cannot be read as
    markup. *)
Definition escape_char (c : Z) : list Z :=
  if c =? 38 then bs "&amp;"
  else if c =? 60 then bs "&lt;"
  else if c =? 62 then bs "&gt;"
  else if c =? 34 then bs "&quot;"
  else if c =? 39 then bs "&#39;"
  else [c].
Definition html_escape (value : list Z) : list Z := concat (escape_char <$> value).

Section Render.
(** [percent_encoding::utf8_percent_encode] with [NON_ALPHANUMERIC],
    [httpdate::fmt_http_date], and the local time as [chrono] writes it *)
Context (percent_encode : list Z -> list Z) (fmt_http_date : Z -> list Z) (fmt_local_time : Z -> option (list Z)).

Definition MAX_HTTP_DATE_SECONDS : Z := 253402300799.
Definition format_directory_listing_time (modified : Z) (local_time : bool) : option (list Z) :=
  if modified <? 0 then None
  else if MAX_HTTP_DATE_SECONDS <? modified / NANOS then None
  else if local_time then fmt_local_time modified
  else Some (fmt_http_date modified).
Definition entry_href (listing_path : list Z) (entry : DirectoryEntry) : list Z :=
  listing_path ++ percent_encode (de_name entry) ++ (if de_is_dir entry then [SLASH] else []).
Definition quoted (s : list Z) : list Z := [QUOTE] ++ s ++ [QUOTE].
Definition render_entry (listing : DirectoryListing) (entry : DirectoryEntry) : list Z :=
  let display_name := if de_is_dir entry then de_name entry ++ [SLASH] else de_name entry in
  bs "<tr><td><a href=" ++ quoted (html_escape (entry_href (li_path listing) entry)) ++ bs ">"
  ++ html_escape display_name ++ bs "</a></td><td>"
  ++ match de_size entry with Some size => to_decimal size | None => bs "-" end ++ bs "</td><td>"
  ++ match de_modified entry ≫= fun modified => format_directory_listing_time modified (li_local_time listing) with
     | Some timestamp => html_escape timestamp
     | None => bs "-"
     end ++ bs "</td></tr>".
Definition render_directory_listing (listing : DirectoryListing) : list Z :=
  bs "<!doctype html><html><head><meta charset=" ++ quoted (bs "utf-8") ++ bs "><title>Index of " ++ html_escape (li_path listing)
  ++ bs "</title></head><body><h1>Index of " ++ html_escape (li_path listing)
  ++ bs "</h1><table><thead><tr><th>Name</th><th>Size</th><th>Modified</th></tr></thead><tbody>"
  ++ concat (render_entry listing <$> li_entries listing) ++ bs "</tbody></table></body></html>".
End Render.
