(* ===== verification/StaticResponse.v ===== *)
(** * Answers made from static files ([native_http1_static_web_response.rs] and
    the handlers and the cache of [native_http1_static_web.rs])

    Reading a file through directory handles, the answer with its headers, the
    cache in front of it, and the handlers the routes call. *)
From Stdlib Require Import ZArith Lia.
From stdpp Require Import base list numbers strings sets gmap.
From S2P Require Import Prelude Text NetAddr ProxyProtocol Http1Target Http1Head LbBackend HostNames Headers RequestHeaders UpstreamResponse CacheKey CachePurge CacheControl CacheObject CacheEntry CacheRange MemoryCache CacheLookup PathSafety RouteMatch Cors RouteProxy FileSystem StaticPlan StaticWeb.

(** ** Reading *)

(** The loop of [open_static_body_file_at_root] *)
Fixpoint open_components (directory : InodeId) (relative : Path) : Io InodeId :=
  match relative with
  | [] => io_err InvalidInput
  | Normal name :: [] => call (fun f => openat f directory name false)
  | Normal name :: relative =>
      do directory := call (fun f => openat f directory name true) in open_components directory relative
  | _ => io_err InvalidInput
  end.
Definition open_static_body_file_at_root (file : NativeStaticFile) (relative : Path) : Io InodeId :=
  do directory := call (fun f => open_directory f (nf_root file)) in open_components directory relative.
Definition open_static_body_file (file : NativeStaticFile) : Io InodeId :=
  match from_rooted (nf_root file) (nf_path file) with
  | None => io_err InvalidInput
  | Some relative =>
      if negb (bool_decide (nf_path file = path_join (nf_root file) (as_path relative))) then io_err InvalidInput
      else
        do canonical := call (fun f => canonicalize f (nf_path file)) in
        if negb (path_starts_with canonical (nf_root file)) then io_err InvalidInput
        else
          do opened := open_static_body_file_at_root file (as_path relative) in
          do inode := call (fun f => fstat f opened) in
          if is_file inode then io_ret opened else io_err InvalidInput
  end.
Definition read_static_body (file : NativeStaticFile) (body : StaticResponseBody) : Io (list Z) :=
  match body with
  | BodyNone => io_ret []
  | BodyFull =>
      do reader := open_static_body_file file in
      do data := call (fun f => file_data f reader) in
      let body := ztake (saturating_add U64_MAX (nf_len file) 1) data in
      if zlen body =? nf_len file then io_ret body else io_err InvalidData
  | BodyRange start len =>
      do reader := open_static_body_file file in
      do data := call (fun f => file_data f reader) in
      let body := ztake len (zdrop start data) in
      if zlen body =? len then io_ret body else io_err UnexpectedEof
  end.

(** ** Answers *)

Definition static_reason (status : Z) : list Z :=
  if status =? 200 then bs "OK"
  else if status =? 206 then bs "Partial Content"
  else if status =? 304 then bs "Not Modified"
  else if status =? 412 then bs "Precondition Failed"
  else if status =? 502 then bs "Bad Gateway"
  else if status =? 504 then bs "Gateway Timeout"
  else if status =? 416 then bs "Range Not Satisfiable"
  else bs "OK".
Definition static_web_method_allowed (method : list Z) : bool :=
  bool_decide (method = bs "GET") || bool_decide (method = bs "HEAD").
(** The first header of a name, as it is *)
Definition static_request_header (r : NativeHttp1Request) (name : list Z) : option (list Z) :=
  snd <$> head (List.filter (named name) (rq_headers r)).
Definition request_forces_cache_refresh (r : NativeHttp1Request) : bool :=
  let any name names :=
    match static_request_header r name with
    | Some value => existsb (fun directive => listed_ci directive names) (list_items value)
    | None => false
    end in
  any (bs "pragma") [bs "no-cache"] || any (bs "cache-control") [bs "no-cache"; bs "no-store"].
Definition static_conditions (r : NativeHttp1Request) : StaticResponseConditions :=
  let field := static_request_header r in
  mkConditions (field (bs "if-match")) (field (bs "if-unmodified-since")) (field (bs "if-none-match"))
    (field (bs "if-modified-since")) (request_forces_cache_refresh r) (field (bs "range")) (field (bs "if-range")).
Definition with_content_length (length : Z) (r : NativeHttp1Response) : NativeHttp1Response :=
  mkResponse (rp_status r) (rp_reason r) (rp_headers r) (Some length) (rp_body r) (rp_close r).
Definition with_optional {A} (f : A -> NativeHttp1Response -> NativeHttp1Response) (a : option A) (r : NativeHttp1Response)
    : NativeHttp1Response := match a with Some a => f a r | None => r end.
Definition internal_error : NativeHttp1Response :=
  close_connection (new_response 500 (bs "Internal Server Error") (bs "internal error" ++ [LF])).
Definition static_response_too_large : NativeHttp1Response :=
  close_connection (new_response 413 (bs "Payload Too Large") (bs "static response too large" ++ [LF])).
Definition static_response_capacity_unavailable : NativeHttp1Response :=
  close_connection (with_header (bs "retry-after") (bs "1")
    (new_response 503 (bs "Service Unavailable") (bs "static response capacity unavailable" ++ [LF]))).
Definition method_not_allowed : NativeHttp1Response :=
  close_connection (with_header (bs "allow") (bs "GET, HEAD")
    (new_response 405 (bs "Method Not Allowed") (bs "method not allowed" ++ [LF]))).

Section Answers.
Context (parse_http_date : list Z -> option Z) (fmt_http_date : Z -> list Z) (fmt_local_time : Z -> option (list Z)).
Context (percent_encode : list Z -> list Z).
Context (web : NativeHttp1StaticWeb).

Definition plan_of (file : NativeStaticFile) (method : list Z) (conditions : StaticResponseConditions) : StaticResponsePlan :=
  plan_static_response parse_http_date (mkStaticFile (nf_len file) (nf_modified file)) method conditions.
(** The headers of the answer, on its status and body. *)
Definition static_headers (file : NativeStaticFile) (plan : StaticResponsePlan) (response : NativeHttp1Response)
    : NativeHttp1Response :=
  let response := with_header (bs "accept-ranges") (bs "bytes")
                    (with_header (bs "etag") (spl_etag plan)
                       (with_header (bs "cache-control") (sw_cache_control web)
                          (with_header (bs "content-type") (nf_mime file) response))) in
  let response := with_optional with_content_length (spl_content_length plan) response in
  let response := with_optional (with_header (bs "expires")) (sw_expires web) response in
  let response := with_optional (fun modified => with_header (bs "last-modified") (fmt_http_date modified)) (nf_modified file) response in
  with_optional (with_header (bs "content-range")) (spl_content_range plan) response.
Definition file_response_with_status (r : NativeHttp1Request) (file : NativeStaticFile) (conditions : StaticResponseConditions)
    (status_override : option Z) : Io (option NativeHttp1Response) :=
  let plan := plan_of file (rq_method r) conditions in
  if MAX_NATIVE_STATIC_BODY_BYTES <? spl_response_body_bytes plan then io_ret (Some static_response_too_large)
  else
    do body := io_try (read_static_body file (spl_body plan)) in
    match body with
    | Err _ => io_ret None
    | Ok body =>
        let status := default (spl_status plan) status_override in
        io_ret (Some (static_headers file plan (new_response status (static_reason status) body)))
    end.
Definition file_response (r : NativeHttp1Request) (file : NativeStaticFile) : Io NativeHttp1Response :=
  do response := file_response_with_status r file (static_conditions r) None in
  io_ret (default internal_error response).
Definition directory_listing_response (r : NativeHttp1Request) (listing : DirectoryListing) : NativeHttp1Response :=
  let body := render_directory_listing percent_encode fmt_http_date fmt_local_time listing in
  with_header (bs "cache-control") (bs "private, no-store")
    (with_header (bs "content-type") (bs "text/html; charset=utf-8")
       (with_content_length (zlen body)
          (new_response 200 (bs "OK") (if bool_decide (rq_method r = bs "HEAD") then [] else body)))).
End Answers.

(** * The handlers of a static site ([native_http1_static_web.rs])

    The cache in memory in front of the files and the handlers the routes call,
    with the state of the cache passed along and the file system changing
    between the calls. *)
Inductive StaticCacheStatus : Type := StaticBypass | StaticHit | StaticMiss | StaticRevalidated.
Inductive StaticCacheReason : Type :=
| StaticIneligible | ByRequest (reason : BypassReason)
| StatusRejected | EmptyBody | ObjectTooLarge | ByResponse (reason : Rejection) | TtlMissing | TtlZero | TtlOverflow.
Definition static_status_text (status : StaticCacheStatus) : list Z :=
  match status with
  | StaticBypass => bs "BYPASS" | StaticHit => bs "HIT" | StaticMiss => bs "MISS" | StaticRevalidated => bs "REVALIDATED"
  end.

(** ** The cache *)

(** [path.display()] *)
Definition display (p : Path) : list Z :=
  let text := concat ((fun c => match c with Normal name => SLASH :: name | _ => [] end) <$> p) in
  if bool_decide (p = [RootDir]) then [SLASH] else text.
Definition cache_identity (file : NativeStaticFile) : list Z :=
  static_cache_identity (display (nf_path file)) (nf_id file) (nf_len file) (nf_modified file).

(** ** Setting up *)

Record WebConfig : Type := mkWebConfig {
  wb_root : option (list Z);
  wb_index_files : list (list Z);
  wb_deny_dotfiles : bool;
  wb_directory_listing : DirectoryListingConfig;
  wb_cache_control : list Z;
  wb_expires : option (list Z);
}.
Definition cache_supported (cache : CacheConfig) : bool :=
  cc_enabled cache && cc_local_static cache && cc_memory_enabled cache && negb (cc_disk_enabled cache).
Definition is_dots (c : Component) : bool := match c with CurDir | ParentDir => true | _ => false end.
(** The loop of [configured_web_path_contains_symlink] *)
Fixpoint symlink_on_path (current rest : Path) : Io bool :=
  match rest with
  | [] => io_ret false
  | Normal name :: rest =>
      do m := io_try (call (fun f => symlink_metadata f (current ++ [Normal name]))) in
      match m with
      | Ok m => if is_symlink (mt_inode m) then io_ret true else symlink_on_path (current ++ [Normal name]) rest
      | Err NotFound => io_ret false
      | Err error => io_err error
      end
  | RootDir :: rest => symlink_on_path [RootDir] rest
  | _ => io_ret true
  end.
Definition configured_web_path_contains_symlink (current_dir path : Path) : Io bool :=
  if existsb is_dots path then io_ret true
  else symlink_on_path [] (if is_absolute path then path else path_join current_dir path).
Definition from_config_with_cache (current_dir : Path) (config : WebConfig) (cache : option NativeStaticMemoryCache)
    : Io (option NativeHttp1StaticWeb) :=
  match wb_root config with
  | None => io_ret None
  | Some root =>
      let root := components root in
      do symlinked := configured_web_path_contains_symlink current_dir root in
      if (symlinked : bool) then io_err InvalidInput
      else
        let absolute := path_join current_dir root in
        do m := call (fun f => symlink_metadata f absolute) in
        if is_symlink (mt_inode m) || negb (is_dir (mt_inode m)) then io_err InvalidInput
        else
          do root := call (fun f => canonicalize f absolute) in
          io_ret (Some (mkWeb root (wb_index_files config) (wb_deny_dotfiles config) (wb_directory_listing config)
                          (wb_cache_control config) (wb_expires config)
                          (match cache with Some cache => if cache_supported (st_config cache) then Some cache else None | None => None end)))
  end.

Section Handlers.
Context `{HttpPackage}.
Context (parse_http_date : list Z -> option Z) (fmt_http_date : Z -> list Z) (fmt_local_time : Z -> option (list Z)).
Context (percent_encode percent_decode_str : list Z -> list Z) (dir_order : list (list Z) -> list (list Z)).
Context (native_body_sha256 : list Z -> list Z) (by_age : list (Z * list Z) -> list (Z * list Z)).
(** The texts of the reasons, in the diagnostic headers *)
Context (reason_text : StaticCacheReason -> list Z).

Section Cache.
Context (cache : NativeStaticMemoryCache).

Definition static_key (r : NativeHttp1Request) (file : NativeStaticFile) : option (list Z) :=
  static_cache_key (st_config cache)
    (mkCacheRequest (rq_method r) (static_request_header r (bs "host"))
       (cache_request_path (rq_method r) (rq_target r)) (cache_request_query (rq_method r) (rq_target r)))
    (cache_identity file).
Definition static_get (now : Z) (key : list Z) (s : NativeMemoryCacheState)
    : option NativeMemoryCacheEntry * NativeMemoryCacheState :=
  match ms_objects s !! key with
  | Some entry =>
      if now <? me_expires_at entry then (Some entry, s)
      else (None, with_bytes (saturating_sub (ms_bytes s) (me_weight entry)) (with_objects (delete key (ms_objects s)) s))
  | None => (None, s)
  end.
Definition static_entry (now : Z) (key : list Z) (response : NativeHttp1Response)
    : result NativeMemoryCacheEntry StaticCacheReason :=
  let body_len := zlen (rp_body response) in
  if negb (rp_status response =? 200) then Err StatusRejected
  else if body_len =? 0 then Err EmptyBody
  else if (cc_max_object_bytes (st_config cache) <? body_len) || (st_max_bytes cache <? body_len) then Err ObjectTooLarge
  else
    let headers := native_response_header_map response in
    match response_cache_admission_rejection (rp_status response) headers (st_config cache) with
    | Some reason => Err (ByResponse reason)
    | None =>
        match native_cache_ttl (rp_status response) headers (st_config cache) with
        | None => Err TtlMissing
        | Some ttl =>
            if ttl =? 0 then Err TtlZero
            else
              let weight := native_cache_entry_weight key response body_len in
              if st_max_bytes cache <? weight then Err ObjectTooLarge
              else
                match time_checked_add now ttl with
                | None => Err TtlOverflow
                | Some expires_at =>
                    Ok (mkCacheEntry (rp_status response) (rp_reason response) (rp_headers response) (rp_content_length response)
                          (rp_body response) (native_body_sha256 (rp_body response)) expires_at None None false now weight)
                end
        end
    end.
Definition static_insert (key : list Z) (entry : NativeMemoryCacheEntry) (s : NativeMemoryCacheState) : NativeMemoryCacheState :=
  let s := match ms_objects s !! key with
           | Some previous =>
               with_bytes (saturating_sub (ms_bytes s) (me_weight previous)) (with_objects (delete key (ms_objects s)) s)
           | None => s
           end in
  with_objects (<[key := entry]> (ms_objects s)) (with_bytes (saturating_add U64_MAX (ms_bytes s) (me_weight entry)) s).
Definition static_store (now prune_now : Z) (key : list Z) (response : NativeHttp1Response) (s : NativeMemoryCacheState)
    : result unit StaticCacheReason * NativeMemoryCacheState :=
  match static_entry now key response with
  | Err reason => (Err reason, s)
  | Ok entry =>
      let s := static_insert key entry s in
      (Ok tt, if st_max_bytes cache <? ms_bytes s then prune_native_memory_cache by_age prune_now (st_max_bytes cache) s else s)
  end.
(** [with_native_cache_status]: the diagnostic headers and the age *)
Definition with_native_cache_status (status : StaticCacheStatus) (reason : option StaticCacheReason) (age_secs : option Z)
    (response : NativeHttp1Response) : NativeHttp1Response :=
  let response := with_optional (fun header => push_response_header header (static_status_text status)) (st_status_header cache) response in
  let response := match st_status_reason_header cache, reason with
                  | Some header, Some reason => push_response_header header (reason_text reason) response
                  | _, _ => response
                  end in
  with_optional (fun age response => push_response_header (bs "age") (to_decimal age) (remove_response_header (bs "age") response))
    age_secs response.
End Cache.

(** ** Handling *)

Context (web : NativeHttp1StaticWeb).
Local Abbreviation file_response := (file_response parse_http_date fmt_http_date web).
(** The moments the cache looks at the clock *)
Record StaticTimes : Type := mkStaticTimes { sti_get : Z; sti_age : Z; sti_store : Z; sti_prune : Z }.
Definition StaticState : Type := NativeMemoryCacheState * nat.
(** The answer when reading goes wrong is an answer too. *)
Definition answer_of (fs : nat -> Fs) (t : nat) (m : Io NativeHttp1Response) : NativeHttp1Response * nat :=
  match m fs t with (Ok response, t) => (response, t) | (Err _, t) => (internal_error, t) end.

Definition cached_file_response (times : StaticTimes) (r : NativeHttp1Request) (file : NativeStaticFile)
    (fs : nat -> Fs) (st : StaticState) : NativeHttp1Response * StaticState :=
  let '(s, t) := st in
  let fresh := answer_of fs t (file_response r file) in
  match sw_cache web with
  | None => (fresh.1, (s, fresh.2))
  | Some cache =>
      match static_key cache r file with
      | None => (with_native_cache_status cache StaticBypass (Some StaticIneligible) None fresh.1, (s, fresh.2))
      | Some key =>
          match request_cache_bypass_reason r (st_bypass cache) with
          | Some reason => (with_native_cache_status cache StaticBypass (Some (ByRequest reason)) None fresh.1, (s, fresh.2))
          | None =>
              let revalidate := request_cache_revalidation_requested r (st_bypass cache) in
              let '(hit, s) := if revalidate then (None, s) else static_get (sti_get times) key s in
              match hit with
              | Some entry =>
                  (with_native_cache_status cache StaticHit None
                     (Some ((sti_age times - me_stored_at entry) / NANOS)) (to_response entry), (s, t))
              | None =>
                  let status := if revalidate then StaticRevalidated else StaticMiss in
                  match static_store cache (sti_store times) (sti_prune times) key fresh.1 s with
                  | (Ok _, s) => (with_native_cache_status cache status None None fresh.1, (s, fresh.2))
                  | (Err reason, s) => (with_native_cache_status cache StaticBypass (Some reason) None fresh.1, (s, fresh.2))
                  end
              end
          end
      end
  end.

Definition handle_static_request (times : StaticTimes) (r : NativeHttp1Request) (request_path : list Z)
    (fs : nat -> Fs) (st : StaticState) : option NativeHttp1Response * StaticState :=
  match resolve percent_decode_str dir_order web request_path fs st.2 with
  | (Ok (Found file), t) =>
      let '(response, st) := cached_file_response times r file fs (st.1, t) in (Some response, st)
  | (Ok (Listed listing), t) =>
      (Some (directory_listing_response fmt_http_date fmt_local_time percent_encode r listing), (st.1, t))
  | (Ok StaticNotFound, t) => (None, (st.1, t))
  | (Ok StaticForbidden, t) => (Some forbidden, (st.1, t))
  | (Err _, t) => (Some internal_error, (st.1, t))
  end.
Definition web_handle_optional (times : StaticTimes) (r : NativeHttp1Request) (request_path : list Z)
    (fs : nat -> Fs) (st : StaticState) : option NativeHttp1Response * StaticState :=
  if negb (static_web_method_allowed (rq_method r)) then (None, st) else handle_static_request times r request_path fs st.
Definition web_handle (times : StaticTimes) (r : NativeHttp1Request) (request_path : list Z)
    (fs : nat -> Fs) (st : StaticState) : NativeHttp1Response * StaticState :=
  if negb (static_web_method_allowed (rq_method r)) then (method_not_allowed, st)
  else let '(response, st) := handle_static_request times r request_path fs st in (default not_found response, st).
Definition handle_error_page (r : NativeHttp1Request) (request_path : list Z) (status : Z) (fs : nat -> Fs) (t : nat)
    : option NativeHttp1Response * nat :=
  match resolve percent_decode_str dir_order web request_path fs t with
  | (Ok (Found file), t) =>
      if MAX_NATIVE_STATIC_BODY_BYTES <? spl_response_body_bytes (plan_of parse_http_date file (rq_method r) no_conditions)
      then (None, t)
      else match file_response_with_status parse_http_date fmt_http_date web r file no_conditions (Some status) fs t with
           | (Ok response, t) => (response, t)
           | (Err _, t) => (None, t)
           end
  | (_, t) => (None, t)
  end.

(** [handle_optional_async]: as above, when there is room. *)
Record StaticRoom : Type := mkRoom {
  ro_resolve : bool;
  ro_retention : Z -> bool;
  ro_work : bool;
}.
Definition file_response_reservation_bytes (r : NativeHttp1Request) (file : NativeStaticFile)
    (conditions : StaticResponseConditions) (allow_cache_store : bool) : option Z :=
  let bytes := spl_response_body_bytes (plan_of parse_http_date file (rq_method r) conditions) in
  if MAX_NATIVE_STATIC_BODY_BYTES <? bytes then Some 1
  else if allow_cache_store && bool_decide (is_Some (sw_cache web)) then checked_mul USIZE_MAX bytes 2 else Some bytes.
Definition handle_optional_async (room : StaticRoom) (times : StaticTimes) (r : NativeHttp1Request) (request_path : list Z)
    (fs : nat -> Fs) (st : StaticState) : option NativeHttp1Response * StaticState :=
  if negb (static_web_method_allowed (rq_method r)) then (None, st)
  else if negb (ro_resolve room) then (Some static_response_capacity_unavailable, st)
  else
    match resolve percent_decode_str dir_order web request_path fs st.2 with
    | (Ok (Found file), t) =>
        match file_response_reservation_bytes r file (static_conditions r) true with
        | None => (None, (st.1, t))
        | Some bytes =>
            if negb (ro_retention room bytes) || negb (ro_work room) then (Some static_response_capacity_unavailable, (st.1, t))
            else let '(response, st) := cached_file_response times r file fs (st.1, t) in (Some response, st)
        end
    | (Ok (Listed listing), t) =>
        if negb (ro_retention room MAX_NATIVE_STATIC_BODY_BYTES) || negb (ro_work room)
        then (Some static_response_capacity_unavailable, (st.1, t))
        else (Some (directory_listing_response fmt_http_date fmt_local_time percent_encode r listing), (st.1, t))
    | (Ok StaticNotFound, t) => (None, (st.1, t))
    | (Ok StaticForbidden, t) => (Some forbidden, (st.1, t))
    | (Err _, t) => (Some internal_error, (st.1, t))
    end.
Definition handle_error_page_async (room : StaticRoom) (r : NativeHttp1Request) (request_path : list Z) (status : Z)
    (fs : nat -> Fs) (t : nat) : option NativeHttp1Response * nat :=
  if negb (ro_resolve room) then (None, t)
  else
    match resolve percent_decode_str dir_order web request_path fs t with
    | (Ok (Found file), t) =>
        if MAX_NATIVE_STATIC_BODY_BYTES <? spl_response_body_bytes (plan_of parse_http_date file (rq_method r) no_conditions)
        then (None, t)
        else
          match file_response_reservation_bytes r file no_conditions false with
          | None => (None, t)
          | Some bytes =>
              if negb (ro_retention room bytes) || negb (ro_work room) then (None, t)
              else match file_response_with_status parse_http_date fmt_http_date web r file no_conditions (Some status) fs t with
                   | (Ok response, t) => (response, t)
                   | (Err _, t) => (None, t)
                   end
          end
    | (_, t) => (None, t)
    end.
End Handlers.
