(* ===== verification/StaticWebProps.v ===== *)
(** * What a static site serves

    A served file lies below the root, under the names of the decoded path or as
    an index file, and is read through directory handles that follow no symbolic
    link, whatever happens to the file system meanwhile; and a regular file is
    served, in full or the part asked for. *)
From Stdlib Require Import ZArith Lia.
From stdpp Require Import base list numbers strings sets gmap.
From S2P Require Import Prelude Text NetAddr ProxyProtocol Http1Target Http1Head LbBackend HostNames Headers RequestHeaders UpstreamResponse CacheKey CachePurge CacheControl CacheObject CacheEntry CacheRange MemoryCache CacheLookup PathSafety RouteMatch Cors RouteProxy FileSystem StaticPlan StaticWeb StaticResponse.

(** ** Names *)

(** The segments of a path that count *)
Definition visible (segments : list (list Z)) : list (list Z) :=
  List.filter (fun s => negb (bool_decide (s = []) || bool_decide (s = [46]))) segments.
(** A name a request may use *)
Definition plain_name (deny_dotfiles : bool) (name : list Z) : Prop :=
  name <> [] /\ name <> [46] /\ name <> [46; 46] /\ SLASH ∉ name /\ 0 ∉ name /\ PERCENT ∉ name /\ BACKSLASH ∉ name
  /\ (deny_dotfiles = true -> starts_with [46] name = false).

Lemma components_plain name :
  name <> [] -> name <> [46] -> name <> [46; 46] -> SLASH ∉ name -> components name = [Normal name].
Proof.
  intros H1 H2 H3 Hs. unfold components. rewrite split_byte_notin by done. destruct name as [| c name]; [done |].
  unfold component_of. rewrite !bool_decide_false by done. done.
Qed.
Lemma try_push_plain deny name p : plain_name deny name -> try_push name p = Some (p ++ [name]).
Proof.
  intros (H1 & H2 & H3 & Hs & H0 & _). unfold try_push. rewrite (proj2 (contains_byte_false 0 name) H0).
  rewrite components_plain by done. by rewrite bool_decide_true.
Qed.
Lemma push_segments_exact web segments relative relative' :
  Forall (fun s => SLASH ∉ s /\ 0 ∉ s) segments ->
  push_segments web segments relative = Some relative' <->
  relative' = relative ++ visible segments /\ Forall (plain_name (sw_deny_dotfiles web)) (visible segments).
Proof.
  revert relative. induction segments as [| s segments IH]; intros relative Hs; cbn [push_segments].
  { rewrite app_nil_r. split; [intros [= <-]; by split; [| constructor] | by intros [-> _]]. }
  apply Forall_cons in Hs as [[Hslash H0] Hs]. specialize (IH relative Hs) as IHskip.
  unfold visible in *. cbn [List.filter]. destruct (bool_decide (s = []) || bool_decide (s = [46])) eqn:Ed; cbn [negb]; [exact IHskip |].
  apply orb_false_iff in Ed as [E1%bool_decide_eq_false E2%bool_decide_eq_false].
  destruct (bool_decide (s = [46; 46]) || _ || _ || _) eqn:Eg.
  - split; [done |]. intros [_ [Hp _]%Forall_cons]. destruct Hp as (_ & _ & H3 & _ & _ & Hpc & Hbs & Hd).
    rewrite !orb_true_iff, bool_decide_eq_true, !contains_byte_true, andb_true_iff in Eg.
    destruct Eg as [[[? | ?] | ?] | [Hdeny Hdot]]; try done. by rewrite (Hd Hdeny) in Hdot.
  - assert (plain_name (sw_deny_dotfiles web) s) as Hp.
    { rewrite !orb_false_iff, bool_decide_eq_false, !contains_byte_false, andb_false_iff in Eg.
      destruct Eg as [[[? ?] ?] Hdot]. repeat split; try done. intros Hd. by destruct Hdot as [Hdot | Hdot]; [congruence |]. }
    rewrite (try_push_plain _ s relative Hp). cbn. rewrite (IH (relative ++ [s]) Hs), <- app_assoc. cbn [app]. rewrite Forall_cons. tauto.
Qed.

Section Serving.
Context (percent_decode_str : list Z -> list Z) (web : NativeHttp1StaticWeb).

(** The names a request path stands for *)
Definition request_names (request_path : list Z) : list (list Z) := visible (split_byte SLASH (percent_decode_str request_path)).
Lemma relative_request_path_some request_path relative :
  relative_request_path percent_decode_str web request_path = Ok (Some relative) ->
  relative = request_names request_path /\ Forall (plain_name (sw_deny_dotfiles web)) relative.
Proof.
  unfold relative_request_path. destruct (starts_with [SLASH] request_path); cbn [negb]; [| done].
  destruct (utf8_valid _); cbn [negb]; [| done]. destruct (contains_byte 0 _) eqn:E0; [done |]. intros [= H].
  apply push_segments_exact in H as [-> Hf]; [done |].
  pose proof (split_byte_pieces SLASH (percent_decode_str request_path)) as Hp. rewrite Forall_forall in Hp |- *.
  intros s Hin. split; [by apply Hp |]. apply contains_byte_false in E0. intros Hz. apply E0.
  apply split_byte_infix in Hin as (l & r & ->). rewrite !elem_of_app. tauto.
Qed.

Lemma filter_normals (names : list (list Z)) : List.filter (fun c => negb (is_cur_dir c)) (Normal <$> names) = Normal <$> names.
Proof. induction names as [| n names IH]; [done |]. cbn. by rewrite IH. Qed.
Lemma join_names (root : Path) names : path_join root (as_path names) = root ++ (Normal <$> names).
Proof.
  unfold path_join, as_path. rewrite filter_normals. by destruct names.
Qed.
Lemma from_path_some p names : from_path p = Some names <-> p = Normal <$> names.
Proof.
  revert names. induction p as [| c p IH]; intros names; cbn [from_path].
  - split; [by intros [= <-] |]. by destruct names.
  - destruct c as [| | | n]; try (split; [done | by destruct names]).
    rewrite fmap_Some. split; [intros (x & ->%IH & ->); done |]. destruct names as [| y names]; [done |]. intros [= -> ->].
    exists names. split; [by apply IH | done].
Qed.
Lemma from_rooted_some (root candidate : Path) names :
  from_rooted root candidate = Some names <-> candidate = root ++ (Normal <$> names).
Proof.
  unfold from_rooted, path_strip_prefix, path_starts_with. case_bool_decide as H; cbn.
  - rewrite from_path_some. split.
    + intros E. rewrite <- (take_drop (length root) candidate), H, E. done.
    + intros ->. by rewrite drop_app_length.
  - split; [done |]. intros ->. by rewrite take_app_length in H.
Qed.

(** ** The file that is found *)

(** The paths under which a request may find a file *)
Definition may_serve (names : list (list Z)) (path : Path) : Prop :=
  path = sw_root web ++ (Normal <$> names)
  \/ exists index, index ∈ sw_index_files web /\ path = path_join (sw_root web ++ (Normal <$> names)) (components index).
Lemma static_file_found candidate fs t file t' :
  static_file web candidate fs t = (Ok (Some file), t') ->
  nf_root file = sw_root web /\ nf_path file = candidate /\ 0 <= nf_len file
  /\ exists names, candidate = sw_root web ++ (Normal <$> names).
Proof.
  unfold static_file. destruct (from_rooted (sw_root web) candidate) as [names |] eqn:Er; [| done].
  apply from_rooted_some in Er. rewrite io_bind_ok. intros (r & t1 & _ & H). destruct r as [canonical | e]; [| by destruct e].
  destruct (negb _ || _) eqn:Eg; [done |]. apply orb_false_iff in Eg as [_ Eg%negb_false_iff%bool_decide_eq_true].
  apply io_bind_ok in H as (m & t2 & _ & H). destruct (is_symlink _ || _); [done |]. injection H as <- <-.
  rewrite join_names in Eg. cbn [nf_root nf_path nf_len]. split; [done |]. split; [congruence |].
  split; [destruct (mt_inode m); cbn; try lia; apply zlen_nonneg | by exists names].
Qed.
Lemma find_index_found canonical indexes fs t file t' :
  find_index web canonical indexes fs t = (Ok (Some file), t') ->
  exists index t1, index ∈ indexes /\ static_file web (path_join canonical (components index)) fs t1 = (Ok (Some file), t').
Proof.
  revert t. induction indexes as [| index indexes IH]; intros t; cbn [find_index]; [done |].
  rewrite io_bind_ok. intros ([x |] & t1 & Hs & H).
  - injection H as <- <-. exists index, t. split; [apply elem_of_cons; by left | done].
  - destruct (IH _ H) as (i & t2 & Hin & Hf). exists i, t2. split; [apply elem_of_cons; by right | done].
Qed.
Lemma resolve_found dir_order request_path fs t file t' :
  resolve percent_decode_str dir_order web request_path fs t = (Ok (Found file), t') ->
  Forall (plain_name (sw_deny_dotfiles web)) (request_names request_path)
  /\ may_serve (request_names request_path) (nf_path file)
  /\ nf_root file = sw_root web /\ 0 <= nf_len file /\ exists names, nf_path file = sw_root web ++ (Normal <$> names).
Proof.
  unfold resolve. destruct (relative_request_path _ _ _) as [[relative |] |] eqn:Er; [| done | done].
  apply relative_request_path_some in Er as [-> Hp]. unfold resolve_relative_candidate. rewrite join_names.
  rewrite io_bind_ok. intros (r & t1 & _ & H). destruct r as [canonical | e]; [| by destruct e].
  destruct (negb _ || _) eqn:Eg; [done |]. apply orb_false_iff in Eg as [_ ->%negb_false_iff%bool_decide_eq_true].
  apply io_bind_ok in H as (m & t2 & _ & H). destruct m as [m | e]; [| by destruct e]. split; [done |].
  destruct (is_dir (mt_inode m)); apply io_bind_ok in H as ([x |] & t3 & Hf & H); try done.
  - injection H as <- <-. apply find_index_found in Hf as (index & t4 & Hin & Hf).
    apply static_file_found in Hf as (? & -> & ? & ?). split; [right; by exists index |]. done.
  - destruct (dl_enabled _); [| done]. unfold directory_listing in H. destruct (from_rooted _ _); [| done].
    destruct (negb _); [done |]. apply io_bind_ok in H as (? & ? & _ & H). by apply io_bind_ok in H as (? & ? & _ & H).
  - injection H as <- <-. apply static_file_found in Hf as (? & -> & ? & ?). split; [by left |]. done.
Qed.
End Serving.

(** ** What is read *)

Lemma open_components_descends directory names fs t id t' :
  open_components directory (Normal <$> names) fs t = (Ok id, t') -> descends fs t directory names t' id.
Proof.
  revert directory t. induction names as [| name names IH]; intros directory t; cbn [fmap list_fmap open_components]; [done |].
  destruct names as [| name' names].
  - cbn [fmap list_fmap]. intros [Ho ->]%call_ok. apply openat_ok in Ho as (m & He & -> & Hs & _).
    eapply descends_step; [done | done | constructor].
  - cbn [fmap list_fmap] in *. intros (d & t1 & [Ho ->]%call_ok & H)%io_bind_ok.
    apply openat_ok in Ho as (m & He & -> & Hs & _). eapply descends_step; [done | done | by apply IH].
Qed.
(** Some file was reached from the root, as its path was at some moment, through
    handles, and [data] is what it holds at a later moment. *)
Definition read_below (fs : nat -> Fs) (t : nat) (root : Path) (names : list (list Z)) (data : list Z) : Prop :=
  exists t0 dir t1 id t2 modified,
    (t <= t0)%nat /\ open_directory (fs t0) root = Ok dir /\ descends fs (S t0) dir names t1 id
    /\ (t1 < t2)%nat /\ fs_inodes (fs t2) !! id = Some (IFile modified data).
Lemma opened_below file names fs t id t' data t'' :
  nf_path file = nf_root file ++ (Normal <$> names) ->
  open_static_body_file file fs t = (Ok id, t') -> call (fun f => file_data f id) fs t' = (Ok data, t'') ->
  read_below fs t (nf_root file) names data.
Proof.
  intros Hp. unfold open_static_body_file. rewrite (proj2 (from_rooted_some _ _ names) Hp), join_names, bool_decide_true by done.
  cbn [negb]. intros (canonical & t1 & [_ ->]%call_ok & H)%io_bind_ok. destruct (negb _); [done |].
  apply io_bind_ok in H as (opened & t2 & Ho & H). apply io_bind_ok in H as (inode & t3 & [_ ->]%call_ok & H).
  destruct (is_file inode); [| done]. injection H as <- <-. intros [Hd ->]%call_ok.
  unfold open_static_body_file_at_root in Ho. apply io_bind_ok in Ho as (dir & t4 & [Hdir ->]%call_ok & Ho).
  apply open_components_descends in Ho. unfold file_data in Hd.
  destruct (fs_inodes (fs (S t2)) !! opened) as [[| modified data' | |] |] eqn:Ei; try done. injection Hd as <-.
  exists (S t), dir, t2, opened, (S t2), modified. split_and!; [lia | done | done | lia | done].
Qed.
(** What is sent of the data *)
Definition part_of (data : list Z) (len : Z) (body : StaticResponseBody) (sent : list Z) : Prop :=
  match body with
  | BodyNone => sent = []
  | BodyFull => sent = data /\ zlen data = len
  | BodyRange start n => sent = ztake n (zdrop start data) /\ zlen sent = n
  end.
Lemma ztake_short (n : Z) (l : list Z) : 0 <= n -> zlen (ztake (n + 1) l) = n -> ztake (n + 1) l = l.
Proof. intros Hn. rewrite zlen_take by lia. intros H. apply ztake_ge. lia. Qed.
Lemma read_static_body_below file names body fs t sent t' :
  (body = BodyFull -> 0 <= nf_len file < U64_MAX) -> nf_path file = nf_root file ++ (Normal <$> names) -> body <> BodyNone ->
  read_static_body file body fs t = (Ok sent, t') ->
  exists data, read_below fs t (nf_root file) names data /\ part_of data (nf_len file) body sent.
Proof.
  intros Hlen Hp Hb. destruct body as [| | start len]; [done | |]; cbn [read_static_body];
    intros (id & t1 & Ho & H)%io_bind_ok; apply io_bind_ok in H as (data & t2 & Hd & H);
    pose proof (opened_below _ _ _ _ _ _ _ _ Hp Ho Hd) as Hbelow; exists data; (split; [done |]); cbn [part_of].
  - specialize (Hlen eq_refl). rewrite saturating_add_exact in H by ulia. destruct (zlen _ =? nf_len file) eqn:E; [| done]. injection H as <- _.
    apply Z.eqb_eq in E. assert (ztake (nf_len file + 1) data = data) as Hd' by (apply ztake_short; lia). split; congruence.
  - destruct (zlen _ =? len) eqn:E; [| done]. injection H as <- _. by apply Z.eqb_eq in E.
Qed.

(** Time goes on. *)
Definition later {A} (m : Io A) : Prop := forall fs t r t', m fs t = (r, t') -> (t <= t')%nat.
Lemma later_bind {A B} (m : Io A) (k : A -> Io B) : later m -> (forall a, later (k a)) -> later (io_bind m k).
Proof.
  intros Hm Hk fs t r t'. unfold io_bind. destruct (m fs t) as [[a | e] t1] eqn:E; apply Hm in E.
  - intros H%Hk. lia.
  - intros [= _ <-]. done.
Qed.
Lemma later_ret {A} (a : A) : later (io_ret a).
Proof. by intros fs t r t' [= _ <-]. Qed.
Lemma later_err {A} e : later (@io_err A e).
Proof. by intros fs t r t' [= _ <-]. Qed.
Lemma later_call {A} (op : Fs -> result A IoError) : later (call op).
Proof. intros fs t r t' [_ ->]%call_ok. lia. Qed.
Lemma later_try {A} (m : Io A) : later m -> later (io_try m).
Proof. intros Hm fs t r t'. unfold io_try. destruct (m fs t) as [x t1] eqn:E. intros [= _ <-]. by eapply Hm. Qed.
Ltac io_later := repeat first [progress intros | apply later_ret | apply later_err | apply later_call | apply later_try | apply later_bind
  | match goal with |- later (match ?x with _ => _ end) => destruct x end].
Lemma static_file_later web candidate : later (static_file web candidate).
Proof. unfold static_file. io_later. Qed.
Lemma find_index_later web canonical indexes : later (find_index web canonical indexes).
Proof. induction indexes as [| i indexes IH]; cbn [find_index]; io_later; [apply static_file_later | exact IH]. Qed.
Lemma list_entries_later web directory names entries : later (list_entries web directory names entries).
Proof. revert entries. induction names as [| n ns IH]; intros entries; cbn [list_entries]; io_later; apply IH. Qed.
Lemma resolve_later percent_decode_str dir_order web request_path fs t r t' :
  resolve percent_decode_str dir_order web request_path fs t = (r, t') -> (t <= t')%nat.
Proof.
  revert fs t r t'. change (later (resolve percent_decode_str dir_order web request_path)).
  unfold resolve, resolve_relative_candidate, directory_listing. io_later;
    first [apply static_file_later | apply find_index_later | apply list_entries_later].
Qed.

(** *** The file at the moment it is found *)

(** From a moment on, the path was once its own canonical form, through no
    symbolic link, and right after that it was a regular file. *)
Definition seen_regular (fs : nat -> Fs) (t : nat) (path : Path) : Prop :=
  exists t1 m, (t <= t1)%nat /\ canonicalize (fs t1) path = Ok path /\ symlink_metadata (fs (S t1)) path = Ok m /\ is_file (mt_inode m) = true.
Lemma seen_regular_later fs t t' path : (t <= t')%nat -> seen_regular fs t' path -> seen_regular fs t path.
Proof. intros Ht (t1 & m & ? & ?). exists t1, m. split; [lia | done]. Qed.
Lemma static_file_seen web candidate fs t file t' :
  static_file web candidate fs t = (Ok (Some file), t') -> seen_regular fs t (nf_path file).
Proof.
  unfold static_file. destruct (from_rooted (sw_root web) candidate) as [names |] eqn:Er; [| done].
  apply from_rooted_some in Er. rewrite io_bind_ok. intros (r & t1 & Hr & H). apply io_try_ok, call_ok in Hr as [Hr ->].
  destruct r as [canonical | e]; [| by destruct e].
  destruct (negb _ || _) eqn:Eg; [done |]. apply orb_false_iff in Eg as [_ Eg%negb_false_iff%bool_decide_eq_true].
  apply io_bind_ok in H as (m & t2 & [Hm ->]%call_ok & H). destruct (is_symlink _ || _) eqn:Es; [done |]. injection H as <- <-.
  rewrite join_names in Eg. cbn [nf_path]. assert (canonical = candidate) as -> by congruence. exists t, m.
  split; [lia |]. split; [done |]. split; [done |]. apply orb_false_iff in Es as [_ Es%negb_false_iff]. done.
Qed.
Lemma find_index_seen web canonical indexes fs t file t' :
  find_index web canonical indexes fs t = (Ok (Some file), t') -> seen_regular fs t (nf_path file).
Proof.
  revert t. induction indexes as [| index indexes IH]; intros t; cbn [find_index]; [done |].
  rewrite io_bind_ok. intros ([x |] & t1 & Hs & H); [injection H as <- <-; by eapply static_file_seen |].
  apply IH in H. eapply seen_regular_later; [| exact H]. by eapply static_file_later in Hs.
Qed.
Lemma resolve_seen percent_decode_str dir_order web request_path fs t file t' :
  resolve percent_decode_str dir_order web request_path fs t = (Ok (Found file), t') -> seen_regular fs t (nf_path file).
Proof.
  unfold resolve. destruct (relative_request_path _ _ _) as [[relative |] |] eqn:Er; [| done | done].
  unfold resolve_relative_candidate. rewrite io_bind_ok. intros (r & t1 & Hr & H). apply io_try_ok, call_ok in Hr as [_ ->].
  destruct r as [canonical | e]; [| by destruct e]. destruct (negb _ || _); [done |].
  apply io_bind_ok in H as (m & t2 & Hm & H). apply io_try_ok, call_ok in Hm as [_ ->]. destruct m as [m | e]; [| by destruct e].
  destruct (is_dir (mt_inode m)); apply io_bind_ok in H as ([x |] & t3 & Hf & H); try done.
  - injection H as <- <-. eapply seen_regular_later; [| by eapply find_index_seen]. lia.
  - destruct (dl_enabled _); [| done]. unfold directory_listing in H. destruct (from_rooted _ _); [| done].
    destruct (negb _); [done |]. apply io_bind_ok in H as (? & ? & _ & H). by apply io_bind_ok in H as (? & ? & _ & H).
  - injection H as <- <-. eapply seen_regular_later; [| by eapply static_file_seen]. lia.
Qed.

(** ** Answers *)

Section Confined.
Context {http : HttpPackage}.
Context (parse_http_date : list Z -> option Z) (fmt_http_date : Z -> list Z) (fmt_local_time : Z -> option (list Z)).
Context (percent_encode percent_decode_str : list Z -> list Z) (dir_order : list (list Z) -> list (list Z)).
Context (native_body_sha256 : list Z -> list Z) (by_age : list (Z * list Z) -> list (Z * list Z)).
Context (reason_text : StaticCacheReason -> list Z) (web : NativeHttp1StaticWeb).
Local Abbreviation handle_async :=
  (handle_optional_async parse_http_date fmt_http_date fmt_local_time percent_encode percent_decode_str dir_order
     native_body_sha256 by_age reason_text web).
Local Abbreviation handle_optional :=
  (web_handle_optional parse_http_date fmt_http_date fmt_local_time percent_encode percent_decode_str dir_order
     native_body_sha256 by_age reason_text web).

Lemma static_headers_status file plan response :
  rp_status (static_headers fmt_http_date web file plan response) = rp_status response
  /\ rp_body (static_headers fmt_http_date web file plan response) = rp_body response.
Proof. unfold static_headers. by destruct (spl_content_length plan), (sw_expires web), (nf_modified file), (spl_content_range plan). Qed.
(** A plan of 200 or 206 for a body that is not empty *)
Lemma plan_sends file method conditions :
  let plan := plan_static_response parse_http_date file method conditions in
  spl_body plan <> BodyNone ->
  method <> bs "HEAD"
  /\ (spl_status plan = 200 /\ spl_body plan = BodyFull /\ spl_response_body_bytes plan = sf_len file
      \/ exists range start n, spl_status plan = 206 /\ spl_body plan = BodyRange start n /\ spl_response_body_bytes plan = n
           /\ sc_range conditions = Some range /\ parse_single_byte_range range (sf_len file) = RangeSingle start n).
Proof.
  cbn zeta. unfold plan_static_response. destruct (if_match_fails _ _ || _); [done |]. destruct (negb _ && _); [done |].
  unfold full_static_response_plan, response_body, response_bytes.
  destruct (if_range_allows_range _ _ _ _); [destruct (sc_range conditions) as [range |];
    [destruct (parse_single_byte_range range (sf_len file)) as [start n | |] eqn:E |] |]; cbn [spl_body spl_status spl_response_body_bytes];
    try done; case_bool_decide as Hm; try done; intros _; (split; [done |]); [right | left | left | left]; try done.
  by exists range, start, n.
Qed.
Lemma file_response_sends r file names fs t response t' :
  nf_path file = nf_root file ++ (Normal <$> names) -> 0 <= nf_len file ->
  file_response parse_http_date fmt_http_date web r file fs t = (Ok response, t') ->
  rp_status response = 200 \/ rp_status response = 206 -> rp_body response <> [] ->
  rq_method r <> bs "HEAD" /\ exists data, read_below fs t (nf_root file) names data
    /\ (rp_status response = 200 /\ rp_body response = data
        \/ exists range start n, rp_status response = 206 /\ static_request_header r (bs "range") = Some range
             /\ parse_single_byte_range range (nf_len file) = RangeSingle start n
             /\ rp_body response = ztake n (zdrop start data) /\ zlen (rp_body response) = n).
Proof.
  intros Hp Hlen. unfold file_response, file_response_with_status. rewrite io_bind_ok. intros (o & t1 & Ho & H) Hst Hb.
  injection H as <- <-. revert Ho. destruct (Z.ltb_spec MAX_NATIVE_STATIC_BODY_BYTES (spl_response_body_bytes
    (plan_of parse_http_date file (rq_method r) (static_conditions r)))) as [Hmax | Hmax].
  { intros [= <- <-]. cbn in Hst. lia. }
  rewrite io_bind_ok. intros (b & t2 & Hb2%(proj1 (io_try_ok _ _ _ _ _)) & H). destruct b as [sent | e]; injection H as <- <-; [| cbn in Hst; lia].
  cbn [from_option id] in *. destruct (static_headers_status file (plan_of parse_http_date file (rq_method r) (static_conditions r))
    (new_response (spl_status (plan_of parse_http_date file (rq_method r) (static_conditions r)))
       (static_reason (spl_status (plan_of parse_http_date file (rq_method r) (static_conditions r)))) sent)) as [Es Eb].
  rewrite Es in Hst |- *. rewrite Eb in Hb |- *. cbn [rp_status rp_body new_response] in *.
  assert (spl_body (plan_of parse_http_date file (rq_method r) (static_conditions r)) <> BodyNone) as Hnone.
  { intros E. rewrite E in Hb2. by injection Hb2 as <- _. }
  destruct (plan_sends _ _ _ Hnone) as [Hm Hplan]. split; [done |].
  assert (forall b, spl_body (plan_of parse_http_date file (rq_method r) (static_conditions r)) = b ->
    (b = BodyFull -> nf_len file <= MAX_NATIVE_STATIC_BODY_BYTES) ->
    exists data, read_below fs t (nf_root file) names data /\ part_of data (nf_len file) b sent) as Hread.
  { intros b Eb' Hfull. rewrite Eb' in Hnone, Hb2. eapply read_static_body_below; [| exact Hp | exact Hnone | exact Hb2].
    intros ->. specialize (Hfull eq_refl). unfold MAX_NATIVE_STATIC_BODY_BYTES in Hfull. ulia. }
  fold (plan_of parse_http_date file (rq_method r) (static_conditions r)) in Hplan.
  destruct Hplan as [(E1 & E2 & E3) | (range & start & n & E1 & E2 & E3 & E4 & E5)].
  - destruct (Hread _ E2) as (data & Hbelow & Hpart); [intros _; cbn in E3; lia |]. exists data. split; [done |]. left. rewrite E1.
    by destruct Hpart.
  - destruct (Hread _ E2) as (data & Hbelow & Hpart); [done |]. exists data. split; [done |]. right. exists range, start, n.
    rewrite E1. destruct Hpart as [-> Hn]. by split_and!.
Qed.

(** Without room the answer is 503, else it is that of [handle_optional]. *)
Lemma async_answers room times r request_path fs st response st' :
  handle_async room times r request_path fs st = (Some response, st') -> rp_status response <> 503 ->
  handle_optional times r request_path fs st = (Some response, st').
Proof.
  unfold handle_optional_async, web_handle_optional, handle_static_request.
  destruct (static_web_method_allowed (rq_method r)); [| done]. cbn [negb].
  assert (forall st1, (Some static_response_capacity_unavailable, st1) = (Some response, st') -> rp_status response <> 503 -> False) as Hfull
    by (intros st1 [= <- _]; done).
  destruct (ro_resolve room); [| intros H Hs; exfalso; exact (Hfull _ H Hs)]. cbn [negb].
  destruct (resolve _ _ _ _ _ _) as [[[file | listing | |] | e] t1]; try done.
  - destruct (file_response_reservation_bytes _ _ _ _ _ _) as [bytes |]; [| done].
    destruct (negb _ || negb _); [intros H Hs; exfalso; exact (Hfull _ H Hs) | done].
  - destruct (negb _ || negb _); [intros H Hs; exfalso; exact (Hfull _ H Hs) | done].
Qed.

End Confined.
