(* ===== verification/StaticServed.v ===== *)
(** * Regular files are served

    In a file system at rest, a regular file below the root is answered with,
    in full or in the part asked for; ranges and entity tags mean what they say. *)
From Stdlib Require Import ZArith Lia.
From stdpp Require Import base list numbers strings sets gmap.
From S2P Require Import Prelude Text NetAddr ProxyProtocol Http1Target Http1Head LbBackend HostNames Headers RequestHeaders UpstreamResponse CacheKey CachePurge CacheControl CacheObject CacheEntry CacheRange MemoryCache CacheLookup PathSafety RouteMatch Cors RouteProxy FileSystem StaticPlan StaticWeb StaticResponse StaticWebProps.

(** ** Ranges *)

Lemma parse_single_byte_range_within range len start n :
  0 <= len -> parse_single_byte_range range len = RangeSingle start n -> 0 <= start /\ 0 < n /\ start + n <= len.
Proof.
  intros Hlen. unfold parse_single_byte_range. destruct (strip_prefix _ _) as [text |]; [| done].
  destruct (contains_byte 44 text); [done |]. destruct (len =? 0) eqn:E0; [done |].
  destruct (split_once 45 text) as [[a b] |]; [| done]. destruct a as [| c a].
  - destruct (parse_uint U64_MAX b) as [suffix |] eqn:Ep; [| done]. apply parse_uint_range in Ep; [| ulia].
    destruct (suffix =? 0) eqn:Es; [done |]. intros [= <- <-]. lia.
  - destruct (parse_uint U64_MAX (c :: a)) as [first |] eqn:Ep; [| done]. apply parse_uint_range in Ep; [| ulia].
    destruct (len <=? first) eqn:El; [done |].
    assert (forall last : Z, (if last <? first then RangeUnsatisfiable else RangeSingle first (last - first + 1)) = RangeSingle start n ->
      last <= len - 1 -> 0 <= start /\ 0 < n /\ start + n <= len) as Hlast.
    { intros last. destruct (last <? first) eqn:Ef; [done |]. intros [= <- <-]. lia. }
    case_bool_decide; [intros Hr; apply (Hlast _ Hr); lia |].
    destruct (parse_uint U64_MAX b) as [last |]; cbn; [| done]. intros Hr. apply (Hlast _ Hr). lia.
Qed.

(** ** Entity tags *)

Lemma hex_digit_inj a b : 0 <= a < 16 -> 0 <= b < 16 -> NetAddr.hex_digit a = NetAddr.hex_digit b -> a = b.
Proof. unfold NetAddr.hex_digit. intros ? ?. destruct (Z.ltb_spec a 10), (Z.ltb_spec b 10); lia. Qed.
Lemma hex_rev_inj fuel n m : 0 <= n < 16 ^ Z.of_nat fuel -> 0 <= m < 16 ^ Z.of_nat fuel -> hex_rev fuel n = hex_rev fuel m -> n = m.
Proof.
  revert n m. induction fuel as [| fuel IH]; intros n m Hn Hm; [cbn in *; lia |].
  rewrite Nat2Z.inj_succ, Z.pow_succ_r in Hn, Hm by lia. cbn [hex_rev]. intros [= Hd Hr].
  apply hex_digit_inj in Hd; [| apply Z.mod_pos_bound; lia | apply Z.mod_pos_bound; lia].
  pose proof (Z.div_mod n 16). pose proof (Z.div_mod m 16).
  assert (n / 16 < 16 ^ Z.of_nat fuel) by (apply Z.div_lt_upper_bound; lia).
  assert (m / 16 < 16 ^ Z.of_nat fuel) by (apply Z.div_lt_upper_bound; lia).
  assert (0 <= n / 16) by (apply Z.div_pos; lia). assert (0 <= m / 16) by (apply Z.div_pos; lia).
  destruct (Z.ltb_spec n 16), (Z.ltb_spec m 16).
  - rewrite !Z.mod_small in Hd by lia. done.
  - destruct fuel as [| fuel]; [cbn in *; lia | done].
  - destruct fuel as [| fuel]; [cbn in *; lia | done].
  - apply IH in Hr; lia.
Qed.
Lemma to_hex64_inj n m : in_u64 n -> in_u64 m -> to_hex64 n = to_hex64 m -> n = m.
Proof.
  intros Hn Hm E. unfold to_hex64 in E. apply (f_equal (@rev _)) in E. rewrite !rev_involutive in E.
  apply hex_rev_inj in E; [done | |]; change (16 ^ Z.of_nat 16) with 18446744073709551616; ulia.
Qed.
Lemma to_hex64_digits n c : 0 <= n -> c ∈ to_hex64 n -> 48 <= c <= 57 \/ 97 <= c <= 102.
Proof.
  intros Hn Hc. unfold to_hex64 in Hc. rewrite list_elem_of_In, <- in_rev, <- list_elem_of_In in Hc.
  revert n Hn Hc. generalize 16%nat. intros fuel. induction fuel as [| fuel IH]; intros n Hn; cbn [hex_rev]; [by intros ?%elem_of_nil |].
  pose proof (Z.mod_pos_bound n 16). intros [-> | Hc]%elem_of_cons.
  - unfold NetAddr.hex_digit. destruct (Z.ltb_spec (n mod 16) 10); lia.
  - destruct (n <? 16); [by apply elem_of_nil in Hc |]. apply (IH (n / 16)); [apply Z.div_pos; lia | done].
Qed.
Lemma app_separator_inj c (a a' b b' : list Z) : c ∉ a -> c ∉ a' -> a ++ c :: b = a' ++ c :: b' -> a = a' /\ b = b'.
Proof. intros H H' E. apply (f_equal (split_once c)) in E. rewrite !split_once_app in E by done. by injection E. Qed.
(** What a tag tells of a file *)
Definition tagged (file : StaticResponseFile) : Z * (Z * Z) := (sf_len file, epoch_parts (sf_modified file)).
Definition file_ok (file : StaticResponseFile) : Prop := in_u64 (sf_len file) /\ in_u64 (epoch_parts (sf_modified file)).1.
Lemma epoch_parts_nanos modified : 0 <= (epoch_parts modified).2 < NANOS /\ 0 <= (epoch_parts modified).1.
Proof.
  unfold epoch_parts, NANOS. destruct modified as [t |]; [| cbn; lia]. destruct (Z.leb_spec 0 t); [| cbn; lia]. cbn [fst snd].
  split; [apply Z.mod_pos_bound; lia | apply Z.div_pos; lia].
Qed.
Lemma static_etag_inj a b : file_ok a -> file_ok b -> static_etag a = static_etag b -> tagged a = tagged b.
Proof.
  intros [La Sa] [Lb Sb]. unfold static_etag, tagged. pose proof (epoch_parts_nanos (sf_modified a)) as Na.
  pose proof (epoch_parts_nanos (sf_modified b)) as Nb. destruct (epoch_parts (sf_modified a)) as [sa na], (epoch_parts (sf_modified b)) as [sb nb].
  cbn [fst snd] in *. intros E. apply (app_inv_head (bs "W/")), (app_inv_head [QUOTE]) in E.
  assert (forall n, in_u64 n -> 45 ∉ to_hex64 n) as Hdash by (intros n Hn Hin; apply to_hex64_digits in Hin; ulia).
  assert (in_u64 na /\ in_u64 nb) as [? ?] by (unfold NANOS in *; split; ulia).
  apply app_separator_inj in E as [E1 E]; [| by apply Hdash | by apply Hdash]. cbn [app] in E.
  apply app_separator_inj in E as [E2 E]; [| by apply Hdash | by apply Hdash]. apply app_inv_tail in E.
  apply to_hex64_inj in E1, E2, E; try done. congruence.
Qed.

Lemma static_etag_items file : 0 <= sf_len file -> list_items (static_etag file) = [static_etag file].
Proof.
  intros Hl. pose proof (epoch_parts_nanos (sf_modified file)) as Hn. unfold static_etag.
  destruct (epoch_parts (sf_modified file)) as [seconds nanos] eqn:E. cbn [fst snd] in Hn.
  assert (forall n c, 0 <= n -> c ∈ to_hex64 n -> c <> 44) as Hd by (intros n c Hn0 Hc; apply to_hex64_digits in Hc; lia).
  unfold list_items. rewrite split_byte_notin.
  - cbn [fmap list_fmap]. f_equal. apply trim_trimmed.
    replace (bs "W/" ++ _) with (87 :: ([47; QUOTE] ++ to_hex64 (sf_len file) ++ [45] ++ to_hex64 seconds ++ [45] ++ to_hex64 nanos) ++ [QUOTE])
      by (rewrite <- !app_assoc; reflexivity).
    unfold trimmed. rewrite app_comm_cons, last_snoc. split; split; done.
  - assert (forall n, 0 <= n -> 44 ∉ to_hex64 n) as Hx by (intros n Hn0 Hc; by apply (Hd n 44 Hn0 Hc)).
    assert (44 ∉ bs "W/" /\ 44 ∉ [QUOTE] /\ 44 ∉ [45]) as (H1 & H2 & H3)
      by (split_and!; intros Hin; repeat (apply elem_of_cons in Hin as [Hin | Hin]; [done |]); by apply elem_of_nil in Hin).
    pose proof (Hx _ Hl). pose proof (Hx seconds). pose proof (Hx nanos). rewrite !elem_of_app. intuition lia.
Qed.
Lemma etag_not_modified_own old now :
  file_ok old -> file_ok now -> etag_not_modified (Some (static_etag old)) (static_etag now) = bool_decide (tagged old = tagged now).
Proof.
  intros Ho Hn. unfold etag_not_modified. rewrite static_etag_items by (destruct Ho; ulia). cbn [existsb]. rewrite orb_false_r.
  assert (forall f, weak_etag_value (static_etag f) = drop 2 (static_etag f) /\ static_etag f = bs "W/" ++ drop 2 (static_etag f)) as Hweak.
  { intros f. unfold static_etag. destruct (epoch_parts (sf_modified f)). split; [| done]. unfold weak_etag_value.
    by rewrite (proj2 (strip_prefix_Some (bs "W/") _ _) eq_refl). }
  rewrite bool_decide_false by (destruct (Hweak old) as [_ ->]; done). cbn [orb].
  destruct (Hweak old) as [-> Eo], (Hweak now) as [-> En]. apply bool_decide_ext. split; intros E.
  - apply static_etag_inj; [done | done |]. by rewrite Eo, En, E.
  - unfold tagged in E. injection E as El Ep. unfold static_etag. by rewrite El, Ep.
Qed.


(** ** Opening in a file system at rest *)

Section Rest.
Context (f : Fs).

Lemma descends_snoc t dir names name t' id m :
  descends (fun _ => f) t dir names t' id -> entry_of f id name = Ok m -> is_symlink (mt_inode m) = false ->
  descends (fun _ => f) t dir (names ++ [name]) (S t') (mt_id m).
Proof.
  intros Hd He Hs. induction Hd; cbn [app]; [| by eapply descends_step; [done | done | apply IHHd]].
  eapply descends_step; [done | done | constructor].
Qed.
Lemma plain_descends w w0 t :
  plain_to f (w ++ w0) -> descends (fun _ => f) t (walk_id f w0) (rev (fst <$> w)) (length w + t) (walk_id f (w ++ w0)).
Proof.
  induction w as [| [name id] w IH]; intros Hp; [constructor |]. cbn [app] in Hp. inversion Hp as [| ? ? m Hp' He Hs]; subst.
  cbn [fmap list_fmap rev fst app length walk_id]. by eapply descends_snoc; [apply IH | |].
Qed.
Lemma entry_of_dir dir name m : entry_of f dir name = Ok m -> exists modified entries, fs_inodes f !! dir = Some (IDir modified entries).
Proof. unfold entry_of. destruct (fs_inodes f !! dir) as [[modified entries | | |] |]; try done. by exists modified, entries. Qed.
Lemma plain_below w w0 :
  plain_to f (w ++ w0) -> w <> [] -> plain_to f w0 /\ exists modified entries, fs_inodes f !! walk_id f w0 = Some (IDir modified entries).
Proof.
  induction w as [| [name id] w IH]; [done |]. cbn [app]. intros Hp _. inversion Hp as [| ? ? m Hp' He Hs]; subst.
  destruct w as [| x w]; [by split; [| eapply entry_of_dir] | by apply IH].
Qed.
Lemma descends_opens t dir names t' id :
  descends (fun _ => f) t dir names t' id -> names <> [] ->
  exists t'', open_components dir (Normal <$> names) (fun _ => f) t = (Ok id, t'').
Proof.
  induction 1 as [| t dir name names m t' id He Hs Hd IH]; [done |]. intros _. destruct names as [| name' names].
  - inversion Hd; subst. exists (S t). cbn [fmap list_fmap open_components]. unfold call, openat. rewrite He. cbn. unfold open_nofollow.
    by destruct (mt_inode m).
  - destruct IH as (t'' & IH); [done |]. exists t''. cbn [fmap list_fmap open_components]. unfold io_bind, call, openat. rewrite He.
    unfold open_nofollow. inversion Hd as [| ? ? ? ? m' ? ? He' Hs' Hd']; subst.
    destruct (entry_of_dir _ _ _ He') as (modified & entries & Hi). rewrite (entry_of_inode f _ _ _ He) in Hi. injection Hi as Hi.
    by rewrite Hi.
Qed.
End Rest.

(** ** Serving *)

Section Served.
Context {http : HttpPackage}.
Context (parse_http_date : list Z -> option Z) (fmt_http_date : Z -> list Z) (fmt_local_time : Z -> option (list Z)).
Context (percent_encode percent_decode_str : list Z -> list Z) (dir_order : list (list Z) -> list (list Z)).
Context (native_body_sha256 : list Z -> list Z) (by_age : list (Z * list Z) -> list (Z * list Z)).
Context (reason_text : StaticCacheReason -> list Z) (web : NativeHttp1StaticWeb).
Context (f : Fs) (w0 w : Walk) (modified : option Z) (data : list Z).
(** The root is where its path says, and [w] leads from it to a regular file. *)
Context (Hroot : sw_root web = absolute_path (rev (fst <$> w0))) (Hplain : plain_to f (w ++ w0)) (Hw : w <> []).
Context (Hfile : fs_inodes f !! walk_id f (w ++ w0) = Some (IFile modified data)).
Local Abbreviation fs := (fun _ : nat => f).
Local Abbreviation names := (rev (fst <$> w)).

Definition served_file : NativeStaticFile :=
  mkNativeFile (sw_root web) (sw_root web ++ (Normal <$> names)) (content_type_for_path (sw_root web ++ (Normal <$> names)))
    (zlen data) modified (walk_id f (w ++ w0)).
Lemma served_path : sw_root web ++ (Normal <$> names) = absolute_path (rev (fst <$> (w ++ w0))).
Proof using Hroot. rewrite Hroot. unfold absolute_path. cbn [app]. by rewrite fmap_app, rev_app_distr, fmap_app. Qed.
Lemma served_canonical : canonicalize f (sw_root web ++ (Normal <$> names)) = Ok (sw_root web ++ (Normal <$> names)).
Proof using Hroot Hplain. rewrite served_path. by apply canonicalize_along. Qed.
Lemma served_symlink_metadata :
  symlink_metadata f (sw_root web ++ (Normal <$> names)) = Ok (mkMetadataOf (walk_id f (w ++ w0)) (IFile modified data)).
Proof using Hroot Hplain Hw Hfile.
  rewrite served_path. destruct w as [| [name id] w']; [done |]. cbn [app] in *. inversion Hplain as [| ? ? m Hp He Hs]; subst.
  cbn [fmap list_fmap rev fst walk_id]. rewrite (symlink_metadata_along f _ _ m Hp He). f_equal.
  cbn [walk_id] in Hfile. rewrite (entry_of_inode f _ _ _ He) in Hfile. injection Hfile as E. destruct m as [mid minode]. cbn in *. by subst.
Qed.
Lemma served_metadata :
  metadata f (sw_root web ++ (Normal <$> names)) = Ok (mkMetadataOf (walk_id f (w ++ w0)) (IFile modified data)).
Proof using Hroot Hplain Hfile. rewrite served_path. by apply metadata_along. Qed.
Lemma starts_with_app (p q : Path) : path_starts_with (p ++ q) p = true.
Proof. unfold path_starts_with. by rewrite take_app_length, bool_decide_true. Qed.
Lemma static_file_serves t : static_file web (sw_root web ++ (Normal <$> names)) fs t = (Ok (Some served_file), S (S t)).
Proof using Hroot Hplain Hw Hfile.
  unfold static_file. rewrite (proj2 (from_rooted_some _ _ names) eq_refl). unfold io_bind, io_try, call.
  rewrite served_canonical, starts_with_app, join_names, bool_decide_true by done. cbn [negb orb].
  by rewrite served_symlink_metadata.
Qed.
Lemma resolve_serves request_path t :
  relative_request_path percent_decode_str web request_path = Ok (Some names) ->
  resolve percent_decode_str dir_order web request_path fs t = (Ok (Found served_file), S (S (S (S t)))).
Proof using Hroot Hplain Hw Hfile.
  intros Hr. unfold resolve. rewrite Hr. unfold resolve_relative_candidate. rewrite join_names. unfold io_bind, io_try, call.
  rewrite served_canonical, starts_with_app, bool_decide_true by done. cbn [negb orb]. rewrite served_metadata. cbn [mt_inode is_dir].
  by rewrite static_file_serves.
Qed.

Lemma root_opens : open_directory f (sw_root web) = Ok (walk_id f w0).
Proof using Hroot Hplain Hw Hfile.
  destruct (plain_below f w w0 Hplain Hw) as (Hp0 & dm & entries & Hdir).
  unfold open_directory, symlink_metadata. rewrite Hroot. destruct w0 as [| [name id] w0'].
  - cbn [fmap list_fmap rev absolute_path last]. pose proof (metadata_along f [] _ Hp0 Hdir) as E. cbn [fmap list_fmap rev] in E.
    change (last (absolute_path [])) with (Some RootDir). cbn iota. rewrite E. done.
  - inversion Hp0 as [| ? ? m Hp0' He Hs]; subst. cbn [fmap list_fmap rev fst].
    pose proof (symlink_metadata_along f w0' name m Hp0' He) as E. unfold symlink_metadata in E. rewrite E. cbn.
    cbn [walk_id] in Hdir. rewrite (entry_of_inode f _ _ _ He) in Hdir. injection Hdir as Hi. unfold open_nofollow. by rewrite Hi.
Qed.
Lemma body_opens t : exists t', open_static_body_file served_file fs t = (Ok (walk_id f (w ++ w0)), t').
Proof using Hroot Hplain Hw Hfile.
  destruct (descends_opens f _ _ _ _ _ (plain_descends f w w0 (S (S t)) Hplain)) as (t1 & Ho).
  { intros E. apply Hw. apply (f_equal (@length _)) in E. rewrite length_rev, length_fmap in E. by destruct w. }
  exists (S t1). unfold open_static_body_file, served_file. cbn [nf_root nf_path].
  rewrite (proj2 (from_rooted_some _ _ names) eq_refl), join_names, bool_decide_true by done. cbn [negb].
  unfold io_bind at 1, call at 1. rewrite served_canonical, starts_with_app. cbn [negb].
  unfold open_static_body_file_at_root. cbn [nf_root]. unfold io_bind, call. rewrite root_opens. unfold as_path. rewrite Ho.
  unfold fstat. by rewrite Hfile.
Qed.
Lemma body_reads body t :
  (forall start n, body = BodyRange start n -> 0 <= start /\ 0 < n /\ start + n <= zlen data) -> zlen data < U64_MAX ->
  exists sent t', read_static_body served_file body fs t = (Ok sent, t') /\ part_of data (zlen data) body sent.
Proof using Hroot Hplain Hw Hfile.
  intros Hrange Hmax. destruct (body_opens t) as (t1 & Ho). pose proof (zlen_nonneg data).
  destruct body as [| | start n]; cbn [read_static_body part_of].
  - by exists [], t.
  - exists data, (S t1). unfold io_bind, call. rewrite Ho. unfold file_data. rewrite Hfile. cbn [nf_len served_file].
    rewrite saturating_add_exact, ztake_ge by ulia. by rewrite Z.eqb_refl.
  - destruct (Hrange start n eq_refl) as (? & ? & ?). eexists _, (S t1). unfold io_bind, call. rewrite Ho. unfold file_data. rewrite Hfile.
    assert (zlen (ztake n (zdrop start data)) = n) as En by (rewrite zlen_take, zlen_drop; lia). rewrite En, Z.eqb_refl. done.
Qed.

End Served.

(** The root of a site that was set up is where its path says: the hypothesis of
    the theorems above holds for it at that moment. *)
Lemma canonicalize_absolute f p q : canonicalize f p = Ok q -> exists names, q = absolute_path names.
Proof. unfold canonicalize. destruct (walk f p) as [w |]; [| done]. intros [= <-]. by eexists. Qed.
Lemma from_config_root current_dir config cache fs t web t' :
  from_config_with_cache current_dir config cache fs t = (Ok (Some web), t') ->
  exists t0 w, plain_to (fs t0) w /\ sw_root web = absolute_path (rev (fst <$> w)).
Proof.
  unfold from_config_with_cache. destruct (wb_root config) as [root |]; [| done].
  intros (symlinked & t1 & _ & H)%io_bind_ok. destruct symlinked; [done |].
  apply io_bind_ok in H as (m & t2 & _ & H). destruct (is_symlink _ || _); [done |].
  apply io_bind_ok in H as (q & t3 & [Hc ->]%call_ok & H). injection H as <- _. cbn [sw_root].
  destruct (canonicalize_absolute _ _ _ Hc) as [names ->]. apply canonicalize_plain in Hc as (w & Hw & ->). by exists t2, w.
Qed.
