(* ===== verification/StaticCacheProps.v ===== *)
(** * What the cache of a static site answers

    Through any history of requests, while files change, an answer from the cache
    is the whole content of a file that had the path, the inode, the size and the
    time of modification that the requested file has. *)
From Stdlib Require Import ZArith Lia.
From stdpp Require Import base list numbers strings sets gmap.
From S2P Require Import Prelude Text NetAddr ProxyProtocol Http1Target Http1Head LbBackend HostNames Headers RequestHeaders UpstreamResponse CacheKey CachePurge CacheControl CacheObject CacheEntry CacheRange MemoryCache MemoryCacheProps CacheLookup PathSafety RouteMatch Cors RouteProxy FileSystem StaticPlan StaticWeb StaticResponse StaticWebProps StaticServed.

(** ** Identities *)

Lemma last_colon_inj (a a' b b' : list Z) : 58 ∉ b -> 58 ∉ b' -> a ++ 58 :: b = a' ++ 58 :: b' -> a = a' /\ b = b'.
Proof.
  intros Hb Hb' E. apply (f_equal (@rev _)) in E. rewrite !rev_app_distr in E. cbn [rev] in E. rewrite <- !app_assoc in E. cbn [app] in E.
  apply split_at_colon in E as [E1 E2]; [| by rewrite list_elem_of_In, <- in_rev, <- list_elem_of_In..].
  apply (f_equal (@rev _)) in E1, E2. by rewrite !rev_involutive in E1, E2.
Qed.
(** What an identity tells of a file *)
Definition identified (file : NativeStaticFile) : list Z * InodeId * Z * (Z * Z) :=
  (display (nf_path file), nf_id file, nf_len file, epoch_parts (nf_modified file)).
Definition identity_ok (file : NativeStaticFile) : Prop :=
  in_u64 (nf_id file).1 /\ in_u64 (nf_id file).2 /\ in_u64 (nf_len file) /\ in_u64 (epoch_parts (nf_modified file)).1.
Lemma cache_identity_inj a b : identity_ok a -> identity_ok b -> cache_identity a = cache_identity b -> identified a = identified b.
Proof.
  intros (Ha1 & Ha2 & Ha3 & Ha4) (Hb1 & Hb2 & Hb3 & Hb4). unfold cache_identity, static_cache_identity, identified.
  pose proof (epoch_parts_nanos (nf_modified a)) as Na. pose proof (epoch_parts_nanos (nf_modified b)) as Nb.
  destruct (epoch_parts (nf_modified a)) as [sa na], (epoch_parts (nf_modified b)) as [sb nb]. cbn [fst snd] in *.
  assert (forall n, in_u64 n -> 58 ∉ to_decimal n) as Hc by (intros n Hn; apply digits_no_colon; ulia).
  assert (in_u64 na /\ in_u64 nb) as [Hna Hnb] by (unfold NANOS in *; split; ulia).
  rewrite !app_assoc. cbn [app]. intros E. rewrite <- !(app_assoc _ [58]) in E. cbn [app] in E.
  repeat (apply last_colon_inj in E as [E ?]; [| by apply Hc | by apply Hc]).
  repeat match goal with H : to_decimal _ = to_decimal _ |- _ => apply to_decimal_inj in H; [| done | done] end.
  destruct (nf_id a), (nf_id b). cbn [fst snd] in *. congruence.
Qed.

Definition static_request (r : NativeHttp1Request) : CacheRequest :=
  mkCacheRequest (rq_method r) (static_request_header r (bs "host"))
    (cache_request_path (rq_method r) (rq_target r)) (cache_request_query (rq_method r) (rq_target r)).
(** All lengths and numbers fit a machine. *)
Definition static_sizes (cache : NativeStaticMemoryCache) (r : NativeHttp1Request) (file : NativeStaticFile) : Prop :=
  key_sizes (st_config cache) (static_request r) /\ zlen (cache_identity file) <= U64_MAX /\ identity_ok file.
Lemma static_key_identified cache r1 file1 r2 file2 key :
  static_sizes cache r1 file1 -> static_sizes cache r2 file2 ->
  static_key cache r1 file1 = Some key -> static_key cache r2 file2 = Some key -> identified file1 = identified file2.
Proof.
  intros ([Hv1 Hn1] & Hz1 & Hi1) ([Hv2 Hn2] & Hz2 & Hi2). unfold static_key, static_cache_key.
  assert (forall k v, append_cache_key_component k (bs "file") v = k ++ print_components [(bs "file", v)]) as Happend
    by (intros k v; apply (append_components_eq [(bs "file", v)] k)).
  destruct (negb _); [done |]. intros E1. destruct (negb _); [done |]. intros E2.
  assert (append_cache_key_component (append_request_parts (st_config cache) (static_request r1) (bs "fluxheim-static-v1;")) (bs "file") (cache_identity file1)
    = append_cache_key_component (append_request_parts (st_config cache) (static_request r2) (bs "fluxheim-static-v1;")) (bs "file") (cache_identity file2))
    as E by (unfold static_request; congruence).
  rewrite !Happend, !append_request_parts_eq, <- !app_assoc, <- !print_components_app in E.
  apply app_inv_head, print_components_inj in E.
  - apply cache_identity_inj; [done | done |]. apply (f_equal last) in E. rewrite !last_snoc in E. by injection E.
  - apply Forall_app. split; [by apply request_components_ok |]. apply Forall_singleton. split; [by apply (bool_decide_unpack _) | done].
  - apply Forall_app. split; [by apply request_components_ok |]. apply Forall_singleton. split; [by apply (bool_decide_unpack _) | done].
Qed.

(** ** Histories *)

Section History.
Context {http : HttpPackage}.
Context (parse_http_date : list Z -> option Z) (fmt_http_date : Z -> list Z) (fmt_local_time : Z -> option (list Z)).
Context (percent_encode percent_decode_str : list Z -> list Z) (dir_order : list (list Z) -> list (list Z)).
Context (native_body_sha256 : list Z -> list Z) (by_age : list (Z * list Z) -> list (Z * list Z)).
Context (reason_text : StaticCacheReason -> list Z) (web : NativeHttp1StaticWeb) (cache : NativeStaticMemoryCache).
Context (Hcache : sw_cache web = Some cache).
Local Abbreviation file_response := (file_response parse_http_date fmt_http_date web).
Local Abbreviation cached := (cached_file_response parse_http_date fmt_http_date native_body_sha256 by_age reason_text web).
Local Abbreviation resolve := (resolve percent_decode_str dir_order web).

(** The states of the cache after any answers to requests whose paths were
    resolved, each in a file system that changes as it will. *)
Inductive static_reached : NativeMemoryCacheState -> Prop :=
| reached_new : static_reached memory_new
| reached_answer s times r request_path fs t file t1 response s' t' :
    static_reached s -> resolve request_path fs t = (Ok (Found file), t1) -> static_sizes cache r file ->
    cached times r file fs (s, t1) = (response, (s', t')) -> static_reached s'.

(** Where an entry comes from: the answer made from a file *)
Record stored_from (key : list Z) (entry : NativeMemoryCacheEntry) (r : NativeHttp1Request) (file : NativeStaticFile)
    (fs : nat -> Fs) (t : nat) (now : Z) : Prop := {
  sf_resolved : exists request_path t0, resolve request_path fs t0 = (Ok (Found file), t);
  sf_sizes : static_sizes cache r file;
  sf_key : static_key cache r file = Some key;
  sf_no_bypass : request_cache_bypass_reason r (st_bypass cache) = None;
  sf_entry : static_entry native_body_sha256 cache now key (answer_of fs t (file_response r file)).1 = Ok entry;
}.
Definition static_origins (s : NativeMemoryCacheState) : Prop :=
  forall key entry, ms_objects s !! key = Some entry -> exists r file fs t now, stored_from key entry r file fs t now.

Lemma static_entry_body now key response entry :
  static_entry native_body_sha256 cache now key response = Ok entry ->
  rp_status response = 200 /\ rp_body response = me_body entry /\ rp_body response <> [] /\ me_status entry = 200
  /\ exists ttl, me_expires_at entry = now + ttl.
Proof.
  unfold static_entry. destruct (Z.eqb_spec (rp_status response) 200) as [Hst | ?]; cbn [negb]; [| done].
  destruct (Z.eqb_spec (zlen (rp_body response)) 0) as [? | Hb]; [done |]. destruct (_ || _); [done |].
  destruct (response_cache_admission_rejection _ _ _); [done |]. destruct (native_cache_ttl _ _ _) as [ttl |]; [| done].
  destruct (ttl =? 0); [done |]. destruct (_ <? _); [done |]. unfold time_checked_add. destruct (now + ttl <=? TIME_MAX); [| done].
  intros [= <-]. cbn. split_and!; [done | done | | done | by exists ttl]. intros E. by rewrite E in Hb.
Qed.
Lemma origins_subset s s' : ms_objects s' ⊆ ms_objects s -> static_origins s -> static_origins s'.
Proof. intros Hs Ho key entry E. apply (Ho key). by eapply lookup_weaken. Qed.
Lemma static_get_subset now key s : ms_objects (static_get now key s).2 ⊆ ms_objects s.
Proof.
  unfold static_get. destruct (ms_objects s !! key) as [entry |]; [| done]. destruct (now <? me_expires_at entry); [done |]. cbn.
  apply delete_subseteq.
Qed.
Lemma static_get_found now key s entry : (static_get now key s).1 = Some entry -> ms_objects s !! key = Some entry /\ now < me_expires_at entry.
Proof.
  unfold static_get. destruct (ms_objects s !! key) as [e |]; [| done]. destruct (Z.ltb_spec now (me_expires_at e)); [| done].
  by intros [= <-].
Qed.
Lemma static_store_origins now prune key response s outcome s' r file fs t :
  static_store native_body_sha256 by_age cache now prune key response s = (outcome, s') ->
  (forall entry, static_entry native_body_sha256 cache now key response = Ok entry -> stored_from key entry r file fs t now) ->
  static_origins s -> static_origins s'.
Proof.
  unfold static_store. intros E Hnew Hs. destruct (static_entry _ _ _ _ _) as [entry |] eqn:Ee; [| by injection E as _ <-].
  injection E as _ <-.
  assert (static_origins (static_insert key entry s)) as Hi.
  { intros k e. unfold static_insert. cbn.
    assert (forall m : gmap (list Z) NativeMemoryCacheEntry, <[key:=entry]> m !! k = Some e -> m ⊆ ms_objects s ->
      exists r file fs t now, stored_from k e r file fs t now) as Hins.
    { intros m [[<- <-] | [Hk E]]%lookup_insert_Some Hm; [by exists r, file, fs, t, now; apply Hnew |].
      apply (Hs k). by eapply lookup_weaken. }
    destruct (ms_objects s !! key); intros E; (eapply Hins; [exact E |]); cbn; [apply delete_subseteq | done]. }
  case_match; [| done]. eapply origins_subset; [apply shrinks_prune | done].
Qed.
Lemma reached_origins s : static_reached s -> static_origins s.
Proof using Hcache.
  induction 1 as [| s times r request_path fs t file t1 response s' t' _ IH Hr Hsizes Hc]; [by intros key entry |].
  revert Hc. unfold cached_file_response. rewrite Hcache.
  destruct (static_key cache r file) as [key |] eqn:Ek; [| by intros [= _ <- _]].
  destruct (request_cache_bypass_reason r (st_bypass cache)) eqn:Eb; [by intros [= _ <- _] |].
  set (got := if request_cache_revalidation_requested _ _ then _ else _).
  assert (ms_objects got.2 ⊆ ms_objects s) as Hgot by (unfold got; destruct (request_cache_revalidation_requested _ _); [done | apply static_get_subset]).
  destruct got as [[entry |] s1]; cbn [snd] in Hgot; [intros [= _ <- _]; eapply origins_subset; [exact Hgot | exact IH] |].
  destruct (static_store _ _ _ _ _ _ _ _) as [[|] s2] eqn:Est; intros [= _ <- _];
    (eapply static_store_origins; [exact Est | | eapply origins_subset; [exact Hgot | exact IH]]); intros entry He;
    (split; [by exists request_path, t | done | done | done | exact He]).
Qed.

End History.
