(* ===== verification/StaticListingProps.v ===== *)
(** * What a directory listing shows

    The entries that are listed, and that no name can add markup to the page. *)
From Stdlib Require Import ZArith Lia.
From stdpp Require Import base list numbers strings sets gmap.
From S2P Require Import Prelude Text NetAddr HostNames CacheEntry PathSafety FileSystem StaticPlan StaticWeb StaticWebProps.

(** ** Markup *)

(** The characters that mean something to a reader of HTML text and attributes *)
Definition is_markup (c : Z) : bool := (c =? 60) || (c =? 62) || (c =? 34) || (c =? 39).
Definition markup (s : list Z) : list Z := List.filter is_markup s.
Lemma markup_app a b : markup (a ++ b) = markup a ++ markup b.
Proof. apply List.filter_app. Qed.
Lemma markup_html_escape s : markup (html_escape s) = [].
Proof.
  unfold html_escape. induction s as [| c s IH]; [done |]. cbn [fmap list_fmap concat]. rewrite markup_app, IH, app_nil_r.
  unfold escape_char. destruct (Z.eqb_spec c 38); [done |]. destruct (Z.eqb_spec c 60); [done |]. destruct (Z.eqb_spec c 62); [done |].
  destruct (Z.eqb_spec c 34); [done |]. destruct (Z.eqb_spec c 39); [done |]. cbn. unfold is_markup.
  by rewrite (proj2 (Z.eqb_neq c 60)), (proj2 (Z.eqb_neq c 62)), (proj2 (Z.eqb_neq c 34)), (proj2 (Z.eqb_neq c 39)).
Qed.
Lemma markup_decimal n : 0 <= n -> markup (to_decimal n) = [].
Proof.
  intros Hn. pose proof (to_decimal_digits n Hn) as Hd. induction Hd as [| c l Hc _ IH]; [done |]. unfold markup in *. cbn [List.filter]. rewrite IH.
  assert (is_markup c = false) as ->; [| done]. unfold is_ascii_digit, between in Hc. unfold is_markup.
  destruct (Z.eqb_spec c 60), (Z.eqb_spec c 62), (Z.eqb_spec c 34), (Z.eqb_spec c 39); done || lia.
Qed.
Definition entry_markup : list Z := markup (bs "<tr><td><a href=" ++ quoted [] ++ bs "></a></td><td></td><td></td></tr>").
Definition page_markup (entries : nat) : list Z :=
  markup (bs "<!doctype html><html><head><meta charset=" ++ quoted [] ++ bs "><title></title></head><body><h1></h1>"
          ++ bs "<table><thead><tr><th></th><th></th><th></th></tr></thead><tbody>")
  ++ concat (repeat entry_markup entries) ++ markup (bs "</tbody></table></body></html>").
Lemma markup_entry percent_encode fmt_http_date fmt_local_time listing entry :
  (forall size, de_size entry = Some size -> 0 <= size) ->
  markup (render_entry percent_encode fmt_http_date fmt_local_time listing entry) = entry_markup.
Proof.
  intros Hs. unfold render_entry, quoted. cbv zeta.
  assert (markup match de_size entry with Some size => to_decimal size | None => bs "-" end = []) as Hsize
    by (destruct (de_size entry); [apply markup_decimal; auto | done]).
  assert (markup match de_modified entry ≫= (fun modified => format_directory_listing_time fmt_http_date fmt_local_time modified (li_local_time listing)) with
    | Some timestamp => html_escape timestamp | None => bs "-" end = []) as Htime
    by (destruct (_ ≫= _); [apply markup_html_escape | done]).
  rewrite !markup_app, Hsize, Htime, !markup_html_escape. vm_compute. reflexivity.
Qed.

(** The tags and quotes of a listing are those of the template, once per
    entry: no name, path or date on the page can open or close a tag or an
    attribute. *)
Theorem listing_markup_fixed percent_encode fmt_http_date fmt_local_time (listing : DirectoryListing) :
  (forall entry size, entry ∈ li_entries listing -> de_size entry = Some size -> 0 <= size) ->
  markup (render_directory_listing percent_encode fmt_http_date fmt_local_time listing) = page_markup (length (li_entries listing)).
Proof.
  intros Hs. assert (markup (concat (render_entry percent_encode fmt_http_date fmt_local_time listing <$> li_entries listing))
    = concat (repeat entry_markup (length (li_entries listing)))) as Hentries.
  { induction (li_entries listing) as [| e es IH]; [done |]. cbn [fmap list_fmap concat length repeat]. 
    rewrite markup_app, markup_entry, IH; [reflexivity | |].
    - intros e' size He. apply Hs. apply elem_of_cons. by right.
    - intros size. apply Hs. apply elem_of_cons. by left. }
  unfold render_directory_listing, page_markup, quoted. rewrite !markup_app, !markup_html_escape, Hentries.
  generalize (concat (repeat entry_markup (length (li_entries listing)))). intros rows. vm_compute. reflexivity.
Qed.

(** ** The entries of a directory *)

(** A name that may be shown, and what is shown of it *)
Definition shown_entry (web : NativeHttp1StaticWeb) (f : Fs) (dir : InodeId) (name : list Z) : option DirectoryEntry :=
  if negb (utf8_valid name) || (sw_deny_dotfiles web && starts_with [46] name) then None
  else
    match entry_of f dir name with
    | Ok m =>
        let inode := mt_inode m in
        if is_file inode then
          Some (mkEntry name false (if dl_exact_size (sw_directory_listing web) then Some (inode_len inode) else None) (inode_modified inode))
        else if is_dir inode then Some (mkEntry name true None (inode_modified inode))
        else None
    | Err _ => None
    end.
Section Listed.
Context (dir_order : list (list Z) -> list (list Z)) (Hperm : forall names, dir_order names ≡ₚ names).
Context (web : NativeHttp1StaticWeb) (f : Fs) (w : Walk) (modified : option Z) (entries : gmap (list Z) InodeId).
Context (Hplain : plain_to f w) (Hdir : fs_inodes f !! walk_id f w = Some (IDir modified entries)).
(** No entry dangles. *)
Context (Hwf : forall name id, entries !! name = Some id -> is_Some (fs_inodes f !! id)).
Local Abbreviation directory := (absolute_path (rev (fst <$> w))).

Lemma entry_of_listed name id : entries !! name = Some id -> exists m, entry_of f (walk_id f w) name = Ok m.
Proof using Hdir Hwf.
  intros E. unfold entry_of. rewrite Hdir, E. destruct (Hwf _ _ E) as [inode ->]. by eexists.
Qed.
Lemma directory_snoc name : directory ++ [Normal name] = absolute_path (rev (fst <$> w) ++ [name]).
Proof. unfold absolute_path. by rewrite fmap_app. Qed.
Lemma list_entries_rest names shown t :
  (forall name, name ∈ names -> is_Some (entries !! name)) -> zlen shown + zlen names <= MAX_DIRECTORY_LISTING_ENTRIES ->
  exists t', list_entries web directory names shown (fun _ => f) t = (Ok (shown ++ omap (shown_entry web f (walk_id f w)) names), t').
Proof using Hplain Hdir Hwf.
  revert shown t. induction names as [| name names IH]; intros shown t Hin Hmax; cbn [list_entries omap list_omap].
  { exists t. by rewrite app_nil_r. }
  rewrite zlen_cons in Hmax. pose proof (zlen_nonneg names). pose proof (zlen_nonneg shown).
  rewrite (proj2 (Z.leb_gt MAX_DIRECTORY_LISTING_ENTRIES (zlen shown))) by lia.
  assert (forall n, n ∈ names -> is_Some (entries !! n)) as Hin' by (intros n Hn; apply Hin; apply elem_of_cons; by right).
  unfold shown_entry at 1. destruct (utf8_valid name); cbn [negb orb]; [| by apply IH; [| lia]].
  destruct (sw_deny_dotfiles web && starts_with [46] name); [by apply IH; [| lia] |].
  destruct (Hin name) as [id Eid]; [apply elem_of_cons; by left |]. destruct (entry_of_listed _ _ Eid) as [m Em]. rewrite Em.
  unfold io_bind, call. rewrite directory_snoc, (symlink_metadata_along f w name m Hplain Em).
  destruct (mt_inode m) eqn:Ei; cbn [is_symlink is_file is_dir negb andb orb]; rewrite ?directory_snoc, ?(symlink_metadata_along f w name m Hplain Em), ?Ei;
    cbn [inode_modified inode_len].
  - destruct (IH (shown ++ [mkEntry name true None modified0]) (S (S t)) Hin') as (t' & ->); [rewrite zlen_app, zlen_cons, zlen_nil; lia |].
    exists t'. by rewrite <- app_assoc.
  - destruct (IH (shown ++ [mkEntry name false (if dl_exact_size (sw_directory_listing web) then Some (zlen data) else None) modified0]) (S (S t)) Hin')
      as (t' & ->); [rewrite zlen_app, zlen_cons, zlen_nil; lia |]. exists t'. by rewrite <- app_assoc.
  - apply IH; [done | lia].
  - apply IH; [done | lia].
Qed.
Lemma insert_entry_perm e sorted : insert_entry e sorted ≡ₚ e :: sorted.
Proof.
  induction sorted as [| x sorted IH]; [done |]. cbn [insert_entry]. destruct (entry_before x e); [| done]. rewrite IH. by constructor.
Qed.
Lemma sort_entries_perm l : sort_entries l ≡ₚ l.
Proof. induction l as [| e l IH]; [done |]. cbn. by rewrite insert_entry_perm, IH. Qed.

(** C31: The listing of a directory at rest, below the root and with no more
    entries than the limit, shows each entry that is a regular file or a
    directory, has a name in UTF-8 and is no dot file where those are denied,
    once, and nothing else: no symbolic links, no devices. *)
Theorem directory_listing_exact names t :
  directory = sw_root web ++ (Normal <$> names) -> Z.of_nat (size entries) <= MAX_DIRECTORY_LISTING_ENTRIES ->
  exists listing t', directory_listing dir_order web directory (fun _ => f) t = (Ok (Listed listing), t')
    /\ li_entries listing ≡ₚ omap (shown_entry web f (walk_id f w)) (fst <$> map_to_list entries).
Proof using Hplain Hdir Hwf Hperm.
  intros Hroot Hmax. unfold directory_listing. rewrite (proj2 (from_rooted_some _ _ names) Hroot), join_names, bool_decide_true by done.
  cbn [negb]. unfold io_bind at 1, call at 1. unfold read_dir. rewrite (metadata_along f w _ Hplain Hdir). cbn [mt_inode].
  assert (zlen (dir_order (fst <$> map_to_list entries)) <= MAX_DIRECTORY_LISTING_ENTRIES) as Hlen.
  { unfold zlen. rewrite Hperm, length_fmap, length_map_to_list. done. }
  rewrite ztake_ge by lia.
  destruct (list_entries_rest (dir_order (fst <$> map_to_list entries)) [] (S t)) as (t' & Hl).
  - intros name. rewrite Hperm, list_elem_of_fmap. intros ([n id] & -> & E%elem_of_map_to_list). by exists id.
  - rewrite zlen_nil. lia.
  - unfold io_bind. rewrite Hl. eexists _, t'. split; [done |]. cbn [li_entries]. rewrite sort_entries_perm. cbn [app]. by rewrite Hperm.
Qed.
End Listed.
