(* ===== verification/StaticSample.v ===== *)
(** * A sample site

    A small file system with a site in it, on which the theorems on static files
    are applied; and what the cache and the listings get wrong. *)
From Stdlib Require Import ZArith Lia.
From stdpp Require Import base list numbers strings sets gmap.
From S2P Require Import Prelude Text NetAddr ProxyProtocol Http1Target Http1Head LbBackend HostNames Headers RequestHeaders UpstreamResponse CacheKey CachePurge CacheControl CacheObject CacheEntry CacheRange MemoryCache MemoryCacheProps CacheLookup PathSafety RouteMatch Cors RouteProxy RoutingSample FileSystem StaticPlan StaticWeb StaticResponse StaticWebProps StaticServed StaticCacheProps StaticListingProps.

(** ** The site *)

Definition site : gmap (list Z) InodeId :=
  <[bs "pic.png" := (1, 4)]> (<[bs "link" := (1, 5)]> (<[bs ".env" := (1, 6)]> (<[bs "what?" := (1, 7)]> ∅))).
Definition disk : Fs :=
  mkFs (1, 1)
    (<[(1, 1) := IDir None (<[bs "srv" := (1, 2)]> ∅)]>
    (<[(1, 2) := IDir None (<[bs "www" := (1, 3)]> ∅)]>
    (<[(1, 3) := IDir None site]>
    (<[(1, 4) := IFile (Some (1700000000 * NANOS)) (bs "0123456789")]>
    (<[(1, 5) := ISymlink (bs "/etc")]>
    (<[(1, 6) := IFile None (bs "secret")]>
    (<[(1, 7) := IDir None ∅]> ∅))))))).
Definition site_walk : Walk := [(bs "www", (1, 3)); (bs "srv", (1, 2))].
Definition site_web (cache : option NativeStaticMemoryCache) : NativeHttp1StaticWeb :=
  mkWeb (absolute_path [bs "srv"; bs "www"]) [bs "index.html"] true (mkListingConfig true true false) (bs "public, max-age=60") None cache.
(** Stand-ins for the packages the handlers call *)
#[export] Instance any_http : HttpPackage := {| header_name_ok _ := true; header_value_ok _ := true; to_str_ok _ := true |}.
Definition no_date (_ : list Z) : option Z := None.
Definition some_date (_ : Z) : list Z := bs "Tue, 14 Nov 2023 22:13:20 GMT".
Definition same_text (s : list Z) : list Z := s.
Definition site_handle (web : NativeHttp1StaticWeb) (r : NativeHttp1Request) (path : list Z) (st : StaticState) :=
  web_handle no_date some_date (fun _ => None) same_text percent_decode (fun names => names) same_text (fun l => l) (fun _ => [])
    web (mkStaticTimes 0 0 0 0) r path (fun _ => disk) st.
Definition get (target : list Z) (headers : list header) : NativeHttp1Request :=
  mkRequest (bs "GET") None None None true None target Http11 ((bs "Host", bs "shop.example") :: headers) [].

Example file_found :
  let response := (site_handle (site_web None) (get (bs "/pic.png") []) (bs "/pic.png") (memory_new, 0%nat)).1 in
  rp_status response = 200 /\ rp_body response = bs "0123456789".
Proof. by vm_compute. Qed.
Example suffix_range :
  let response := (site_handle (site_web None) (get (bs "/pic.png") [(bs "Range", bs "bytes=-3")]) (bs "/pic.png") (memory_new, 0%nat)).1 in
  rp_status response = 206 /\ rp_body response = bs "789".
Proof. by vm_compute. Qed.
Example links_and_dot_files_hidden :
  rp_status (site_handle (site_web None) (get (bs "/link/passwd") []) (bs "/link/passwd") (memory_new, 0%nat)).1 = 404
  /\ rp_status (site_handle (site_web None) (get (bs "/.env") []) (bs "/.env") (memory_new, 0%nat)).1 = 403
  /\ rp_status (site_handle (site_web None) (get (bs "/%2e%2e/x") []) (bs "/%2e%2e/x") (memory_new, 0%nat)).1 = 403.
Proof. by vm_compute. Qed.

(** ** The cache *)

Definition static_config : CacheConfig :=
  mkCacheConfig true true true false [bs "GET"] [bs "png"] None [KeyMethod; KeyHost; KeyPath; KeyQuery]
    true 1048576 [] [] [bs "image/*"] ∅ None [] ∅ [] None None [] [].
Definition static_cache : NativeStaticMemoryCache := mkStaticCache static_config (mkBypass [] [] [] ∅ [] [] ∅ [] ∅ false true) None None 1048576.
Definition warmed : StaticState := (site_handle (site_web (Some static_cache)) (get (bs "/pic.png") []) (bs "/pic.png") (memory_new, 0%nat)).2.
(** A precondition that fails on the file is not looked at when the cache has the
    answer, and a range neither: the whole file is sent, where room was made for
    the range alone. *)
Definition stale_tag : list header := [(bs "If-Match", [QUOTE] ++ bs "other" ++ [QUOTE])].
Lemma cached_precondition_ignored :
  rp_status (site_handle (site_web (Some static_cache)) (get (bs "/pic.png") stale_tag) (bs "/pic.png") (memory_new, 0%nat)).1 = 412
  /\ rp_status (site_handle (site_web (Some static_cache)) (get (bs "/pic.png") stale_tag) (bs "/pic.png") warmed).1 = 200.
Proof. by vm_compute. Qed.
Lemma cached_range_unreserved :
  let range := get (bs "/pic.png") [(bs "Range", bs "bytes=0-0")] in
  match resolve percent_decode (fun names => names) (site_web (Some static_cache)) (bs "/pic.png") (fun _ => disk) 0%nat with
  | (Ok (Found file), _) => file_response_reservation_bytes no_date (site_web (Some static_cache)) range file (static_conditions range) true = Some 2
  | _ => False
  end
  /\ rp_body (site_handle (site_web (Some static_cache)) range (bs "/pic.png") warmed).1 = bs "0123456789".
Proof. by vm_compute. Qed.

(** ** The theorems at the sample *)

Lemma site_plain : plain_to disk ([(bs "pic.png", (1, 4))] ++ site_walk).
Proof.
  apply (plain_step disk site_walk (bs "pic.png") (mkMetadataOf (1, 4) (IFile (Some (1700000000 * NANOS)) (bs "0123456789")))); [| by vm_compute | done].
  apply (plain_step disk [(bs "srv", (1, 2))] (bs "www") (mkMetadataOf (1, 3) (IDir None site))); [| by vm_compute | done].
  apply (plain_step disk [] (bs "srv") (mkMetadataOf (1, 2) (IDir None (<[bs "www" := (1, 3)]> ∅)))); [constructor | by vm_compute | done].
Qed.
Definition pic : NativeStaticFile :=
  mkNativeFile (absolute_path [bs "srv"; bs "www"]) (absolute_path [bs "srv"; bs "www"; bs "pic.png"]) (bs "image/png") 10
    (Some (1700000000 * NANOS)) (1, 4).
Definition cached_pic (st : StaticState) :=
  cached_file_response no_date some_date same_text (fun l => l) (fun _ => []) (site_web (Some static_cache)) (mkStaticTimes 0 0 0 0)
    (get (bs "/pic.png") []) pic (fun _ => disk) st.
Lemma pic_sizes : static_sizes static_cache (get (bs "/pic.png") []) pic.
Proof.
  split; [split; [by intros []; vm_compute | done] |]. split; [by vm_compute |].
  unfold identity_ok. split_and!; by vm_compute.
Qed.
Lemma pic_resolved : resolve percent_decode (fun names => names) (site_web (Some static_cache)) (bs "/pic.png") (fun _ => disk) 0%nat = (Ok (Found pic), 4%nat).
Proof. vm_compute. reflexivity. Qed.

(** ** Listings *)

Definition site_listing : DirectoryListing := mkListing (bs "/what?/") [mkEntry (bs "<b>") false (Some 3) None] false.
Lemma listing_markup_fixed_witness :
  markup (render_directory_listing same_text some_date (fun _ => None) site_listing) = page_markup 1.
Proof.
  apply (listing_markup_fixed same_text some_date (fun _ => None) site_listing). intros entry size [-> | H]%elem_of_cons.
  - intros [= <-]. lia.
  - by apply elem_of_nil in H.
Defined.
Lemma site_listed (name : list Z) (id : InodeId) : site !! name = Some id -> is_Some (fs_inodes disk !! id).
Proof.
  unfold site. intros H. repeat (apply lookup_insert_Some in H as [[_ <-] | [_ H]]; [vm_compute; by eexists |]). by rewrite lookup_empty in H.
Qed.
Lemma directory_listing_exact_witness :
  exists listing t', directory_listing (fun names => names) (site_web None) (absolute_path [bs "srv"; bs "www"]) (fun _ => disk) 0%nat
      = (Ok (Listed listing), t')
    /\ li_entries listing ≡ₚ [mkEntry (bs "what?") true None None; mkEntry (bs "pic.png") false (Some 10) (Some (1700000000 * NANOS))].
Proof.
  assert (plain_to disk site_walk) as Hplain by (pose proof site_plain as H; inversion H; done).
  destruct (directory_listing_exact (fun names => names) (fun names => Permutation_refl names) (site_web None) disk site_walk None site Hplain
    ltac:(vm_compute; reflexivity) site_listed [] 0%nat ltac:(vm_compute; reflexivity) ltac:(vm_compute; discriminate)) as (listing & t' & E & Hl).
  exists listing, t'. split; [exact E |]. rewrite Hl. vm_compute. first [reflexivity | apply perm_swap].
Defined.
(** The path of a directory goes into the links of its listing as it is: with a
    question mark in it, a link asks for another path. *)
Lemma listing_link_broken :
  entry_href same_text (directory_listing_path [bs "what?"]) (mkEntry (bs "x") false None None) = bs "/what?/x"
  /\ match http1_request_target (bs "GET") (bs "/what?/x") with
     | Ok (Origin _ path query) => path = bs "/what" /\ query = Some (bs "/x")
     | _ => False
     end.
Proof. by vm_compute. Qed.
