(* ===== verification/PhpScript.v ===== *)
(** * Names and variables of PHP scripts ([fluxheim-php-fpm/src/script.rs], [params.rs])

    Which part of a request path names a script, which names are refused, the
    path of a script as the FastCGI server sees it, and the variables it is
    given. *)
From Stdlib Require Import ZArith Lia Sorting.Sorted.
From stdpp Require Import base list numbers strings sets gmap.
From S2P Require Import Prelude Text HostNames Http1Target RequestHeaders PathSafety FileSystem StaticWeb.

(** ** Names *)

Record PhpScriptName : Type := mkScript {
  ps_script_name : list Z;
  ps_path_info : list Z;
  ps_explicit_php : bool;
}.
Inductive PhpPathInfoMode : Type := PathInfoDisabled | PathInfoSplit.
Inductive PhpTryFilesMode : Type := FrontController | WordPress | Strict.

Definition COLON : Z := 58.
Definition to_ascii_uppercase1 (c : Z) : Z := if is_ascii_lower c then c - 32 else c.
Definition to_ascii_uppercase (s : list Z) : list Z := to_ascii_uppercase1 <$> s.
Definition listed (s : list Z) (names : list (list Z)) : bool := existsb (fun name => bool_decide (s = name)) names.

(** The superscript digits are two bytes each. *)
Definition windows_reserved_php_segment (segment : list Z) : bool :=
  let stem := default [] (head (split_byte 46 segment)) in
  let upper := to_ascii_uppercase stem in
  listed upper [bs "CON"; bs "PRN"; bs "AUX"; bs "NUL"; bs "CONIN$"; bs "CONOUT$"]
  || match (match strip_prefix (bs "COM") upper with Some suffix => Some suffix | None => strip_prefix (bs "LPT") upper end) with
     | Some suffix =>
         match suffix with [c] => between 49 57 c | _ => false end
         || listed suffix [[194; 185]; [194; 178]; [194; 179]]
     | None => false
     end.
Definition valid_php_segment (segment : list Z) (reject_hidden : bool) : bool :=
  negb (bool_decide (segment = [])) && negb (bool_decide (segment = [46])) && negb (bool_decide (segment = [46; 46]))
  && negb (reject_hidden && starts_with [46] segment)
  && negb (ends_with [46] segment || ends_with [SP] segment)
  && negb (contains_byte SLASH segment || contains_byte BACKSLASH segment || contains_byte COLON segment || any_control segment)
  && negb (windows_reserved_php_segment segment).
Definition php_segment_has_allowed_extension (segment : list Z) (allowed_extensions : list (list Z)) : bool :=
  match rsplit_once 46 segment with
  | Some (_, extension) => existsb (eq_ignore_ascii_case extension) allowed_extensions
  | None => false
  end.
(** [for segment in decoded.split('/')]: the segments kept, unless one is refused *)
Fixpoint php_segments (pieces : list (list Z)) : option (list (list Z)) :=
  match pieces with
  | [] => Some []
  | piece :: pieces =>
      if bool_decide (piece = []) || bool_decide (piece = [46]) then php_segments pieces
      else if negb (valid_php_segment piece true) then None
      else let* segments := php_segments pieces in Some (piece :: segments)
  end.
(** The segments up to the first that has an extension of the list, and the rest *)
Fixpoint split_at_script (allowed_extensions : list (list Z)) (segments : list (list Z))
    : option (list (list Z) * list (list Z)) :=
  match segments with
  | [] => None
  | segment :: segments =>
      if php_segment_has_allowed_extension segment allowed_extensions then Some ([segment], segments)
      else let* (script, trailing) := split_at_script allowed_extensions segments in Some (segment :: script, trailing)
  end.

Section Scripts.
Context (percent_decode_str : list Z -> list Z).

Definition php_script_name_for_request (request_path index : list Z) (path_info : PhpPathInfoMode)
    (allowed_extensions : list (list Z)) : option PhpScriptName :=
  let decoded := percent_decode_str request_path in
  if negb (utf8_valid decoded) then None
  else if negb (starts_with [SLASH] decoded) || any_control decoded then None
  else if negb (valid_php_segment index true) then None
  else
    let* segments := php_segments (split_byte SLASH decoded) in
    match split_at_script allowed_extensions segments with
    | Some (script, trailing) =>
        if negb (bool_decide (trailing = [])) && match path_info with PathInfoDisabled => true | PathInfoSplit => false end then None
        else Some (mkScript (SLASH :: join_byte SLASH script)
                     (if bool_decide (trailing = []) then [] else SLASH :: join_byte SLASH trailing) true)
    | None => Some (mkScript (SLASH :: index) [] false)
    end.
End Scripts.

Definition php_script_name_denied (deny_path_prefixes : list (list Z)) (script_name : list Z) : bool :=
  existsb (fun prefix =>
    bool_decide (script_name = prefix)
    || match strip_prefix prefix script_name with
       | Some rest => ends_with [SLASH] prefix || starts_with [SLASH] rest
       | None => false
       end) deny_path_prefixes.
Definition php_should_redirect_directory_index (request_path script_name index : list Z) : bool :=
  if ends_with [SLASH] request_path || contains_byte BACKSLASH request_path then false
  else match strip_suffix (SLASH :: index) script_name with
       | Some parent => negb (bool_decide (parent = [])) && bool_decide (parent = request_path)
       | None => false
       end.
(** The names of a relative path, where all components are plain and valid *)
Fixpoint script_names (reject_hidden : bool) (relative : Path) : option (list (list Z)) :=
  match relative with
  | [] => Some []
  | Normal segment :: relative =>
      if negb (utf8_valid segment) || negb (valid_php_segment segment reject_hidden) then None
      else let* names := script_names reject_hidden relative in Some (segment :: names)
  | _ => None
  end.
Definition slashed (names : list (list Z)) : list Z := concat ((fun name => SLASH :: name) <$> names).
Definition php_static_file_script_name (root local_path : Path) (allowed_extensions : list (list Z)) : option (list Z) :=
  let* relative := path_strip_prefix root local_path in
  let* names := script_names true relative in
  let script_name := slashed names in
  if bool_decide (script_name = []) || negb (php_segment_has_allowed_extension script_name allowed_extensions) then None
  else Some script_name.

(** ** Paths as the FastCGI server sees them *)

(** Roots in the verbatim name space of Windows are rewritten or refused. *)
Definition php_fpm_wire_root (root : list Z) : option (list Z) :=
  match strip_prefix [BACKSLASH; BACKSLASH; 63; BACKSLASH] root with
  | None => if starts_with [BACKSLASH; BACKSLASH; 46; BACKSLASH] root then None else Some root
  | Some verbatim =>
      match strip_prefix (bs "UNC" ++ [BACKSLASH]) verbatim with
      | Some unc =>
          match split_byte BACKSLASH unc with
          | server :: share :: _ =>
              if bool_decide (server = []) || bool_decide (share = []) then None else Some ([BACKSLASH; BACKSLASH] ++ unc)
          | _ => None
          end
      | None =>
          match verbatim with
          | drive :: colon :: separator :: _ =>
              if (is_ascii_upper drive || is_ascii_lower drive) && (colon =? COLON) && ((separator =? BACKSLASH) || (separator =? SLASH))
              then Some verbatim else None
          | _ => None
          end
      end
  end.
(** The loop of [php_fpm_join_wire_path] *)
Fixpoint push_wire_segments (separator : Z) (reject_hidden_segments : bool) (segments : list (option (list Z)))
    (translated : list Z) : option (list Z) :=
  match segments with
  | [] => Some translated
  | segment :: segments =>
      let* segment := segment in
      if negb (valid_php_segment segment reject_hidden_segments) then None
      else
        let translated := if ends_with [SLASH] translated || ends_with [BACKSLASH] translated
                          then translated else translated ++ [separator] in
        push_wire_segments separator reject_hidden_segments segments (translated ++ segment)
  end.
Definition php_fpm_join_wire_path (fpm_root : list Z) (segments : list (option (list Z))) (reject_hidden_segments : bool)
    : option (list Z) :=
  if negb (utf8_valid fpm_root) then None
  else
    let* root := php_fpm_wire_root fpm_root in
    if bool_decide (root = []) || any_control root then None
    else
      let separator := if contains_byte BACKSLASH root && negb (contains_byte SLASH root) then BACKSLASH else SLASH in
      push_wire_segments separator reject_hidden_segments segments root.
Definition wire_segment (component : Component) : option (list Z) :=
  match component with Normal segment => if utf8_valid segment then Some segment else None | _ => None end.
Definition php_fpm_script_filename (root : Path) (fpm_root : list Z) (local_path : Path) : option (list Z) :=
  let* relative := path_strip_prefix root local_path in
  php_fpm_join_wire_path fpm_root (wire_segment <$> relative) false.
Definition php_fpm_path_translated (fpm_root path_info : list Z) : option (list Z) :=
  php_fpm_join_wire_path fpm_root (Some <$> split_byte SLASH (drop_while (fun c => c =? SLASH) path_info)) true.

(** ** Variables *)

Definition MAX_PHP_PARAM_VALUE_BYTES : Z := 16 * 1024.
Definition safe_php_header_name (name : list Z) : bool :=
  negb (bool_decide (name = []))
  && forallb (fun byte => is_ascii_alphanumeric byte || contains_byte byte (bs "!#$%&'*+-.^_`|~")) name.
Definition safe_php_header_value (value : list Z) : bool :=
  forallb (fun byte => (byte =? SP) || (byte =? HT) || between 33 126 byte) value.
Definition safe_php_param_value (value : list Z) : bool :=
  (zlen value <=? MAX_PHP_PARAM_VALUE_BYTES) && forallb (fun byte => negb (control1 byte)) value.
Definition php_header_param_name (name : list Z) : option (list Z) :=
  if eq_ignore_ascii_case name (bs "proxy") || eq_ignore_ascii_case name (bs "content-type")
     || eq_ignore_ascii_case name (bs "content-length") then None
  else if bool_decide (name = []) || negb (forallb (fun byte => is_ascii_alphanumeric byte || (byte =? 45)) name) then None
  else Some (bs "HTTP_" ++ ((fun byte => if byte =? 45 then 95 else to_ascii_uppercase1 byte) <$> name)).
Definition php_server_name_param (host fallback : list Z) : list Z :=
  if safe_php_param_value host && negb (bool_decide (host = [])) then host
  else if safe_php_param_value fallback && negb (bool_decide (fallback = [])) then fallback
  else bs "localhost".

(** A [BTreeMap] as the list of its entries in order; [entry(..).and_modify(..).or_insert_with(..)] *)
Fixpoint btree_entry (name : list Z) (modify : list Z -> list Z) (value : list Z) (entries : list (list Z * list Z))
    : list (list Z * list Z) :=
  match entries with
  | [] => [(name, value)]
  | (n, v) :: rest =>
      if bool_decide (n = name) then (n, modify v) :: rest
      else if bytes_ltb name n then (name, value) :: entries
      else (n, v) :: btree_entry name modify value rest
  end.
(** A further value of a header, where there is room *)
Definition append_param_value (name value existing : list Z) : list Z :=
  let separator := if eq_ignore_ascii_case name (bs "cookie") then bs "; " else bs ", " in
  if saturating_add USIZE_MAX (saturating_add USIZE_MAX (zlen existing) (zlen separator)) (zlen value) <=? MAX_PHP_PARAM_VALUE_BYTES
  then existing ++ separator ++ value else existing.
Fixpoint translate_headers (headers : list header) (translated : list (list Z * list Z)) : list (list Z * list Z) :=
  match headers with
  | [] => translated
  | (name, value) :: headers =>
      match php_header_param_name name with
      | None => translate_headers headers translated
      | Some param_name =>
          if negb (safe_php_param_value value) then translate_headers headers translated
          else translate_headers headers (btree_entry param_name (append_param_value name value) value translated)
      end
  end.
Definition php_request_header_params (headers : list header) : list (list Z * list Z) := translate_headers headers [].
Definition php_host_param (host : list Z) : option (list Z * list Z) :=
  if safe_php_param_value host then Some (bs "HTTP_HOST", host) else None.
Fixpoint join_content_types (values : list (list Z)) (joined : list Z) : list Z :=
  match values with
  | [] => joined
  | value :: values =>
      if negb (safe_php_param_value value) then []
      else
        let next_len := if bool_decide (joined = []) then zlen value
                        else saturating_add USIZE_MAX (saturating_add USIZE_MAX (zlen joined) 2) (zlen value) in
        if MAX_PHP_PARAM_VALUE_BYTES <? next_len then []
        else join_content_types values (if bool_decide (joined = []) then value else joined ++ bs ", " ++ value)
  end.
Definition php_content_type_param_value (values : list (list Z)) : list Z := join_content_types values [].

(** [config_php_validation.rs]: names the configuration cannot set *)
Definition PROTECTED_PHP_PARAMS : list (list Z) :=
  [bs "AUTH_TYPE"; bs "CONTENT_LENGTH"; bs "CONTENT_TYPE"; bs "DOCUMENT_ROOT"; bs "DOCUMENT_URI"; bs "GATEWAY_INTERFACE";
   bs "HTTPS"; bs "HTTP_HOST"; bs "HTTP_PROXY"; bs "PATH_INFO"; bs "PATH_TRANSLATED"; bs "PHP_ADMIN_VALUE"; bs "PHP_VALUE";
   bs "QUERY_STRING"; bs "REDIRECT_STATUS"; bs "REMOTE_ADDR"; bs "REMOTE_PORT"; bs "REQUEST_METHOD"; bs "REQUEST_SCHEME";
   bs "REQUEST_URI"; bs "SCRIPT_FILENAME"; bs "SCRIPT_NAME"; bs "SERVER_ADDR"; bs "SERVER_NAME"; bs "SERVER_PORT";
   bs "SERVER_PROTOCOL"; bs "SERVER_SOFTWARE"].
Definition protected_php_param_name (name : list Z) : bool := listed name PROTECTED_PHP_PARAMS.
Definition MAX_PHP_PARAM_NAME_BYTES : Z := 128.
Definition validate_php_param_name (name : list Z) : bool :=
  negb (bool_decide (name = []) || (MAX_PHP_PARAM_NAME_BYTES <? zlen name))
  && forallb (fun byte => is_ascii_upper byte || is_ascii_digit byte || (byte =? 95)) name
  && match name with byte :: _ => negb (is_ascii_digit byte) | [] => true end
  && negb (starts_with (bs "HTTP_") name)
  && negb (protected_php_param_name name).
Definition php_custom_params (custom : list (list Z * list Z)) : list (list Z * list Z) * list (list Z) :=
  let dropped p := protected_php_param_name p.1 || negb (safe_php_param_value p.2) in
  (List.filter (fun p => negb (dropped p)) custom, fst <$> List.filter dropped custom).

(** ** Scripts that may run *)

Lemma path_strip_prefix_Some root p relative : path_strip_prefix root p = Some relative <-> p = root ++ relative.
Proof.
  unfold path_strip_prefix, path_starts_with. case_bool_decide as E; split.
  - intros [= <-]. rewrite <- E at 1. by rewrite take_drop.
  - intros ->. by rewrite drop_app_length.
  - done.
  - intros ->. by rewrite take_app_length in E.
Qed.
Lemma script_names_Some reject_hidden relative names :
  script_names reject_hidden relative = Some names ->
  relative = Normal <$> names /\ Forall (fun name => utf8_valid name = true /\ valid_php_segment name reject_hidden = true) names.
Proof.
  revert names. induction relative as [| c relative IH]; intros names; cbn [script_names]; [by intros [= <-] |].
  destruct c as [| | | segment]; try done. destruct (negb _ || negb _) eqn:E; [done |].
  apply orb_false_iff in E as [E1%negb_false_iff E2%negb_false_iff].
  destruct (script_names reject_hidden relative) as [rest |]; [| done]. intros [= <-].
  destruct (IH rest eq_refl) as [-> Hf]. split; [done |]. by apply Forall_cons.
Qed.
Lemma valid_segment_no_slash segment reject_hidden : valid_php_segment segment reject_hidden = true -> segment <> [] /\ (SLASH ∉ segment).
Proof.
  unfold valid_php_segment. intros H. repeat (apply andb_true_iff in H as [H ?]).
  repeat match goal with H : negb _ = true |- _ => apply negb_true_iff in H end.
  split; [by apply bool_decide_eq_false in H |]. apply contains_byte_false.
  match goal with H : _ || _ || _ || _ = false |- _ => by repeat (apply orb_false_iff in H as [H _]) end.
Qed.
Lemma rsplit_once_Some c s l r : rsplit_once c s = Some (l, r) <-> s = l ++ c :: r /\ (c ∉ r).
Proof.
  unfold rsplit_once. destruct (split_once c (rev s)) as [[r' l'] |] eqn:E.
  - apply split_once_Some in E as [E Hc]. apply (f_equal (@rev _)) in E. rewrite rev_involutive, rev_app_distr in E. cbn [rev] in E.
    rewrite <- app_assoc in E. cbn [app] in E. split.
    + intros [= <- <-]. split; [done |]. by rewrite list_elem_of_In, <- in_rev, <- list_elem_of_In.
    + intros [E' Hr]. assert (split_once c (rev s) = Some (rev r, rev l)) as Ho.
      { apply split_once_Some. rewrite E', rev_app_distr. cbn [rev]. rewrite <- app_assoc. split; [done |].
        by rewrite list_elem_of_In, <- in_rev, <- list_elem_of_In. }
      assert (split_once c (rev s) = Some (r', l')) as Ho' by (apply split_once_Some; rewrite E, rev_app_distr; cbn [rev]; rewrite <- app_assoc, !rev_involutive; done).
      rewrite Ho in Ho'. injection Ho' as <- <-. by rewrite !rev_involutive.
  - split; [done |]. intros [-> Hr]. apply split_once_None in E. exfalso. apply E.
    rewrite rev_app_distr. cbn [rev]. rewrite !elem_of_app, list_elem_of_singleton. tauto.
Qed.
Lemma slashed_snoc names name : slashed (names ++ [name]) = slashed names ++ SLASH :: name.
Proof. unfold slashed. rewrite fmap_app, concat_app. cbn [fmap list_fmap concat]. by rewrite app_nil_r. Qed.
(** The extension of a path is that of its last name, where no extension has a slash. *)
Lemma slashed_extension names allowed :
  Forall (fun e => SLASH ∉ e) allowed ->
  php_segment_has_allowed_extension (slashed names) allowed = true ->
  exists parents name, names = parents ++ [name] /\ php_segment_has_allowed_extension name allowed = true.
Proof.
  intros Ha. destruct names as [| name names _] using rev_ind; [done |]. intros H. exists names, name. split; [done |].
  revert H. unfold php_segment_has_allowed_extension.
  destruct (rsplit_once 46 (slashed (names ++ [name]))) as [[l ext] |] eqn:E; [| done]. intros He.
  apply rsplit_once_Some in E as [E Hdot]. rewrite slashed_snoc in E.
  assert (SLASH ∉ ext) as Hext.
  { apply existsb_exists in He as (a & Hin & Heq). rewrite Forall_forall in Ha. apply list_elem_of_In, Ha in Hin.
    unfold eq_ignore_ascii_case in Heq. apply bool_decide_eq_true in Heq. intros Hs. apply Hin.
    assert (SLASH ∈ to_ascii_lowercase a) as Hl by (rewrite <- Heq; apply list_elem_of_fmap; by exists SLASH).
    apply list_elem_of_fmap in Hl as (x & Hx & Hxin). unfold to_ascii_lowercase1, is_ascii_upper, between in Hx.
    destruct ((65 <=? x) && (x <=? 90)) eqn:Eb; [breflect; unfold SLASH in Hx; lia | by subst]. }
  assert (exists l', name = l' ++ 46 :: ext) as [l' ->].
  { apply app_eq_inv in E as [(k & E1 & E2) | (k & E1 & E2)].
    - destruct k as [| x k]; [cbn in E2; unfold SLASH in E2; discriminate |]. injection E2 as _ E2. exfalso. apply Hext. rewrite E2, elem_of_app. right. by left.
    - destruct k as [| x k]; [cbn in E2; unfold SLASH in E2; discriminate |]. injection E2 as _ E2. by exists k. }
  rewrite (proj2 (rsplit_once_Some 46 (l' ++ 46 :: ext) l' ext)) by done. done.
Qed.

(** ** Variables from headers *)

(** The bytes of a header name, read back from its variable *)
Definition unparam1 (c : Z) : Z := if c =? 95 then 45 else to_ascii_lowercase1 c.
Lemma php_header_param_name_Some name p :
  php_header_param_name name = Some p -> exists suffix, p = bs "HTTP_" ++ suffix /\ to_ascii_lowercase name = unparam1 <$> suffix.
Proof.
  unfold php_header_param_name. destruct (_ || _); [done |]. destruct (bool_decide _ || _) eqn:E; [done |]. intros H.
  apply (inj Some) in H. subst p. eexists. split; [reflexivity |]. apply orb_false_iff in E as [_ E%negb_false_iff].
  unfold to_ascii_lowercase. rewrite <- list_fmap_compose. apply list_fmap_ext. intros i c Hc. apply list_elem_of_lookup_2 in Hc. cbn [compose].
  rewrite forallb_forall in E. pose proof (E c (proj1 (list_elem_of_In _ _) Hc)) as Ec. clear E. rename Ec into E.
  unfold unparam1, to_ascii_lowercase1, to_ascii_uppercase1, is_ascii_alphanumeric, is_ascii_digit, is_ascii_upper, is_ascii_lower, between in *.
  destruct (Z.eqb_spec c 45) as [-> |]; [done |]. rewrite orb_false_r in E.
  destruct ((97 <=? c) && (c <=? 122)) eqn:El.
  - breflect. repeat match goal with
                     | |- context [Z.leb ?a ?b] => destruct (Z.leb_spec a b)
                     | |- context [Z.eqb ?a ?b] => destruct (Z.eqb_spec a b)
                     end; cbn [andb]; lia.
  - destruct (Z.eqb_spec c 95) as [-> |]; [by vm_compute in E | done].
Qed.
(** Headers that differ in more than case never share a variable. *)
Lemma php_header_param_name_inj a b p :
  php_header_param_name a = Some p -> php_header_param_name b = Some p -> eq_ignore_ascii_case a b = true.
Proof.
  intros (s & -> & Ea)%php_header_param_name_Some (s' & E & Eb)%php_header_param_name_Some. apply app_inv_head in E as ->.
  unfold eq_ignore_ascii_case. apply bool_decide_eq_true. congruence.
Qed.
(** No header becomes the variable by which libraries choose a proxy. *)
Lemma php_header_not_proxy name : php_header_param_name name <> Some (bs "HTTP_PROXY").
Proof.
  intros H. pose proof H as (s & E & El)%php_header_param_name_Some. change (bs "HTTP_PROXY") with (bs "HTTP_" ++ bs "PROXY") in E.
  apply app_inv_head in E as <-. revert H. unfold php_header_param_name.
  assert (eq_ignore_ascii_case name (bs "proxy") = true) as ->; [| done]. unfold eq_ignore_ascii_case. apply bool_decide_eq_true. by rewrite El.
Qed.

Lemma bytes_ltb_irrefl a : bytes_ltb a a = false.
Proof. induction a as [| x a IH]; [done |]. cbn [bytes_ltb]. by rewrite Z.ltb_irrefl. Qed.
Lemma bytes_ltb_trans a b c : bytes_ltb a b = true -> bytes_ltb b c = true -> bytes_ltb a c = true.
Proof.
  revert b c. induction a as [| x a IH]; intros [| y b] [| z c]; cbn [bytes_ltb]; try done.
  destruct (Z.ltb_spec x y), (Z.ltb_spec y x), (Z.ltb_spec y z), (Z.ltb_spec z y), (Z.ltb_spec x z), (Z.ltb_spec z x); try done; try lia.
  apply IH.
Qed.
Lemma bytes_ltb_total a b : bytes_ltb a b = false -> a <> b -> bytes_ltb b a = true.
Proof.
  revert b. induction a as [| x a IH]; intros [| y b]; cbn [bytes_ltb]; try done.
  destruct (Z.ltb_spec x y), (Z.ltb_spec y x); try done; try lia. assert (x = y) as -> by lia. intros H1 Hne. apply IH; congruence.
Qed.

(** The value a list of variables leaves for a name: the last one *)
Definition last_value (name : list Z) (params : list (list Z * list Z)) : option (list Z) :=
  last (snd <$> List.filter (fun p => bool_decide (p.1 = name)) params).
Lemma last_value_app name a b :
  last_value name (a ++ b) = match last_value name b with Some value => Some value | None => last_value name a end.
Proof.
  unfold last_value. rewrite List.filter_app, fmap_app.
  destruct (snd <$> List.filter _ b) as [| x l _] using rev_ind; [by rewrite app_nil_r |]. by rewrite app_assoc, !last_snoc.
Qed.
Lemma last_value_cons name n v params :
  last_value name ((n, v) :: params) = match last_value name params with Some value => Some value | None => if bool_decide (n = name) then Some v else None end.
Proof. change ((n, v) :: params) with ([(n, v)] ++ params). rewrite last_value_app. unfold last_value at 2. cbn. by destruct (bool_decide (n = name)). Qed.
Lemma last_value_none name params : Forall (fun p => p.1 <> name) params -> last_value name params = None.
Proof.
  induction 1 as [| [n v] params Hn _ IH]; [done |]. rewrite last_value_cons, IH, bool_decide_false by done. done.
Qed.
Lemma last_value_elem name params value : last_value name params = Some value -> (name, value) ∈ params.
Proof.
  induction params as [| [n v] params IH]; [done |]. rewrite last_value_cons, elem_of_cons. destruct (last_value name params); [by right; auto |].
  case_bool_decide; [| done]. intros [= <-]. left. by subst.
Qed.

(** *** The map of headers *)

Definition keys_sorted (entries : list (list Z * list Z)) : Prop := StronglySorted (fun a b => bytes_ltb a.1 b.1 = true) entries.
Lemma keys_sorted_cons p entries : keys_sorted (p :: entries) <-> keys_sorted entries /\ Forall (fun q => bytes_ltb p.1 q.1 = true) entries.
Proof. unfold keys_sorted. split; [by inversion 1 | intros [? ?]; by constructor]. Qed.
Lemma sorted_head_value n v entries name :
  keys_sorted ((n, v) :: entries) -> bytes_ltb name n = true \/ name = n -> last_value name entries = None.
Proof.
  intros [_ Hf]%keys_sorted_cons Hlt. apply last_value_none. eapply Forall_impl; [exact Hf |]. cbn. intros [m w]. cbn. intros Hm ->.
  destruct Hlt as [Hlt | ->]; [| by rewrite bytes_ltb_irrefl in Hm].
  pose proof (bytes_ltb_trans _ _ _ Hlt Hm) as H. by rewrite bytes_ltb_irrefl in H.
Qed.
Lemma btree_entry_keys name modify value entries key :
  key ∈ (btree_entry name modify value entries).*1 -> key = name \/ key ∈ entries.*1.
Proof.
  induction entries as [| [n v] entries IH]; cbn [btree_entry]; [cbn; rewrite list_elem_of_singleton; by left |].
  case_bool_decide; [cbn; tauto |]. destruct (bytes_ltb name n); cbn; rewrite ?elem_of_cons; [tauto |]. intros [-> | Hin]; [tauto |]. destruct (IH Hin); tauto.
Qed.
Lemma btree_entry_sorted name modify value entries : keys_sorted entries -> keys_sorted (btree_entry name modify value entries).
Proof.
  induction entries as [| [n v] entries IH]; intros Hs; cbn [btree_entry]; [apply keys_sorted_cons; by split; [constructor |] |].
  pose proof (proj1 (keys_sorted_cons _ _) Hs) as [Hs' Hf]. case_bool_decide as E; [apply keys_sorted_cons; by split |].
  destruct (bytes_ltb name n) eqn:El.
  - apply keys_sorted_cons. split; [done |]. apply Forall_cons. split; [done |]. eapply Forall_impl; [exact Hf |]. cbn.
    intros [m w] Hm. cbn in *. by eapply bytes_ltb_trans.
  - apply keys_sorted_cons. split; [by apply IH |]. apply Forall_forall. intros [m w] Hin. cbn.
    assert (m ∈ (btree_entry name modify value entries).*1) as Hk by (apply list_elem_of_fmap; by exists (m, w)).
    apply btree_entry_keys in Hk as [-> | Hk]; [apply bytes_ltb_total; [done | congruence] |].
    apply list_elem_of_fmap in Hk as ([m' w'] & -> & Hin'). rewrite Forall_forall in Hf. by apply (Hf (m', w')).
Qed.
Lemma btree_entry_value name modify value entries key :
  keys_sorted entries ->
  last_value key (btree_entry name modify value entries)
  = if bool_decide (key = name) then Some (match last_value name entries with Some old => modify old | None => value end)
    else last_value key entries.
Proof.
  induction entries as [| [n v] entries IH]; intros Hs; cbn [btree_entry].
  { rewrite last_value_cons. cbn. rewrite (bool_decide_ext (name = key) (key = name)) by done. by case_bool_decide. }
  pose proof (proj1 (keys_sorted_cons _ _) Hs) as [Hs' Hf]. destruct (decide (n = name)) as [E | E].
  - subst n. rewrite (bool_decide_true (name = name)) by done. rewrite !last_value_cons. rewrite (bool_decide_true (name = name)) by done.
    rewrite (sorted_head_value _ _ _ name Hs) by (by right). rewrite (bool_decide_ext (name = key) (key = name)) by done.
    case_bool_decide as Ek; [subst key; by rewrite (sorted_head_value _ _ _ name Hs) by (by right) | done].
  - rewrite (bool_decide_false (n = name)) by done. destruct (bytes_ltb name n) eqn:El.
    + assert (last_value name ((n, v) :: entries) = None) as Hnone.
      { rewrite last_value_cons, (sorted_head_value _ _ _ name Hs) by (by left). by rewrite bool_decide_false. }
      rewrite (last_value_cons key name). rewrite (bool_decide_ext (name = key) (key = name)) by done.
      case_bool_decide as Ek; [subst key; by rewrite Hnone |]. by destruct (last_value key ((n, v) :: entries)).
    + rewrite (last_value_cons key n), IH, (last_value_cons key n), (last_value_cons name n) by done. rewrite (bool_decide_false (n = name)) by done.
      case_bool_decide; [| done]. by destruct (last_value name entries).
Qed.

(** The headers that make a variable, and its value: theirs, joined as far as there is room *)
Definition param_headers (p : list Z) (headers : list header) : list header :=
  List.filter (fun h => bool_decide (php_header_param_name h.1 = Some p) && safe_php_param_value h.2) headers.
Definition join_param (headers : list header) (value : list Z) : list Z :=
  fold_left (fun value h => append_param_value h.1 h.2 value) headers value.
Definition header_param (p : list Z) (headers : list header) : option (list Z) :=
  match param_headers p headers with [] => None | h :: rest => Some (join_param rest h.2) end.
Lemma translate_headers_value p headers translated :
  keys_sorted translated ->
  last_value p (translate_headers headers translated)
  = match last_value p translated with Some value => Some (join_param (param_headers p headers) value) | None => header_param p headers end.
Proof.
  unfold header_param, param_headers. revert translated. induction headers as [| [name value] headers IH]; intros translated Hs; cbn [translate_headers List.filter].
  { by destruct (last_value p translated). }
  cbn [fst snd]. destruct (php_header_param_name name) as [q |] eqn:Eq; [| rewrite bool_decide_false by done; by apply IH].
  destruct (safe_php_param_value value) eqn:Es; cbn [negb]; [| rewrite andb_false_r; by apply IH].
  rewrite IH by by apply btree_entry_sorted. rewrite btree_entry_value by done. rewrite andb_true_r.
  rewrite (bool_decide_ext (Some q = Some p) (p = q)) by naive_solver. case_bool_decide as E; [| done]. subst q.
  by destruct (last_value p translated).
Qed.
Lemma header_params_value p headers : last_value p (php_request_header_params headers) = header_param p headers.
Proof. unfold php_request_header_params. by rewrite translate_headers_value by constructor. Qed.
Lemma header_param_http p headers value : header_param p headers = Some value -> exists name, php_header_param_name name = Some p.
Proof.
  unfold header_param. destruct (param_headers p headers) as [| h rest] eqn:E; [done |]. intros _. exists h.1.
  assert (h ∈ param_headers p headers) as Hin by (rewrite E; by left). unfold param_headers in Hin.
  apply list_elem_of_In, filter_In in Hin as [_ [Hp _]%andb_true_iff]. by apply bool_decide_eq_true in Hp.
Qed.
