(* ===== verification/PhpResponse.v ===== *)
(** * Responses of PHP scripts ([fluxheim-php-fpm/src/response.rs], [response_stream.rs], [native_http1_php/response.rs])

    What a FastCGI server sends is collected within a limit, split into headers
    and body, checked, and turned into the response for the client. *)
From Stdlib Require Import ZArith Lia.
From stdpp Require Import base list numbers strings sets gmap.
From S2P Require Import Prelude Text ProxyProtocol HostNames Headers Http1Target Http1Head Http1HeadProps RequestHeaders UpstreamRequest UpstreamResponse ResponseRelay CachePurge MemoryCache PathSafety Cors RouteProxy FileSystem StaticWeb StaticResponse PhpScript.

(** ** Configuration ([config_php.rs]) *)

Record PhpFpmConfig : Type := mkFpmConfig {
  fc_socket : option (list Z);
  fc_tcp : option (list Z);
  fc_tcp_upstreams : list (list Z);
  fc_keepalive : bool;
  fc_pool_max_idle : Z;
  fc_idle_timeout_secs : Z;
  fc_max_retries : Z;
  fc_retry_timeout_secs : option Z;
  fc_retry_methods : list (list Z);
  fc_retry_invalid_response : bool;
  fc_retry_statuses : list Z;
}.
Record ProxyErrorPageConfig : Type := mkErrorPage {
  ep_status : Z;
  ep_path : list Z;
  ep_web : WebConfig;
}.
Record PhpConfig : Type := mkPhpConfig {
  pc_enabled : bool;
  pc_root : option (list Z);
  pc_resolve_root_symlink : bool;
  pc_fpm_root : option (list Z);
  pc_index : list Z;
  pc_allowed_extensions : list (list Z);
  pc_deny_path_prefixes : list (list Z);
  pc_max_request_body_bytes : option Z;
  pc_request_body_spool_threshold_bytes : option Z;
  pc_request_body_spool_dir : option (list Z);
  pc_max_response_bytes : Z;
  pc_max_response_header_bytes : Z;
  pc_path_info : PhpPathInfoMode;
  pc_try_files : PhpTryFilesMode;
  pc_pass_request_headers : bool;
  pc_pass_request_body : bool;
  pc_server_port : option Z;
  pc_stderr_failure_patterns : list (list Z);
  pc_hide_response_headers : list (list Z);
  pc_ignore_origin_cache_headers : bool;
  pc_intercept_error_statuses : list Z;
  pc_error_pages : list ProxyErrorPageConfig;
  pc_params : list (list Z * list Z);
  pc_fpm : PhpFpmConfig;
}.

(** ** Collecting *)

Inductive FpmContent : Type := Stdout (chunk : list Z) | Stderr (chunk : list Z).
(** What the stream of the FastCGI client yields: content, or an error. *)
Abbreviation FpmEvent := (option FpmContent).
Record FpmResponse : Type := mkFpmResponse {
  fr_stdout : option (list Z);
  fr_stderr : option (list Z);
}.
(** [io::ErrorKind], as far as it is looked at, with the kind of a timeout *)
Inductive FpmError : Type :=
| ConnectTimedOut | RequestTimedOut | OtherTimedOut
| ConnectionRefused | ConnectionReset | ConnectionAborted | BrokenPipe | NotConnected | AddrInUse | AddrNotAvailable
| FpmNotFound | FpmUnexpectedEof | FpmInvalidInput | FpmInvalidData | FpmOther.
#[export] Instance fpm_error_eq_dec : EqDecision FpmError.
Proof. solve_decision. Defined.

Definition push_php_fpm_stream_chunk (target chunk : list Z) (total_bytes max_response_bytes : Z) : result (list Z * Z) FpmError :=
  match checked_add U64_MAX total_bytes (zlen chunk) with
  | None => Err FpmInvalidData
  | Some next_total =>
      if max_response_bytes <? next_total then Err FpmInvalidData else Ok (target ++ chunk, next_total)
  end.
Fixpoint collect_contents (stream : list FpmEvent) (max_response_bytes : Z) (stdout stderr : list Z) (total_bytes : Z)
    : result (list Z * list Z) FpmError :=
  match stream with
  | [] => Ok (stdout, stderr)
  | None :: _ => Err FpmOther
  | Some (Stdout chunk) :: stream =>
      let? (stdout, total_bytes) := push_php_fpm_stream_chunk stdout chunk total_bytes max_response_bytes in
      collect_contents stream max_response_bytes stdout stderr total_bytes
  | Some (Stderr chunk) :: stream =>
      let? (stderr, total_bytes) := push_php_fpm_stream_chunk stderr chunk total_bytes max_response_bytes in
      collect_contents stream max_response_bytes stdout stderr total_bytes
  end.
Definition non_empty (s : list Z) : option (list Z) := if bool_decide (s = []) then None else Some s.
Definition collect_php_fpm_response_stream (stream : list FpmEvent) (max_response_bytes : Z) : result FpmResponse FpmError :=
  let? (stdout, stderr) := collect_contents stream max_response_bytes [] [] 0 in
  Ok (mkFpmResponse (non_empty stdout) (non_empty stderr)).

(** ** Parsing *)

Definition split_php_response (stdout : list Z) : result (list Z * list Z) FpmError :=
  match find_sub (crlf ++ crlf) stdout with
  | Some index => Ok (ztake index stdout, zdrop (index + 4) stdout)
  | None =>
      match find_sub [LF; LF] stdout with
      | Some index => Ok (ztake index stdout, zdrop (index + 2) stdout)
      | None => Err FpmInvalidData
      end
  end.
Record ParsedPhpResponse : Type := mkParsed {
  pp_status : Z;
  pp_headers : list header;
  pp_body : list Z;
}.
Definition trim_ascii_cr (value : list Z) : list Z := default value (strip_suffix [CR] value).
Definition blank (c : Z) : bool := (c =? SP) || (c =? HT).
Definition trim_ascii (value : list Z) : list Z := trim_matches blank value.
Definition split_first_colon (value : list Z) : option (list Z * list Z) := split_once COLON value.
Definition parse_php_status (value : list Z) : result Z FpmError :=
  if negb (utf8_valid value) then Err FpmInvalidData
  else match head (split_whitespace value) with
       | None => Err FpmInvalidData
       | Some text =>
           match parse_uint U16_MAX text with
           | None => Err FpmInvalidData
           | Some status => if between 100 599 status then Ok status else Err FpmInvalidData
           end
       end.
Fixpoint parse_php_lines (lines : list (list Z)) (status : Z) (headers : list header) : result (Z * list header) FpmError :=
  match lines with
  | [] => Ok (status, headers)
  | line :: lines =>
      let line := trim_ascii_cr line in
      if bool_decide (line = []) then parse_php_lines lines status headers
      else
        match split_first_colon line with
        | None => Err FpmInvalidData
        | Some (name, value) =>
            let name := trim_ascii name in
            let value := trim_ascii value in
            if negb (safe_php_header_name name) || negb (safe_php_header_value value) then Err FpmInvalidData
            else if eq_ignore_ascii_case name (bs "status") then
              let? status := parse_php_status value in parse_php_lines lines status headers
            else parse_php_lines lines status (headers ++ [(name, value)])
        end
  end.
Definition parse_php_response (stdout : list Z) (max_response_bytes max_response_header_bytes : Z)
    : result ParsedPhpResponse FpmError :=
  if max_response_bytes <? zlen stdout then Err FpmInvalidData
  else
    let? (header_bytes, body) := split_php_response stdout in
    if max_response_header_bytes <? zlen header_bytes then Err FpmInvalidData
    else
      let? (status, headers) := parse_php_lines (split_byte LF header_bytes) 200 [] in
      Ok (mkParsed status headers body).

(** ** The response for the client *)

Definition PHP_HOP_BY_HOP_RESPONSE_HEADERS : list (list Z) :=
  [bs "connection"; bs "keep-alive"; bs "proxy-authenticate"; bs "proxy-authorization"; bs "te"; bs "trailer";
   bs "transfer-encoding"; bs "upgrade"].
Definition PHP_STATIC_OFFLOAD_RESPONSE_HEADERS : list (list Z) := [bs "x-accel-redirect"; bs "x-sendfile"].
Definition php_response_headers_to_strip (connection_values hide_response_headers : list (list Z)) : list (list Z) :=
  PHP_HOP_BY_HOP_RESPONSE_HEADERS
  ++ List.filter http_token_valid (trim <$> concat (split_byte 44 <$> connection_values))
  ++ hide_response_headers.
Definition php_should_intercept_error_status (status : Z) (error_page_statuses intercept_error_statuses : list Z) : bool :=
  existsb (fun page => page =? status) error_page_statuses || existsb (fun s => s =? status) intercept_error_statuses.
Definition native_php_response_header_stripped (name : list Z) (headers_to_strip : list (list Z)) : bool :=
  eq_ignore_ascii_case name (bs "content-length") || eq_ignore_ascii_case name (bs "x-accel-expires")
  || existsb (eq_ignore_ascii_case name) PHP_STATIC_OFFLOAD_RESPONSE_HEADERS
  || existsb (eq_ignore_ascii_case name) headers_to_strip.
Definition native_php_status_reason (status : Z) : list Z :=
  let texts := [(100, bs "Continue"); (101, bs "Switching Protocols"); (200, bs "OK"); (201, bs "Created"); (202, bs "Accepted");
                (204, bs "No Content"); (206, bs "Partial Content"); (301, bs "Moved Permanently"); (302, bs "Found");
                (304, bs "Not Modified"); (307, bs "Temporary Redirect"); (308, bs "Permanent Redirect");
                (400, bs "Bad Request"); (401, bs "Unauthorized"); (403, bs "Forbidden"); (404, bs "Not Found");
                (405, bs "Method Not Allowed"); (409, bs "Conflict"); (410, bs "Gone"); (412, bs "Precondition Failed");
                (413, bs "Payload Too Large"); (416, bs "Range Not Satisfiable"); (429, bs "Too Many Requests");
                (500, bs "Internal Server Error"); (502, bs "Bad Gateway"); (503, bs "Service Unavailable"); (504, bs "Gateway Timeout")] in
  default [] (snd <$> List.find (fun p => p.1 =? status) texts).
Record NativePhpResponsePlan : Type := mkPhpPlan {
  npl_response : NativeHttp1Response;
  npl_intercept_status : option Z;
}.
Definition native_php_response_plan (stdout : list Z) (php : PhpConfig) (request_method : list Z)
    : result NativePhpResponsePlan FpmError :=
  let? parsed := parse_php_response stdout (pc_max_response_bytes php) (pc_max_response_header_bytes php) in
  let connection_values := snd <$> List.filter (fun h => eq_ignore_ascii_case h.1 (bs "connection")) (pp_headers parsed) in
  let headers_to_strip := php_response_headers_to_strip connection_values (pc_hide_response_headers php) in
  let body := if eq_ignore_ascii_case request_method (bs "HEAD") then [] else pp_body parsed in
  let response := with_content_length (zlen (pp_body parsed)) (new_response (pp_status parsed) (native_php_status_reason (pp_status parsed)) body) in
  let response := fold_left (fun response h => push_response_header h.1 h.2 response)
                    (List.filter (fun h => negb (native_php_response_header_stripped h.1 headers_to_strip)) (pp_headers parsed)) response in
  let response := if pc_ignore_origin_cache_headers php
                  then remove_response_header (bs "pragma") (remove_response_header (bs "expires") (remove_response_header (bs "cache-control") response))
                  else response in
  Ok (mkPhpPlan response
        (if php_should_intercept_error_status (pp_status parsed) (ep_status <$> pc_error_pages php) (pc_intercept_error_statuses php)
         then Some (pp_status parsed) else None)).

(** ** Collecting is exact *)

Definition stdout_of (e : FpmEvent) : list Z := match e with Some (Stdout chunk) => chunk | _ => [] end.
Definition stderr_of (e : FpmEvent) : list Z := match e with Some (Stderr chunk) => chunk | _ => [] end.
Definition contents (stream : list FpmEvent) : Z :=
  zlen (concat (stdout_of <$> stream)) + zlen (concat (stderr_of <$> stream)).

Lemma contents_cons e stream : contents (e :: stream) = zlen (stdout_of e) + zlen (stderr_of e) + contents stream.
Proof. unfold contents. cbn [fmap list_fmap concat]. rewrite !zlen_app. lia. Qed.
Lemma contents_nonneg stream : 0 <= contents stream.
Proof. unfold contents. pose proof (zlen_nonneg (concat (stdout_of <$> stream))). pose proof (zlen_nonneg (concat (stderr_of <$> stream))). lia. Qed.
Lemma push_chunk_ok target chunk total max target' total' :
  0 <= total -> max <= U64_MAX ->
  push_php_fpm_stream_chunk target chunk total max = Ok (target', total')
  <-> target' = target ++ chunk /\ total' = total + zlen chunk /\ total + zlen chunk <= max.
Proof.
  intros Ht Hm. pose proof (zlen_nonneg chunk). unfold push_php_fpm_stream_chunk, checked_add.
  destruct (Z.leb_spec (total + zlen chunk) U64_MAX); [| split; [done | intros (_ & _ & ?); lia]].
  destruct (Z.ltb_spec max (total + zlen chunk)); split; naive_solver lia.
Qed.
Lemma collect_contents_ok stream max stdout stderr total r :
  0 <= total -> max <= U64_MAX ->
  collect_contents stream max stdout stderr total = Ok r
  <-> Forall is_Some stream /\ (total <= max -> total + contents stream <= max) /\ (stream <> [] -> total + contents stream <= max)
      /\ r = (stdout ++ concat (stdout_of <$> stream), stderr ++ concat (stderr_of <$> stream)).
Proof.
  intros Ht Hm. revert stdout stderr total Ht. induction stream as [| e stream IH]; intros stdout stderr total Ht.
  { assert (contents [] = 0) as -> by done. cbn. rewrite !app_nil_r. split; [intros [= <-]; split_and!; [done | lia | done | done] | by intros (_ & _ & _ & ->)]. }
  pose proof (contents_nonneg stream) as Hn. rewrite contents_cons, Forall_cons. destruct e as [[chunk | chunk] |].
  1,2: cbn [collect_contents stdout_of stderr_of fmap list_fmap concat]; rewrite zlen_nil; pose proof (zlen_nonneg chunk);
    destruct (push_php_fpm_stream_chunk _ chunk total max) as [[target total'] | e] eqn:E; cycle 1;
    [ split; [done |]; intros (_ & _ & Hle & _); exfalso; specialize (Hle (fun H => nil_cons (eq_sym H))); unfold push_php_fpm_stream_chunk, checked_add in E;
      destruct (Z.leb_spec (total + zlen chunk) U64_MAX); [| lia];
      destruct (Z.ltb_spec max (total + zlen chunk)); [lia | done]
    | apply push_chunk_ok in E as (-> & -> & Hle); [| done | done]; rewrite IH by lia; cbn [app]; rewrite <- !app_assoc;
      split; [intros (? & Hc & _ & ->); specialize (Hc ltac:(lia)); split_and!; [by eexists | done | lia | lia | done]
             | intros ([_ ?] & _ & Hc & ->); specialize (Hc (fun H => nil_cons (eq_sym H))); split_and!; [done | lia | lia | done]]].
  cbn [collect_contents]. split; [done | intros ([[x ?] _] & _); done].
Qed.
(** The answer of a FastCGI server is collected exactly when nothing goes wrong
    and both streams together are within the limit, and then it is all of it. *)
Lemma collect_exact stream max r :
  0 <= max <= U64_MAX ->
  collect_php_fpm_response_stream stream max = Ok r
  <-> Forall is_Some stream /\ contents stream <= max
      /\ r = mkFpmResponse (non_empty (concat (stdout_of <$> stream))) (non_empty (concat (stderr_of <$> stream))).
Proof.
  intros Hm. unfold collect_php_fpm_response_stream.
  destruct (collect_contents stream max [] [] 0) as [[stdout stderr] | e] eqn:E.
  - apply collect_contents_ok in E as (Hf & Hc & _ & [= -> ->]); [| lia | lia]. specialize (Hc ltac:(lia)). cbn [app].
    split; [intros [= <-]; done | intros (_ & _ & ->); done].
  - split; [done |]. intros (Hf & Hc & _). exfalso.
    assert (collect_contents stream max [] [] 0 = Ok (concat (stdout_of <$> stream), concat (stderr_of <$> stream))) as E'; [| congruence].
    apply collect_contents_ok; [lia | lia | split_and!; [done | lia | lia | done]].
Qed.

(** ** What is parsed is safe *)

(** A header with a safe name and a safe value without blanks around it *)
Definition php_header_ok (h : header) : Prop :=
  safe_php_header_name h.1 = true /\ safe_php_header_value h.2 = true /\ trimmed h.2.

Lemma drop_while_head f s : match drop_while f s with c :: _ => f c = false | [] => True end.
Proof. induction s as [| c s IH]; [done |]. cbn [drop_while]. by destruct (f c) eqn:E. Qed.
Lemma drop_while_suffix f s : exists l, s = l ++ drop_while f s.
Proof.
  induction s as [| c s [l IH]]; [by exists [] |]. cbn [drop_while]. destruct (f c); [| by exists []].
  exists (c :: l). cbn [app]. by rewrite <- IH.
Qed.
Lemma drop_while_snoc f s c : f c = false -> drop_while f (s ++ [c]) = drop_while f s ++ [c].
Proof. intros Hc. induction s as [| x s IH]; cbn [app drop_while]; [by rewrite Hc |]. by destruct (f x). Qed.
(** Both ends of a text that was trimmed *)
Lemma trim_matches_ends f s :
  match trim_matches f s, last (trim_matches f s) with c :: _, Some d => f c = false /\ f d = false | _, _ => True end.
Proof.
  unfold trim_matches, trim_end_matches. pose proof (drop_while_head f s) as Hc. destruct (drop_while f s) as [| c l]; [done |].
  assert (exists m, rev (drop_while f (rev (c :: l))) = c :: m) as [m E].
  { cbn [rev]. rewrite drop_while_snoc by done. rewrite rev_app_distr. by eexists. }
  pose proof (drop_while_head f (rev (c :: l))) as Hd. destruct (drop_while f (rev (c :: l))) as [| d r] eqn:E'; [by rewrite E |].
  cbn [rev] in *. rewrite last_snoc, E. done.
Qed.
Lemma trim_matches_Forall (P : Z -> Prop) f s : Forall P s -> Forall P (trim_matches f s).
Proof.
  intros H. unfold trim_matches, trim_end_matches. apply Forall_rev.
  destruct (drop_while_suffix f (rev (drop_while f s))) as [l E]. destruct (drop_while_suffix f s) as [l' E'].
  assert (Forall P (rev (drop_while f s))) as H' by (apply Forall_rev; rewrite E', Forall_app in H; tauto).
  rewrite E, Forall_app in H'. tauto.
Qed.
Lemma safe_value_bytes v : safe_php_header_value v = true <-> Forall (fun c => c = SP \/ c = HT \/ 33 <= c <= 126) v.
Proof.
  unfold safe_php_header_value, between. rewrite forallb_forall, Forall_forall. setoid_rewrite list_elem_of_In.
  split; intros H c Hc; specialize (H c Hc); breflect; lia.
Qed.
Lemma trim_ascii_trimmed v : safe_php_header_value (trim_ascii v) = true -> trimmed (trim_ascii v).
Proof.
  intros Hv%safe_value_bytes. pose proof (trim_matches_ends blank v) as H. fold (trim_ascii v) in H. unfold trimmed.
  destruct (trim_ascii v) as [| c l] eqn:E; [done |]. destruct (last (c :: l)) as [d |] eqn:Ed; [| done]. destruct H as [Hc Hd].
  rewrite Forall_forall in Hv. apply last_Some_elem_of in Ed. pose proof (Hv c ltac:(apply elem_of_cons; by left)) as Vc. specialize (Hv d Ed).
  unfold blank in Hc, Hd. unfold ascii_graphic, ws1, between. breflect. lia.
Qed.
Lemma safe_name_token name : safe_php_header_name name = true -> http_token_valid name = true.
Proof.
  unfold safe_php_header_name, http_token_valid. intros [-> H]%andb_true_iff. cbn [andb]. revert H. rewrite !forallb_forall.
  intros H c Hc. specialize (H c Hc). unfold token_byte. unfold is_ascii_alphanumeric, is_ascii_digit, is_ascii_upper, is_ascii_lower in H.
  unfold contains_byte in H. apply orb_true_iff in H as [H | H].
  - by apply orb_true_iff in H as [[-> | ->]%orb_true_iff | ->]; rewrite ?orb_true_r.
  - apply existsb_exists in H as (x & Hx & He%Z.eqb_eq). rewrite !orb_true_iff. left. left. left. apply existsb_exists. exists x.
    split; [done |]. apply Z.eqb_eq. done.
Qed.
Lemma php_header_passes h : php_header_ok h -> header_ok h /\ trim h.2 = h.2.
Proof.
  intros (Hn & Hv & Ht). split; [| by apply trim_trimmed]. apply safe_value_bytes in Hv. split.
  - unfold valid_upstream_request_header. rewrite (safe_name_token _ Hn). cbn [andb]. unfold valid_upstream_header_value.
    apply negb_true_iff. apply not_true_iff_false. intros (c & Hc & Hf)%existsb_exists. rewrite Forall_forall in Hv.
    apply list_elem_of_In, Hv in Hc. unfold value_byte_forbidden, between in Hf. breflect. lia.
  - eapply Forall_impl; [exact Hv |]. cbv beta. unfold in_u8, U8_MAX. intros c Hc. lia.
Qed.

Lemma parse_php_status_range value status : parse_php_status value = Ok status -> 100 <= status <= 599.
Proof.
  unfold parse_php_status. destruct (negb _); [done |]. destruct (head _); [| done]. destruct (parse_uint _ _) as [n |]; [| done].
  destruct (between 100 599 n) eqn:E; [| done]. intros [= <-]. unfold between in E. breflect. lia.
Qed.
Lemma parse_php_lines_safe lines status headers status' headers' :
  parse_php_lines lines status headers = Ok (status', headers') -> 100 <= status <= 599 -> Forall php_header_ok headers ->
  100 <= status' <= 599 /\ Forall php_header_ok headers'.
Proof.
  revert status headers. induction lines as [| line lines IH]; intros status headers; cbn [parse_php_lines]; [by intros [= <- <-] |].
  case_bool_decide as Hl; [apply IH |]. destruct (split_first_colon _) as [[name value] |]; [| done].
  destruct (negb _ || negb _) eqn:Es; [done |]. apply orb_false_iff in Es as [Hn%negb_false_iff Hv%negb_false_iff].
  destruct (eq_ignore_ascii_case _ _).
  - destruct (parse_php_status _) as [s |] eqn:Ep; [| done]. intros Hp _ Hh. eapply IH; [exact Hp | by eapply parse_php_status_range | done].
  - intros Hp Hs Hh. eapply IH; [exact Hp | done |]. apply Forall_app. split; [done |]. apply Forall_singleton.
    split; [done | split; [done | by apply trim_ascii_trimmed]].
Qed.
(** Where the body starts *)
Definition php_separator (sep : list Z) : Prop := sep = crlf ++ crlf \/ sep = [LF; LF].
Lemma split_php_response_parts stdout head body :
  split_php_response stdout = Ok (head, body) -> exists sep, php_separator sep /\ stdout = head ++ sep ++ body.
Proof.
  unfold split_php_response.
  assert (forall p i, find_sub p stdout = Some i -> stdout = ztake i stdout ++ p ++ zdrop (i + zlen p) stdout) as Hsplit.
  { intros p i (l & r & E & <-)%find_sub_Some. rewrite E.
    assert (zdrop (zlen l + zlen p) (l ++ p ++ r) = r) as -> by (rewrite app_assoc, <- zlen_app; apply zdrop_app_exact).
    by rewrite ztake_app_exact. }
  destruct (find_sub (crlf ++ crlf) stdout) as [i |] eqn:E1.
  - intros [= <- <-]. exists (crlf ++ crlf). split; [by left |]. by apply Hsplit.
  - destruct (find_sub [LF; LF] stdout) as [i |] eqn:E2; [| done]. intros [= <- <-].
    exists [LF; LF]. split; [by right |]. by apply Hsplit.
Qed.
Lemma parse_php_response_safe stdout max_bytes max_head parsed :
  parse_php_response stdout max_bytes max_head = Ok parsed ->
  100 <= pp_status parsed <= 599 /\ Forall php_header_ok (pp_headers parsed) /\ zlen stdout <= max_bytes
  /\ exists head sep, php_separator sep /\ stdout = head ++ sep ++ pp_body parsed /\ zlen head <= max_head
       /\ parse_php_lines (split_byte LF head) 200 [] = Ok (pp_status parsed, pp_headers parsed).
Proof.
  unfold parse_php_response. destruct (Z.ltb_spec max_bytes (zlen stdout)); [done |].
  destruct (split_php_response stdout) as [[head body] |] eqn:Es; [| done]. destruct (Z.ltb_spec max_head (zlen head)); [done |].
  destruct (parse_php_lines _ _ _) as [[status headers] |] eqn:Ep; [| done]. intros [= <-]. cbn [pp_status pp_headers pp_body].
  destruct (parse_php_lines_safe _ _ _ _ _ Ep) as [Hs Hh]; [lia | constructor |]. split_and!; [lia | lia | done | lia |].
  destruct (split_php_response_parts _ _ _ Es) as (sep & Hsep & E). by exists head, sep.
Qed.

(** ** The response for the client *)

Lemma Ok_inj {A E} (a b : A) : @Ok A E a = Ok b -> a = b.
Proof. congruence. Qed.
(** The headers that stay *)
Definition php_kept (php : PhpConfig) (parsed : ParsedPhpResponse) (h : header) : bool :=
  negb (native_php_response_header_stripped h.1
          (php_response_headers_to_strip
             (snd <$> List.filter (fun h => eq_ignore_ascii_case h.1 (bs "connection")) (pp_headers parsed))
             (pc_hide_response_headers php)))
  && negb (pc_ignore_origin_cache_headers php
           && (eq_ignore_ascii_case h.1 (bs "cache-control") || eq_ignore_ascii_case h.1 (bs "expires")
               || eq_ignore_ascii_case h.1 (bs "pragma"))).
Lemma pushed_headers headers response :
  fold_left (fun response h => push_response_header h.1 h.2 response) headers response
  = mkResponse (rp_status response) (rp_reason response) (rp_headers response ++ headers) (rp_content_length response)
      (rp_body response) (rp_close response).
Proof.
  revert response. induction headers as [| [n v] headers IH]; intros response; cbn [fold_left]; [rewrite app_nil_r; by destruct response |].
  rewrite IH. cbn. by rewrite <- app_assoc.
Qed.
Lemma filter_filter {A} (f g : A -> bool) l : List.filter f (List.filter g l) = List.filter (fun a => g a && f a) l.
Proof. induction l as [| a l IH]; [done |]. cbn [List.filter]. destruct (g a); cbn [andb List.filter]; by rewrite IH. Qed.
Lemma native_php_response_plan_shape stdout php request_method plan :
  native_php_response_plan stdout php request_method = Ok plan ->
  exists parsed, parse_php_response stdout (pc_max_response_bytes php) (pc_max_response_header_bytes php) = Ok parsed
    /\ npl_response plan
       = mkResponse (pp_status parsed) (native_php_status_reason (pp_status parsed))
           (List.filter (php_kept php parsed) (pp_headers parsed)) (Some (zlen (pp_body parsed)))
           (if eq_ignore_ascii_case request_method (bs "HEAD") then [] else pp_body parsed) false
    /\ npl_intercept_status plan
       = if php_should_intercept_error_status (pp_status parsed) (ep_status <$> pc_error_pages php) (pc_intercept_error_statuses php)
         then Some (pp_status parsed) else None.
Proof.
  unfold native_php_response_plan. destruct (parse_php_response _ _ _) as [parsed |]; [| done]. intros <-%Ok_inj.
  exists parsed. split; [done |]. cbn [npl_response npl_intercept_status]. split; [| done].
  rewrite pushed_headers. unfold php_kept. destruct (pc_ignore_origin_cache_headers php).
  - unfold remove_response_header. cbn [rp_status rp_reason rp_headers rp_content_length rp_body rp_close with_content_length new_response app].
    rewrite !filter_filter. f_equal. apply filter_ext. intros h.
    destruct (native_php_response_header_stripped _ _), (eq_ignore_ascii_case h.1 (bs "cache-control")),
      (eq_ignore_ascii_case h.1 (bs "expires")), (eq_ignore_ascii_case h.1 (bs "pragma")); done.
  - cbn [rp_status rp_reason rp_headers rp_content_length rp_body rp_close with_content_length new_response app].
    f_equal. apply filter_ext. intros h. by rewrite andb_true_r.
Qed.
Lemma native_php_status_reason_ok status : reason_ok (native_php_status_reason status).
Proof.
  unfold native_php_status_reason. destruct (List.find _ _) as [p |] eqn:E; [| constructor]. cbn [fmap option_fmap option_map from_option id].
  apply find_some in E as [Hin _]. apply list_elem_of_In in Hin. revert p Hin. apply Forall_forall.
  repeat (apply Forall_cons; split; [apply (bool_decide_unpack _); vm_compute; exact I |]). constructor.
Qed.
Lemma not_stripped name strip candidate :
  native_php_response_header_stripped name strip = false -> candidate ∈ strip -> eq_ignore_ascii_case name candidate = false.
Proof.
  intros H Hin. apply not_true_iff_false. intros E. unfold native_php_response_header_stripped in H.
  apply orb_false_iff in H as [_ H]. apply not_true_iff_false in H. apply H. apply existsb_exists. exists candidate.
  split; [by apply list_elem_of_In | done].
Qed.
Lemma kept_not_hop_by_hop php parsed h :
  php_kept php parsed h = true -> eq_ignore_ascii_case h.1 (bs "proxy-connection") = false -> hop_by_hop h.1 = false.
Proof.
  unfold php_kept. intros [H%negb_true_iff _]%andb_true_iff Hp. unfold hop_by_hop. apply not_true_iff_false.
  intros (c & Hc & E)%existsb_exists. apply list_elem_of_In in Hc. unfold HOP_BY_HOP_HEADERS in Hc.
  destruct (decide (c ∈ PHP_HOP_BY_HOP_RESPONSE_HEADERS)) as [Hin | Hout].
  - assert (eq_ignore_ascii_case h.1 c = false); [| congruence]. eapply not_stripped; [exact H |].
    unfold php_response_headers_to_strip. apply elem_of_app. by left.
  - assert (c = bs "proxy-connection") as ->; [| congruence]. revert Hc Hout. unfold PHP_HOP_BY_HOP_RESPONSE_HEADERS.
    rewrite !elem_of_cons. tauto.
Qed.
Lemma php_plan_wf stdout php request_method plan :
  native_php_response_plan stdout php request_method = Ok plan ->
  pc_max_response_bytes php <= U64_MAX ->
  200 <= rp_status (npl_response plan) ->
  (rp_status (npl_response plan) = 204 \/ rp_status (npl_response plan) = 304 -> rp_body (npl_response plan) = []) ->
  Forall (fun h => eq_ignore_ascii_case h.1 (bs "proxy-connection") = false) (rp_headers (npl_response plan)) ->
  response_wf request_method (npl_response plan).
Proof.
  intros (parsed & Hp & E & _)%native_php_response_plan_shape Hmax. rewrite E.
  cbn [rp_status rp_reason rp_headers rp_content_length rp_body]. intros Hs Hb Hh.
  apply parse_php_response_safe in Hp as (Hst & Hsafe & Hlen & head & sep & _ & -> & _ & _).
  rewrite !zlen_app in Hlen. pose proof (zlen_nonneg head). pose proof (zlen_nonneg sep). pose proof (zlen_nonneg (pp_body parsed)).
  split; cbn [rp_status rp_reason rp_headers rp_content_length rp_body shown_length]; [lia | apply native_php_status_reason_ok | | |].
  - apply Forall_forall. intros h Hin. rewrite Forall_forall in Hh. specialize (Hh h Hin).
    apply list_elem_of_In, filter_In in Hin as [Hin Hk]. rewrite Forall_forall in Hsafe. apply list_elem_of_In, Hsafe, php_header_passes in Hin as [? ?].
    split_and!; [done | done |]. by eapply kept_not_hop_by_hop.
  - intros n [= <-]. lia.
  - unfold bodiless, shown_length. cbn [rp_content_length rp_body from_option id].
    destruct (eq_ignore_ascii_case request_method (bs "HEAD")); cbn [orb]; [done |].
    rewrite (proj2 (Z.ltb_ge _ _) Hs), andb_false_r. cbn [orb]. destruct (_ =? 204) eqn:E4; [breflect; cbn [orb]; auto |].
    destruct (_ =? 304) eqn:E3; [breflect; cbn [orb]; auto |]. done.
Qed.

(** C1: The answer of a PHP script that is accepted reaches the client as one
    message, whatever follows on the connection: with the status the script
    asked for, the bytes after its headers as the body and their number as the
    length, and its headers, all of them safe, in their order, without those that
    are hop-by-hop, named by its [Connection] header, hidden, or meant for the
    proxy.  This is for final statuses that may have a body, or without one. *)
Theorem php_response_delivered stdout php request_method plan (limits' : Http1HeadLimits) (max_body' : Z) (date more : list Z) (close : bool) :
  native_php_response_plan stdout php request_method = Ok plan ->
  pc_max_response_bytes php <= U64_MAX ->
  200 <= rp_status (npl_response plan) ->
  (rp_status (npl_response plan) = 204 \/ rp_status (npl_response plan) = 304 -> rp_body (npl_response plan) = []) ->
  Forall (fun h => eq_ignore_ascii_case h.1 (bs "proxy-connection") = false) (rp_headers (npl_response plan)) ->
  header_ok (bs "Date", date) /\ trim date = date -> head_limits_wf limits' ->
  response_fits limits' (rp_status (npl_response plan)) (rp_reason (npl_response plan)) (relayed_headers date (npl_response plan) close) ->
  zlen (rp_body (npl_response plan)) <= max_body' ->
  exists bytes parsed head sep,
    write_response date (npl_response plan) close = (bytes, Ok tt)
    /\ response_of limits' max_body' request_method (bytes ++ more) = Ok (client_response date (npl_response plan) close, more)
    /\ php_separator sep /\ stdout = head ++ sep ++ pp_body parsed
    /\ parse_php_lines (split_byte LF head) 200 [] = Ok (pp_status parsed, pp_headers parsed)
    /\ Forall php_header_ok (pp_headers parsed)
    /\ npl_response plan
       = mkResponse (pp_status parsed) (native_php_status_reason (pp_status parsed))
           (List.filter (php_kept php parsed) (pp_headers parsed)) (Some (zlen (pp_body parsed)))
           (if eq_ignore_ascii_case request_method (bs "HEAD") then [] else pp_body parsed) false.
Proof.
  intros Hplan Hmax Hs Hb Hh Hd Hlim Hfit Hbody. pose proof (php_plan_wf _ _ _ _ Hplan Hmax Hs Hb Hh) as Hwf.
  apply native_php_response_plan_shape in Hplan as (parsed & Hp & E & _).
  apply parse_php_response_safe in Hp as (_ & Hsafe & Hlen & head & sep & Hsep & Eo & _ & Hlines).
  assert (zlen (rp_body (npl_response plan)) <= U64_MAX) as Hu.
  { rewrite E. cbn [rp_body]. rewrite Eo, !zlen_app in Hlen. pose proof (zlen_nonneg head). pose proof (zlen_nonneg sep).
    destruct (eq_ignore_ascii_case request_method _); [done | lia]. }
  destruct (written_response_read limits' max_body' request_method date more _ close Hwf Hd Hlim Hfit Hbody Hu) as (bytes & ? & ?).
  by exists bytes, parsed, head, sep.
Qed.

(** ** A response a script writes is read back *)

(** What a script writes: its status, its headers, an empty line, the body. *)
Definition cgi_lines (status : Z) (reason : list Z) (headers : list header) : list (list Z) :=
  raw_line <$> ((bs "Status", to_decimal status ++ [SP] ++ reason) :: headers).
Definition cgi_response (status : Z) (reason : list Z) (headers : list header) (body : list Z) : list Z :=
  print_lines (cgi_lines status reason headers) ++ crlf ++ body.
(** A line of a header block *)
Definition cgi_line (l : list Z) : Prop := l <> [] /\ (CR ∉ l) /\ (LF ∉ l).

Lemma find_sub_skip p l s : CR ∉ l -> find_sub (CR :: p) (l ++ s) = (fun i => i + zlen l) <$> find_sub (CR :: p) s.
Proof.
  induction l as [| c l IH]; intros Hc; cbn [app].
  - rewrite zlen_nil. destruct (find_sub _ s) as [i |]; cbn [fmap option_fmap option_map]; [f_equal; lia | done].
  - cbn [find_sub]. unfold starts_with. cbn [strip_prefix]. rewrite (proj2 (Z.eqb_neq CR c)) by set_solver.
    rewrite IH by set_solver. rewrite zlen_cons. destruct (find_sub _ s) as [i |]; cbn [fmap option_fmap option_map]; [f_equal; lia | done].
Qed.
Lemma find_sub_step p c s : starts_with p (c :: s) = false -> find_sub p (c :: s) = (fun i => i + 1) <$> find_sub p s.
Proof. intros E. cbn [find_sub]. by rewrite E. Qed.
Lemma find_sub_line_end c s :
  CR <> c -> find_sub (crlf ++ crlf) (crlf ++ c :: s) = (fun i => i + 2) <$> find_sub (crlf ++ crlf) (c :: s).
Proof.
  intros Hc. change (crlf ++ c :: s) with (CR :: LF :: c :: s).
  assert (starts_with (crlf ++ crlf) (CR :: LF :: c :: s) = false) as E1
    by (apply not_true_iff_false; intros [r E]%starts_with_true; injection E; congruence).
  assert (starts_with (crlf ++ crlf) (LF :: c :: s) = false) as E2
    by (apply not_true_iff_false; intros [r E]%starts_with_true; discriminate E).
  rewrite find_sub_step by done. rewrite find_sub_step by done.
  destruct (find_sub (crlf ++ crlf) (c :: s)) as [i |]; cbn [fmap option_fmap option_map]; [f_equal; lia | done].
Qed.
Lemma find_blank_line l lines body :
  Forall cgi_line (l :: lines) ->
  find_sub (crlf ++ crlf) (print_lines (l :: lines) ++ crlf ++ body) = Some (zlen (print_lines (l :: lines)) - 2).
Proof.
  revert l. induction lines as [| l' lines IH]; intros l [(_ & Hc & _) Hf]%Forall_cons.
  - unfold print_lines. cbn [fmap list_fmap concat]. rewrite app_nil_r, <- app_assoc. change (crlf ++ crlf) with (CR :: [LF; CR; LF]).
    rewrite find_sub_skip by done. rewrite zlen_app. change (zlen crlf) with 2. cbn. f_equal. lia.
  - rewrite print_lines_cons, <- !app_assoc. change (crlf ++ crlf) with (CR :: [LF; CR; LF]). rewrite find_sub_skip by done.
    change (CR :: [LF; CR; LF]) with (crlf ++ crlf). set (rest := print_lines (l' :: lines) ++ crlf ++ body).
    assert (find_sub (crlf ++ crlf) (crlf ++ rest) = (fun i => i + 2) <$> find_sub (crlf ++ crlf) rest) as ->.
    { apply Forall_cons in Hf as [(Hne & Hc' & _) _]. destruct l' as [| c l']; [done |]. unfold rest.
      rewrite print_lines_cons. change ((c :: l') ++ crlf) with (c :: (l' ++ crlf)). cbn [app].
      apply find_sub_line_end. set_solver. }
    unfold rest. rewrite IH by done. cbn [fmap option_fmap option_map]. rewrite !zlen_app. change (zlen crlf) with 2. f_equal. lia.
Qed.
Lemma parse_lines_cong l rest rest' status headers :
  (forall s hs, parse_php_lines rest s hs = parse_php_lines rest' s hs) ->
  parse_php_lines (l :: rest) status headers = parse_php_lines (l :: rest') status headers.
Proof.
  intros H. cbn [parse_php_lines]. destruct (bool_decide _); [apply H |]. destruct (split_first_colon _) as [[name value] |]; [| done].
  destruct (negb _ || negb _); [done |]. destruct (eq_ignore_ascii_case _ _); [| apply H]. destruct (parse_php_status _); [apply H | done].
Qed.
(** The header block without its last line end, split at line feeds *)
Lemma parse_printed_lines l lines status headers :
  Forall cgi_line (l :: lines) ->
  parse_php_lines (split_byte LF (ztake (zlen (print_lines (l :: lines)) - 2) (print_lines (l :: lines)))) status headers
  = parse_php_lines (l :: lines) status headers.
Proof.
  assert (forall l rest s hs, CR ∉ l -> parse_php_lines ((l ++ [CR]) :: rest) s hs = parse_php_lines (l :: rest) s hs) as Hcr.
  { intros l0 rest s hs Hl. cbn [parse_php_lines]. unfold trim_ascii_cr. by rewrite strip_suffix_app, strip_suffix_notin by done. }
  revert l status headers. induction lines as [| l' lines IH]; intros l status headers [(_ & Hc & Hn) Hf]%Forall_cons.
  - unfold print_lines. cbn [fmap list_fmap concat]. rewrite app_nil_r, zlen_app. change (zlen crlf) with 2.
    replace (zlen l + 2 - 2) with (zlen l) by lia. by rewrite ztake_app_exact, split_byte_notin.
  - rewrite print_lines_cons, zlen_app, zlen_app. change (zlen crlf) with 2.
    assert (2 <= zlen (print_lines (l' :: lines))) as Hlen.
    { rewrite print_lines_cons, !zlen_app. change (zlen crlf) with 2. pose proof (zlen_nonneg l'). pose proof (zlen_nonneg (print_lines lines)). lia. }
    replace (zlen l + 2 + zlen (print_lines (l' :: lines)) - 2) with (zlen (l ++ crlf) + (zlen (print_lines (l' :: lines)) - 2))
      by (rewrite zlen_app; change (zlen crlf) with 2; lia).
    rewrite ztake_app_ge, Z.add_simpl_l by lia. change crlf with ([CR] ++ [LF]). rewrite app_assoc, <- app_assoc. cbn [app].
    rewrite split_byte_app by (rewrite elem_of_app; intros [? | ?]; set_solver).
    rewrite Hcr by done. apply parse_lines_cong. intros s hs. by apply IH.
Qed.
Lemma trim_matches_id f s :
  match s, last s with c :: _, Some d => f c = false /\ f d = false | _, _ => True end -> trim_matches f s = s.
Proof.
  unfold trim_matches, trim_end_matches. destruct s as [| c s]; [done |]. destruct (last (c :: s)) as [d |] eqn:Ed; [| by apply last_None in Ed].
  intros [Hc Hd]. cbn [drop_while]. rewrite Hc. apply last_Some in Ed as [l ->]. rewrite rev_app_distr. cbn [rev app drop_while].
  rewrite Hd. change (d :: rev l) with (rev [d] ++ rev l). by rewrite <- rev_app_distr, rev_involutive.
Qed.
Lemma php_header_trimmed h : php_header_ok h -> trim_ascii h.1 = h.1 /\ trim_ascii (SP :: h.2) = h.2.
Proof.
  intros (Hn & Hv & Ht). split.
  - apply trim_matches_id. apply safe_name_token, token_ascii in Hn. rewrite Forall_forall in Hn. destruct h.1 as [| c l]; [done |].
    destruct (last (c :: l)) as [d |] eqn:Ed; [| done]. apply last_Some_elem_of, Hn in Ed. pose proof (Hn c ltac:(apply elem_of_cons; by left)).
    unfold blank. split; breflect; lia.
  - unfold trim_ascii, trim_matches. change (drop_while blank (SP :: h.2)) with (drop_while blank h.2).
    apply (trim_matches_id blank). unfold trimmed in Ht. destruct h.2 as [| c l]; [done |].
    destruct (last (c :: l)) as [d |]; [| done]. destruct Ht as [[? Hc] [? Hd]]. unfold ws1, between in Hc, Hd. unfold blank. breflect. lia.
Qed.
Lemma php_header_line h rest status headers :
  php_header_ok h ->
  parse_php_lines (raw_line h :: rest) status headers
  = (if eq_ignore_ascii_case h.1 (bs "status") then let? status := parse_php_status h.2 in parse_php_lines rest status headers
     else parse_php_lines rest status (headers ++ [h])).
Proof.
  intros Hok. pose proof (php_header_trimmed h Hok) as [E1 E2]. pose proof Hok as (Hn & Hv & _). pose proof (safe_name_token _ Hn) as Hnt.
  apply token_ascii in Hnt as Hna. pose proof (proj1 (safe_value_bytes _) Hv) as Hva.
  assert (CR ∉ raw_line h) as Hcr.
  { unfold raw_line. rewrite Forall_forall in Hna, Hva. rewrite !elem_of_app. intros [Hin%Hna | [Hin | Hin%Hva]]; [lia | set_solver | lia]. }
  assert (58 ∉ h.1) as Hcolon.
  { apply http_token_valid_spec in Hnt as [_ Ht]. rewrite Forall_forall in Ht. intros Hin%Ht. by vm_compute in Hin. }
  cbn [parse_php_lines]. unfold trim_ascii_cr. rewrite strip_suffix_notin by done. cbn [from_option id].
  rewrite bool_decide_false by (unfold raw_line; destruct h.1; done). unfold split_first_colon, raw_line, COLON. cbn [app].
  rewrite split_once_app by done. rewrite E1, E2, Hn, Hv. cbn [negb orb]. by destruct h.
Qed.
Lemma php_header_cgi_line h : php_header_ok h -> cgi_line (raw_line h).
Proof.
  intros (Hn & Hv & _). apply safe_name_token, token_ascii in Hn as Hna. pose proof (proj1 (safe_value_bytes _) Hv) as Hva.
  unfold cgi_line, raw_line. split; [destruct h.1; done |]. rewrite Forall_forall in Hna, Hva.
  split; rewrite !elem_of_app; (intros [Hin%Hna | [Hin | Hin%Hva]]; [lia | set_solver | lia]).
Qed.
Lemma php_header_lines headers kept status :
  Forall php_header_ok headers -> Forall (fun h => eq_ignore_ascii_case h.1 (bs "status") = false) headers ->
  parse_php_lines (raw_line <$> headers) status kept = Ok (status, kept ++ headers).
Proof.
  intros Hf. revert kept. induction Hf as [| h headers Hh Hf IH]; intros kept Hs; cbn [fmap list_fmap]; [cbn; by rewrite app_nil_r |].
  apply Forall_cons in Hs as [Hs Hrest]. rewrite php_header_line, Hs, IH by done. by rewrite <- app_assoc.
Qed.
Lemma parse_php_status_line status reason :
  100 <= status <= 599 -> safe_php_header_value reason = true -> parse_php_status (to_decimal status ++ [SP] ++ reason) = Ok status.
Proof.
  intros Hs Hr. unfold parse_php_status. assert (graph (to_decimal status)) as Hg.
  { eapply Forall_impl; [apply to_decimal_digits; lia |]. cbv beta. unfold is_ascii_digit, between. intros c Hc. breflect. lia. }
  rewrite utf8_valid_ascii.
  - cbn [negb]. rewrite split_whitespace_word by (done || apply to_decimal_not_nil). cbn [head].
    rewrite parse_uint_to_decimal by (unfold U16_MAX, U64_MAX; lia). unfold between. by rewrite !(proj2 (Z.leb_le _ _)) by lia.
  - apply Forall_app. split; [eapply Forall_impl; [exact Hg |]; cbv beta; intros c Hc; lia |].
    apply Forall_app. split; [apply Forall_singleton; lia |]. apply safe_value_bytes in Hr.
    eapply Forall_impl; [exact Hr |]. cbv beta. intros c Hc. lia.
Qed.
Lemma status_header_ok status reason :
  100 <= status <= 599 -> reason <> [] -> safe_php_header_value reason = true -> trimmed reason ->
  php_header_ok (bs "Status", to_decimal status ++ [SP] ++ reason).
Proof.
  intros Hs Hne Hr Ht. assert (Forall (fun c => is_ascii_digit c = true) (to_decimal status)) as Hd by (apply to_decimal_digits; lia).
  split_and!; cbn [fst snd]; [by vm_compute | |].
  - apply safe_value_bytes. apply Forall_app. split; [| apply Forall_app; split; [apply Forall_singleton; by left | by apply safe_value_bytes]].
    eapply Forall_impl; [exact Hd |]. cbv beta. unfold is_ascii_digit, between. intros c Hc. breflect. lia.
  - unfold trimmed. pose proof (to_decimal_not_nil status). destruct (to_decimal status) as [| c l] eqn:E; [done |]. cbn [app].
    apply Forall_cons in Hd as [Hc _].
    assert (last (c :: l ++ SP :: reason) = last reason) as ->.
    { destruct reason as [| x reason] using rev_ind; [done |].
      assert (c :: l ++ SP :: (reason ++ [x]) = (c :: l ++ SP :: reason) ++ [x]) as -> by (cbn [app]; by rewrite <- app_assoc).
      by rewrite !last_snoc. }
    destruct reason as [| r0 reason]; [done |]. unfold trimmed in Ht. destruct (last (r0 :: reason)) as [d |]; [| done].
    split; [| tauto]. unfold is_ascii_digit, between in Hc. unfold ascii_graphic, ws1, between. breflect. lia.
Qed.

(** C1: What a script writes in the form of the CGI standard, a status, safe
    headers, an empty line and any body, within the limits, is read as exactly
    that. *)
Theorem php_response_round_trip status reason headers body max_bytes max_head :
  100 <= status <= 599 -> reason <> [] -> safe_php_header_value reason = true -> trimmed reason ->
  Forall php_header_ok headers -> Forall (fun h => eq_ignore_ascii_case h.1 (bs "status") = false) headers ->
  zlen (cgi_response status reason headers body) <= max_bytes ->
  zlen (print_lines (cgi_lines status reason headers)) - 2 <= max_head ->
  parse_php_response (cgi_response status reason headers body) max_bytes max_head = Ok (mkParsed status headers body).
Proof.
  intros Hs Hne Hr Ht Hf Hns Hmax Hhead. pose proof (status_header_ok _ _ Hs Hne Hr Ht) as Hst.
  assert (Forall cgi_line (cgi_lines status reason headers)) as Hlines.
  { unfold cgi_lines. apply Forall_fmap. apply Forall_cons. split; [by apply php_header_cgi_line |].
    eapply Forall_impl; [exact Hf |]. apply php_header_cgi_line. }
  unfold parse_php_response. rewrite (proj2 (Z.ltb_ge _ _) Hmax). unfold split_php_response, cgi_response.
  unfold cgi_lines in *. cbn [fmap list_fmap] in *. rewrite find_blank_line by done. set (lines := raw_line _ :: _) in *.
  assert (2 <= zlen (print_lines lines)) as Hlen.
  { unfold lines. rewrite print_lines_cons, !zlen_app. change (zlen crlf) with 2.
    match goal with |- _ <= zlen ?a + _ + zlen ?b => pose proof (zlen_nonneg a); pose proof (zlen_nonneg b) end. lia. }
  assert (zdrop (zlen (print_lines lines) - 2 + 4) (print_lines lines ++ crlf ++ body) = body) as ->.
  { replace (zlen (print_lines lines) - 2 + 4) with (zlen (print_lines lines ++ crlf)) by (rewrite zlen_app; change (zlen crlf) with 2; lia).
    by rewrite app_assoc, zdrop_app_exact. }
  rewrite ztake_app_le by lia. rewrite zlen_take by lia. rewrite (proj2 (Z.ltb_ge _ _)) by lia.
  unfold lines in *. rewrite parse_printed_lines, php_header_line by done. cbn [fst snd].
  change (eq_ignore_ascii_case (bs "Status") (bs "status")) with true. cbv iota.
  rewrite parse_php_status_line by done. cbv iota. by rewrite php_header_lines.
Qed.
