(* ===== verification/PhpRequest.v ===== *)
(** * Requests to PHP scripts ([native_http1_static_web.rs], [native_http1_php.rs], [native_http1_route_php.rs], [pool.rs], [policy.rs])

    Which script a request runs, the variables it gets, the attempts to have a
    FastCGI server run it, and the handler of a route around all this. *)
From Stdlib Require Import ZArith Lia.
From stdpp Require Import base list numbers strings sets gmap.
From S2P Require Import Prelude Text NetAddr ProxyProtocol HostNames Headers Http1Target Http1Head RequestHeaders UpstreamResponse CacheEntry MemoryCache PathSafety RouteMatch Cors RouteProxy FileSystem StaticPlan StaticWeb StaticResponse PhpScript PhpResponse.

(** ** The script *)

Record NativePhpScriptResolution : Type := mkResolution {
  sr_local_path : Path;
  sr_script_name : list Z;
  sr_path_info : list Z;
}.
Inductive NativePhpScriptResolve : Type :=
| Execute (script : NativePhpScriptResolution)
| RedirectDirectorySlash
| Decline
| ScriptNotFound
| ScriptForbidden.

Section Resolve.
Context (percent_decode_str : list Z -> list Z) (dir_order : list (list Z) -> list (list Z)).
Context (web : NativeHttp1StaticWeb) (php : PhpConfig).
Local Abbreviation resolve := (resolve percent_decode_str dir_order web).
Local Abbreviation denied := (php_script_name_denied (pc_deny_path_prefixes php)).
Local Abbreviation script_of := (fun file => php_static_file_script_name (sw_root web) (nf_path file) (pc_allowed_extensions php)).

(** The script the path was parsed to: the last part of [resolve_php_script] *)
Definition resolve_parsed_script (parsed : PhpScriptName) : Io NativePhpScriptResolve :=
  do found := resolve (ps_script_name parsed) in
  match found with
  | Found file =>
      match script_of file with
      | None => io_ret ScriptForbidden
      | Some script_name =>
          if denied script_name then io_ret ScriptForbidden
          else io_ret (Execute (mkResolution (nf_path file) script_name (ps_path_info parsed)))
      end
  | StaticForbidden => io_ret ScriptForbidden
  | StaticNotFound | Listed _ => io_ret ScriptNotFound
  end.
Definition resolve_php_script (request_path : list Z) (decline_existing_static : bool) : Io NativePhpScriptResolve :=
  match php_script_name_for_request percent_decode_str request_path (pc_index php) (pc_path_info php) (pc_allowed_extensions php) with
  | None => io_ret ScriptForbidden
  | Some parsed =>
      if denied (ps_script_name parsed) then io_ret ScriptForbidden
      else if ps_explicit_php parsed then resolve_parsed_script parsed
      else
        let front_controller :=
          match pc_try_files php with Strict => io_ret ScriptNotFound | _ => resolve_parsed_script parsed end in
        do found := resolve request_path in
        match found with
        | Found file =>
            match script_of file with
            | Some script_name =>
                if php_should_redirect_directory_index request_path script_name (pc_index php) then io_ret RedirectDirectorySlash
                else if denied script_name then io_ret ScriptForbidden
                else io_ret (Execute (mkResolution (nf_path file) script_name (ps_path_info parsed)))
            | None => if decline_existing_static then io_ret Decline else front_controller
            end
        | StaticForbidden => io_ret ScriptForbidden
        | StaticNotFound | Listed _ => front_controller
        end
  end.
End Resolve.

(** ** The request of a script *)

Record NativePhpRequestPlan : Type := mkRequestPlan {
  np_script_name : list Z;
  np_path_info : list Z;
  np_script_filename : list Z;
  np_path_translated : option (list Z);
  np_params : list (list Z * list Z);
  np_dropped_custom_params : list (list Z);
}.
Definition native_php_request_target_parts (target : Http1RequestTarget) : option (list Z * list Z * option (list Z)) :=
  match target with
  | Origin raw path query => Some (raw, path, query)
  | AbsoluteUri raw _ _ path query => Some (raw, default [SLASH] path, query)
  | Authority _ _ | Asterisk => None
  end.
Definition native_php_target_authority (target : Http1RequestTarget) : option (list Z) :=
  match target with AbsoluteUri _ _ authority _ _ => authority | _ => None end.
Fixpoint find_host (headers : list header) : option (list Z) :=
  match headers with
  | [] => None
  | h :: headers =>
      if named (bs "host") h && negb (bool_decide (trim h.2 = [])) then Some (trim h.2) else find_host headers
  end.
Definition native_php_request_host (r : NativeHttp1Request) : option (list Z) := find_host (rq_headers r).
Definition native_php_content_type_param (r : NativeHttp1Request) : list Z :=
  php_content_type_param_value (snd <$> List.filter (named (bs "content-type")) (rq_headers r)).
Definition native_php_remote_peer (r : NativeHttp1Request) : list Z * list Z :=
  match (match rq_effective_client_addr r with Some address => Some address | None => rq_peer_addr r end) with
  | Some address => (show_ip (normalize_ipv4_mapped_ip (sa_ip address)), to_decimal (sa_port address))
  | None => ([], [])
  end.
Definition native_php_server_protocol (version : Http1Version) : list Z :=
  match version with Http10 => bs "HTTP/1.0" | Http11 => bs "HTTP/1.1" end.
Definition native_php_explicit_authority_port (authority : list Z) : option Z :=
  match strip_prefix [91] authority with
  | Some rest =>
      let* (_, after_host) := split_once 93 rest in
      let* port := strip_prefix [COLON] after_host in
      parse_uint U16_MAX port
  | None => let* (_, port) := rsplit_once COLON authority in parse_uint U16_MAX port
  end.
Definition native_php_server_port (php : PhpConfig) (r : NativeHttp1Request) : list Z :=
  let port := match pc_server_port php with
              | Some port => Some port
              | None => native_php_request_host r ≫= native_php_explicit_authority_port
              end in
  to_decimal (default (if rq_downstream_tls r then 443 else 80) port).

Section Plan.
Context (percent_decode_str : list Z -> list Z).

(** The variables every request has *)
Definition core_params (r : NativeHttp1Request) (script : PhpScriptName) (script_filename request_uri query document_root server_name server_port : list Z)
    : list (list Z * list Z) :=
  let '(remote_addr, remote_port) := native_php_remote_peer r in
  [(bs "GATEWAY_INTERFACE", bs "CGI/1.1"); (bs "SERVER_SOFTWARE", bs "fluxheim");
   (bs "SERVER_PROTOCOL", native_php_server_protocol (rq_version r)); (bs "REQUEST_METHOD", rq_method r);
   (bs "SCRIPT_NAME", ps_script_name script); (bs "SCRIPT_FILENAME", script_filename); (bs "QUERY_STRING", query);
   (bs "REQUEST_URI", request_uri); (bs "DOCUMENT_ROOT", document_root); (bs "DOCUMENT_URI", ps_script_name script);
   (bs "REMOTE_ADDR", remote_addr); (bs "REMOTE_PORT", remote_port);
   (bs "SERVER_ADDR", match rq_local_addr r with Some address => show_ip (sa_ip address) | None => [] end);
   (bs "SERVER_PORT", server_port); (bs "SERVER_NAME", server_name); (bs "CONTENT_TYPE", native_php_content_type_param r);
   (bs "CONTENT_LENGTH", to_decimal (zlen (rq_body r))); (bs "REQUEST_SCHEME", if rq_downstream_tls r then bs "https" else bs "http");
   (bs "HTTPS", if rq_downstream_tls r then bs "on" else bs "off"); (bs "REDIRECT_STATUS", bs "200")].
Definition native_php_request_plan (r : NativeHttp1Request) (php : PhpConfig) (root : Path) (fpm_root : list Z) (local_script : Path)
    (vhost_name server_port : list Z) : option NativePhpRequestPlan :=
  match http1_request_target (rq_method r) (rq_target r) with
  | Err _ => None
  | Ok target =>
      let* (request_uri, request_path, query) := native_php_request_target_parts target in
      let* script := php_script_name_for_request percent_decode_str request_path (pc_index php) (pc_path_info php) (pc_allowed_extensions php) in
      if php_script_name_denied (pc_deny_path_prefixes php) (ps_script_name script) then None
      else if negb (utf8_valid fpm_root) then None
      else
        let* script_filename := php_fpm_script_filename root fpm_root local_script in
        let* path_translated :=
          if bool_decide (ps_path_info script = []) then Some None
          else let* translated := php_fpm_path_translated fpm_root (ps_path_info script) in Some (Some translated) in
        let host := match native_php_request_host r with
                    | Some host => host
                    | None => default vhost_name (native_php_target_authority target)
                    end in
        let server_name := php_server_name_param host vhost_name in
        let params := core_params r script script_filename request_uri (default [] query) fpm_root server_name server_port in
        let params := if pc_pass_request_headers php
                      then params ++ php_request_header_params (rq_headers r)
                           ++ match php_host_param host with Some p => [p] | None => [] end
                      else params in
        let '(accepted, dropped) := php_custom_params (pc_params php) in
        let params := params ++ accepted in
        let params := if bool_decide (ps_path_info script = []) then params
                      else params ++ [(bs "PATH_INFO", ps_path_info script)]
                           ++ match path_translated with Some translated => [(bs "PATH_TRANSLATED", translated)] | None => [] end in
        Some (mkRequestPlan (ps_script_name script) (ps_path_info script) script_filename path_translated params dropped)
  end.
End Plan.
(** [params.insert(name, value)] for all of them: a later value replaces an earlier one *)
Definition native_php_fastcgi_params (traceparent : option (list Z)) (plan : NativePhpRequestPlan) : gmap (list Z) (list Z) :=
  fold_left (fun params p =>
    <[p.1 := if bool_decide (p.1 = bs "HTTP_TRACEPARENT") then default p.2 traceparent else p.2]> params) (np_params plan) ∅.
Definition native_php_request_method (plan : NativePhpRequestPlan) : option (list Z) :=
  snd <$> List.find (fun p => bool_decide (p.1 = bs "REQUEST_METHOD")) (np_params plan).

(** ** Endpoints and retries *)

Inductive PhpFpmEndpoint : Type := Tcp (address : list Z) | UnixSocket (path : list Z).
Definition php_fpm_endpoints_from_config (fpm : PhpFpmConfig) : list PhpFpmEndpoint :=
  if negb (bool_decide (fc_tcp_upstreams fpm = [])) then Tcp <$> fc_tcp_upstreams fpm
  else match fc_tcp fpm, fc_socket fpm with
       | Some address, _ => [Tcp address]
       | None, Some socket => [UnixSocket socket]
       | None, None => []
       end.
Definition php_fpm_retry_method_allowed (fpm : PhpFpmConfig) (method : list Z) : bool :=
  existsb (fun retry_method => eq_ignore_ascii_case retry_method method) (fc_retry_methods fpm).
Definition php_fpm_retry_attempts_for_endpoint_count (fpm : PhpFpmConfig) (method : list Z) (endpoint_count : Z) : Z :=
  if negb (php_fpm_retry_method_allowed fpm method) then 0
  else Z.max (fc_max_retries fpm) (Z.min (saturating_sub endpoint_count 1) U8_MAX).
(** The clock counts nanoseconds. *)
Definition php_fpm_retry_deadline (now : Z) (retry_timeout_secs : option Z) : option Z :=
  let* secs := retry_timeout_secs in time_checked_add now (secs * NANOS).
Definition php_fpm_retry_deadline_allows (now : Z) (deadline : option Z) : bool :=
  match deadline with Some deadline => now <? deadline | None => true end.
Definition php_fpm_retryable_status (fpm : PhpFpmConfig) (status : Z) : bool := existsb (fun s => s =? status) (fc_retry_statuses fpm).
Definition php_fpm_retryable_error (error : FpmError) : bool :=
  match error with
  | ConnectTimedOut | ConnectionRefused | ConnectionReset | ConnectionAborted | BrokenPipe | NotConnected | AddrInUse | AddrNotAvailable
  | FpmNotFound | FpmUnexpectedEof => true
  | RequestTimedOut | OtherTimedOut | FpmInvalidInput | FpmInvalidData | FpmOther => false
  end.

(** ** Connections kept open *)

Record PhpFpmPoolEntry : Type := mkPoolEntry {
  pe_client : Z;
  pe_last_used : Z;
}.
Record PhpFpmPool : Type := mkPool {
  po_max_idle : Z;
  po_idle_timeout : Z;
  po_idle : list PhpFpmPoolEntry;
}.
Definition with_idle (idle : list PhpFpmPoolEntry) (pool : PhpFpmPool) : PhpFpmPool := mkPool (po_max_idle pool) (po_idle_timeout pool) idle.
Definition retain_fresh (now : Z) (pool : PhpFpmPool) : list PhpFpmPoolEntry :=
  List.filter (fun entry => saturating_sub now (pe_last_used entry) <=? po_idle_timeout pool) (po_idle pool).
(** The critical section of [checkout]: an idle connection, or none *)
Definition checkout (now : Z) (pool : PhpFpmPool) : option PhpFpmPoolEntry * PhpFpmPool :=
  let idle := retain_fresh now pool in
  (last idle, with_idle (removelast idle) pool).
(** [checkin]: [now] when the entry is stamped, [locked] when the others are looked at *)
Definition checkin (now locked : Z) (entry : PhpFpmPoolEntry) (pool : PhpFpmPool) : PhpFpmPool :=
  let idle := retain_fresh locked pool in
  if zlen idle <? po_max_idle pool then with_idle (idle ++ [mkPoolEntry (pe_client entry) now]) pool else with_idle idle pool.
(** How an exchange on a connection ends: the client of the [fastcgi_client]
    package reports an error, or the time is up. *)
Inductive ExchangeFault : Type := ClientFault | Elapsed.
Definition exchange_error (fault : ExchangeFault) : FpmError := match fault with ClientFault => FpmOther | Elapsed => RequestTimedOut end.
(** What the world answers to one attempt: when the clock is read, the
    connection made where none was idle, what arrives on a connection, and what
    other requests do to the pool before and during the exchange. *)
Record FpmTurn : Type := mkTurn {
  tn_before : PhpFpmPool -> PhpFpmPool;
  tn_during : PhpFpmPool -> PhpFpmPool;
  tn_checkout : Z;
  tn_connect : result Z FpmError;
  tn_exchange : Z -> gmap (list Z) (list Z) -> list Z -> result (list FpmEvent) ExchangeFault;
  tn_checkin : Z;
  tn_locked : Z;
}.
(** The request on a connection, and its answer *)
Definition client_execute (turn : FpmTurn) (client : Z) (params : gmap (list Z) (list Z)) (body : list Z) (max_response_bytes : Z)
    : result FpmResponse FpmError :=
  match tn_exchange turn client params body with
  | Ok stream => collect_php_fpm_response_stream stream max_response_bytes
  | Err fault => Err (exchange_error fault)
  end.
Definition pool_execute (turn : FpmTurn) (params : gmap (list Z) (list Z)) (body : list Z) (max_response_bytes : Z) (pool : PhpFpmPool)
    : result FpmResponse FpmError * PhpFpmPool :=
  let '(entry, pool) := checkout (tn_checkout turn) (tn_before turn pool) in
  match (match entry with
         | Some entry => Ok entry
         | None => let? client := tn_connect turn in Ok (mkPoolEntry client (tn_checkout turn))
         end) with
  | Err error => (Err error, pool)
  | Ok entry =>
      let response := client_execute turn (pe_client entry) params body max_response_bytes in
      (response, match response with Ok _ => checkin (tn_checkin turn) (tn_locked turn) entry (tn_during turn pool) | Err _ => tn_during turn pool end)
  end.
Definition execute_php_fpm_once (turn : FpmTurn) (endpoint : nat) (params : gmap (list Z) (list Z)) (body : list Z) (max_response_bytes : Z)
    (pools : list PhpFpmPool) : result FpmResponse FpmError * list PhpFpmPool :=
  match pools !! endpoint with
  | Some pool =>
      let '(response, pool) := pool_execute turn params body max_response_bytes pool in (response, <[endpoint := pool]> pools)
  | None =>
      (let? client := tn_connect turn in client_execute turn client params body max_response_bytes, pools)
  end.
Definition php_fpm_keepalive_pools_from_config (php : PhpConfig) : list PhpFpmPool :=
  if negb (fc_keepalive (pc_fpm php)) then []
  else (fun _ => mkPool (fc_pool_max_idle (pc_fpm php)) (fc_idle_timeout_secs (pc_fpm php) * NANOS) [])
         <$> php_fpm_endpoints_from_config (pc_fpm php).

(** ** Running a script *)

(** A pattern without the replacement character is found in the text as it is. *)
Definition native_php_stderr_matches_failure_pattern (stderr : list Z) (php : PhpConfig) : bool :=
  existsb (fun pattern => negb (bool_decide (pattern = [])) && bool_decide (is_Some (find_sub pattern stderr))) (pc_stderr_failure_patterns php).
Definition native_php_fpm_output_plan (php : PhpConfig) (output : FpmResponse) (plan : NativePhpRequestPlan)
    : result NativePhpResponsePlan FpmError :=
  if match fr_stderr output with Some stderr => native_php_stderr_matches_failure_pattern stderr php | None => false end
  then Err FpmInvalidData
  else native_php_response_plan (default [] (fr_stdout output)) php (default (bs "GET") (native_php_request_method plan)).
Definition native_php_response_retryable (php : PhpConfig) (response : NativePhpResponsePlan) : bool :=
  php_fpm_retryable_status (pc_fpm php) (rp_status (npl_response response)).
Definition native_php_select_endpoint_index (next_endpoint endpoint_count : Z) : Z * Z :=
  if endpoint_count <=? 1 then (0, next_endpoint)
  else (next_endpoint mod endpoint_count, (next_endpoint + 1) mod (USIZE_MAX + 1)).
(** What is sent to a FastCGI server *)
Record FpmCall : Type := mkCall {
  ca_endpoint : nat;
  ca_params : gmap (list Z) (list Z);
  ca_body : list Z;
}.
(** What the world answers to the attempts of one request *)
Record FpmWorld : Type := mkFpmWorld {
  fw_started : Z;
  fw_traceparent : Z -> option (list Z);
  fw_turn : Z -> FpmTurn;
  fw_clock : Z -> Z;
}.

Section Attempts.
Context (php : PhpConfig) (plan : NativePhpRequestPlan) (body : list Z) (world : FpmWorld).
Context (endpoint_count start_index max_retries : Z) (retry_deadline : option Z).

Definition attempt_endpoint (attempts : Z) : nat := Z.to_nat ((start_index + attempts) mod endpoint_count).
Definition attempt_params (attempts : Z) : gmap (list Z) (list Z) := native_php_fastcgi_params (fw_traceparent world attempts) plan.
(** Whether the outcome of an attempt is one that is tried again, if there may be another *)
Definition try_again (outcome : result FpmResponse FpmError) : bool * result NativePhpResponsePlan FpmError :=
  match outcome with
  | Ok output =>
      match native_php_fpm_output_plan php output plan with
      | Ok response => (native_php_response_retryable php response, Ok response)
      | Err error => (fc_retry_invalid_response (pc_fpm php), Err error)
      end
  | Err error => (php_fpm_retryable_error error, Err error)
  end.
Fixpoint execute_loop (fuel : nat) (attempts : Z) (calls : list FpmCall) (pools : list PhpFpmPool)
    : option (result NativePhpResponsePlan FpmError * list FpmCall * list PhpFpmPool) :=
  match fuel with
  | O => None
  | S fuel =>
      let '(outcome, pools) := execute_php_fpm_once (fw_turn world attempts) (attempt_endpoint attempts) (attempt_params attempts) body
                                 (pc_max_response_bytes php) pools in
      let calls := calls ++ [mkCall (attempt_endpoint attempts) (attempt_params attempts) body] in
      let '(again, answer) := try_again outcome in
      if again && (attempts <? max_retries) && php_fpm_retry_deadline_allows (fw_clock world attempts) retry_deadline
      then execute_loop fuel (attempts + 1) calls pools
      else Some (answer, calls, pools)
  end.
End Attempts.

(** What is changed by a request: the endpoint to start with, and the pools *)
Record PhpRouteState : Type := mkPhpState {
  st_next_endpoint : Z;
  st_pools : list PhpFpmPool;
}.
Definition native_php_execute_fpm (php : PhpConfig) (plan : NativePhpRequestPlan) (body : list Z) (world : FpmWorld) (st : PhpRouteState)
    : option (result NativePhpResponsePlan FpmError * list FpmCall * PhpRouteState) :=
  let endpoints := php_fpm_endpoints_from_config (pc_fpm php) in
  if bool_decide (endpoints = []) then Some (Err FpmInvalidInput, [], st)
  else
    let max_retries := php_fpm_retry_attempts_for_endpoint_count (pc_fpm php) (default (bs "GET") (native_php_request_method plan)) (zlen endpoints) in
    let retry_deadline := php_fpm_retry_deadline (fw_started world) (fc_retry_timeout_secs (pc_fpm php)) in
    let '(start_index, next_endpoint) := native_php_select_endpoint_index (st_next_endpoint st) (zlen endpoints) in
    let* (answer, calls, pools) :=
      execute_loop php plan body world (zlen endpoints) start_index max_retries retry_deadline (S (Z.to_nat max_retries)) 0 [] (st_pools st) in
    Some (answer, calls, mkPhpState next_endpoint pools).

(** ** The handler of a route *)

Record NativePhpErrorPage : Type := mkPhpErrorPage {
  eg_status : Z;
  eg_path : list Z;
  eg_web : NativeHttp1StaticWeb;
}.
Record NativePhpFpmRoute : Type := mkPhpRoute {
  pr_config : PhpConfig;
  pr_root : Path;
  pr_fpm_root : list Z;
  pr_files : NativeHttp1StaticWeb;
  pr_error_pages : list NativePhpErrorPage;
  pr_vhost_name : list Z;
}.
Definition native_php_method_allowed (method : list Z) : bool := listed method [bs "GET"; bs "HEAD"; bs "POST"].
(** A body above the threshold is written to a file; [spool] is how that went. *)
Definition native_php_request_body (r : NativeHttp1Request) (php : PhpConfig) (spool : result unit FpmError) : result (list Z) FpmError :=
  if match pc_max_request_body_bytes php with Some limit => limit <? zlen (rq_body r) | None => false end then Err FpmInvalidData
  else match pc_request_body_spool_threshold_bytes php with
       | None => Ok (rq_body r)
       | Some threshold =>
           if zlen (rq_body r) <=? threshold then Ok (rq_body r)
           else match pc_request_body_spool_dir php with
                | None => Err FpmInvalidInput
                | Some _ => let? _ := spool in Ok (rq_body r)
                end
       end.
Definition php_method_not_allowed : NativeHttp1Response :=
  close_connection (with_header (bs "allow") (bs "GET, HEAD, POST")
    (new_response 405 (bs "Method Not Allowed") (bs "method not allowed" ++ [LF]))).
Definition php_busy : NativeHttp1Response :=
  close_connection (with_header (bs "retry-after") (bs "1") (new_response 503 (bs "Service Unavailable") (bs "php busy" ++ [LF]))).
Definition php_payload_too_large : NativeHttp1Response :=
  close_connection (new_response 413 (bs "Payload Too Large") (bs "payload too large" ++ [LF])).
Definition php_failed : NativeHttp1Response :=
  close_connection (new_response 502 (bs "Bad Gateway") (bs "php-fpm failed" ++ [LF])).
Definition php_redirect (path : list Z) : NativeHttp1Response :=
  close_connection (with_header (bs "location") (path ++ [SLASH]) (new_response 308 (bs "Permanent Redirect") [])).

(** What the world answers to the handler: whether a permit is free, how writing
    the body to a file went, whether there is room for an error page *)
Record PhpWorld : Type := mkPhpWorld {
  pw_permit : bool;
  pw_spool : result unit FpmError;
  pw_room : StaticRoom;
  pw_fpm : FpmWorld;
}.
(** An answer, and what was sent to FastCGI servers on the way *)
Record PhpAnswer : Type := mkPhpAnswer {
  pa_response : NativeHttp1Response;
  pa_calls : list FpmCall;
}.

Section Route.
Context (parse_http_date : list Z -> option Z) (fmt_http_date : Z -> list Z).
Context (percent_decode_str : list Z -> list Z) (dir_order : list (list Z) -> list (list Z)).
Context (route : NativePhpFpmRoute) (world : PhpWorld).

Definition error_page_response (r : NativeHttp1Request) (status : Z) (fs : nat -> Fs) (t : nat) : option NativeHttp1Response * nat :=
  match List.find (fun page => eg_status page =? status) (pr_error_pages route) with
  | None => (None, t)
  | Some page =>
      let '(response, t) := handle_error_page_async parse_http_date fmt_http_date percent_decode_str dir_order (eg_web page)
                              (pw_room world) r (eg_path page) status fs t in
      (close_connection <$> response, t)
  end.
(** The script is known: [handle_resolved_inner] from the permit on *)
Definition execute_script (r : NativeHttp1Request) (script : NativePhpScriptResolution) (fs : nat -> Fs) (t : nat) (st : PhpRouteState)
    : option (PhpAnswer * nat * PhpRouteState) :=
  let php := pr_config route in
  let stop response := Some (mkPhpAnswer response [], t, st) in
  if negb (pw_permit world) then stop php_busy
  else
    match native_php_request_body r php (pw_spool world) with
    | Err error => stop (if bool_decide (error = FpmInvalidData) then php_payload_too_large else php_failed)
    | Ok body =>
        let body := if pc_pass_request_body php then body else [] in
        match native_php_request_plan percent_decode_str r php (pr_root route) (pr_fpm_root route) (sr_local_path script)
                (pr_vhost_name route) (native_php_server_port php r) with
        | None => stop bad_request
        | Some plan =>
            let* (answer, calls, st) := native_php_execute_fpm php plan body (pw_fpm world) st in
            match answer with
            | Err _ => Some (mkPhpAnswer php_failed calls, t, st)
            | Ok planned =>
                match npl_intercept_status planned with
                | None => Some (mkPhpAnswer (npl_response planned) calls, t, st)
                | Some status =>
                    let '(page, t) := error_page_response r status fs t in
                    Some (mkPhpAnswer (default (npl_response planned) page) calls, t, st)
                end
            end
        end
    end.
Definition handle_resolved (r : NativeHttp1Request) (path : list Z) (resolved : result NativePhpScriptResolve IoError)
    (fs : nat -> Fs) (t : nat) (st : PhpRouteState) : option (PhpAnswer * nat * PhpRouteState) :=
  let stop response := Some (mkPhpAnswer response [], t, st) in
  match resolved with
  | Ok (Execute script) => execute_script r script fs t st
  | Ok RedirectDirectorySlash => stop (php_redirect path)
  | Ok Decline | Ok ScriptNotFound => stop not_found
  | Ok ScriptForbidden => stop forbidden
  | Err _ => stop internal_error
  end.
Definition php_handle (r : NativeHttp1Request) (fs : nat -> Fs) (t : nat) (st : PhpRouteState) : option (PhpAnswer * nat * PhpRouteState) :=
  let stop response := Some (mkPhpAnswer response [], t, st) in
  if negb (native_php_method_allowed (rq_method r)) then stop php_method_not_allowed
  else match request_path_and_query r with
       | None => stop bad_request
       | Some (path, _) =>
           let '(resolved, t) := resolve_php_script percent_decode_str dir_order (pr_files route) (pr_config route) path true fs t in
           handle_resolved r path resolved fs t st
       end.
Definition resolution_error_requires_php_fail_closed (path : list Z) : bool :=
  let php := pr_config route in
  match php_script_name_for_request percent_decode_str path (pc_index php) (pc_path_info php) (pc_allowed_extensions php) with
  | None => true
  | Some parsed => ps_explicit_php parsed || php_script_name_denied (pc_deny_path_prefixes php) (ps_script_name parsed)
  end.
Definition resolve_for_fallback (path : list Z) (fs : nat -> Fs) (t : nat) : option (result NativePhpScriptResolve IoError) * nat :=
  let '(resolved, t) := resolve_php_script percent_decode_str dir_order (pr_files route) (pr_config route) path true fs t in
  (match resolved with
   | Ok (Execute _) | Ok RedirectDirectorySlash | Ok ScriptForbidden => Some resolved
   | Ok Decline | Ok ScriptNotFound => None
   | Err _ => if resolution_error_requires_php_fail_closed path then Some resolved else None
   end, t).
End Route.

(** ** Setting up ([native_http1_route_php.rs], [native_http1_route_php/paths.rs]) *)

Definition native_php_root (current_dir : Path) (config : PhpConfig) : Io Path :=
  match pc_root config with
  | None => io_err InvalidInput
  | Some configured =>
      let path := path_join current_dir (components configured) in
      (* a slash at the end makes [lstat] follow a link *)
      do m := call (fun f => if ends_with [SLASH] configured then metadata f path else symlink_metadata f path) in
      if is_symlink (mt_inode m) && negb (pc_resolve_root_symlink config) then io_err InvalidInput
      else if negb (is_symlink (mt_inode m)) && negb (is_dir (mt_inode m)) then io_err InvalidInput
      else
        do root := call (fun f => canonicalize f path) in
        do resolved := call (fun f => metadata f root) in
        if negb (is_dir (mt_inode resolved)) then io_err InvalidInput else io_ret root
  end.
(** The text of the path that the FastCGI server is told *)
Definition native_php_fpm_root (current_dir : Path) (config : PhpConfig) (root : Path) : Io (list Z) :=
  match pc_fpm_root config with
  | None => io_ret (display root)
  | Some configured =>
      do resolved := io_try (call (fun f => canonicalize f (path_join current_dir (components configured)))) in
      match resolved with
      | Ok resolved => io_ret (display resolved)
      | Err NotFound => io_ret configured
      | Err error => io_err error
      end
  end.
Fixpoint native_php_error_pages_from_config (current_dir : Path) (pages : list ProxyErrorPageConfig) : Io (list NativePhpErrorPage) :=
  match pages with
  | [] => io_ret []
  | page :: pages =>
      do web := from_config_with_cache current_dir (ep_web page) None in
      match web with
      | None => io_err InvalidInput
      | Some web =>
          do rest := native_php_error_pages_from_config current_dir pages in
          io_ret (mkPhpErrorPage (ep_status page) (ep_path page) web :: rest)
      end
  end.
(** A route to servers that run on their own, and its first state *)
Definition php_route_from_config (current_dir : Path) (vhost_name : list Z) (config : PhpConfig)
    : Io (option (NativePhpFpmRoute * PhpRouteState)) :=
  if negb (pc_enabled config) then io_ret None
  else
    do root := native_php_root current_dir config in
    do fpm_root := native_php_fpm_root current_dir config root in
    do files := from_config_with_cache current_dir
                  (mkWebConfig (Some (display root)) [pc_index config] true (mkListingConfig false false false) (bs "private, no-store") None) None in
    match files with
    | None => io_err InvalidInput
    | Some files =>
        do error_pages := native_php_error_pages_from_config current_dir (pc_error_pages config) in
        io_ret (Some (mkPhpRoute config root fpm_root files error_pages vhost_name,
                      mkPhpState 0 (php_fpm_keepalive_pools_from_config config)))
    end.
