(* ===== verification/PhpProps.v ===== *)
(** * What a PHP script is told and which script runs

    The variables of a script, the script a request may run, the attempts made to
    run it, and the use of connections that are kept open. *)
From Stdlib Require Import ZArith Lia.
From stdpp Require Import base list numbers strings sets gmap.
From S2P Require Import Prelude Text NetAddr ProxyProtocol HostNames Headers Http1Target Http1Head RequestHeaders UpstreamResponse CacheEntry MemoryCache PathSafety RouteMatch Cors RouteProxy FileSystem StaticPlan StaticWeb StaticResponse StaticWebProps PhpScript PhpResponse PhpRequest.

(** ** Variables *)

(** The trace header of an attempt takes the place of the one of the request. *)
Definition traced (traceparent : option (list Z)) (name value : list Z) : list Z :=
  if bool_decide (name = bs "HTTP_TRACEPARENT") then default value traceparent else value.
Lemma fastcgi_params_lookup traceparent plan name :
  native_php_fastcgi_params traceparent plan !! name = traced traceparent name <$> last_value name (np_params plan).
Proof.
  unfold native_php_fastcgi_params.
  assert (forall params (m : gmap (list Z) (list Z)),
    fold_left (fun params p => <[p.1 := if bool_decide (p.1 = bs "HTTP_TRACEPARENT") then default p.2 traceparent else p.2]> params) params m !! name
    = match last_value name params with Some value => Some (traced traceparent name value) | None => m !! name end) as H.
  { induction params as [| [n v] params IH]; intros m; cbn [fold_left]; [done |]. rewrite IH, last_value_cons. cbn [fst snd].
    destruct (last_value name params); [done |]. destruct (decide (n = name)) as [-> | E].
    - by rewrite (bool_decide_true (name = name)), lookup_insert_eq.
    - by rewrite (bool_decide_false (n = name)), lookup_insert_ne. }
  rewrite H, lookup_empty. by destruct (last_value name (np_params plan)).
Qed.
Definition path_params (script : PhpScriptName) (path_translated : option (list Z)) : list (list Z * list Z) :=
  if bool_decide (ps_path_info script = []) then []
  else (bs "PATH_INFO", ps_path_info script) :: match path_translated with Some translated => [(bs "PATH_TRANSLATED", translated)] | None => [] end.
Definition http_params (php : PhpConfig) (r : NativeHttp1Request) (host : list Z) : list (list Z * list Z) :=
  if pc_pass_request_headers php
  then php_request_header_params (rq_headers r) ++ match php_host_param host with Some p => [p] | None => [] end
  else [].
Definition custom_params (php : PhpConfig) : list (list Z * list Z) := (php_custom_params (pc_params php)).1.
(** What a plan is made of *)
Record plan_parts : Type := mkParts {
  pt_target : Http1RequestTarget;
  pt_request_uri : list Z;
  pt_request_path : list Z;
  pt_query : option (list Z);
  pt_script : PhpScriptName;
  pt_filename : list Z;
  pt_translated : option (list Z);
  pt_host : list Z;
}.
Record plans (percent_decode_str : list Z -> list Z) (r : NativeHttp1Request) (php : PhpConfig) (root : Path) (fpm_root : list Z)
    (local_script : Path) (vhost_name server_port : list Z) (plan : NativePhpRequestPlan) (p : plan_parts) : Prop := {
  pl_target : http1_request_target (rq_method r) (rq_target r) = Ok (pt_target p);
  pl_parts : native_php_request_target_parts (pt_target p) = Some (pt_request_uri p, pt_request_path p, pt_query p);
  pl_script : php_script_name_for_request percent_decode_str (pt_request_path p) (pc_index php) (pc_path_info php) (pc_allowed_extensions php)
              = Some (pt_script p);
  pl_denied : php_script_name_denied (pc_deny_path_prefixes php) (ps_script_name (pt_script p)) = false;
  pl_filename : php_fpm_script_filename root fpm_root local_script = Some (pt_filename p);
  pl_translated : ps_path_info (pt_script p) <> [] ->
    exists translated, pt_translated p = Some translated /\ php_fpm_path_translated fpm_root (ps_path_info (pt_script p)) = Some translated;
  pl_host : pt_host p = match native_php_request_host r with
                        | Some host => host
                        | None => default vhost_name (native_php_target_authority (pt_target p))
                        end;
  pl_params : np_params plan
    = core_params r (pt_script p) (pt_filename p) (pt_request_uri p) (default [] (pt_query p)) fpm_root
        (php_server_name_param (pt_host p) vhost_name) server_port
      ++ http_params php r (pt_host p) ++ custom_params php ++ path_params (pt_script p) (pt_translated p);
}.
Lemma native_php_request_plan_parts percent_decode_str r php root fpm_root local_script vhost_name server_port plan :
  native_php_request_plan percent_decode_str r php root fpm_root local_script vhost_name server_port = Some plan ->
  exists p, plans percent_decode_str r php root fpm_root local_script vhost_name server_port plan p.
Proof.
  unfold native_php_request_plan. destruct (http1_request_target _ _) as [target |] eqn:Et; [| done].
  destruct (native_php_request_target_parts target) as [[[uri path] query] |] eqn:Ep; [| done]. cbn [mbind option_bind].
  destruct (php_script_name_for_request _ _ _ _ _) as [script |] eqn:Es; [| done].
  destruct (php_script_name_denied _ _) eqn:Ed; [done |]. destruct (utf8_valid fpm_root); [| done]. cbn [negb].
  destruct (php_fpm_script_filename _ _ _) as [filename |] eqn:Ef; [| done].
  set (host := match native_php_request_host r with Some host => host | None => _ end).
  destruct (bool_decide (ps_path_info script = [])) eqn:Ei.
  - intros H. eexists (mkParts target uri path query script filename None host). split; cbn; try done.
    + intros Hne. by apply bool_decide_eq_true in Ei.
    + apply (inj Some) in H. subst plan. cbn [np_params]. unfold path_params, http_params, custom_params. rewrite Ei, app_nil_r.
      destruct (pc_pass_request_headers php); cbn [app]; by rewrite <- ?app_assoc.
  - destruct (php_fpm_path_translated _ _) as [translated |] eqn:Etr; [| done]. intros H.
    eexists (mkParts target uri path query script filename (Some translated) host). split; cbn; try done.
    + intros _. by exists translated.
    + apply (inj Some) in H. subst plan. cbn [np_params]. unfold path_params, http_params, custom_params. rewrite Ei.
      destruct (pc_pass_request_headers php); cbn [app]; by rewrite <- ?app_assoc.
Qed.

Definition CORE_PHP_PARAMS : list (list Z) :=
  [bs "GATEWAY_INTERFACE"; bs "SERVER_SOFTWARE"; bs "SERVER_PROTOCOL"; bs "REQUEST_METHOD"; bs "SCRIPT_NAME"; bs "SCRIPT_FILENAME";
   bs "QUERY_STRING"; bs "REQUEST_URI"; bs "DOCUMENT_ROOT"; bs "DOCUMENT_URI"; bs "REMOTE_ADDR"; bs "REMOTE_PORT"; bs "SERVER_ADDR";
   bs "SERVER_PORT"; bs "SERVER_NAME"; bs "CONTENT_TYPE"; bs "CONTENT_LENGTH"; bs "REQUEST_SCHEME"; bs "HTTPS"; bs "REDIRECT_STATUS"].
Lemma core_params_names r script filename uri query root server_name server_port :
  fst <$> core_params r script filename uri query root server_name server_port = CORE_PHP_PARAMS.
Proof. unfold core_params. by destruct (native_php_remote_peer r). Qed.
(** The names the server sets itself cannot be set by headers or by the configuration. *)
Definition own_name (name : list Z) : Prop := starts_with (bs "HTTP_") name = false /\ protected_php_param_name name = true.
Lemma own_name_listed names name :
  forallb (fun n => negb (starts_with (bs "HTTP_") n) && protected_php_param_name n) names = true -> name ∈ names -> own_name name.
Proof.
  intros H Hin%list_elem_of_In. apply (proj1 (forallb_forall _ _) H) in Hin. apply andb_true_iff in Hin as [H1%negb_true_iff H2]. done.
Qed.
Lemma last_value_named name params names value : last_value name params = Some value -> fst <$> params = names -> name ∈ names.
Proof. intros H%last_value_elem <-. apply list_elem_of_fmap. by exists (name, value). Qed.
Lemma core_value_own name r script filename uri query root server_name server_port value :
  last_value name (core_params r script filename uri query root server_name server_port) = Some value -> own_name name.
Proof.
  intros H. eapply last_value_named in H; [| apply core_params_names]. revert H. apply own_name_listed. by vm_compute.
Qed.
Lemma path_value_own name script translated value : last_value name (path_params script translated) = Some value -> own_name name.
Proof.
  intros H%last_value_elem. assert (name ∈ [bs "PATH_INFO"; bs "PATH_TRANSLATED"]) as Hin; [| revert Hin; apply own_name_listed; by vm_compute].
  revert H. unfold path_params. case_bool_decide; [by intros ?%elem_of_nil |].
  destruct translated; rewrite !elem_of_cons, ?elem_of_nil; intros H'; destruct_or!; try done; injection H' as -> _; tauto.
Qed.
Lemma custom_value_free name php value : last_value name (custom_params php) = Some value -> protected_php_param_name name = false.
Proof.
  intros H%last_value_elem. unfold custom_params, php_custom_params in H. cbn [fst] in H.
  apply list_elem_of_In, filter_In in H as [_ H%negb_true_iff]. apply orb_false_iff in H as [H _]. done.
Qed.
Lemma http_value_named name php r host value : last_value name (http_params php r host) = Some value -> starts_with (bs "HTTP_") name = true.
Proof.
  unfold http_params. destruct (pc_pass_request_headers php); [| done]. rewrite last_value_app.
  destruct (last_value name (match php_host_param host with Some p => [p] | None => [] end)) as [v |] eqn:E.
  - intros _. unfold php_host_param in E. destruct (safe_php_param_value host); [| done]. apply last_value_elem in E.
    apply list_elem_of_singleton in E. injection E as -> _. by vm_compute.
  - rewrite header_params_value. intros (n & Hn)%header_param_http. apply php_header_param_name_Some in Hn as (s & -> & _).
    apply starts_with_true. by exists s.
Qed.
(** The variable of a header: the host as it was determined, else the values of the request *)
Definition http_param (php : PhpConfig) (r : NativeHttp1Request) (host name : list Z) : option (list Z) :=
  if negb (pc_pass_request_headers php) then None
  else if bool_decide (name = bs "HTTP_HOST") && safe_php_param_value host then Some host
  else header_param name (rq_headers r).
Lemma http_params_value php r host name : last_value name (http_params php r host) = http_param php r host name.
Proof.
  unfold http_params, http_param, php_host_param. destruct (pc_pass_request_headers php); [| done]. cbn [negb]. rewrite last_value_app, header_params_value.
  destruct (safe_php_param_value host); [| by rewrite andb_false_r]. rewrite andb_true_r, last_value_cons. change (last_value name []) with (@None (list Z)). cbv iota.
  rewrite (bool_decide_ext (bs "HTTP_HOST" = name) (name = bs "HTTP_HOST")) by done. by destruct (bool_decide (name = bs "HTTP_HOST")).
Qed.

Lemma traced_other traceparent name value : starts_with (bs "HTTP_") name = false -> traced traceparent name value = value.
Proof. intros Hn. unfold traced. rewrite bool_decide_false; [done |]. intros ->. by vm_compute in Hn. Qed.
Lemma custom_params_value php name :
  Forall (fun p => validate_php_param_name p.1 = true) (pc_params php) ->
  last_value name (custom_params php)
  = if starts_with (bs "HTTP_") name then None else last_value name (List.filter (fun p => safe_php_param_value p.2) (pc_params php)).
Proof.
  intros Hcustom. rewrite Forall_forall in Hcustom.
  assert (custom_params php = List.filter (fun p => safe_php_param_value p.2) (pc_params php)) as ->.
  { unfold custom_params, php_custom_params. cbn [fst]. apply List.filter_ext_in. intros q Hq%list_elem_of_In%Hcustom.
    unfold validate_php_param_name in Hq. apply andb_true_iff in Hq as [_ Hq%negb_true_iff]. rewrite Hq. cbn. apply negb_involutive. }
  destruct (starts_with (bs "HTTP_") name) eqn:En; [| done]. apply last_value_none. apply Forall_forall. intros q Hq <-.
  apply list_elem_of_In, filter_In in Hq as [Hq%list_elem_of_In%Hcustom _].
  unfold validate_php_param_name in Hq. rewrite En in Hq. cbn [negb] in Hq. by rewrite andb_false_r in Hq.
Qed.
Lemma plan_lookup percent_decode_str r php root fpm_root local_script vhost_name server_port plan p traceparent name :
  Forall (fun p => validate_php_param_name p.1 = true) (pc_params php) ->
  plans percent_decode_str r php root fpm_root local_script vhost_name server_port plan p ->
  native_php_fastcgi_params traceparent plan !! name
  = match last_value name (core_params r (pt_script p) (pt_filename p) (pt_request_uri p) (default [] (pt_query p)) fpm_root
                             (php_server_name_param (pt_host p) vhost_name) server_port
                           ++ path_params (pt_script p) (pt_translated p)) with
    | Some value => Some value
    | None => if starts_with (bs "HTTP_") name then traced traceparent name <$> http_param php r (pt_host p) name
              else last_value name (List.filter (fun p => safe_php_param_value p.2) (pc_params php))
    end.
Proof.
  intros Hcustom Hp. pose proof (custom_params_value php name Hcustom) as Hc.
  rewrite fastcgi_params_lookup, (pl_params _ _ _ _ _ _ _ _ _ _ Hp). set (core := core_params _ _ _ _ _ _ _ _). rewrite !last_value_app.
  assert (starts_with (bs "HTTP_") name = false -> last_value name (http_params php r (pt_host p)) = None) as Hhttp.
  { intros En. destruct (last_value name (http_params _ _ _)) eqn:E; [apply http_value_named in E; congruence | done]. }
  destruct (last_value name (path_params _ _)) as [v |] eqn:Epath.
  { apply path_value_own in Epath as [Hn _]. cbn. by rewrite traced_other. }
  destruct (last_value name core) as [v |] eqn:Ecore.
  - pose proof (core_value_own _ _ _ _ _ _ _ _ _ _ Ecore) as [Hn Hprot]. rewrite (Hhttp Hn).
    destruct (last_value name (custom_params php)) eqn:E; [apply custom_value_free in E; congruence |]. cbn. by rewrite traced_other.
  - rewrite Hc, <- http_params_value. destruct (starts_with (bs "HTTP_") name) eqn:En; [by destruct (last_value name (http_params _ _ _)) |].
    rewrite (Hhttp eq_refl). destruct (last_value name (List.filter _ _)); cbn; [by rewrite traced_other | done].
Qed.

(** C1: The variables of a script are exactly these.  Those of the gateway
    interface hold what the server knows: the address of the client, the method,
    the script, the length of the body; neither a header nor the configuration
    can set or hide one of them.  A variable with the prefix of headers holds the
    values of the one header with this name, joined, or the host of the request;
    there is none that names a proxy.  All others come from the configuration. *)
Theorem php_params_exact percent_decode_str r php root fpm_root local_script vhost_name server_port plan traceparent :
  Forall (fun p => validate_php_param_name p.1 = true) (pc_params php) ->
  native_php_request_plan percent_decode_str r php root fpm_root local_script vhost_name server_port = Some plan ->
  exists p, plans percent_decode_str r php root fpm_root local_script vhost_name server_port plan p
    /\ (forall name,
          native_php_fastcgi_params traceparent plan !! name
          = match last_value name (core_params r (pt_script p) (pt_filename p) (pt_request_uri p) (default [] (pt_query p)) fpm_root
                                     (php_server_name_param (pt_host p) vhost_name) server_port
                                   ++ path_params (pt_script p) (pt_translated p)) with
            | Some value => Some value
            | None => if starts_with (bs "HTTP_") name then traced traceparent name <$> http_param php r (pt_host p) name
                      else last_value name (List.filter (fun p => safe_php_param_value p.2) (pc_params php))
            end)
    /\ native_php_fastcgi_params traceparent plan !! bs "HTTP_PROXY" = None.
Proof.
  intros Hcustom [p Hp]%native_php_request_plan_parts. exists p. split; [done |].
  split; [intros name; by eapply plan_lookup |]. erewrite plan_lookup by done.
  destruct (last_value _ (_ ++ _)) as [v |] eqn:E.
  { rewrite last_value_app in E. destruct (last_value _ (path_params _ _)) eqn:E1; [apply path_value_own in E1 as [H _]; by vm_compute in H |].
    apply core_value_own in E as [H _]. by vm_compute in H. }
  change (starts_with (bs "HTTP_") (bs "HTTP_PROXY")) with true. cbv iota. unfold http_param.
  destruct (pc_pass_request_headers php); [| done]. cbn [negb].
  destruct (bool_decide (bs "HTTP_PROXY" = bs "HTTP_HOST")) eqn:E'; [by vm_compute in E' |]. cbn [andb].
  destruct (header_param _ _) eqn:Eh; [| done]. apply header_param_http in Eh as [n Hn]. by apply php_header_not_proxy in Hn.
Qed.

(** ** Attempts *)

Section AttemptRuns.
Context (php : PhpConfig) (plan : NativePhpRequestPlan) (body : list Z) (world : FpmWorld).
Context (endpoint_count start_index max_retries : Z) (retry_deadline : option Z).
Local Abbreviation endpoint := (attempt_endpoint endpoint_count start_index).
Local Abbreviation params := (attempt_params plan world).
Local Abbreviation loop := (execute_loop php plan body world endpoint_count start_index max_retries retry_deadline).
Local Abbreviation again := (try_again php plan).

(** The outcome of an attempt, for some state of the pools *)
Definition outcome_of (attempt : Z) (outcome : result FpmResponse FpmError) : Prop :=
  exists pools, outcome = (execute_php_fpm_once (fw_turn world attempt) (endpoint attempt) (params attempt) body (pc_max_response_bytes php) pools).1.
(** Attempts from one on: those that are tried again, the last one, and why it is the last *)
Inductive attempts_from : Z -> list FpmCall -> result NativePhpResponsePlan FpmError -> Prop :=
| attempts_last attempt outcome :
    outcome_of attempt outcome ->
    (again outcome).1 = false \/ attempt = max_retries \/ php_fpm_retry_deadline_allows (fw_clock world attempt) retry_deadline = false ->
    attempts_from attempt [mkCall (endpoint attempt) (params attempt) body] (again outcome).2
| attempts_again attempt outcome calls answer :
    outcome_of attempt outcome -> (again outcome).1 = true -> attempt < max_retries ->
    php_fpm_retry_deadline_allows (fw_clock world attempt) retry_deadline = true ->
    attempts_from (attempt + 1) calls answer ->
    attempts_from attempt (mkCall (endpoint attempt) (params attempt) body :: calls) answer.

(** The loop ends, whatever the outcomes are. *)
Lemma execute_loop_runs fuel attempt calls pools :
  attempt <= max_retries -> (Z.to_nat (max_retries - attempt) < fuel)%nat ->
  exists answer made pools', loop fuel attempt calls pools = Some (answer, calls ++ made, pools') /\ attempts_from attempt made answer.
Proof.
  revert attempt calls pools. induction fuel as [| fuel IH]; intros attempt calls pools Hle Hfuel; [lia |]. cbn [execute_loop].
  destruct (execute_php_fpm_once _ _ _ _ _ _) as [outcome pools'] eqn:Ex.
  assert (outcome_of attempt outcome) as Hout by (exists pools; by rewrite Ex).
  destruct (again outcome) as [tried answer] eqn:Ea.
  destruct (tried && (attempt <? max_retries) && php_fpm_retry_deadline_allows _ _) eqn:Er.
  - apply andb_true_iff in Er as [[-> Hlt%Z.ltb_lt]%andb_true_iff Hd].
    destruct (IH (attempt + 1) (calls ++ [mkCall (endpoint attempt) (params attempt) body]) pools') as (answer' & made & pools'' & E & Hm); [lia | lia |].
    exists answer', (mkCall (endpoint attempt) (params attempt) body :: made), pools''. rewrite E, <- app_assoc. split; [done |].
    eapply attempts_again; [done | by rewrite Ea | done | done | done].
  - exists answer, [mkCall (endpoint attempt) (params attempt) body], pools'. split; [done |].
    replace answer with (again outcome).2 by (by rewrite Ea). apply attempts_last; [done |]. rewrite Ea. cbn [fst].
    destruct tried; [| by left]. right. cbn [andb] in Er. apply andb_false_iff in Er as [Er%Z.ltb_ge | Er]; [left; lia | by right].
Qed.
Lemma attempts_calls attempt calls answer :
  attempts_from attempt calls answer -> attempt <= max_retries ->
  1 <= zlen calls <= max_retries - attempt + 1
  /\ calls = (fun k => mkCall (endpoint (attempt + Z.of_nat k)) (params (attempt + Z.of_nat k)) body) <$> seq 0 (length calls).
Proof.
  induction 1 as [attempt outcome Ho Hend | attempt outcome calls answer Ho Hagain Hlt Hd _ IH]; intros Hle.
  - rewrite zlen_cons, zlen_nil. split; [lia |]. cbn. by rewrite Z.add_0_r.
  - destruct IH as [Hl Hc]; [lia |]. rewrite zlen_cons. split; [lia |]. cbn [length seq fmap list_fmap].
    replace (attempt + Z.of_nat 0) with attempt by lia. f_equal. rewrite Hc at 1. rewrite <- (fmap_S_seq 0), <- list_fmap_compose.
    apply list_fmap_ext. intros i k _. cbn [compose]. by replace (attempt + Z.of_nat (S k)) with (attempt + 1 + Z.of_nat k) by lia.
Qed.
End AttemptRuns.

(** C1: A request is sent to a FastCGI server at least once and at most once more
    than the retries allow, only once where its method is not one that may be
    repeated; always the same request but for the trace header; to the endpoints
    one after the other from the one whose turn it is.  An attempt is followed by
    another exactly when its outcome is one to retry and neither the number of
    retries nor the time is used up, and the answer is that of the last attempt. *)
Theorem fpm_attempts_exact php plan body world st :
  php_fpm_endpoints_from_config (pc_fpm php) <> [] -> 0 <= fc_max_retries (pc_fpm php) ->
  let n := zlen (php_fpm_endpoints_from_config (pc_fpm php)) in
  let method := default (bs "GET") (native_php_request_method plan) in
  let retries := php_fpm_retry_attempts_for_endpoint_count (pc_fpm php) method n in
  let start := (native_php_select_endpoint_index (st_next_endpoint st) n).1 in
  exists answer calls st',
    native_php_execute_fpm php plan body world st = Some (answer, calls, st')
    /\ 1 <= zlen calls <= retries + 1
    /\ (php_fpm_retry_method_allowed (pc_fpm php) method = false -> zlen calls = 1)
    /\ calls = (fun k => mkCall (Z.to_nat ((start + Z.of_nat k) mod n)) (native_php_fastcgi_params (fw_traceparent world (Z.of_nat k)) plan) body)
                 <$> seq 0 (length calls)
    /\ attempts_from php plan body world n start retries (php_fpm_retry_deadline (fw_started world) (fc_retry_timeout_secs (pc_fpm php))) 0 calls answer.
Proof.
  intros Hne Hmax. cbv zeta. unfold native_php_execute_fpm. rewrite bool_decide_false by done.
  set (n := zlen _). set (retries := php_fpm_retry_attempts_for_endpoint_count _ _ _).
  assert (0 <= retries) as Hr by (unfold retries, php_fpm_retry_attempts_for_endpoint_count; destruct (negb _); lia).
  destruct (native_php_select_endpoint_index (st_next_endpoint st) n) as [start next] eqn:Es. cbn [fst].
  destruct (execute_loop_runs php plan body world n start retries (php_fpm_retry_deadline (fw_started world) (fc_retry_timeout_secs (pc_fpm php)))
    (S (Z.to_nat retries)) 0 [] (st_pools st)) as (answer & calls & pools & -> & Hrun); [lia | lia |]. cbn [app].
  exists answer, calls, (mkPhpState next pools). split; [done |].
  destruct (attempts_calls _ _ _ _ _ _ _ _ _ _ _ Hrun) as [Hlen Hcalls]; [lia |]. split; [lia |]. split; [| split; [exact Hcalls | exact Hrun]].
  intros Hm. assert (retries = 0) as Hz; [| lia]. unfold retries, php_fpm_retry_attempts_for_endpoint_count. by rewrite Hm.
Qed.

(** *** A server that answers is found *)

Section Failover.
Context (php : PhpConfig) (plan : NativePhpRequestPlan) (body : list Z) (world : FpmWorld).
Context (endpoint_count start_index max_retries : Z) (good : nat) (response : NativePhpResponsePlan).
Local Abbreviation endpoint := (attempt_endpoint endpoint_count start_index).
(** Connections to the other endpoints are refused, this one answers. *)
Definition only_one_answers : Prop :=
  (forall attempt, endpoint attempt <> good ->
     exists error, tn_connect (fw_turn world attempt) = Err error /\ php_fpm_retryable_error error = true)
  /\ (forall attempt, endpoint attempt = good ->
     exists client stream output, tn_connect (fw_turn world attempt) = Ok client
       /\ tn_exchange (fw_turn world attempt) client (attempt_params plan world attempt) body = Ok stream
       /\ collect_php_fpm_response_stream stream (pc_max_response_bytes php) = Ok output
       /\ native_php_fpm_output_plan php output plan = Ok response).
Lemma loop_failover k fuel attempt calls :
  only_one_answers -> native_php_response_retryable php response = false -> 0 <= attempt -> attempt + Z.of_nat k <= max_retries -> (k < fuel)%nat ->
  endpoint (attempt + Z.of_nat k) = good ->
  exists made, execute_loop php plan body world endpoint_count start_index max_retries None fuel attempt calls [] = Some (Ok response, calls ++ made, []).
Proof.
  intros [Hbad Hgood] Hfinal. revert fuel attempt calls. induction k as [| k IH]; intros fuel attempt calls Hpos Hle Hfuel Hend;
    (destruct fuel as [| fuel]; [lia |]); cbn [execute_loop].
  - rewrite Z.add_0_r in Hend. destruct (Hgood attempt Hend) as (client & stream & output & Hc & Hx & Ho & Hp).
    unfold execute_php_fpm_once. rewrite lookup_nil, Hc. unfold client_execute. rewrite Hx, Ho. cbn [try_again]. rewrite Hp, Hfinal. cbn [andb].
    by eexists.
  - destruct (decide (endpoint attempt = good)) as [E | E].
    + destruct (Hgood attempt E) as (client & stream & output & Hc & Hx & Ho & Hp).
      unfold execute_php_fpm_once. rewrite lookup_nil, Hc. unfold client_execute. rewrite Hx, Ho. cbn [try_again]. rewrite Hp, Hfinal. cbn [andb].
      by eexists.
    + destruct (Hbad attempt E) as (error & Hc & Hr). unfold execute_php_fpm_once. rewrite lookup_nil, Hc. cbn [try_again]. rewrite Hr.
      rewrite (proj2 (Z.ltb_lt attempt max_retries)) by lia. cbn [andb php_fpm_retry_deadline_allows].
      destruct (IH fuel (attempt + 1) (calls ++ [mkCall (endpoint attempt) (attempt_params plan world attempt) body])) as [made ->]; [lia | lia | lia | |].
      * by replace (attempt + 1 + Z.of_nat k) with (attempt + Z.of_nat (S k)) by lia.
      * rewrite <- app_assoc. by eexists.
Qed.
End Failover.

(** C1: While one of the FastCGI servers answers and the others refuse
    connections, a request whose method may be repeated is answered by that
    server, whichever one is first in turn, when connections are not kept open
    and no time is set for retries. *)
Theorem fpm_failover php plan body world st good response :
  let n := zlen (php_fpm_endpoints_from_config (pc_fpm php)) in
  let start := (native_php_select_endpoint_index (st_next_endpoint st) n).1 in
  n <= U8_MAX + 1 -> Z.of_nat good < n ->
  st_pools st = [] -> fc_retry_timeout_secs (pc_fpm php) = None ->
  php_fpm_retry_method_allowed (pc_fpm php) (default (bs "GET") (native_php_request_method plan)) = true ->
  only_one_answers php plan body world n start good response ->
  native_php_response_retryable php response = false ->
  exists calls st', native_php_execute_fpm php plan body world st = Some (Ok response, calls, st').
Proof.
  intros n start Hn Hg Hpools Htime Hm Hone Hfinal. unfold native_php_execute_fpm. fold n.
  rewrite bool_decide_false by (intros E; unfold n in Hg; rewrite E, zlen_nil in Hg; lia).
  set (retries := php_fpm_retry_attempts_for_endpoint_count _ _ _).
  assert (n - 1 <= retries) as Hr.
  { unfold retries, php_fpm_retry_attempts_for_endpoint_count. rewrite Hm. cbn [negb]. unfold saturating_sub, U8_MAX in *. lia. }
  assert ((native_php_select_endpoint_index (st_next_endpoint st) n).1 = start) as Es by done. clearbody start.
  destruct (native_php_select_endpoint_index (st_next_endpoint st) n) as [s next]. cbn [fst] in Es. subst s.
  rewrite Hpools, Htime. cbn [php_fpm_retry_deadline mbind option_bind].
  destruct (loop_failover php plan body world n start retries good response (Z.to_nat ((Z.of_nat good - start) mod n)) (S (Z.to_nat retries)) 0 [])
    as [made ->]; [done | done | lia | | | | by eexists _, _].
  - pose proof (Z.mod_pos_bound (Z.of_nat good - start) n ltac:(lia)). lia.
  - pose proof (Z.mod_pos_bound (Z.of_nat good - start) n ltac:(lia)). lia.
  - unfold attempt_endpoint. pose proof (Z.mod_pos_bound (Z.of_nat good - start) n ltac:(lia)). rewrite Z2Nat.id, Z.add_0_l by lia.
    rewrite Z.add_mod_idemp_r by lia. replace (start + (Z.of_nat good - start)) with (Z.of_nat good) by lia. rewrite Z.mod_small by lia. lia.
Qed.
